(* ===== verification/_CoqProject ===== *)
-Q . S2P
Prelude.v
CList.v
PhysMem.v
GenCpu.v
Device.v
Machine.v
DevHost.v
DMem.v
DDisk.v
DDevices.v
Lcd.v
MachineProps.v
ICache.v
ICacheProps.v
RvTypes.v
RvCpu.v
RvCsr.v
RvCsrProps.v
RvTlb.v
Rv32Tlb.v
Rv64Tlb.v
RvWorld.v
RvMem.v
RvMemOps.v
RvComp.v
RvCtl.v
RvVm.v
Rv32Vm.v
Rv64Vm.v
RvSystem.v
RvTrap.v
RvStep.v
Rv32Decode.v
Rv32Cpu.v
Rv64Decode.v
Rv64Cpu.v
RvSample.v
RvIrq.v
DDiskProps.v
DevicesProps.v
RvVmProps.v
Rv32VmProps.v
Rv64VmProps.v
RvTrapProps.v
RvIcacheProps.v
RvCompProps.v
RvIsa.v
Rv32Isa.v
Rv64Isa.v
RvExec.v
RvLaws.v
RvRun.v
RvMemProps.v
R4kTypes.v
R4kTlb.v
R4kMem.v
R4kComp.v
R4kCtl.v
R4kSys.v
R4kMemOps.v
R4kDecode.v
R4kCpu.v
R4kDevice.v
R4kInv.v
R4kStepInv.v
R4kTlbProps.v
R4kExec.v
R4kRun.v
R4kMemProps.v
ShTypes.v
ShFloat.v
ShExec.v
ShDecode.v
ShIntc.v
ShPeri.v
ShCpu.v
ShDev.v
ShIsa.v
ShArith.v
ShProps.v
