(* ===== verification/Prelude.v ===== *)
(** * MSIM: a verification library for the machine simulator

    MSIM simulates a computer: processors, physical memory and devices, stepped
    in lock step by a main loop under user commands.  This library is a shallow
    embedding of its C sources (under src/src) in Rocq, one definition per C
    function, with the theorems that make the components correct.

    ** How C is modelled

    - A w-bit unsigned integer is a [Z] in [0, 2^w) and its wrap-around is written
      out ([wrap], [sgn], [c_not], [ubits], [sbits] below).  Signed overflow,
      oversized shifts, out-of-range indices and uses of freed memory stop the run
      with [UndefinedBehaviour]; a failing [ASSERT] stops it with [AssertFailed].
      [1 << 31] of a 32-bit int is taken as the bit pattern compilers give it.
    - A function that changes state is a state-passing computation [st S A]; a
      function that returns a processor exception is an [exec S A], whose result is
      [inl exception] or [inr value], with [⇐] for the propagating call.
    - A struct is a [Record] with setters [r <| field := v |>]; an enum is an
      [Inductive]; arrays and tables are finite maps; the intrusive lists of list.h
      are modelled as a heap of linked items in [CList] and as lists elsewhere.
    - Loops over a fixed range are recursions on the number of iterations left;
      searches recurse on the list.  The disk, the machine cycle and the runs of
      programs take explicit numbers or lists of steps.  The loops of the timers and
      of the DMA controller run as many turns as their counters hold periods or
      cycles, which is all the source's loops can do.
    - The wall clock, the keyboard and the contents of host files are arguments.

    ** The parts of the program and their files

    Lists and memory.
    - [CList]: list.c and list.h, at the level of pointers.
    - [PhysMem]: physmem.c and the memory breakpoints of debug/breakpoint.c: areas,
      the two-level frame table, reads and writes of 1 to 8 bytes, the reservation
      list of the LR/SC instructions.  It is used through the class [PhysHost],
      which names what memory asks of the machine around it (the device accesses
      and the notification of processors).

    Processors in general and devices.
    - [GenCpu]: device/cpu/general_cpu.c, the processor table and its dispatch.
    - [Device]: device/device.c, machine_step of main.c, command lookup and
      parameters of parser.c.
    - [DevHost]: the interfaces devices are written against: their own state in the
      machine, memory for direct access, the interrupt lines; and the machine of any
      processor family as a host of devices, with the interrupts that family accepts.
    - [DMem], [DDisk], [Lcd]: mem.c, ddisk.c and dlcd.c.
    - [DDevices]: the small devices, a module each: [Keyboard] (dkeyboard.c),
      [Printer] (dprinter.c), [Nomem] (dnomem.c), [Order] (dorder.c), [Cycle]
      (dcycle.c) and [Time] (dtime.c).
    - [DDiskProps], [DevicesProps]: their theorems.
    - [RvIrq]: drvcpu.c, the RISC-V processors as entries of the processor table.

    The machine around a processor, shared by the processor families.
    - [Machine]: the running processor among the others, memory and devices; the
      classes [Core] (what the machine needs of a processor) and [BoardOf] (the
      devices of a configuration).
    - [MachineProps]: what memory accesses leave alone; aligned values of memory;
      partial-correctness triples for state-passing computations, with the rules and
      the automation for invariants.
    - [ICache] ([ICacheProps]): the cache of decoded instructions that every cpu.c
      repeats, and its coherence with memory, for any decoder.

    RISC-V processors.  The sources share riscv_rv_ima and instantiate it at 32 and
    at 64 bits; the library does the same with the class [Xlen].
    - [RvTypes], [RvCpu]: types.h, exception.h, the instruction formats of instr.h
      and the processor's state.
    - [RvCsr] (theorems in [RvCsrProps]): csr.c, every control and status register.
    - [RvWorld]: the machine of a RISC-V processor and the class [Translation]
      (address translation).
    - [RvMem], [RvMemOps]: memory.c, instructions/mem_ops.c and the atomics.
    - [RvComp], [RvCtl], [RvSystem]: instructions/computations.c,
      control_transfer.c and system.c.
    - [RvTlb] with the instances [Rv32Tlb] and [Rv64Tlb]: tlb.c of both processors.
    - [RvVm], [Rv32Vm], [Rv64Vm]: page table entries, Sv32 and Sv39 translation of
      both cpu.c; theorems in [RvVmProps] (for any depth and
      page sizes), [Rv32VmProps] and [Rv64VmProps].
    - [Rv32Decode], [Rv64Decode]: instr.c of both processors.
    - [RvTrap], [RvStep] and the instances [Rv32Cpu], [Rv64Cpu]: traps, interrupts,
      accounting, the cache of decoded instructions, execution and step of both
      cpu.c.  The class [Family] is what the step takes from a processor.
    - [RvTrapProps], [RvIcacheProps]: traps and the cache.
    - [RvIsa], [Rv32Isa], [Rv64Isa]: syntax and encodings of the instruction sets and
      the decoders' inverse property.
    - [RvExec], [RvRun], [RvMemProps]: the meaning of instructions, of runs, of
      loads, stores and atomics, proved once against the class [FamilyLaws], which
      [RvLaws] discharges for both processors.
    - [RvSample]: small machines on which the witnesses run.

    MIPS R4000 processor (device/cpu/mips_r4000).
    - [R4kTypes]: cpu.h: the processor, coprocessor 0, modes, instruction fields.
    - [R4kTlb], [R4kMem]: translation through segments and TLB, the TLB instructions,
      memory accesses of cpu.c.
    - [R4kComp], [R4kCtl], [R4kSys], [R4kMemOps]: the 157 functions of instr/.
    - [R4kDecode], [R4kCpu]: the decoding tables, execution with delay slots,
      exceptions, timer and step of cpu.c.
    - [R4kInv], [R4kStepInv]: the invariant of the processor and its preservation by
      every instruction and by the step; the machine of the witnesses.
    - [R4kTlbProps]: the TLB.
    - [R4kExec], [R4kRun]: a 32-bit MIPS instruction set, its encodings and
      effects, what the functions do on the low halves of the registers, and runs of
      programs with delay slots and exception handlers.
    - [R4kMemProps]: unaligned accesses; departures from the architecture.
    - [R4kDevice]: dr4kcpu.c: the method table with which the devices of an R4000
      machine reach the processor, its eight interrupts, and the commands; the code
      breakpoints of debug/breakpoint.c with the functions of debug/gdb.c and
      debug/dap.c that set them.

    SuperH SH-2E processor and its on-chip devices.
    - [ShTypes]: cpu.h, insn.h and bitops.h of device/cpu/superh_sh2e: the processor,
      the status registers, the vector area, instruction fields and bit operations.
    - [ShFloat]: single-precision numbers as bit patterns, computed with the
      specification floats of the Standard Library.  What the C standard leaves to
      the host (the NaN an operation returns, conversions out of range) is the class
      [HostFloat], with an instance for x86.
    - [ShExec]: exec.c and memops.h, the 167 instruction functions.
    - [ShDecode]: decode.c, every format and the selection among them.
    - [ShIntc]: intc/superh_sh2e/intc.c, intc/general_intc.c and dsh2eintc.c: the
      interrupt controller, the table of controllers and the bus registers.
    - [ShPeri]: data, registers and commands of the compare match timer (dsh2ecmt.c),
      the watchdog (dsh2ewdt.c) and the DMA controller (dsh2edmac.c), a module each,
      and the peripheral interface (peripheral.h).  The class [OnChip] is how the
      processor reaches them.
    - [ShCpu]: cpu.c: the cache of decoded instructions (an instance of [ICache]),
      exceptions, interrupts, resets and the step of every processing state.
    - [ShDev]: the steps of the three devices, their bus accesses, and the commands
      of dsh2ecpu.c.
    - [ShIsa]: the instruction set as a table of bit patterns, and the decoder
      against it.
    - [ShArith]: division by DIV1, arithmetic with carry, saturation of MAC.W; the
      sample machine of the witnesses.
    - [ShProps]: software exceptions, sleep and NMI, the timer and the DMA controller.

    ** What the theorems show

    - Refinement: linked lists refine sequences; memory refines a map of bytes; the
      TLB refines an LRU sequence of mappings, with the answers of its lookups;
      translation through the TLB refines the table lookup of Sv32 and Sv39 (for Sv39
      the architectural answer when the address is canonical and reserved bits are
      zero); fetching through the cache
      refines decoding memory; the functions of instructions refine an integer
      semantics (on the R4000 for the instructions listed in [R4kExec], which leave out
      loads, stores, SUB and some forms of JALR); whole runs of the simulator refine an abstract instruction-set
      machine on both RISC-V processors and on the R4000, there through delay slots,
      branch-likely instructions, exception entry and return.
    - Equivalence: the SH-2E decoder with a table of patterns on every word; the
      step-by-step division of DIV0U, ROTCL and DIV1 with integer division; the
      machine cycle and command lookup with reference definitions.
    - Round trips: encodings and decoders, stores and loads, traps and returns (also
      TRAPA and RTE around any handler that gives back the stack),
      writes and reads of control registers, writes and reads of TLB entries.
    - Safety: coherence of the instruction cache under stores of any processor, no
      stale translations after a flush, atomicity of LR/SC, privilege checks of
      the control registers, bounds of the display.
    - Typing: every state the R4000 reaches has its registers, fields and TLB entries
      in range.  Its TLB maps what TLBWI writes, for every page size; pairs of partial
      loads and stores access unaligned words.
    - Functional behaviour of the interrupt choices of the three processor families
      (the SH-2E controller's arbitration by priority included), of arithmetic with
      carry, and of the compare match timer, whose counting loop is shown to leave
      the remainder of the cycles.
    - Invariants of the control registers, the disk and the processor table;
      liveness of disk transfers under interleaving and of block transfers of the
      DMA controller; termination of list traversals; error behaviour of undecodable
      words; code breakpoints fire at their address, and the debugger's are removed as
      they were set.
    - Departures from the architectures: the overflow test of SUB and the
      reservation of LL on the R4000; reserved bits and upper address bits ignored by
      the Sv39 walk; MAC.W with saturation, NMI during sleep and burst transfers on the
      SH-2E.  Configurations that are accepted and fail: displays without rows or
      columns, a disk with an interrupt that its R4000 does not have.

    ** Not modelled

    The lexer, the environment variables and the main loop around the machine cycle;
    the debugger protocols around the breakpoints; disassembly, register dumps, traces
    and the help and info texts, which only print.  Floating-point exceptions of the
    host and its rounding mode (taken as to nearest) are not part of the state.
    Memory a host allocator provides is assumed available. *)

From stdpp Require Export base tactics numbers list gmap.
From Stdlib Require Export ZArith Lia Btauto.

#[global] Open Scope Z_scope.

(** ** Results of C code

    A C function either returns or stops the simulator.  It stops because an
    [ASSERT] (or [die]) fires, or because the C standard gives the execution
    no meaning (out-of-bounds array index, oversized shift, use after free). *)
Inductive fault :=
  | AssertFailed
  | UndefinedBehaviour.

Inductive outcome (A : Type) :=
  | Done (a : A)
  | Stop (f : fault).
Arguments Done {A} a.
Arguments Stop {A} f.

#[export] Instance fault_eq_dec : EqDecision fault.
Proof. solve_decision. Defined.

(** State-passing computations that may stop. *)
Definition st (S A : Type) : Type := S → outcome (A * S).

#[export] Instance st_ret {S} : MRet (st S) := λ A a s, Done (a, s).
#[export] Instance st_bind {S} : MBind (st S) := λ A B f m s,
  match m s with
  | Done (a, s') => f a s'
  | Stop e => Stop e
  end.

Definition get_st {S} : st S S := λ s, Done (s, s).
Definition gets {S A} (f : S → A) : st S A := λ s, Done (f s, s).
Definition put_st {S} (s : S) : st S unit := λ _, Done (tt, s).
Definition modify {S} (f : S → S) : st S unit := λ s, Done (tt, f s).
Definition stop {S A} (e : fault) : st S A := λ _, Stop e.

(** [ASSERT(b)] of assert.h, in a build without [NDEBUG]. *)
Definition c_assert {S} (b : bool) : st S unit :=
  if b then mret tt else stop AssertFailed.

(** An operation the C standard leaves undefined unless [b]. *)
Definition c_defined {S} (b : bool) : st S unit :=
  if b then mret tt else stop UndefinedBehaviour.

(** Run a computation on a component of a larger state. *)
Definition zoom {S X A} (getx : S → X) (setx : X → S → S) (m : st X A) : st S A :=
  λ s, match m (getx s) with
       | Done (a, x') => Done (a, setx x' s)
       | Stop e => Stop e
       end.

Lemma bind_Done {S A B} (m : st S A) (f : A → st S B) s a s' :
  m s = Done (a, s') → (m ≫= f) s = f a s'.
Proof. intros H. unfold mbind, st_bind. by rewrite H. Qed.

Lemma bind_Stop {S A B} (m : st S A) (f : A → st S B) s e :
  m s = Stop e → (m ≫= f) s = Stop e.
Proof. intros H. unfold mbind, st_bind. by rewrite H. Qed.

Lemma bind_ext {S A B} (m : st S A) (f g : A → st S B) s :
  (∀ a s', f a s' = g a s') → (m ≫= f) s = (m ≫= g) s.
Proof. intros H. unfold mbind, st_bind. by destruct (m s) as [[a s']|e]. Qed.

Lemma bind_inv_Done {S A B} (m : st S A) (f : A → st S B) s b s'' :
  (m ≫= f) s = Done (b, s'') →
  ∃ a s', m s = Done (a, s') ∧ f a s' = Done (b, s'').
Proof.
  unfold mbind, st_bind. destruct (m s) as [[a s']|e]; [eauto | done].
Qed.

(** Unfolds one layer of the monad everywhere in the goal. *)
Ltac msimpl :=
  cbv [mbind st_bind mret st_ret get_st gets put_st modify stop c_assert
       c_defined zoom].
Tactic Notation "msimpl" "in" hyp(H) :=
  cbv [mbind st_bind mret st_ret get_st gets put_st modify stop c_assert
       c_defined zoom] in H.

(** Inverts the binds of a successful run. *)
Ltac minv :=
  repeat match goal with
  | H : (_ ≫= _) _ = Done _ |- _ =>
      apply bind_inv_Done in H; destruct H as (? & ? & ? & H)
  | H : Done _ = Done _ |- _ => injection H as; subst
  | H : Stop _ = Done _ |- _ => discriminate H
  | H : Done _ = Stop _ |- _ => discriminate H
  end.

(** ** Functional record update

    [eta] is the constructor of a record applied to all projections of [r]; a
    setter is obtained from it by abstracting one projection. *)
Class Eta (R : Type) := eta : R → R.

Class SetField {R T : Type} (proj : R → T) := set_field : T → R → R.
#[global] Hint Mode SetField + + + : typeclass_instances.

Ltac derive_set_field :=
  match goal with
  | |- @SetField ?R ?T ?proj =>
      let e := constr:(_ : Eta R) in
      let body := eval hnf in e in
      let abstracted := eval pattern proj in body in
      match abstracted with
      | ?f _ =>
          let g := eval cbv beta in (fun (v : T) (r : R) => f (fun _ => v) r) in
          exact g
      end
  end.

Notation "r <| proj := v |>" := (set_field (proj:=proj) v r)
  (at level 1, left associativity, format "r  <| proj  :=  v |>").

(** ** Machine integers

    A w-bit unsigned C value is a [Z] in [0, 2^w). *)
Definition wrap (w x : Z) : Z := x mod 2 ^ w.

(** The signed (two's complement) reading of a w-bit value. *)
Definition sgn (w x : Z) : Z :=
  let u := wrap w x in if u <? 2 ^ (w - 1) then u else u - 2 ^ w.

(** C's [~x] at width w. *)
Definition c_not (w x : Z) : Z := Z.land (Z.lnot x) (Z.ones w).

(** A bit-field of [n] bits starting at bit [lo]: unsigned and signed. *)
Definition ubits (x lo n : Z) : Z := Z.land (Z.shiftr x lo) (Z.ones n).
Definition sbits (x lo n : Z) : Z := sgn n (ubits x lo n).

(** [be16toh] and [be32toh] on a little-endian host. *)
Definition be16toh (v : Z) : Z := Z.lor (Z.shiftl (Z.land v 0xff) 8) (Z.land (Z.shiftr v 8) 0xff).
Definition be32toh (v : Z) : Z :=
  Z.lor (Z.shiftl (be16toh (wrap 16 v)) 16) (be16toh (Z.shiftr v 16)).

(** A C value used as a condition. *)
Definition truthy (x : Z) : bool := negb (x =? 0).
Definition bool_to_Z (b : bool) : Z := if b then 1 else 0.

Definition in_width (w x : Z) : Prop := 0 ≤ x < 2 ^ w.

Create HintDb widths discriminated.
Create Rewrite HintDb zbits.

Lemma pow2_pos w : 0 ≤ w → 0 < 2 ^ w.
Proof. intros. by apply Z.pow_pos_nonneg. Qed.

Lemma wrap_range w x : 0 ≤ w → in_width w (wrap w x).
Proof. intros. unfold in_width, wrap. apply Z.mod_pos_bound, pow2_pos. lia. Qed.

Lemma wrap_small w x : in_width w x → wrap w x = x.
Proof. intros. unfold wrap. by apply Z.mod_small. Qed.

Lemma wrap_idemp w x : 0 ≤ w → wrap w (wrap w x) = wrap w x.
Proof. intros. by apply wrap_small, wrap_range. Qed.

Lemma wrap_land w x : 0 ≤ w → wrap w x = Z.land x (Z.ones w).
Proof. intros. unfold wrap. by rewrite Z.land_ones. Qed.

Lemma ubits_range x lo n : 0 ≤ n → in_width n (ubits x lo n).
Proof. intros. unfold ubits. rewrite <- wrap_land by done. by apply wrap_range. Qed.

Lemma sgn_range w x : 0 < w → - 2 ^ (w - 1) ≤ sgn w x < 2 ^ (w - 1).
Proof.
  intros Hw. unfold sgn. cbv zeta.
  assert (2 ^ w = 2 * 2 ^ (w - 1)) as E.
  { rewrite <- Z.pow_succ_r by lia. f_equal; lia. }
  pose proof (wrap_range w x) as H. unfold in_width in H.
  case (Z.ltb_spec (wrap w x) (2 ^ (w - 1))); lia.
Qed.

Lemma wrap_sgn w x : 0 ≤ w → wrap w (sgn w x) = wrap w x.
Proof.
  intros Hw. unfold sgn. cbv zeta. destruct (_ <? _).
  - by apply wrap_idemp.
  - unfold wrap at 1. replace (wrap w x - 2 ^ w) with (wrap w x + (-1) * 2 ^ w) by lia.
    rewrite Z.mod_add by (pose proof (pow2_pos w); lia). by apply wrap_idemp.
Qed.

Lemma sgn_wrap w x : 0 ≤ w → sgn w (wrap w x) = sgn w x.
Proof. intros. unfold sgn. cbv zeta. by rewrite wrap_idemp. Qed.

Lemma wrap_add_l w x y : 0 ≤ w → wrap w (wrap w x + y) = wrap w (x + y).
Proof. intros. unfold wrap. apply Zplus_mod_idemp_l. Qed.

Lemma wrap_add_r w x y : 0 ≤ w → wrap w (x + wrap w y) = wrap w (x + y).
Proof. intros. unfold wrap. apply Zplus_mod_idemp_r. Qed.

(** Congruence: two integers with the same wrap-around. *)
Lemma wrap_eq_add w x y k : 0 ≤ w → x = y + k * 2 ^ w → wrap w x = wrap w y.
Proof.
  intros Hw ->. unfold wrap. apply Z.mod_add. pose proof (pow2_pos w Hw). lia.
Qed.

Lemma sgn_congr w x : 0 ≤ w → ∃ k, sgn w x = x + k * 2 ^ w.
Proof.
  intros Hw. unfold sgn, wrap. cbv zeta. pose proof (pow2_pos w Hw).
  pose proof (Z.div_mod x (2 ^ w) ltac:(lia)) as E.
  destruct (_ <? _); [exists (- (x / 2 ^ w)) | exists (- (x / 2 ^ w) - 1)]; lia.
Qed.

Lemma in_width_0 w : 0 ≤ w → in_width w 0.
Proof. intros. unfold in_width. pose proof (pow2_pos w). lia. Qed.

Lemma in_width_bool w b : 1 ≤ w → in_width w (bool_to_Z b).
Proof.
  intros. unfold in_width. pose proof (Z.pow_le_mono_r 2 1 w ltac:(lia) ltac:(lia)).
  destruct b; simpl; lia.
Qed.

(** ** Bitwise reasoning *)

Lemma testbit_high w x i : 0 ≤ w → in_width w x → w ≤ i → Z.testbit x i = false.
Proof.
  intros Hw Hx Hi. rewrite <- (wrap_small w x Hx). unfold wrap.
  apply Z.mod_pow2_bits_high. lia.
Qed.

Lemma in_width_testbit w x :
  0 ≤ w → 0 ≤ x → (∀ i, w ≤ i → Z.testbit x i = false) → in_width w x.
Proof.
  intros Hw Hx Hb. assert (x = wrap w x) as ->; [|by apply wrap_range].
  apply Z.bits_inj'. intros i Hi. unfold wrap.
  destruct (Z.lt_ge_cases i w).
  - by rewrite Z.mod_pow2_bits_low by lia.
  - rewrite Z.mod_pow2_bits_high by lia. by apply Hb.
Qed.

Lemma land_width_l w x m : 0 ≤ w → in_width w x → in_width w (Z.land x m).
Proof.
  intros Hw Hx. apply in_width_testbit; [done| apply Z.land_nonneg; unfold in_width in Hx; lia|].
  intros i Hi. by rewrite Z.land_spec, (testbit_high w x i).
Qed.

Lemma land_width_r w x m : 0 ≤ w → in_width w m → in_width w (Z.land x m).
Proof. intros. rewrite Z.land_comm. by apply land_width_l. Qed.

Lemma lor_width w x y : 0 ≤ w → in_width w x → in_width w y → in_width w (Z.lor x y).
Proof.
  intros Hw Hx Hy. apply in_width_testbit; [done| apply Z.lor_nonneg; unfold in_width in *; lia|].
  intros i Hi. by rewrite Z.lor_spec, (testbit_high w x i), (testbit_high w y i).
Qed.

Lemma lxor_width w x y : 0 ≤ w → in_width w x → in_width w y → in_width w (Z.lxor x y).
Proof.
  intros Hw Hx Hy.
  apply in_width_testbit; [done| apply Z.lxor_nonneg; unfold in_width in *; lia|].
  intros i Hi. by rewrite Z.lxor_spec, (testbit_high w x i), (testbit_high w y i).
Qed.

Lemma c_not_width w x : 0 ≤ w → in_width w (c_not w x).
Proof. intros. unfold c_not. rewrite <- wrap_land by done. by apply wrap_range. Qed.

Lemma shiftr_width w x k : 0 ≤ w → 0 ≤ k → in_width w x → in_width w (Z.shiftr x k).
Proof.
  intros Hw Hk Hx. unfold in_width in *. rewrite Z.shiftr_div_pow2 by done.
  pose proof (pow2_pos k Hk). split; [apply Z.div_pos; lia|].
  apply Z.le_lt_trans with x; [|lia]. apply Z.div_le_upper_bound; nia.
Qed.

Lemma in_width_mono w w' x : 0 ≤ w → w ≤ w' → in_width w x → in_width w' x.
Proof.
  intros Hw Hle Hx. unfold in_width in *.
  pose proof (Z.pow_le_mono_r 2 w w' ltac:(lia) Hle). lia.
Qed.

#[export] Hint Resolve wrap_range ubits_range land_width_l land_width_r lor_width
  lxor_width c_not_width shiftr_width in_width_0 in_width_bool : widths.

Lemma testbit_bit k i : 0 ≤ k → Z.testbit (Z.shiftl 1 k) i = (i =? k).
Proof.
  intros Hk. rewrite Z.shiftl_1_l. destruct (Z.eqb_spec i k) as [->|Hne].
  - by apply Z.pow2_bits_true.
  - by apply Z.pow2_bits_false.
Qed.

Lemma testbit_wrap w x i : 0 ≤ w → 0 ≤ i → Z.testbit (wrap w x) i = (i <? w) && Z.testbit x i.
Proof.
  intros Hw Hi. unfold wrap. destruct (Z.ltb_spec i w); simpl.
  - apply Z.mod_pow2_bits_low. lia.
  - apply Z.mod_pow2_bits_high. lia.
Qed.

Lemma testbit_ones w i : 0 ≤ w → 0 ≤ i → Z.testbit (Z.ones w) i = (i <? w).
Proof.
  intros Hw Hi. destruct (Z.ltb_spec i w).
  - by apply Z.ones_spec_low.
  - apply Z.ones_spec_high. lia.
Qed.

Lemma testbit_c_not w x i :
  0 ≤ w → 0 ≤ i → Z.testbit (c_not w x) i = (i <? w) && negb (Z.testbit x i).
Proof.
  intros Hw Hi. unfold c_not. rewrite Z.land_spec, Z.lnot_spec, testbit_ones by done.
  by rewrite andb_comm.
Qed.

Lemma testbit_shiftl' x k i :
  0 ≤ k → 0 ≤ i → Z.testbit (Z.shiftl x k) i = (k <=? i) && Z.testbit x (i - k).
Proof.
  intros Hk Hi. rewrite Z.shiftl_spec by done. destruct (Z.leb_spec k i); [done|].
  by rewrite Z.testbit_neg_r by lia.
Qed.

Lemma testbit_ubits x lo n i :
  0 ≤ lo → 0 ≤ n → 0 ≤ i → Z.testbit (ubits x lo n) i = (i <? n) && Z.testbit x (i + lo).
Proof.
  intros. unfold ubits. rewrite Z.land_spec, Z.shiftr_spec, testbit_ones by done.
  by rewrite andb_comm.
Qed.

#[export] Hint Rewrite Z.land_spec Z.lor_spec Z.lxor_spec Z.ldiff_spec Z.testbit_0_l : zbits.
#[export] Hint Rewrite Z.shiftr_spec Z.lnot_spec testbit_bit testbit_wrap testbit_ones
  testbit_c_not testbit_shiftl' testbit_ubits using lia : zbits.

(** A field read through its mask, and fields put together. *)
Lemma land_field x k n : 0 ≤ k → 0 ≤ n →
  Z.land x (Z.shiftl (Z.ones n) k) = Z.shiftl ((x / 2 ^ k) mod 2 ^ n) k.
Proof.
  intros Hk Hn. rewrite <- Z.land_ones, <- Z.shiftr_div_pow2 by done.
  apply Z.bits_inj'. intros i Hi. rewrite Z.land_spec, !testbit_shiftl' by done.
  destruct (Z.leb_spec k i); cbn [andb]; [|by rewrite andb_false_r].
  rewrite Z.land_spec, Z.shiftr_spec by lia. f_equal. f_equal. lia.
Qed.

Lemma field_shiftr x k n : 0 ≤ k → 0 ≤ n →
  Z.shiftr (Z.land x (Z.shiftl (Z.ones n) k)) k = (x / 2 ^ k) mod 2 ^ n.
Proof. intros Hk Hn. by rewrite land_field, Z.shiftr_shiftl_l, Z.sub_diag, Z.shiftl_0_r. Qed.

Lemma lor_disjoint a b k : 0 ≤ k → in_width k b → Z.lor (Z.shiftl a k) b = a * 2 ^ k + b.
Proof.
  intros Hk Hb. rewrite <- Z.shiftl_mul_pow2 by done.
  assert (Z.land (Z.shiftl a k) b = 0) as E.
  { apply Z.bits_inj'. intros i Hi. rewrite Z.land_spec, Z.testbit_0_l, testbit_shiftl' by done.
    destruct (Z.leb_spec k i); [|done]. by rewrite (testbit_high k b), andb_false_r. }
  by rewrite Z.add_nocarry_lxor, Z.lxor_lor.
Qed.

Lemma lor_fields m y o a b : 0 ≤ b ≤ a → in_width (a - b) y → in_width b o →
  Z.lor (Z.lor (Z.shiftl m a) (Z.shiftl y b)) o = m * 2 ^ a + y * 2 ^ b + o.
Proof.
  intros Hab Hy Ho. unfold in_width in *. rewrite <- Z.lor_assoc, (lor_disjoint y) by (done || lia).
  assert (2 ^ a = 2 ^ (a - b) * 2 ^ b) as E by (rewrite <- Z.pow_add_r by lia; f_equal; lia).
  rewrite lor_disjoint by (lia || (unfold in_width; nia)). lia.
Qed.

(** A single bit read through its mask. *)
Lemma truthy_mask x k : 0 ≤ k → truthy (Z.land x (Z.shiftl 1 k)) = Z.testbit x k.
Proof.
  intros Hk. unfold truthy. destruct (Z.testbit x k) eqn:E.
  - apply negb_true_iff, Z.eqb_neq. intros H0.
    assert (Z.testbit (Z.land x (Z.shiftl 1 k)) k = false) as H1 by (rewrite H0; apply Z.testbit_0_l).
    rewrite Z.land_spec, E, testbit_bit, Z.eqb_refl in H1 by done. discriminate.
  - apply negb_false_iff, Z.eqb_eq, Z.bits_inj'. intros i Hi.
    rewrite Z.land_spec, testbit_bit, Z.testbit_0_l by done.
    destruct (Z.eqb_spec i k) as [->|]; by rewrite ?E, ?andb_false_r.
Qed.

(** All bits of [x] are bits of the mask [m]. *)
Definition bits_in (x m : Z) : Prop := Z.land x m = x.

Lemma bits_in_spec x m :
  bits_in x m ↔ ∀ i, 0 ≤ i → Z.testbit x i = true → Z.testbit m i = true.
Proof.
  unfold bits_in. split.
  - intros E i Hi Hx. rewrite <- E, Z.land_spec in Hx. by apply andb_true_iff in Hx as [_ ?].
  - intros Hb. apply Z.bits_inj'. intros i Hi. rewrite Z.land_spec.
    destruct (Z.testbit x i) eqn:E; [by rewrite Hb|done].
Qed.

Lemma bits_in_0 m : bits_in 0 m.
Proof. apply Z.land_0_l. Qed.

Lemma bits_in_land_mask v m : bits_in (Z.land v m) m.
Proof. unfold bits_in. by rewrite <- Z.land_assoc, Z.land_diag. Qed.

Lemma bits_in_land x y m : bits_in x m → bits_in (Z.land x y) m.
Proof.
  unfold bits_in. intros E. by rewrite <- Z.land_assoc, (Z.land_comm y), Z.land_assoc, E.
Qed.

Lemma bits_in_land_r x y m : bits_in y m → bits_in (Z.land x y) m.
Proof. rewrite Z.land_comm. apply bits_in_land. Qed.

Lemma bits_in_lor x y m : bits_in x m → bits_in y m → bits_in (Z.lor x y) m.
Proof. unfold bits_in. intros E F. by rewrite Z.land_lor_distr_l, E, F. Qed.

Lemma bits_in_trans x m m' : bits_in x m → bits_in m m' → bits_in x m'.
Proof. unfold bits_in. intros E F. rewrite <- E, <- Z.land_assoc. by rewrite F. Qed.

Lemma bits_in_width w x m : 0 ≤ w → in_width w m → bits_in x m → in_width w x.
Proof. intros Hw Hm E. rewrite <- E. by apply land_width_r. Qed.

(** Decides [bits_in] of an expression over masks. *)
Ltac in_mask :=
  lazymatch goal with
  | |- bits_in (Z.lor _ _) _ => apply bits_in_lor; in_mask
  | |- bits_in (Z.land _ ?m) ?m => apply bits_in_land_mask
  | |- bits_in (Z.land _ _) _ =>
      first [apply bits_in_land; in_mask | apply bits_in_land_r; in_mask]
  | |- bits_in (if ?b then _ else _) _ => destruct b; in_mask
  | |- bits_in _ _ => first [assumption | eassumption | reflexivity]
  end.

(** ** Lists of numbers without duplicates *)

Lemma filter_all {A} (P : A → Prop) `{∀ x, Decision (P x)} (xs : list A) :
  (∀ x, x ∈ xs → P x) → filter P xs = xs.
Proof.
  induction xs as [|x xs IH]; [done|]. intros HP. rewrite filter_cons_True by (apply HP; by left).
  f_equal. apply IH. intros y Hy. apply HP. by right.
Qed.

Lemma filter_not_in (xs : list Z) it : it ∉ xs → filter (λ x, x ≠ it) xs = xs.
Proof. intros Hni. apply filter_all. by intros x Hx ->. Qed.

Lemma filter_middle (pre post : list Z) it :
  NoDup (pre ++ it :: post) → filter (λ x, x ≠ it) (pre ++ it :: post) = pre ++ post.
Proof.
  intros (_ & Hd & [Hn _]%NoDup_cons)%NoDup_app.
  rewrite filter_app, filter_cons_False, !filter_not_in; [done|done| |tauto].
  intros Hx. apply (Hd it Hx), elem_of_cons. by left.
Qed.

(** A property of all numbers below a bound, checked by computation. *)
Lemma forallb_below (f : Z → bool) (bound : nat) n :
  forallb (λ i, f (Z.of_nat i)) (seq 0 bound) = true → 0 ≤ n < Z.of_nat bound → f n = true.
Proof.
  intros H Hn. rewrite forallb_forall in H. rewrite <- (Z2Nat.id n) by lia.
  apply H, in_seq. lia.
Qed.
