(* ===== verification/CList.v ===== *)
(** * Intrusive doubly linked lists (src/src/list.h, src/src/list.c)

    The heap maps item addresses to [item_t] and list addresses to [list_t].
    Every operation is the C function, pointer store by pointer store, in the
    order of the source; dereferencing an address that is not allocated is
    undefined behaviour.  [list_rel] relates the heap to the abstract value of
    every list, a sequence of item addresses; the refinement theorems show that
    [list_append], [list_push] and [list_remove] implement snoc, cons and
    removal, and that a [for_each] walk visits exactly that sequence. *)

From S2P Require Import Prelude.

Module CList.

Definition loc := Z.

Record item_t := mk_item {
  item_list : option loc;
  item_prev : option loc;
  item_next : option loc
}.

Record list_t := mk_list {
  list_head : option loc;
  list_tail : option loc
}.

Record heap := mk_heap {
  items : gmap loc item_t;
  lists : gmap loc list_t
}.

#[export] Instance eta_item_t : Eta item_t :=
  λ r, mk_item (item_list r) (item_prev r) (item_next r).
#[export] Instance set_item_list : SetField item_list := ltac:(derive_set_field).
#[export] Instance set_item_prev : SetField item_prev := ltac:(derive_set_field).
#[export] Instance set_item_next : SetField item_next := ltac:(derive_set_field).
#[export] Instance eta_list_t : Eta list_t := λ r, mk_list (list_head r) (list_tail r).
#[export] Instance set_list_head : SetField list_head := ltac:(derive_set_field).
#[export] Instance set_list_tail : SetField list_tail := ltac:(derive_set_field).
#[export] Instance item_eq_dec : EqDecision item_t.
Proof. solve_decision. Defined.

(** ** Pointer access *)
Definition load_item (p : loc) : st heap item_t := λ h,
  match items h !! p with Some i => Done (i, h) | None => Stop UndefinedBehaviour end.

Definition load_list (p : loc) : st heap list_t := λ h,
  match lists h !! p with Some l => Done (l, h) | None => Stop UndefinedBehaviour end.

(** [p->field = ...] *)
Definition upd_item (p : loc) (f : item_t → item_t) : st heap unit := λ h,
  match items h !! p with
  | Some i => Done (tt, mk_heap (<[p := f i]> (items h)) (lists h))
  | None => Stop UndefinedBehaviour
  end.

Definition upd_list (p : loc) (f : list_t → list_t) : st heap unit := λ h,
  match lists h !! p with
  | Some l => Done (tt, mk_heap (items h) (<[p := f l]> (lists h)))
  | None => Stop UndefinedBehaviour
  end.

(** Following a pointer that may be [NULL] is undefined. *)
Definition deref (p : option loc) : st heap loc :=
  match p with Some q => mret q | None => stop UndefinedBehaviour end.

(** ** The operations of list.c *)
Definition list_init (l : loc) : st heap unit :=
  upd_list l (λ r, r <| list_head := None |>);;
  upd_list l (λ r, r <| list_tail := None |>).

Definition item_init (it : loc) : st heap unit :=
  upd_item it (λ r, r <| item_list := None |>).

Definition is_empty (r : list_t) : bool :=
  bool_decide (list_head r = None) && bool_decide (list_tail r = None).

Definition list_append (l it : loc) : st heap unit :=
  i ← load_item it;
  c_assert (bool_decide (item_list i = None));;
  upd_item it (λ r, r <| item_list := Some l |>);;
  r ← load_list l;
  (if decide (list_tail r = None)
   then upd_list l (λ r, r <| list_head := Some it |>)
   else t ← deref (list_tail r); upd_item t (λ r, r <| item_next := Some it |>));;
  r' ← load_list l;
  upd_item it (λ i, i <| item_prev := list_tail r' |>);;
  upd_item it (λ i, i <| item_next := None |>);;
  upd_list l (λ r, r <| list_tail := Some it |>).

Definition list_push (l it : loc) : st heap unit :=
  i ← load_item it;
  c_assert (bool_decide (item_list i = None));;
  upd_item it (λ r, r <| item_list := Some l |>);;
  r ← load_list l;
  (if is_empty r
   then upd_list l (λ r, r <| list_tail := Some it |>)
   else hd ← deref (list_head r); upd_item hd (λ i, i <| item_prev := Some it |>));;
  r' ← load_list l;
  upd_item it (λ i, i <| item_next := list_head r' |>);;
  upd_item it (λ i, i <| item_prev := None |>);;
  upd_list l (λ r, r <| list_head := Some it |>).

Definition list_remove (l it : loc) : st heap unit :=
  i ← load_item it;
  c_assert (bool_decide (item_list i = Some l));;
  upd_item it (λ r, r <| item_list := None |>);;
  i1 ← load_item it;
  (if decide (item_prev i1 = None)
   then upd_list l (λ r, r <| list_head := item_next i1 |>)
   else p ← deref (item_prev i1); upd_item p (λ r, r <| item_next := item_next i1 |>));;
  i2 ← load_item it;
  (if decide (item_next i2 = None)
   then upd_list l (λ r, r <| list_tail := item_prev i2 |>)
   else n ← deref (item_next i2); upd_item n (λ r, r <| item_prev := item_prev i2 |>)).

Definition list_insert_after (anchor it : loc) : st heap unit :=
  a ← load_item anchor;
  c_assert (bool_decide (item_list a ≠ None));;
  i ← load_item it;
  c_assert (bool_decide (item_list i = None));;
  l ← deref (item_list a);
  r ← load_list l;
  if decide (list_tail r = Some anchor)
  then list_append l it
  else
    upd_item it (λ i, i <| item_list := item_list a |>);;
    upd_item it (λ i, i <| item_prev := Some anchor |>);;
    upd_item it (λ i, i <| item_next := item_next a |>);;
    upd_item anchor (λ i, i <| item_next := Some it |>).

(** [for_each(list, member, type)]: the items visited when the body leaves the
    list alone, with [fuel] bounding the number of iterations. *)
Fixpoint walk (fuel : nat) (h : heap) (p : option loc) : option (list loc) :=
  match p with
  | None => Some []
  | Some q =>
      match fuel with
      | O => None
      | S fuel' =>
          match items h !! q with
          | None => None
          | Some i => cons q <$> walk fuel' h (item_next i)
          end
      end
  end.

Definition for_each_items (fuel : nat) (h : heap) (l : loc) : option (list loc) :=
  match lists h !! l with None => None | Some r => walk fuel h (list_head r) end.

(** ** Abstract value of a list *)

(** The item before position [k] and the item at position [k]. *)
Definition before (xs : list loc) (k : nat) : option loc :=
  match k with O => None | S k' => xs !! k' end.

Record is_list (h : heap) (l : loc) (xs : list loc) : Prop := {
  il_head : lists h !! l = Some (mk_list (head xs) (last xs));
  il_nodup : NoDup xs;
  il_link : ∀ k x, xs !! k = Some x →
    items h !! x = Some (mk_item (Some l) (before xs k) (xs !! S k));
  il_own : ∀ x i, items h !! x = Some i → item_list i = Some l → x ∈ xs
}.

(** All lists of a heap at once: the allocated items and the value of every list. *)
Record lists_spec := mk_spec {
  alloc : gset loc;
  seqs : gmap loc (list loc)
}.

Record list_rel (h : heap) (a : lists_spec) : Prop := {
  lr_alloc : dom (items h) = alloc a;
  lr_seqs : ∀ l xs, seqs a !! l = Some xs → is_list h l xs;
  lr_owner : ∀ x i l, items h !! x = Some i → item_list i = Some l → is_Some (seqs a !! l)
}.

(** The operations and their specification on sequences. *)
Inductive op :=
  | Append (l it : loc)
  | Push (l it : loc)
  | Remove (l it : loc).

Definition run_op (o : op) : st heap unit :=
  match o with
  | Append l it => list_append l it
  | Push l it => list_push l it
  | Remove l it => list_remove l it
  end.

Fixpoint run_ops (os : list op) : st heap unit :=
  match os with [] => mret tt | o :: os' => run_op o;; run_ops os' end.

Definition free (a : lists_spec) (it : loc) : Prop :=
  it ∈ alloc a ∧ map_Forall (λ _ xs, it ∉ xs) (seqs a).

#[export] Instance free_dec a it : Decision (free a it).
Proof. unfold free. apply _. Defined.

Definition spec_op (o : op) (a : lists_spec) : option lists_spec :=
  match o with
  | Append l it =>
      xs ← seqs a !! l; guard (free a it);;
      Some (mk_spec (alloc a) (<[l := xs ++ [it]]> (seqs a)))
  | Push l it =>
      xs ← seqs a !! l; guard (free a it);;
      Some (mk_spec (alloc a) (<[l := it :: xs]> (seqs a)))
  | Remove l it =>
      xs ← seqs a !! l; guard (it ∈ xs);;
      Some (mk_spec (alloc a) (<[l := filter (λ x, x ≠ it) xs]> (seqs a)))
  end.

Fixpoint spec_ops (os : list op) (a : lists_spec) : option lists_spec :=
  match os with [] => Some a | o :: os' => a' ← spec_op o a; spec_ops os' a' end.

(** ** Shared lemmas *)

Lemma is_list_frame h h' l ys :
  is_list h l ys →
  lists h' !! l = lists h !! l →
  (∀ x i, items h !! x = Some i → item_list i = Some l → items h' !! x = Some i) →
  (∀ x i, items h' !! x = Some i → item_list i = Some l → items h !! x = Some i) →
  is_list h' l ys.
Proof.
  intros [Hh Hn Hl Ho] Hls H1 H2. split.
  - by rewrite Hls.
  - done.
  - intros k x Hx. by apply (H1 x); [apply Hl|].
  - intros x i Hi Hil. eauto.
Qed.

Lemma head_app_cons {A} (xs ys : list A) y : head (xs ++ y :: ys) = head (xs ++ [y]).
Proof. by destruct xs. Qed.

Lemma before_app_l (xs ys : list loc) k : (k < length xs)%nat → before (xs ++ ys) k = before xs k.
Proof. destruct k; [done|]. simpl. intros. by rewrite lookup_app_l by lia. Qed.

Lemma before_last (xs : list loc) : before xs (length xs) = last xs.
Proof. destruct xs as [|x xs]; [done|]. simpl. by rewrite last_lookup. Qed.

Lemma before_app_length (xs ys : list loc) : before (xs ++ ys) (length xs) = last xs.
Proof.
  rewrite <- before_last. destruct xs as [|x xs]; [done|].
  simpl. change (x :: xs ++ ys) with ((x :: xs) ++ ys). by rewrite lookup_app_l by (simpl; lia).
Qed.

(** Symbolic execution of pointer code: unfolds the accesses and resolves the
    lookups of explicit heaps with the hypotheses. *)
Ltac heap_run :=
  unfold load_item, load_list, upd_item, upd_list, deref, mbind, st_bind, mret, st_ret,
    c_assert, stop;
  repeat first
    [ progress cbn
    | rewrite lookup_insert_eq
    | rewrite lookup_insert_ne by done
    | match goal with
      | H : ?m !! ?k = Some _ |- context [?m !! ?k] => rewrite H
      | H : item_list ?i = _ |- context [item_list ?i] => rewrite H
      end
    | rewrite decide_True by done
    | rewrite decide_False by done
    | rewrite bool_decide_eq_true_2 by done
    | rewrite last_snoc
    | rewrite insert_insert_eq ].

Lemma list_append_run h l it xs i :
  is_list h l xs →
  items h !! it = Some i →
  item_list i = None →
  list_append l it h = Done (tt, mk_heap
    (<[it := mk_item (Some l) (last xs) None]>
      (match last xs with
       | Some t => alter (λ r, r <| item_next := Some it |>) t (items h)
       | None => items h
       end))
    (<[l := mk_list (head (xs ++ [it])) (Some it)]> (lists h))).
Proof.
  intros [Hh Hn Hl Ho] Hi Hil. unfold list_append.
  destruct xs as [|t xs _] using rev_ind; [by heap_run|].
  assert (items h !! t = Some (mk_item (Some l) (before (xs ++ [t]) (length xs)) None)) as Ht.
  { pose proof (Hl (length xs) t) as E. rewrite (lookup_ge_None_2 _ (S (length xs))) in E.
    - apply E. by rewrite lookup_app_r, Nat.sub_diag by lia.
    - rewrite length_app. simpl. lia. }
  assert (it ≠ t) as Hne by (intros ->; rewrite Ht in Hi; by simplify_eq).
  assert (t ≠ it) as Hne' by done. rewrite last_snoc in Hh |- *.
  heap_run. f_equal. f_equal. f_equal.
  - apply map_eq. intros x. destruct (decide (x = it)) as [->|Hx];
      [by rewrite !lookup_insert_eq|]. rewrite !(lookup_insert_ne _ it x) by done.
    destruct (decide (x = t)) as [->|Hx'].
    + rewrite lookup_insert_eq, lookup_alter_eq, Ht. done.
    + by rewrite !(lookup_insert_ne _ t x), lookup_alter_ne, lookup_insert_ne by done.
  - by destruct xs.
Qed.

Lemma is_list_not_in h l xs it i :
  is_list h l xs → items h !! it = Some i → item_list i ≠ Some l → it ∉ xs.
Proof.
  intros [_ _ Hl _] Hi Hne [k Hk]%list_elem_of_lookup. apply Hl in Hk. by simplify_eq.
Qed.

Lemma nodup_last_index (xs : list loc) k t :
  NoDup xs → last xs = Some t → xs !! k = Some t → k = pred (length xs).
Proof. intros Hn Ht Hk. rewrite last_lookup in Ht. by eapply NoDup_lookup. Qed.

Lemma nodup_head_index (xs : list loc) k t :
  NoDup xs → head xs = Some t → xs !! k = Some t → k = 0%nat.
Proof.
  intros Hn Ht Hk. destruct xs as [|y xs]; [done|]. simpl in Ht. simplify_eq.
  eapply NoDup_lookup; [done|exact Hk|done].
Qed.

Lemma list_append_is_list h l it xs i h' :
  is_list h l xs → items h !! it = Some i → item_list i = None →
  list_append l it h = Done (tt, h') → is_list h' l (xs ++ [it]).
Proof.
  intros Hxs Hi Hil. rewrite (list_append_run h l it xs i) by done. intros [= <-].
  assert (it ∉ xs) as Hni by (eapply is_list_not_in; eauto; by rewrite Hil).
  destruct Hxs as [Hh Hn Hl Ho]. split; cbn.
  - by rewrite lookup_insert_eq, last_snoc.
  - apply NoDup_app. split_and!; [done| |apply NoDup_singleton].
    intros x Hx ->%list_elem_of_singleton. done.
  - intros k x Hx. destruct (decide (k < length xs)%nat) as [Hk|Hk].
    + rewrite lookup_app_l in Hx by done.
      rewrite lookup_insert_ne by (intros ->; apply Hni; by eapply list_elem_of_lookup_2).
      rewrite before_app_l by done. pose proof (Hl k x Hx) as Hix.
      destruct (last xs) as [t|] eqn:Ht; [|by destruct xs; [|rewrite last_cons in Ht; destruct (last xs)]].
      rewrite lookup_alter. case_decide as Htx; [subst t|].
      * rewrite Hix. cbn. repeat f_equal.
        pose proof (nodup_last_index xs k x Hn Ht Hx) as ->.
        rewrite Nat.succ_pred_pos, lookup_app_r, Nat.sub_diag by lia. done.
      * rewrite Hix. destruct (decide (S k < length xs)%nat) as [Hk'|Hk']; [by rewrite lookup_app_l|].
        exfalso. apply Htx. rewrite last_lookup in Ht.
        replace (pred (length xs)) with k in Ht by lia. congruence.
    + rewrite lookup_app_r in Hx by lia. apply list_lookup_singleton_Some in Hx as [Hk0 ->].
      rewrite lookup_insert_eq. replace k with (length xs) by lia. rewrite before_app_length.
      repeat f_equal. symmetry. apply lookup_ge_None_2. rewrite length_app. simpl. lia.
  - intros x j Hx Hj. destruct (decide (x = it)) as [->|Hne]; [set_solver|].
    rewrite lookup_insert_ne in Hx by done.
    apply elem_of_app. left. destruct (last xs) as [t|] eqn:Ht; [|eauto].
    rewrite lookup_alter in Hx. case_decide as Htx; [|eauto].
    subst t. apply last_Some_elem_of. done.
Qed.

(** [h'] differs from [h] only in [l] itself and in items that are free or on [l]. *)
Definition touches (h h' : heap) (l : loc) : Prop :=
  (∀ l', l' ≠ l → lists h' !! l' = lists h !! l') ∧
  ∀ x, items h' !! x = items h !! x ∨
    ∀ i, items h !! x = Some i ∨ items h' !! x = Some i →
      item_list i = None ∨ item_list i = Some l.

Lemma touches_frame h h' l l' ys :
  touches h h' l → l' ≠ l → is_list h l' ys → is_list h' l' ys.
Proof.
  intros [Hls Hit] Hne Hys. eapply is_list_frame; [exact Hys|by apply Hls| |];
    intros x i Hx Hi; destruct (Hit x) as [Heq|Ht]; try congruence;
    destruct (Ht i) as [E|E]; auto; congruence.
Qed.

Lemma is_list_owner h l xs x : is_list h l xs → x ∈ xs →
  ∃ i, items h !! x = Some i ∧ item_list i = Some l.
Proof. intros H [k Hk]%list_elem_of_lookup. apply (il_link _ _ _ H) in Hk. eauto. Qed.

Lemma head_Some_elem_of (xs : list loc) x : head xs = Some x → x ∈ xs.
Proof. destruct xs; [done|]. intros [= ->]. set_solver. Qed.

Lemma list_append_touches h l it xs i h' :
  is_list h l xs → items h !! it = Some i → item_list i = None →
  list_append l it h = Done (tt, h') → touches h h' l.
Proof.
  intros Hxs Hi Hil. rewrite (list_append_run h l it xs i) by done. intros [= <-].
  split; cbn; [intros; by rewrite lookup_insert_ne|]. intros x.
  destruct (decide (x = it)) as [->|Hx].
  { right. rewrite lookup_insert_eq. intros j [Hj|[= <-]]; [|by right]. left. congruence. }
  rewrite lookup_insert_ne by done. destruct (last xs) as [t|] eqn:Ht; [|by left].
  apply last_Some_elem_of in Ht. rewrite lookup_alter. case_decide; [subst t|by left]. right.
  destruct (is_list_owner _ _ _ _ Hxs Ht) as (j & Hj & Hjl). rewrite Hj.
  intros k [Hk|Hk]; simplify_eq/=; by right.
Qed.

Lemma list_push_run h l it xs i :
  is_list h l xs →
  items h !! it = Some i →
  item_list i = None →
  list_push l it h = Done (tt, mk_heap
    (<[it := mk_item (Some l) None (head xs)]>
      (match head xs with
       | Some t => alter (λ r, r <| item_prev := Some it |>) t (items h)
       | None => items h
       end))
    (<[l := mk_list (Some it) (last (it :: xs))]> (lists h))).
Proof.
  intros [Hh Hn Hl Ho] Hi Hil. unfold list_push, is_empty.
  destruct xs as [|t xs]; [by heap_run|].
  assert (items h !! t = Some (mk_item (Some l) None (xs !! 0%nat))) as Ht by (apply (Hl 0%nat); done).
  assert (it ≠ t) as Hne by (intros ->; rewrite Ht in Hi; by simplify_eq).
  assert (t ≠ it) as Hne' by done. rewrite (last_cons_cons it).
  heap_run. f_equal. f_equal. f_equal.
  apply map_eq. intros x. destruct (decide (x = it)) as [->|Hx];
    [by rewrite !lookup_insert_eq|]. rewrite !(lookup_insert_ne _ it x) by done.
  destruct (decide (x = t)) as [->|Hx'].
  - rewrite lookup_insert_eq, lookup_alter_eq, Ht. done.
  - by rewrite !(lookup_insert_ne _ t x), lookup_alter_ne, lookup_insert_ne by done.
Qed.

Lemma list_push_is_list h l it xs i h' :
  is_list h l xs → items h !! it = Some i → item_list i = None →
  list_push l it h = Done (tt, h') → is_list h' l (it :: xs).
Proof.
  intros Hxs Hi Hil. rewrite (list_push_run h l it xs i) by done. intros [= <-].
  assert (it ∉ xs) as Hni by (eapply is_list_not_in; eauto; by rewrite Hil).
  destruct Hxs as [Hh Hn Hl Ho]. split; cbn -[last].
  - by rewrite lookup_insert_eq.
  - by constructor.
  - intros [|k] x Hx; [injection Hx as <-; rewrite lookup_insert_eq; by destruct xs|].
    cbn in Hx |- *.
    rewrite lookup_insert_ne by (intros ->; apply Hni; by eapply list_elem_of_lookup_2).
    pose proof (Hl k x Hx) as Hix. destruct xs as [|t xs]; [done|]. cbn [head].
    rewrite lookup_alter. case_decide as Htx; [subst t|].
    + pose proof (nodup_head_index (x :: xs) k x Hn eq_refl Hx) as ->. by rewrite Hix.
    + rewrite Hix. destruct k; [cbn in Hx; congruence|done].
  - intros x j Hx Hj. destruct (decide (x = it)) as [->|Hne]; [set_solver|].
    rewrite lookup_insert_ne in Hx by done. apply elem_of_cons. right.
    destruct xs as [|t xs]; [eauto|]. cbn [head] in Hx.
    rewrite lookup_alter in Hx. case_decide as Htx; [subst t; set_solver|eauto].
Qed.

Lemma list_push_touches h l it xs i h' :
  is_list h l xs → items h !! it = Some i → item_list i = None →
  list_push l it h = Done (tt, h') → touches h h' l.
Proof.
  intros Hxs Hi Hil. rewrite (list_push_run h l it xs i) by done. intros [= <-].
  split; cbn -[last]; [intros; by rewrite lookup_insert_ne|]. intros x.
  destruct (decide (x = it)) as [->|Hx].
  { right. rewrite lookup_insert_eq. intros j [Hj|[= <-]]; [|by right]. left. congruence. }
  rewrite lookup_insert_ne by done. destruct (head xs) as [t|] eqn:Ht; [|by left].
  apply head_Some_elem_of in Ht. rewrite lookup_alter. case_decide; [subst t|by left]. right.
  destruct (is_list_owner _ _ _ _ Hxs Ht) as (j & Hj & Hjl). rewrite Hj.
  intros k [Hk|Hk]; simplify_eq/=; by right.
Qed.

(** The items touched by [list_remove] of an inner item. *)
Definition relink (pre post : list loc) (m : gmap loc item_t) : gmap loc item_t :=
  let m1 := match last pre with
            | Some p => alter (λ r, r <| item_next := head post |>) p m
            | None => m
            end in
  match head post with
  | Some n => alter (λ r, r <| item_prev := last pre |>) n m1
  | None => m1
  end.

(** The neighbours of an item, read off the abstract value. *)
Lemma is_list_at h l pre it post :
  is_list h l (pre ++ it :: post) →
  items h !! it = Some (mk_item (Some l) (last pre) (head post)).
Proof.
  intros [_ _ Hl _]. pose proof (Hl (length pre) it) as E. rewrite before_app_length in E.
  rewrite lookup_app_r, Nat.sub_diag in E by lia.
  rewrite (lookup_app_r pre (it :: post) (S (length pre))) in E by lia.
  replace (S (length pre) - length pre)%nat with 1%nat in E by lia.
  rewrite E by done. by destruct post.
Qed.

Lemma is_list_at_prev h l pre p it post :
  is_list h l (pre ++ p :: it :: post) →
  items h !! p = Some (mk_item (Some l) (last pre) (Some it)).
Proof. intros H. by rewrite (is_list_at _ _ _ _ _ H). Qed.

Lemma is_list_at_next h l pre it n post :
  is_list h l (pre ++ it :: n :: post) →
  items h !! n = Some (mk_item (Some l) (Some it) (head post)).
Proof.
  intros H. rewrite cons_middle, app_assoc in H.
  rewrite (is_list_at _ _ _ _ _ H). by rewrite last_snoc.
Qed.

(** Equality of explicit updates of one map. *)
Lemma alter_as_insert {A} (f : A → A) (m : gmap loc A) k v :
  m !! k = Some v → alter f k m = <[k := f v]> m.
Proof.
  intros H. apply map_eq. intros j. rewrite lookup_alter, lookup_insert.
  case_decide; subst; by rewrite ?H.
Qed.

Ltac map_updates :=
  apply map_eq; intros ?;
  repeat first
    [ progress simplify_eq/= | rewrite lookup_insert; case_decide ];
  try done; try congruence.

Lemma list_remove_run h l it pre post :
  is_list h l (pre ++ it :: post) →
  list_remove l it h = Done (tt, mk_heap
    (<[it := mk_item None (last pre) (head post)]> (relink pre post (items h)))
    (<[l := mk_list (head (pre ++ post)) (last (pre ++ post))]> (lists h))).
Proof.
  intros H. pose proof (is_list_at _ _ _ _ _ H) as Hi. pose proof (il_head _ _ _ H) as Hh.
  pose proof (il_nodup _ _ _ H) as Hn. unfold list_remove, relink.
  destruct pre as [|p pre _] using rev_ind; destruct post as [|n post].
  - by heap_run.
  - pose proof (is_list_at_next h l [] it n post H) as Hnx. cbn in *.
    assert (it ≠ n) as Hne by (intros ->; inversion Hn; set_solver).
    rewrite (alter_as_insert _ _ _ _ Hnx). heap_run. f_equal. f_equal. f_equal; map_updates.
  - rewrite <- app_assoc in H. pose proof (is_list_at_prev h l pre p it [] H) as Hpx.
    assert (it ≠ p ∧ p ≠ it) as [Hne Hne'].
    { rewrite <- app_assoc in Hn. apply NoDup_app in Hn as (_ & _ & Hn).
      split; intros ->; inversion Hn; set_solver. }
    rewrite !last_snoc in Hh, Hi |- *. rewrite app_nil_r, last_snoc. cbn [head] in *.
    rewrite (alter_as_insert _ _ _ _ Hpx). heap_run. f_equal. f_equal. f_equal; map_updates.
    by destruct pre.
  - rewrite <- app_assoc in H. pose proof (is_list_at_prev h l pre p it _ H) as Hpx.
    rewrite app_assoc in H. pose proof (is_list_at_next h l _ it n post H) as Hnx.
    assert (it ≠ p ∧ p ≠ it ∧ it ≠ n ∧ n ≠ it ∧ p ≠ n ∧ n ≠ p) as (? & ? & ? & ? & ? & ?).
    { rewrite <- app_assoc in Hn. apply NoDup_app in Hn as (_ & _ & Hn).
      cbn in Hn. rewrite !NoDup_cons in Hn. set_solver. }
    rewrite !last_snoc in Hi |- *. rewrite last_app_cons in Hh |- *. cbn [head] in *.
    rewrite last_cons_cons in Hh.
    rewrite (alter_as_insert _ _ _ _ Hpx), (alter_as_insert _ _ n _) by (by rewrite lookup_insert_ne).
    heap_run. f_equal. f_equal. f_equal; [map_updates|].
    symmetry. apply insert_id. rewrite Hh. do 2 f_equal. by destruct pre.
Qed.

(** A list read link by link: an equivalent form of [is_list] that splits at
    any position.  [prev] and [next] are the neighbours of the segment. *)
Definition head_or (xs : list loc) (d : option loc) : option loc :=
  match xs with [] => d | x :: _ => Some x end.
Definition last_or (xs : list loc) (d : option loc) : option loc :=
  match last xs with Some p => Some p | None => d end.

Fixpoint seg (m : gmap loc item_t) (l : loc) (prev : option loc) (xs : list loc)
    (next : option loc) : Prop :=
  match xs with
  | [] => True
  | x :: xs' => m !! x = Some (mk_item (Some l) prev (head_or xs' next)) ∧
                seg m l (Some x) xs' next
  end.

Lemma last_or_cons x xs d : last_or (x :: xs) d = last_or xs (Some x).
Proof. unfold last_or. rewrite last_cons. by destruct (last xs). Qed.

Lemma head_or_app xs ys d : head_or (xs ++ ys) d = head_or xs (head_or ys d).
Proof. by destruct xs. Qed.

Lemma head_or_None xs : head_or xs None = head xs.
Proof. by destruct xs. Qed.

Lemma last_or_None xs : last_or xs None = last xs.
Proof. unfold last_or. by destruct (last xs). Qed.

Lemma seg_app m l prev xs ys next :
  seg m l prev (xs ++ ys) next ↔
    seg m l prev xs (head_or ys next) ∧ seg m l (last_or xs prev) ys next.
Proof.
  revert prev. induction xs as [|x xs IH]; intros prev; cbn [app seg]; [naive_solver|].
  rewrite IH, last_or_cons, head_or_app. tauto.
Qed.

Lemma seg_lookup m l prev xs next :
  seg m l prev xs next ↔ ∀ k x, xs !! k = Some x → m !! x = Some (mk_item (Some l)
    (match k with O => prev | S k' => xs !! k' end) (head_or (drop (S k) xs) next)).
Proof.
  revert prev. induction xs as [|x xs IH]; intros prev; cbn [seg]; [done|].
  rewrite IH. split.
  - intros [Hx Hl] [|k] y Hk; cbn in Hk |- *; [by simplify_eq; rewrite drop_0|].
    rewrite (Hl k y Hk). by destruct k.
  - intros Hl. split; [by rewrite (Hl 0%nat x eq_refl); cbn; rewrite drop_0|].
    intros k y Hk. rewrite (Hl (S k) y Hk). by destruct k.
Qed.

Lemma head_drop (xs : list loc) k : head_or (drop k xs) None = xs !! k.
Proof. rewrite head_or_None. revert k. induction xs; intros [|k]; cbn; auto. Qed.

Lemma is_list_seg h l xs :
  is_list h l xs ↔
    lists h !! l = Some (mk_list (head xs) (last xs)) ∧ NoDup xs ∧
    seg (items h) l None xs None ∧
    (∀ x i, items h !! x = Some i → item_list i = Some l → x ∈ xs).
Proof.
  rewrite seg_lookup. setoid_rewrite head_drop. split.
  - intros [Hh Hn Hl Ho]. split_and!; done.
  - intros (Hh & Hn & Hl & Ho). by split.
Qed.

Lemma seg_frame m m' l prev xs next :
  (∀ x, x ∈ xs → m' !! x = m !! x) → seg m l prev xs next → seg m' l prev xs next.
Proof.
  revert prev. induction xs as [|x xs IH]; [done|]. intros prev Hm [Hx Hl]. split.
  - rewrite Hm by set_solver. done.
  - apply IH; [set_solver|done].
Qed.

(** Changing the neighbours of a segment changes its end items only. *)
Lemma seg_next m l prev xs next next' :
  NoDup xs → seg m l prev xs next →
  seg (match last xs with
       | Some p => alter (λ r, r <| item_next := next' |>) p m
       | None => m end) l prev xs next'.
Proof.
  destruct xs as [|p xs _] using rev_ind; [done|]. rewrite last_snoc, !seg_app. cbn.
  intros (_ & Hd & _)%NoDup_app (Hs & Hp & _). split_and!; [|by rewrite lookup_alter_eq, Hp|done].
  eapply seg_frame; [|exact Hs]. intros x Hx. rewrite lookup_alter_ne; [done|].
  intros ->. apply (Hd x); set_solver.
Qed.

Lemma seg_prev m l prev prev' xs next :
  NoDup xs → seg m l prev xs next →
  seg (match head xs with
       | Some n => alter (λ r, r <| item_prev := prev' |>) n m
       | None => m end) l prev' xs next.
Proof.
  destruct xs as [|n xs]; [done|]. cbn. intros [Hn _]%NoDup_cons [Hx Hs].
  split; [by rewrite lookup_alter_eq, Hx|].
  eapply seg_frame; [|exact Hs]. intros x Hx'. rewrite lookup_alter_ne; [done|]. by intros ->.
Qed.

Lemma alter_lookup_list (f : item_t → item_t) (o : option loc) (m : gmap loc item_t) x i :
  (∀ r, item_list (f r) = item_list r) →
  (match o with Some p => alter f p m | None => m end) !! x = Some i →
  ∃ j, m !! x = Some j ∧ item_list j = item_list i.
Proof.
  intros Hf H. destruct o as [p|]; [|eauto]. rewrite lookup_alter in H.
  case_decide; [subst p|eauto]. destruct (m !! x) as [j|]; [|done].
  simplify_eq/=. eauto.
Qed.

Lemma relink_lookup pre post m x i :
  relink pre post m !! x = Some i → ∃ j, m !! x = Some j ∧ item_list j = item_list i.
Proof.
  unfold relink. intros (j & Hj & <-)%alter_lookup_list; [|done].
  by apply alter_lookup_list in Hj.
Qed.

Lemma relink_other pre post m x :
  x ∉ pre → x ∉ post → relink pre post m !! x = m !! x.
Proof.
  intros Hpre Hpost. unfold relink.
  destruct (head post) as [n|] eqn:En; [rewrite lookup_alter_ne|];
    try (intros ->; by apply Hpost, head_Some_elem_of);
  (destruct (last pre) as [p|] eqn:Ep; [rewrite lookup_alter_ne|]); try done;
    intros ->; by apply Hpre, last_Some_elem_of.
Qed.

Lemma relink_seg m l it pre post :
  NoDup (pre ++ it :: post) → seg m l None (pre ++ it :: post) None →
  seg (relink pre post m) l None (pre ++ post) None.
Proof.
  intros (Hn1 & Hd & [Hni Hn2]%NoDup_cons)%NoDup_app. rewrite !seg_app. cbn.
  intros (Hs1 & _ & Hs2). rewrite head_or_None, last_or_None. unfold relink. split.
  - apply (seg_next _ _ _ _ _ (head post)) in Hs1; [|done]. eapply seg_frame; [|exact Hs1].
    intros x Hx. destruct (head post) as [n|] eqn:En; [|done]. rewrite lookup_alter_ne; [done|].
    intros ->. apply head_Some_elem_of in En. apply (Hd x Hx). set_solver.
  - eapply seg_prev; [done|]. eapply seg_frame; [|exact Hs2].
    intros x Hx. destruct (last pre) as [p|] eqn:Ep; [|done]. rewrite lookup_alter_ne; [done|].
    intros ->. apply last_Some_elem_of in Ep. apply (Hd x Ep). set_solver.
Qed.

Lemma list_remove_is_list h l it pre post h' :
  is_list h l (pre ++ it :: post) → list_remove l it h = Done (tt, h') →
  is_list h' l (pre ++ post).
Proof.
  intros H. rewrite (list_remove_run _ _ _ _ _ H). intros [= <-].
  apply is_list_seg in H as (Hh & Hn & Hs & Ho). apply is_list_seg. cbn.
  pose proof Hn as (Hn1 & Hd & [Hni Hn2]%NoDup_cons)%NoDup_app.
  split_and!; [by rewrite lookup_insert_eq| | |].
  - apply NoDup_app. split_and!; [done| |done]. intros x Hx ?. apply (Hd x Hx). set_solver.
  - eapply seg_frame; [|by eapply relink_seg]. intros x Hx. rewrite lookup_insert_ne; [done|].
    intros ->. apply elem_of_app in Hx as [Hx|Hx]; [|done]. apply (Hd x Hx). set_solver.
  - intros x i. rewrite lookup_insert. case_decide; [intros [= <-]; done|].
    intros (j & Hj & <-)%relink_lookup Hl. pose proof (Ho x j Hj Hl). set_solver.
Qed.

Lemma list_remove_touches h l it pre post h' :
  is_list h l (pre ++ it :: post) → list_remove l it h = Done (tt, h') → touches h h' l.
Proof.
  intros H. rewrite (list_remove_run _ _ _ _ _ H). intros [= <-].
  split; cbn; [intros; by rewrite lookup_insert_ne|]. intros x.
  destruct (decide (x ∈ pre ++ it :: post)) as [Hx|Hx].
  - right. destruct (is_list_owner _ _ _ _ H Hx) as (j & Hj & Hjl).
    intros i [Hi|Hi]; [right; congruence|]. rewrite lookup_insert in Hi.
    case_decide; [by simplify_eq; left|]. apply relink_lookup in Hi as (j' & Hj' & <-).
    right. congruence.
  - left. rewrite lookup_insert_ne by set_solver. apply relink_other; set_solver.
Qed.

(** The [next] pointers alone, which is all that a walk follows. *)
Fixpoint forward (m : gmap loc item_t) (xs : list loc) (next : option loc) : Prop :=
  match xs with
  | [] => True
  | x :: xs' => item_next <$> m !! x = Some (head_or xs' next) ∧ forward m xs' next
  end.

Lemma forward_app m xs ys next :
  forward m (xs ++ ys) next ↔ forward m xs (head_or ys next) ∧ forward m ys next.
Proof.
  induction xs as [|x xs IH]; cbn; [naive_solver|]. rewrite IH, head_or_app. tauto.
Qed.

Lemma forward_frame m m' xs next :
  (∀ x, x ∈ xs → m' !! x = m !! x) → forward m xs next → forward m' xs next.
Proof.
  induction xs as [|x xs IH]; [done|]. intros Hm [Hx Hl]. split.
  - rewrite Hm by set_solver. done.
  - apply IH; [set_solver|done].
Qed.

Lemma seg_forward m l prev xs next : seg m l prev xs next → forward m xs next.
Proof.
  revert prev. induction xs as [|x xs IH]; cbn; [done|]. intros prev [Hx Hs].
  rewrite Hx. split; eauto.
Qed.

Lemma forward_walk h xs fuel :
  forward (items h) xs None → (length xs ≤ fuel)%nat → walk fuel h (head xs) = Some xs.
Proof.
  revert fuel. induction xs as [|x xs IH]; intros fuel; [by destruct fuel|].
  cbn. intros [Hx Hs] Hf. destruct fuel as [|fuel]; [lia|]. cbn.
  destruct (items h !! x) as [i|]; [|done]. injection Hx as ->.
  rewrite head_or_None, (IH _ Hs); [done|lia].
Qed.

(** ** Refinement *)

(** An update of one list, seen by the abstract values of all lists. *)
Lemma list_rel_update h h' a l xs' :
  list_rel h a → is_Some (seqs a !! l) → dom (items h') = dom (items h) → touches h h' l →
  is_list h' l xs' → list_rel h' (mk_spec (alloc a) (<[l := xs']> (seqs a))).
Proof.
  intros [Ha Hs Ho] Hl Hd Ht Hl'. split; cbn.
  - congruence.
  - intros l' ys. destruct (decide (l' = l)) as [->|Hne].
    + rewrite lookup_insert_eq. by intros [= <-].
    + rewrite lookup_insert_ne by done. intros Hys. eapply touches_frame; eauto.
  - intros x i l' Hx Hi. rewrite lookup_insert. case_decide; [eauto|].
    destruct Ht as [_ Ht]. destruct (Ht x) as [E|E]; [rewrite E in Hx; eauto|].
    destruct (E i (or_intror Hx)); congruence.
Qed.

Lemma free_item h a it : list_rel h a → free a it → ∃ i, items h !! it = Some i ∧ item_list i = None.
Proof.
  intros [Ha Hs Ho] [Hin Hf]. rewrite <- Ha in Hin. apply elem_of_dom in Hin as [i Hi].
  exists i. split; [done|]. destruct (item_list i) as [l|] eqn:E; [|done]. exfalso.
  destruct (Ho _ _ _ Hi E) as [xs Hxs]. apply (Hf l xs Hxs). eapply il_own; eauto.
Qed.

Ltac dom_updates :=
  cbn; repeat (rewrite dom_insert_L || rewrite dom_alter_L || case_match);
  match goal with H : items _ !! _ = Some _ |- _ => apply elem_of_dom_2 in H end; set_solver.

Lemma spec_op_simulates o h a a' :
  list_rel h a → spec_op o a = Some a' → ∃ h', run_op o h = Done (tt, h') ∧ list_rel h' a'.
Proof.
  intros Hrel. destruct o as [l it|l it|l it]; cbn; rewrite bind_Some;
    intros (xs & Hxs & Hg); case_guard as Hc; [|done| |done| |done]; injection Hg as <-;
    pose proof (lr_seqs _ _ Hrel _ _ Hxs) as Hl.
  - destruct (free_item _ _ _ Hrel Hc) as (i & Hi & Hil).
    pose proof (list_append_run _ _ _ _ _ Hl Hi Hil) as Hrun. eexists. split; [exact Hrun|].
    eapply list_rel_update; eauto using list_append_touches, list_append_is_list. dom_updates.
  - destruct (free_item _ _ _ Hrel Hc) as (i & Hi & Hil).
    pose proof (list_push_run _ _ _ _ _ Hl Hi Hil) as Hrun. eexists. split; [exact Hrun|].
    eapply list_rel_update; eauto using list_push_touches, list_push_is_list. dom_updates.
  - apply list_elem_of_split in Hc as (pre & post & ->).
    pose proof (list_remove_run _ _ _ _ _ Hl) as Hrun. eexists. split; [exact Hrun|].
    rewrite filter_middle by (eapply il_nodup; eauto).
    eapply list_rel_update; eauto using list_remove_touches, list_remove_is_list.
    pose proof (is_list_at _ _ _ _ _ Hl). unfold relink. dom_updates.
Qed.

Lemma run_ops_rel os h a a' : list_rel h a → spec_ops os a = Some a' →
  ∃ h', run_ops os h = Done (tt, h') ∧ list_rel h' a'.
Proof.
  revert h a. induction os as [|o os IH]; cbn; intros h a Hrel Hspec; [simplify_eq; by eexists|].
  apply bind_Some in Hspec as (a1 & Ho & Hos).
  destruct (spec_op_simulates o h a a1 Hrel Ho) as (h1 & Hrun & Hrel1).
  destruct (IH h1 a1 Hrel1 Hos) as (h' & Hrun' & Hrel'). exists h'. split; [|done].
  by rewrite (bind_Done _ _ _ _ _ Hrun).
Qed.

(** C17: any sequence of appends, pushes and removals that the sequence
    specification allows runs to completion on the linked structure, and the
    resulting heap represents the sequences the specification computes. *)
Theorem list_ops_refine os h a a' :
  list_rel h a → spec_ops os a = Some a' →
  ∃ h', run_ops os h = Done (tt, h') ∧ list_rel h' a'.
Proof. apply run_ops_rel. Qed.

(** A heap with the empty list 100 and the three free items 1, 2, 3. *)
Definition heap0 : heap :=
  mk_heap (<[1 := mk_item None None None]> (<[2 := mk_item None None None]>
            (<[3 := mk_item None None None]> ∅)))
          (<[100 := mk_list None None]> ∅).
Definition spec0 : lists_spec := mk_spec {[1; 2; 3]} {[100 := []]}.

Lemma list_rel0 : list_rel heap0 spec0.
Proof.
  split; cbn.
  - rewrite !dom_insert_L, dom_empty_L. set_solver.
  - intros l xs [<- <-]%lookup_singleton_Some. split; cbn; [done|constructor|done|].
    intros x i. rewrite !lookup_insert. repeat case_decide; naive_solver.
  - intros x i l. rewrite !lookup_insert. repeat case_decide; naive_solver.
Qed.

Definition ops0 : list op := [Append 100 2; Push 100 1; Append 100 3; Remove 100 2].

Lemma list_ops_refine_witness :
  ∃ h', run_ops ops0 heap0 = Done (tt, h') ∧ list_rel h' (mk_spec {[1; 2; 3]} {[100 := [1; 3]]}).
Proof. apply (list_ops_refine ops0 heap0 spec0); [apply list_rel0 | vm_compute; reflexivity]. Defined.

(** the assertions of list.c catch misuse: an item that is on a list is
    neither appended nor pushed again, and an item is not removed from a list it
    is not on; the simulator stops before any link changes. *)
Theorem list_misuse_asserts h l it i :
  items h !! it = Some i →
  (item_list i ≠ None → list_append l it h = Stop AssertFailed ∧
                        list_push l it h = Stop AssertFailed) ∧
  (item_list i ≠ Some l → list_remove l it h = Stop AssertFailed).
Proof.
  intros Hi. unfold list_append, list_push, list_remove, load_item.
  split; [intros Hne; split|intros Hne]; msimpl; rewrite Hi, bool_decide_eq_false_2; done.
Qed.

Lemma list_misuse_asserts_witness :
  list_remove 100 1 heap0 = Stop AssertFailed.
Proof.
  apply (list_misuse_asserts heap0 100 1 (mk_item None None None)); [reflexivity|discriminate].
Defined.

Lemma for_each_run h l xs fuel :
  is_list h l xs → (length xs ≤ fuel)%nat → for_each_items fuel h l = Some xs.
Proof.
  intros (Hh & _ & Hs & _)%is_list_seg Hf. unfold for_each_items. rewrite Hh. cbn.
  by apply forward_walk; [eapply seg_forward|].
Qed.

(** A sequence without duplicates of existing items is no longer than their number. *)
Lemma seq_fits h a l xs : list_rel h a → seqs a !! l = Some xs → (length xs ≤ size (dom (items h)))%nat.
Proof.
  intros Hrel Hxs. pose proof (lr_seqs _ _ Hrel _ _ Hxs) as Hl.
  rewrite <- (size_list_to_set (C:=gset loc) xs (il_nodup _ _ _ Hl)). apply subseteq_size. intros x.
  rewrite elem_of_list_to_set. intros (pre & post & ->)%list_elem_of_split.
  pose proof (is_list_at _ _ _ _ _ Hl) as Hx. by apply elem_of_dom_2 in Hx.
Qed.

(** C35: after any sequence of appends, pushes and removals that the sequence
    specification allows, [for_each] over any of the lists terminates, within as many
    iterations as there are items, and visits exactly the items of the computed
    sequence, in order. *)
Theorem for_each_visits os h a a' l xs :
  list_rel h a → spec_ops os a = Some a' → seqs a' !! l = Some xs →
  ∃ h', run_ops os h = Done (tt, h') ∧ for_each_items (size (dom (items h'))) h' l = Some xs.
Proof.
  intros Hrel Hspec Hxs. destruct (run_ops_rel os h a a' Hrel Hspec) as (h' & Hrun & Hrel').
  exists h'. split; [done|]. apply for_each_run; [by apply (lr_seqs _ _ Hrel')|by eapply seq_fits].
Qed.

Lemma for_each_visits_witness :
  ∃ h', run_ops ops0 heap0 = Done (tt, h') ∧ for_each_items (size (dom (items h'))) h' 100 = Some [1; 3].
Proof.
  apply (for_each_visits ops0 heap0 spec0 (mk_spec {[1; 2; 3]} {[100 := [1; 3]]}));
    [apply list_rel0|vm_compute; reflexivity|reflexivity].
Defined.

Lemma list_insert_after_run h l pre anchor n post it i :
  is_list h l (pre ++ anchor :: n :: post) → items h !! it = Some i → item_list i = None →
  list_insert_after anchor it h = Done (tt, mk_heap
    (<[anchor := mk_item (Some l) (last pre) (Some it)]>
      (<[it := mk_item (Some l) (Some anchor) (Some n)]> (items h))) (lists h)).
Proof.
  intros H Hi Hil. pose proof (is_list_at _ _ _ _ _ H) as Ha. cbn in Ha.
  pose proof (is_list_not_in _ _ _ _ _ H Hi ltac:(by rewrite Hil)) as Hni.
  destruct H as [Hh Hn _ _].
  assert (Some anchor ≠ last (pre ++ anchor :: n :: post)) as Hne.
  { rewrite last_app_cons, last_cons_cons. apply NoDup_app in Hn as (_ & _ & [Hn _]%NoDup_cons).
    intros E. symmetry in E. apply Hn. by apply last_Some_elem_of. }
  assert (anchor ≠ it ∧ it ≠ anchor) as [? ?] by set_solver.
  unfold list_insert_after. by heap_run.
Qed.

(** [list_insert_after] behind an inner item produces the right forward
    sequence, but the following item keeps its old [prev] pointer: the result is
    not a well-formed list. *)
Theorem list_insert_after_back_link h l pre anchor n post it i :
  is_list h l (pre ++ anchor :: n :: post) → items h !! it = Some i → item_list i = None →
  ∃ h', list_insert_after anchor it h = Done (tt, h') ∧
    for_each_items (3 + length pre + length post) h' l = Some (pre ++ anchor :: it :: n :: post) ∧
    item_prev <$> (items h' !! n) = Some (Some anchor) ∧
    ¬ is_list h' l (pre ++ anchor :: it :: n :: post).
Proof.
  intros H Hi Hil. eexists. split; [by eapply list_insert_after_run|].
  pose proof (is_list_not_in _ _ _ _ _ H Hi ltac:(by rewrite Hil)) as Hni.
  pose proof (is_list_at_next _ _ _ _ _ _ H) as Hnx.
  apply is_list_seg in H as (Hh & (_ & Hd & Hn)%NoDup_app & Hs%seg_forward & _).
  apply forward_app in Hs as [Hs1 (_ & _ & Hs2)]. rewrite !NoDup_cons in Hn. cbn in *.
  assert (n ≠ it ∧ n ≠ anchor ∧ anchor ≠ it) as (Hn1 & Hn2 & Hn3) by set_solver.
  assert (∀ x, x ∈ pre ∨ x ∈ post → x ≠ anchor ∧ x ≠ it) as Hout.
  { intros x Hx. split; intros ->; [|set_solver]. destruct Hx; [|set_solver].
    apply (Hd anchor); set_solver. }
  split_and!.
  - unfold for_each_items. cbn [lists]. rewrite Hh. cbn [list_head]. rewrite head_app_cons, <- (head_app_cons _ (it :: n :: post)).
    apply forward_walk; [|rewrite length_app; simpl; lia].
    apply forward_app. cbn. rewrite !lookup_insert. repeat case_decide; simplify_eq.
    rewrite Hnx. cbn. rewrite head_or_None.
    split_and!; try done; (eapply forward_frame; [|eassumption]); intros x Hx;
      by rewrite !lookup_insert_ne by (intros ->; naive_solver).
  - by rewrite !lookup_insert_ne, Hnx by done.
  - intros H'. rewrite cons_middle, app_assoc in H'.
    pose proof (is_list_at_next _ _ _ _ _ _ H') as E.
    cbn in E. rewrite !lookup_insert_ne, Hnx in E by done. congruence.
Qed.

Definition heap2 : heap :=
  mk_heap (<[1 := mk_item (Some 100) None (Some 2)]> (<[2 := mk_item (Some 100) (Some 1) None]>
            (<[3 := mk_item None None None]> ∅)))
          (<[100 := mk_list (Some 1) (Some 2)]> ∅).

Lemma heap2_is_list : is_list heap2 100 [1; 2].
Proof.
  apply is_list_seg. split_and!; [done|by apply (bool_decide_unpack _); vm_compute|done|].
  intros x i. unfold heap2. cbn [items]. rewrite !lookup_insert.
  repeat case_decide; subst; intros; [set_solver|set_solver| |done]. by simplify_eq.
Qed.

Lemma list_insert_after_back_link_witness :
  ∃ h', list_insert_after 1 3 heap2 = Done (tt, h') ∧
    for_each_items 3 h' 100 = Some [1; 3; 2] ∧
    item_prev <$> (items h' !! 2) = Some (Some 1) ∧ ¬ is_list h' 100 [1; 3; 2].
Proof.
  apply (list_insert_after_back_link heap2 100 [] 1 2 [] 3 (mk_item None None None));
    [apply heap2_is_list | reflexivity | reflexivity].
Defined.
End CList.
