(* ===== verification/PhysMem.v ===== *)
(** * Physical memory (src/src/physmem.h, src/src/physmem.c, src/src/debug/breakpoint.c)

    Memory areas hold the bytes; a two-level table (12 + 12 bits over 4 KiB
    frames) maps a physical address to a frame descriptor, which points into an
    area.  An access to an unmapped frame goes to the devices.  A store to a
    frame notifies the reservations of the processors on [sc_list], fires memory
    breakpoints and invalidates the decoded instructions of the frame.

    The rest of the simulator is reached through the interface [PhysHost]: the
    processors' [sc_access] callbacks, the devices' memory callbacks and the
    debugger event.  Theorems about this component are proved against
    [PhysHostLaws], which the machine of [RvWorld] implements.

    The abstract value of the memory is the byte map [byte_at]; reads and writes
    refine it ([physmem_read_refines], [physmem_write_refines]). The host is
    little-endian (the [#else] branch of src/src/endian.h, where the conversion
    macros are the identity). *)

From S2P Require Import Prelude.

Module PhysMem.

(** ** Constants *)
Definition FRAME_WIDTH : Z := 12.
Definition FRAME_SIZE : Z := Z.shiftl 1 FRAME_WIDTH.
Definition FRAME_MASK : Z := FRAME_SIZE - 1.
Definition FRAMES2SIZE (frames : Z) : Z := wrap 64 (Z.shiftl frames FRAME_WIDTH).
Definition FRAME2ADDR (frame : Z) : Z := wrap 64 (Z.shiftl frame FRAME_WIDTH).
Definition ADDR2FRAME (addr : Z) : Z := Z.shiftr addr FRAME_WIDTH.
Definition DEFAULT_MEMORY_VALUE : Z := 0xffffffffffffffff.

Definition FTL2_WIDTH : Z := 12.
Definition FTL1_WIDTH : Z := 12.
Definition FTL2_SHIFT : Z := FRAME_WIDTH.
Definition FTL1_SHIFT : Z := FRAME_WIDTH + FTL2_WIDTH.
Definition FTL2_MASK : Z := Z.shiftl 1 FTL2_WIDTH - 1.
Definition FTL1_MASK : Z := Z.shiftl 1 FTL1_WIDTH - 1.

(** ** Data *)
Inductive physmem_type := MEMT_NONE | MEMT_MEM | MEMT_FMAP.

#[export] Instance physmem_type_eq_dec : EqDecision physmem_type.
Proof. solve_decision. Defined.

(** [area_data] is the buffer ([None] for [NULL]); bytes not stored yet are 0,
    as after the [memset] of the [generic] command. *)
Record physmem_area := mk_area {
  area_type : physmem_type;
  area_writable : bool;
  area_start : Z;
  area_count : Z;
  area_data : option (gmap Z Z)
}.

(** A frame descriptor points to its area (by identity) and to an offset in the
    area's buffer. *)
Record frame := mk_frame {
  frame_area : Z;
  frame_data : Z;
  frame_valid : bool
}.

(** An entry of [ftl0]: a second-level table, or a pointer left dangling by
    [physmem_unwire]. *)
Inductive ftl1_ref :=
  | Ftl1 (frames : gmap Z frame)
  | Ftl1_freed.

Inductive breakpoint_kind := BREAKPOINT_KIND_DEBUGGER | BREAKPOINT_KIND_SIMULATOR.

Definition kind_bits (k : breakpoint_kind) : Z :=
  match k with BREAKPOINT_KIND_DEBUGGER => 1 | BREAKPOINT_KIND_SIMULATOR => 2 end.

Definition ACCESS_READ : Z := 1.
Definition ACCESS_WRITE : Z := 2.

Record physmem_breakpoint := mk_pbp {
  pbp_kind : breakpoint_kind;
  pbp_addr : Z;
  pbp_size : Z;
  pbp_hits : Z;
  pbp_flags : Z
}.

(** The globals of physmem.c and breakpoint.c ([machine_interactive] is the
    global of main.c that a breakpoint sets). *)
Record physmem := mk_physmem {
  areas : gmap Z physmem_area;
  ftl0 : gmap Z ftl1_ref;
  sc_list : list Z;
  physmem_breakpoints : list physmem_breakpoint;
  machine_interactive : bool
}.

#[export] Instance eta_area : Eta physmem_area := λ r,
  mk_area (area_type r) (area_writable r) (area_start r) (area_count r) (area_data r).
#[export] Instance set_area_data : SetField area_data := ltac:(derive_set_field).
#[export] Instance eta_frame : Eta frame := λ r,
  mk_frame (frame_area r) (frame_data r) (frame_valid r).
#[export] Instance set_frame_valid : SetField frame_valid := ltac:(derive_set_field).
#[export] Instance eta_pbp : Eta physmem_breakpoint := λ r,
  mk_pbp (pbp_kind r) (pbp_addr r) (pbp_size r) (pbp_hits r) (pbp_flags r).
#[export] Instance set_pbp_hits : SetField pbp_hits := ltac:(derive_set_field).
#[export] Instance eta_physmem : Eta physmem := λ r,
  mk_physmem (areas r) (ftl0 r) (sc_list r) (physmem_breakpoints r) (machine_interactive r).
#[export] Instance set_areas : SetField areas := ltac:(derive_set_field).
#[export] Instance set_ftl0 : SetField ftl0 := ltac:(derive_set_field).
#[export] Instance set_sc_list : SetField sc_list := ltac:(derive_set_field).
#[export] Instance set_physmem_breakpoints : SetField physmem_breakpoints :=
  ltac:(derive_set_field).
#[export] Instance set_machine_interactive : SetField machine_interactive :=
  ltac:(derive_set_field).

(** ** The rest of the simulator

    A device's read callback may leave the caller's variable alone ([None]). *)
Record device_ops (W : Type) := mk_device {
  dev_read8 : option (Z → Z → st W (option Z));
  dev_read16 : option (Z → Z → st W (option Z));
  dev_read32 : option (Z → Z → st W (option Z));
  dev_read64 : option (Z → Z → st W (option Z));
  dev_write8 : option (Z → Z → Z → st W unit);
  dev_write16 : option (Z → Z → Z → st W unit);
  dev_write32 : option (Z → Z → Z → st W unit);
  dev_write64 : option (Z → Z → Z → st W unit)
}.
Arguments dev_read8 {W} _.
Arguments dev_read16 {W} _.
Arguments dev_read32 {W} _.
Arguments dev_read64 {W} _.
Arguments dev_write8 {W} _.
Arguments dev_write16 {W} _.
Arguments dev_write32 {W} _.
Arguments dev_write64 {W} _.
Arguments mk_device {W} _ _ _ _ _ _ _ _.

(** [ph_sc_access] is [cpu_sc_access(get_cpu(procno), addr, size)]; [ph_devices]
    the devices in the order of [dev_next]; [ph_gdb_event] the notification of
    an attached debugger. *)
Class PhysHost (W : Type) := {
  ph_get : W → physmem;
  ph_set : physmem → W → W;
  ph_sc_access : Z → Z → Z → st W bool;
  ph_devices : W → list (device_ops W);
  ph_gdb_event : st W unit
}.

(** What physical memory relies on: its own state is a component of the world,
    and the callbacks return without touching it. *)
Class PhysHostLaws (W : Type) `{PhysHost W} := {
  ph_get_set p w : ph_get (ph_set p w) = p;
  ph_set_get w : ph_set (ph_get w) w = w;
  ph_set_set p p' w : ph_set p (ph_set p' w) = ph_set p w;
  ph_sc_access_frame procno addr size w :
    ∃ b w', ph_sc_access procno addr size w = Done (b, w') ∧ ph_get w' = ph_get w;
  ph_gdb_event_frame w : ∃ w', ph_gdb_event w = Done (tt, w') ∧ ph_get w' = ph_get w
}.

Section Operations.
Context {W : Type} `{PhysHost W}.

Definition phys : st W physmem := gets ph_get.
Definition phys_modify (f : physmem → physmem) : st W unit :=
  modify (λ w, ph_set (f (ph_get w)) w).

(** ** Frame table *)
Definition ftl1_index (addr : Z) : Z := Z.land (Z.shiftr addr FTL1_SHIFT) FTL1_MASK.
Definition ftl2_index (addr : Z) : Z := Z.land (Z.shiftr addr FTL2_SHIFT) FTL2_MASK.

(** Following a pointer of [ftl0]; [None] is [NULL]. *)
Definition ftl1_of (addr : Z) : st W (option (gmap Z frame)) :=
  p ← phys;
  match ftl0 p !! ftl1_index addr with
  | None => mret None
  | Some (Ftl1 fs) => mret (Some fs)
  | Some Ftl1_freed => stop UndefinedBehaviour
  end.

Definition physmem_find_frame (addr : Z) : st W (option frame) :=
  ftl1 ← ftl1_of addr;
  match ftl1 with
  | Some fs => mret (fs !! ftl2_index addr)
  | None => mret None
  end.

Definition set_frame (addr : Z) (fs : gmap Z frame) : st W unit :=
  phys_modify (λ p, p <| ftl0 := <[ftl1_index addr := Ftl1 fs]> (ftl0 p) |>).

(** The assertions shared by [physmem_wire] and [physmem_unwire]. *)
Definition area_checks (area : physmem_area) : st W unit :=
  c_assert (negb (bool_decide (area_type area = MEMT_NONE)));;
  c_assert (0 <? area_count area);;
  c_assert (bool_decide (is_Some (area_data area))).

Definition area_addr (area : physmem_area) (pfn : Z) : Z :=
  FRAME2ADDR (wrap 32 (area_start area + pfn)).

Definition wire_frame (id : Z) (area : physmem_area) (pfn : Z) : st W unit :=
  let addr := area_addr area pfn in
  ftl1 ← ftl1_of addr;
  set_frame addr (<[ftl2_index addr := mk_frame id (FRAMES2SIZE pfn) false]> (default ∅ ftl1)).

Fixpoint for_pfn (n : nat) (pfn : Z) (body : Z → st W unit) : st W unit :=
  match n with
  | O => mret tt
  | S n' => body pfn;; for_pfn n' (pfn + 1) body
  end.

Definition get_area (id : Z) : st W physmem_area :=
  p ← phys;
  match areas p !! id with Some a => mret a | None => stop UndefinedBehaviour end.

Definition physmem_wire (id : Z) : st W unit :=
  area ← get_area id;
  area_checks area;;
  for_pfn (Z.to_nat (area_count area)) 0 (wire_frame id area).

(** [safe_free(ftl1)] clears the local variable only: the slot of [ftl0] keeps
    the freed pointer. *)
Definition unwire_frame (area : physmem_area) (pfn : Z) : st W unit :=
  let addr := area_addr area pfn in
  ftl1 ← ftl1_of addr;
  match ftl1 with
  | None => stop AssertFailed
  | Some fs =>
      c_assert (bool_decide (is_Some (fs !! ftl2_index addr)));;
      let fs' := delete (ftl2_index addr) fs in
      if bool_decide (fs' = ∅)
      then phys_modify (λ p, p <| ftl0 := <[ftl1_index addr := Ftl1_freed]> (ftl0 p) |>)
      else set_frame addr fs'
  end.

Definition physmem_unwire (id : Z) : st W unit :=
  area ← get_area id;
  area_checks area;;
  for_pfn (Z.to_nat (area_count area)) 0 (unwire_frame area).

(** ** Bytes of an area, little-endian *)
Definition area_byte (d : gmap Z Z) (off : Z) : Z := default 0 (d !! off).

Fixpoint load_le (d : gmap Z Z) (off : Z) (n : nat) : Z :=
  match n with
  | O => 0
  | S n' => Z.lor (area_byte d off) (Z.shiftl (load_le d (off + 1) n') 8)
  end.

Fixpoint store_le (d : gmap Z Z) (off val : Z) (n : nat) : gmap Z Z :=
  match n with
  | O => d
  | S n' => <[off := wrap 8 val]> (store_le d (off + 1) (Z.shiftr val 8) n')
  end.

(** The buffer of a frame's area and the offset of [addr], with the bounds of
    the allocation checked for an access of [n] bytes. *)
Definition frame_pointer (f : frame) (addr : Z) (n : nat) : st W (gmap Z Z * Z) :=
  area ← get_area (frame_area f);
  match area_data area with
  | None => stop AssertFailed
  | Some d =>
      let off := frame_data f + Z.land addr FRAME_MASK in
      c_defined (off + Z.of_nat n <=? FRAMES2SIZE (area_count area));;
      mret (d, off)
  end.

(** ** Memory breakpoints *)
Definition physmem_breakpoint_hit (idx : nat) (bp : physmem_breakpoint) : st W unit :=
  match pbp_kind bp with
  | BREAKPOINT_KIND_SIMULATOR =>
      phys_modify (λ p, p
        <| physmem_breakpoints :=
             <[idx := bp <| pbp_hits := wrap 64 (pbp_hits bp + 1) |>]> (physmem_breakpoints p) |>
        <| machine_interactive := true |>)
  | BREAKPOINT_KIND_DEBUGGER => ph_gdb_event
  end.

(** The breakpoint test; the size of the access plays no role in it. *)
Definition breakpoint_matches (bp : physmem_breakpoint) (addr access : Z) : bool :=
  negb (wrap 64 (pbp_addr bp + pbp_size bp) <? addr)
  && negb (wrap 64 (addr + pbp_size bp) <? pbp_addr bp)
  && truthy (Z.land access (pbp_flags bp)).

Fixpoint first_match (bps : list physmem_breakpoint) (idx : nat) (addr access : Z)
    : option (nat * physmem_breakpoint) :=
  match bps with
  | [] => None
  | bp :: bps' =>
      if breakpoint_matches bp addr access then Some (idx, bp)
      else first_match bps' (S idx) addr access
  end.

Definition physmem_breakpoint_find (addr size access : Z) : st W unit :=
  p ← phys;
  match first_match (physmem_breakpoints p) 0 addr access with
  | Some (idx, bp) => physmem_breakpoint_hit idx bp
  | None => mret tt
  end.

Definition physmem_breakpoint_init (address size : Z) (kind : breakpoint_kind) (flags : Z)
    : physmem_breakpoint := mk_pbp kind address size 0 flags.

Definition physmem_breakpoint_add (address size : Z) (kind : breakpoint_kind) (flags : Z)
    : st W unit :=
  phys_modify (λ p, p <| physmem_breakpoints :=
    physmem_breakpoints p ++ [physmem_breakpoint_init address size kind flags] |>).

Fixpoint remove_at_address (address : Z) (bps : list physmem_breakpoint)
    : option (list physmem_breakpoint) :=
  match bps with
  | [] => None
  | bp :: bps' => if pbp_addr bp =? address then Some bps'
                  else cons bp <$> remove_at_address address bps'
  end.

Definition physmem_breakpoint_remove (address : Z) : st W bool :=
  p ← phys;
  match remove_at_address address (physmem_breakpoints p) with
  | Some bps => phys_modify (λ p, p <| physmem_breakpoints := bps |>);; mret true
  | None => mret false
  end.

Definition physmem_breakpoint_remove_filtered (flt : Z) : st W unit :=
  phys_modify (λ p, p <| physmem_breakpoints :=
    filter (λ bp, Z.land (kind_bits (pbp_kind bp)) flt = 0) (physmem_breakpoints p) |>).

(** ** Device memory *)
Fixpoint devmem_read (sel : device_ops W → option (Z → Z → st W (option Z)) * Z)
    (devs : list (device_ops W)) (procno addr val : Z) : st W Z :=
  match devs with
  | [] => mret val
  | d :: devs' =>
      match sel d with
      | (Some f, width) =>
          r ← f procno addr;
          let val' := match r with
            | None => val
            | Some v => Z.lor (Z.ldiff val (Z.ones width)) (wrap width v)
            end in
          devmem_read sel devs' procno addr val'
      | (None, _) => devmem_read sel devs' procno addr val
      end
  end.

Definition devmem_read8 (procno addr : Z) : st W Z :=
  devs ← gets ph_devices;
  v ← devmem_read (λ d, match dev_read8 d with
                        | Some f => (Some f, 8) | None => (dev_read32 d, 32) end)
        devs procno addr (wrap 32 DEFAULT_MEMORY_VALUE);
  mret (wrap 8 v).

Definition devmem_read16 (procno addr : Z) : st W Z :=
  devs ← gets ph_devices;
  v ← devmem_read (λ d, match dev_read16 d with
                        | Some f => (Some f, 16) | None => (dev_read32 d, 32) end)
        devs procno addr (wrap 32 DEFAULT_MEMORY_VALUE);
  mret (wrap 16 v).

Definition devmem_read32 (procno addr : Z) : st W Z :=
  devs ← gets ph_devices;
  devmem_read (λ d, (dev_read32 d, 32)) devs procno addr (wrap 32 DEFAULT_MEMORY_VALUE).

Definition devmem_read64 (procno addr : Z) : st W Z :=
  devs ← gets ph_devices;
  devmem_read (λ d, (dev_read64 d, 64)) devs procno addr DEFAULT_MEMORY_VALUE.

Fixpoint devmem_write (sel : device_ops W → option (Z → Z → Z → st W unit))
    (devs : list (device_ops W)) (procno addr val : Z) (written : bool) : st W bool :=
  match devs with
  | [] => mret written
  | d :: devs' =>
      match sel d with
      | Some f => f procno addr val;; devmem_write sel devs' procno addr val true
      | None => devmem_write sel devs' procno addr val written
      end
  end.

Definition or_else {A} (a b : option A) : option A := match a with Some _ => a | None => b end.

Definition devmem_write8 (procno addr val : Z) : st W bool :=
  devs ← gets ph_devices;
  devmem_write (λ d, or_else (dev_write8 d) (dev_write32 d)) devs procno addr val false.

Definition devmem_write16 (procno addr val : Z) : st W bool :=
  devs ← gets ph_devices;
  devmem_write (λ d, or_else (dev_write16 d) (dev_write32 d)) devs procno addr val false.

Definition devmem_write32 (procno addr val : Z) : st W bool :=
  devs ← gets ph_devices; devmem_write dev_write32 devs procno addr val false.

Definition devmem_write64 (procno addr val : Z) : st W bool :=
  devs ← gets ph_devices; devmem_write dev_write64 devs procno addr val false.

(** ** Reading *)
Definition physmem_read (devmem : Z → Z → st W Z) (n : nat) (procno addr : Z)
    (protected : bool) : st W Z :=
  f ← physmem_find_frame addr;
  match f with
  | None => devmem procno addr
  | Some f =>
      (if protected then physmem_breakpoint_find addr (Z.of_nat n) ACCESS_READ else mret tt);;
      '(d, off) ← frame_pointer f addr n;
      mret (load_le d off n)
  end.

Definition physmem_read8 := physmem_read devmem_read8 1.
Definition physmem_read16 := physmem_read devmem_read16 2.
Definition physmem_read32 := physmem_read devmem_read32 4.
Definition physmem_read64 := physmem_read devmem_read64 8.

(** ** Reservations *)
Definition sc_register (procno : Z) : st W unit :=
  p ← phys;
  if bool_decide (procno ∈ sc_list p) then mret tt
  else phys_modify (λ p, p <| sc_list := sc_list p ++ [procno] |>).

Fixpoint remove_first (procno : Z) (xs : list Z) : list Z :=
  match xs with
  | [] => []
  | x :: xs' => if x =? procno then xs' else x :: remove_first procno xs'
  end.

Definition sc_unregister (procno : Z) : st W unit :=
  phys_modify (λ p, p <| sc_list := remove_first procno (sc_list p) |>).

Fixpoint sc_control_loop (items : list Z) (addr size : Z) : st W unit :=
  match items with
  | [] => mret tt
  | procno :: items' =>
      hit ← ph_sc_access procno addr size;
      (if (hit : bool)
       then phys_modify (λ p, p <| sc_list := remove_first procno (sc_list p) |>)
       else mret tt);;
      sc_control_loop items' addr size
  end.

Definition sc_control (addr size : Z) : st W unit :=
  p ← phys; sc_control_loop (sc_list p) addr size.

(** ** Writing *)

(** [frame->valid = false] through the table. *)
Definition invalidate_frame (addr : Z) (f : frame) : st W unit :=
  ftl1 ← ftl1_of addr;
  set_frame addr (<[ftl2_index addr := f <| frame_valid := false |>]> (default ∅ ftl1)).

Definition put_data (id : Z) (d : gmap Z Z) : st W unit :=
  phys_modify (λ p, p <| areas := alter (λ a, a <| area_data := Some d |>) id (areas p) |>).

Definition physmem_write (devmem : Z → Z → Z → st W bool) (n : nat)
    (procno addr val : Z) (protected : bool) : st W bool :=
  f ← physmem_find_frame addr;
  match f with
  | None => devmem procno addr val
  | Some f =>
      area ← get_area (frame_area f);
      c_assert (bool_decide (is_Some (area_data area)));;
      if negb (area_writable area) && protected then mret false
      else
        sc_control addr (Z.of_nat n);;
        (if protected then physmem_breakpoint_find addr (Z.of_nat n) ACCESS_WRITE else mret tt);;
        invalidate_frame addr f;;
        '(d, off) ← frame_pointer f addr n;
        put_data (frame_area f) (store_le d off val n);;
        mret true
  end.

Definition physmem_write8 := physmem_write devmem_write8 1.
Definition physmem_write16 := physmem_write devmem_write16 2.
Definition physmem_write32 := physmem_write devmem_write32 4.
Definition physmem_write64 := physmem_write devmem_write64 8.
End Operations.

(** ** Abstract value of the memory *)

Definition lookup_frame (p : physmem) (addr : Z) : option frame :=
  match ftl0 p !! ftl1_index addr with
  | Some (Ftl1 fs) => fs !! ftl2_index addr
  | _ => None
  end.

(** The byte at a physical address; [None] where no memory is wired. *)
Definition byte_at (p : physmem) (addr : Z) : option Z :=
  f ← lookup_frame p addr;
  a ← areas p !! frame_area f;
  d ← area_data a;
  Some (area_byte d (frame_data f + Z.land addr FRAME_MASK)).

(** Little-endian value of [n] bytes of a byte map. *)
Fixpoint le_join (g : Z → Z) (addr : Z) (n : nat) : Z :=
  match n with
  | O => 0
  | S n' => Z.lor (g addr) (Z.shiftl (le_join g (addr + 1) n') 8)
  end.

(** Byte [k] of a value. *)
Definition le_byte (val k : Z) : Z := wrap 8 (Z.shiftr val (8 * k)).

Definition PHYS_LIMIT : Z := 2 ^ 36.

(** Every frame descriptor points to the bytes of the right frame of its area. *)
Definition frame_ok (p : physmem) (pfn : Z) (f : frame) : Prop :=
  ∃ a d, areas p !! frame_area f = Some a ∧ area_data a = Some d ∧
    0 ≤ area_count a < 2 ^ 32 ∧ area_start a ≤ pfn < area_start a + area_count a ∧
    frame_data f = (pfn - area_start a) * 4096.

Record phys_wf (p : physmem) : Prop := {
  wf_live : ∀ i, ftl0 p !! i ≠ Some Ftl1_freed;
  wf_frames : ∀ i j fs f, ftl0 p !! i = Some (Ftl1 fs) → fs !! j = Some f →
    0 ≤ i < 4096 ∧ 0 ≤ j < 4096 ∧ frame_ok p (i * 4096 + j) f;
  wf_bytes : ∀ id a d k v, areas p !! id = Some a → area_data a = Some d → d !! k = Some v →
    in_width 8 v;
  wf_sc_list : NoDup (sc_list p)
}.

(** ** Byte lemmas *)
Lemma load_le_join d off n : load_le d off n = le_join (area_byte d) off n.
Proof. revert off. induction n as [|n IH]; intros off; cbn; [done|]. by rewrite IH. Qed.

Lemma le_join_ext g g' a a' n :
  (∀ k, 0 ≤ k < Z.of_nat n → g (a + k) = g' (a' + k)) → le_join g a n = le_join g' a' n.
Proof.
  revert a a'. induction n as [|n IH]; intros a a' Hg; [done|]. cbn. f_equal.
  - specialize (Hg 0). rewrite !Z.add_0_r in Hg. apply Hg. lia.
  - f_equal. apply IH. intros k Hk. specialize (Hg (k + 1)).
    replace (a + 1 + k) with (a + (k + 1)) by lia. replace (a' + 1 + k) with (a' + (k + 1)) by lia.
    apply Hg. lia.
Qed.

Lemma wrap_split_byte m v :
  0 ≤ m → Z.lor (wrap 8 v) (Z.shiftl (wrap m (Z.shiftr v 8)) 8) = wrap (m + 8) v.
Proof.
  intros Hm. apply Z.bits_inj'. intros i Hi. autorewrite with zbits.
  destruct (Z.ltb_spec i 8), (Z.leb_spec 8 i); try lia; cbn.
  - rewrite orb_false_r. destruct (Z.ltb_spec i (m + 8)); [done|lia].
  - rewrite testbit_wrap, Z.shiftr_spec by lia. replace (i - 8 + 8) with i by lia.
    by destruct (Z.ltb_spec (i - 8) m), (Z.ltb_spec i (m + 8)); try lia.
Qed.

Lemma le_join_bytes v a n :
  le_join (λ x, le_byte v (x - a)) a n = wrap (8 * Z.of_nat n) v.
Proof.
  revert a v. induction n as [|n IH]; intros a v; [symmetry; apply Z.mod_1_r|].
  replace (8 * Z.of_nat (S n)) with (8 * Z.of_nat n + 8) by lia.
  rewrite <- wrap_split_byte by lia. cbn. f_equal.
  - unfold le_byte. by rewrite Z.sub_diag, Z.shiftr_0_r.
  - f_equal. rewrite <- (IH (a + 1)). apply le_join_ext. intros k Hk. unfold le_byte.
    rewrite Z.shiftr_shiftr by lia. do 2 f_equal. lia.
Qed.

Lemma store_le_lookup d off v n k :
  store_le d off v n !! k =
    if decide (off ≤ k < off + Z.of_nat n) then Some (le_byte v (k - off)) else d !! k.
Proof.
  revert off v. induction n as [|n IH]; intros off v; cbn [store_le].
  { rewrite decide_False by lia. done. }
  rewrite lookup_insert, IH. destruct (decide (off = k)) as [->|Hne].
  - rewrite decide_True by lia. unfold le_byte. by rewrite Z.sub_diag, Z.shiftr_0_r.
  - destruct (decide (off ≤ k < off + Z.of_nat (S n))).
    + rewrite decide_True by lia. unfold le_byte. rewrite Z.shiftr_shiftr by lia.
      do 3 f_equal. lia.
    + by rewrite decide_False by lia.
Qed.

Lemma le_join_width g a n :
  (∀ k, in_width 8 (g k)) → in_width (8 * Z.of_nat n) (le_join g a n).
Proof.
  intros Hg. revert a. induction n as [|n IH]; intros a; [cbn; unfold in_width; lia|].
  cbn [le_join]. replace (8 * Z.of_nat (S n)) with (8 * Z.of_nat n + 8) by lia.
  apply lor_width; [lia|apply (in_width_mono 8); [lia..|apply Hg]|].
  specialize (IH (a + 1)). unfold in_width in *. rewrite Z.shiftl_mul_pow2, Z.pow_add_r by lia. nia.
Qed.

(** Byte [k] of a joined value. *)
Lemma le_byte_join g a n k : (∀ x, in_width 8 (g x)) → 0 ≤ k < Z.of_nat n →
  le_byte (le_join g a n) k = g (a + k).
Proof.
  intros Hg. revert a k. induction n as [|n IH]; intros a k Hk; [lia|]. cbn [le_join].
  destruct (Z.eq_dec k 0) as [-> | Hne].
  - unfold le_byte. rewrite Z.mul_0_r, Z.shiftr_0_r, Z.add_0_r. apply Z.bits_inj'. intros i Hi.
    autorewrite with zbits. destruct (Z.ltb_spec i 8); cbn [andb].
    + replace (8 <=? i) with false by lia. by rewrite orb_false_r.
    + symmetry. by apply (testbit_high 8); [lia|apply Hg|].
  - replace (a + k) with (a + 1 + (k - 1)) by lia. rewrite <- (IH (a + 1) (k - 1)) by lia.
    unfold le_byte. f_equal. apply Z.bits_inj'. intros i Hi. autorewrite with zbits.
    rewrite (testbit_high 8 (g a)) by (lia || apply Hg). cbn [orb].
    replace (8 <=? i + 8 * k) with true by lia. cbn [andb]. f_equal. lia.
Qed.

Lemma area_byte_width p id a d k : phys_wf p → areas p !! id = Some a → area_data a = Some d →
  in_width 8 (area_byte d k).
Proof.
  intros Hwf Ha Hd. unfold area_byte. destruct (d !! k) as [v|] eqn:E; [|by apply in_width_0].
  by eapply (wf_bytes _ Hwf).
Qed.

Lemma byte_at_width p x : phys_wf p → in_width 8 (default 0 (byte_at p x)).
Proof.
  intros Hwf. unfold byte_at. destruct (lookup_frame p x) as [f|]; [cbn|by unfold in_width].
  destruct (areas p !! frame_area f) as [a|] eqn:Ha; [cbn|by unfold in_width].
  destruct (area_data a) as [d|] eqn:Hd; [cbn|by unfold in_width].
  by eapply area_byte_width.
Qed.

(** The little-endian word at a physical address. *)
Definition word_at (p : physmem) (a : Z) : Z := le_join (λ x, default 0 (byte_at p x)) a 4.

Lemma word_at_width p a : phys_wf p → in_width 32 (word_at p a).
Proof.
  intros Hwf. change 32 with (8 * Z.of_nat 4). apply le_join_width. intros x. by apply byte_at_width.
Qed.

Lemma word_at_frame p p' a : (∀ k, 0 ≤ k < 4 → byte_at p' (a + k) = byte_at p (a + k)) →
  word_at p' a = word_at p a.
Proof. intros Hb. apply le_join_ext. intros k Hk. by rewrite Hb by lia. Qed.

(** ** Address arithmetic *)
Lemma index_split addr : 0 ≤ addr < PHYS_LIMIT →
  0 ≤ ftl1_index addr < 4096 ∧ 0 ≤ ftl2_index addr < 4096 ∧
  ftl1_index addr * 4096 + ftl2_index addr = addr / 4096.
Proof.
  intros Ha. unfold PHYS_LIMIT in Ha. unfold ftl1_index, ftl2_index.
  change FTL1_MASK with (Z.ones 12). change FTL2_MASK with (Z.ones 12).
  rewrite !Z.land_ones, !Z.shiftr_div_pow2 by done.
  change (2 ^ FTL1_SHIFT) with (4096 * 4096). change (2 ^ FTL2_SHIFT) with 4096.
  change (2 ^ 12) with 4096. rewrite <- Z.div_div by lia.
  pose proof (Z.mod_pos_bound (addr / 4096) 4096). pose proof (Z.div_mod (addr / 4096) 4096).
  assert (0 ≤ addr / 4096 / 4096 < 4096).
  { split; [by repeat apply Z.div_pos; lia|]. repeat (apply Z.div_lt_upper_bound; [lia|]). lia. }
  rewrite (Z.mod_small (addr / 4096 / 4096)); lia.
Qed.

Lemma frame_mask_mod addr : Z.land addr FRAME_MASK = addr mod 4096.
Proof. change FRAME_MASK with (Z.ones 12). by rewrite Z.land_ones. Qed.

Lemma frames2size_small n : 0 ≤ n < 2 ^ 32 → FRAMES2SIZE n = n * 4096.
Proof.
  intros Hn. unfold FRAMES2SIZE. rewrite Z.shiftl_mul_pow2 by done.
  change (2 ^ FRAME_WIDTH) with 4096. apply wrap_small. unfold in_width. lia.
Qed.

(** Addresses of one frame share its descriptor. *)
Lemma lookup_frame_same p a a' :
  a / 4096 = a' / 4096 → lookup_frame p a = lookup_frame p a'.
Proof.
  intros E. unfold lookup_frame, ftl1_index, ftl2_index. rewrite !Z.shiftr_div_pow2 by done.
  change (2 ^ FTL1_SHIFT) with (4096 * 4096). change (2 ^ FTL2_SHIFT) with 4096.
  by rewrite <- !Z.div_div, E by lia.
Qed.

Lemma same_frame addr k n :
  addr mod 4096 + Z.of_nat n ≤ 4096 → 0 ≤ k < Z.of_nat n →
  (addr + k) / 4096 = addr / 4096 ∧ (addr + k) mod 4096 = addr mod 4096 + k.
Proof.
  intros Hc Hk. pose proof (Z.mod_pos_bound addr 4096). pose proof (Z.div_mod addr 4096).
  split; symmetry; [apply Z.div_unique with (addr mod 4096 + k)|
    apply Z.mod_unique with (addr / 4096)]; lia.
Qed.

(** ** Behaviour of the operations *)

(** The memory itself is unchanged; reservations may have been dropped. *)
Definition same_store (p p' : physmem) : Prop :=
  areas p' = areas p ∧ ftl0 p' = ftl0 p ∧ sc_list p' `sublist_of` sc_list p.

#[export] Instance same_store_preorder : PreOrder same_store.
Proof.
  split; [intros p; by split_and!|].
  intros p q r (E1 & E2 & S1) (F1 & F2 & S2). split_and!; [congruence|congruence|].
  by etrans.
Qed.

Lemma same_store_wf p p' : same_store p p' → phys_wf p → phys_wf p'.
Proof.
  intros (E1 & E2 & Hs) [H1 H2 H3 H4]. split; unfold frame_ok in *; rewrite ?E1, ?E2; eauto.
  by eapply sublist_NoDup.
Qed.

Lemma same_store_lookup p p' addr : same_store p p' → lookup_frame p' addr = lookup_frame p addr.
Proof. intros (_ & E & _). unfold lookup_frame. by rewrite E. Qed.

Lemma same_store_bytes p p' addr : same_store p p' → byte_at p' addr = byte_at p addr.
Proof.
  intros E. unfold byte_at. rewrite (same_store_lookup _ _ _ E). by destruct E as (-> & _).
Qed.

Lemma remove_first_elem procno xs q :
  NoDup xs → q ∈ remove_first procno xs ↔ q ≠ procno ∧ q ∈ xs.
Proof.
  induction xs as [|x xs IH]; cbn; [set_solver|]. intros [Hx Hn]%NoDup_cons.
  destruct (Z.eqb_spec x procno) as [->|Hne]; rewrite ?elem_of_cons, ?IH by done.
  - split; [intros Hq; split; [by intros ->|by right]|]. intros [? [?|?]]; done.
  - split; [intros [->|[? ?]]; [by split; [|left]|by split; [|right]]|].
    intros [? [->|?]]; [by left|by right].
Qed.

Lemma remove_first_sublist procno xs : remove_first procno xs `sublist_of` xs.
Proof.
  induction xs as [|x xs IH]; cbn; [done|]. case_match; [by constructor|by constructor].
Qed.

Section Runs.
Context {W : Type} `{PhysHostLaws W}.
Implicit Types w : W.

Lemma ftl1_of_run addr w fs :
  ftl0 (ph_get w) !! ftl1_index addr = Some (Ftl1 fs) → ftl1_of addr w = Done (Some fs, w).
Proof. intros E. unfold ftl1_of, phys. msimpl. by rewrite E. Qed.

Lemma find_frame_run addr w :
  phys_wf (ph_get w) → physmem_find_frame addr w = Done (lookup_frame (ph_get w) addr, w).
Proof.
  intros Hwf. unfold physmem_find_frame, ftl1_of, phys, lookup_frame. msimpl.
  pose proof (wf_live _ Hwf (ftl1_index addr)) as Hl.
  by destruct (ftl0 (ph_get w) !! ftl1_index addr) as [[fs|]|].
Qed.

Lemma breakpoint_find_run addr size access w :
  ∃ w', physmem_breakpoint_find addr size access w = Done (tt, w') ∧
    same_store (ph_get w) (ph_get w').
Proof.
  unfold physmem_breakpoint_find, phys, physmem_breakpoint_hit, phys_modify. msimpl.
  destruct (first_match _ _ _ _) as [[idx bp]|]; [|by eexists].
  destruct (pbp_kind bp).
  - destruct (ph_gdb_event_frame w) as (w' & E & F). exists w'. rewrite F. split; [done|reflexivity].
  - eexists. split; [done|]. rewrite ph_get_set. by split_and!.
Qed.

Lemma sc_control_loop_run items addr size w :
  ∃ w', sc_control_loop items addr size w = Done (tt, w') ∧ same_store (ph_get w) (ph_get w').
Proof.
  revert w. induction items as [|q items IH]; intros w; cbn; [by eexists|].
  destruct (ph_sc_access_frame q addr size w) as (b & w1 & E & F).
  rewrite (bind_Done _ _ _ _ _ E). destruct b; unfold phys_modify; msimpl.
  - edestruct (IH) as (w' & R & S). exists w'. split; [exact R|].
    etrans; [|exact S]. rewrite ph_get_set, F. split_and!; [done|done|]. apply remove_first_sublist.
  - destruct (IH w1) as (w' & R & S). exists w'. split; [exact R|]. by rewrite <- F.
Qed.

Lemma sc_control_run addr size w :
  ∃ w', sc_control addr size w = Done (tt, w') ∧ same_store (ph_get w) (ph_get w').
Proof. apply sc_control_loop_run. Qed.

Lemma lookup_frame_wf p addr f : phys_wf p → 0 ≤ addr < PHYS_LIMIT →
  lookup_frame p addr = Some f →
  ∃ fs a d, ftl0 p !! ftl1_index addr = Some (Ftl1 fs) ∧ fs !! ftl2_index addr = Some f ∧
    areas p !! frame_area f = Some a ∧ area_data a = Some d ∧ 0 ≤ area_count a < 2 ^ 32 ∧
    area_start a ≤ addr / 4096 < area_start a + area_count a ∧
    frame_data f + Z.land addr FRAME_MASK = addr - area_start a * 4096.
Proof.
  intros Hwf Ha. unfold lookup_frame.
  destruct (ftl0 p !! ftl1_index addr) as [[fs|]|] eqn:E1; [|done..]. intros E2.
  destruct (wf_frames _ Hwf _ _ _ _ E1 E2) as (_ & _ & a & d & Har & Had & Hc & Hb & Hf).
  destruct (index_split addr Ha) as (_ & _ & Ei). rewrite Ei in Hb, Hf.
  exists fs, a, d. split_and!; try done; try lia. rewrite frame_mask_mod, Hf.
  pose proof (Z.div_mod addr 4096). lia.
Qed.

Lemma frame_in_bounds (a : physmem_area) addr n :
  0 ≤ area_count a < 2 ^ 32 → area_start a ≤ addr / 4096 < area_start a + area_count a →
  addr mod 4096 + Z.of_nat n ≤ 4096 →
  (addr - area_start a * 4096 + Z.of_nat n <=? FRAMES2SIZE (area_count a)) = true.
Proof.
  intros Hc Hb Hn. rewrite frames2size_small by done. apply Z.leb_le.
  pose proof (Z.div_mod addr 4096). lia.
Qed.

Lemma frame_pointer_run addr f n w :
  phys_wf (ph_get w) → 0 ≤ addr < PHYS_LIMIT → addr mod 4096 + Z.of_nat n ≤ 4096 →
  lookup_frame (ph_get w) addr = Some f →
  ∃ a d, areas (ph_get w) !! frame_area f = Some a ∧ area_data a = Some d ∧
    frame_pointer f addr n w = Done ((d, addr - area_start a * 4096), w).
Proof.
  intros Hwf Ha Hn Hf. destruct (lookup_frame_wf _ _ _ Hwf Ha Hf)
    as (fs & a & d & _ & _ & Har & Had & Hc & Hb & Eo).
  exists a, d. split_and!; [done|done|]. unfold frame_pointer, get_area, phys. msimpl.
  by rewrite Har, Had, Eo, frame_in_bounds.
Qed.

Lemma byte_at_frame p addr f n k : phys_wf p → 0 ≤ addr → addr + Z.of_nat n ≤ PHYS_LIMIT →
  addr mod 4096 + Z.of_nat n ≤ 4096 → lookup_frame p addr = Some f → 0 ≤ k < Z.of_nat n →
  ∀ a d, areas p !! frame_area f = Some a → area_data a = Some d →
  byte_at p (addr + k) = Some (area_byte d (addr - area_start a * 4096 + k)).
Proof.
  intros Hwf Ha Hl Hc Hf Hk a d Har Had. destruct (same_frame _ _ _ Hc Hk) as [Eq Em].
  pose proof Hf as Hf'. rewrite (lookup_frame_same p addr (addr + k)) in Hf' by done.
  destruct (lookup_frame_wf p (addr + k) f Hwf ltac:(lia) Hf')
    as (fs & a' & d' & _ & _ & Har' & Had' & _ & _ & Eo).
  unfold byte_at. rewrite Hf'. cbn. rewrite Har. cbn. rewrite Had. cbn. rewrite Eo.
  simplify_eq. do 2 f_equal. lia.
Qed.

(** Reads of [n] bytes inside a wired frame. *)
Lemma physmem_read_spec devmem n procno addr protected f w :
  phys_wf (ph_get w) → 0 ≤ addr < PHYS_LIMIT → addr mod 4096 + Z.of_nat n ≤ 4096 →
  lookup_frame (ph_get w) addr = Some f →
  ∃ w', physmem_read devmem n procno addr protected w =
      Done (le_join (λ x, default 0 (byte_at (ph_get w) x)) addr n, w') ∧
    same_store (ph_get w) (ph_get w').
Proof.
  intros Hwf Ha Hc Hf. unfold physmem_read.
  rewrite (bind_Done _ _ _ _ _ (find_frame_run addr w Hwf)), Hf.
  assert (∃ w1, (if protected then physmem_breakpoint_find addr (Z.of_nat n) ACCESS_READ
                 else mret tt) w = Done (tt, w1) ∧ same_store (ph_get w) (ph_get w1))
    as (w1 & E1 & S1) by (destruct protected; [apply breakpoint_find_run|by eexists]).
  rewrite (bind_Done _ _ _ _ _ E1). exists w1. split; [|done].
  destruct (frame_pointer_run addr f n w1) as (a & d & Har & Had & Hrun); eauto using same_store_wf.
  { by rewrite (same_store_lookup _ _ _ S1). }
  rewrite (bind_Done _ _ _ _ _ Hrun). msimpl. do 2 f_equal. rewrite load_le_join.
  destruct n as [|n]; [done|].
  pose proof (Z.mod_pos_bound addr 4096). pose proof (Z.div_mod addr 4096).
  assert (addr + Z.of_nat (S n) ≤ PHYS_LIMIT) as Hlim.
  { unfold PHYS_LIMIT in *. pose proof (Z.div_lt_upper_bound addr 4096 (2 ^ 24)). lia. }
  apply le_join_ext. intros k Hk. rewrite <- (same_store_bytes _ _ _ S1).
  by rewrite (byte_at_frame _ addr f (S n) k (same_store_wf _ _ S1 Hwf) ltac:(lia) Hlim Hc
    ltac:(by rewrite (same_store_lookup _ _ _ S1)) Hk a d Har Had).
Qed.

(** An unprotected read changes nothing at all. *)
Lemma physmem_read_quiet devmem n procno addr f w :
  phys_wf (ph_get w) → 0 ≤ addr < PHYS_LIMIT → addr mod 4096 + Z.of_nat n ≤ 4096 →
  lookup_frame (ph_get w) addr = Some f →
  physmem_read devmem n procno addr false w =
    Done (le_join (λ x, default 0 (byte_at (ph_get w) x)) addr n, w).
Proof.
  intros Hwf Ha Hc Hf.
  destruct (physmem_read_spec devmem n procno addr false f w Hwf Ha Hc Hf) as (w' & Hrun & _).
  rewrite Hrun. do 2 f_equal. revert Hrun. unfold physmem_read.
  rewrite (bind_Done _ _ _ _ _ (find_frame_run addr w Hwf)), Hf, (bind_Done _ _ _ _ _ eq_refl).
  destruct (frame_pointer_run addr f n w Hwf Ha Hc Hf) as (a & d & _ & _ & Hp).
  rewrite (bind_Done _ _ _ _ _ Hp). unfold mret, st_ret. congruence.
Qed.

(** The state a store leaves behind, given the bookkeeping state [p1]. *)
Definition stored (p1 : physmem) (addr : Z) (f : frame) (fs : gmap Z frame)
    (d : gmap Z Z) (off val : Z) (n : nat) : physmem :=
  p1 <| ftl0 := <[ftl1_index addr := Ftl1 (<[ftl2_index addr := f <| frame_valid := false |>]> fs)]>
                  (ftl0 p1) |>
     <| areas := alter (λ a, a <| area_data := Some (store_le d off val n) |>) (frame_area f)
                  (areas p1) |>.

Lemma physmem_write_run devmem n procno addr val protected f a w :
  phys_wf (ph_get w) → 0 ≤ addr < PHYS_LIMIT → addr mod 4096 + Z.of_nat n ≤ 4096 →
  lookup_frame (ph_get w) addr = Some f → areas (ph_get w) !! frame_area f = Some a →
  area_writable a || negb protected = true →
  ∃ w' p1 fs d, physmem_write devmem n procno addr val protected w = Done (true, w') ∧
    same_store (ph_get w) p1 ∧ ftl0 p1 !! ftl1_index addr = Some (Ftl1 fs) ∧
    fs !! ftl2_index addr = Some f ∧ area_data a = Some d ∧
    ph_get w' = stored p1 addr f fs d (addr - area_start a * 4096) val n.
Proof.
  intros Hwf Ha Hc Hf Har Hw. unfold physmem_write.
  rewrite (bind_Done _ _ _ _ _ (find_frame_run addr w Hwf)), Hf.
  unfold get_area at 1, phys. msimpl. rewrite Har.
  destruct (lookup_frame_wf _ _ _ Hwf Ha Hf) as (fs & a' & d & Hfs & Hj & Har' & Had & Hcnt & Hb & Eo).
  simplify_eq. rewrite Had, bool_decide_eq_true_2 by done.
  replace (negb (area_writable a) && protected) with false
    by (by destruct (area_writable a), protected).
  destruct (sc_control_run addr (Z.of_nat n) w) as (w1 & -> & S1).
  assert (∃ w2, (if protected then physmem_breakpoint_find addr (Z.of_nat n) ACCESS_WRITE
                 else mret tt) w1 = Done (tt, w2) ∧ same_store (ph_get w1) (ph_get w2))
    as (w2 & E2 & S2) by (destruct protected; [apply breakpoint_find_run|by eexists]).
  unfold mret, st_ret in E2. rewrite E2. assert (same_store (ph_get w) (ph_get w2)) as S by by etrans.
  assert (ftl0 (ph_get w2) !! ftl1_index addr = Some (Ftl1 fs)) as Hfs2
    by (destruct S as (_ & -> & _); done).
  unfold invalidate_frame. msimpl. rewrite (ftl1_of_run _ _ _ Hfs2).
  unfold set_frame, phys_modify, frame_pointer, get_area, put_data, phys, phys_modify. msimpl.
  rewrite !ph_get_set. cbn -[FRAMES2SIZE]. destruct S as (Ea & Ef & Es).
  rewrite Ea, Har, Had, Eo, frame_in_bounds by done. msimpl. rewrite !ph_get_set.
  eexists _, (ph_get w2), fs, d. split_and!; [done| |done|done|done|].
  - by split_and!.
  - by rewrite ph_get_set.
Qed.

(** The descriptors after a store are those before it, up to the valid flag. *)
Lemma stored_lookup p1 addr f fs d off val n a :
  ftl0 p1 !! ftl1_index addr = Some (Ftl1 fs) → fs !! ftl2_index addr = Some f →
  lookup_frame (stored p1 addr f fs d off val n) a = lookup_frame p1 a ∨
  lookup_frame p1 a = Some f ∧
  lookup_frame (stored p1 addr f fs d off val n) a = Some (f <| frame_valid := false |>).
Proof.
  intros Hi Hj. unfold lookup_frame, stored. cbn. rewrite lookup_insert.
  case_decide as E; [|by left]. rewrite <- E, Hi, lookup_insert.
  case_decide as E'; [|by left]. right. by rewrite <- E', Hj.
Qed.

Lemma stored_area p1 addr f fs d off val n id :
  areas (stored p1 addr f fs d off val n) !! id =
    if decide (frame_area f = id)
    then (λ a, a <| area_data := Some (store_le d off val n) |>) <$> (areas p1 !! id)
    else areas p1 !! id.
Proof. unfold stored. cbn. rewrite lookup_alter. by case_decide; subst. Qed.

Lemma stored_wf p1 addr f fs d off val n a :
  phys_wf p1 → ftl0 p1 !! ftl1_index addr = Some (Ftl1 fs) → fs !! ftl2_index addr = Some f →
  areas p1 !! frame_area f = Some a → area_data a = Some d →
  phys_wf (stored p1 addr f fs d off val n).
Proof.
  intros Hwf Hi Hj Har Had. split.
  - intros i. cbn. rewrite lookup_insert. case_decide; [done|]. apply (wf_live _ Hwf).
  - intros i j fs' f' Hi' Hj'.
    assert (∃ fs0 f0, ftl0 p1 !! i = Some (Ftl1 fs0) ∧ fs0 !! j = Some f0 ∧
      frame_area f' = frame_area f0 ∧ frame_data f' = frame_data f0) as (fs0 & f0 & H1 & H2 & E1 & E2).
    { cbn in Hi'. rewrite lookup_insert in Hi'. case_decide; simplify_eq; [|by eauto 10].
      rewrite lookup_insert in Hj'. case_decide; simplify_eq; by eauto 10. }
    destruct (wf_frames _ Hwf _ _ _ _ H1 H2) as (B1 & B2 & a0 & d0 & A1 & A2 & A3).
    split_and!; [lia|lia|lia|lia|]. unfold frame_ok. rewrite E1, E2, stored_area, A1.
    case_decide; cbn; eauto 10.
  - intros id a' d' k v. rewrite stored_area. case_decide; [|by apply (wf_bytes _ Hwf)].
    subst id. rewrite Har. cbn. intros [= <-] [= <-]. rewrite store_le_lookup. case_decide.
    + intros [= <-]. unfold le_byte. apply wrap_range. lia.
    + by apply (wf_bytes _ Hwf _ _ _ _ _ Har Had).
  - apply (wf_sc_list _ Hwf).
Qed.

Lemma stored_bytes p1 addr f fs d val n a x :
  phys_wf p1 → 0 ≤ addr < PHYS_LIMIT → addr mod 4096 + Z.of_nat n ≤ 4096 →
  lookup_frame p1 addr = Some f → ftl0 p1 !! ftl1_index addr = Some (Ftl1 fs) →
  fs !! ftl2_index addr = Some f → areas p1 !! frame_area f = Some a → area_data a = Some d →
  0 ≤ x < PHYS_LIMIT →
  byte_at (stored p1 addr f fs d (addr - area_start a * 4096) val n) x =
    if decide (addr ≤ x < addr + Z.of_nat n) then Some (le_byte val (x - addr)) else byte_at p1 x.
Proof.
  intros Hwf Ha Hc Hf Hi Hj Har Had Hx.
  assert (addr ≤ x < addr + Z.of_nat n → lookup_frame p1 x = Some f) as Hin.
  { intros Hr. destruct (same_frame addr (x - addr) n Hc ltac:(lia)) as [Eq _].
    rewrite <- Hf. apply lookup_frame_same. rewrite <- Eq. f_equal. lia. }
  pose proof (stored_lookup p1 addr f fs d (addr - area_start a * 4096) val n x Hi Hj) as Hl.
  pose proof (stored_area p1 addr f fs d (addr - area_start a * 4096) val n) as Hars.
  revert Hl Hars. generalize (stored p1 addr f fs d (addr - area_start a * 4096) val n).
  intros p' Hl Hars. destruct (lookup_frame p1 x) as [f'|] eqn:Ef.
  - assert (∃ f'', lookup_frame p' x = Some f'' ∧ frame_area f'' = frame_area f' ∧
      frame_data f'' = frame_data f') as (f'' & El & E1 & E2).
    { destruct Hl as [E|[E1 E2]]; [by exists f'|]. simplify_eq. by eexists. }
    destruct (lookup_frame_wf p1 x f' Hwf Hx Ef) as (_ & a' & d' & _ & _ & Har' & Had' & _ & _ & Eo).
    unfold byte_at. rewrite El, Ef. cbn. rewrite E1, E2, Har', Eo. cbn. rewrite Had'. cbn.
    rewrite Hars. destruct (decide (frame_area f = frame_area f')) as [Eid|Hne].
    + rewrite <- Eid, Har. cbn. rewrite Eid in Har. simplify_eq. unfold area_byte.
      rewrite store_le_lookup. destruct (decide (addr ≤ x < addr + Z.of_nat n)).
      * rewrite decide_True by lia. cbn. do 2 f_equal. lia.
      * by rewrite decide_False by lia.
    + rewrite Har'. cbn. rewrite Had'. cbn. rewrite decide_False; [done|].
      intros Hr. apply Hne. specialize (Hin Hr). congruence.
  - rewrite decide_False by (intros Hr; by specialize (Hin Hr)). unfold byte_at. rewrite Ef.
    destruct Hl as [->|[E1 E2]]; [done|congruence].
Qed.

(** Stores of [n] bytes inside a wired frame that may be written. *)
Lemma physmem_write_spec devmem n procno addr val protected f a w :
  phys_wf (ph_get w) → 0 ≤ addr < PHYS_LIMIT → addr mod 4096 + Z.of_nat n ≤ 4096 →
  lookup_frame (ph_get w) addr = Some f → areas (ph_get w) !! frame_area f = Some a →
  area_writable a || negb protected = true →
  ∃ w', physmem_write devmem n procno addr val protected w = Done (true, w') ∧
    phys_wf (ph_get w') ∧
    lookup_frame (ph_get w') addr = Some (f <| frame_valid := false |>) ∧
    ∀ x, 0 ≤ x < PHYS_LIMIT → byte_at (ph_get w') x =
      if decide (addr ≤ x < addr + Z.of_nat n) then Some (le_byte val (x - addr))
      else byte_at (ph_get w) x.
Proof.
  intros Hwf Ha Hc Hf Har Hw.
  destruct (physmem_write_run devmem n procno addr val protected f a w Hwf Ha Hc Hf Har Hw)
    as (w' & p1 & fs & d & Hrun & S & Hi & Hj & Had & Ew).
  pose proof (same_store_wf _ _ S Hwf) as Hwf1.
  assert (areas p1 !! frame_area f = Some a) as Har1 by (destruct S as (-> & _); done).
  assert (lookup_frame p1 addr = Some f) as Hf1 by (by rewrite (same_store_lookup _ _ _ S)).
  exists w'. rewrite Ew. split_and!; [done|by eapply stored_wf| |].
  - unfold lookup_frame, stored. cbn. by rewrite !lookup_insert_eq.
  - intros x Hx. rewrite (stored_bytes p1 addr f fs d val n a x) by done.
    by rewrite (same_store_bytes _ _ _ S).
Qed.

Lemma last_byte_limit addr n k :
  0 ≤ addr < PHYS_LIMIT → addr mod 4096 + Z.of_nat n ≤ 4096 → 0 ≤ k < Z.of_nat n →
  0 ≤ addr + k < PHYS_LIMIT.
Proof.
  intros Ha Hc Hk. unfold PHYS_LIMIT in *. pose proof (Z.div_mod addr 4096).
  pose proof (Z.mod_pos_bound addr 4096). pose proof (Z.div_lt_upper_bound addr 4096 (2 ^ 24)). lia.
Qed.

(** Unmapped addresses go to the devices. *)
Lemma physmem_read_unmapped devmem n procno addr protected w :
  phys_wf (ph_get w) → lookup_frame (ph_get w) addr = None →
  physmem_read devmem n procno addr protected w = devmem procno addr w.
Proof.
  intros Hwf Hf. unfold physmem_read.
  by rewrite (bind_Done _ _ _ _ _ (find_frame_run addr w Hwf)), Hf.
Qed.

Lemma physmem_write_unmapped devmem n procno addr val protected w :
  phys_wf (ph_get w) → lookup_frame (ph_get w) addr = None →
  physmem_write devmem n procno addr val protected w = devmem procno addr val w.
Proof.
  intros Hwf Hf. unfold physmem_write.
  by rewrite (bind_Done _ _ _ _ _ (find_frame_run addr w Hwf)), Hf.
Qed.

(** ** Wiring *)
Lemma area_addr_small (area : physmem_area) pfn :
  0 ≤ area_start area → 0 ≤ pfn → area_start area + pfn < 2 ^ 24 →
  area_addr area pfn = (area_start area + pfn) * 4096.
Proof.
  intros. unfold area_addr, FRAME2ADDR. rewrite (wrap_small 32) by (unfold in_width; lia).
  rewrite Z.shiftl_mul_pow2 by done. change (2 ^ FRAME_WIDTH) with 4096.
  apply wrap_small. unfold in_width. lia.
Qed.

Lemma index_inj a a' : 0 ≤ a < PHYS_LIMIT → 0 ≤ a' < PHYS_LIMIT →
  ftl1_index a = ftl1_index a' → ftl2_index a = ftl2_index a' → a / 4096 = a' / 4096.
Proof.
  intros H1 H2 E1 E2. destruct (index_split a H1) as (_ & _ & <-).
  destruct (index_split a' H2) as (_ & _ & <-). congruence.
Qed.

(** The second-level table of [addr], empty when there is none. *)
Definition ftl1_at (p : physmem) (addr : Z) : gmap Z frame :=
  match ftl0 p !! ftl1_index addr with Some (Ftl1 fs) => fs | _ => ∅ end.

Definition with_frame (p : physmem) (addr : Z) (fr : frame) : physmem :=
  p <| ftl0 := <[ftl1_index addr := Ftl1 (<[ftl2_index addr := fr]> (ftl1_at p addr))]> (ftl0 p) |>.

Lemma with_frame_lookup p addr fr x : 0 ≤ addr < PHYS_LIMIT → 0 ≤ x < PHYS_LIMIT →
  lookup_frame (with_frame p addr fr) x =
    if decide (x / 4096 = addr / 4096) then Some fr else lookup_frame p x.
Proof.
  intros Ha Hx. unfold lookup_frame, with_frame, ftl1_at. cbn. rewrite lookup_insert.
  case_decide as Ei; [rewrite lookup_insert; case_decide as Ej|].
  - rewrite decide_True; [done|]. by apply index_inj.
  - rewrite Ei, decide_False; [by destruct (ftl0 p !! _) as [[]|]|]. intros E. apply Ej.
    unfold ftl2_index. rewrite !Z.shiftr_div_pow2 by done. change (2 ^ FTL2_SHIFT) with 4096. congruence.
  - rewrite decide_False; [done|]. intros E. apply Ei. unfold ftl1_index.
    rewrite !Z.shiftr_div_pow2 by done. change (2 ^ FTL1_SHIFT) with (4096 * 4096).
    rewrite <- !Z.div_div by lia. congruence.
Qed.

Lemma with_frame_wf p addr fr : phys_wf p → 0 ≤ addr < PHYS_LIMIT →
  frame_ok p (addr / 4096) fr → phys_wf (with_frame p addr fr).
Proof.
  intros Hwf Ha Hok. destruct (index_split addr Ha) as (I1 & I2 & I3).
  split; cbn; [| |by apply (wf_bytes _ Hwf)|by apply (wf_sc_list _ Hwf)].
  - intros i. rewrite lookup_insert. case_decide; [done|apply (wf_live _ Hwf)].
  - intros i j fs f. rewrite lookup_insert. case_decide as Ei; [|by apply (wf_frames _ Hwf)].
    intros [= <-]. rewrite lookup_insert. case_decide as Ej.
    + intros [= <-]. subst i j. by rewrite I3.
    + unfold ftl1_at. destruct (ftl0 p !! ftl1_index addr) as [[fs'|]|] eqn:E; [|done..].
      subst i. by apply (wf_frames _ Hwf).
Qed.

(** A store clears the valid flag of its own frame only. *)
Lemma physmem_write_frames devmem n procno addr val protected f a w w' :
  phys_wf (ph_get w) → 0 ≤ addr < PHYS_LIMIT → addr mod 4096 + Z.of_nat n ≤ 4096 →
  lookup_frame (ph_get w) addr = Some f → areas (ph_get w) !! frame_area f = Some a →
  area_writable a || negb protected = true →
  physmem_write devmem n procno addr val protected w = Done (true, w') →
  ∀ x, 0 ≤ x < PHYS_LIMIT → lookup_frame (ph_get w') x =
    if decide (x / 4096 = addr / 4096) then Some (f <| frame_valid := false |>)
    else lookup_frame (ph_get w) x.
Proof.
  intros Hwf Ha Hc Hf Har Hw Hrun x Hx.
  destruct (physmem_write_run devmem n procno addr val protected f a w Hwf Ha Hc Hf Har Hw)
    as (w1 & p1 & fs & d & Hrun1 & S & Hi & Hj & Had & Ew).
  rewrite Hrun in Hrun1. injection Hrun1 as <-. rewrite Ew, <- (same_store_lookup _ _ x S).
  rewrite <- (with_frame_lookup p1 addr) by done. unfold lookup_frame, with_frame, ftl1_at, stored. cbn.
  by rewrite Hi.
Qed.

(** One iteration of the loop of [physmem_wire]. *)
Lemma wire_frame_run id area pfn w :
  phys_wf (ph_get w) → areas (ph_get w) !! id = Some area → is_Some (area_data area) →
  0 ≤ area_start area → 0 ≤ pfn < area_count area → area_start area + area_count area ≤ 2 ^ 24 →
  ∃ w', wire_frame id area pfn w = Done (tt, w') ∧ phys_wf (ph_get w') ∧
    areas (ph_get w') = areas (ph_get w) ∧
    ∀ x, 0 ≤ x < PHYS_LIMIT → lookup_frame (ph_get w') x =
      if decide (x / 4096 = area_start area + pfn) then Some (mk_frame id (pfn * 4096) false)
      else lookup_frame (ph_get w) x.
Proof.
  intros Hwf Har [d Had] Hs Hp Hc. unfold wire_frame. rewrite area_addr_small by lia.
  set (addr := (area_start area + pfn) * 4096).
  assert (0 ≤ addr < PHYS_LIMIT) as Ha by (unfold PHYS_LIMIT; lia).
  assert (addr / 4096 = area_start area + pfn) as Eq by (apply Z.div_mul; lia).
  rewrite frames2size_small by lia. set (fr := mk_frame id (pfn * 4096) false).
  assert (∃ o, ftl1_of addr w = Done (o, w) ∧ default ∅ o = ftl1_at (ph_get w) addr)
    as (o & Eo & Ho).
  { unfold ftl1_of, phys, ftl1_at. msimpl. pose proof (wf_live _ Hwf (ftl1_index addr)).
    destruct (ftl0 (ph_get w) !! ftl1_index addr) as [[fs|]|]; [by eexists|done|by eexists]. }
  rewrite (bind_Done _ _ _ _ _ Eo), Ho. unfold set_frame, phys_modify. msimpl.
  eexists. split; [done|]. rewrite ph_get_set.
  change (phys_wf (with_frame (ph_get w) addr fr) ∧
    areas (with_frame (ph_get w) addr fr) = areas (ph_get w) ∧
    ∀ x, 0 ≤ x < PHYS_LIMIT → lookup_frame (with_frame (ph_get w) addr fr) x =
      if decide (x / 4096 = area_start area + pfn) then Some fr else lookup_frame (ph_get w) x).
  split_and!; [|done|intros x Hx; by rewrite with_frame_lookup, Eq].
  apply with_frame_wf; [done..|]. rewrite Eq. exists area, d. cbn. split_and!; try done; lia.
Qed.

Lemma wire_loop_run id area n pfn w :
  phys_wf (ph_get w) → areas (ph_get w) !! id = Some area → is_Some (area_data area) →
  0 ≤ area_start area → 0 ≤ pfn → pfn + Z.of_nat n ≤ area_count area →
  area_start area + area_count area ≤ 2 ^ 24 →
  ∃ w', for_pfn n pfn (wire_frame id area) w = Done (tt, w') ∧ phys_wf (ph_get w') ∧
    areas (ph_get w') = areas (ph_get w) ∧
    ∀ x, 0 ≤ x < PHYS_LIMIT → lookup_frame (ph_get w') x =
      if decide (area_start area + pfn ≤ x / 4096 < area_start area + pfn + Z.of_nat n)
      then Some (mk_frame id ((x / 4096 - area_start area) * 4096) false)
      else lookup_frame (ph_get w) x.
Proof.
  intros Hwf Har Had Hs. revert pfn w Hwf Har. induction n as [|n IH]; intros pfn w Hwf Har Hp Hn Hc.
  { eexists. split_and!; [done..|]. intros x Hx. by rewrite decide_False by lia. }
  destruct (wire_frame_run id area pfn w) as (w1 & E1 & Hwf1 & A1 & L1); [done..|lia|done|].
  destruct (IH (pfn + 1) w1) as (w' & E' & Hwf' & A' & L'); [done|by rewrite A1|lia|lia|done|].
  exists w'. split_and!; [|done|congruence|].
  { cbn. by rewrite (bind_Done _ _ _ _ _ E1). }
  intros x Hx. rewrite L', L1 by done. repeat case_decide; try lia; [done| |done].
  do 2 f_equal. lia.
Qed.
Lemma physmem_wire_run id area w :
  phys_wf (ph_get w) → areas (ph_get w) !! id = Some area → area_type area ≠ MEMT_NONE →
  is_Some (area_data area) → 0 ≤ area_start area → 0 < area_count area →
  area_start area + area_count area ≤ 2 ^ 24 →
  ∃ w', physmem_wire id w = Done (tt, w') ∧ phys_wf (ph_get w') ∧
    areas (ph_get w') = areas (ph_get w) ∧
    ∀ x, 0 ≤ x < PHYS_LIMIT → lookup_frame (ph_get w') x =
      if decide (area_start area ≤ x / 4096 < area_start area + area_count area)
      then Some (mk_frame id ((x / 4096 - area_start area) * 4096) false)
      else lookup_frame (ph_get w) x.
Proof.
  intros Hwf Har Ht Had Hs Hn Hc.
  destruct (wire_loop_run id area (Z.to_nat (area_count area)) 0 w)
    as (w' & E & Hwf' & A & L); [done|done|done|lia|lia|lia|done|].
  exists w'. split_and!; [|done|done|].
  - unfold physmem_wire, get_area, phys, area_checks. msimpl. rewrite Har.
    rewrite bool_decide_eq_false_2, bool_decide_eq_true_2 by done. cbn.
    destruct (Z.ltb_spec 0 (area_count area)); [done|lia].
  - intros x Hx. rewrite L by done. by rewrite Z.add_0_r, Z2Nat.id by lia.
Qed.
End Runs.

(** ** The API at every width *)
Inductive width := W8 | W16 | W32 | W64.

Definition bytes_of (b : width) : nat :=
  match b with W8 => 1 | W16 => 2 | W32 => 4 | W64 => 8 end.

Section Api.
Context {W : Type} `{PhysHostLaws W}.
Implicit Types w : W.

Definition read_of (b : width) : Z → Z → bool → st W Z :=
  match b with
  | W8 => physmem_read8 | W16 => physmem_read16 | W32 => physmem_read32 | W64 => physmem_read64
  end.

Definition write_of (b : width) : Z → Z → Z → bool → st W bool :=
  match b with
  | W8 => physmem_write8 | W16 => physmem_write16
  | W32 => physmem_write32 | W64 => physmem_write64
  end.

(** An access of [b] at [addr] falls into one wired frame. *)
Record access_ok (w : W) (b : width) (addr : Z) (f : frame) (a : physmem_area) : Prop := {
  ac_wf : phys_wf (ph_get w);
  ac_addr : 0 ≤ addr < PHYS_LIMIT;
  ac_cross : addr mod 4096 + Z.of_nat (bytes_of b) ≤ 4096;
  ac_frame : lookup_frame (ph_get w) addr = Some f;
  ac_area : areas (ph_get w) !! frame_area f = Some a
}.

(** C12: a read inside a wired frame returns the little-endian value of the
    abstract bytes and leaves the memory as it is (only breakpoint bookkeeping
    may change), at every access width. *)
Theorem physmem_read_refines b procno addr protected f a w :
  access_ok w b addr f a →
  ∃ w', read_of b procno addr protected w =
      Done (le_join (λ x, default 0 (byte_at (ph_get w) x)) addr (bytes_of b), w') ∧
    same_store (ph_get w) (ph_get w').
Proof. intros [Hwf Ha Hc Hf _]. destruct b; by apply physmem_read_spec with f. Qed.

(** C11: a store inside a wired frame that may be written returns true and
    updates exactly the addressed bytes of the abstract memory; the invariant is
    kept and the decoded instructions of the frame are invalidated. *)
Theorem physmem_write_refines b procno addr val protected f a w :
  access_ok w b addr f a → area_writable a || negb protected = true →
  ∃ w', write_of b procno addr val protected w = Done (true, w') ∧
    phys_wf (ph_get w') ∧
    lookup_frame (ph_get w') addr = Some (f <| frame_valid := false |>) ∧
    ∀ x, 0 ≤ x < PHYS_LIMIT → byte_at (ph_get w') x =
      if decide (addr ≤ x < addr + Z.of_nat (bytes_of b)) then Some (le_byte val (x - addr))
      else byte_at (ph_get w) x.
Proof. intros [Hwf Ha Hc Hf Har] Hw. destruct b; by apply physmem_write_spec with a. Qed.

(** a protected store to read-only memory returns false and changes nothing:
    no byte, no reservation, no breakpoint, no valid flag. *)
Theorem physmem_write_rom b procno addr val f a w :
  access_ok w b addr f a → area_writable a = false →
  write_of b procno addr val true w = Done (false, w).
Proof.
  intros [Hwf Ha Hc Hf Har] Hw.
  destruct (lookup_frame_wf _ _ _ Hwf Ha Hf) as (fs & a' & d & _ & _ & Har' & Had & _).
  destruct b; cbn; unfold physmem_write8, physmem_write16, physmem_write32, physmem_write64,
    physmem_write; rewrite (bind_Done _ _ _ _ _ (find_frame_run addr w Hwf)), Hf;
    unfold get_area, phys; msimpl; rewrite Har; simplify_eq;
    by rewrite Had, bool_decide_eq_true_2, Hw by done.
Qed.

(** a value just stored reads back modulo the width of the access. *)
Theorem physmem_write_read b procno procno' addr val pw pr f a w :
  access_ok w b addr f a → area_writable a || negb pw = true →
  ∃ w' w'', write_of b procno addr val pw w = Done (true, w') ∧
    read_of b procno' addr pr w' = Done (wrap (8 * Z.of_nat (bytes_of b)) val, w'').
Proof.
  intros [Hwf Ha Hc Hf Har] Hw.
  assert (∃ dw dr, (∀ q v p, write_of b q addr v p = physmem_write dw (bytes_of b) q addr v p) ∧
    (∀ q p, read_of b q addr p = physmem_read dr (bytes_of b) q addr p)) as (dw & dr & Ew & Er)
    by (destruct b; by eexists _, _).
  destruct (physmem_write_spec dw (bytes_of b) procno addr val pw f a w Hwf Ha Hc Hf Har Hw)
    as (w' & Hrun & Hwf' & Hf' & Hb).
  destruct (physmem_read_spec dr (bytes_of b) procno' addr pr _ w' Hwf' Ha Hc Hf') as (w'' & Hrd & _).
  exists w', w''. rewrite Ew, Er. split; [done|]. rewrite Hrd. do 2 f_equal.
  rewrite <- (le_join_bytes val addr). apply le_join_ext. intros k Hk.
  rewrite Hb by (by eapply last_byte_limit). by rewrite decide_True by lia.
Qed.

(** [physmem_wire] maps every frame of the area to its own bytes, leaves all
    other addresses as they were, and keeps the table well-formed. *)
Theorem physmem_wire_maps id area w :
  phys_wf (ph_get w) → areas (ph_get w) !! id = Some area → area_type area ≠ MEMT_NONE →
  is_Some (area_data area) → 0 ≤ area_start area → 0 < area_count area →
  area_start area + area_count area ≤ 2 ^ 24 →
  ∃ w', physmem_wire id w = Done (tt, w') ∧ phys_wf (ph_get w') ∧
    areas (ph_get w') = areas (ph_get w) ∧
    ∀ x, 0 ≤ x < PHYS_LIMIT → lookup_frame (ph_get w') x =
      if decide (area_start area ≤ x / 4096 < area_start area + area_count area)
      then Some (mk_frame id ((x / 4096 - area_start area) * 4096) false)
      else lookup_frame (ph_get w) x.
Proof. apply physmem_wire_run. Qed.

(** unwiring the only frame of a second-level table leaves a freed table in
    [ftl0]: the next lookup of any address of that 16 MiB region follows a
    dangling pointer. *)
Theorem physmem_unwire_dangles id area f w :
  areas (ph_get w) !! id = Some area → area_type area ≠ MEMT_NONE →
  is_Some (area_data area) → area_count area = 1 →
  ftl0 (ph_get w) !! ftl1_index (area_addr area 0) =
    Some (Ftl1 {[ ftl2_index (area_addr area 0) := f ]}) →
  ∃ w', physmem_unwire id w = Done (tt, w') ∧
    ∀ addr, ftl1_index addr = ftl1_index (area_addr area 0) →
      physmem_find_frame addr w' = Stop UndefinedBehaviour.
Proof.
  intros Har Ht Had Hn Hftl.
  unfold physmem_unwire, get_area, phys, area_checks. msimpl. rewrite Har.
  rewrite bool_decide_eq_false_2, (bool_decide_eq_true_2 (is_Some _)), Hn by done.
  change (Z.to_nat 1) with 1%nat. change (0 <? 1) with true. cbn [for_pfn negb].
  unfold unwire_frame, ftl1_of, phys, phys_modify. msimpl. cbv zeta beta. rewrite Hftl.
  rewrite bool_decide_eq_true_2 by (by rewrite lookup_singleton_eq).
  rewrite bool_decide_eq_true_2 by (apply delete_singleton_eq).
  eexists. split; [done|]. intros addr Ea. unfold physmem_find_frame, ftl1_of, phys. msimpl.
  rewrite ph_get_set. cbn. by rewrite Ea, lookup_insert_eq.
Qed.

(** without a frame and without devices, a read returns all ones at the
    width of the access and a write reports failure; neither changes anything. *)
Theorem physmem_unmapped b procno addr val protected w :
  phys_wf (ph_get w) → lookup_frame (ph_get w) addr = None → ph_devices w = [] →
  read_of b procno addr protected w = Done (Z.ones (8 * Z.of_nat (bytes_of b)), w) ∧
  write_of b procno addr val protected w = Done (false, w).
Proof.
  intros Hwf Hf Hd.
  destruct b; cbn [read_of write_of];
    unfold physmem_read8, physmem_read16, physmem_read32, physmem_read64,
      physmem_write8, physmem_write16, physmem_write32, physmem_write64;
    (rewrite physmem_read_unmapped, physmem_write_unmapped by done);
    unfold devmem_read8, devmem_read16, devmem_read32, devmem_read64,
      devmem_write8, devmem_write16, devmem_write32, devmem_write64; msimpl; by rewrite Hd.
Qed.

(** the list of processors with a reservation has no duplicates, and
    registering or unregistering a processor adds or removes exactly it. *)
Theorem sc_list_ops procno w :
  NoDup (sc_list (ph_get w)) →
  (∃ w', sc_register procno w = Done (tt, w') ∧ NoDup (sc_list (ph_get w')) ∧
     ∀ q, q ∈ sc_list (ph_get w') ↔ q = procno ∨ q ∈ sc_list (ph_get w)) ∧
  (∃ w', sc_unregister procno w = Done (tt, w') ∧ NoDup (sc_list (ph_get w')) ∧
     ∀ q, q ∈ sc_list (ph_get w') ↔ q ≠ procno ∧ q ∈ sc_list (ph_get w)).
Proof.
  intros Hn. split.
  - unfold sc_register, phys, phys_modify. msimpl. case_bool_decide as Hin.
    + eexists. split_and!; [done|done|]. intros q. split; [by right|]. by intros [->|?].
    + eexists. split; [done|]. rewrite ph_get_set. cbn. split.
      * apply NoDup_app. split_and!; [done| |apply NoDup_singleton].
        by intros x Hx ->%list_elem_of_singleton.
      * intros q. rewrite elem_of_app, list_elem_of_singleton. tauto.
  - unfold sc_unregister, phys_modify. msimpl. eexists. split; [done|]. rewrite ph_get_set. cbn.
    split; [|intros q; by apply remove_first_elem].
    by eapply sublist_NoDup; [|apply remove_first_sublist].
Qed.
End Api.

(** ** A machine with memory only *)
Module Lone.

#[global] Instance host : PhysHost physmem := {|
  ph_get p := p;
  ph_set p _ := p;
  ph_sc_access _ _ _ := mret false;
  ph_devices _ := [];
  ph_gdb_event := mret tt
|}.

#[global] Instance laws : PhysHostLaws physmem.
Proof. split; intros; try done; repeat eexists. Qed.

Definition ram : physmem_area := mk_area MEMT_MEM true 0 1 (Some ∅).
Definition rom : physmem_area := mk_area MEMT_MEM false 1 1 (Some ∅).

(** A RAM frame at 0 and a ROM frame at 0x1000; area 3 is not wired yet. *)
Definition p0 : physmem :=
  mk_physmem {[ 1 := ram; 2 := rom; 3 := mk_area MEMT_MEM true 4096 1 (Some ∅) ]}
    {[ 0 := Ftl1 {[ 0 := mk_frame 1 0 true; 1 := mk_frame 2 0 true ]} ]} [] [] false.

Lemma p0_wf : phys_wf p0.
Proof.
  split; cbn.
  - intros i. rewrite lookup_singleton. by case_decide.
  - intros i j fs f [<- [= <-]]%lookup_singleton_Some. rewrite !lookup_insert, lookup_singleton.
    repeat case_decide; [| |done]; intros [= <-]; (split_and!; [lia..|]);
      eexists _, ∅; cbn; (split_and!; [done|done|cbn; lia..]).
  - intros id a d k v. rewrite !lookup_insert, lookup_singleton.
    repeat case_decide; [..|done]; intros [= <-] [= <-]; by rewrite lookup_empty.
  - constructor.
Qed.

Lemma access_ram b : access_ok p0 b 8 (mk_frame 1 0 true) ram.
Proof. split; [apply p0_wf|unfold PHYS_LIMIT; lia|destruct b; vm_compute; congruence|done|done]. Qed.

Lemma access_rom b : access_ok p0 b 4096 (mk_frame 2 0 true) rom.
Proof. split; [apply p0_wf|unfold PHYS_LIMIT; lia|destruct b; vm_compute; congruence|done|done]. Qed.
End Lone.

Lemma physmem_read_refines_witness :
  ∃ w', read_of W32 0 8 true Lone.p0 = Done (0, w') ∧ same_store Lone.p0 w'.
Proof. apply (physmem_read_refines W32 0 8 true _ _ Lone.p0 (Lone.access_ram W32)). Defined.

Lemma physmem_write_refines_witness :
  ∃ w', write_of W16 0 8 0x1234 true Lone.p0 = Done (true, w') ∧ byte_at w' 9 = Some 0x12.
Proof.
  destruct (physmem_write_refines W16 0 8 0x1234 true _ _ Lone.p0 (Lone.access_ram W16) eq_refl)
    as (w' & Hrun & _ & _ & Hb).
  exists w'. split; [exact Hrun|]. apply (Hb 9). unfold PHYS_LIMIT. lia.
Defined.

Lemma physmem_write_rom_witness : write_of W64 0 4096 7 true Lone.p0 = Done (false, Lone.p0).
Proof. apply (physmem_write_rom W64 0 4096 7 _ _ Lone.p0 (Lone.access_rom W64) eq_refl). Defined.

Lemma physmem_write_read_witness :
  ∃ w' w'', write_of W8 0 8 0x1ff true Lone.p0 = Done (true, w') ∧
    read_of W8 1 8 true w' = Done (0xff, w'').
Proof.
  apply (physmem_write_read W8 0 1 8 0x1ff true true _ _ Lone.p0 (Lone.access_ram W8) eq_refl).
Defined.

Lemma physmem_wire_maps_witness :
  ∃ w', physmem_wire 3 Lone.p0 = Done (tt, w') ∧
    lookup_frame w' 0x1000004 = Some (mk_frame 3 0 false).
Proof.
  destruct (physmem_wire_maps 3 (mk_area MEMT_MEM true 4096 1 (Some ∅)) Lone.p0)
    as (w' & Hrun & _ & _ & Hl);
    [apply Lone.p0_wf|reflexivity|discriminate|by eexists|simpl; lia|simpl; lia|simpl; lia|].
  exists w'. split; [exact Hrun|]. 
  refine (eq_trans (Hl 0x1000004 _) _); [unfold PHYS_LIMIT; lia|reflexivity].
Defined.

Lemma physmem_unwire_dangles_witness :
  ∃ w w', physmem_wire 3 Lone.p0 = Done (tt, w) ∧ physmem_unwire 3 w = Done (tt, w') ∧
    physmem_find_frame 0x1000000 w' = Stop UndefinedBehaviour.
Proof.
  eexists. destruct (physmem_unwire_dangles 3 (mk_area MEMT_MEM true 4096 1 (Some ∅))
    (mk_frame 3 0 false)
    (Lone.p0 <| ftl0 := <[1 := Ftl1 {[ 0 := mk_frame 3 0 false ]}]> (ftl0 Lone.p0) |>))
    as (w' & Hrun & Hdang); [reflexivity|discriminate|by eexists|reflexivity|reflexivity|].
  exists w'. split; [reflexivity|]. split; [exact Hrun|]. apply Hdang. reflexivity.
Defined.

Lemma physmem_unmapped_witness : read_of W16 0 0x5000 true Lone.p0 = Done (0xffff, Lone.p0).
Proof.
  apply (physmem_unmapped W16 0 0x5000 0 true Lone.p0); [apply Lone.p0_wf|reflexivity|reflexivity].
Defined.

Lemma sc_list_ops_witness : ∃ w', sc_register 5 Lone.p0 = Done (tt, w') ∧ 5 ∈ sc_list w'.
Proof.
  destruct (sc_list_ops 5 Lone.p0) as [(w' & Hrun & _ & Hin) _]; [apply (wf_sc_list _ Lone.p0_wf)|].
  exists w'. split; [exact Hrun|]. apply Hin. by left.
Defined.

End PhysMem.
