(* ===== verification/GenCpu.v ===== *)
(** * The table of processors (src/src/device/cpu/general_cpu.c, general_cpu.h)

    A processor of any family is registered on [cpu_list] with its number, a
    pointer to the method table of its family and a pointer to its own data.
    Devices reach processors through this table only: [cpu_interrupt_up] and the
    other wrappers dispatch to the family and replace an unknown processor by
    processor 0 or by the head of the list.

    [CpuHost] is what the rest of the simulator supplies (the list and the
    method tables); [CpuHostLaws] is what the devices rely on: raising or
    cancelling an interrupt that the processor accepts changes one processor and
    nothing else, and one that it does not accept fails an assertion.  The RISC-V
    machine implements it in [RvIrq], the R4000 machine in [R4kDevice]. *)

From S2P Require Import Prelude PhysMem.

Module GenCpu.

Definition MAX_CPUS : Z := 32.
Definition MAX_INTRS : Z := 11.

(** ** The method table of a family

    [None] is a null pointer.  The first argument of every method is the
    [data] pointer of the processor. *)
Record cpu_ops (W : Type) := mk_cpu_ops {
  interrupt_up : option (Z → Z → st W unit);
  interrupt_down : option (Z → Z → st W unit);
  insert_breakpoint : option (Z → Z → PhysMem.breakpoint_kind → st W unit);
  remove_breakpoint : option (Z → Z → st W unit);
  convert_addr : option (Z → Z → bool → st W (option Z));
  reg_dump : option (Z → st W unit);
  set_pc : option (Z → Z → st W unit);
  sc_access : option (Z → Z → Z → st W bool)
}.
Arguments mk_cpu_ops {W} _ _ _ _ _ _ _ _.
Arguments interrupt_up {W} _.
Arguments interrupt_down {W} _.
Arguments insert_breakpoint {W} _.
Arguments remove_breakpoint {W} _.
Arguments convert_addr {W} _.
Arguments reg_dump {W} _.
Arguments set_pc {W} _.
Arguments sc_access {W} _.

Section Table.
Context {F : Type}.

(** [type] is the address of a method table. *)
Record general_cpu := mk_gcpu {
  cpuno : Z;
  type : F;
  data : Z
}.

(** ** The list *)
Fixpoint get_cpu (no : Z) (cpu_list : list general_cpu) : option general_cpu :=
  match cpu_list with
  | [] => None
  | cpu :: rest => if cpuno cpu =? no then Some cpu else get_cpu no rest
  end.

(** [1 << cpuno] is computed at type [int]; the shift into the sign bit gives bit
    31 of the mask with the supported compilers. *)
Fixpoint id_mask (mask : Z) (cpu_list : list general_cpu) : outcome Z :=
  match cpu_list with
  | [] => Done mask
  | cpu :: rest =>
      if (0 <=? cpuno cpu) && (cpuno cpu <? 32)
      then id_mask (Z.lor mask (Z.shiftl 1 (cpuno cpu))) rest
      else Stop UndefinedBehaviour
  end.

Fixpoint first_free (n : nat) (c mask : Z) : Z :=
  match n with
  | O => MAX_CPUS
  | S n' => if Z.land mask 1 =? 0 then c else first_free n' (c + 1) (Z.shiftr mask 1)
  end.

Definition get_free_cpuno : st (list general_cpu) Z := λ cpu_list,
  match id_mask 0 cpu_list with
  | Done mask => Done (first_free (Z.to_nat MAX_CPUS) 0 mask, cpu_list)
  | Stop e => Stop e
  end.

Definition add_cpu (cpu : general_cpu) : st (list general_cpu) unit :=
  modify (λ cpu_list, cpu_list ++ [cpu]).

Fixpoint remove_data (d : Z) (cpu_list : list general_cpu) : list general_cpu :=
  match cpu_list with
  | [] => []
  | cpu :: rest => if data cpu =? d then rest else cpu :: remove_data d rest
  end.

(** The item is removed by identity (here the data pointer, which every registered
    processor has to itself); [list_remove] asserts that it is on the list. *)
Definition remove_cpu (cpu : general_cpu) : st (list general_cpu) unit :=
  l ← gets id;
  c_assert (existsb (λ c, data c =? data cpu) l);;
  modify (remove_data (data cpu)).

(** The registration of a new processor, as the [init] command of a processor
    device does it (drvcpu.c, drv64cpu.c, dr4kcpu.c, dsh2ecpu.c). *)
Definition register_cpu (family : F) (ptr : Z) : st (list general_cpu) bool :=
  id ← get_free_cpuno;
  if id =? MAX_CPUS then mret false
  else add_cpu (mk_gcpu id family ptr);; mret true.
End Table.
Arguments general_cpu F : clear implicits.

(** ** Dispatch *)
Class CpuHost (W F : Type) := {
  ch_cpus : W → list (general_cpu F);
  ch_ops : F → cpu_ops W
}.

Section Dispatch.
Context {W F : Type} `{CpuHost W F}.

(** [(general_cpu_t * ) cpu_list.head] is the first processor. *)
Definition get_fallback_cpu : st W (general_cpu F) := λ w,
  match get_cpu 0 (ch_cpus w) with
  | Some cpu => Done (cpu, w)
  | None => match ch_cpus w with
            | cpu :: _ => Done (cpu, w)
            | [] => Stop AssertFailed
            end
  end.

Definition cpu_or_fallback (cpu : option (general_cpu F)) : st W (general_cpu F) :=
  match cpu with Some c => mret c | None => get_fallback_cpu end.

(** [get_cpu(no)] in the current state. *)
Definition find_cpu (no : Z) : st W (option (general_cpu F)) := gets (λ w, get_cpu no (ch_cpus w)).

(** A call through a method pointer; a null one is undefined. *)
Definition call {A B} (f : option A) (k : A → st W B) : st W B :=
  match f with Some f => k f | None => stop UndefinedBehaviour end.

Definition cpu_interrupt_up (cpu : option (general_cpu F)) (no : Z) : st W unit :=
  c ← cpu_or_fallback cpu;
  call (interrupt_up (ch_ops (type c))) (λ f, f (data c) no).

Definition cpu_interrupt_down (cpu : option (general_cpu F)) (no : Z) : st W unit :=
  c ← cpu_or_fallback cpu;
  call (interrupt_down (ch_ops (type c))) (λ f, f (data c) no).

Definition cpu_insert_breakpoint (cpu : option (general_cpu F)) (addr : Z)
    (kind : PhysMem.breakpoint_kind) : st W unit :=
  c ← cpu_or_fallback cpu;
  call (insert_breakpoint (ch_ops (type c))) (λ f, f (data c) addr kind).

Definition cpu_remove_breakpoint (cpu : option (general_cpu F)) (addr : Z) : st W unit :=
  c ← cpu_or_fallback cpu;
  call (remove_breakpoint (ch_ops (type c))) (λ f, f (data c) addr).

Definition cpu_convert_addr (cpu : option (general_cpu F)) (virt : Z) (write : bool)
    : st W (option Z) :=
  c ← cpu_or_fallback cpu;
  call (convert_addr (ch_ops (type c))) (λ f, f (data c) virt write).

Definition cpu_reg_dump (cpu : option (general_cpu F)) : st W unit :=
  c ← cpu_or_fallback cpu;
  call (reg_dump (ch_ops (type c))) (λ f, f (data c)).

Definition cpu_set_pc (cpu : option (general_cpu F)) (pc : Z) : st W unit :=
  c ← cpu_or_fallback cpu;
  call (set_pc (ch_ops (type c))) (λ f, f (data c) pc).

Definition cpu_sc_access (cpu : option (general_cpu F)) (addr size : Z) : st W bool :=
  c ← cpu_or_fallback cpu;
  call (sc_access (ch_ops (type c))) (λ f, f (data c) addr size).
End Dispatch.

(** ** What devices rely on

    [ch_same]: the two worlds differ in the processors only.  [ch_pending w d no]:
    interrupt [no] of the processor at [d] is raised.  [ch_accepts f no]: processors of
    the family [f] have an interrupt numbered [no]; the functions of a family assert it
    (RISC-V maps unknown numbers to the external interrupt and accepts all). *)
Class CpuHostLaws (W F : Type) `{CpuHost W F} := {
  ch_same : relation W;
  ch_same_equiv :: Equivalence ch_same;
  ch_pending : W → Z → Z → bool;
  ch_accepts : F → Z → bool;
  ch_some_cpu w : ch_cpus w ≠ [];
  ch_data_inj w c c' : c ∈ ch_cpus w → c' ∈ ch_cpus w → data c = data c' → c = c';
  ch_up_law w c no : c ∈ ch_cpus w → ch_accepts (type c) no = true →
    ∃ f w', interrupt_up (ch_ops (type c)) = Some f ∧ f (data c) no w = Done (tt, w') ∧
      ch_same w w' ∧ ch_cpus w' = ch_cpus w ∧ ch_pending w' (data c) no = true ∧
      ∀ d no', d ≠ data c → ch_pending w' d no' = ch_pending w d no';
  ch_down_law w c no : c ∈ ch_cpus w → ch_accepts (type c) no = true →
    ∃ f w', interrupt_down (ch_ops (type c)) = Some f ∧ f (data c) no w = Done (tt, w') ∧
      ch_same w w' ∧ ch_cpus w' = ch_cpus w ∧ ch_pending w' (data c) no = false ∧
      ∀ d no', d ≠ data c → ch_pending w' d no' = ch_pending w d no';
  ch_up_refused w c no : c ∈ ch_cpus w → 0 ≤ no → ch_accepts (type c) no = false →
    ∃ f, interrupt_up (ch_ops (type c)) = Some f ∧ f (data c) no w = Stop AssertFailed
}.

(** Every processor of the machine has an interrupt numbered [no]. *)
Definition irq_ok (W : Type) {F} `{CpuHostLaws W F} (no : Z) : Prop := ∀ f, ch_accepts f no = true.

(** ** Processor numbers *)
Section Numbers.
Context {F : Type}.
Implicit Types (l : list (general_cpu F)).

Lemma id_mask_run l mask :
  (∀ c, c ∈ l → 0 ≤ cpuno c < 32) →
  ∃ m, id_mask mask l = Done m ∧
    ∀ i, 0 ≤ i → Z.testbit m i = Z.testbit mask i || bool_decide (i ∈ (cpuno <$> l)).
Proof.
  revert mask. induction l as [|c l IH]; intros mask Hl; cbn [id_mask fmap list_fmap].
  - exists mask. split; [done|]. intros i Hi. rewrite bool_decide_eq_false_2 by apply not_elem_of_nil.
    by rewrite orb_false_r.
  - assert (0 ≤ cpuno c < 32) as Hc by (apply Hl; left).
    replace ((0 <=? cpuno c) && (cpuno c <? 32)) with true by lia.
    destruct (IH (Z.lor mask (Z.shiftl 1 (cpuno c)))) as (m & Em & Hm); [intros; apply Hl; by right|].
    exists m. split; [done|]. intros i Hi. rewrite Hm, Z.lor_spec, testbit_bit, <- orb_assoc by lia.
    f_equal. destruct (Z.eqb_spec i (cpuno c)) as [->|Hne]; cbn [orb]; symmetry.
    + apply bool_decide_eq_true_2. left.
    + apply bool_decide_ext. rewrite elem_of_cons. naive_solver.
Qed.

Lemma first_free_run n c mask :
  c + Z.of_nat n = MAX_CPUS →
  ∃ k, 0 ≤ k ≤ Z.of_nat n ∧ first_free n c mask = c + k ∧ (k < Z.of_nat n → Z.testbit mask k = false) ∧
    ∀ j, 0 ≤ j < k → Z.testbit mask j = true.
Proof.
  revert c mask. induction n as [|n IH]; intros c mask Hc; cbn [first_free].
  { exists 0. split_and!; lia. }
  assert ((Z.land mask 1 =? 0) = negb (Z.testbit mask 0)) as ->.
  { change 1 with (Z.ones 1). rewrite Z.land_ones by lia. change (2 ^ 1) with 2.
    rewrite <- Z.bit0_mod. by destruct (Z.testbit mask 0). }
  destruct (Z.testbit mask 0) eqn:E0; cbn [negb].
  - destruct (IH (c + 1) (Z.shiftr mask 1)) as (k & Hk & -> & Hb & Hlow); [lia|].
    exists (k + 1). split_and!; [lia..| |].
    + intros Hlt. specialize (Hb ltac:(lia)). by rewrite Z.shiftr_spec in Hb by lia.
    + intros j Hj. destruct (Z.eq_dec j 0) as [-> | Hj0]; [done|].
      specialize (Hlow (j - 1) ltac:(lia)). rewrite Z.shiftr_spec in Hlow by lia.
      by rewrite Z.sub_add in Hlow.
  - exists 0. split_and!; [lia..|done|lia].
Qed.

(** Numbers given out so far fit the [int] shift. *)
Definition numbers_ok l : Prop := ∀ c, c ∈ l → 0 ≤ cpuno c < 32.

Lemma free_cpuno_run l :
  numbers_ok l →
  ∃ n, get_free_cpuno l = Done (n, l) ∧ 0 ≤ n ≤ MAX_CPUS ∧ (n ∉ (cpuno <$> l)) ∧
    ∀ m, 0 ≤ m < n → m ∈ (cpuno <$> l).
Proof.
  intros Hl. destruct (id_mask_run l 0 Hl) as (m & Em & Hm).
  destruct (first_free_run (Z.to_nat MAX_CPUS) 0 m) as (k & Hk & Ek & Hb & Hlow); [done|].
  exists k. unfold get_free_cpuno. rewrite Em, Ek. unfold MAX_CPUS in *. split_and!; [done|lia|lia|..].
  - destruct (Z.eq_dec k 32) as [->|Hne].
    + intros (c & Ec & Hc)%list_elem_of_fmap. specialize (Hl c Hc). lia.
    + specialize (Hb ltac:(lia)). rewrite Hm, Z.testbit_0_l in Hb by lia.
      by apply bool_decide_eq_false_1 in Hb.
  - intros j Hj. specialize (Hlow j Hj). rewrite Hm, Z.testbit_0_l in Hlow by lia.
    by apply bool_decide_eq_true_1 in Hlow.
Qed.

(** Registrations and removals, in any order. *)
Inductive table_op := Register (family : F) (ptr : Z) | Remove (cpu : general_cpu F).

Definition table_step (op : table_op) : st (list (general_cpu F)) unit :=
  match op with
  | Register family ptr => register_cpu family ptr;; mret tt
  | Remove cpu => remove_cpu cpu
  end.

Fixpoint table_run (ops : list table_op) : st (list (general_cpu F)) unit :=
  match ops with [] => mret tt | op :: ops' => table_step op;; table_run ops' end.

Definition table_wf l : Prop := NoDup (cpuno <$> l) ∧ ∀ c, c ∈ l → 0 ≤ cpuno c < MAX_CPUS.

Lemma remove_data_sublist d l : remove_data d l `sublist_of` l.
Proof. induction l as [|c l IH]; cbn; [done|]. destruct (_ =? _); by constructor. Qed.

(** Removing a processor that is not registered. *)
Definition unregistered (op : table_op) l : Prop :=
  match op with Register _ _ => False | Remove cpu => data cpu ∉ (data <$> l) end.

Lemma registered_spec (cpu : general_cpu F) l :
  existsb (λ c, data c =? data cpu) l = true ↔ data cpu ∈ (data <$> l).
Proof.
  rewrite existsb_exists, list_elem_of_fmap. setoid_rewrite Z.eqb_eq. setoid_rewrite <- list_elem_of_In. naive_solver.
Qed.

Lemma table_step_wf op l : table_wf l →
  (∃ l', table_step op l = Done (tt, l') ∧ table_wf l') ∨
  (unregistered op l ∧ table_step op l = Stop AssertFailed).
Proof.
  intros [Hnd Hr]. destruct op as [family ptr | cpu]; cbn [table_step unregistered].
  - left. destruct (free_cpuno_run l Hr) as (n & En & Hn & Hnew & _).
    unfold register_cpu. msimpl. rewrite En. destruct (Z.eqb_spec n MAX_CPUS); [by exists l|].
    eexists. split; [reflexivity|]. split.
    + rewrite fmap_app. apply NoDup_app. split_and!; [done| |apply NoDup_singleton].
      cbn. intros x Hx Hx'%list_elem_of_singleton. congruence.
    + intros c [Hc | ->%list_elem_of_singleton]%elem_of_app; [by apply Hr|]. cbn. unfold MAX_CPUS in *. lia.
  - unfold remove_cpu. rewrite (bind_Done _ _ l l l eq_refl). unfold c_assert.
    destruct (existsb _ l) eqn:E; [left|right].
    + eexists. split; [reflexivity|]. pose proof (remove_data_sublist (data cpu) l) as Hs. split.
      * eapply sublist_NoDup; [done|]. by apply fmap_sublist.
      * intros c Hc. apply Hr. by eapply elem_of_sublist.
    + split; [|done]. rewrite <- registered_spec. by rewrite E.
Qed.

(** A run ends in a well-formed table, or at the first removal of a processor that
    is not registered. *)
Lemma table_run_wf ops l : table_wf l →
  (∃ l', table_run ops l = Done (tt, l') ∧ table_wf l') ∨
  (∃ ops1 op ops2 l1, ops = ops1 ++ op :: ops2 ∧ table_run ops1 l = Done (tt, l1) ∧ table_wf l1 ∧
     unregistered op l1 ∧ table_run ops l = Stop AssertFailed).
Proof.
  revert l. induction ops as [|op ops IH]; intros l Hl; cbn [table_run]; [left; by exists l|].
  destruct (table_step_wf op l Hl) as [(l1 & E1 & H1)|[Hu E1]].
  - rewrite (bind_Done _ _ _ _ _ E1). destruct (IH l1 H1) as [?|(o1 & o & o2 & l2 & -> & E2 & H2 & Hu & E3)]; [by left|].
    right. exists (op :: o1), o, o2, l2. cbn [table_run]. rewrite (bind_Done _ _ _ _ _ E1). by split_and!.
  - right. exists [], op, ops, l. split_and!; [done|done|done|done|]. by apply bind_Stop.
Qed.

(** Registering fails exactly when all numbers are in use. *)
Lemma register_run family ptr l : table_wf l →
  ∃ b l', register_cpu family ptr l = Done (b, l') ∧
    (b = false ↔ ∀ m, 0 ≤ m < MAX_CPUS → m ∈ (cpuno <$> l)) ∧ (b = false → l' = l).
Proof.
  intros [Hnd Hr]. destruct (free_cpuno_run l Hr) as (n & En & Hn & Hnew & Hlow).
  unfold register_cpu. msimpl. rewrite En. destruct (Z.eqb_spec n MAX_CPUS) as [->|Hne].
  - exists false, l. split_and!; [done| |done]. by split.
  - eexists true, _. split_and!; [reflexivity| |done]. split; [done|]. intros Hall.
    destruct Hnew. apply Hall. lia.
Qed.
End Numbers.

(** ** Which processor an interrupt reaches *)
Section Irq.
Context {W F : Type} `{CpuHostLaws W F}.

(** The processor numbered [no], or else processor 0, or else the head. *)
Definition irq_target (no : Z) (l : list (general_cpu F)) : option (general_cpu F) :=
  match get_cpu no l with
  | Some c => Some c
  | None => match get_cpu 0 l with Some c => Some c | None => head l end
  end.

Lemma get_cpu_elem no l (c : general_cpu F) : get_cpu no l = Some c → c ∈ l ∧ cpuno c = no.
Proof.
  induction l as [|x l IH]; cbn; [done|]. destruct (Z.eqb_spec (cpuno x) no).
  - intros [= <-]. split; [left|done].
  - intros [? ?]%IH. split; [by right|done].
Qed.

Lemma get_cpu_Some no l (c : general_cpu F) :
  NoDup (cpuno <$> l) → c ∈ l → cpuno c = no → get_cpu no l = Some c.
Proof.
  induction l as [|x l IH]; intros Hnd Hc E; [by apply not_elem_of_nil in Hc|].
  cbn. apply NoDup_cons in Hnd as [Hx Hnd]. apply elem_of_cons in Hc as [-> | Hc].
  - by rewrite E, Z.eqb_refl.
  - destruct (Z.eqb_spec (cpuno x) no) as [E'|]; [|by apply IH].
    destruct Hx. apply list_elem_of_fmap. exists c. split; [congruence|done].
Qed.

Lemma irq_target_elem no l (c : general_cpu F) : irq_target no l = Some c → c ∈ l.
Proof.
  unfold irq_target. destruct (get_cpu no l) eqn:E; [intros [= <-]; by apply get_cpu_elem in E as [? _]|].
  destruct (get_cpu 0 l) eqn:E0; [intros [= <-]; by apply get_cpu_elem in E0 as [? _]|].
  destruct l; [done|]. intros [= <-]. left.
Qed.

Lemma irq_target_total no w : ∃ c, irq_target no (ch_cpus w) = Some c.
Proof.
  unfold irq_target. destruct (get_cpu no _); [by eexists|]. destruct (get_cpu 0 _); [by eexists|].
  destruct (ch_cpus w) eqn:E; [by apply ch_some_cpu in E|by eexists].
Qed.

Lemma find_or_fallback no w :
  ∃ c, irq_target no (ch_cpus w) = Some c ∧ (find_cpu no ≫= cpu_or_fallback) w = Done (c, w).
Proof.
  destruct (irq_target_total no w) as [c Hc]. exists c. split; [done|]. revert Hc.
  unfold irq_target, find_cpu. msimpl. unfold cpu_or_fallback, get_fallback_cpu. msimpl.
  destruct (get_cpu no _); [by intros [= <-]|]. destruct (get_cpu 0 _); [by intros [= <-]|].
  destruct (ch_cpus w); [done|by intros [= <-]].
Qed.

Lemma fallback_run w :
  ∃ c, irq_target 0 (ch_cpus w) = Some c ∧ cpu_or_fallback None w = Done (c, w).
Proof.
  destruct (irq_target_total 0 w) as [c Hc]. exists c. split; [done|]. revert Hc.
  unfold irq_target, cpu_or_fallback, get_fallback_cpu.
  destruct (get_cpu 0 _); [by intros [= <-]|]. destruct (ch_cpus w); [done|by intros [= <-]].
Qed.

(** The state after an interrupt line of one processor was set to [v]. *)
Definition irq_moved (v : bool) (c : general_cpu F) (no : Z) (w w' : W) : Prop :=
  ch_same w w' ∧ ch_cpus w' = ch_cpus w ∧ ch_pending w' (data c) no = v ∧
  ∀ d no', d ≠ data c → ch_pending w' d no' = ch_pending w d no'.

Lemma interrupt_up_run cpu no c w :
  cpu_or_fallback cpu w = Done (c, w) → c ∈ ch_cpus w → ch_accepts (type c) no = true →
  ∃ w', cpu_interrupt_up cpu no w = Done (tt, w') ∧ irq_moved true c no w w'.
Proof.
  intros Ec Hc Ha. destruct (ch_up_law w c no Hc Ha) as (f & w' & Ef & Er & Hm). exists w'.
  unfold cpu_interrupt_up. rewrite (bind_Done _ _ _ _ _ Ec). by rewrite Ef.
Qed.

Lemma interrupt_down_run cpu no c w :
  cpu_or_fallback cpu w = Done (c, w) → c ∈ ch_cpus w → ch_accepts (type c) no = true →
  ∃ w', cpu_interrupt_down cpu no w = Done (tt, w') ∧ irq_moved false c no w w'.
Proof.
  intros Ec Hc Ha. destruct (ch_down_law w c no Hc Ha) as (f & w' & Ef & Er & Hm). exists w'.
  unfold cpu_interrupt_down. rewrite (bind_Done _ _ _ _ _ Ec). by rewrite Ef.
Qed.

(** [cpu_interrupt_up(get_cpu(id), no)], as the devices write it. *)
Definition raise_on (id no : Z) : st W unit := cpu ← find_cpu id; cpu_interrupt_up cpu no.
Definition lower_on (id no : Z) : st W unit := cpu ← find_cpu id; cpu_interrupt_down cpu no.

Lemma raise_on_run id no w : irq_ok W no →
  ∃ c w', irq_target id (ch_cpus w) = Some c ∧ raise_on id no w = Done (tt, w') ∧
          irq_moved true c no w w'.
Proof.
  intros Hok. destruct (find_or_fallback id w) as (c & Hc & Er). unfold find_cpu in Er. msimpl in Er.
  destruct (interrupt_up_run _ no c w Er) as (w' & Eu & Hm); [by eapply irq_target_elem|apply Hok|].
  exists c, w'. unfold raise_on, find_cpu. msimpl. by rewrite Eu.
Qed.

Lemma lower_on_run id no w : irq_ok W no →
  ∃ c w', irq_target id (ch_cpus w) = Some c ∧ lower_on id no w = Done (tt, w') ∧
          irq_moved false c no w w'.
Proof.
  intros Hok. destruct (find_or_fallback id w) as (c & Hc & Er). unfold find_cpu in Er. msimpl in Er.
  destruct (interrupt_down_run _ no c w Er) as (w' & Eu & Hm); [by eapply irq_target_elem|apply Hok|].
  exists c, w'. unfold lower_on, find_cpu. msimpl. by rewrite Eu.
Qed.

(** An interrupt that the processor does not have fails its assertion. *)
Lemma raise_on_refused id no w c : irq_target id (ch_cpus w) = Some c → 0 ≤ no → ch_accepts (type c) no = false →
  raise_on id no w = Stop AssertFailed.
Proof.
  intros Ht Hn Hr. destruct (find_or_fallback id w) as (c' & Hc & Er). rewrite Ht in Hc. injection Hc as <-.
  unfold find_cpu in Er. msimpl in Er. destruct (ch_up_refused w c no) as (f & Ef & Es); [by eapply irq_target_elem|done|done|].
  unfold raise_on, find_cpu. rewrite (bind_Done _ _ w _ w eq_refl). unfold cpu_interrupt_up.
  rewrite (bind_Done _ _ _ _ _ Er), Ef. exact Es.
Qed.
End Irq.

(** ** Properties *)

Definition two_cpus : list (general_cpu unit) := [mk_gcpu 1 tt 10; mk_gcpu 0 tt 11].

(** [get_free_cpuno] returns the least number that no registered processor has,
    and [MAX_CPUS] when there is none. *)
Theorem free_cpuno_least {F} (l : list (general_cpu F)) :
  numbers_ok l →
  ∃ n, get_free_cpuno l = Done (n, l) ∧ 0 ≤ n ≤ MAX_CPUS ∧ (n ∉ (cpuno <$> l)) ∧
    ∀ m, 0 ≤ m < n → m ∈ (cpuno <$> l).
Proof. apply free_cpuno_run. Qed.

Lemma free_cpuno_least_witness : ∃ n, get_free_cpuno two_cpus = Done (n, two_cpus) ∧ 0 ≤ n ≤ 32.
Proof.
  destruct (free_cpuno_least two_cpus) as (n & En & Hn & _); [|by exists n].
  intros c Hc. repeat (apply elem_of_cons in Hc as [-> | Hc]; [cbn; lia|]). by apply not_elem_of_nil in Hc.
Defined.

(** C39: however processors are added and removed, the numbers in the table stay
    distinct and below [MAX_CPUS].  The run completes, or it fails the assertion of
    the list at the first removal of a processor that is not registered; up to there
    every operation returns.  A new processor is refused exactly when all numbers are
    in use, and then the table is unchanged. *)
Theorem cpu_numbers_unique {F} (ops : list (@table_op F)) l :
  table_wf l →
  (∃ ops1 op ops2 l1, ops = ops1 ++ op :: ops2 ∧ table_run ops1 l = Done (tt, l1) ∧ table_wf l1 ∧
     unregistered op l1 ∧ table_run ops l = Stop AssertFailed) ∨
  ∃ l', table_run ops l = Done (tt, l') ∧ table_wf l' ∧
    ∀ family ptr, ∃ b l'', register_cpu family ptr l' = Done (b, l'') ∧
      (b = false ↔ ∀ m, 0 ≤ m < MAX_CPUS → m ∈ (cpuno <$> l')) ∧ (b = false → l'' = l').
Proof.
  intros Hl. destruct (table_run_wf ops l Hl) as [(l' & Hrun & Hl')|?]; [right|by left].
  exists l'. split_and!; [done|done|]. intros family ptr. by apply register_run.
Qed.

Lemma cpu_numbers_unique_witness :
  ∃ l', table_run [Register tt 1; Register tt 2; Remove (mk_gcpu 0 tt 1); Register tt 3] [] = Done (tt, l') ∧
    table_wf l' ∧ cpuno <$> l' = [1; 0].
Proof.
  destruct (cpu_numbers_unique [Register tt 1; Register tt 2; Remove (mk_gcpu 0 tt 1); Register tt 3] [])
    as [(o1 & o & o2 & l1 & _ & _ & _ & _ & E)|(l' & Hrun & Hwf & _)].
  - split; [constructor|]. by intros c Hc%not_elem_of_nil.
  - discriminate E.
  - exists l'. split; [exact Hrun|]. split; [exact Hwf|]. cbn in Hrun. by injection Hrun as <-.
Defined.

(** Removing a processor that is not in the table stops the simulator. *)
Lemma remove_unregistered : table_run [Register tt 1; Remove (mk_gcpu 0 tt 2)] [] = Stop AssertFailed.
Proof. reflexivity. Qed.
End GenCpu.
