(* ===== verification/Device.v ===== *)
(** * Devices and the machine cycle (src/src/device/device.c, src/src/parser.c, src/src/main.c)

    A device is an instance of a device type: a table of methods, null when not
    implemented, with the commands of the type.  This file models the parameter
    tokens of a command and the search of a command table (parser.c), the list
    of devices with its filtered iterator [dev_next] (device.c) and the machine
    cycle [machine_step] (main.c), which gives every device with a [step] method
    one step and, every 4096th cycle, every device with [step4k] one call. *)

From stdpp Require Import strings.
From S2P Require Import Prelude PhysMem.

Module Device.

(** ** Parameter tokens (parser.c) *)
Inductive token :=
  | tt_end
  | tt_uint (i : Z)
  | tt_str (str : string)
  | tt_err.

(** A [token_t *] points into a list; the cursor is the rest of the list. *)
Abbreviation parms := (list token).

Definition parm_next : st parms unit := λ p,
  match p with
  | _ :: (next :: rest) => Done (tt, next :: rest)
  | _ => Stop AssertFailed
  end.

Definition parm_type : st parms token := λ p,
  match p with t :: _ => Done (t, p) | [] => Stop AssertFailed end.

Definition parm_uint : st parms Z := λ p,
  match p with tt_uint i :: _ => Done (i, p) | _ => Stop AssertFailed end.

Definition parm_str : st parms string := λ p,
  match p with tt_str s :: _ => Done (s, p) | _ => Stop AssertFailed end.

Definition parm_uint_next : st parms Z := i ← parm_uint; parm_next;; mret i.
Definition parm_str_next : st parms string := s ← parm_str; parm_next;; mret s.

Definition parm_last : st parms bool := λ p,
  match p with
  | [] => Stop AssertFailed
  | _ :: tt_end :: _ => Done (true, p)
  | _ => Done (false, p)
  end.

(** ** Command tables (parser.c) *)
Inductive cmd_find_res := CMP_NO_HIT | CMP_HIT | CMP_PARTIAL_HIT | CMP_MULTIPLE_HIT.

#[export] Instance cmd_find_res_eq_dec : EqDecision cmd_find_res.
Proof. solve_decision. Defined.

Fixpoint cmd_compare (str cmd : string) : cmd_find_res :=
  match cmd, str with
  | EmptyString, EmptyString => CMP_HIT
  | EmptyString, String _ _ => CMP_NO_HIT
  | String _ _, EmptyString => CMP_PARTIAL_HIT
  | String c cmd', String t str' =>
      if bool_decide (t = c) then cmd_compare str' cmd' else CMP_NO_HIT
  end.

(** A table is an array whose entry without a name ends it.  The loop reads
    entry after entry; reading past the array is undefined.  The result carries
    the index stored through [cmd]. *)
Fixpoint cmd_find_loop (cmd_name : string) (i : nat) (cmds : list (option string))
    (res : cmd_find_res) (cmd : option nat) : outcome (cmd_find_res * option nat) :=
  if bool_decide (res = CMP_HIT) then Done (res, cmd)
  else
    match cmds with
    | [] => Stop UndefinedBehaviour
    | None :: _ => Done (res, cmd)
    | Some name :: cmds' =>
        match cmd_compare cmd_name name with
        | CMP_NO_HIT => cmd_find_loop cmd_name (S i) cmds' res cmd
        | CMP_PARTIAL_HIT =>
            if bool_decide (res = CMP_NO_HIT)
            then cmd_find_loop cmd_name (S i) cmds' CMP_PARTIAL_HIT (Some i)
            else cmd_find_loop cmd_name (S i) cmds' CMP_MULTIPLE_HIT cmd
        | CMP_HIT => cmd_find_loop cmd_name (S i) cmds' CMP_HIT (Some i)
        | CMP_MULTIPLE_HIT => Stop AssertFailed
        end
    end.

Definition cmd_find (cmd_name : string) (cmds : list (option string))
    : outcome (cmd_find_res * option nat) :=
  cmd_find_loop cmd_name 0 cmds CMP_NO_HIT None.

(** ** Device types and devices (device.h) *)
Record device_type (W : Type) := mk_device_type {
  dt_nondet : bool;
  dt_name : string;
  dt_done : option (Z → st W unit);
  dt_step : option (Z → st W unit);
  dt_step4k : option (Z → st W unit);
  dt_mem : Z → PhysMem.device_ops W;
  dt_cmds : list (option string)
}.
Arguments mk_device_type {W} _ _ _ _ _ _ _.
Arguments dt_nondet {W} _.
Arguments dt_name {W} _.
Arguments dt_done {W} _.
Arguments dt_step {W} _.
Arguments dt_step4k {W} _.
Arguments dt_mem {W} _ _.
Arguments dt_cmds {W} _.

(** [dev_data] is the pointer to the data of the instance, 0 for [NULL]. *)
Record device (W : Type) := mk_dev {
  dev_type : device_type W;
  dev_name : string;
  dev_data : Z
}.
Arguments mk_dev {W} _ _ _.
Arguments dev_type {W} _.
Arguments dev_name {W} _.
Arguments dev_data {W} _.

Inductive device_filter :=
  | DEVICE_FILTER_ALL
  | DEVICE_FILTER_STEP
  | DEVICE_FILTER_STEP4K
  | DEVICE_FILTER_MEMORY
  | DEVICE_FILTER_R4K_PROCESSOR
  | DEVICE_FILTER_RV_PROCESSOR.

Section Devices.
Context {W : Type}.
Implicit Types (l : list (device W)) (d : device W).

Fixpoint dev_type_by_name (type_name : string) (device_types : list (device_type W))
    : option (device_type W) :=
  match device_types with
  | [] => None
  | t :: rest => if bool_decide (type_name = dt_name t) then Some t
                 else dev_type_by_name type_name rest
  end.

Definition alloc_device (device_types : list (device_type W)) (machine_nondet : bool)
    (type_string device_name : string) : option (device W) :=
  match dev_type_by_name type_string device_types with
  | None => None
  | Some t => if negb machine_nondet && dt_nondet t then None else Some (mk_dev t device_name 0)
  end.

Definition add_device d l : list (device W) := l ++ [d].

Definition dev_match_to_filter d (filter : device_filter) : bool :=
  match filter with
  | DEVICE_FILTER_ALL => true
  | DEVICE_FILTER_STEP => bool_decide (is_Some (dt_step (dev_type d)))
  | DEVICE_FILTER_STEP4K => bool_decide (is_Some (dt_step4k (dev_type d)))
  | DEVICE_FILTER_MEMORY =>
      bool_decide (dt_name (dev_type d) = "rom") || bool_decide (dt_name (dev_type d) = "rwm")
  | DEVICE_FILTER_R4K_PROCESSOR => bool_decide (dt_name (dev_type d) = "dr4kcpu")
  | DEVICE_FILTER_RV_PROCESSOR => bool_decide (dt_name (dev_type d) = "drvcpu")
  end.

(** A device is addressed by its position in [device_list]; [None] is [NULL].
    The search runs over the rest of the list, which starts at position [i]. *)
Fixpoint dev_search (i : nat) l (filter : device_filter) : option nat :=
  match l with
  | [] => None
  | d :: l' => if dev_match_to_filter d filter then Some i else dev_search (S i) l' filter
  end.

Definition dev_next l (device : option nat) (filter : device_filter) : option nat :=
  let i := match device with None => O | Some i => S i end in
  dev_search i (drop i l) filter.

(** [while (dev_next(&device, DEVICE_FILTER_ALL)) if (p(device)) break;] *)
Fixpoint dev_find (p : device W → bool) (n : nat) l (device : option nat) : option nat :=
  match n with
  | O => None
  | S n' =>
      match dev_next l device DEVICE_FILTER_ALL with
      | None => None
      | Some i =>
          match l !! i with
          | Some d => if p d then Some i else dev_find p n' l (Some i)
          | None => None
          end
      end
  end.

Definition dev_by_name (searched_name : string) l : option nat :=
  dev_find (λ d, bool_decide (searched_name = dev_name d)) (S (length l)) l None.
End Devices.

(** ** The machine cycle (main.c) *)
Class MachineHost (W : Type) := {
  device_list : W → list (device W);
  steps : W → Z;
  set_steps : Z → W → W
}.

Section Machine.
Context {W : Type} `{MachineHost W}.

(** [dev->type->step(dev)] for the device at position [i]. *)
Definition call_method (method : device_type W → option (Z → st W unit)) (i : nat) : st W unit :=
  l ← gets device_list;
  match l !! i with
  | Some d => match method (dev_type d) with
              | Some f => f (dev_data d)
              | None => stop UndefinedBehaviour
              end
  | None => stop UndefinedBehaviour
  end.

(** [while (dev_next(&dev, filter)) dev->type->method(dev);] with the number of
    iterations bounded by [n]; the bound is never reached ([device_loop_run]). *)
Fixpoint device_loop (n : nat) (filter : device_filter)
    (method : device_type W → option (Z → st W unit)) (dev : option nat) : st W unit :=
  match n with
  | O => stop UndefinedBehaviour
  | S n' =>
      l ← gets device_list;
      match dev_next l dev filter with
      | None => mret tt
      | Some i => call_method method i;; device_loop n' filter method (Some i)
      end
  end.

Definition machine_step : st W unit :=
  l ← gets device_list;
  device_loop (S (length l)) DEVICE_FILTER_STEP dt_step None;;
  modify (λ w, set_steps (wrap 64 (steps w + 1)) w);;
  w ← get_st;
  if steps w mod 4096 =? 0
  then device_loop (S (length (device_list w))) DEVICE_FILTER_STEP4K dt_step4k None
  else mret tt.
End Machine.

(** ** The command found by name *)
Fixpoint extensions (cmd_name : string) (i : nat) (names : list string) : list nat :=
  match names with
  | [] => []
  | n :: names' => if bool_decide (cmd_compare cmd_name n = CMP_PARTIAL_HIT)
                   then i :: extensions cmd_name (S i) names'
                   else extensions cmd_name (S i) names'
  end.

Fixpoint first_index (cmd_name : string) (i : nat) (names : list string) : option nat :=
  match names with
  | [] => None
  | n :: names' => if bool_decide (n = cmd_name) then Some i else first_index cmd_name (S i) names'
  end.

(** The reference: an exact name wins; otherwise the names that extend the
    input decide. *)
Definition resolve (cmd_name : string) (names : list string) : cmd_find_res * option nat :=
  match first_index cmd_name 0 names with
  | Some i => (CMP_HIT, Some i)
  | None => match extensions cmd_name 0 names with
            | [] => (CMP_NO_HIT, None)
            | [i] => (CMP_PARTIAL_HIT, Some i)
            | i :: _ => (CMP_MULTIPLE_HIT, Some i)
            end
  end.

Definition terminated (names : list string) : list (option string) := (Some <$> names) ++ [None].

Lemma cmd_compare_hit s c : cmd_compare s c = CMP_HIT ↔ c = s.
Proof.
  revert s. induction c as [|a c IH]; intros [|b s]; cbn; try done.
  destruct (bool_decide_reflect (b = a)) as [-> | Hne].
  - rewrite IH. split; [by intros ->|by intros [= ->]].
  - split; [done|]. by intros [= -> _].
Qed.

Lemma cmd_compare_not_multiple s c : cmd_compare s c ≠ CMP_MULTIPLE_HIT.
Proof.
  revert s. induction c as [|a c IH]; intros [|b s]; cbn; try done.
  destruct (bool_decide _); [apply IH|done].
Qed.

(** What the loop has seen: the extensions among the entries already read. *)
Definition summary (ms : list nat) : cmd_find_res * option nat :=
  match ms with
  | [] => (CMP_NO_HIT, None)
  | [i] => (CMP_PARTIAL_HIT, Some i)
  | i :: _ => (CMP_MULTIPLE_HIT, Some i)
  end.

Lemma summary_snoc ms i :
  summary (ms ++ [i]) =
    (if bool_decide ((summary ms).1 = CMP_NO_HIT) then (CMP_PARTIAL_HIT, Some i)
     else (CMP_MULTIPLE_HIT, (summary ms).2)).
Proof. destruct ms as [|a [|b ms]]; done. Qed.

Lemma cmd_find_loop_run cmd_name names tl ms i :
  cmd_find_loop cmd_name i ((Some <$> names) ++ tl) (summary ms).1 (summary ms).2 =
    match first_index cmd_name i names with
    | Some k => Done (CMP_HIT, Some k)
    | None => match tl with
              | [] => Stop UndefinedBehaviour
              | _ => let r := summary (ms ++ extensions cmd_name i names) in
                     cmd_find_loop cmd_name (i + length names) tl r.1 r.2
              end
    end.
Proof.
  assert (∀ ms, (summary ms).1 ≠ CMP_HIT) as Hnh by (intros [|? [|? ?]]; done).
  revert ms i. induction names as [|n names IH]; intros ms i.
  - cbn [fmap list_fmap app first_index extensions length]. rewrite app_nil_r, Nat.add_0_r. destruct tl as [|t tl].
    + cbn. by rewrite bool_decide_eq_false_2.
    + done.
  - cbn [fmap list_fmap app cmd_find_loop first_index extensions].
    rewrite bool_decide_eq_false_2 by apply Hnh.
    destruct (bool_decide_reflect (n = cmd_name)) as [E | Hne].
    + apply cmd_compare_hit in E. rewrite E. by destruct names, tl.
    + assert (cmd_compare cmd_name n ≠ CMP_HIT) as Hc by by rewrite cmd_compare_hit.
      pose proof (cmd_compare_not_multiple cmd_name n) as Hm.
      destruct (cmd_compare cmd_name n); [|done| |done]; cbn [bool_decide].
      * rewrite IH. cbn [length]. replace (S i + length names)%nat with (i + S (length names))%nat by lia.
        done.
      * pose proof (summary_snoc ms i) as Es. specialize (IH (ms ++ [i]) (S i)).
        rewrite Es, <- app_assoc in IH. cbn [length].
        replace (i + S (length names))%nat with (S i + length names)%nat by lia.
        destruct (bool_decide ((summary ms).1 = CMP_NO_HIT)); exact IH.
Qed.

(** ** The devices of a cycle *)
Class MachineHostLaws (W : Type) `{MachineHost W} := {
  device_list_steps n w : device_list (set_steps n w) = device_list w;
  steps_set_steps n w : steps (set_steps n w) = n;
  step_keeps_devices (method : device_type W → option (Z → st W unit)) d f w w' :
    (method = dt_step ∨ method = dt_step4k) → d ∈ device_list w → method (dev_type d) = Some f →
    f (dev_data d) w = Done (tt, w') → device_list w' = device_list w
}.

Section Cycle.
Context {W : Type} `{MachineHostLaws W}.

(** The reference: the method of every device that has one, in list order. *)
Fixpoint each_device (method : device_type W → option (Z → st W unit)) (l : list (device W))
    : st W unit :=
  match l with
  | [] => mret tt
  | d :: l' =>
      match method (dev_type d) with
      | Some f => f (dev_data d);; each_device method l'
      | None => each_device method l'
      end
  end.

Definition selects (filter : device_filter) (method : device_type W → option (Z → st W unit)) : Prop :=
  ∀ d, dev_match_to_filter d filter = bool_decide (is_Some (method (dev_type d))).

Definition cursor (i : nat) : option nat := match i with O => None | S j => Some j end.

Lemma dev_next_cursor (l : list (device W)) i filter :
  dev_next l (cursor i) filter = dev_search i (drop i l) filter.
Proof. by destruct i. Qed.

Lemma device_loop_next n filter method (l : list (device W)) i j w :
  device_list w = l → dev_next l (cursor i) filter = dev_next l (cursor j) filter →
  device_loop (S n) filter method (cursor i) w = device_loop (S n) filter method (cursor j) w.
Proof. intros Hl E. cbn [device_loop]. msimpl. by rewrite Hl, E. Qed.

Lemma device_loop_run filter method (suf : list (device W)) (l : list (device W)) i n w :
  selects filter method → (method = dt_step ∨ method = dt_step4k) →
  device_list w = l → drop i l = suf → (length suf ≤ n)%nat →
  device_loop (S n) filter method (cursor i) w = each_device method suf w.
Proof.
  intros Hsel Hmeth. revert i n w. induction suf as [|d suf IH]; intros i n w Hl Hd Hn.
  - cbn [device_loop each_device]. msimpl. by rewrite Hl, dev_next_cursor, Hd.
  - assert (l !! i = Some d) as Hi.
    { rewrite <- (Nat.add_0_r i), <- lookup_drop, Hd. done. }
    assert (drop (S i) l = suf) as Hd'.
    { replace (S i) with (i + 1)%nat by lia. rewrite <- drop_drop, Hd. done. }
    cbn [length] in Hn. destruct (method (dev_type d)) as [f|] eqn:Em.
    + cbn [device_loop each_device]. rewrite Em. msimpl. rewrite Hl, dev_next_cursor, Hd. cbn [dev_search].
      rewrite Hsel, Em, bool_decide_eq_true_2 by done. unfold call_method. msimpl. rewrite Hl, Hi, Em.
      destruct (f (dev_data d) w) as [[[] w1]|e] eqn:Ef; [|done].
      destruct n as [|n]; [lia|]. change (Some i) with (cursor (S i)).
      apply IH; [|done|lia]. rewrite <- Hl.
      eapply step_keeps_devices; [done| |done|done]. rewrite Hl. by eapply list_elem_of_lookup_2.
    + cbn [each_device]. rewrite Em, <- (IH (S i) n w Hl Hd' ltac:(lia)).
      apply (device_loop_next _ _ _ l); [done|]. rewrite !dev_next_cursor, Hd, Hd'. cbn [dev_search].
      rewrite Hsel, Em, bool_decide_eq_false_2 by (by intros [? ?]). done.
Qed.

Lemma each_device_keeps method (suf : list (device W)) w w' :
  (method = dt_step ∨ method = dt_step4k) → (∀ d, d ∈ suf → d ∈ device_list w) →
  each_device method suf w = Done (tt, w') → device_list w' = device_list w.
Proof.
  intros Hmeth. revert w. induction suf as [|d suf IH]; intros w Hin E; cbn [each_device] in E.
  - by injection E as <-.
  - destruct (method (dev_type d)) as [f|] eqn:Em.
    + apply bind_inv_Done in E as ([] & w1 & E1 & E).
      assert (device_list w1 = device_list w) as Hw1.
      { eapply step_keeps_devices; [done| |done|done]. apply Hin. left. }
      rewrite <- Hw1. apply IH; [|done]. intros d' Hd'. rewrite Hw1. apply Hin. by right.
    + apply IH; [|done]. intros d' Hd'. apply Hin. by right.
Qed.

(** The reference machine cycle. *)
Definition machine_cycle (l : list (device W)) : st W unit :=
  each_device dt_step l;;
  modify (λ w, set_steps (wrap 64 (steps w + 1)) w);;
  w ← get_st;
  if steps w mod 4096 =? 0 then each_device dt_step4k l else mret tt.

Lemma machine_step_run w : machine_step w = machine_cycle (device_list w) w.
Proof.
  unfold machine_step, machine_cycle. msimpl.
  rewrite (device_loop_run DEVICE_FILTER_STEP dt_step (device_list w) (device_list w) 0);
    [|by intros d|by left|done|done|done].
  destruct (each_device dt_step (device_list w) w) as [[[] w1]|e] eqn:E1; [|done].
  apply each_device_keeps in E1; [|by left|done].
  destruct (_ =? 0); [|done]. rewrite device_list_steps, E1.
  apply (device_loop_run DEVICE_FILTER_STEP4K dt_step4k _ (device_list w) 0);
    [by intros d|by right|by rewrite device_list_steps|done|done].
Qed.
End Cycle.

(** ** Properties *)

(** [cmd_find] on a terminated command table finds the command the user means:
    an exact name wins wherever it stands, a unique proper prefix is a partial
    hit, several are a multiple hit that reports the first of them. *)
Theorem cmd_find_resolves cmd_name names :
  cmd_find cmd_name (terminated names) = Done (resolve cmd_name names).
Proof.
  unfold cmd_find, terminated. etrans; [apply (cmd_find_loop_run cmd_name names [None] [] 0)|].
  unfold resolve. destruct (first_index cmd_name 0 names); [done|]. cbn [app cmd_find_loop].
  destruct (extensions cmd_name 0 names) as [|? [|? ?]]; done.
Qed.

(** A command table without its terminating entry is read past its end by
    every search that has no exact match. *)
Theorem cmd_find_unterminated cmd_name names :
  cmd_name ∉ names → cmd_find cmd_name (Some <$> names) = Stop UndefinedBehaviour.
Proof.
  intros Hn. unfold cmd_find. pose proof (cmd_find_loop_run cmd_name names [] [] 0) as E.
  rewrite app_nil_r in E. cbn [summary fst snd] in E. rewrite E.
  enough (first_index cmd_name 0 names = None) as -> by done. clear E. revert Hn. generalize O.
  induction names as [|n names IH]; intros i Hn; cbn; [done|]. apply not_elem_of_cons in Hn as [? ?].
  rewrite bool_decide_eq_false_2 by congruence. by apply IH.
Qed.

(** [drvcpu_cmds] of src/src/device/drvcpu.c, which has no [LAST_CMD] entry. *)
Definition drvcpu_cmds : list string :=
  ["init"; "help"; "info"; "rd"; "csrd"; "tr"; "str"; "ptd"; "sptd"; "tlbd"; "tlbresize"; "tlbflush";
   "asidlen"].

Lemma cmd_find_unterminated_witness :
  cmd_find "tlb" (Some <$> drvcpu_cmds) = Stop UndefinedBehaviour.
Proof.
  apply (cmd_find_unterminated "tlb" drvcpu_cmds).
  apply (bool_decide_unpack ("tlb" ∉ drvcpu_cmds)). vm_compute. exact I.
Defined.

(** C38: A machine cycle terminates whenever the device steps do, and is exactly:
    one step of every steppable device in the order of the device list, the cycle
    counter plus one modulo 2^64 and, when the counter reaches a multiple of
    4096, one [step4k] of every device that has it. *)
Theorem machine_step_cycles {W} `{MachineHostLaws W} (w : W) :
  machine_step w = machine_cycle (device_list w) w.
Proof. apply machine_step_run. Qed.

(** A machine with one device that counts its calls. *)
Module Tick.
Record world := mk_tick { ticks : Z; ticks4k : Z; cycles : Z }.

Definition no_mem : PhysMem.device_ops world := PhysMem.mk_device None None None None None None None None.

Definition ticker : device_type world :=
  mk_device_type false "ticker" None
    (Some (λ _, modify (λ w, mk_tick (ticks w + 1) (ticks4k w) (cycles w))))
    (Some (λ _, modify (λ w, mk_tick (ticks w) (ticks4k w + 1) (cycles w))))
    (λ _, no_mem) [].

#[global] Instance host : MachineHost world := {|
  device_list _ := [mk_dev ticker "t" 1];
  steps := cycles;
  set_steps n w := mk_tick (ticks w) (ticks4k w) n
|}.

#[global] Instance host_laws : MachineHostLaws world.
Proof. by split. Qed.
End Tick.

Lemma machine_step_cycles_witness :
  machine_step (Tick.mk_tick 0 0 4095) = Done (tt, Tick.mk_tick 1 1 4096).
Proof. rewrite (machine_step_cycles (Tick.mk_tick 0 0 4095)). reflexivity. Defined.
End Device.
