(* ===== verification/Machine.v ===== *)
(** * The machine around a processor

    The processors of [cpu_list] (the running one, those before and those after
    it), physical memory, the running family's cache of decoded instructions, the
    devices' state and the global switches of main.c ([machine_interactive] is kept
    with physical memory, whose breakpoints set it; [interactive_allowed] is
    [input_is_terminal() || machine_allow_interactive_without_tty]).  Any processor
    can be in focus; processors only meet in physical memory, in [cpu_sc_access]
    and in the interrupts of the devices.

    The machine is parametric in the state [C] of a processor and in the functions
    [F] its decoder selects.  [Core] is what the rest of the machine needs of a
    processor, [BoardOf] supplies the devices of the configuration. *)

From S2P Require Import Prelude PhysMem.
Import PhysMem.

(** Alignment (utils.h); [align] is a power of two. *)
Definition IS_ALIGNED (addr align : Z) : bool := Z.land addr (align - 1) =? 0.
Definition ALIGN_DOWN (addr align : Z) : Z := Z.land addr (Z.lnot (align - 1)).

(** A page of decoded instructions; [ci_instrs] is indexed by word. *)
Record cache_item (F : Type) := mk_cache_item {
  ci_addr : Z;
  ci_instrs : gmap Z F
}.
Arguments mk_cache_item {F} _ _.
Arguments ci_addr {F} _.
Arguments ci_instrs {F} _.

Class Core (C : Type) := {
  core_number : C → Z;
  core_sc_access : Z → Z → C → bool * C
}.

Section World.
Context {C F D : Type}.

Record world := mk_world {
  w_cpu : C;
  w_before : list C;
  w_after : list C;
  w_phys : physmem;
  w_icache : list (cache_item F);
  w_dev : D;
  machine_halt : bool;
  machine_trace : bool;
  machine_undefined : bool;
  machine_specific_instructions : bool;
  interactive_allowed : bool
}.

#[export] Instance eta_world : Eta world := λ w,
  mk_world (w_cpu w) (w_before w) (w_after w) (w_phys w) (w_icache w) (w_dev w)
    (machine_halt w) (machine_trace w) (machine_undefined w)
    (machine_specific_instructions w) (interactive_allowed w).
#[export] Instance set_w_cpu : SetField w_cpu := ltac:(derive_set_field).
#[export] Instance set_w_before : SetField w_before := ltac:(derive_set_field).
#[export] Instance set_w_after : SetField w_after := ltac:(derive_set_field).
#[export] Instance set_w_phys : SetField w_phys := ltac:(derive_set_field).
#[export] Instance set_w_icache : SetField w_icache := ltac:(derive_set_field).
#[export] Instance set_w_dev : SetField w_dev := ltac:(derive_set_field).
#[export] Instance set_machine_halt : SetField machine_halt := ltac:(derive_set_field).
#[export] Instance set_machine_trace : SetField machine_trace := ltac:(derive_set_field).
#[export] Instance set_machine_undefined : SetField machine_undefined := ltac:(derive_set_field).
End World.
Arguments world C F D : clear implicits.

(** The devices of a configuration and the notification of a debugger, which
    may change the devices' own state only. *)
Class BoardOf (C F D : Type) := {
  devices : list (device_ops (world C F D));
  debugger_event : D → D
}.

Section Cpus.
Context {C F D : Type}.
Abbreviation W := (world C F D).

(** Operations on the running processor. *)
Definition on_cpu {A} (m : st C A) : st W A := zoom w_cpu (λ c w, w <| w_cpu := c |>) m.
Definition cpu : st W C := gets w_cpu.
Definition cpu_modify (f : C → C) : st W unit := on_cpu (modify f).

(** Applies [f] to the first element satisfying [p]. *)
Fixpoint update_first {A B} (p : A → bool) (f : A → B * A) (xs : list A) : option (B * list A) :=
  match xs with
  | [] => None
  | x :: xs' => if p x then let '(b, x') := f x in Some (b, x' :: xs')
                else '(b, r) ← update_first p f xs'; Some (b, x :: r)
  end.

(** Applies [f] to the first processor of [cpu_list] that satisfies [p]. *)
Definition with_first_cpu {B} (p : C → bool) (f : C → B * C) (w : W) : option (B * W) :=
  match update_first p f (w_before w) with
  | Some (b, l) => Some (b, w <| w_before := l |>)
  | None =>
      if p (w_cpu w) then let '(b, c) := f (w_cpu w) in Some (b, w <| w_cpu := c |>)
      else match update_first p f (w_after w) with
           | Some (b, l) => Some (b, w <| w_after := l |>)
           | None => None
           end
  end.

Context `{Core C}.
Definition has_number (no : Z) (c : C) : bool := core_number c =? no.

(** [cpu_sc_access(get_cpu(procno), ...)]: an unknown number falls back to
    processor 0, and to the head of the list if there is none (general_cpu.c). *)
Definition cpu_sc_access (procno addr size : Z) : st W bool := λ w,
  let f := core_sc_access addr size in
  match with_first_cpu (has_number procno) f w with
  | Some r => Done r
  | None =>
      match with_first_cpu (has_number 0) f w with
      | Some r => Done r
      | None => match with_first_cpu (λ _, true) f w with
                | Some r => Done r
                | None => Stop AssertFailed
                end
      end
  end.
End Cpus.

#[export] Instance world_host {C F D} `{Core C} `{BoardOf C F D} : PhysHost (world C F D) := {|
  ph_get := w_phys;
  ph_set p w := w <| w_phys := p |>;
  ph_sc_access := cpu_sc_access;
  ph_devices _ := devices;
  ph_gdb_event := modify (λ w, w <| w_dev := debugger_event (w_dev w) |>)
|}.

(** ** The machine implements what physical memory relies on *)
Lemma with_first_cpu_phys {C F D B} p (f : C → B * C) (w : world C F D) b w' :
  with_first_cpu p f w = Some (b, w') → w_phys w' = w_phys w.
Proof.
  unfold with_first_cpu. destruct (update_first p f (w_before w)) as [[b1 l]|]; [by intros [= <- <-]|].
  destruct (p (w_cpu w)); [destruct (f (w_cpu w)); by intros [= <- <-]|].
  destruct (update_first p f (w_after w)) as [[b1 l]|]; [by intros [= <- <-]|done].
Qed.

Lemma with_first_cpu_any {C F D B} (f : C → B * C) (w : world C F D) :
  ∃ b w', with_first_cpu (λ _, true) f w = Some (b, w').
Proof.
  unfold with_first_cpu. destruct (w_before w) as [|c l]; cbn;
    [destruct (f (w_cpu w))|destruct (f c)]; by eexists _, _.
Qed.

#[export] Instance world_host_laws {C F D} `{Core C} `{BoardOf C F D} : PhysHostLaws (world C F D).
Proof.
  split; intros; try done.
  - by destruct w.
  - cbn. unfold cpu_sc_access.
    destruct (with_first_cpu (has_number procno) _ w) as [[b w']|] eqn:E1;
      [by exists b, w'; split; [|eapply with_first_cpu_phys]|].
    destruct (with_first_cpu (has_number 0) _ w) as [[b w']|] eqn:E2;
      [by exists b, w'; split; [|eapply with_first_cpu_phys]|].
    destruct (with_first_cpu_any (core_sc_access addr size) w) as (b & w' & E3). rewrite E3.
    exists b, w'. split; [done|]. by eapply with_first_cpu_phys.
  - by eexists.
Qed.
