(* ===== verification/DevHost.v ===== *)
(** * What a device shares with the rest of the machine

    A device's data is a component of the world, reached through [Slot]; the
    laws of [SlotLaws] say that memory accesses and interrupts leave it alone.
    The file also holds the checks every [init] command makes on its register
    block (src/src/utils.c) and the behaviour of memory accesses as a device with
    DMA sees them: which bytes change and what stays.  The last part shows that the
    machine of any processor family whose interrupt functions keep the promises of
    [IrqCore] is such a host. *)

From stdpp Require Import strings.
From S2P Require Import Prelude PhysMem Machine GenCpu Device.
Import PhysMem GenCpu Device.

(** ** Register blocks (utils.c) *)
Definition phys_range (addr : Z) : bool := addr <=? 0xfffffffff.
Definition ptr36_dword_aligned (addr : Z) : bool := Z.land addr 0x07 =? 0.

(** The three checks of an [init] command; the sum is computed at 64 bits. *)
Definition register_block_ok (addr limit : Z) : bool :=
  phys_range addr && phys_range (wrap 64 (addr + limit)) && ptr36_dword_aligned addr.

Lemma register_block_range addr limit :
  0 ≤ addr → 0 ≤ limit < 2 ^ 32 → register_block_ok addr limit = true →
  addr + limit < PHYS_LIMIT ∧ addr mod 8 = 0.
Proof.
  intros Ha Hl. unfold register_block_ok, phys_range, ptr36_dword_aligned, PHYS_LIMIT.
  rewrite !andb_true_iff, !Z.leb_le, Z.eqb_eq. intros [[H1 H2] H3].
  rewrite wrap_small in H2 by (unfold in_width; lia). split; [lia|].
  change 7 with (Z.ones 3) in H3. by rewrite Z.land_ones in H3 by lia.
Qed.

(** [addr - data->addr] at 64 bits. *)
Definition reg_offset (addr base : Z) : Z := wrap 64 (addr - base).

Lemma reg_offset_in base off : 0 ≤ base → 0 ≤ off < 2 ^ 64 → reg_offset (base + off) base = off.
Proof.
  intros. unfold reg_offset. replace (base + off - base) with off by lia. by apply wrap_small.
Qed.

(** ** The data of a device *)
Class Slot (W X : Type) := {
  slot_get : W → X;
  slot_set : X → W → W
}.

Class SlotLaws (W F X : Type) `{Slot W X, PhysHost W, CpuHostLaws W F} := {
  slot_get_set x w : slot_get (slot_set x w) = x;
  slot_phys x w : ph_get (slot_set x w) = ph_get w;
  slot_ph_set p w : slot_get (ph_set p w) = slot_get w;
  slot_sc_access procno addr size w b w' :
    ph_sc_access procno addr size w = Done (b, w') → slot_get w' = slot_get w;
  slot_gdb_event w w' : ph_gdb_event w = Done (tt, w') → slot_get w' = slot_get w;
  slot_cpus x w : ch_cpus (slot_set x w) = ch_cpus w;
  slot_pending x w : ch_pending (slot_set x w) = ch_pending w;
  slot_same w w' : ch_same w w' → slot_get w' = slot_get w ∧ ph_get w' = ph_get w
}.

(** Operations on the data of the device. *)
Definition dev {W X} `{Slot W X} : st W X := gets slot_get.
Definition dev_modify {W X} `{Slot W X} (f : X → X) : st W unit :=
  modify (λ w, slot_set (f (slot_get w)) w).

(** ** Memory accesses that an observer does not notice *)
Section Observer.
Context {W X : Type} `{PhysHostLaws W} (obs : W → X).
Hypothesis obs_set : ∀ p w, obs (ph_set p w) = obs w.
Hypothesis obs_sc : ∀ procno addr size w b w',
  ph_sc_access procno addr size w = Done (b, w') → obs w' = obs w.
Hypothesis obs_event : ∀ w w', ph_gdb_event w = Done (tt, w') → obs w' = obs w.

Lemma phys_modify_obs f w w' : phys_modify f w = Done (tt, w') → obs w' = obs w.
Proof. unfold phys_modify. msimpl. intros [= <-]. apply obs_set. Qed.

Lemma sc_control_loop_obs items addr size w w' :
  sc_control_loop items addr size w = Done (tt, w') → obs w' = obs w.
Proof.
  revert w. induction items as [|q items IH]; intros w E; cbn in E; [by injection E as <-|].
  apply bind_inv_Done in E as (b & w1 & E1 & E). apply bind_inv_Done in E as ([] & w2 & E2 & E).
  rewrite (IH _ E), <- (obs_sc _ _ _ _ _ _ E1). destruct b.
  - by eapply phys_modify_obs.
  - by injection E2 as <-.
Qed.

Lemma breakpoint_find_obs addr size access w w' :
  physmem_breakpoint_find addr size access w = Done (tt, w') → obs w' = obs w.
Proof.
  unfold physmem_breakpoint_find, phys. msimpl.
  destruct (first_match _ _ _ _) as [[idx bp]|]; [|by intros [= <-]].
  unfold physmem_breakpoint_hit. destruct (pbp_kind bp); [apply obs_event|apply phys_modify_obs].
Qed.

Lemma physmem_read_obs devmem n procno addr protected f w v w' :
  phys_wf (ph_get w) → lookup_frame (ph_get w) addr = Some f →
  physmem_read devmem n procno addr protected w = Done (v, w') → obs w' = obs w.
Proof.
  intros Hwf Hf. unfold physmem_read.
  rewrite (bind_Done _ _ _ _ _ (find_frame_run addr w Hwf)), Hf. intros E.
  apply bind_inv_Done in E as ([] & w1 & E1 & E).
  assert (obs w1 = obs w) as <-.
  { destruct protected; [by eapply breakpoint_find_obs|by injection E1 as <-]. }
  apply bind_inv_Done in E as ([d off] & w2 & E2 & E). injection E as _ <-.
  unfold frame_pointer, get_area, phys in E2. msimpl in E2.
  destruct (areas (ph_get w1) !! frame_area f) as [a|]; [|done].
  destruct (area_data a); [|done]. destruct (_ <=? _); [|done]. by injection E2 as _ _ <-.
Qed.

Lemma physmem_write_obs devmem n procno addr val protected f w b w' :
  phys_wf (ph_get w) → lookup_frame (ph_get w) addr = Some f →
  physmem_write devmem n procno addr val protected w = Done (b, w') → obs w' = obs w.
Proof.
  intros Hwf Hf. unfold physmem_write.
  rewrite (bind_Done _ _ _ _ _ (find_frame_run addr w Hwf)), Hf. intros E.
  unfold get_area at 1, phys in E. msimpl in E.
  destruct (areas (ph_get w) !! frame_area f) as [a|]; [|done].
  destruct (bool_decide _); [|done]. destruct (negb (area_writable a) && protected); [by injection E as _ <-|].
  destruct (sc_control addr (Z.of_nat n) w) as [[[] w1]|] eqn:E1; [|done].
  destruct (if protected then _ else _) as [[[] w2]|] eqn:E2; [|done].
  destruct (invalidate_frame addr f w2) as [[[] w3]|] eqn:E3; [|done].
  destruct (frame_pointer f addr n w3) as [[[d off] w4]|] eqn:E4; [|done].
  destruct (put_data (frame_area f) (store_le d off val n) w4) as [[[] w5]|] eqn:E5; [|done].
  injection E as _ <-. apply phys_modify_obs in E5. rewrite E5.
  assert (w4 = w3) as ->.
  { unfold frame_pointer, get_area, phys in E4. msimpl in E4.
    destruct (areas (ph_get w3) !! frame_area f) as [a'|]; [|done].
    destruct (area_data a'); [|done]. destruct (_ <=? _); [|done]. by injection E4 as _ _ <-. }
  unfold invalidate_frame, ftl1_of, phys in E3. msimpl in E3.
  assert (obs w3 = obs w2) as ->.
  { destruct (ftl0 (ph_get w2) !! ftl1_index addr) as [[fs|]|]; [|done|]; by eapply phys_modify_obs. }
  assert (obs w2 = obs w1) as ->.
  { destruct protected; [by eapply breakpoint_find_obs|by injection E2 as <-]. }
  unfold sc_control, phys in E1. msimpl in E1. by eapply sc_control_loop_obs.
Qed.
End Observer.

(** ** Writable words *)

(** The word at [addr] lies in one wired frame; [writable_at] if its memory is
    not a ROM. *)
Definition mapped_at (p : physmem) (addr : Z) : Prop :=
  0 ≤ addr < PHYS_LIMIT ∧ addr mod 4 = 0 ∧ is_Some (lookup_frame p addr).
Definition writable_at (p : physmem) (addr : Z) : Prop :=
  mapped_at p addr ∧
  ∀ f a, lookup_frame p addr = Some f → areas p !! frame_area f = Some a → area_writable a = true.

Lemma word_in_frame addr : addr mod 4 = 0 → addr mod 4096 + 4 ≤ 4096.
Proof. intros. Z.to_euclidean_division_equations. lia. Qed.

Lemma same_store_writable p p' addr : same_store p p' → writable_at p addr → writable_at p' addr.
Proof.
  intros S [(H1 & H2 & H3) H4]. pose proof (same_store_lookup _ _ addr S) as El.
  destruct S as (Ea & _ & _). unfold writable_at, mapped_at. rewrite El, Ea. done.
Qed.

Lemma same_store_mapped p p' addr : same_store p p' → mapped_at p addr → mapped_at p' addr.
Proof. intros S (H1 & H2 & H3). unfold mapped_at. by rewrite (same_store_lookup _ _ addr S). Qed.

Section Words.
Context {W : Type} `{PhysHostLaws W}.

Lemma read32_run procno addr protected w :
  phys_wf (ph_get w) → mapped_at (ph_get w) addr →
  ∃ w', physmem_read32 procno addr protected w = Done (word_at (ph_get w) addr, w') ∧
    same_store (ph_get w) (ph_get w').
Proof.
  intros Hwf (Ha & Hm & [f Hf]). apply (physmem_read_spec _ 4 _ _ _ f); [done|done| |done].
  by apply word_in_frame.
Qed.

Lemma write32_run procno addr val protected w :
  phys_wf (ph_get w) → writable_at (ph_get w) addr → in_width 32 val →
  ∃ w', physmem_write32 procno addr val protected w = Done (true, w') ∧ phys_wf (ph_get w') ∧
    word_at (ph_get w') addr = val ∧
    (∀ x, 0 ≤ x < PHYS_LIMIT → ¬ (addr ≤ x < addr + 4) →
      byte_at (ph_get w') x = byte_at (ph_get w) x) ∧
    (∀ x, writable_at (ph_get w) x → writable_at (ph_get w') x) ∧
    (∀ x, mapped_at (ph_get w) x → mapped_at (ph_get w') x).
Proof.
  intros Hwf [(Ha & Hm & [f Hf]) Hw] Hv. pose proof (word_in_frame addr Hm) as Hc.
  destruct (lookup_frame_wf _ _ _ Hwf Ha Hf) as (fs & a & d & _ & _ & Har & _).
  specialize (Hw f a Hf Har).
  assert (area_writable a || negb protected = true) as Hw' by by rewrite Hw.
  destruct (physmem_write_spec devmem_write32 4 procno addr val protected f a w Hwf Ha Hc Hf Har Hw')
    as (w' & Hrun & Hwf' & _ & Hb).
  pose proof (physmem_write_frames _ 4 _ _ _ _ _ _ _ _ Hwf Ha Hc Hf Har Hw' Hrun) as Hfr.
  assert (∀ x, mapped_at (ph_get w) x → mapped_at (ph_get w') x) as Hmap.
  { intros x (H1 & H2 & H3). split_and!; [lia..|done|]. rewrite Hfr by done. by case_decide. }
  exists w'. split_and!; [done|done| | | |done].
  - unfold word_at. rewrite <- (wrap_small 32 val Hv). change 32 with (8 * Z.of_nat 4).
    rewrite <- (le_join_bytes val addr 4). apply le_join_ext. intros k Hk.
    rewrite Hb, decide_True by (unfold PHYS_LIMIT in *; Z.to_euclidean_division_equations; lia).
    done.
  - intros x Hx Hn. by rewrite Hb, decide_False by lia.
  - intros x [Hmx Hwx]. split; [by apply Hmap|]. destruct Hmx as (Hx & _ & [g Hg]). intros f' a' Hf' Ha'.
    assert (∃ f0, lookup_frame (ph_get w) x = Some f0 ∧ frame_area f0 = frame_area f') as (f0 & Hf0 & Ea).
    { rewrite Hfr in Hf' by done. case_decide as E; [|by exists f'].
      injection Hf' as <-. exists f. split; [|done]. rewrite <- Hf. by apply lookup_frame_same. }
    destruct (physmem_write_run devmem_write32 4 procno addr val protected f a w Hwf Ha Hc Hf Har Hw')
      as (w1 & p1 & fs1 & d1 & Hrun1 & S & _ & _ & _ & Ew).
    assert (w1 = w') as -> by (unfold physmem_write32 in Hrun; congruence).
    rewrite Ew, stored_area in Ha'. destruct S as (Ear & _ & _). rewrite Ear in Ha'.
    case_decide as Eid; [|by eapply Hwx; [|rewrite Ea]].
    rewrite <- Ea in Ha'. destruct (areas (ph_get w) !! frame_area f0) as [a0|] eqn:E0; [|done].
    injection Ha' as <-. cbn. by eapply Hwx.
Qed.
End Words.

(** ** Accesses that leave the memory block

    An access of [n] bytes that starts in the last frame of an area and crosses
    its end runs past the block: the frame test of physmem.c looks at the first
    byte only. *)
Section Overrun.
Context {W : Type} `{PhysHostLaws W}.

Definition crosses_end (p : physmem) (addr : Z) (n : nat) : Prop :=
  ∃ f a, lookup_frame p addr = Some f ∧ areas p !! frame_area f = Some a ∧ area_writable a = true ∧
    addr / 4096 = area_start a + area_count a - 1 ∧ 4096 < addr mod 4096 + Z.of_nat n.

Lemma physmem_write_overrun devmem n procno addr val protected (w : W) :
  phys_wf (ph_get w) → 0 ≤ addr < PHYS_LIMIT → crosses_end (ph_get w) addr n →
  physmem_write devmem n procno addr val protected w = Stop UndefinedBehaviour.
Proof.
  intros Hwf Ha (f & a & Hf & Har & Hw & Hlast & Hn). unfold physmem_write.
  rewrite (bind_Done _ _ _ _ _ (find_frame_run addr w Hwf)), Hf.
  unfold get_area at 1, phys. msimpl. rewrite Har.
  destruct (lookup_frame_wf _ _ _ Hwf Ha Hf) as (fs & a' & d & Hfs & Hj & Har' & Had & Hcnt & Hb & Eo).
  simplify_eq. rewrite Had, bool_decide_eq_true_2 by done. rewrite Hw. cbn [negb andb].
  destruct (sc_control_run addr (Z.of_nat n) w) as (w1 & -> & S1).
  assert (∃ w2, (if protected then physmem_breakpoint_find addr (Z.of_nat n) ACCESS_WRITE
                 else mret tt) w1 = Done (tt, w2) ∧ same_store (ph_get w1) (ph_get w2))
    as (w2 & E2 & S2) by (destruct protected; [apply breakpoint_find_run|by eexists]).
  unfold mret, st_ret in E2. rewrite E2. assert (same_store (ph_get w) (ph_get w2)) as S by by etrans.
  assert (ftl0 (ph_get w2) !! ftl1_index addr = Some (Ftl1 fs)) as Hfs2
    by (destruct S as (_ & -> & _); done).
  unfold invalidate_frame. msimpl. rewrite (ftl1_of_run _ _ _ Hfs2).
  unfold set_frame, phys_modify, frame_pointer, get_area, put_data, phys, phys_modify. msimpl.
  rewrite !ph_get_set. cbn -[FRAMES2SIZE]. destruct S as (Ea & Ef & Es).
  rewrite Ea, Har, Had, Eo, frames2size_small by done.
  replace (_ <=? _) with false; [done|]. symmetry. apply Z.leb_gt.
  pose proof (Z.div_mod addr 4096). lia.
Qed.
End Overrun.

(** ** Device commands see their parameters and the world *)
Section Commands.
Context {W : Type}.
Definition on_parms {A} (m : st parms A) : st (parms * W) A := zoom fst (λ p s, (p, s.2)) m.
Definition on_world {A} (m : st W A) : st (parms * W) A := zoom snd (λ w s, (s.1, w)) m.
End Commands.

(** ** The machine as the host of its devices

    The processors of a machine are the entries of [cpu_list].  A method of a processor
    runs on it by moving the focus of the machine to it and back. *)
Section Focus.
Context {C F D : Type}.
Abbreviation W := (world C F D).

Definition all_cpus (w : W) : list C := w_before w ++ w_cpu w :: w_after w.

(** The same machine with the processor at position [i] in focus. *)
Definition refocus (i : nat) (w : W) : option W :=
  c ← all_cpus w !! i;
  Some (w <| w_before := take i (all_cpus w) |> <| w_cpu := c |> <| w_after := drop (S i) (all_cpus w) |>).

Definition on_nth {A} (i : nat) (m : st W A) : st W A := λ w,
  match refocus i w with
  | None => Stop UndefinedBehaviour
  | Some w1 =>
      match m w1 with
      | Done (a, w2) => match refocus (length (w_before w)) w2 with
                        | Some w3 => Done (a, w3)
                        | None => Stop UndefinedBehaviour
                        end
      | Stop e => Stop e
      end
  end.

(** ** Moving the focus *)

(** Everything but the processors. *)
Record same_rest (w w' : W) : Prop := {
  sr_phys : w_phys w' = w_phys w;
  sr_icache : w_icache w' = w_icache w;
  sr_dev : w_dev w' = w_dev w;
  sr_halt : machine_halt w' = machine_halt w;
  sr_trace : machine_trace w' = machine_trace w;
  sr_undef : machine_undefined w' = machine_undefined w;
  sr_spec : machine_specific_instructions w' = machine_specific_instructions w;
  sr_inter : interactive_allowed w' = interactive_allowed w
}.

#[export] Instance same_rest_equiv : Equivalence same_rest.
Proof.
  split; [by intros w; split|intros w w' []; by split|].
  intros w1 w2 w3 [] []. split; congruence.
Qed.

Definition update_nth (i : nat) (c : C) (w : W) : W :=
  let l := <[i := c]> (all_cpus w) in let n := length (w_before w) in
  w <| w_before := take n l |> <| w_cpu := default (w_cpu w) (l !! n) |> <| w_after := drop (S n) l |>.

Lemma refocus_all i w w1 : refocus i w = Some w1 →
  all_cpus w1 = all_cpus w ∧ all_cpus w !! i = Some (w_cpu w1) ∧ length (w_before w1) = i.
Proof.
  unfold refocus. destruct (all_cpus w !! i) as [c|] eqn:E; [|done]. intros [= <-].
  unfold all_cpus at 1. cbn. split_and!; [by apply take_drop_middle|done|].
  apply length_take_le. apply lookup_lt_Some in E. lia.
Qed.

(** An operation on the processor in focus, run on the processor at [i]. *)
Lemma on_nth_run {A} i (m : st W A) c (a : A) c' w :
  all_cpus w !! i = Some c →
  (∀ w1, w_cpu w1 = c → m w1 = Done (a, w1 <| w_cpu := c' |>)) →
  on_nth i m w = Done (a, update_nth i c' w).
Proof.
  intros Hc Hm. unfold on_nth. destruct (refocus i w) as [w1|] eqn:E1.
  2:{ unfold refocus in E1. by rewrite Hc in E1. }
  pose proof (refocus_all i w w1 E1) as (Eall & Ec & Elen). rewrite Hc in Ec. injection Ec as Ec.
  rewrite (Hm w1) by done.
  assert (all_cpus (w1 <| w_cpu := c' |>) = <[i := c']> (all_cpus w)) as Eall'.
  { rewrite <- Eall. unfold all_cpus. cbn. by rewrite <- Elen, insert_app_r_alt, Nat.sub_diag by lia. }
  unfold refocus at 1. rewrite Eall'.
  assert (length (w_before w) < length (all_cpus w))%nat as Hlt.
  { unfold all_cpus. rewrite length_app. cbn. lia. }
  destruct (<[i:=c']> (all_cpus w) !! length (w_before w)) as [x|] eqn:Ex.
  2:{ apply lookup_ge_None in Ex. rewrite length_insert in Ex. lia. }
  cbn. do 2 f_equal. unfold update_nth. rewrite Ex. cbn.
  unfold refocus in E1. rewrite Hc in E1. injection E1 as <-. by destruct w.
Qed.

Lemma update_nth_all i c w : all_cpus (update_nth i c w) = <[i := c]> (all_cpus w).
Proof.
  unfold update_nth. unfold all_cpus at 1. cbn.
  assert (length (w_before w) < length (<[i:=c]> (all_cpus w)))%nat as Hlt.
  { rewrite length_insert. unfold all_cpus. rewrite length_app. cbn. lia. }
  apply lookup_lt_is_Some in Hlt as [x Ex]. rewrite Ex. cbn. by apply take_drop_middle.
Qed.

Lemma update_nth_rest i c w : same_rest w (update_nth i c w).
Proof. by split. Qed.

Lemma on_nth_stop {A} i (m : st W A) c e w :
  all_cpus w !! i = Some c → (∀ w1, w_cpu w1 = c → m w1 = Stop e) → on_nth i m w = Stop e.
Proof.
  intros Hc Hm. unfold on_nth. destruct (refocus i w) as [w1|] eqn:E1.
  2:{ unfold refocus in E1. by rewrite Hc in E1. }
  destruct (refocus_all i w w1 E1) as (_ & Ec & _). rewrite Hc in Ec. injection Ec as Ec. by rewrite (Hm w1).
Qed.

Fixpoint first_at (p : C → bool) (i : nat) (l : list C) : option (nat * C) :=
  match l with
  | [] => None
  | c :: l' => if p c then Some (i, c) else first_at p (S i) l'
  end.

Lemma first_at_bound p i l j c : first_at p i l = Some (j, c) → (i ≤ j)%nat ∧ l !! (j - i)%nat = Some c.
Proof.
  revert i. induction l as [|x l IH]; intros i; cbn; [done|].
  destruct (p x); [intros [= <- <-]; by rewrite Nat.sub_diag|]. intros [Hle Hl]%IH. split; [lia|].
  by replace (j - i)%nat with (S (j - S i)) by lia.
Qed.

Lemma update_first_at {B} p (f : C → B * C) i l :
  update_first p f l =
    match first_at p i l with
    | Some (j, c) => Some ((f c).1, <[(j - i)%nat := (f c).2]> l)
    | None => None
    end.
Proof.
  revert i. induction l as [|x l IH]; intros i; cbn; [done|].
  destruct (p x); [rewrite Nat.sub_diag; by destruct (f x)|]. rewrite (IH (S i)).
  destruct (first_at p (S i) l) as [[j c]|] eqn:E; cbn; [|done].
  apply first_at_bound in E as [Hle _]. by replace (j - i)%nat with (S (j - S i)) by lia.
Qed.

Lemma first_at_app p i l1 l2 :
  first_at p i (l1 ++ l2) =
    match first_at p i l1 with Some r => Some r | None => first_at p (i + length l1) l2 end.
Proof.
  revert i. induction l1 as [|x l1 IH]; intros i; cbn; [by rewrite Nat.add_0_r|].
  destruct (p x); [done|]. rewrite IH. by replace (S i + length l1)%nat with (i + S (length l1))%nat by lia.
Qed.

Lemma update_nth_before i c w : (i < length (w_before w))%nat →
  update_nth i c w = w <| w_before := <[i := c]> (w_before w) |>.
Proof.
  intros Hi. unfold update_nth, all_cpus. rewrite insert_app_l by done.
  rewrite <- (length_insert (w_before w) i c).
  rewrite take_app_length, lookup_app_r, Nat.sub_diag, drop_app_ge by lia. cbn.
  replace (_ - _)%nat with 1%nat by lia. by destruct w.
Qed.

Lemma update_nth_focus c w : update_nth (length (w_before w)) c w = w <| w_cpu := c |>.
Proof.
  unfold update_nth, all_cpus. rewrite insert_app_r_alt, Nat.sub_diag by done.
  rewrite take_app_length, lookup_app_r, Nat.sub_diag, drop_app_ge by lia. cbn.
  replace (_ - _)%nat with 1%nat by lia. by destruct w.
Qed.

Lemma update_nth_after j c w :
  update_nth (S (length (w_before w)) + j) c w = w <| w_after := <[j := c]> (w_after w) |>.
Proof.
  unfold update_nth, all_cpus. rewrite insert_app_r_alt by lia.
  replace (S (length (w_before w)) + j - length (w_before w))%nat with (S j) by lia. cbn [insert list_insert].
  rewrite take_app_length, lookup_app_r, Nat.sub_diag, drop_app_ge by lia. cbn.
  replace (_ - _)%nat with 1%nat by lia. by destruct w.
Qed.

Lemma with_first_at {B} p (f : C → B * C) w :
  with_first_cpu p f w =
    match first_at p 0 (all_cpus w) with
    | Some (i, c) => Some ((f c).1, update_nth i (f c).2 w)
    | None => None
    end.
Proof.
  unfold with_first_cpu, all_cpus. rewrite first_at_app, (update_first_at p f 0 (w_before w)). cbn.
  destruct (first_at p 0 (w_before w)) as [[i c]|] eqn:E.
  - apply first_at_bound in E as [_ E]. rewrite Nat.sub_0_r in *.
    rewrite update_nth_before by (by eapply lookup_lt_Some). done.
  - destruct (p (w_cpu w)); [rewrite update_nth_focus; by destruct (f (w_cpu w))|].
    rewrite (update_first_at p f (S (length (w_before w)))).
    destruct (first_at p (S (length (w_before w))) (w_after w)) as [[i c]|] eqn:E2; [|done].
    apply first_at_bound in E2 as [Hle _]. rewrite <- update_nth_after. do 3 f_equal. lia.
Qed.

Lemma with_first_rest {B} p (f : C → B * C) (w : W) b w' :
  with_first_cpu p f w = Some (b, w') → same_rest w w'.
Proof.
  rewrite with_first_at. destruct (first_at p 0 (all_cpus w)) as [[i c]|]; [|done].
  intros [= <- <-]. apply update_nth_rest.
Qed.

Lemma sc_access_rest `{Core C} procno addr size (w : W) b w' :
  Machine.cpu_sc_access procno addr size w = Done (b, w') → same_rest w w'.
Proof.
  unfold Machine.cpu_sc_access.
  destruct (with_first_cpu (has_number procno) _ w) as [[? ?]|] eqn:E1;
    [intros [= <- <-]; by eapply with_first_rest|].
  destruct (with_first_cpu (has_number 0) _ w) as [[? ?]|] eqn:E2;
    [intros [= <- <-]; by eapply with_first_rest|].
  destruct (with_first_cpu (λ _, true) _ w) as [[? ?]|] eqn:E3;
    [intros [= <- <-]; by eapply with_first_rest|done].
Qed.
End Focus.

(** *** Interrupt lines

    What the interrupt functions of a processor promise: an accepted number is raised
    or cancelled, another one fails an assertion. *)
Class IrqCore (C : Type) `{Core C} := {
  core_up : Z → st C unit;
  core_down : Z → st C unit;
  core_pending : C → Z → bool;
  core_accepts : Z → bool;
  core_up_run c no : core_accepts no = true →
    ∃ c', core_up no c = Done (tt, c') ∧ core_number c' = core_number c ∧ core_pending c' no = true;
  core_down_run c no : core_accepts no = true →
    ∃ c', core_down no c = Done (tt, c') ∧ core_number c' = core_number c ∧ core_pending c' no = false;
  core_up_refused c no : 0 ≤ no → core_accepts no = false → core_up no c = Stop AssertFailed
}.

(** A machine all of whose processors are of the family [fam]. *)
Section Family.
Context {C F D Fam : Type} `{IrqCore C} (fam : Fam).
Abbreviation W := (world C F D).
Implicit Types w : W.

Definition family_cpus (w : W) : list (general_cpu Fam) :=
  imap (λ i c, mk_gcpu (core_number c) fam (Z.of_nat i)) (all_cpus w).

Lemma update_nth_cpus i c c' w :
  all_cpus w !! i = Some c → core_number c' = core_number c → family_cpus (update_nth i c' w) = family_cpus w.
Proof.
  intros Hc E. unfold family_cpus. rewrite update_nth_all. apply list_eq. intros j.
  rewrite !list_lookup_imap. destruct (decide (j = i)) as [-> | Hne].
  - rewrite list_lookup_insert_eq by (by eapply lookup_lt_Some). rewrite Hc. cbn. by rewrite E.
  - by rewrite list_lookup_insert_ne.
Qed.

Lemma family_cpus_elem c w : c ∈ family_cpus w →
  ∃ i x, c = mk_gcpu (core_number x) fam (Z.of_nat i) ∧ all_cpus w !! i = Some x.
Proof.
  intros (i & Hi)%list_elem_of_lookup. unfold family_cpus in Hi. rewrite list_lookup_imap in Hi.
  destruct (all_cpus w !! i) as [x|] eqn:E; [|done]. injection Hi as <-. by exists i, x.
Qed.

Definition nth_pending (w : W) (d no : Z) : bool :=
  (0 <=? d) && match all_cpus w !! Z.to_nat d with Some c => core_pending c no | None => false end.

Lemma irq_moves (v : bool) i c c' no w :
  all_cpus w !! i = Some c → core_number c' = core_number c → core_pending c' no = v →
  let w' := update_nth i c' w in
  same_rest w w' ∧ family_cpus w' = family_cpus w ∧ nth_pending w' (Z.of_nat i) no = v ∧
  ∀ d no', d ≠ Z.of_nat i → nth_pending w' d no' = nth_pending w d no'.
Proof.
  intros Hc Hn Hp w'. split_and!; [apply update_nth_rest|by eapply update_nth_cpus|..].
  - unfold nth_pending, w'. rewrite update_nth_all, Nat2Z.id, list_lookup_insert_eq
      by (by eapply lookup_lt_Some). rewrite Hp. by destruct i.
  - intros d no' Hd. unfold nth_pending, w'. rewrite update_nth_all.
    destruct (Z.leb_spec 0 d); [|done]. by rewrite list_lookup_insert_ne by lia.
Qed.

Lemma on_core_run (m : st C unit) i c c' w :
  all_cpus w !! i = Some c → m c = Done (tt, c') → on_nth i (on_cpu m) w = Done (tt, update_nth i c' w).
Proof. intros Hc Hm. apply (on_nth_run _ _ c); [done|]. intros w1 <-. unfold on_cpu, zoom. by rewrite Hm. Qed.

Context `{CpuHost W Fam}.
Hypothesis fam_cpus : ∀ w, ch_cpus w = family_cpus w.
Hypothesis fam_up : interrupt_up (ch_ops fam) = Some (λ d no, on_nth (Z.to_nat d) (on_cpu (core_up no))).
Hypothesis fam_down : interrupt_down (ch_ops fam) = Some (λ d no, on_nth (Z.to_nat d) (on_cpu (core_down no))).

Definition family_laws : CpuHostLaws W Fam.
Proof.
  refine {| ch_same := same_rest; ch_pending := nth_pending; ch_accepts _ := core_accepts |}.
  - intros w. rewrite fam_cpus. unfold family_cpus, all_cpus. by destruct (w_before w).
  - intros w c c' Hc Hc' E. rewrite fam_cpus in Hc, Hc'. apply family_cpus_elem in Hc as (i & x & -> & Hx).
    apply family_cpus_elem in Hc' as (j & y & -> & Hy). cbn in E. assert (i = j) as -> by lia. congruence.
  - intros w c no Hc Ha. rewrite fam_cpus in Hc. apply family_cpus_elem in Hc as (i & x & -> & Hx). cbn [type data].
    destruct (core_up_run x no Ha) as (x' & E & Hn & Hp). eexists _, _. split; [apply fam_up|]. cbv beta.
    rewrite Nat2Z.id, !fam_cpus. split; [by apply (on_core_run _ _ x)|]. by eapply irq_moves.
  - intros w c no Hc Ha. rewrite fam_cpus in Hc. apply family_cpus_elem in Hc as (i & x & -> & Hx). cbn [type data].
    destruct (core_down_run x no Ha) as (x' & E & Hn & Hp). eexists _, _. split; [apply fam_down|]. cbv beta.
    rewrite Nat2Z.id, !fam_cpus. split; [by apply (on_core_run _ _ x)|]. by eapply irq_moves.
  - intros w c no Hc Hn Ha. rewrite fam_cpus in Hc. apply family_cpus_elem in Hc as (i & x & -> & Hx). cbn [type data].
    eexists. split; [apply fam_up|]. cbv beta. rewrite Nat2Z.id. apply (on_nth_stop _ _ x); [done|]. intros w1 <-.
    unfold on_cpu, zoom. by rewrite core_up_refused.
Defined.
End Family.

(** *** The data of a device in the machine

    [DevField] says where a device's data is in the state of all devices. *)
Class DevField (D X : Type) := {
  df_get : D → X;
  df_set : X → D → D
}.

Class DevFieldLaws (C F D X : Type) `{BoardOf C F D, DevField D X} := {
  df_get_set x d : df_get (df_set x d) = x;
  df_event d : df_get (debugger_event d) = df_get d
}.

#[export] Instance world_slot {C F D X} `{DevField D X} : Slot (world C F D) X := {|
  slot_get w := df_get (w_dev w);
  slot_set x w := w <| w_dev := df_set x (w_dev w) |>
|}.

Lemma field_slot_laws {C F D X Fam} `{Core C} `{DevFieldLaws C F D X} `{CpuHostLaws (world C F D) Fam} :
  (∀ (x : X) w, ch_cpus (slot_set x w) = ch_cpus w) → (∀ (x : X) w, ch_pending (slot_set x w) = ch_pending w) →
  (∀ w w', ch_same w w' → same_rest w w') → SlotLaws (world C F D) Fam X.
Proof.
  intros Hc Hp Hs. split; cbn.
  - intros x w. apply df_get_set.
  - done.
  - done.
  - intros procno addr size w b w' E%sc_access_rest. by rewrite (sr_dev _ _ E).
  - intros w w' [= <-]. cbn. apply df_event.
  - apply Hc.
  - apply Hp.
  - intros w w' E%Hs. by rewrite (sr_dev _ _ E), (sr_phys _ _ E).
Qed.
