(* ===== verification/DMem.v ===== *)
(** * Memory blocks (src/src/device/mem.c)

    The commands of the [rwm] and [rom] devices, which create memory areas, wire
    them into the frame table and change their contents.  An area is addressed by
    its identity in [areas].  What the host file system answers is an argument. *)

From stdpp Require Import strings.
From S2P Require Import Prelude PhysMem GenCpu Device DevHost.
Import PhysMem Device.

Module DMem.

Definition ptr36_frame_aligned (addr : Z) : bool := Z.land addr FRAME_MASK =? 0.
Definition SIZE2FRAMES (size : Z) : Z := wrap 32 (Z.shiftr size FRAME_WIDTH).

Section Ops.
Context {W : Type} `{PhysHost W}.

Definition put_area (id : Z) (a : physmem_area) : st W unit :=
  phys_modify (λ p, p <| areas := <[id := a]> (areas p) |>).

(** Freeing the block: [data] becomes [NULL] (or a pointer that is not used
    again, after [munmap]). *)
Definition physmem_cleanup (id : Z) : st W unit :=
  area ← get_area id;
  (match area_type area with
   | MEMT_NONE => mret tt
   | MEMT_MEM | MEMT_FMAP =>
       physmem_unwire id;;
       put_area id (area <| area_data := None |>)
   end);;
  area ← get_area id;
  put_area id (mk_area MEMT_NONE (area_writable area) (area_start area) 0 (area_data area)).

(** [id] is the address of the new structure, [type_name] the name of the
    device type. *)
Definition mem_init (id : Z) (type_name : string) : st (parms * W) bool :=
  on_parms parm_next;;
  start ← on_parms parm_uint_next;
  if negb (phys_range start) then mret false
  else if negb (ptr36_frame_aligned start) then mret false
  else
    on_world (put_area id
      (mk_area MEMT_NONE (bool_decide (type_name = "rwm")) (wrap 32 (ADDR2FRAME start)) 0 None));;
    mret true.

Definition mem_generic (id size : Z) : st W bool :=
  area ← get_area id;
  if negb (bool_decide (area_type area = MEMT_NONE)) then mret false
  else if size =? 0 then mret false
  else if negb (phys_range size) then mret false
  else if negb (phys_range (wrap 64 (FRAME2ADDR (area_start area) + size))) then mret false
  else if negb (ptr36_frame_aligned size) then mret false
  else
    put_area id (mk_area MEMT_MEM (area_writable area) (area_start area) (SIZE2FRAMES size) (Some ∅));;
    physmem_wire id;;
    mret true.

(** The content of a host file from offset 0 on, as a map of bytes. *)
Fixpoint file_map (off : Z) (bytes : list Z) : gmap Z Z :=
  match bytes with
  | [] => ∅
  | b :: bytes' => <[off := b]> (file_map (off + 1) bytes')
  end.

Definition mem_fmap (id : Z) (file : option (list Z)) : st W bool :=
  area ← get_area id;
  if negb (bool_decide (area_type area = MEMT_NONE)) then mret false
  else
    match file with
    | None => mret false
    | Some bytes =>
        let fsize := Z.land (Z.of_nat (length bytes) + FRAME_MASK) (c_not 64 FRAME_MASK) in
        if fsize =? 0 then mret false
        else if negb (phys_range fsize) then mret false
        else if negb (phys_range (wrap 64 (FRAME2ADDR (area_start area) + fsize))) then mret false
        else
          put_area id (mk_area MEMT_FMAP (area_writable area) (area_start area) (SIZE2FRAMES fsize)
                         (Some (file_map 0 bytes)));;
          physmem_wire id;;
          mret true
    end.

(** [rd] is the number of bytes [fread] delivers; the decoded instructions of
    the frames are not invalidated. *)
Definition mem_load (id : Z) (file : option (list Z)) (rd : nat) : st W bool :=
  area ← get_area id;
  match area_type area with
  | MEMT_NONE | MEMT_FMAP => mret false
  | MEMT_MEM =>
      match file with
      | None => mret false
      | Some bytes =>
          if Nat.eqb (length bytes) 0 then mret false
          else if FRAMES2SIZE (area_count area) <? Z.of_nat (length bytes) then mret false
          else
            match area_data area with
            | None => stop UndefinedBehaviour
            | Some d =>
                put_area id (area <| area_data := Some (file_map 0 (take rd bytes) ∪ d) |>);;
                mret (Nat.eqb rd (length bytes))
            end
      end
  end.

Definition fill_char (parm : token) : option Z :=
  match parm with
  | tt_end => Some 0
  | tt_str (String c EmptyString) => Some (Z.of_N (Ascii.N_of_ascii c))
  | tt_str _ => None
  | tt_uint i => if 255 <? i then None else Some i
  | tt_err => None
  end.

Definition mem_fill (id : Z) (parm : token) : st W bool :=
  area ← get_area id;
  match fill_char parm with
  | None => mret false
  | Some c =>
      let size := FRAMES2SIZE (area_count area) in
      if size =? 0 then mret true
      else
        match area_data area with
        | None => stop UndefinedBehaviour
        | Some d =>
            put_area id (area <| area_data := Some (file_map 0 (replicate (Z.to_nat size) c)) |>);;
            mret true
        end
  end.

Definition mem_done (id : Z) : st W unit :=
  physmem_cleanup id;;
  phys_modify (λ p, p <| areas := delete id (areas p) |>).
End Ops.

(** ** A new block *)
Lemma frame_aligned_mod x : ptr36_frame_aligned x = true → x mod 4096 = 0.
Proof. unfold ptr36_frame_aligned. rewrite Z.eqb_eq, frame_mask_mod. done. Qed.

Lemma size2frames_small x : 0 ≤ x ≤ 0xfffffffff → SIZE2FRAMES x = x / 4096.
Proof.
  intros Hx. unfold SIZE2FRAMES. rewrite Z.shiftr_div_pow2 by done. change (2 ^ FRAME_WIDTH) with 4096.
  apply wrap_small. unfold in_width. Z.to_euclidean_division_equations. lia.
Qed.

Section Props.
Context {W : Type} `{PhysHostLaws W}.
Implicit Types w : W.

(** An area that no frame descriptor refers to. *)
Definition unused (p : physmem) (id : Z) : Prop :=
  ∀ i j fs f, ftl0 p !! i = Some (Ftl1 fs) → fs !! j = Some f → frame_area f ≠ id.

Lemma put_area_wf p id a :
  phys_wf p → unused p id → (∀ d k v, area_data a = Some d → d !! k = Some v → in_width 8 v) →
  phys_wf (p <| areas := <[id := a]> (areas p) |>).
Proof.
  intros Hwf Hu Hb. split; cbn.
  - apply (wf_live _ Hwf).
  - intros i j fs f Hi Hj. destruct (wf_frames _ Hwf _ _ _ _ Hi Hj) as (B1 & B2 & a' & d & A1 & A2).
    split; [exact B1|]. split; [exact B2|]. exists a', d. cbn.
    rewrite lookup_insert_ne by (intros E; eapply Hu; [exact Hi|exact Hj|done]). done.
  - intros id' a' d k v. rewrite lookup_insert. case_decide; [intros [= <-]; apply Hb|apply (wf_bytes _ Hwf)].
  - apply (wf_sc_list _ Hwf).
Qed.

Lemma mem_generic_run id area size w :
  phys_wf (ph_get w) → areas (ph_get w) !! id = Some area → area_type area = MEMT_NONE →
  unused (ph_get w) id → 0 ≤ area_start area < 2 ^ 24 → 0 < size → size mod 4096 = 0 →
  area_start area * 4096 + size < PHYS_LIMIT →
  ∃ w', mem_generic id size w = Done (true, w') ∧ phys_wf (ph_get w') ∧
    areas (ph_get w') = <[id :=
      mk_area MEMT_MEM (area_writable area) (area_start area) (size / 4096) (Some ∅)]> (areas (ph_get w)) ∧
    ∀ x, 0 ≤ x < PHYS_LIMIT → lookup_frame (ph_get w') x =
      if decide (area_start area * 4096 ≤ x < area_start area * 4096 + size)
      then Some (mk_frame id ((x / 4096 - area_start area) * 4096) false)
      else lookup_frame (ph_get w) x.
Proof.
  intros Hwf Har Ht Hu Hs Hpos Hal Hlim. unfold PHYS_LIMIT in Hlim.
  set (a1 := mk_area MEMT_MEM (area_writable area) (area_start area) (size / 4096) (Some ∅)).
  set (w1 := ph_set ((ph_get w) <| areas := <[id := a1]> (areas (ph_get w)) |>) w).
  assert (ph_get w1 = (ph_get w) <| areas := <[id := a1]> (areas (ph_get w)) |>) as G1 by apply ph_get_set.
  destruct (physmem_wire_run id a1 w1) as (w' & E & Hwf' & A' & L');
    [rewrite G1; apply put_area_wf; [done|done|by intros d k v [= <-]]|rewrite G1; apply lookup_insert_eq
    |done|by eexists|cbn; lia|cbn; Z.to_euclidean_division_equations; lia
    |cbn; Z.to_euclidean_division_equations; lia|].
  exists w'. split_and!; [|done|by rewrite A', G1|].
  - unfold mem_generic, get_area at 1, phys. msimpl. rewrite Har, Ht. cbn [bool_decide].
    rewrite bool_decide_eq_true_2 by done. cbn [negb].
    replace (size =? 0) with false by lia. unfold phys_range.
    replace (size <=? 0xfffffffff) with true by lia. cbn [negb].
    unfold FRAME2ADDR. rewrite Z.shiftl_mul_pow2 by done. change (2 ^ FRAME_WIDTH) with 4096.
    rewrite (wrap_small 64 (area_start area * 4096)) by (unfold in_width; lia).
    rewrite wrap_small by (unfold in_width; lia).
    replace (area_start area * 4096 + size <=? 0xfffffffff) with true by lia. cbn [negb].
    unfold ptr36_frame_aligned. rewrite frame_mask_mod, Hal. cbn [negb Z.eqb].
    rewrite size2frames_small by lia. unfold put_area, phys_modify. msimpl. fold a1 w1. by rewrite E.
  - intros x Hx. rewrite L' by done. cbn [area_start area_count a1].
    assert (lookup_frame (ph_get w1) x = lookup_frame (ph_get w) x) as -> by by rewrite G1.
    repeat case_decide; try done; exfalso; Z.to_euclidean_division_equations; lia.
Qed.

(** The [generic] command on a fresh area (its start accepted by [init]) wires
    exactly the bytes of the block, all zero, writable if the device is [rwm], and
    leaves every other address as it was. *)
Theorem mem_generic_maps id area size w :
  phys_wf (ph_get w) → areas (ph_get w) !! id = Some area → area_type area = MEMT_NONE →
  unused (ph_get w) id → 0 ≤ area_start area < 2 ^ 24 → 0 < size → size mod 4096 = 0 →
  area_start area * 4096 + size < PHYS_LIMIT →
  ∃ w', mem_generic id size w = Done (true, w') ∧ phys_wf (ph_get w') ∧
    ∀ x, 0 ≤ x < PHYS_LIMIT → byte_at (ph_get w') x =
      if decide (area_start area * 4096 ≤ x < area_start area * 4096 + size) then Some 0
      else byte_at (ph_get w) x.
Proof.
  intros Hwf Har Ht Hu Hs Hpos Hal Hlim.
  destruct (mem_generic_run id area size w Hwf Har Ht Hu Hs Hpos Hal Hlim) as (w' & E & Hwf' & A' & L').
  exists w'. split_and!; [done|done|]. intros x Hx. unfold byte_at. rewrite L' by done. case_decide.
  - cbn [mbind option_bind]. cbn. by rewrite A', lookup_insert_eq.
  - destruct (lookup_frame (ph_get w) x) as [f|] eqn:Ef; [|done]. cbn.
    assert (frame_area f ≠ id) as Hne.
    { unfold lookup_frame in Ef. destruct (ftl0 (ph_get w) !! ftl1_index x) as [[fs|]|] eqn:Ei; [|done..].
      by eapply Hu. }
    by rewrite A', lookup_insert_ne by done.
Qed.
End Props.

(** A second block, at 0x5000, beside the memory of [Lone]. *)
Definition fresh : physmem_area := mk_area MEMT_NONE true 5 0 None.
Definition p1 : physmem := Lone.p0 <| areas := <[4 := fresh]> (areas Lone.p0) |>.

Lemma lone_unused : unused Lone.p0 4.
Proof.
  intros i j fs f. cbn. intros [<- [= <-]]%lookup_singleton_Some. rewrite lookup_insert, lookup_singleton.
  repeat case_decide; [..|done]; by intros [= <-].
Qed.

Lemma mem_generic_maps_witness :
  ∃ w', mem_generic 4 0x2000 p1 = Done (true, w') ∧ byte_at w' 0x6fff = Some 0.
Proof.
  destruct (mem_generic_maps 4 fresh 0x2000 p1) as (w' & E & _ & Hb).
  - apply put_area_wf; [apply Lone.p0_wf|apply lone_unused|done].
  - reflexivity.
  - reflexivity.
  - exact lone_unused.
  - vm_compute. split; congruence.
  - reflexivity.
  - reflexivity.
  - reflexivity.
  - exists w'. split; [exact E|]. apply (Hb 0x6fff). vm_compute. split; congruence.
Defined.
End DMem.
