(* ===== verification/DDisk.v ===== *)
(** * The disk (src/src/device/ddisk.c)

    A disk with DMA: the guest sets a memory address and a sector number, gives
    a read or write command, and every machine cycle moves one word between the
    image and memory; after 128 words the disk clears its busy bit and raises
    its interrupt.  Image words are in host (little-endian) order.

    Printing commands ([info], [stat]) and [save] do not change state and are
    left out; [fmap] and [load] take what the host file system answers as an
    argument. *)

From stdpp Require Import strings.
From S2P Require Import Prelude PhysMem GenCpu Device DevHost.
Import PhysMem GenCpu Device.

Module DDisk.

Inductive action_e := ACTION_NONE | ACTION_READ | ACTION_WRITE.
Inductive disk_type_e := DISKT_NONE | DISKT_MEM | DISKT_FMAP.

#[export] Instance action_eq_dec : EqDecision action_e.
Proof. solve_decision. Defined.
#[export] Instance disk_type_eq_dec : EqDecision disk_type_e.
Proof. solve_decision. Defined.

Definition REGISTER_ADDR_LO : Z := 0.
Definition REGISTER_SECNO : Z := 4.
Definition REGISTER_STATUS : Z := 8.
Definition REGISTER_COMMAND : Z := 8.
Definition REGISTER_SIZE_LO : Z := 12.
Definition REGISTER_ADDR_HI : Z := 16.
Definition REGISTER_SECNO_HI : Z := 20.
Definition REGISTER_SIZE_HI : Z := 24.
Definition REGISTER_LIMIT : Z := 28.

Definition STATUS_INT : Z := 0x04.
Definition STATUS_ERROR : Z := 0x08.
Definition STATUS_BUSY : Z := 0x10.

Definition COMMAND_READ : Z := 0x01.
Definition COMMAND_WRITE : Z := 0x02.
Definition COMMAND_INT_ACK : Z := 0x04.
Definition COMMAND_MASK : Z := 0x07.

(** The block [img] points to: its length and its bytes. *)
Record image := mk_image {
  img_len : Z;
  img_bytes : Z → Z
}.

(** [img] is [None] when the pointer is [MAP_FAILED], [NULL] or unmapped. *)
Record disk_data := mk_disk {
  img : option image;
  intno : Z;
  cpuid : Z;
  uses_busy_bit : bool;
  disk_type : disk_type_e;
  addr : Z;
  size : Z;
  disk_ptr : Z;
  disk_secno : Z;
  disk_status : Z;
  disk_command : Z;
  action : action_e;
  secno : Z;
  cnt : Z;
  ig : bool;
  intrcount : Z;
  cmds_read : Z;
  cmds_write : Z;
  cmds_error : Z
}.

#[export] Instance eta_disk : Eta disk_data := λ r,
  mk_disk (img r) (intno r) (cpuid r) (uses_busy_bit r) (disk_type r) (addr r) (size r) (disk_ptr r)
    (disk_secno r) (disk_status r) (disk_command r) (action r) (secno r) (cnt r) (ig r) (intrcount r)
    (cmds_read r) (cmds_write r) (cmds_error r).
#[export] Instance set_img : SetField img := ltac:(derive_set_field).
#[export] Instance set_disk_type : SetField disk_type := ltac:(derive_set_field).
#[export] Instance set_size : SetField size := ltac:(derive_set_field).
#[export] Instance set_disk_ptr : SetField disk_ptr := ltac:(derive_set_field).
#[export] Instance set_disk_secno : SetField disk_secno := ltac:(derive_set_field).
#[export] Instance set_disk_status : SetField disk_status := ltac:(derive_set_field).
#[export] Instance set_disk_command : SetField disk_command := ltac:(derive_set_field).
#[export] Instance set_action : SetField action := ltac:(derive_set_field).
#[export] Instance set_secno : SetField secno := ltac:(derive_set_field).
#[export] Instance set_cnt : SetField cnt := ltac:(derive_set_field).
#[export] Instance set_ig : SetField ig := ltac:(derive_set_field).
#[export] Instance set_intrcount : SetField intrcount := ltac:(derive_set_field).
#[export] Instance set_cmds_read : SetField cmds_read := ltac:(derive_set_field).
#[export] Instance set_cmds_write : SetField cmds_write := ltac:(derive_set_field).
#[export] Instance set_cmds_error : SetField cmds_error := ltac:(derive_set_field).

(** ** Configuration commands *)

(** Freeing or unmapping the image leaves no block behind [img]. *)
Definition ddisk_clean_up (d : disk_data) : disk_data :=
  d <| action := ACTION_NONE |> <| disk_ptr := 0 |> <| cnt := 0 |>
    <| img := match disk_type d with DISKT_NONE => img d | _ => None end |>
    <| size := 0 |> <| disk_type := DISKT_NONE |>.

(** [sz] is the parameter; on the 64-bit host [size_t] holds it. *)
Definition ddisk_generic (sz : Z) (d : disk_data) : bool * disk_data :=
  if sz =? 0 then (false, d)
  else if negb (Z.land sz 0x1ff =? 0) then (false, d)
  else (true, (ddisk_clean_up d) <| img := Some (mk_image sz (λ _, 0)) |> <| size := sz |>
                <| disk_type := DISKT_MEM |>).

(** A host file: its size and content; [None] when it cannot be opened,
    measured or mapped. *)
Abbreviation host_file := (option image).

Definition ddisk_fmap (file : host_file) (d : disk_data) : bool * disk_data :=
  match file with
  | None => (false, d)
  | Some f =>
      let fsize := Z.land (img_len f) (c_not 64 511) in
      if img_len f =? 0 then (false, d)
      else if fsize =? 0 then (false, d)
      else (true, (ddisk_clean_up d) <| size := fsize |> <| disk_type := DISKT_FMAP |>
                    <| img := Some (mk_image fsize (img_bytes f)) |>)
  end.

(** The character of a [fill] parameter; [None] is an error. *)
Definition fill_char (parm : token) : option Z :=
  match parm with
  | tt_end => Some 0
  | tt_str (String c EmptyString) => Some (Z.of_N (Ascii.N_of_ascii c))
  | tt_str _ => None
  | tt_uint i => if 255 <? i then None else Some i
  | tt_err => None
  end.

(** [memset(data->img, c, data->size)]; nothing is written when the size is 0. *)
Definition ddisk_fill (parm : token) (d : disk_data) : outcome (bool * disk_data) :=
  match fill_char parm with
  | None => Done (false, d)
  | Some c =>
      if size d =? 0 then Done (true, d)
      else match img d with
           | Some im =>
               if size d <=? img_len im
               then Done (true, d <| img := Some (mk_image (img_len im)
                      (λ k, if (0 <=? k) && (k <? size d) then c else img_bytes im k)) |>)
               else Stop UndefinedBehaviour
           | None => Stop UndefinedBehaviour
           end
  end.

(** [rd] bytes of the file were read by [fread]. *)
Definition ddisk_load (file : host_file) (rd : Z) (d : disk_data) : outcome (bool * disk_data) :=
  if bool_decide (disk_type d = DISKT_NONE) then Done (false, d)
  else match file with
  | None => Done (false, d)
  | Some f =>
      if img_len f =? 0 then Done (false, d)
      else if size d <? img_len f then Done (false, d)
      else match img d with
           | None => Stop UndefinedBehaviour
           | Some im =>
               if img_len f <=? img_len im
               then Done (rd =? img_len f,
                      d <| img := Some (mk_image (img_len im)
                        (λ k, if (0 <=? k) && (k <? rd) then img_bytes f k else img_bytes im k)) |>)
               else Stop UndefinedBehaviour
           end
  end.

Section Ops.
Context {W F : Type} `{CpuHost W F, Slot W disk_data}.

(** [init name addr [intno cpuname]].  The memory of the structure is not
    cleared: [uninit] is what the allocation happened to hold in [cmds_error],
    the one field [init] leaves alone. *)
Definition disk_init_data (uninit base no id : Z) (busy : bool) : disk_data :=
  mk_disk None no id busy DISKT_NONE base 0 0 0 0 0 ACTION_NONE 0 0 false 0 0 0 uninit.

(** The processor a device is: the type names are compared, then the device's
    data is a registered processor. *)
Definition disk_cpu_types : list string := ["dr4kcpu"; "drvcpu"; "drv64cpu"].

Definition ddisk_irq_parms `{MachineHost W} : st (parms * W) (option (bool * Z * Z)) :=
  t ← on_parms parm_type;
  match t with
  | tt_uint _ =>
      no ← on_parms parm_uint_next;
      if MAX_INTRS <? no then mret None
      else
        t ← on_parms parm_type;
        match t with
        | tt_str _ =>
            name ← on_parms parm_str_next;
            l ← on_world (gets device_list);
            cpus ← on_world (gets ch_cpus);
            match dev_by_name name l ≫= (λ i, l !! i) with
            | None => mret None
            | Some cpu_dev =>
                if bool_decide (dt_name (dev_type cpu_dev) ∈ disk_cpu_types)
                then match list_find (λ c, data c = dev_data cpu_dev) cpus with
                     | Some (_, c) => mret (Some (false, no, cpuno c))
                     | None => stop UndefinedBehaviour
                     end
                else mret None
            end
        | _ => mret None
        end
  | _ => mret (Some (true, 0, 0))
  end.

Definition ddisk_init `{MachineHost W} (uninit : Z) : st (parms * W) bool :=
  on_parms parm_next;;
  base ← on_parms parm_uint_next;
  if negb (register_block_ok base REGISTER_LIMIT) then mret false
  else
    irq ← ddisk_irq_parms;
    match irq with
    | None => mret false
    | Some (busy, no, id) =>
        on_world (modify (slot_set (disk_init_data uninit base no id busy)));; mret true
    end.

(** ** Registers *)
Definition ddisk_read32 (procno a : Z) : st W (option Z) :=
  d ← dev;
  if bool_decide (disk_type d = DISKT_NONE) then mret None
  else
    let off := reg_offset a (addr d) in
    mret (if off =? REGISTER_ADDR_LO then Some (Z.land (disk_ptr d) 0xffffffff)
          else if off =? REGISTER_ADDR_HI then Some (wrap 32 (Z.shiftr (disk_ptr d) 32))
          else if off =? REGISTER_SECNO then Some (disk_secno d)
          else if off =? REGISTER_SECNO_HI then Some 0
          else if off =? REGISTER_STATUS then Some (disk_status d)
          else if off =? REGISTER_SIZE_LO then Some (Z.land (size d) 0xffffffff)
          else if off =? REGISTER_SIZE_HI then Some (wrap 32 (Z.shiftr (size d) 32))
          else None).

(** [disk_status |= STATUS_INT; cpu_interrupt_up(...); ig = true; intrcount++]
    unless the disk is polled. *)
Definition disk_raise : st W unit :=
  d ← dev;
  if uses_busy_bit d then mret tt
  else
    dev_modify (λ d, d <| disk_status := Z.lor (disk_status d) STATUS_INT |>);;
    raise_on (cpuid d) (intno d);;
    dev_modify (λ d, d <| ig := true |> <| intrcount := wrap 64 (intrcount d + 1) |>).

(** The block of an illegal command. *)
Definition disk_command_error : st W unit :=
  dev_modify (λ d, d <| disk_status := STATUS_ERROR |>);;
  disk_raise;;
  dev_modify (λ d, d <| cmds_error := wrap 64 (cmds_error d + 1) |>).

(** The block that starts a transfer. *)
Definition start_action (act : action_e) (d : disk_data) : disk_data :=
  d <| action := act |> <| cnt := 0 |> <| secno := disk_secno d |>
    <| disk_status := Z.lor (disk_status d) STATUS_BUSY |>.

Definition disk_command_write (val : Z) : st W unit :=
  dev_modify (λ d, d <| disk_command := Z.land val COMMAND_MASK |>);;
  let command := Z.land val COMMAND_MASK in
  let has (bit : Z) := truthy (Z.land command bit) in
  (if has COMMAND_INT_ACK then
     dev_modify (λ d, d <| disk_status := Z.land (disk_status d) (c_not 32 STATUS_INT) |>
                        <| ig := false |>);;
     d ← dev;
     if uses_busy_bit d then mret tt else lower_on (cpuid d) (intno d)
   else mret tt);;
  d ← dev;
  if has COMMAND_READ && has COMMAND_WRITE then disk_command_error
  else if (has COMMAND_READ || has COMMAND_WRITE) && negb (bool_decide (action d = ACTION_NONE))
  then disk_command_error
  else if size d <? wrap 64 ((disk_secno d + 1) * 512) then disk_command_error
  else
    (if has COMMAND_READ
     then dev_modify (λ d, (start_action ACTION_READ d) <| cmds_read := wrap 64 (cmds_read d + 1) |>)
     else mret tt);;
    (if has COMMAND_WRITE
     then dev_modify (λ d, (start_action ACTION_WRITE d) <| cmds_write := wrap 64 (cmds_write d + 1) |>)
     else mret tt).

Definition ddisk_write32 (procno a val : Z) : st W unit :=
  d ← dev;
  if bool_decide (disk_type d = DISKT_NONE) then mret tt
  else
    let off := reg_offset a (addr d) in
    if off =? REGISTER_ADDR_LO then
      dev_modify (λ d, d <| disk_ptr := Z.lor (Z.land (disk_ptr d) (c_not 64 0xffffffff)) val |>)
    else if off =? REGISTER_ADDR_HI then
      dev_modify (λ d, d <| disk_ptr := Z.lor (Z.land (disk_ptr d) 0xffffffff) (Z.shiftl val 32) |>)
    else if off =? REGISTER_SECNO then dev_modify (λ d, d <| disk_secno := val |>)
    else if off =? REGISTER_COMMAND then disk_command_write val
    else mret tt.

(** ** One machine cycle *)

(** [data->img[pos]]: the bounds of the block are those of the allocation. *)
Definition img_read (pos : Z) : st W Z :=
  d ← dev;
  match img d with
  | Some im => c_defined ((0 <=? pos) && (4 * pos + 4 <=? img_len im));;
               mret (le_join (img_bytes im) (4 * pos) 4)
  | None => stop UndefinedBehaviour
  end.

Definition put_word (im : image) (pos val : Z) : image :=
  mk_image (img_len im) (λ x, if (4 * pos <=? x) && (x <? 4 * pos + 4)
                              then le_byte val (x - 4 * pos) else img_bytes im x).

Definition img_write (pos val : Z) : st W unit :=
  d ← dev;
  match img d with
  | Some im => c_defined ((0 <=? pos) && (4 * pos + 4 <=? img_len im));;
               dev_modify (λ d, d <| img := Some (put_word im pos val) |>)
  | None => stop UndefinedBehaviour
  end.

Definition next_word : st W unit :=
  dev_modify (λ d, d <| disk_ptr := wrap 64 (disk_ptr d + 4) |> <| cnt := wrap 64 (cnt d + 1) |>).

Definition finish_transfer : st W unit :=
  d ← dev;
  if cnt d =? 128 then
    dev_modify (λ d, d <| action := ACTION_NONE |>
                       <| disk_status := Z.land (disk_status d) (c_not 32 STATUS_BUSY) |>);;
    disk_raise
  else mret tt.

(** The accesses pass -1 as the processor number. *)
Definition NO_CPU : Z := 0xffffffff.

Definition ddisk_step `{PhysHost W} : st W unit :=
  d ← dev;
  let pos := wrap 64 (secno d * 128 + cnt d) in
  match action d with
  | ACTION_READ =>
      v ← img_read pos;
      physmem_write32 NO_CPU (disk_ptr d) v true;;
      next_word;;
      finish_transfer
  | ACTION_WRITE =>
      v ← physmem_read32 NO_CPU (disk_ptr d) true;
      img_write pos v;;
      next_word;;
      finish_transfer
  | ACTION_NONE => mret tt
  end.

Definition ddisk_mem : device_ops W :=
  mk_device None None (Some ddisk_read32) None None None (Some ddisk_write32) None.
End Ops.
End DDisk.
