(* ===== verification/DDevices.v ===== *)
(** * Small devices

    The keyboard (dkeyboard.c): a one-character buffer that raises an interrupt when
    a key arrives and cancels it when the register is read; [char] is a signed 8-bit
    type on the host.  The printer (dprinter.c), whose characters are kept with
    their destination; absent memory (dnomem.c), a range of addresses whose accesses
    are reported, stop the simulation or halt it; inter-processor interrupts
    (dorder.c); the cycle counter (dcycle.c) and the real-time clock (dtime.c), whose
    reading is an argument.  Commands that only print are left out. *)

From stdpp Require Import strings.
From S2P Require Import Prelude PhysMem GenCpu Device DevHost.
Import PhysMem GenCpu Device.

Module Keyboard.
Definition REGISTER_CHAR : Z := 0.
Definition REGISTER_LIMIT : Z := 4.

Record keyboard_data := mk_keyboard {
  addr : Z;
  intno : Z;
  incomming : Z;
  ig : bool;
  intrcount : Z;
  keycount : Z;
  overrun : Z
}.

#[export] Instance eta_keyboard : Eta keyboard_data := λ r,
  mk_keyboard (addr r) (intno r) (incomming r) (ig r) (intrcount r) (keycount r) (overrun r).
#[export] Instance set_incomming : SetField incomming := ltac:(derive_set_field).
#[export] Instance set_ig : SetField ig := ltac:(derive_set_field).
#[export] Instance set_intrcount : SetField intrcount := ltac:(derive_set_field).
#[export] Instance set_keycount : SetField keycount := ltac:(derive_set_field).
#[export] Instance set_overrun : SetField overrun := ltac:(derive_set_field).

Section Ops.
Context {W F : Type} `{CpuHost W F, Slot W keyboard_data}.

(** [cpu_interrupt_up(NULL, no)] goes to the fallback processor. *)
Definition gen_key (c : Z) : st W unit :=
  dev_modify (λ d, d <| incomming := c |> <| keycount := wrap 64 (keycount d + 1) |>);;
  d ← dev;
  if negb (ig d) then
    dev_modify (λ d, d <| ig := true |> <| intrcount := wrap 64 (intrcount d + 1) |>);;
    cpu_interrupt_up None (intno d)
  else dev_modify (λ d, d <| overrun := wrap 64 (overrun d + 1) |>).

(** [uninit] is the content of the buffer that [init] does not set. *)
Definition dkeyboard_init (uninit : Z) : st (parms * W) bool :=
  on_parms parm_next;;
  base ← on_parms parm_uint_next;
  no ← on_parms parm_uint_next;
  if negb (register_block_ok base REGISTER_LIMIT) then mret false
  else if MAX_INTRS <? no then mret false
  else on_world (modify (slot_set (mk_keyboard base no uninit false 0 0 0)));; mret true.

(** The key of a [gen] command: [None] is an error. *)
Definition gen_char (t : token) : option Z :=
  match t with
  | tt_end => Some 0
  | tt_str (String c EmptyString) => Some (sgn 8 (Z.of_N (Ascii.N_of_ascii c)))
  | tt_str _ => None
  | tt_uint i => if 255 <? i then None else Some (sgn 8 i)
  | tt_err => None
  end.

Definition dkeyboard_gen : st (parms * W) bool :=
  t ← on_parms parm_type;
  match gen_char t with
  | None => mret false
  | Some c => on_world (gen_key c);; mret true
  end.

Definition keyboard_read32 (procno a : Z) : st W (option Z) :=
  d ← dev;
  if reg_offset a (addr d) =? REGISTER_CHAR then
    dev_modify (λ d, d <| incomming := 0 |>);;
    (if ig d then dev_modify (λ d, d <| ig := false |>);; cpu_interrupt_down None (intno d)
     else mret tt);;
    mret (Some (wrap 32 (incomming d)))
  else mret None.

(** [key] is what [stdin_poll] delivers. *)
Definition keyboard_step4k (key : option Z) : st W unit :=
  match key with Some c => gen_key c | None => mret tt end.
End Ops.
End Keyboard.

Module Printer.
Definition REGISTER_CHAR : Z := 0.
Definition REGISTER_LIMIT : Z := 4.

(** [fname] is [None] for [stdout]; [output] is what was printed so far, with
    its destination, last character first. *)
Record printer_data := mk_printer {
  addr : Z;
  fname : option string;
  count : Z;
  endianness : bool;
  output : list (option string * Z)
}.

#[export] Instance eta_printer : Eta printer_data := λ r,
  mk_printer (addr r) (fname r) (count r) (endianness r) (output r).
#[export] Instance set_fname : SetField fname := ltac:(derive_set_field).
#[export] Instance set_count : SetField count := ltac:(derive_set_field).
#[export] Instance set_endianness : SetField endianness := ltac:(derive_set_field).
#[export] Instance set_output : SetField output := ltac:(derive_set_field).

Section Ops.
Context {W : Type} `{Slot W printer_data}.

Definition dprinter_init : st (parms * W) bool :=
  on_parms parm_next;;
  base ← on_parms parm_uint;
  if negb (register_block_ok base REGISTER_LIMIT) then mret false
  else on_world (modify (slot_set (mk_printer base None 0 true [])));; mret true.

(** [opened] tells whether the file could be opened. *)
Definition dprinter_redir (opened : bool) : st (parms * W) bool :=
  name ← on_parms parm_str;
  if negb opened then mret false
  else on_world (dev_modify (λ d, d <| fname := Some name |>));; mret true.

Definition dprinter_stdout : st W bool := dev_modify (λ d, d <| fname := None |>);; mret true.

Definition dprinter_endian : st (parms * W) bool :=
  s ← on_parms parm_str;
  on_world (dev_modify (λ d, d <| endianness := negb (bool_decide (s = "big")) |>));; mret true.

(** [fprintf(data->file, "%c", (char) value); data->count++] *)
Definition print_char (value : Z) (d : printer_data) : printer_data :=
  d <| output := (fname d, wrap 8 value) :: output d |> <| count := wrap 64 (count d + 1) |>.

Definition printer_write8 (procno a val : Z) : st W unit :=
  d ← dev;
  if reg_offset a (addr d) =? REGISTER_CHAR then dev_modify (print_char val) else mret tt.

Definition printer_write16 (procno a val : Z) : st W unit :=
  d ← dev;
  let value := if endianness d then val else be16toh val in
  if reg_offset a (addr d) =? REGISTER_CHAR then dev_modify (print_char value) else mret tt.

Definition printer_write32 (procno a val : Z) : st W unit :=
  d ← dev;
  let value := if endianness d then val else be32toh val in
  if reg_offset a (addr d) =? REGISTER_CHAR then dev_modify (print_char value) else mret tt.
End Ops.
End Printer.

Module Nomem.
Inductive access_mode := access_mode_warn | access_mode_break | access_mode_halt.

Record dnomem_data := mk_nomem {
  addr : Z;
  size : Z;
  register_dump : bool;
  mode : access_mode
}.

#[export] Instance eta_nomem : Eta dnomem_data := λ r,
  mk_nomem (addr r) (size r) (register_dump r) (mode r).
#[export] Instance set_register_dump : SetField register_dump := ltac:(derive_set_field).
#[export] Instance set_mode : SetField mode := ltac:(derive_set_field).

(** The globals [machine_interactive] and [machine_halt] of main.c. *)
Class MachineFlags (W : Type) := {
  set_interactive : W → W;
  set_halt : W → W
}.

Section Ops.
Context {W F : Type} `{CpuHost W F, Slot W dnomem_data, MachineFlags W}.

Definition dnomem_init : st (parms * W) bool :=
  on_parms parm_next;;
  start_addr ← on_parms parm_uint_next;
  size ← on_parms parm_uint_next;
  if negb (register_block_ok start_addr size) then mret false
  else on_world (modify (slot_set (mk_nomem start_addr size false access_mode_warn)));; mret true.

Definition dnomem_setmode : st (parms * W) bool :=
  m ← on_parms parm_str;
  let set v := on_world (dev_modify (λ d, d <| mode := v |>));; mret true in
  if bool_decide (m = "warn") then set access_mode_warn
  else if bool_decide (m = "break") then set access_mode_break
  else if bool_decide (m = "halt") then set access_mode_halt
  else mret false.

Definition dnomem_setrd : st (parms * W) bool :=
  s ← on_parms parm_str;
  let set v := on_world (dev_modify (λ d, d <| register_dump := v |>));; mret true in
  if bool_decide (s = "yes") then set true
  else if bool_decide (s = "no") then set false
  else mret false.

(** The reaction of the mode; the message of [alert] is not modelled. *)
Definition access32 (m : access_mode) : st W unit :=
  match m with
  | access_mode_warn => mret tt
  | access_mode_break => modify set_interactive
  | access_mode_halt => modify set_halt
  end.

Definition dnomem_access32 (procno a : Z) : st W unit :=
  d ← dev;
  if size d <=? reg_offset a (addr d) then mret tt
  else
    (if register_dump d then
       causing_cpu ← find_cpu procno;
       c_assert (bool_decide (is_Some causing_cpu));;
       cpu_reg_dump causing_cpu
     else mret tt);;
    access32 (mode d).

Definition dnomem_read32 (procno a : Z) : st W (option Z) := dnomem_access32 procno a;; mret None.
Definition dnomem_write32 (procno a val : Z) : st W unit := dnomem_access32 procno a.
End Ops.
End Nomem.

Module Order.
Definition REGISTER_INT_UP : Z := 0.
Definition REGISTER_INT_PEND : Z := 0.
Definition REGISTER_INT_DOWN : Z := 4.
Definition REGISTER_LIMIT : Z := 8.

Record dorder_data := mk_order {
  addr : Z;
  intno : Z;
  cmds : Z
}.

#[export] Instance eta_order : Eta dorder_data := λ r, mk_order (addr r) (intno r) (cmds r).
#[export] Instance set_cmds : SetField cmds := ltac:(derive_set_field).

Section Ops.
Context {W F : Type} `{CpuHost W F, Slot W dorder_data}.

(** [for (i = 0; i < 32; i++, val >>= 1) if (val & 1) action(i);] *)
Fixpoint for_bits (n : nat) (i val : Z) (act : Z → st W unit) : st W unit :=
  match n with
  | O => mret tt
  | S n' =>
      (if truthy (Z.land val 1) then act i else mret tt);;
      for_bits n' (i + 1) (Z.shiftr val 1) act
  end.

Definition sync_up_write (val : Z) : st W unit :=
  dev_modify (λ d, d <| cmds := wrap 64 (cmds d + 1) |>);;
  d ← dev;
  for_bits 32 0 val (λ i, raise_on i (intno d)).

Definition sync_down_write (val : Z) : st W unit :=
  dev_modify (λ d, d <| cmds := wrap 64 (cmds d + 1) |>);;
  d ← dev;
  for_bits 32 0 val (λ i, lower_on i (intno d)).

Definition dorder_init : st (parms * W) bool :=
  on_parms parm_next;;
  base ← on_parms parm_uint_next;
  no ← on_parms parm_uint_next;
  if negb (register_block_ok base REGISTER_LIMIT) then mret false
  else if MAX_INTRS <? no then mret false
  else on_world (modify (slot_set (mk_order base no 0)));; mret true.

(** The parameter is truncated to the 32-bit argument. *)
Definition dorder_synchup : st (parms * W) bool :=
  v ← on_parms parm_uint; on_world (sync_up_write (wrap 32 v));; mret true.
Definition dorder_synchdown : st (parms * W) bool :=
  v ← on_parms parm_uint; on_world (sync_down_write (wrap 32 v));; mret true.

Definition dorder_read32 (procno a : Z) : st W (option Z) :=
  d ← dev;
  let off := reg_offset a (addr d) in
  mret (if off =? REGISTER_INT_PEND then Some procno
        else if off =? REGISTER_INT_DOWN then Some 0 else None).

Definition dorder_write32 (procno a val : Z) : st W unit :=
  d ← dev;
  let off := reg_offset a (addr d) in
  if off =? REGISTER_INT_UP then sync_up_write val
  else if off =? REGISTER_INT_DOWN then sync_down_write val
  else mret tt.
End Ops.
End Order.

Module Cycle.
Definition REGISTER_CYCLE_LO : Z := 0.
Definition REGISTER_CYCLE_HI : Z := 4.
Definition REGISTER_LIMIT : Z := 8.

Record dcycle_data := mk_cycle {
  addr : Z;
  cycle : Z
}.

Section Ops.
Context {W : Type} `{Slot W dcycle_data}.

Definition dcycle_init : st (parms * W) bool :=
  on_parms parm_next;;
  base ← on_parms parm_uint;
  if negb (register_block_ok base REGISTER_LIMIT) then mret false
  else on_world (modify (slot_set (mk_cycle base 0)));; mret true.

Definition dcycle_read32 (procno a : Z) : st W (option Z) :=
  d ← dev;
  let off := reg_offset a (addr d) in
  mret (if off =? REGISTER_CYCLE_LO then Some (wrap 32 (cycle d))
        else if off =? REGISTER_CYCLE_HI then Some (wrap 32 (Z.shiftr (cycle d) 32)) else None).

Definition dcycle_read64 (procno a : Z) : st W (option Z) :=
  d ← dev;
  mret (if reg_offset a (addr d) =? REGISTER_CYCLE_LO then Some (cycle d) else None).

Definition dcycle_step : st W unit :=
  dev_modify (λ d, mk_cycle (addr d) (wrap 64 (cycle d + 1))).
End Ops.
End Cycle.

Module Time.
Definition REGISTER_SEC : Z := 0.
Definition REGISTER_USEC : Z := 4.
Definition REGISTER_LIMIT : Z := 8.

Record dtime_data := mk_time { addr : Z }.

Section Ops.
Context {W : Type} `{Slot W dtime_data}.

Definition dtime_init : st (parms * W) bool :=
  on_parms parm_next;;
  base ← on_parms parm_uint;
  if negb (register_block_ok base REGISTER_LIMIT) then mret false
  else on_world (modify (slot_set (mk_time base)));; mret true.

Definition dtime_read32 (gettimeofday : Z * Z) (procno a : Z) : st W (option Z) :=
  d ← dev;
  let off := reg_offset a (addr d) in
  mret (if off =? REGISTER_SEC then Some (wrap 32 gettimeofday.1)
        else if off =? REGISTER_USEC then Some (wrap 32 gettimeofday.2) else None).

(** The fields of the local [timeval] are copied before [gettimeofday] fills
    it: reading the indeterminate structure is undefined, at every address. *)
Definition dtime_read64 (gettimeofday : Z * Z) (procno a : Z) : st W (option Z) :=
  d ← dev;
  stop UndefinedBehaviour.
End Ops.
End Time.
