(* ===== verification/Lcd.v ===== *)
(** * The LCD display (src/src/device/dlcd.c)

    A character display with a data and a control register.  A falling edge of
    the enable bit executes the byte in the data register: a character at the
    cursor, or a command (clear, home, set cursor).  Drawing the display on the
    terminal is not modelled. *)

From stdpp Require Import strings.
From S2P Require Import Prelude PhysMem GenCpu Device DevHost.
Import PhysMem GenCpu Device.

Module Lcd.

Definition REGISTER_DATA : Z := 0.
Definition REGISTER_CONTROL : Z := 1.
Definition REGISTER_LIMIT : Z := 4.
Definition LCD_MAX_ROWS : Z := 4.
Definition LCD_MAX_COLS : Z := 40.
Definition row_addr_map : list Z := [0x00; 0x40; 0x14; 0x54].

(** The fields of the register union (bits 0, 1, 2 and 8 to 15). *)
Record lcd_reg := mk_reg {
  rs : bool;
  rw : bool;
  e : bool;
  rdata : Z
}.

Record lcd_data := mk_lcd {
  rows : Z;
  cols : Z;
  current_row : Z;
  current_col : Z;
  reg : lcd_reg;
  reg_prev : lcd_reg;
  buffer : list Z;
  addr : Z
}.

#[export] Instance eta_lcd : Eta lcd_data := λ r,
  mk_lcd (rows r) (cols r) (current_row r) (current_col r) (reg r) (reg_prev r) (buffer r) (addr r).
#[export] Instance set_current_row : SetField current_row := ltac:(derive_set_field).
#[export] Instance set_current_col : SetField current_col := ltac:(derive_set_field).
#[export] Instance set_reg : SetField reg := ltac:(derive_set_field).
#[export] Instance set_reg_prev : SetField reg_prev := ltac:(derive_set_field).
#[export] Instance set_buffer : SetField buffer := ltac:(derive_set_field).

(** The data of a new display; [r] and [rp] are what the allocation held. *)
Definition new_lcd (r rp : lcd_reg) (rows cols addr : Z) : lcd_data :=
  mk_lcd rows cols 0 0 r rp (replicate (Z.to_nat (rows * cols)) 0) addr.

Definition dlcd_init {W} `{Slot W lcd_data} (r rp : lcd_reg) : st (parms * W) bool :=
  on_parms parm_next;;
  cols ← on_parms parm_uint;
  if LCD_MAX_COLS <? cols then mret false
  else
    on_parms parm_next;;
    rows ← on_parms parm_uint;
    if LCD_MAX_ROWS <? rows then mret false
    else
      on_parms parm_next;;
      base ← on_parms parm_uint;
      if negb (phys_range base) then mret false
      else if negb (phys_range (wrap 64 (base + REGISTER_LIMIT))) then mret false
      else on_world (modify (slot_set (new_lcd r rp rows cols base)));; mret true.

(** ** Operations on the data of the display *)

(** The loop over the rows, from row [i] on. *)
Fixpoint find_row (n : nat) (i : Z) (ncols ddram : Z) : option (Z * Z) :=
  match n with
  | O => None
  | S n' =>
      let base := default 0 (row_addr_map !! Z.to_nat i) in
      if (base <=? ddram) && (ddram <? base + LCD_MAX_COLS)
      then let col := ddram - base in Some (i, if ncols <=? col then ncols - 1 else col)
      else find_row n' (i + 1) ncols ddram
  end.

Definition ddram_addr_to_position (ddram : Z) (d : lcd_data) : option (Z * Z) :=
  find_row (Z.to_nat (rows d)) 0 (cols d) ddram.

Definition lcd_set_cursor (ddram : Z) (d : lcd_data) : lcd_data :=
  match ddram_addr_to_position ddram d with
  | Some (row, col) => d <| current_row := row |> <| current_col := col |>
  | None => d
  end.

(** A character at the cursor; the remainder by zero and an index outside the
    buffer are undefined. *)
Definition lcd_put (d : lcd_data) : outcome lcd_data :=
  if cols d <=? current_col d then Done d
  else
    let pos := current_row d * cols d + current_col d in
    if (0 <=? pos) && (pos <? Z.of_nat (length (buffer d))) then
      let d := d <| buffer := <[Z.to_nat pos := rdata (reg d)]> (buffer d) |>
                 <| current_col := current_col d + 1 |> in
      if cols d <=? current_col d then
        if rows d =? 0 then Stop UndefinedBehaviour
        else Done (d <| current_col := 0 |>
                     <| current_row := Z.rem (current_row d + 1) (rows d) |>)
      else Done d
    else Stop UndefinedBehaviour.

Definition lcd_command (d : lcd_data) : outcome lcd_data :=
  let c := rdata (reg d) in
  if c =? 0x01 then
    if rows d * cols d <=? Z.of_nat (length (buffer d))
    then Done (d <| buffer := replicate (Z.to_nat (rows d * cols d)) 0
                             ++ drop (Z.to_nat (rows d * cols d)) (buffer d) |>
                 <| current_row := 0 |> <| current_col := 0 |>)
    else Stop UndefinedBehaviour
  else if c =? 0x02 then Done (d <| current_row := 0 |> <| current_col := 0 |>)
  else if Z.land c 0x80 =? 0x80 then Done (lcd_set_cursor (Z.land c 0x7F) d)
  else Done d.

Definition control_write (val : Z) (d : lcd_data) : outcome lcd_data :=
  let prev := reg d in
  let new := mk_reg (Z.testbit val 0) (Z.testbit val 1) (Z.testbit val 2) (rdata prev) in
  let d := d <| reg_prev := prev |> <| reg := new |> in
  if e prev && negb (e new) then
    if rw new then Done d else if rs new then lcd_put d else lcd_command d
  else Done d.

Definition lcd_write (off val : Z) (d : lcd_data) : outcome lcd_data :=
  if off =? REGISTER_DATA
  then Done (d <| reg := mk_reg (rs (reg d)) (rw (reg d)) (e (reg d)) (wrap 8 val) |>)
  else if off =? REGISTER_CONTROL then control_write val d
  else Done d.

Definition lcd_write32 {W} `{Slot W lcd_data} (procno a val : Z) : st W unit := λ w,
  let d := slot_get w in
  match lcd_write (reg_offset a (addr d)) val d with
  | Done d' => Done (tt, slot_set d' w)
  | Stop f => Stop f
  end.

(** ** The cursor stays on the display

    The invariant of a display that has at least one row and one column, which
    [dlcd_init] does not check. *)
Record lcd_wf (d : lcd_data) : Prop := {
  wf_rows : 1 ≤ rows d ≤ LCD_MAX_ROWS;
  wf_cols : 1 ≤ cols d ≤ LCD_MAX_COLS;
  wf_row : 0 ≤ current_row d < rows d;
  wf_col : 0 ≤ current_col d < cols d;
  wf_buffer : Z.of_nat (length (buffer d)) = rows d * cols d
}.

Lemma find_row_bounds n i ncols ddram row col :
  1 ≤ ncols → find_row n i ncols ddram = Some (row, col) →
  i ≤ row < i + Z.of_nat n ∧ 0 ≤ col < ncols.
Proof.
  intros Hc. revert i. induction n as [|n IH]; intros i; cbn [find_row]; [done|].
  destruct (_ && _) eqn:E; [|intros ?%IH; lia]. intros [= <- <-]. destruct (Z.leb_spec ncols (ddram - default 0 (row_addr_map !! Z.to_nat i))); lia.
Qed.

(** The position of the cursor in the buffer. *)
Definition cursor (d : lcd_data) : Z := current_row d * cols d + current_col d.

Lemma cursor_bounds d : lcd_wf d → 0 ≤ cursor d < rows d * cols d.
Proof. intros [Hr Hc Hrow Hcol _]. unfold cursor. nia. Qed.

(** A character goes to the cursor, which moves on by one, around the display. *)
Lemma lcd_put_run d : lcd_wf d →
  ∃ d', lcd_put d = Done d' ∧ lcd_wf d' ∧
    buffer d' = <[Z.to_nat (cursor d) := rdata (reg d)]> (buffer d) ∧
    cursor d' = (cursor d + 1) mod (rows d * cols d) ∧
    reg d' = reg d ∧ rows d' = rows d ∧ cols d' = cols d.
Proof.
  intros Hwf. pose proof (cursor_bounds d Hwf) as Hcur. destruct Hwf as [Hr Hc Hrow Hcol Hbuf].
  unfold lcd_put. replace (cols d <=? current_col d) with false by lia. fold (cursor d).
  replace ((0 <=? cursor d) && (cursor d <? Z.of_nat (length (buffer d)))) with true by lia. cbn.
  destruct (Z.leb_spec (cols d) (current_col d + 1)).
  - replace (rows d =? 0) with false by lia. eexists. split; [done|].
    rewrite Z.rem_mod_nonneg by lia. unfold cursor. cbn.
    assert (0 ≤ (current_row d + 1) mod rows d < rows d) by (apply Z.mod_pos_bound; lia).
    split; [split; cbn; rewrite ?length_insert; lia|]. split_and!; [done| |done..].
    assert (current_col d + 1 = cols d) as Ec by lia.
    replace (current_row d * cols d + current_col d + 1) with ((current_row d + 1) * cols d) by lia.
    rewrite Z.mul_mod_distr_r by lia. lia.
  - eexists. split; [done|]. split; [split; cbn; rewrite ?length_insert; lia|].
    split_and!; [done| |done..]. unfold cursor in *. cbn. symmetry. rewrite Z.add_assoc. apply Z.mod_small.
    nia.
Qed.

Lemma lcd_command_run d : lcd_wf d →
  ∃ d', lcd_command d = Done d' ∧ lcd_wf d' ∧ reg d' = reg d.
Proof.
  intros Hwf. pose proof Hwf as [Hr Hc Hrow Hcol Hbuf]. unfold lcd_command. cbv zeta. destruct (_ =? 1).
  { replace (_ <=? _) with true by lia. eexists. split; [done|]. split; [|done]. split; cbn; try lia.
    rewrite length_app, length_replicate, length_drop. lia. }
  destruct (_ =? 2); [eexists; split; [done|]; split; [|done]; by split; cbn; try lia|].
  destruct (_ =? 128); [|by exists d]. eexists. split; [done|].
  unfold lcd_set_cursor, ddram_addr_to_position.
  destruct (find_row _ _ _ _) as [[row col]|] eqn:E; [|done]. apply find_row_bounds in E as [H1 H2]; [|lia].
  split; [|done]. split; cbn; lia.
Qed.

Lemma set_reg_wf d r : lcd_wf d → lcd_wf (d <| reg := r |>).
Proof. intros []. by split. Qed.
Lemma set_prev_wf d r : lcd_wf d → lcd_wf (d <| reg_prev := r |>).
Proof. intros []. by split. Qed.

Lemma lcd_write_wf off val d : lcd_wf d → ∃ d', lcd_write off val d = Done d' ∧ lcd_wf d'.
Proof.
  intros Hwf. unfold lcd_write. destruct (off =? _); [eexists; split; [done|]; by apply set_reg_wf|].
  destruct (off =? _); [|by exists d]. unfold control_write. cbv zeta.
  set (new := mk_reg _ _ _ _). assert (lcd_wf (d <| reg_prev := reg d |> <| reg := new |>)) as Hwf'
    by by apply set_reg_wf, set_prev_wf.
  destruct (_ && _); [|by eexists]. destruct (rw new); [by eexists|]. destruct (rs new).
  - destruct (lcd_put_run _ Hwf') as (d' & E & H' & _). by exists d'.
  - destruct (lcd_command_run _ Hwf') as (d' & E & H' & _). by exists d'.
Qed.

(** Any sequence of register writes. *)
Fixpoint lcd_writes (l : list (Z * Z)) (d : lcd_data) : outcome lcd_data :=
  match l with
  | [] => Done d
  | (off, val) :: l' => match lcd_write off val d with Done d' => lcd_writes l' d' | Stop f => Stop f end
  end.

Lemma lcd_writes_app l1 l2 d d' : lcd_writes l1 d = Done d' → lcd_writes (l1 ++ l2) d = lcd_writes l2 d'.
Proof.
  revert d. induction l1 as [|[off val] l1 IH]; intros d; cbn; [by intros [= <-]|].
  destruct (lcd_write off val d); [apply IH|done].
Qed.

(** ** Printing text *)

(** The register writes that print a character: the data byte, then a falling
    edge of the enable bit with the data register selected. *)
Definition print_char (c : Z) : list (Z * Z) :=
  [(REGISTER_DATA, c); (REGISTER_CONTROL, 0x05); (REGISTER_CONTROL, 0x01)].
Definition print_text (cs : list Z) : list (Z * Z) := flat_map print_char cs.

Lemma print_char_run c d : in_width 8 c → lcd_wf d → e (reg d) = false →
  ∃ d', lcd_writes (print_char c) d = Done d' ∧ lcd_wf d' ∧ e (reg d') = false ∧
    rows d' = rows d ∧ cols d' = cols d ∧
    buffer d' = <[Z.to_nat (cursor d) := c]> (buffer d) ∧
    cursor d' = (cursor d + 1) mod (rows d * cols d).
Proof.
  intros Hc Hwf He. cbn -[lcd_put wrap]. rewrite He. cbn -[lcd_put wrap]. rewrite (wrap_small 8 c Hc).
  match goal with |- context [lcd_put ?x] => set (d1 := x) end.
  assert (lcd_wf d1) as Hwf1 by (unfold d1; by repeat first [apply set_reg_wf | apply set_prev_wf]).
  destruct (lcd_put_run d1 Hwf1) as (d' & E & H1 & H2 & H3 & H4 & H5 & H6). rewrite E. exists d'.
  rewrite H4, H5, H6. by split_and!.
Qed.

Lemma print_text_run cs d : Forall (in_width 8) cs → lcd_wf d → e (reg d) = false →
  cursor d + Z.of_nat (length cs) ≤ rows d * cols d →
  ∃ d', lcd_writes (print_text cs) d = Done d' ∧ lcd_wf d' ∧
    buffer d' = take (Z.to_nat (cursor d)) (buffer d) ++ cs ++
      drop (Z.to_nat (cursor d) + length cs) (buffer d).
Proof.
  intros Hcs. revert d. induction Hcs as [|c cs Hc Hcs IH]; intros d Hwf He Hlen.
  - exists d. split_and!; [done|done|]. cbn [length app].
    by rewrite Nat.add_0_r, take_drop.
  - pose proof (cursor_bounds d Hwf) as Hcur. pose proof (wf_buffer d Hwf) as Hb.
    destruct (print_char_run c d Hc Hwf He) as (d1 & E1 & Hwf1 & He1 & Er & Ecl & Eb & Ecur).
    change (print_text (c :: cs)) with (print_char c ++ print_text cs).
    rewrite (lcd_writes_app (print_char c) (print_text cs) d d1 E1). cbn [length app] in *.
    assert (cs = [] ∨ cursor d1 = cursor d + 1) as [-> | E2].
    { destruct (Z.eq_dec (cursor d + 1) (rows d * cols d)) as [Eq|Hne].
      - left. destruct cs; [done|]. cbn in Hlen. lia.
      - right. rewrite Ecur. apply Z.mod_small. lia. }
    + exists d1. split_and!; [done|done|]. rewrite Eb. cbn [length app].
      rewrite insert_take_drop by lia. by rewrite Nat.add_1_r.
    + destruct (IH d1 Hwf1 He1) as (d' & E' & Hwf' & Eb'); [rewrite E2, Er, Ecl; lia|].
      exists d'. split_and!; [done|done|]. rewrite Eb', E2, Eb.
      replace (Z.to_nat (cursor d + 1)) with (S (Z.to_nat (cursor d))) by lia.
      rewrite (insert_take_drop (buffer d)) by lia.
      rewrite take_app_ge, drop_app_ge by (rewrite length_take; lia).
      rewrite length_take, Nat.min_l by lia.
      replace (S (Z.to_nat (cursor d)) - Z.to_nat (cursor d))%nat with 1%nat by lia.
      replace (S (Z.to_nat (cursor d)) + length cs - Z.to_nat (cursor d))%nat with (S (length cs)) by lia.
      cbn [take drop]. rewrite drop_drop, <- app_assoc. cbn [app].
      replace (S (Z.to_nat (cursor d)) + length cs)%nat with (Z.to_nat (cursor d) + S (length cs))%nat by lia.
      done.
Qed.

(** ** Properties *)

(** C40: On a display with at least one row and at least one column (the
    configuration accepts displays without, see [lcd_no_rows] and
    [lcd_no_columns]), every sequence of register writes returns: the cursor stays on the display and no access leaves the
    character buffer. *)
Theorem lcd_in_bounds l d : lcd_wf d → ∃ d', lcd_writes l d = Done d' ∧ lcd_wf d'.
Proof.
  revert d. induction l as [|[off val] l IH]; intros d Hwf; cbn [lcd_writes]; [by exists d|].
  destruct (lcd_write_wf off val d Hwf) as (d1 & -> & Hwf1). by apply IH.
Qed.

Definition blank : lcd_reg := mk_reg false false false 0.

Lemma new_lcd_wf r rp rows cols addr :
  1 ≤ rows ≤ LCD_MAX_ROWS → 1 ≤ cols ≤ LCD_MAX_COLS → lcd_wf (new_lcd r rp rows cols addr).
Proof. intros Hr Hc. split; cbn; try lia. rewrite length_replicate. lia. Qed.

Lemma lcd_in_bounds_witness :
  ∃ d', lcd_writes [(0, 0xff); (1, 4); (1, 0); (0, 65); (1, 5); (1, 1)] (new_lcd blank blank 2 16 0) = Done d' ∧
    lcd_wf d'.
Proof.
  apply (lcd_in_bounds [(0, 0xff); (1, 4); (1, 0); (0, 65); (1, 5); (1, 1)] (new_lcd blank blank 2 16 0)).
  apply new_lcd_wf; done.
Defined.

(** Printing a text that fits behind the cursor puts its characters there, in
    order, and changes nothing else of the display. *)
Theorem lcd_prints cs d :
  Forall (in_width 8) cs → lcd_wf d → e (reg d) = false →
  cursor d + Z.of_nat (length cs) ≤ rows d * cols d →
  ∃ d', lcd_writes (print_text cs) d = Done d' ∧ lcd_wf d' ∧
    buffer d' = take (Z.to_nat (cursor d)) (buffer d) ++ cs ++
      drop (Z.to_nat (cursor d) + length cs) (buffer d).
Proof. apply print_text_run. Qed.

Lemma lcd_prints_witness :
  ∃ d', lcd_writes (print_text [72; 105]) (new_lcd blank blank 1 4 0) = Done d' ∧
    buffer d' = [72; 105; 0; 0].
Proof.
  destruct (lcd_prints [72; 105] (new_lcd blank blank 1 4 0)) as (d' & E & _ & Hb).
  - repeat constructor; vm_compute; congruence.
  - apply new_lcd_wf; done.
  - done.
  - vm_compute. congruence.
  - exists d'. split; [exact E|exact Hb].
Defined.

(** On a display of at most 20 columns the cursor cannot be set to the third or
    fourth row except to its last column: the DDRAM ranges of these rows (0x14 and
    0x54 on) begin inside the 40 columns reserved for the first and second row,
    which are tried first; the address 0x14 of the third row itself selects the
    first one. *)
Theorem lcd_lower_rows ddram d row col :
  0 ≤ rows d ≤ LCD_MAX_ROWS → 1 ≤ cols d ≤ 20 →
  ddram_addr_to_position ddram d = Some (row, col) → 2 ≤ row → col = cols d - 1.
Proof.
  intros Hr Hc. unfold ddram_addr_to_position, LCD_MAX_ROWS in *.
  assert (∃ n, Z.to_nat (rows d) = n ∧ (n ≤ 4)%nat) as (n & -> & Hn) by (exists (Z.to_nat (rows d)); lia).
  destruct n as [|[|[|[|[|n]]]]]; cbn -[Z.leb Z.ltb Z.add Z.sub]; unfold LCD_MAX_COLS; try done; [..|lia];
    change (default 0 (row_addr_map !! Z.to_nat 0)) with 0x00;
    change (default 0 (row_addr_map !! Z.to_nat (0 + 1))) with 0x40;
    change (default 0 (row_addr_map !! Z.to_nat (0 + 1 + 1))) with 0x14;
    change (default 0 (row_addr_map !! Z.to_nat (0 + 1 + 1 + 1))) with 0x54;
    repeat match goal with
    | |- context [if ?b then _ else _] => destruct b eqn:?
    end; intros E Hrow; simplify_eq; lia.
Qed.

Lemma lcd_lower_rows_witness :
  ddram_addr_to_position 0x14 (new_lcd blank blank 4 20 0) = Some (0, 19) ∧
  ∃ col, ddram_addr_to_position 0x28 (new_lcd blank blank 4 20 0) = Some (2, col) ∧ col = 20 - 1.
Proof.
  split; [reflexivity|]. exists 19. split; [reflexivity|].
  apply (lcd_lower_rows 0x28 (new_lcd blank blank 4 20 0) 2); vm_compute; split || done; congruence.
Defined.

(** [init] accepts a display without columns.  Setting its cursor yields column
    -1, and the next character is stored before the buffer. *)
Definition set_cursor_then_print : list (Z * Z) :=
  [(REGISTER_DATA, 0x80); (REGISTER_CONTROL, 0x04); (REGISTER_CONTROL, 0x00);
   (REGISTER_DATA, 65); (REGISTER_CONTROL, 0x05); (REGISTER_CONTROL, 0x01)].

(** On a display with rows but no columns two guest commands write out of the
    bounds of the character buffer. *)
Theorem lcd_no_columns rp rows addr :
  1 ≤ rows ≤ LCD_MAX_ROWS →
  lcd_writes set_cursor_then_print (new_lcd blank rp rows 0 addr) = Stop UndefinedBehaviour.
Proof.
  intros Hr. unfold LCD_MAX_ROWS in Hr.
  assert (rows = 1 ∨ rows = 2 ∨ rows = 3 ∨ rows = 4) as [-> | [-> | [-> | ->]]] by lia; reflexivity.
Qed.

Lemma lcd_no_columns_witness :
  lcd_writes set_cursor_then_print (new_lcd blank blank 2 0 0) = Stop UndefinedBehaviour.
Proof. apply (lcd_no_columns blank 2 0). done. Defined.

(** On a display with columns but no rows the first character that the guest prints
    is written into the empty character buffer. *)
Theorem lcd_no_rows r rp cols addr c :
  1 ≤ cols ≤ LCD_MAX_COLS → in_width 8 c → e r = false →
  lcd_writes (print_char c) (new_lcd r rp 0 cols addr) = Stop UndefinedBehaviour.
Proof.
  intros Hc _ He. cbn -[lcd_put wrap]. rewrite He. cbn -[lcd_put wrap]. unfold lcd_put. cbn.
  by replace (cols <=? 0) with false by lia.
Qed.

Lemma lcd_no_rows_witness :
  lcd_writes (print_char 65) (new_lcd blank blank 0 16 0) = Stop UndefinedBehaviour.
Proof. by apply (lcd_no_rows blank blank 16 0 65). Defined.
End Lcd.
