(* ===== verification/MachineProps.v ===== *)
(** * What memory accesses leave alone in the machine

    Physical memory calls back into the processors (reservations) and the
    debugger.  A relation between worlds that is respected by these callbacks
    and by changes of physical memory is respected by every access to wired
    memory; with it, a read changes no processor, and a write weakens processors at
    most as [core_sc_access] does.

    The second part has the reads and writes of naturally aligned values of 1, 2, 4 and
    8 bytes in wired memory, in terms of the value stored at an address; page tables,
    the instruction cache and the data accesses of the processors use them. *)

From S2P Require Import Prelude PhysMem Machine.
Import PhysMem.

(** A computation on the current processor. *)
Lemma on_cpu_run {C F D A} (m : st C A) (w : world C F D) a c :
  m (w_cpu w) = Done (a, c) → on_cpu m w = Done (a, w <| w_cpu := c |>).
Proof. intros E. unfold on_cpu, zoom. by rewrite E. Qed.

(** ** Relations respected by computations *)
Section Steps.
Context {S : Type} (R : S → S → Prop) `{!PreOrder R}.

Definition steps_in {A} (m : st S A) : Prop := ∀ s a s', m s = Done (a, s') → R s s'.

Lemma steps_ret {A} (a : A) : steps_in (mret a).
Proof. intros s b s'. unfold mret, st_ret. intros [= _ <-]. reflexivity. Qed.

Lemma steps_stop {A} e : steps_in (stop (A:=A) e).
Proof. intros s a s'. discriminate. Qed.

Lemma steps_gets {A} (f : S → A) : steps_in (gets f).
Proof. intros s b s'. unfold gets. intros [= _ <-]. reflexivity. Qed.

Lemma steps_bind {A B} (m : st S A) (k : A → st S B) :
  steps_in m → (∀ a, steps_in (k a)) → steps_in (m ≫= k).
Proof. intros Hm Hk s b s' Hrun. minv. etrans; [by eapply Hm|by eapply Hk]. Qed.

Lemma steps_assert b : steps_in (c_assert b).
Proof. destruct b; [apply steps_ret|apply steps_stop]. Qed.

Lemma steps_defined b : steps_in (c_defined b).
Proof. destruct b; [apply steps_ret|apply steps_stop]. Qed.
End Steps.

Ltac steps :=
  repeat match goal with
  | |- steps_in _ (mret _) => apply steps_ret; typeclasses eauto
  | |- steps_in _ (stop _) => apply steps_stop
  | |- steps_in _ (gets _) => apply steps_gets; typeclasses eauto
  | |- steps_in _ (c_assert _) => apply steps_assert; typeclasses eauto
  | |- steps_in _ (c_defined _) => apply steps_defined; typeclasses eauto
  | |- steps_in _ (mbind _ _) => apply steps_bind; [typeclasses eauto| |intros ?]
  | |- steps_in _ (match _ with _ => _ end) => case_match
  | H : steps_in _ ?m |- steps_in _ ?m => exact H
  end.

(** ** Accesses to wired memory *)
Section Access.
Context {W : Type} `{PhysHost W} (R : W → W → Prop) `{!PreOrder R}.
Hypothesis R_set : ∀ p w, R w (ph_set p w).
Hypothesis R_gdb : steps_in R ph_gdb_event.

Lemma steps_phys_modify f : steps_in R (phys_modify f).
Proof. intros w a w'. unfold phys_modify, modify. intros [= _ <-]. apply R_set. Qed.

Lemma steps_find_frame addr : steps_in R (physmem_find_frame addr).
Proof. unfold physmem_find_frame, ftl1_of, phys. steps. Qed.

Lemma steps_breakpoint addr size access : steps_in R (physmem_breakpoint_find addr size access).
Proof.
  unfold physmem_breakpoint_find, phys, physmem_breakpoint_hit. steps. apply steps_phys_modify.
Qed.

Lemma steps_pointer f addr n : steps_in R (frame_pointer f addr n).
Proof. unfold frame_pointer, get_area, phys. steps. Qed.

(** The rest of a read once the frame is known. *)
Lemma steps_read devmem n procno addr protected w v w' :
  physmem_find_frame addr w ≠ Done (None, w) →
  physmem_read devmem n procno addr protected w = Done (v, w') → R w w'.
Proof.
  intros Hf Hrun. unfold physmem_read in Hrun. minv.
  match goal with E : physmem_find_frame _ _ = _ |- _ => pose proof E as Ef;
    apply steps_find_frame in E; etrans; [exact E|] end.
  destruct x as [f|].
  - revert Hrun. generalize x0. assert (steps_in R
      ((if protected then physmem_breakpoint_find addr (Z.of_nat n) ACCESS_READ else mret tt);;
       '(d, off) ← frame_pointer f addr n; mret (load_le d off n))) as Hs.
    { steps; first [apply steps_breakpoint|apply steps_pointer]. }
    intros w1. apply Hs.
  - exfalso. apply Hf. rewrite Ef. do 2 f_equal.
    unfold physmem_find_frame, ftl1_of, phys in Ef. msimpl in Ef. repeat case_match; congruence.
Qed.

Hypothesis R_sc : ∀ procno addr size, steps_in R (ph_sc_access procno addr size).

Lemma steps_sc_control addr size : steps_in R (sc_control addr size).
Proof.
  unfold sc_control, phys. steps. generalize (sc_list a). intros items.
  induction items; cbn; steps; [apply R_sc|apply steps_phys_modify].
Qed.

Lemma steps_write devmem n procno addr val protected w b w' :
  physmem_find_frame addr w ≠ Done (None, w) →
  physmem_write devmem n procno addr val protected w = Done (b, w') → R w w'.
Proof.
  intros Hf Hrun. unfold physmem_write in Hrun. minv.
  match goal with E : physmem_find_frame _ _ = _ |- _ => pose proof E as Ef;
    apply steps_find_frame in E; etrans; [exact E|] end.
  destruct x as [f|]; cycle 1.
  { exfalso. apply Hf. rewrite Ef. do 2 f_equal.
    unfold physmem_find_frame, ftl1_of, phys in Ef. msimpl in Ef. repeat case_match; congruence. }
  revert x0 b w' Hrun Ef H0. intros w1 b w' Hrun _ _. revert w1 b w' Hrun.
  match goal with |- ∀ w1 b w', ?m w1 = Done (b, w') → R w1 w' => change (steps_in R m) end.
  unfold get_area, phys, put_data, invalidate_frame, set_frame, ftl1_of, phys.
  steps; first [apply steps_sc_control|apply steps_breakpoint|apply steps_phys_modify|apply steps_pointer].
Qed.
End Access.

(** ** The machine *)

(** Only memory and devices changed. *)
Definition read_rel {C F D} (w w' : world C F D) : Prop :=
  w' = w <| w_phys := w_phys w' |> <| w_dev := w_dev w' |>.

#[export] Instance read_rel_preorder {C F D} : PreOrder (@read_rel C F D).
Proof.
  split; [by intros []|]. intros w1 w2 w3 E1 E2. unfold read_rel in *. rewrite E2, E1. by destruct w1.
Qed.

(** The change of a processor by the notification of a store. *)
Class CoreLaws (C : Type) `{Core C} := {
  core_weaker : relation C;
  #[global] core_weaker_preorder :: PreOrder core_weaker;
  core_sc_access_weaker addr size c : core_weaker c (snd (core_sc_access addr size c))
}.

Section Weaker.
Context {C F D : Type} `{CoreLaws C}.

(** Only memory, devices and what [core_weaker] admits changed. *)
Record write_rel (w w' : world C F D) : Prop := {
  wr_cpu : core_weaker (w_cpu w) (w_cpu w');
  wr_before : Forall2 core_weaker (w_before w) (w_before w');
  wr_after : Forall2 core_weaker (w_after w) (w_after w');
  wr_rest : w' = w <| w_cpu := w_cpu w' |> <| w_before := w_before w' |> <| w_after := w_after w' |>
                   <| w_phys := w_phys w' |> <| w_dev := w_dev w' |>
}.

#[export] Instance write_rel_preorder : PreOrder write_rel.
Proof.
  split.
  - intros []. split; cbn; reflexivity.
  - intros w1 w2 w3 [C1 B1 A1 E1] [C2 B2 A2 E2].
    split; [by etrans|by etrans|by etrans|]. rewrite E2, E1. by destruct w1.
Qed.

Lemma update_first_weaker {B} p (f : C → B * C) l b l' :
  (∀ c, core_weaker c (snd (f c))) → update_first p f l = Some (b, l') → Forall2 core_weaker l l'.
Proof.
  intros Hf. revert l'. induction l as [|c l IH]; intros l' E; cbn in E; [done|].
  destruct (p c).
  - specialize (Hf c). destruct (f c) as [b' c']. injection E as <- <-. by constructor.
  - destruct (update_first p f l) as [[b' r]|]; [|done]. injection E as <- <-.
    constructor; [reflexivity|]. by apply IH.
Qed.

Lemma with_first_cpu_weaker {B} p (f : C → B * C) (w : world C F D) b w' :
  (∀ c, core_weaker c (snd (f c))) → with_first_cpu p f w = Some (b, w') → write_rel w w'.
Proof.
  intros Hf. unfold with_first_cpu.
  destruct (update_first p f (w_before w)) as [[b1 l]|] eqn:E1.
  { intros [= <- <-]. apply update_first_weaker in E1; [|done].
    split; cbn; [reflexivity|done|reflexivity|by destruct w]. }
  destruct (p (w_cpu w)).
  { pose proof (Hf (w_cpu w)) as Hc. destruct (f (w_cpu w)) as [b1 c]. intros [= <- <-].
    split; cbn; [done|reflexivity..|by destruct w]. }
  destruct (update_first p f (w_after w)) as [[b1 l]|] eqn:E2; [|done].
  intros [= <- <-]. apply update_first_weaker in E2; [|done].
  split; cbn; [reflexivity|reflexivity|done|by destruct w].
Qed.
End Weaker.

Section Machine.
Context {C F D : Type} `{CoreLaws C} `{BoardOf C F D}.
Abbreviation W := (world C F D).
Implicit Types w : W.

Lemma cpu_sc_access_weaker procno addr size : steps_in write_rel (cpu_sc_access (C:=C) (F:=F) (D:=D) procno addr size).
Proof.
  intros w b w'. unfold cpu_sc_access.
  repeat (destruct (with_first_cpu _ _ _) as [[? ?]|] eqn:E;
    [intros [= <- <-]; eapply with_first_cpu_weaker; [apply core_sc_access_weaker|exact E]|clear E]).
  done.
Qed.

Lemma mapped_frame addr w f :
  phys_wf (w_phys w) → lookup_frame (w_phys w) addr = Some f →
  physmem_find_frame addr w ≠ Done (None, w).
Proof. intros Hwf Hf. rewrite find_frame_run by exact Hwf. cbn. rewrite Hf. congruence. Qed.

Lemma read_frame devmem n procno addr protected f w v w' :
  phys_wf (w_phys w) → lookup_frame (w_phys w) addr = Some f →
  physmem_read devmem n procno addr protected w = Done (v, w') → read_rel w w'.
Proof.
  intros Hwf Hf. apply steps_read; [typeclasses eauto|by intros ? []| |by eapply mapped_frame].
  intros w1 a w2. cbn. unfold modify. intros [= _ <-]. by destruct w1.
Qed.

Lemma write_frame devmem n procno addr val protected f w b w' :
  phys_wf (w_phys w) → lookup_frame (w_phys w) addr = Some f →
  physmem_write devmem n procno addr val protected w = Done (b, w') → write_rel w w'.
Proof.
  intros Hwf Hf. apply steps_write; [typeclasses eauto|..|by eapply mapped_frame].
  - intros p []. split; cbn; reflexivity.
  - intros w1 a w2. cbn. unfold modify. intros [= _ <-]. destruct w1. split; cbn; reflexivity.
  - apply cpu_sc_access_weaker.
Qed.

(** The specifications of [PhysMem] with the frame of the machine. *)
Lemma world_read devmem n procno addr protected f w :
  phys_wf (w_phys w) → 0 ≤ addr < PHYS_LIMIT → addr mod 4096 + Z.of_nat n ≤ 4096 →
  lookup_frame (w_phys w) addr = Some f →
  ∃ w', physmem_read devmem n procno addr protected w =
      Done (le_join (λ x, default 0 (byte_at (w_phys w) x)) addr n, w') ∧
    same_store (w_phys w) (w_phys w') ∧ read_rel w w'.
Proof.
  intros Hwf Ha Hc Hf.
  destruct (@physmem_read_spec _ world_host world_host_laws devmem n procno addr protected f w
    Hwf Ha Hc Hf) as (w' & Hrun & S). exists w'. split_and!; [done|done|]. by eapply read_frame.
Qed.

Lemma world_write devmem n procno addr val protected f a w :
  phys_wf (w_phys w) → 0 ≤ addr < PHYS_LIMIT → addr mod 4096 + Z.of_nat n ≤ 4096 →
  lookup_frame (w_phys w) addr = Some f → areas (w_phys w) !! frame_area f = Some a →
  area_writable a || negb protected = true →
  ∃ w', physmem_write devmem n procno addr val protected w = Done (true, w') ∧
    phys_wf (w_phys w') ∧ write_rel w w' ∧
    (∀ x, 0 ≤ x < PHYS_LIMIT → lookup_frame (w_phys w') x =
      if decide (x / 4096 = addr / 4096) then Some (f <| frame_valid := false |>)
      else lookup_frame (w_phys w) x) ∧
    ∀ x, 0 ≤ x < PHYS_LIMIT → byte_at (w_phys w') x =
      if decide (addr ≤ x < addr + Z.of_nat n) then Some (le_byte val (x - addr))
      else byte_at (w_phys w) x.
Proof.
  intros Hwf Ha Hc Hf Har Hw.
  destruct (@physmem_write_spec _ world_host world_host_laws devmem n procno addr val protected f a w
    Hwf Ha Hc Hf Har Hw) as (w' & Hrun & Hwf' & Hl & Hb).
  exists w'. split_and!; [done|done|by eapply write_frame| |done].
  by apply (@physmem_write_frames _ world_host world_host_laws devmem n procno addr val protected f a w).
Qed.
End Machine.

Definition triple {S A} (I : S → Prop) (m : st S A) (Q : A → Prop) : Prop :=
  ∀ s a s', I s → m s = Done (a, s') → I s' ∧ Q a.

Definition any {A} (_ : A) : Prop := True.

Create HintDb triples discriminated.

Section Rules.
Context {S : Type} (I : S → Prop).

Lemma tr_ret {A} (a : A) (Q : A → Prop) : Q a → triple I (mret a) Q.
Proof. intros HQ s b s' Hs [= <- <-]. done. Qed.

Lemma tr_ret_eq {A} (a : A) : triple I (mret a) (λ x, x = a).
Proof. by apply tr_ret. Qed.

Lemma tr_stop {A} e (Q : A → Prop) : triple I (stop e) Q.
Proof. intros s a s' _. done. Qed.

Lemma tr_get : triple I get_st I.
Proof. intros s a s' Hs [= <- <-]. done. Qed.

Lemma tr_gets {A} (f : S → A) (Q : A → Prop) : (∀ s, I s → Q (f s)) → triple I (gets f) Q.
Proof. intros HQ s a s' Hs [= <- <-]. by split; [|apply HQ]. Qed.

Lemma tr_modify f (Q : unit → Prop) : (∀ s, I s → I (f s)) → Q tt → triple I (modify f) Q.
Proof. intros Hf HQ s a s' Hs [= <- <-]. by split; [apply Hf|]. Qed.

Lemma tr_assert b (Q : unit → Prop) : (b = true → Q tt) → triple I (c_assert b) Q.
Proof. destruct b; intros HQ; [by apply tr_ret, HQ|apply tr_stop]. Qed.

Lemma tr_defined b (Q : unit → Prop) : (b = true → Q tt) → triple I (c_defined b) Q.
Proof. destruct b; intros HQ; [by apply tr_ret, HQ|apply tr_stop]. Qed.

Lemma tr_bind {A B} (P : A → Prop) (Q : B → Prop) (m : st S A) (k : A → st S B) :
  triple I m P → (∀ a, P a → triple I (k a) Q) → triple I (m ≫= k) Q.
Proof. intros Hm Hk s b s' Hs Hrun. minv. edestruct Hm as [? ?]; [done|eassumption|]. by eapply Hk. Qed.

Lemma tr_weaken {A} (P Q : A → Prop) (m : st S A) : triple I m P → (∀ a, P a → Q a) → triple I m Q.
Proof. intros Hm HQ s a s' Hs Hrun. destruct (Hm s a s' Hs Hrun). by split; [|apply HQ]. Qed.

Lemma tr_any {A} (P : A → Prop) (m : st S A) : triple I m P → triple I m any.
Proof. intros Hm. by eapply tr_weaken. Qed.
End Rules.

(** The rules, by the shape of the computation.  A state read by [get_st] satisfies
    the invariant; a result is remembered as an equation. *)
Ltac tr_step :=
  lazymatch goal with
  | |- triple _ (mret _) any => apply tr_ret; exact Logic.I
  | |- triple _ (mret _) _ => apply tr_ret
  | |- triple _ (stop _) _ => apply tr_stop
  | |- triple _ (modify _) _ => apply tr_modify; [intros ? ?|try exact Logic.I]
  | |- triple _ (c_assert _) _ => apply tr_assert; intros ?
  | |- triple _ (c_defined _) _ => apply tr_defined; intros ?
  | |- triple _ (get_st ≫= _) _ => eapply tr_bind; [apply tr_get|intros ? ?]
  | |- triple _ (mret _ ≫= _) _ => eapply tr_bind; [apply tr_ret_eq|intros ? ->]
  | |- triple _ (@mbind _ _ unit _ _ _) _ => apply (tr_bind _ any); [|intros ? _]
  | |- triple _ (_ ≫= _) _ => eapply tr_bind; [solve [eauto 2 with triples]|intros ? ?; cbn beta in *]
  | |- triple _ (match ?x with _ => _ end) _ => destruct x eqn:?
  | |- triple _ (let '_ := ?x in _) _ => destruct x eqn:?
  | |- any _ => exact Logic.I
  end.
Ltac tr_auto := repeat (cbv zeta; tr_step); try solve [eauto 2 with triples].

(** ** Physical memory *)
Section Memory.
Context {W : Type} `{PhysHost W} (I : W → Prop).
Hypothesis I_set : ∀ p w, I w → I (ph_set p w).
Hypothesis I_gdb : triple I ph_gdb_event any.
Hypothesis I_sc : ∀ procno addr size, triple I (ph_sc_access procno addr size) any.

(** The operations of a device keep the invariant. *)
Record device_keeps (d : device_ops W) : Prop := {
  dk_read8 f procno addr : dev_read8 d = Some f → triple I (f procno addr) any;
  dk_read16 f procno addr : dev_read16 d = Some f → triple I (f procno addr) any;
  dk_read32 f procno addr : dev_read32 d = Some f → triple I (f procno addr) any;
  dk_read64 f procno addr : dev_read64 d = Some f → triple I (f procno addr) any;
  dk_write8 f procno addr v : dev_write8 d = Some f → triple I (f procno addr v) any;
  dk_write16 f procno addr v : dev_write16 d = Some f → triple I (f procno addr v) any;
  dk_write32 f procno addr v : dev_write32 d = Some f → triple I (f procno addr v) any;
  dk_write64 f procno addr v : dev_write64 d = Some f → triple I (f procno addr v) any
}.
Hypothesis I_dev : ∀ w, I w → Forall device_keeps (ph_devices w).

Lemma tr_phys : triple I phys any.
Proof. apply tr_gets. done. Qed.

Lemma tr_phys_modify f : triple I (phys_modify f) any.
Proof. apply tr_modify; [|done]. intros w Hw. by apply I_set. Qed.
#[local] Hint Resolve tr_phys tr_phys_modify I_gdb I_sc : triples.

Lemma tr_ftl1_of addr : triple I (ftl1_of addr) any.
Proof. unfold ftl1_of. tr_auto. Qed.
#[local] Hint Resolve tr_ftl1_of : triples.

Lemma tr_find_frame addr : triple I (physmem_find_frame addr) any.
Proof. unfold physmem_find_frame. tr_auto. Qed.

Lemma tr_get_area f : triple I (get_area f) any.
Proof. unfold get_area. tr_auto. Qed.
#[local] Hint Resolve tr_find_frame tr_get_area : triples.

Lemma tr_breakpoint addr size access : triple I (physmem_breakpoint_find addr size access) any.
Proof. unfold physmem_breakpoint_find, physmem_breakpoint_hit. tr_auto. Qed.

Lemma tr_pointer f addr n : triple I (frame_pointer f addr n) any.
Proof. unfold frame_pointer. tr_auto. Qed.

Lemma tr_set_frame addr fs : triple I (set_frame addr fs) any.
Proof. apply tr_phys_modify. Qed.

Lemma tr_invalidate addr f : triple I (invalidate_frame addr f) any.
Proof. unfold invalidate_frame, set_frame. tr_auto. Qed.

Lemma tr_put_data i d : triple I (put_data i d) any.
Proof. unfold put_data. tr_auto. Qed.

Lemma tr_sc_control addr size : triple I (sc_control addr size) any.
Proof.
  unfold sc_control. tr_auto. match goal with |- triple _ (sc_control_loop ?l _ _) _ => generalize l end.
  intros items. induction items; cbn [sc_control_loop]; tr_auto.
Qed.

Lemma tr_sc_register procno : triple I (sc_register procno) any.
Proof. unfold sc_register. tr_auto. Qed.

Lemma tr_sc_unregister procno : triple I (sc_unregister procno) any.
Proof. apply tr_phys_modify. Qed.

Lemma tr_devices : triple I (gets ph_devices) (Forall device_keeps).
Proof. apply tr_gets. exact I_dev. Qed.
#[local] Hint Resolve tr_breakpoint tr_pointer tr_invalidate tr_put_data tr_sc_control tr_devices : triples.

Lemma tr_devmem_read sel devs procno addr v :
  Forall device_keeps devs →
  (∀ d f, device_keeps d → fst (sel d) = Some f → triple I (f procno addr) any) →
  triple I (devmem_read sel devs procno addr v) any.
Proof.
  intros Hd Hs. revert v. induction Hd as [|d devs Hk Hd IH]; intros v; cbn [devmem_read]; [tr_auto|].
  destruct (sel d) as [[f|] width] eqn:E; [|apply IH]. eapply tr_bind; [|intros r _; apply IH].
  apply (Hs d f Hk). by rewrite E.
Qed.

Lemma tr_devmem_write sel devs procno addr v b :
  Forall device_keeps devs →
  (∀ d f, device_keeps d → sel d = Some f → triple I (f procno addr v) any) →
  triple I (devmem_write sel devs procno addr v b) any.
Proof.
  intros Hd Hs. revert b. induction Hd as [|d devs Hk Hd IH]; intros b; cbn [devmem_write]; [tr_auto|].
  destruct (sel d) as [f|] eqn:E; [|apply IH]. eapply tr_bind; [by apply (Hs d f Hk)|intros ? _; apply IH].
Qed.

Lemma tr_read devmem n procno addr protected :
  (∀ a, triple I (devmem procno a) any) → triple I (physmem_read devmem n procno addr protected) any.
Proof. intros Hd. unfold physmem_read. tr_auto. Qed.

Lemma tr_write devmem n procno addr v protected :
  (∀ a, triple I (devmem procno a v) any) → triple I (physmem_write devmem n procno addr v protected) any.
Proof. intros Hd. unfold physmem_write. tr_auto. Qed.

Ltac dev_op :=
  intros ? ? Hk; cbn; unfold or_else; repeat case_match; cbn; intros; simplify_eq;
  first [by eapply (dk_read8 _ Hk)|by eapply (dk_read16 _ Hk)|by eapply (dk_read32 _ Hk)
        |by eapply (dk_read64 _ Hk)|by eapply (dk_write8 _ Hk)|by eapply (dk_write16 _ Hk)
        |by eapply (dk_write32 _ Hk)|by eapply (dk_write64 _ Hk)].

Lemma tr_read8 procno addr p : triple I (physmem_read8 procno addr p) any.
Proof. apply tr_read. intros a. unfold devmem_read8. tr_auto. apply (tr_bind _ any); [apply tr_devmem_read; [done|dev_op]|intros ? _; tr_auto]. Qed.
Lemma tr_read16 procno addr p : triple I (physmem_read16 procno addr p) any.
Proof. apply tr_read. intros a. unfold devmem_read16. tr_auto. apply (tr_bind _ any); [apply tr_devmem_read; [done|dev_op]|intros ? _; tr_auto]. Qed.
Lemma tr_read32 procno addr p : triple I (physmem_read32 procno addr p) any.
Proof. apply tr_read. intros a. unfold devmem_read32. tr_auto. apply tr_devmem_read; [done|dev_op]. Qed.
Lemma tr_read64 procno addr p : triple I (physmem_read64 procno addr p) any.
Proof. apply tr_read. intros a. unfold devmem_read64. tr_auto. apply tr_devmem_read; [done|dev_op]. Qed.
Lemma tr_write8 procno addr v p : triple I (physmem_write8 procno addr v p) any.
Proof. apply tr_write. intros a. unfold devmem_write8. tr_auto. apply tr_devmem_write; [done|dev_op]. Qed.
Lemma tr_write16 procno addr v p : triple I (physmem_write16 procno addr v p) any.
Proof. apply tr_write. intros a. unfold devmem_write16. tr_auto. apply tr_devmem_write; [done|dev_op]. Qed.
Lemma tr_write32 procno addr v p : triple I (physmem_write32 procno addr v p) any.
Proof. apply tr_write. intros a. unfold devmem_write32. tr_auto. apply tr_devmem_write; [done|dev_op]. Qed.
Lemma tr_write64 procno addr v p : triple I (physmem_write64 procno addr v p) any.
Proof. apply tr_write. intros a. unfold devmem_write64. tr_auto. apply tr_devmem_write; [done|dev_op]. Qed.
End Memory.

(** The little-endian value of [n] bytes at [a]; [word_at] is the case of 4. *)
Definition value_at (p : physmem) (a : Z) (n : nat) : Z := le_join (λ x, default 0 (byte_at p x)) a n.

(** The widths of memory accesses. *)
Definition access_size (n : nat) : Prop := n = 1%nat ∨ n = 2%nat ∨ n = 4%nat ∨ n = 8%nat.

(** An aligned address of physical memory. *)
Definition slot (n : nat) (a : Z) : Prop := 0 ≤ a < PHYS_LIMIT ∧ a mod Z.of_nat n = 0.
Abbreviation slot_ok := (slot 4).

(** The frame of [a] is wired, writable memory. *)
Definition rw_word (p : physmem) (a : Z) : Prop :=
  ∃ f ar, lookup_frame p a = Some f ∧ areas p !! frame_area f = Some ar ∧ area_writable ar = true.

Lemma size_no_cross n a : access_size n → a mod Z.of_nat n = 0 → a mod 4096 + Z.of_nat n ≤ 4096.
Proof.
  intros [->|[->|[->| ->]]] E; cbn in *; Z.to_euclidean_division_equations; lia.
Qed.

Lemma slot_no_cross n a : access_size n → slot n a → a mod 4096 + Z.of_nat n ≤ 4096.
Proof. intros Hn [_ E]. by apply size_no_cross. Qed.

(** The bytes of a slot are in the address space. *)
Lemma slot_bytes n a k : access_size n → slot n a → 0 ≤ k < Z.of_nat n → 0 ≤ a + k < PHYS_LIMIT.
Proof.
  unfold slot, PHYS_LIMIT. intros [->|[->|[->| ->]]] [Ha E] Hk; cbn in *;
    Z.to_euclidean_division_equations; lia.
Qed.

(** Distinct slots do not overlap. *)
Lemma slot_disjoint n a b k : access_size n → slot n a → slot n b → a ≠ b →
  0 ≤ k < Z.of_nat n → ¬ (a ≤ b + k < a + Z.of_nat n).
Proof.
  unfold slot. intros [->|[->|[->| ->]]] [_ Ea] [_ Eb] Hne Hk; cbn in *;
    Z.to_euclidean_division_equations; lia.
Qed.

Lemma value_width p a n : phys_wf p → in_width (8 * Z.of_nat n) (value_at p a n).
Proof. intros Hwf. apply le_join_width. intros x. by apply byte_at_width. Qed.

Lemma value_at_same p p' a n : same_store p p' → value_at p' a n = value_at p a n.
Proof. intros S. apply le_join_ext. intros k Hk. by rewrite (same_store_bytes _ _ _ S). Qed.

Lemma word_at_same p p' a : same_store p p' → word_at p' a = word_at p a.
Proof. apply (value_at_same p p' a 4). Qed.

Lemma rw_word_same p p' a : same_store p p' → rw_word p a → rw_word p' a.
Proof.
  intros S (f & ar & Hf & Ha & Hw). exists f, ar. rewrite (same_store_lookup _ _ _ S).
  destruct S as (-> & _). done.
Qed.

(** The values after one was stored. *)
Lemma value_at_stored n p p' a v :
  access_size n → slot n a → in_width (8 * Z.of_nat n) v →
  (∀ x, 0 ≤ x < PHYS_LIMIT → byte_at p' x =
     if decide (a ≤ x < a + Z.of_nat n) then Some (le_byte v (x - a)) else byte_at p x) →
  ∀ b, slot n b → value_at p' b n = if decide (b = a) then v else value_at p b n.
Proof.
  intros Hn Ha Hv Hb b Hs. unfold value_at. case_decide as E.
  - subst b. rewrite <- (wrap_small _ v Hv), <- (le_join_bytes v a n). apply le_join_ext.
    intros k Hk. rewrite Hb by by eapply slot_bytes. by rewrite decide_True by lia.
  - apply le_join_ext. intros k Hk. rewrite Hb by by eapply slot_bytes.
    rewrite decide_False; [done|]. by apply slot_disjoint.
Qed.

Lemma read_rel_cpu {C F D} (w w' : world C F D) : read_rel w w' → w_cpu w' = w_cpu w.
Proof. intros ->. done. Qed.

Lemma read_rel_write {C F D} `{CoreLaws C} (w w' : world C F D) : read_rel w w' → write_rel w w'.
Proof. intros ->. destruct w. split; cbn; reflexivity. Qed.

(** The tables and blocks are those of [p]. *)
Definition same_tables (p p' : physmem) : Prop := areas p' = areas p ∧ ftl0 p' = ftl0 p.

Lemma same_tables_lookup p p' a : same_tables p p' → lookup_frame p' a = lookup_frame p a.
Proof. intros [_ E]. unfold lookup_frame. by rewrite E. Qed.

Lemma same_tables_rw p p' a : same_tables p p' → rw_word p a → rw_word p' a.
Proof.
  intros S (f & ar & Hf & Har & Hw). exists f, ar. rewrite (same_tables_lookup _ _ _ S).
  by destruct S as [-> _].
Qed.

Lemma same_tables_value p p' a n : same_tables p p' → value_at p' a n = value_at p a n.
Proof.
  intros S. apply le_join_ext. intros k Hk. unfold byte_at. rewrite (same_tables_lookup _ _ _ S).
  by destruct S as [-> _].
Qed.

Lemma same_tables_wf p p' : same_tables p p' → NoDup (sc_list p') → phys_wf p → phys_wf p'.
Proof.
  intros [E1 E2] Hn [J1 J2 J3 _]. split; unfold frame_ok in *; rewrite ?E1, ?E2; eauto.
Qed.

Section Access.
Context {C F D : Type} `{CoreLaws C} `{BoardOf C F D}.
Abbreviation W := (world C F D).
Implicit Types w : W.

Lemma read_slot n devmem procno a noisy w :
  access_size n → phys_wf (w_phys w) → slot n a → rw_word (w_phys w) a →
  ∃ w', physmem_read devmem n procno a noisy w = Done (value_at (w_phys w) a n, w') ∧
    same_store (w_phys w) (w_phys w') ∧ read_rel w w'.
Proof.
  intros Hn Hwf Ha (f & ar & Hf & _).
  by apply (world_read devmem n procno a noisy f w Hwf (proj1 Ha) (slot_no_cross _ _ Hn Ha)).
Qed.

Lemma write_slot n devmem procno a v w :
  access_size n → phys_wf (w_phys w) → slot n a → rw_word (w_phys w) a →
  in_width (8 * Z.of_nat n) v →
  ∃ w', physmem_write devmem n procno a v true w = Done (true, w') ∧ phys_wf (w_phys w') ∧
    write_rel w w' ∧
    ∀ b, slot n b → value_at (w_phys w') b n = if decide (b = a) then v else value_at (w_phys w) b n.
Proof.
  intros Hn Hwf Ha (f & ar & Hf & Har & Hw) Hv.
  destruct (world_write devmem n procno a v true f ar w Hwf (proj1 Ha)
    (slot_no_cross _ _ Hn Ha) Hf Har) as (w' & Hrun & Hwf' & Hrel & _ & Hb); [by rewrite Hw|].
  exists w'. split_and!; [exact Hrun|done|done|]. by apply value_at_stored.
Qed.

(** A store leaves memory writable. *)
Lemma write_keeps_rw n devmem procno a v w w' x :
  access_size n → phys_wf (w_phys w) → slot n a → rw_word (w_phys w) a →
  physmem_write devmem n procno a v true w = Done (true, w') → 0 ≤ x < PHYS_LIMIT →
  rw_word (w_phys w) x → rw_word (w_phys w') x.
Proof.
  intros Hn Hwf Ha (f & ar & Hf & Har & Hw) Hrun Hx (g & ar' & Hg & Har' & Hw').
  pose proof (slot_no_cross _ _ Hn Ha) as Hc. assert (area_writable ar || negb true = true) as Hok by by rewrite Hw.
  pose proof (@physmem_write_frames _ world_host world_host_laws devmem n procno a v true f ar w w' Hwf (proj1 Ha) Hc Hf
    Har Hok Hrun x Hx) as Hl.
  destruct (@physmem_write_run _ world_host world_host_laws devmem n procno a v true f ar w Hwf (proj1 Ha) Hc Hf Har Hok)
    as (w1 & p1 & fs & d & Hrun1 & S & _ & _ & _ & Ew). rewrite Hrun in Hrun1. injection Hrun1 as <-.
  change (w_phys w' = stored p1 a f fs d (a - area_start ar * 4096) v n) in Ew. destruct S as (Ea & _).
  assert (∀ id b, areas (w_phys w) !! id = Some b → area_writable b = true →
    ∃ b', areas (w_phys w') !! id = Some b' ∧ area_writable b' = true) as Hall.
  { intros id b Hid Hb. rewrite Ew. cbn. change (ph_get w) with (w_phys w) in Ea. rewrite Ea.
    destruct (decide (frame_area f = id)) as [<-|]; [rewrite lookup_alter_eq, Hid|rewrite lookup_alter_ne by done];
      by eexists. }
  cbn in Hl. case_decide.
  - destruct (Hall _ _ Har Hw) as (b' & ? & ?). by exists (f <| frame_valid := false |>), b'.
  - destruct (Hall _ _ Har' Hw') as (b' & ? & ?). exists g, b'. by rewrite Hl.
Qed.

Lemma sc_register_run h w : NoDup (sc_list (w_phys w)) →
  ∃ p', sc_register h w = Done (tt, w <| w_phys := p' |>) ∧ same_tables (w_phys w) p' ∧
    h ∈ sc_list p' ∧ NoDup (sc_list p').
Proof.
  intros Hn. unfold sc_register, phys. rewrite (bind_Done _ _ _ _ _ eq_refl). case_bool_decide as Hin.
  - exists (w_phys w). by destruct w.
  - eexists. split; [reflexivity|]. cbn. split_and!; [done| |].
    + apply elem_of_app. right. by left.
    + apply NoDup_app. split_and!; [done| |apply NoDup_singleton]. by intros x Hx ->%list_elem_of_singleton.
Qed.

Lemma sc_unregister_run h w : NoDup (sc_list (w_phys w)) →
  ∃ p', sc_unregister h w = Done (tt, w <| w_phys := p' |>) ∧ same_tables (w_phys w) p' ∧ NoDup (sc_list p').
Proof.
  intros Hn. eexists. split; [reflexivity|]. split; [done|]. cbn.
  assert (∀ l, remove_first h l `sublist_of` l) as Hs.
  { induction l as [|x l IH]; [done|]. cbn. destruct (x =? h); by constructor. }
  by eapply sublist_NoDup, Hs.
Qed.
End Access.
