(* ===== verification/ICache.v ===== *)
(** * The cache of decoded instructions

    Every processor family keeps a most-recently-used list of pages of decoded
    instructions with the same text (riscv_rv32ima/cpu.c, riscv_rv64ima/cpu.c and
    mips_r4000/cpu.c).  A page is decoded again when its frame's valid flag was
    cleared by a store.  The functions take the family's decoder, whose first
    argument is [machine_specific_instructions]. *)

From S2P Require Import Prelude PhysMem Machine.
Import PhysMem.

Section ICache.
Context {C F D : Type} `{Core C} `{BoardOf C F D} (decode : bool → Z → F).
Abbreviation W := (world C F D).
Abbreviation cache_item := (cache_item F).

Definition PHYS2CACHEINSTR (phys : Z) : Z := Z.land phys FRAME_MASK / 4.

Fixpoint find_page (addr : Z) (l : list cache_item) : option cache_item :=
  match l with
  | [] => None
  | ci :: l' => if ci_addr ci =? addr then Some ci else find_page addr l'
  end.

(** The list without the first page at [addr]. *)
Fixpoint remove_page (addr : Z) (l : list cache_item) : list cache_item :=
  match l with
  | [] => []
  | ci :: l' => if ci_addr ci =? addr then l' else ci :: remove_page addr l'
  end.

(** The decoded instructions of the first page at [addr] are overwritten. *)
Fixpoint rewrite_page (addr : Z) (page : gmap Z F) (l : list cache_item)
    : list cache_item :=
  match l with
  | [] => []
  | ci :: l' => if ci_addr ci =? addr then mk_cache_item addr page :: l'
                else ci :: rewrite_page addr page l'
  end.

Definition icache_modify (f : list cache_item → list cache_item) : st W unit :=
  modify (λ w, w <| w_icache := f (w_icache w) |>).

Definition cache_hit (phys : Z) : st W (option cache_item) :=
  gets (λ w, find_page (ALIGN_DOWN phys FRAME_SIZE) (w_icache w)).

Fixpoint page_decode_loop (n : nat) (addr i : Z) (acc : gmap Z F)
    : st W (gmap Z F) :=
  match n with
  | O => mret acc
  | S n' =>
      w ← get_st;
      instr_data ← physmem_read32 (core_number (w_cpu w)) (addr + i * 4) false;
      page_decode_loop n' addr (i + 1)
        (<[i := decode (machine_specific_instructions w) instr_data]> acc)
  end.

Definition cache_item_page_decode (addr : Z) : st W (gmap Z F) :=
  page_decode_loop (Z.to_nat (FRAME_SIZE / 4)) addr 0 ∅.

(** [frame->valid = true] through the table. *)
Definition validate_frame (addr : Z) (f : frame) : st W unit :=
  ftl1 ← ftl1_of addr;
  set_frame addr (<[ftl2_index addr := f <| frame_valid := true |>]> (default ∅ ftl1)).

Definition update_cache_item (ci : cache_item) : st W cache_item :=
  f ← physmem_find_frame (ci_addr ci);
  match f with
  | None => stop AssertFailed
  | Some f =>
      if frame_valid f then mret ci
      else
        page ← cache_item_page_decode (ci_addr ci);
        icache_modify (rewrite_page (ci_addr ci) page);;
        validate_frame (ci_addr ci) f;;
        mret (mk_cache_item (ci_addr ci) page)
  end.

Definition cache_try_add (phys : Z) : st W (option cache_item) :=
  f ← physmem_find_frame phys;
  match f with
  | None => mret None
  | Some f =>
      let addr := ALIGN_DOWN phys FRAME_SIZE in
      page ← cache_item_page_decode addr;
      icache_modify (λ l, mk_cache_item addr page :: l);;
      validate_frame phys f;;
      mret (Some (mk_cache_item addr page))
  end.

(** An index past the array is undefined; it is below 1024 by construction. *)
Definition cached_instr (ci : cache_item) (phys : Z) : st W F :=
  match ci_instrs ci !! PHYS2CACHEINSTR phys with
  | Some f => mret f
  | None => stop UndefinedBehaviour
  end.

(** A fetch from a page that is cached or whose frame exists; [None] otherwise. *)
Definition fetch_cached (phys : Z) : st W (option F) :=
  hit ← cache_hit phys;
  match hit with
  | Some ci =>
      ci ← update_cache_item ci;
      icache_modify (λ l,
        match l with
        | ci' :: _ => if ci_addr ci' =? ci_addr ci then l else ci :: remove_page (ci_addr ci) l
        | [] => l
        end);;
      f ← cached_instr ci phys;
      mret (Some f)
  | None =>
      added ← cache_try_add phys;
      match added with
      | Some ci => f ← cached_instr ci phys; mret (Some f)
      | None => mret None
      end
  end.

(** Removing a processor empties the whole cache. *)
Definition cache_clear : st W unit := icache_modify (λ _, []).
End ICache.
