(* ===== verification/ICacheProps.v ===== *)
(** * The cache of decoded instructions: properties

    The cache is an optimisation of decoding the word in memory at every fetch.
    The invariant [icache_ok] says that a cached page whose frame is marked valid
    holds the decoding of the current memory; fetches and stores keep it, and a
    fetch returns the decoding of the word in memory. *)

From S2P Require Import Prelude PhysMem Machine MachineProps ICache.
Import PhysMem.

(** ** Pages *)
Definition page_of (phys : Z) : Z := phys / 4096 * 4096.

Lemma align_page phys : ALIGN_DOWN phys FRAME_SIZE = page_of phys.
Proof.
  unfold ALIGN_DOWN, page_of. change (FRAME_SIZE - 1) with (Z.ones 12).
  rewrite <- Z.ldiff_land, Z.ldiff_ones_r, Z.shiftl_mul_pow2, Z.shiftr_div_pow2 by lia. done.
Qed.

Lemma cache_index phys : PHYS2CACHEINSTR phys = phys mod 4096 / 4.
Proof. unfold PHYS2CACHEINSTR. by rewrite frame_mask_mod. Qed.

Lemma slot_in_page phys : slot_ok phys →
  0 ≤ PHYS2CACHEINSTR phys < 1024 ∧ page_of phys + PHYS2CACHEINSTR phys * 4 = phys.
Proof.
  intros [Hp Ha]. rewrite cache_index. unfold page_of.
  split; Z.to_euclidean_division_equations; lia.
Qed.

Lemma page_slot phys i : 0 ≤ phys < PHYS_LIMIT → 0 ≤ i < 1024 → slot_ok (page_of phys + i * 4) ∧
  (page_of phys + i * 4) / 4096 = phys / 4096.
Proof.
  intros Hp Hi. unfold slot, page_of, PHYS_LIMIT in *.
  split_and!; Z.to_euclidean_division_equations; lia.
Qed.

Definition same_bytes (p p' : physmem) : Prop :=
  ∀ x, 0 ≤ x < PHYS_LIMIT → byte_at p' x = byte_at p x.

Lemma same_bytes_word p p' a : same_bytes p p' → slot_ok a → word_at p' a = word_at p a.
Proof.
  intros Hb [Hl Ha]. apply le_join_ext. intros k Hk. rewrite Hb; [done|].
  unfold PHYS_LIMIT in *. Z.to_euclidean_division_equations. lia.
Qed.

Lemma word_size : access_size 4.
Proof. unfold access_size. tauto. Qed.

(** ** Lists of pages *)
Section Pages.
Context {F : Type}.
Implicit Types l : list (cache_item F).

Lemma find_page_elem a l ci : find_page a l = Some ci → ci ∈ l ∧ ci_addr ci = a.
Proof.
  induction l as [|c l IH]; cbn; [done|]. destruct (Z.eqb_spec (ci_addr c) a).
  - intros [= <-]. by split; [left|].
  - intros E. destruct (IH E) as [? ?]. by split; [right|].
Qed.

Lemma find_page_none a l : find_page a l = None → a ∉ ci_addr <$> l.
Proof.
  induction l as [|c l IH]; cbn; [by intros _ ?%not_elem_of_nil|].
  destruct (Z.eqb_spec (ci_addr c) a); [done|]. intros E. apply not_elem_of_cons. split; [done|by apply IH].
Qed.

Lemma remove_page_perm a l ci : find_page a l = Some ci → ci :: remove_page a l ≡ₚ l.
Proof.
  induction l as [|c l IH]; cbn; [done|]. destruct (ci_addr c =? a); [by intros [= <-]|].
  intros E. rewrite Permutation_swap. by rewrite IH.
Qed.

Lemma rewrite_page_addrs a page l : ci_addr <$> rewrite_page a page l = ci_addr <$> l.
Proof.
  induction l as [|c l IH]; cbn; [done|]. destruct (Z.eqb_spec (ci_addr c) a); cbn; [by f_equal|].
  by rewrite IH.
Qed.

Lemma rewrite_page_find a page l ci :
  find_page a l = Some ci → find_page a (rewrite_page a page l) = Some (mk_cache_item a page).
Proof.
  induction l as [|c l IH]; cbn; [done|]. destruct (Z.eqb_spec (ci_addr c) a); cbn.
  - by rewrite Z.eqb_refl.
  - intros E. destruct (Z.eqb_spec (ci_addr c) a); [done|]. by apply IH.
Qed.

(** Members other than the rewritten one are old. *)
Lemma rewrite_page_elem a page l ci :
  NoDup (ci_addr <$> l) → ci ∈ rewrite_page a page l →
  ci = mk_cache_item a page ∨ ci ∈ l ∧ ci_addr ci ≠ a.
Proof.
  induction l as [|c l IH]; cbn; [by intros _ ?%not_elem_of_nil|].
  intros [Hn Hd]%NoDup_cons. destruct (Z.eqb_spec (ci_addr c) a) as [<-|Hne].
  - intros [->|Hin]%elem_of_cons; [by left|]. right. split; [by right|].
    intros E. apply Hn. rewrite <- E. by apply list_elem_of_fmap_2.
  - intros [->|Hin]%elem_of_cons; [right; by split; [left|]|].
    destruct (IH Hd Hin) as [->|[? ?]]; [by left|right; by split; [right|]].
Qed.

End Pages.

Section Icache.
Context {C F D : Type} `{CoreLaws C} `{BoardOf C F D} (decode : bool → Z → F).
Abbreviation W := (world C F D).
Abbreviation cache_item := (cache_item F).
Implicit Types w : W.

(** The decoding of the word at [a]. *)
Definition decoded w (a : Z) : F :=
  decode (machine_specific_instructions w) (word_at (w_phys w) a).

(** [page] is the decoding of the frame at [addr]. *)
Definition decodes w (addr : Z) (page : gmap Z F) : Prop :=
  ∀ i, 0 ≤ i < 1024 → page !! i = Some (decoded w (addr + i * 4)).

Record page_ok w (ci : cache_item) : Prop := {
  po_range : 0 ≤ ci_addr ci < PHYS_LIMIT;
  po_page : page_of (ci_addr ci) = ci_addr ci;
  po_wired : is_Some (lookup_frame (w_phys w) (ci_addr ci));
  po_valid : ∀ f, lookup_frame (w_phys w) (ci_addr ci) = Some f → frame_valid f = true →
    decodes w (ci_addr ci) (ci_instrs ci)
}.

Record icache_ok w : Prop := {
  ic_nodup : NoDup (ci_addr <$> w_icache w);
  ic_pages : ∀ ci, ci ∈ w_icache w → page_ok w ci
}.

(** ** Decoding a page *)
Lemma page_decode_loop_run n phys i acc f w :
  phys_wf (w_phys w) → 0 ≤ phys < PHYS_LIMIT → lookup_frame (w_phys w) phys = Some f →
  0 ≤ i → i + Z.of_nat n ≤ 1024 →
  ∃ page, page_decode_loop decode n (page_of phys) i acc w = Done (page, w) ∧
    ∀ k, page !! k = if decide (i ≤ k < i + Z.of_nat n)
                     then Some (decoded w (page_of phys + k * 4)) else acc !! k.
Proof.
  intros Hwf Hp Hf. revert i acc. induction n as [|n IH]; intros i acc Hi Hn.
  { exists acc. split; [done|]. intros k. by rewrite decide_False by lia. }
  cbn [page_decode_loop]. rewrite (bind_Done _ _ _ _ _ eq_refl).
  destruct (page_slot phys i Hp ltac:(lia)) as [Hs Hq].
  assert (lookup_frame (w_phys w) (page_of phys + i * 4) = Some f) as Hf'
    by (by rewrite (lookup_frame_same _ _ phys)).
  pose proof (@physmem_read_quiet _ world_host world_host_laws devmem_read32 4
    (core_number (w_cpu w)) _ f w Hwf (proj1 Hs) (slot_no_cross 4 _ word_size Hs) Hf') as Hrd.
  rewrite (bind_Done _ _ _ _ _ Hrd). destruct (IH (i + 1)
    (<[i := decoded w (page_of phys + i * 4)]> acc)) as (page & Hrun & Hl); [lia..|].
  exists page. split; [exact Hrun|]. intros k. rewrite Hl, lookup_insert.
  repeat case_decide; subst; try done; lia.
Qed.

Lemma page_decode_run phys f w :
  phys_wf (w_phys w) → 0 ≤ phys < PHYS_LIMIT → lookup_frame (w_phys w) phys = Some f →
  ∃ page, cache_item_page_decode decode (page_of phys) w = Done (page, w) ∧ decodes w (page_of phys) page.
Proof.
  intros Hwf Hp Hf.
  destruct (page_decode_loop_run 1024 phys 0 ∅ f w) as (page & Hrun & Hl); [done..|lia|lia|].
  exists page. split; [exact Hrun|]. intros i Hi. by rewrite Hl, decide_True by lia.
Qed.

(** ** Marking a frame valid *)
Lemma validate_run phys f w :
  phys_wf (w_phys w) → 0 ≤ phys < PHYS_LIMIT → lookup_frame (w_phys w) phys = Some f →
  let p' := with_frame (w_phys w) phys (f <| frame_valid := true |>) in
  validate_frame phys f w = Done (tt, w <| w_phys := p' |>) ∧ phys_wf p' ∧
    same_bytes (w_phys w) p'.
Proof.
  intros Hwf Hp Hf p'. destruct (lookup_frame_wf _ _ _ Hwf Hp Hf)
    as (fs & a & d & Hi & Hj & Har & Had & Hc & Hb & _).
  split_and!.
  - assert (ftl1_of phys w = Done (Some fs, w)) as E by (apply ftl1_of_run; exact Hi).
    unfold validate_frame. rewrite (bind_Done _ _ _ _ _ E).
    unfold set_frame, phys_modify. msimpl. subst p'. unfold with_frame, ftl1_at. by rewrite Hi.
  - apply with_frame_wf; [done|done|]. destruct (wf_frames _ Hwf _ _ _ _ Hi Hj) as (_ & _ & Hok).
    destruct (index_split phys Hp) as (_ & _ & <-). exact Hok.
  - intros x Hx. unfold byte_at. subst p'. rewrite with_frame_lookup by done.
    case_decide as E; [|done]. by rewrite (lookup_frame_same _ x phys E), Hf.
Qed.

(** Changes of the world that keep the invariant of a page. *)
Lemma page_ok_change w w' ci :
  machine_specific_instructions w' = machine_specific_instructions w →
  (∀ f', lookup_frame (w_phys w') (ci_addr ci) = Some f' → frame_valid f' = true →
     (∃ f, lookup_frame (w_phys w) (ci_addr ci) = Some f ∧ frame_valid f = true) ∧
     ∀ i, 0 ≤ i < 1024 → word_at (w_phys w') (ci_addr ci + i * 4) = word_at (w_phys w) (ci_addr ci + i * 4)) →
  is_Some (lookup_frame (w_phys w') (ci_addr ci)) → page_ok w ci → page_ok w' ci.
Proof.
  intros Em Hw Hs [Hr Hp _ Hv]. split; [done|done|done|]. intros f' Hf' Hval i Hi.
  destruct (Hw f' Hf' Hval) as [(f & Hf & Hfv) Hword]. unfold decoded. rewrite Em, Hword by done.
  by apply (Hv f).
Qed.

(** The world in which [page] was installed for the frame of [phys]. *)
Definition installed w (phys : Z) (f : frame) (l : list cache_item) : W :=
  w <| w_icache := l |> <| w_phys := with_frame (w_phys w) phys (f <| frame_valid := true |>) |>.

Lemma installed_ok w phys f page l :
  phys_wf (w_phys w) → 0 ≤ phys < PHYS_LIMIT → lookup_frame (w_phys w) phys = Some f →
  icache_ok w → decodes w (page_of phys) page → NoDup (ci_addr <$> l) →
  (∀ ci, ci ∈ l → ci = mk_cache_item (page_of phys) page ∨
                  ci ∈ w_icache w ∧ ci_addr ci ≠ page_of phys) →
  icache_ok (installed w phys f l).
Proof.
  intros Hwf Hp Hf [_ Hpages] Hd Hn Hl. destruct (validate_run phys f w Hwf Hp Hf) as (_ & _ & Hb).
  split; [exact Hn|]. intros ci Hci. destruct (Hl ci Hci) as [->|[Hold Hne]].
  - destruct (page_slot phys 0 Hp ltac:(lia)) as [[Hr _] Hq]. rewrite Z.mul_0_l, Z.add_0_r in Hr, Hq.
    split; cbn [ci_addr ci_instrs installed w_phys].
    + done.
    + unfold page_of in *. by rewrite Z.div_mul by lia.
    + cbn. rewrite with_frame_lookup, decide_True by done. by eexists.
    + intros f' _ _ i Hi. rewrite (Hd i Hi). unfold decoded. f_equal.
      cbn. f_equal. symmetry. apply same_bytes_word; [done|]. by apply page_slot.
  - specialize (Hpages ci Hold). pose proof Hpages as [Hr Hpg Hw _].
    assert (ci_addr ci / 4096 ≠ phys / 4096) as Hq
      by (intros E; apply Hne; rewrite <- Hpg; unfold page_of; by rewrite E).
    apply (page_ok_change w); [done| | |done]; cbn;
      rewrite with_frame_lookup, decide_False by done; [|done].
    intros f' Hf' Hval. split; [by exists f'|]. intros i Hi. apply same_bytes_word; [done|].
    rewrite <- Hpg. by apply page_slot.
Qed.

(** ** Fetching *)

(** What a fetch may change: the cache, valid flags, breakpoint bookkeeping. *)
Definition fetch_rel w w' : Prop :=
  w' = w <| w_icache := w_icache w' |> <| w_phys := w_phys w' |> ∧
  phys_wf (w_phys w') ∧ same_bytes (w_phys w) (w_phys w').

Lemma cached_instr_run w w' ci phys :
  decodes w (page_of phys) (ci_instrs ci) → slot_ok phys →
  cached_instr ci phys w' = Done (decoded w phys, w').
Proof.
  intros Hd Hs. destruct (slot_in_page phys Hs) as [Hi E]. unfold cached_instr.
  by rewrite (Hd _ Hi), E.
Qed.

Lemma decoded_change w w' a : fetch_rel w w' → slot_ok a → decoded w' a = decoded w a.
Proof.
  intros (E & _ & Hb) Hs. unfold decoded. rewrite (same_bytes_word _ _ _ Hb Hs).
  by rewrite E.
Qed.

Lemma update_run w ci phys f :
  phys_wf (w_phys w) → icache_ok w → 0 ≤ phys < PHYS_LIMIT → lookup_frame (w_phys w) phys = Some f →
  find_page (page_of phys) (w_icache w) = Some ci →
  ∃ ci' w', update_cache_item decode ci w = Done (ci', w') ∧ icache_ok w' ∧ fetch_rel w w' ∧
    decodes w (page_of phys) (ci_instrs ci') ∧ find_page (page_of phys) (w_icache w') = Some ci'.
Proof.
  intros Hwf Hic Hp Hf Hfind. destruct (find_page_elem _ _ _ Hfind) as [Hin Ea].
  pose proof Hic as [Hn Hpages]. specialize (Hpages ci Hin). destruct Hpages as [Hr Hpg _ Hv].
  assert (ci_addr ci / 4096 = phys / 4096) as Hq
    by (rewrite Ea; unfold page_of; by rewrite Z.div_mul by lia).
  assert (lookup_frame (w_phys w) (ci_addr ci) = Some f) as Hfc
    by (by rewrite (lookup_frame_same _ _ phys Hq)).
  unfold update_cache_item.
  assert (physmem_find_frame (ci_addr ci) w = Done (Some f, w)) as Eff
    by (rewrite find_frame_run by exact Hwf; cbn; by rewrite Hfc).
  rewrite (bind_Done _ _ _ _ _ Eff). destruct (frame_valid f) eqn:Ev.
  - exists ci, w. split_and!; try done; [split_and!; [by destruct w|done|done]|].
    rewrite <- Ea. by apply (Hv f).
  - destruct (page_decode_run (ci_addr ci) f w Hwf Hr Hfc) as (page & Hdec & Hd).
    rewrite Hpg in Hdec, Hd. rewrite (bind_Done _ _ _ _ _ Hdec), (bind_Done _ _ _ _ _ eq_refl).
    set (w1 := w <| w_icache := _ |>).
    destruct (validate_run (ci_addr ci) f w1 Hwf Hr Hfc) as (Hval & Hwf' & Hb).
    rewrite (bind_Done _ _ _ _ _ Hval). eexists _, _. split; [done|].
    split; [|split_and!; try done; [by rewrite <- Ea|rewrite <- Ea; by eapply rewrite_page_find; rewrite Ea]].
    apply (installed_ok w (ci_addr ci) f page); try done; [by rewrite Hpg|by rewrite rewrite_page_addrs|].
    intros x Hx. rewrite Hpg. by apply rewrite_page_elem.
Qed.

Lemma icache_perm w l : icache_ok w → l ≡ₚ w_icache w → icache_ok (w <| w_icache := l |>).
Proof.
  intros [Hn Hp] E. split; cbn; [by rewrite E|]. intros ci Hci. rewrite E in Hci.
  destruct (Hp ci Hci). by split.
Qed.

(** The list after the found page was moved to the front. *)
Definition to_front (ci : cache_item) (l : list cache_item) : list cache_item :=
  match l with
  | ci' :: _ => if ci_addr ci' =? ci_addr ci then l else ci :: remove_page (ci_addr ci) l
  | [] => l
  end.

Lemma to_front_perm ci l : find_page (ci_addr ci) l = Some ci → to_front ci l ≡ₚ l.
Proof.
  intros Hf. unfold to_front. destruct l as [|c l]; [done|].
  destruct (ci_addr c =? ci_addr ci); [done|]. by apply remove_page_perm.
Qed.

Lemma try_add_run w phys f :
  phys_wf (w_phys w) → icache_ok w → 0 ≤ phys < PHYS_LIMIT → lookup_frame (w_phys w) phys = Some f →
  find_page (page_of phys) (w_icache w) = None →
  ∃ ci w', cache_try_add decode phys w = Done (Some ci, w') ∧ icache_ok w' ∧ fetch_rel w w' ∧
    decodes w (page_of phys) (ci_instrs ci).
Proof.
  intros Hwf Hic Hp Hf Hfind. unfold cache_try_add.
  assert (physmem_find_frame phys w = Done (Some f, w)) as Eff
    by (rewrite find_frame_run by exact Hwf; cbn; by rewrite Hf).
  rewrite (bind_Done _ _ _ _ _ Eff), align_page. cbv zeta.
  destruct (page_decode_run phys f w Hwf Hp Hf) as (page & Hdec & Hd).
  rewrite (bind_Done _ _ _ _ _ Hdec), (bind_Done _ _ _ _ _ eq_refl).
  set (ci := mk_cache_item (page_of phys) page).
  set (w1 := w <| w_icache := _ |>).
  destruct (validate_run phys f w1 Hwf Hp Hf) as (Hval & Hwf' & Hb).
  rewrite (bind_Done _ _ _ _ _ Hval). eexists ci, _. split; [done|].
  split; [|by split_and!]. apply (installed_ok w phys f page); try done.
  - cbn. apply NoDup_cons. split; [by apply find_page_none|apply Hic].
  - intros x [->|Hx]%elem_of_cons; [by left|]. right. split; [done|]. intros E.
    apply (find_page_none _ _ Hfind). rewrite <- E. by apply list_elem_of_fmap_2.
Qed.

Lemma fetch_run phys f w :
  phys_wf (w_phys w) → icache_ok w → slot_ok phys → lookup_frame (w_phys w) phys = Some f →
  ∃ w', fetch_cached decode phys w = Done (Some (decoded w phys), w') ∧ icache_ok w' ∧ fetch_rel w w'.
Proof.
  intros Hwf Hic Hs Hf. unfold fetch_cached, cache_hit. rewrite (bind_Done _ _ _ _ _ eq_refl), align_page.
  destruct (find_page (page_of phys) (w_icache w)) as [ci|] eqn:Hfind.
  - destruct (update_run w ci phys f Hwf Hic (proj1 Hs) Hf Hfind)
      as (ci' & w1 & Hrun & Hic1 & Hrel & Hd & Hfind1).
    rewrite (bind_Done _ _ _ _ _ Hrun), (bind_Done _ _ _ _ _ eq_refl).
    destruct (find_page_elem _ _ _ Hfind1) as [_ Ea].
    assert (fetch_rel w (w1 <| w_icache := to_front ci' (w_icache w1) |>)) as Hrel2.
    { destruct Hrel as (E & ? & ?). split_and!; [|done|done]. rewrite E. by destruct w. }
    eexists. split; [by rewrite (bind_Done _ _ _ _ _ (cached_instr_run w _ ci' phys Hd Hs))|]. split; [|exact Hrel2].
    apply icache_perm; [done|]. apply to_front_perm. by rewrite Ea.
  - destruct (try_add_run w phys f Hwf Hic (proj1 Hs) Hf Hfind) as (ci & w1 & Hadd & Hic1 & Hrel & Hd).
    rewrite (bind_Done _ _ _ _ _ Hadd). exists w1. split; [by rewrite (bind_Done _ _ _ _ _ (cached_instr_run w _ ci phys Hd Hs))|done].
Qed.

(** ** Stores *)
Lemma store_run n devmem procno addr val f a w :
  phys_wf (w_phys w) → icache_ok w → 0 ≤ addr < PHYS_LIMIT → addr mod 4096 + Z.of_nat n ≤ 4096 →
  lookup_frame (w_phys w) addr = Some f → areas (w_phys w) !! frame_area f = Some a →
  area_writable a = true →
  ∃ w', physmem_write devmem n procno addr val true w = Done (true, w') ∧ phys_wf (w_phys w') ∧
    icache_ok w' ∧ write_rel w w' ∧
    (∀ x, 0 ≤ x < PHYS_LIMIT → is_Some (lookup_frame (w_phys w) x) → is_Some (lookup_frame (w_phys w') x)) ∧
    ∀ x, 0 ≤ x < PHYS_LIMIT → byte_at (w_phys w') x =
      if decide (addr ≤ x < addr + Z.of_nat n) then Some (le_byte val (x - addr))
      else byte_at (w_phys w) x.
Proof.
  intros Hwf [Hn Hpages] Ha Hc Hf Har Hw.
  destruct (world_write devmem n procno addr val true f a w Hwf Ha Hc Hf Har)
    as (w' & Hrun & Hwf' & Hrel & Hl & Hb); [by rewrite Hw|].
  assert (w_icache w' = w_icache w ∧
    machine_specific_instructions w' = machine_specific_instructions w) as [Ei Em]
    by (rewrite (wr_rest _ _ Hrel); done).
  exists w'. split_and!; [done|done| |done| |done].
  - split; rewrite Ei; [done|]. intros ci Hci. specialize (Hpages ci Hci).
    pose proof Hpages as [Hr Hpg Hwired _].
    apply (page_ok_change w); [done| |rewrite Hl by done; by case_decide; [eexists|]|done].
    rewrite Hl by done. case_decide as E; [by intros f' [= <-]|]. intros f' Hf' Hval.
    split; [by exists f'|]. intros i Hi. destruct (page_slot _ i Hr Hi) as [Hs Hq]. rewrite Hpg in Hs, Hq.
    apply le_join_ext. intros k Hk. destruct Hs as [Hlim H4].
    assert (0 ≤ ci_addr ci + i * 4 + k < PHYS_LIMIT ∧ (ci_addr ci + i * 4 + k) / 4096 = ci_addr ci / 4096)
      as [Hx Hxq] by (unfold PHYS_LIMIT in *; Z.to_euclidean_division_equations; lia).
    rewrite Hb by done. rewrite decide_False; [done|]. intros Hin. apply E. rewrite <- Hxq.
    Z.to_euclidean_division_equations. lia.
  - intros x Hx Hs. rewrite Hl by done. by case_decide; [eexists|].
Qed.

(** What fetching may change: cache, devices and memory other than its bytes. *)
Definition fetched w w' : Prop :=
  w' = w <| w_icache := w_icache w' |> <| w_phys := w_phys w' |> <| w_dev := w_dev w' |> ∧
  phys_wf (w_phys w') ∧ same_bytes (w_phys w) (w_phys w').

Lemma icache_same_store w w' : read_rel w w' → same_store (w_phys w) (w_phys w') → icache_ok w → icache_ok w'.
Proof.
  intros R S [Hn Hp].
  assert (w_icache w' = w_icache w ∧ machine_specific_instructions w' = machine_specific_instructions w)
    as [Ei Em] by by rewrite R.
  split; rewrite Ei; [done|]. intros ci Hci. destruct (Hp ci Hci) as [J1 J2 J3 J4].
  split; [done|done|by rewrite (same_store_lookup _ _ _ S)|].
  intros f. rewrite (same_store_lookup _ _ _ S). intros Hf Hv i Hi. rewrite (J4 f Hf Hv i Hi).
  unfold decoded. by rewrite Em, (word_at_same _ _ _ S).
Qed.

Lemma fetch_word procno noisy phys w :
  phys_wf (w_phys w) → icache_ok w → slot_ok phys → is_Some (byte_at (w_phys w) phys) →
  ∃ w1 w2, fetch_cached decode phys w = Done (Some (decoded w phys), w1) ∧
    physmem_read32 procno phys noisy w1 = Done (word_at (w_phys w) phys, w2) ∧
    w_cpu w1 = w_cpu w ∧ fetched w w2 ∧ icache_ok w2.
Proof.
  intros Hwf Hic Hs [b Hb].
  assert (is_Some (lookup_frame (w_phys w) phys)) as [f Hf]
    by (unfold byte_at in Hb; destruct (lookup_frame _ _); [by eexists|done]).
  destruct (fetch_run phys f w Hwf Hic Hs Hf) as (w1 & Hrun & Hic1 & (E1 & Hwf1 & Hb1)).
  assert (is_Some (lookup_frame (w_phys w1) phys)) as [f1 Hf1].
  { rewrite <- (Hb1 phys (proj1 Hs)) in Hb. unfold byte_at in Hb.
    destruct (lookup_frame (w_phys w1) phys); [by eexists|done]. }
  destruct (world_read devmem_read32 4 procno phys noisy f1 w1 Hwf1 (proj1 Hs)
    (slot_no_cross 4 _ word_size Hs) Hf1) as (w2 & Hread & S & R).
  exists w1, w2. unfold fetched. split_and!; [done| |by rewrite E1| | | |].
  - rewrite <- (same_bytes_word _ _ _ Hb1 Hs). exact Hread.
  - rewrite R, E1. by destruct w.
  - by eapply same_store_wf.
  - intros x Hx. by rewrite (same_store_bytes _ _ _ S), Hb1.
  - by eapply icache_same_store.
Qed.

End Icache.
