(* ===== verification/RvTypes.v ===== *)
(** * RISC-V data types (src/src/device/cpu/riscv_rv_ima: types.h, exception.h, instr.h)

    The register width is a class parameter, as [XLEN] is a preprocessor
    parameter of the shared sources.  Exceptions and privilege modes are
    inductive types with their numeric codes; [rv_exc_none] is the success case
    of the result type [rv_exc + A].  Instruction words are read through the
    bit-fields of the union [rv_instr_t], and the function pointers of the
    decoder are the constructors of [instr_func]. *)

From S2P Require Import Prelude.


(** ** Register width *)
Class Xlen := {
  XLEN : Z;
  xlen_cases : XLEN = 32 ∨ XLEN = 64
}.

#[global] Program Instance xlen32 : Xlen := {| XLEN := 32 |}.
Next Obligation. by left. Qed.

(** The width of the RV64 files, which select it locally. *)
#[global] Program Definition xlen64 : Xlen := {| XLEN := 64 |}.
Next Obligation. by right. Qed.

Section Width.
Context `{Xlen}.

Lemma xlen_pos : 0 < XLEN.
Proof. destruct xlen_cases as [-> | ->]; lia. Qed.

(** Truncation to [uxlen_t] and the value of the same bits as [xlen_t]. *)
Definition ux (x : Z) : Z := wrap XLEN x.
Definition sx (x : Z) : Z := sgn XLEN x.

(** A signed C value of w bits stored into a [uxlen_t]. *)
Definition sign_extend_8_to_xlen (v : Z) : Z := ux (sgn 8 v).
Definition sign_extend_16_to_xlen (v : Z) : Z := ux (sgn 16 v).
Definition sign_extend_32_to_xlen (v : Z) : Z := ux (sgn 32 v).
Definition sign_extend_64_to_xlen (v : Z) : Z := ux (sgn 64 v).
Definition zero_extend_8_to_xlen (v : Z) : Z := ux (wrap 8 v).
Definition zero_extend_16_to_xlen (v : Z) : Z := ux (wrap 16 v).
Definition zero_extend_32_to_xlen (v : Z) : Z := ux (wrap 32 v).
Definition zero_extend_64_to_xlen (v : Z) : Z := ux (wrap 64 v).

Definition shift_instr_mask : Z := if XLEN =? 32 then 0x1F else 0x3F.
Definition XLEN_UMAX : Z := Z.ones XLEN.
(** The bits of [XLEN_MIN] and of -1. *)
Definition XLEN_MIN : Z := 2 ^ (XLEN - 1).

Lemma ux_range x : in_width XLEN (ux x).
Proof. apply wrap_range. pose proof xlen_pos. lia. Qed.

Lemma ux_small x : in_width XLEN x → ux x = x.
Proof. apply wrap_small. Qed.

Lemma ux_idemp x : ux (ux x) = ux x.
Proof. apply ux_small, ux_range. Qed.
End Width.
#[export] Hint Resolve ux_range : widths.

(** ** Exceptions *)
Inductive rv_exc :=
  | rv_exc_supervisor_software_interrupt
  | rv_exc_machine_software_interrupt
  | rv_exc_supervisor_timer_interrupt
  | rv_exc_machine_timer_interrupt
  | rv_exc_supervisor_external_interrupt
  | rv_exc_machine_external_interrupt
  | rv_exc_instruction_address_misaligned
  | rv_exc_instruction_access_fault
  | rv_exc_illegal_instruction
  | rv_exc_breakpoint
  | rv_exc_load_address_misaligned
  | rv_exc_load_access_fault
  | rv_exc_store_amo_address_misaligned
  | rv_exc_store_amo_access_fault
  | rv_exc_umode_environment_call
  | rv_exc_smode_environment_call
  | rv_exc_mmode_environment_call
  | rv_exc_instruction_page_fault
  | rv_exc_load_page_fault
  | rv_exc_store_amo_page_fault.

#[export] Instance rv_exc_eq_dec : EqDecision rv_exc.
Proof. solve_decision. Defined.

(** The number below the interrupt bit, and whether that bit is set. *)
Definition exc_no (e : rv_exc) : Z :=
  match e with
  | rv_exc_supervisor_software_interrupt => 1
  | rv_exc_machine_software_interrupt => 3
  | rv_exc_supervisor_timer_interrupt => 5
  | rv_exc_machine_timer_interrupt => 7
  | rv_exc_supervisor_external_interrupt => 9
  | rv_exc_machine_external_interrupt => 11
  | rv_exc_instruction_address_misaligned => 0
  | rv_exc_instruction_access_fault => 1
  | rv_exc_illegal_instruction => 2
  | rv_exc_breakpoint => 3
  | rv_exc_load_address_misaligned => 4
  | rv_exc_load_access_fault => 5
  | rv_exc_store_amo_address_misaligned => 6
  | rv_exc_store_amo_access_fault => 7
  | rv_exc_umode_environment_call => 8
  | rv_exc_smode_environment_call => 9
  | rv_exc_mmode_environment_call => 11
  | rv_exc_instruction_page_fault => 12
  | rv_exc_load_page_fault => 13
  | rv_exc_store_amo_page_fault => 15
  end.

Definition is_interrupt (e : rv_exc) : bool :=
  match e with
  | rv_exc_supervisor_software_interrupt | rv_exc_machine_software_interrupt
  | rv_exc_supervisor_timer_interrupt | rv_exc_machine_timer_interrupt
  | rv_exc_supervisor_external_interrupt | rv_exc_machine_external_interrupt => true
  | _ => false
  end.

Definition RV_EXCEPTION_MASK (e : rv_exc) : Z := Z.shiftl 1 (exc_no e).

Definition RV_EXCEPTIONS_MASK : Z :=
  fold_right Z.lor 0 (map RV_EXCEPTION_MASK
    [rv_exc_instruction_address_misaligned; rv_exc_instruction_access_fault;
     rv_exc_illegal_instruction; rv_exc_breakpoint; rv_exc_load_address_misaligned;
     rv_exc_load_access_fault; rv_exc_store_amo_address_misaligned;
     rv_exc_store_amo_access_fault; rv_exc_umode_environment_call;
     rv_exc_smode_environment_call; rv_exc_mmode_environment_call;
     rv_exc_instruction_page_fault; rv_exc_load_page_fault; rv_exc_store_amo_page_fault]).

Definition RV_INTERRUPTS_MASK : Z :=
  fold_right Z.lor 0 (map RV_EXCEPTION_MASK
    [rv_exc_supervisor_software_interrupt; rv_exc_machine_software_interrupt;
     rv_exc_supervisor_external_interrupt; rv_exc_machine_external_interrupt;
     rv_exc_supervisor_timer_interrupt; rv_exc_machine_timer_interrupt]).

Section ExcCode.
Context `{Xlen}.
Definition RV_INTERRUPT_EXC_BITS : Z := Z.shiftl 1 (XLEN - 1).
(** The enumeration value, as stored in [mcause] and [scause]. *)
Definition exc_code (e : rv_exc) : Z :=
  Z.lor (if is_interrupt e then RV_INTERRUPT_EXC_BITS else 0) (exc_no e).
End ExcCode.

(** ** Results with exceptions

    A function returning [rv_exc_t] returns [inl e] where it returns the code
    of [e] and [inr] where it returns [rv_exc_none].  State changes made before
    an exception persist. *)
Abbreviation exec S A := (st S (rv_exc + A)%type).

Definition raise {S A} (e : rv_exc) : exec S A := mret (inl e).
Definition ok {S A} (a : A) : exec S A := mret (inr a).
Definition ebind {S A B} (m : exec S A) (f : A → exec S B) : exec S B :=
  r ← m; match r with inl e => raise e | inr a => f a end.
Definition lift {S A} (m : st S A) : exec S A := a ← m; ok a.

Notation "x ⇐ m ; k" := (ebind m (λ x, k))
  (at level 100, m at next level, right associativity, only parsing).
Notation "m ;;; k" := (ebind m (λ _, k))
  (at level 100, right associativity, only parsing).

Lemma ebind_Done_inr {S A B} (m : exec S A) (f : A → exec S B) s a s' :
  m s = Done (inr a, s') → ebind m f s = f a s'.
Proof. intros E. unfold ebind. by rewrite (bind_Done _ _ _ _ _ E). Qed.

Lemma ebind_Done_inl {S A B} (m : exec S A) (f : A → exec S B) s e s' :
  m s = Done (inl e, s') → ebind m f s = Done (inl e, s').
Proof. intros E. unfold ebind. by rewrite (bind_Done _ _ _ _ _ E). Qed.

(** Unfolds one layer of both monads. *)
Ltac emsimpl :=
  cbv [ebind raise ok lift mbind st_bind mret st_ret get_st gets put_st modify stop
       c_assert c_defined zoom].
Tactic Notation "emsimpl" "in" hyp(H) :=
  cbv [ebind raise ok lift mbind st_bind mret st_ret get_st gets put_st modify stop
       c_assert c_defined zoom] in H.

(** ** Privilege modes *)
Inductive rv_priv_mode := rv_umode | rv_smode | rv_rmode | rv_mmode.

#[export] Instance rv_priv_mode_eq_dec : EqDecision rv_priv_mode.
Proof. solve_decision. Defined.

Definition priv_num (p : rv_priv_mode) : Z :=
  match p with rv_umode => 0 | rv_smode => 1 | rv_rmode => 2 | rv_mmode => 3 end.

Definition priv_of_num (n : Z) : rv_priv_mode :=
  match n with 0 => rv_umode | 1 => rv_smode | 2 => rv_rmode | _ => rv_mmode end.

Definition priv_lt (p q : rv_priv_mode) : bool := priv_num p <? priv_num q.
Definition priv_eqb (p q : rv_priv_mode) : bool := priv_num p =? priv_num q.

Lemma priv_of_num_inv p : priv_of_num (priv_num p) = p.
Proof. by destruct p. Qed.

Lemma priv_eqb_spec p q : reflect (p = q) (priv_eqb p q).
Proof. destruct p, q; cbn; by constructor. Qed.

(** ** Instruction words *)
Module Instr.

(** The fields of the union [rv_instr_t]; signed bit-fields are [sbits]. *)
Definition opcode (i : Z) : Z := ubits i 0 7.
Definition rd (i : Z) : Z := ubits i 7 5.
Definition funct3 (i : Z) : Z := ubits i 12 3.
Definition rs1 (i : Z) : Z := ubits i 15 5.
Definition rs2 (i : Z) : Z := ubits i 20 5.
Definition funct7 (i : Z) : Z := ubits i 25 7.
Definition i_imm (i : Z) : Z := sbits i 20 12.
Definition s_imm4_0 (i : Z) : Z := ubits i 7 5.
Definition s_imm11_5 (i : Z) : Z := sbits i 25 7.
Definition b_imm11 (i : Z) : Z := ubits i 7 1.
Definition b_imm4_1 (i : Z) : Z := ubits i 8 4.
Definition b_imm10_5 (i : Z) : Z := ubits i 25 6.
Definition b_imm12 (i : Z) : Z := sbits i 31 1.
Definition u_imm (i : Z) : Z := ubits i 12 20.
Definition j_imm19_12 (i : Z) : Z := ubits i 12 8.
Definition j_imm11 (i : Z) : Z := ubits i 20 1.
Definition j_imm10_1 (i : Z) : Z := ubits i 21 10.
Definition j_imm20 (i : Z) : Z := sbits i 31 1.

Section Imm.
Context `{Xlen}.
Definition RV_S_IMM (i : Z) : Z := ux (Z.lor (Z.shiftl (s_imm11_5 i) 5) (s_imm4_0 i)).
Definition RV_R_FUNCT (i : Z) : Z := ux (Z.lor (Z.shiftl (funct7 i) 3) (funct3 i)).
Definition RV_I_UNSIGNED_IMM (i : Z) : Z := ux (Z.land (i_imm i) 0xFFF).
Definition RV_J_IMM (i : Z) : Z :=
  ux (Z.lor (Z.lor (Z.lor (Z.shiftl (j_imm20 i) 20) (Z.shiftl (j_imm19_12 i) 12))
                   (Z.shiftl (j_imm11 i) 11)) (Z.shiftl (j_imm10_1 i) 1)).
Definition RV_B_IMM (i : Z) : Z :=
  ux (Z.lor (Z.lor (Z.lor (Z.shiftl (b_imm12 i) 12) (Z.shiftl (b_imm11 i) 11))
                   (Z.shiftl (b_imm10_5 i) 5)) (Z.shiftl (b_imm4_1 i) 1)).
Definition RV_AMO_FUNCT (i : Z) : Z := Z.shiftr (funct7 i) 2.
End Imm.

(** Opcodes. *)
Definition rv_opcLOAD : Z := 0x03.
Definition rv_opcMISC_MEM : Z := 0x0F.
Definition rv_opcOP_IMM : Z := 0x13.
Definition rv_opcAUIPC : Z := 0x17.
Definition rv_opcSTORE : Z := 0x23.
Definition rv_opcAMO : Z := 0x2F.
Definition rv_opcOP : Z := 0x33.
Definition rv_opcLUI : Z := 0x37.
Definition rv_opcBRANCH : Z := 0x63.
Definition rv_opcJALR : Z := 0x67.
Definition rv_opcJAL : Z := 0x6F.
Definition rv_opcSYSTEM : Z := 0x73.

(** One constructor per instruction function a decoder returns; the last group
    only by the RV64 decoder, although every build compiles the functions. *)
Inductive instr_func :=
  | rv_illegal_instr
  | rv_lb_instr | rv_lh_instr | rv_lw_instr | rv_lbu_instr | rv_lhu_instr
  | rv_fence_instr
  | rv_addi_instr | rv_slti_instr | rv_sltiu_instr | rv_xori_instr | rv_ori_instr
  | rv_andi_instr | rv_slli_instr | rv_srli_instr | rv_srai_instr
  | rv_auipc_instr
  | rv_sb_instr | rv_sh_instr | rv_sw_instr
  | rv_lr_w_instr | rv_sc_w_instr | rv_amoswap_w_instr | rv_amoadd_w_instr
  | rv_amoxor_w_instr | rv_amoand_w_instr | rv_amoor_w_instr | rv_amomin_w_instr
  | rv_amomax_w_instr | rv_amominu_w_instr | rv_amomaxu_w_instr
  | rv_add_instr | rv_sub_instr | rv_sll_instr | rv_slt_instr | rv_sltu_instr
  | rv_xor_instr | rv_srl_instr | rv_sra_instr | rv_or_instr | rv_and_instr
  | rv_mul_instr | rv_mulh_instr | rv_mulhsu_instr | rv_mulhu_instr
  | rv_div_instr | rv_divu_instr | rv_rem_instr | rv_remu_instr
  | rv_lui_instr
  | rv_beq_instr | rv_bne_instr | rv_blt_instr | rv_bltu_instr | rv_bge_instr | rv_bgeu_instr
  | rv_jalr_instr | rv_jal_instr
  | rv_break_instr | rv_halt_instr | rv_dump_instr | rv_trace_set_instr
  | rv_trace_reset_instr | rv_csr_rd_instr | rv_call_instr | rv_sret_instr
  | rv_mret_instr | rv_wfi_instr | rv_sfence_instr
  | rv_csrrw_instr | rv_csrrs_instr | rv_csrrc_instr
  | rv_csrrwi_instr | rv_csrrsi_instr | rv_csrrci_instr
  | rv_lwu_instr | rv_ld_instr | rv_sd_instr
  | rv_addiw_instr | rv_slliw_instr | rv_srliw_instr | rv_sraiw_instr
  | rv_addw_instr | rv_subw_instr | rv_sllw_instr | rv_srlw_instr | rv_sraw_instr
  | rv_mulw_instr | rv_divw_instr | rv_divuw_instr | rv_remw_instr | rv_remuw_instr
  | rv_lr_instr | rv_sc_instr | rv_amoswap_d_instr | rv_amoadd_d_instr
  | rv_amoxor_d_instr | rv_amoand_d_instr | rv_amoor_d_instr | rv_amomin_d_instr
  | rv_amomax_d_instr | rv_amominu_d_instr | rv_amomaxu_d_instr.

Lemma rd_range i : 0 ≤ rd i < 32.
Proof. apply (ubits_range i 7 5). lia. Qed.
Lemma rs1_range i : 0 ≤ rs1 i < 32.
Proof. apply (ubits_range i 15 5). lia. Qed.
Lemma rs2_range i : 0 ≤ rs2 i < 32.
Proof. apply (ubits_range i 20 5). lia. Qed.
End Instr.
