(* ===== verification/RvCpu.v ===== *)
(** * State of a RISC-V processor (riscv_rv_ima/csr.h: [rv_csr_t], riscv_rv32ima/cpu.h: [rv32_cpu_t])

    The records have the source's fields.  Arrays are finite maps whose absent
    entries are zero; the TLB is a type parameter because the RV32 and RV64
    processors differ in it.  [pmpcfgs] and [pmpaddrs] are left out: every access
    to them raises an exception before the arrays are used, as [bps] is (the code
    breakpoints of the debugger, which the processor itself never reads). *)

From S2P Require Import Prelude RvTypes.

Record rv_csr := mk_csr {
  cycle : Z;
  instret : Z;
  hpmcounters : gmap Z Z;
  hpmevents : gmap Z Z;
  misa : Z;
  mvendorid : Z;
  marchid : Z;
  mimpid : Z;
  mhartid : Z;
  mconfigptr : Z;
  mstatus : Z;
  mtvec : Z;
  medeleg : Z;
  mideleg : Z;
  mip : Z;
  mie : Z;
  mscratch : Z;
  mepc : Z;
  mcause : Z;
  mtval : Z;
  mcounteren : Z;
  mcountinhibit : Z;
  menvcfg : Z;
  mseccfg : Z;
  mcontext : Z;
  stvec : Z;
  scounteren : Z;
  sscratch : Z;
  sepc : Z;
  scause : Z;
  stval : Z;
  senvcfg : Z;
  satp : Z;
  scontext : Z;
  tval_next : Z;
  external_SEIP : bool;
  mtime : Z;
  last_tick_time : Z;
  mtimecmp : Z;
  scyclecmp : Z;
  external_STIP : bool;
  asid_len : Z
}.

#[export] Instance eta_rv_csr : Eta rv_csr := λ r,
  mk_csr (cycle r) (instret r) (hpmcounters r) (hpmevents r) (misa r) (mvendorid r) (marchid r)
    (mimpid r) (mhartid r) (mconfigptr r) (mstatus r) (mtvec r) (medeleg r) (mideleg r) (mip r)
    (mie r) (mscratch r) (mepc r) (mcause r) (mtval r) (mcounteren r) (mcountinhibit r)
    (menvcfg r) (mseccfg r) (mcontext r) (stvec r) (scounteren r) (sscratch r) (sepc r)
    (scause r) (stval r) (senvcfg r) (satp r) (scontext r) (tval_next r) (external_SEIP r)
    (mtime r) (last_tick_time r) (mtimecmp r) (scyclecmp r) (external_STIP r) (asid_len r).
#[export] Instance set_cycle : SetField cycle := ltac:(derive_set_field).
#[export] Instance set_instret : SetField instret := ltac:(derive_set_field).
#[export] Instance set_hpmcounters : SetField hpmcounters := ltac:(derive_set_field).
#[export] Instance set_hpmevents : SetField hpmevents := ltac:(derive_set_field).
#[export] Instance set_misa : SetField misa := ltac:(derive_set_field).
#[export] Instance set_mvendorid : SetField mvendorid := ltac:(derive_set_field).
#[export] Instance set_marchid : SetField marchid := ltac:(derive_set_field).
#[export] Instance set_mimpid : SetField mimpid := ltac:(derive_set_field).
#[export] Instance set_mhartid : SetField mhartid := ltac:(derive_set_field).
#[export] Instance set_mconfigptr : SetField mconfigptr := ltac:(derive_set_field).
#[export] Instance set_mstatus : SetField mstatus := ltac:(derive_set_field).
#[export] Instance set_mtvec : SetField mtvec := ltac:(derive_set_field).
#[export] Instance set_medeleg : SetField medeleg := ltac:(derive_set_field).
#[export] Instance set_mideleg : SetField mideleg := ltac:(derive_set_field).
#[export] Instance set_mip : SetField mip := ltac:(derive_set_field).
#[export] Instance set_mie : SetField mie := ltac:(derive_set_field).
#[export] Instance set_mscratch : SetField mscratch := ltac:(derive_set_field).
#[export] Instance set_mepc : SetField mepc := ltac:(derive_set_field).
#[export] Instance set_mcause : SetField mcause := ltac:(derive_set_field).
#[export] Instance set_mtval : SetField mtval := ltac:(derive_set_field).
#[export] Instance set_mcounteren : SetField mcounteren := ltac:(derive_set_field).
#[export] Instance set_mcountinhibit : SetField mcountinhibit := ltac:(derive_set_field).
#[export] Instance set_menvcfg : SetField menvcfg := ltac:(derive_set_field).
#[export] Instance set_mseccfg : SetField mseccfg := ltac:(derive_set_field).
#[export] Instance set_mcontext : SetField mcontext := ltac:(derive_set_field).
#[export] Instance set_stvec : SetField stvec := ltac:(derive_set_field).
#[export] Instance set_scounteren : SetField scounteren := ltac:(derive_set_field).
#[export] Instance set_sscratch : SetField sscratch := ltac:(derive_set_field).
#[export] Instance set_sepc : SetField sepc := ltac:(derive_set_field).
#[export] Instance set_scause : SetField scause := ltac:(derive_set_field).
#[export] Instance set_stval : SetField stval := ltac:(derive_set_field).
#[export] Instance set_senvcfg : SetField senvcfg := ltac:(derive_set_field).
#[export] Instance set_satp : SetField satp := ltac:(derive_set_field).
#[export] Instance set_scontext : SetField scontext := ltac:(derive_set_field).
#[export] Instance set_tval_next : SetField tval_next := ltac:(derive_set_field).
#[export] Instance set_external_SEIP : SetField external_SEIP := ltac:(derive_set_field).
#[export] Instance set_mtime : SetField mtime := ltac:(derive_set_field).
#[export] Instance set_last_tick_time : SetField last_tick_time := ltac:(derive_set_field).
#[export] Instance set_mtimecmp : SetField mtimecmp := ltac:(derive_set_field).
#[export] Instance set_scyclecmp : SetField scyclecmp := ltac:(derive_set_field).
#[export] Instance set_external_STIP : SetField external_STIP := ltac:(derive_set_field).
#[export] Instance set_asid_len : SetField asid_len := ltac:(derive_set_field).

Section Cpu.
Context {T : Type}.

Record rv_cpu := mk_cpu {
  regs : gmap Z Z;
  csr : rv_csr;
  pc : Z;
  pc_next : Z;
  priv_mode : rv_priv_mode;
  reserved_valid : bool;
  reserved_addr : Z;
  stdby : bool;
  tlb : T
}.

#[export] Instance eta_rv_cpu : Eta rv_cpu := λ r,
  mk_cpu (regs r) (csr r) (pc r) (pc_next r) (priv_mode r) (reserved_valid r) (reserved_addr r) (stdby r) (tlb r).
#[export] Instance set_regs : SetField regs := ltac:(derive_set_field).
#[export] Instance set_csr : SetField csr := ltac:(derive_set_field).
#[export] Instance set_pc : SetField pc := ltac:(derive_set_field).
#[export] Instance set_pc_next : SetField pc_next := ltac:(derive_set_field).
#[export] Instance set_priv_mode : SetField priv_mode := ltac:(derive_set_field).
#[export] Instance set_reserved_valid : SetField reserved_valid := ltac:(derive_set_field).
#[export] Instance set_reserved_addr : SetField reserved_addr := ltac:(derive_set_field).
#[export] Instance set_stdby : SetField stdby := ltac:(derive_set_field).
#[export] Instance set_tlb : SetField tlb := ltac:(derive_set_field).
End Cpu.
Arguments rv_cpu T : clear implicits.

(** [cpu->regs[r]]; register numbers are 5-bit fields. *)
Definition reg {T} (r : Z) (c : rv_cpu T) : Z := default 0 (regs c !! r).
Definition set_reg {T} (r v : Z) (c : rv_cpu T) : rv_cpu T := c <| regs := <[r := v]> (regs c) |>.

(** [cpu->csr.f = v]. *)
Definition with_csr {T} (f : rv_csr → rv_csr) (c : rv_cpu T) : rv_cpu T := c <| csr := f (csr c) |>.

Lemma reg_set_reg {T} r r' v (c : rv_cpu T) :
  reg r (set_reg r' v c) = if decide (r' = r) then v else reg r c.
Proof. unfold reg, set_reg. cbn. rewrite lookup_insert. by case_decide. Qed.
