(* ===== verification/RvCsr.v ===== *)
(** * Control and status registers (riscv_rv_ima/csr.h, riscv_rv_ima/csr.c, riscv_rv32ima/csr.c)

    Every CSR has four operations: read, write, set bits and clear bits.  The
    functions of csr.c are transcribed one by one, grouped per register into a
    record [csr_ops]; [get_csr_kind] and [ops_of] are the switch of
    [get_csr_ops].  [rv_csr_rw], [rv_csr_rs] and [rv_csr_rc] implement the CSR
    instructions.
    Their theorems are in [RvCsrProps]. *)

From S2P Require Import Prelude RvTypes RvCpu.

(** ** Constants of csr.h *)
Definition rv_csr_mstatus_tsr_mask : Z := Z.shiftl 1 22.
Definition rv_csr_mstatus_tw_mask : Z := Z.shiftl 1 21.
Definition rv_csr_mstatus_tvm_mask : Z := Z.shiftl 1 20.
Definition rv_csr_mstatus_mprv_mask : Z := Z.shiftl 1 17.
Definition rv_csr_mstatus_mpp_mask : Z := Z.shiftl 3 11.
Definition rv_csr_mstatus_mpie_mask : Z := Z.shiftl 1 7.
Definition rv_csr_mstatus_mie_mask : Z := Z.shiftl 1 3.
Definition rv_csr_mstatus_mpp_pos : Z := 11.
Definition rv_csr_sstatus_mxr_mask : Z := Z.shiftl 1 19.
Definition rv_csr_sstatus_sum_mask : Z := Z.shiftl 1 18.
Definition rv_csr_sstatus_spp_mask : Z := Z.shiftl 1 8.
Definition rv_csr_sstatus_spie_mask : Z := Z.shiftl 1 5.
Definition rv_csr_sstatus_sie_mask : Z := Z.shiftl 1 1.
Definition rv_csr_sstatus_spp_pos : Z := 8.

Definition rv_csr_sstatus_mask : Z :=
  fold_right Z.lor 0 [rv_csr_sstatus_mxr_mask; rv_csr_sstatus_sum_mask;
    rv_csr_sstatus_spp_mask; rv_csr_sstatus_spie_mask; rv_csr_sstatus_sie_mask].
Definition rv_csr_mstatus_mask : Z :=
  fold_right Z.lor 0 [rv_csr_sstatus_mask; rv_csr_mstatus_tsr_mask; rv_csr_mstatus_tw_mask;
    rv_csr_mstatus_tvm_mask; rv_csr_mstatus_mprv_mask; rv_csr_mstatus_mpp_mask;
    rv_csr_mstatus_mpie_mask; rv_csr_mstatus_mie_mask].

Definition rv_csr_sei_mask : Z := Z.shiftl 1 9.
Definition rv_csr_sti_mask : Z := Z.shiftl 1 5.
Definition rv_csr_ssi_mask : Z := Z.shiftl 1 1.
Definition rv_csr_mei_mask : Z := Z.shiftl 1 11.
Definition rv_csr_mti_mask : Z := Z.shiftl 1 7.
Definition rv_csr_msi_mask : Z := Z.shiftl 1 3.
Definition rv_csr_si_mask : Z :=
  Z.lor (Z.lor rv_csr_sei_mask rv_csr_sti_mask) rv_csr_ssi_mask.
Definition rv_csr_mi_mask : Z :=
  Z.lor (Z.lor (Z.lor rv_csr_si_mask rv_csr_mei_mask) rv_csr_mti_mask) rv_csr_msi_mask.

Definition rv_csr_mtvec_mode_mask : Z := 3.
Definition rv_csr_mtvec_mode_direct : Z := 0.
Definition rv_csr_mtvec_mode_vectored : Z := 1.

Section Satp.
Context `{Xlen}.
Definition rv_csr_satp_mode_mask : Z := if XLEN =? 32 then 0x80000000 else Z.shiftl 8 60.
Definition rv_csr_asid_mask : Z := if XLEN =? 32 then 0x7FC00000 else 0xFFFF00000000000.
Definition rv_csr_satp_ppn_mask : Z := if XLEN =? 32 then 0x003FFFFF else 0xFFFFFFFFFFF.
Definition rv_csr_satp_asid_offset : Z := if XLEN =? 32 then 22 else 44.
Definition rv_asid_len : Z := if XLEN =? 32 then 9 else 16.
Definition rv_asid_mask : Z := Z.shiftl 1 rv_asid_len - 1.
End Satp.

(** ** Status fields *)
Section Fields.
Context {T : Type} `{Xlen}.
Implicit Types c : rv_cpu T.

Definition mstatus_bit (mask : Z) c : bool := truthy (Z.land (mstatus (csr c)) mask).
Definition rv_csr_mstatus_tsr := mstatus_bit rv_csr_mstatus_tsr_mask.
Definition rv_csr_mstatus_tw := mstatus_bit rv_csr_mstatus_tw_mask.
Definition rv_csr_mstatus_tvm := mstatus_bit rv_csr_mstatus_tvm_mask.
Definition rv_csr_mstatus_mprv := mstatus_bit rv_csr_mstatus_mprv_mask.
Definition rv_csr_mstatus_mpie := mstatus_bit rv_csr_mstatus_mpie_mask.
Definition rv_csr_mstatus_mie := mstatus_bit rv_csr_mstatus_mie_mask.
Definition rv_csr_sstatus_mxr := mstatus_bit rv_csr_sstatus_mxr_mask.
Definition rv_csr_sstatus_sum := mstatus_bit rv_csr_sstatus_sum_mask.
Definition rv_csr_sstatus_spie := mstatus_bit rv_csr_sstatus_spie_mask.
Definition rv_csr_sstatus_sie := mstatus_bit rv_csr_sstatus_sie_mask.

Definition mpp_of (mst : Z) : rv_priv_mode :=
  priv_of_num (Z.shiftr (Z.land mst rv_csr_mstatus_mpp_mask) rv_csr_mstatus_mpp_pos).
Definition spp_of (mst : Z) : rv_priv_mode :=
  priv_of_num (Z.shiftr (Z.land mst rv_csr_sstatus_spp_mask) rv_csr_sstatus_spp_pos).
Definition rv_csr_mstatus_mpp c : rv_priv_mode := mpp_of (mstatus (csr c)).
Definition rv_csr_sstatus_spp c : rv_priv_mode := spp_of (mstatus (csr c)).

Definition rv_csr_satp_is_bare c : bool :=
  truthy (Z.land (c_not XLEN (satp (csr c))) rv_csr_satp_mode_mask).
Definition rv_csr_satp_ppn c : Z := Z.land (satp (csr c)) rv_csr_satp_ppn_mask.
Definition rv_csr_satp_asid c : Z :=
  Z.shiftr (Z.land (satp (csr c)) rv_csr_asid_mask) rv_csr_satp_asid_offset.

Definition sv32_effective_priv c : rv_priv_mode :=
  if rv_csr_mstatus_mprv c then rv_csr_mstatus_mpp c else priv_mode c.
Definition rv32_effective_priv c : rv_priv_mode :=
  if rv_csr_satp_is_bare c then priv_mode c else sv32_effective_priv c.
End Fields.

(** ** The operations *)
Section Ops.
Context {T : Type} `{Xlen}.
Abbreviation C := (rv_cpu T).

Record csr_ops := mk_ops {
  ops_read : Z → exec C Z;
  ops_write : Z → Z → exec C unit;
  ops_set : Z → Z → exec C unit;
  ops_clear : Z → Z → exec C unit
}.

Definition rv_csr_min_priv_mode (n : Z) : rv_priv_mode := priv_of_num (Z.land (Z.shiftr n 8) 3).

Definition minimal_privilege (p : rv_priv_mode) : exec C unit :=
  c ← get_st; if priv_lt (priv_mode c) p then raise rv_exc_illegal_instruction else ok tt.

Definition upd (f : rv_csr → rv_csr) : exec C unit := modify (with_csr f);; ok tt.
Definition rd_csr (f : rv_csr → Z) : exec C Z := c ← get_st; ok (f (csr c)).

Definition invalid_read (_ : Z) : exec C Z := raise rv_exc_illegal_instruction.
Definition invalid_write (_ _ : Z) : exec C unit := raise rv_exc_illegal_instruction.
Definition invalid_ops : csr_ops := mk_ops invalid_read invalid_write invalid_write invalid_write.

(** The macro [default_csr_functions(csr_name, priv)]. *)
Definition default_csr_functions (f : rv_csr → Z) `{!SetField f} (p : rv_priv_mode) : csr_ops :=
  mk_ops
    (λ _, minimal_privilege p;;; rd_csr f)
    (λ _ v, minimal_privilege p;;; upd (λ r, r <| f := v |>))
    (λ _ v, minimal_privilege p;;; upd (λ r, r <| f := Z.lor (f r) v |>))
    (λ _ v, minimal_privilege p;;; upd (λ r, r <| f := Z.land (f r) (c_not XLEN v) |>)).

(** The shape shared by the registers written through a constant mask. *)
Definition masked_csr_functions (f : rv_csr → Z) `{!SetField f} (p : rv_priv_mode) (mask : Z)
    : csr_ops :=
  mk_ops
    (λ _, minimal_privilege p;;; rd_csr f)
    (λ _ v, minimal_privilege p;;; upd (λ r, r <| f := Z.land v mask |>))
    (λ _ v, minimal_privilege p;;; upd (λ r, r <| f := Z.lor (f r) (Z.land v mask) |>))
    (λ _ v, minimal_privilege p;;;
       upd (λ r, r <| f := Z.land (f r) (c_not XLEN (Z.land v mask)) |>)).

(** Registers whose writes are ignored. *)
Definition ignored_csr_functions (p : rv_priv_mode) (value : rv_csr → Z) : csr_ops :=
  mk_ops (λ _, minimal_privilege p;;; rd_csr value)
    (λ _ _, minimal_privilege p) (λ _ _, minimal_privilege p) (λ _ _, minimal_privilege p).

(** *** Counters *)
Definition EXTRACT_BITS (val start stop : Z) : Z :=
  Z.land (Z.shiftr val start) (Z.shiftl 1 (stop - start) - 1).

Definition is_high_counter (n : Z) : bool := truthy (Z.land n 0x80).

Definition hpm_slot (a : gmap Z Z) (idx : Z) : exec C Z :=
  c_defined ((0 <=? idx) && (idx <? 29));; ok (default 0 (a !! idx)).

Definition read_counter_csr_unchecked (n : Z) : exec C Z :=
  let counter := Z.land n 0x1F in
  let offset := if is_high_counter n then 32 else 0 in
  c ← get_st;
  match counter with
  | 0 => ok (ux (EXTRACT_BITS (cycle (csr c)) offset (offset + 32)))
  | 1 => ok (ux (EXTRACT_BITS (mtime (csr c)) offset (offset + 32)))
  | 2 => ok (ux (EXTRACT_BITS (instret (csr c)) offset (offset + 32)))
  | _ => hpc ⇐ hpm_slot (hpmcounters (csr c)) (counter - 3);
         ok (ux (EXTRACT_BITS hpc offset (offset + 32)))
  end.

(** [enable & (1 << counter)]: the shift is undefined beyond the width of int. *)
Definition is_counter_enabled (enable counter : Z) : st C bool :=
  c_defined ((0 <=? counter) && (counter <? 32));;
  mret (truthy (Z.land enable (ux (sgn 32 (Z.shiftl 1 counter))))).

Definition counter_read (n : Z) : exec C Z :=
  let counter := n * 0x1F in
  c ← get_st;
  if negb (priv_eqb (rv_csr_min_priv_mode n) rv_mmode) then
    m_off ← (if priv_eqb (priv_mode c) rv_smode
             then e ← is_counter_enabled (mcounteren (csr c)) counter; mret (negb e)
             else mret false);
    if (m_off : bool) then raise rv_exc_illegal_instruction
    else
      u_off ← (if priv_eqb (priv_mode c) rv_umode
               then e ← is_counter_enabled (mcounteren (csr c)) counter;
                    if (e : bool)
                    then e' ← is_counter_enabled (scounteren (csr c)) counter; mret (negb e')
                    else mret true
               else mret false);
      if (u_off : bool) then raise rv_exc_illegal_instruction
      else read_counter_csr_unchecked n
  else if negb (priv_eqb (priv_mode c) rv_mmode) then raise rv_exc_illegal_instruction
  else if counter =? 1 then raise rv_exc_illegal_instruction
  else read_counter_csr_unchecked n.

(** The checks shared by the modifying counter operations. *)
Definition counter_modifiable (n : Z) : exec C unit :=
  minimal_privilege rv_mmode;;;
  if negb (priv_eqb (rv_csr_min_priv_mode n) rv_mmode) then raise rv_exc_illegal_instruction
  else if Z.land n 0x1F =? 1 then raise rv_exc_illegal_instruction
  else ok tt.

(** Stores [g] of the counter register [n], chosen by the register number. *)
Definition modify_counter (n : Z) (g : Z → Z) (stip : rv_csr → bool) : exec C unit :=
  match n with
  | 0xB00 => upd (λ r, let r' := r <| cycle := g (cycle r) |> in
                       r' <| external_STIP := stip r' |>)
  | 0xB02 => upd (λ r, r <| instret := g (instret r) |>)
  | _ =>
      let idx := Z.land n 0x1F - 3 in
      c ← get_st;
      hpc ⇐ hpm_slot (hpmcounters (csr c)) idx;
      upd (λ r, r <| hpmcounters := <[idx := g hpc]> (hpmcounters r) |>)
  end.

(** [((uxlen_t) cycle) >= scyclecmp] *)
Definition stip_now (r : rv_csr) : bool := scyclecmp r <=? ux (cycle r).

Definition counter_write (n v : Z) : exec C unit :=
  counter_modifiable n;;;
  let '(val, mask) :=
    if is_high_counter n then (wrap 64 (Z.shiftl v 32), 0x00000000FFFFFFFF)
    else (v, 0xFFFFFFFF00000000) in
  modify_counter n (λ x, Z.lor (Z.land x mask) val) stip_now.

Definition counter_val (n v : Z) : Z := if is_high_counter n then wrap 64 (Z.shiftl v 32) else v.

Definition counter_set (n v : Z) : exec C unit :=
  counter_modifiable n;;;
  modify_counter n (λ x, Z.lor x (counter_val n v)) stip_now.

(** [counter_clear] compares all 64 bits of [cycle]. *)
Definition counter_clear (n v : Z) : exec C unit :=
  counter_modifiable n;;;
  modify_counter n (λ x, Z.land x (c_not 64 (counter_val n v))) (λ r, scyclecmp r <=? cycle r).

Definition counter_ops : csr_ops := mk_ops counter_read counter_write counter_set counter_clear.

Definition mcountinhibit_mask : Z := c_not 32 2.
Definition mcountinhibit_ops : csr_ops :=
  masked_csr_functions mcountinhibit rv_mmode mcountinhibit_mask.

(** *** Event selectors *)
Definition hpm_event_count : Z := 6.

Definition mhpmevent_read (n : Z) : exec C Z :=
  minimal_privilege rv_mmode;;;
  c ← get_st; hpm_slot (hpmevents (csr c)) (Z.land n 0x1F - 3).

Definition put_event (n v : Z) : exec C unit :=
  upd (λ r, r <| hpmevents := <[Z.land n 0x1F - 3 := v]> (hpmevents r) |>).

Definition mhpmevent_write (n v : Z) : exec C unit :=
  minimal_privilege rv_mmode;;;
  if v <? hpm_event_count
  then c ← get_st; _ ⇐ hpm_slot (hpmevents (csr c)) (Z.land n 0x1F - 3); put_event n v
  else ok tt.

(** The new value is an [int], compared as a signed number. *)
Definition mhpmevent_set (n v : Z) : exec C unit :=
  minimal_privilege rv_mmode;;;
  c ← get_st;
  old ⇐ hpm_slot (hpmevents (csr c)) (Z.land n 0x1F - 3);
  let val := sgn 32 (Z.lor old v) in
  if val <? hpm_event_count then put_event n (ux val) else ok tt.

Definition mhpmevent_clear (n v : Z) : exec C unit :=
  minimal_privilege rv_mmode;;;
  c ← get_st;
  old ⇐ hpm_slot (hpmevents (csr c)) (Z.land n 0x1F - 3);
  let val := sgn 32 (Z.land old (c_not XLEN v)) in
  if val <? hpm_event_count then put_event n (ux val) else ok tt.

Definition mhpmevent_ops : csr_ops :=
  mk_ops mhpmevent_read mhpmevent_write mhpmevent_set mhpmevent_clear.

(** *** Supervisor registers *)
Definition HIGH_HALF : Z := 0xFFFFFFFF00000000.

Definition sstatus_ops : csr_ops := mk_ops
  (λ _, minimal_privilege rv_smode;;; rd_csr (λ r, ux (Z.land (mstatus r) rv_csr_sstatus_mask)))
  (λ _ v, minimal_privilege rv_smode;;;
     upd (λ r, r <| mstatus := Z.lor (Z.land (mstatus r) HIGH_HALF)
                                     (Z.land v rv_csr_sstatus_mask) |>))
  (λ _ v, minimal_privilege rv_smode;;;
     upd (λ r, r <| mstatus := Z.lor (mstatus r) (Z.land v rv_csr_sstatus_mask) |>))
  (λ _ v, minimal_privilege rv_smode;;;
     upd (λ r, r <| mstatus := Z.land (mstatus r)
                                 (c_not XLEN (Z.land v rv_csr_sstatus_mask)) |>)).

Definition sie_ops : csr_ops := mk_ops
  (λ _, minimal_privilege rv_smode;;; rd_csr (λ r, Z.land (mie r) rv_csr_si_mask))
  (λ _ v, minimal_privilege rv_smode;;;
     upd (λ r, r <| mie := Z.land (mie r) (c_not 32 rv_csr_si_mask) |>);;;
     upd (λ r, r <| mie := Z.lor (mie r) (Z.land v rv_csr_si_mask) |>))
  (λ _ v, minimal_privilege rv_smode;;;
     upd (λ r, r <| mie := Z.lor (mie r) (Z.land v rv_csr_si_mask) |>))
  (λ _ v, minimal_privilege rv_smode;;;
     upd (λ r, r <| mie := Z.land (mie r) (c_not XLEN (Z.land v rv_csr_si_mask)) |>)).

(** The pending bits raised from outside the register. *)
Definition external_pending (r : rv_csr) : Z :=
  Z.lor (if external_SEIP r then rv_csr_sei_mask else 0)
        (if external_STIP r then rv_csr_sti_mask else 0).

Definition sip_ops : csr_ops := mk_ops
  (λ _, minimal_privilege rv_smode;;;
     rd_csr (λ r, Z.lor (Z.land (mip r) rv_csr_si_mask) (external_pending r)))
  (λ _ v, minimal_privilege rv_smode;;;
     upd (λ r, r <| mip := Z.land (mip r) (c_not 32 rv_csr_ssi_mask) |>);;;
     upd (λ r, r <| mip := Z.lor (mip r) (Z.land v rv_csr_ssi_mask) |>))
  (λ _ v, minimal_privilege rv_smode;;;
     upd (λ r, r <| mip := Z.lor (mip r) (Z.land v rv_csr_ssi_mask) |>))
  (λ _ v, minimal_privilege rv_smode;;;
     upd (λ r, r <| mip := Z.land (mip r) (c_not XLEN (Z.land v rv_csr_ssi_mask)) |>)).

Definition scvec_mask : Z := 0xFFFFFFFD.
Definition senvcfg_mask : Z := 0x71.
Definition sepc_mask : Z := if XLEN =? 32 then 0xFFFFFFFC else 0xFFFFFFFFFFFFFFFC.

Definition stvec_ops : csr_ops := masked_csr_functions stvec rv_smode scvec_mask.
Definition scounteren_ops : csr_ops := default_csr_functions scounteren rv_smode.
Definition senvcfg_ops : csr_ops := masked_csr_functions senvcfg rv_smode senvcfg_mask.
Definition sscratch_ops : csr_ops := default_csr_functions sscratch rv_smode.
Definition sepc_ops : csr_ops := masked_csr_functions sepc rv_smode sepc_mask.
Definition stval_ops : csr_ops := default_csr_functions stval rv_smode.
Definition scontext_ops : csr_ops := default_csr_functions scontext rv_smode.

(** On RV32 the mask shifts by the number without the interrupt bit, which is
    undefined from 32 on; on RV64 the number is reduced to 6 bits. *)
Definition is_exception_code (num : Z) : st C bool :=
  let sh := if XLEN =? 32 then Z.land num (c_not 32 RV_INTERRUPT_EXC_BITS) else Z.land num 0x3F in
  c_defined (sh <? XLEN);;
  mret (if truthy (Z.land RV_INTERRUPT_EXC_BITS num)
        then truthy (Z.land (Z.shiftl 1 sh) RV_INTERRUPTS_MASK)
        else truthy (Z.land (Z.shiftl 1 sh) RV_EXCEPTIONS_MASK)).

(** [scause] and [mcause]: only existing causes are accepted. *)
Definition put_cause (f : rv_csr → Z) `{!SetField f} (v : Z) : exec C unit :=
  b ← is_exception_code v;
  if (b : bool) then upd (λ r, r <| f := v |>) else raise rv_exc_illegal_instruction.

Definition cause_ops (f : rv_csr → Z) `{!SetField f} (p : rv_priv_mode) : csr_ops := mk_ops
  (λ _, minimal_privilege p;;; rd_csr f)
  (λ _ v, minimal_privilege p;;; put_cause f v)
  (λ _ v, minimal_privilege p;;; c ← get_st; put_cause f (Z.lor v (f (csr c))))
  (λ _ v, minimal_privilege p;;; c ← get_st; put_cause f (Z.land (c_not XLEN v) (f (csr c)))).

Definition scause_ops : csr_ops := cause_ops scause rv_smode.
Definition mcause_ops : csr_ops := cause_ops mcause rv_mmode.

Definition satp_guard : exec C unit :=
  minimal_privilege rv_smode;;;
  c ← get_st; if rv_csr_mstatus_tvm c then raise rv_exc_illegal_instruction else ok tt.

Definition satp_write_mask (r : rv_csr) : Z :=
  let active_asid_mask :=
    ux (Z.shiftl (Z.shiftl 1 (asid_len r) - 1) rv_csr_satp_asid_offset) in
  Z.lor (Z.lor rv_csr_satp_mode_mask active_asid_mask) rv_csr_satp_ppn_mask.

Definition satp_settle : exec C unit :=
  c ← get_st; if rv_csr_satp_is_bare c then upd (λ r, r <| satp := 0 |>) else ok tt.

Definition satp_ops : csr_ops := mk_ops
  (λ _, satp_guard;;; rd_csr satp)
  (λ _ v, satp_guard;;; upd (λ r, r <| satp := Z.land v (satp_write_mask r) |>);;; satp_settle)
  (λ _ v, satp_guard;;;
     upd (λ r, r <| satp := Z.lor (satp r) (Z.land v (satp_write_mask r)) |>);;; satp_settle)
  (λ _ v, satp_guard;;;
     upd (λ r, r <| satp := Z.land (satp r) (c_not XLEN (Z.land v (satp_write_mask r))) |>);;;
     satp_settle).

Definition update_stip : exec C unit := upd (λ r, r <| external_STIP := stip_now r |>).

Definition scyclecmp_ops : csr_ops := mk_ops
  (λ _, minimal_privilege rv_smode;;; rd_csr scyclecmp)
  (λ _ v, minimal_privilege rv_smode;;; upd (λ r, r <| scyclecmp := v |>);;; update_stip)
  (λ _ v, minimal_privilege rv_smode;;;
     upd (λ r, r <| scyclecmp := Z.lor (scyclecmp r) v |>);;; update_stip)
  (λ _ v, minimal_privilege rv_smode;;;
     upd (λ r, r <| scyclecmp := Z.land (scyclecmp r) (c_not XLEN v) |>);;; update_stip).

(** *** Machine registers *)
Definition read_only_ops (f : rv_csr → Z) : csr_ops :=
  mk_ops (λ _, minimal_privilege rv_mmode;;; rd_csr f) invalid_write invalid_write invalid_write.

Definition mpp_reserved (v : Z) : bool :=
  Z.shiftr (Z.land v rv_csr_mstatus_mpp_mask) 11 =? priv_num rv_rmode.

Definition mstatus_write (_ v : Z) : exec C unit :=
  minimal_privilege rv_mmode;;;
  upd (λ r,
    let val := Z.land v rv_csr_mstatus_mask in
    let val := if mpp_reserved val
               then Z.lor (Z.land val (c_not XLEN rv_csr_mstatus_mpp_mask))
                          (Z.land (ux (mstatus r)) rv_csr_mstatus_mpp_mask)
               else val in
    r <| mstatus := Z.lor (Z.land (mstatus r) HIGH_HALF) val |>).

Definition mstatus_set (_ v : Z) : exec C unit :=
  minimal_privilege rv_mmode;;;
  upd (λ r,
    let value := Z.land v rv_csr_mstatus_mask in
    let new_val := Z.lor value (mstatus r) in
    let value := if mpp_reserved new_val
                 then Z.land value (c_not XLEN rv_csr_mstatus_mpp_mask) else value in
    r <| mstatus := Z.lor (mstatus r) value |>).

Definition mstatus_clear (_ v : Z) : exec C unit :=
  minimal_privilege rv_mmode;;;
  upd (λ r,
    let value := Z.land v rv_csr_mstatus_mask in
    let new_val := Z.land (c_not 64 value) (mstatus r) in
    let value := if mpp_reserved new_val
                 then Z.land value (c_not XLEN rv_csr_mstatus_mpp_mask) else value in
    r <| mstatus := Z.land (mstatus r) (c_not XLEN value) |>).

Definition mstatus_ops : csr_ops := mk_ops
  (λ _, minimal_privilege rv_mmode;;; rd_csr (λ r, ux (mstatus r)))
  mstatus_write mstatus_set mstatus_clear.

Definition mstatush_ops : csr_ops :=
  ignored_csr_functions rv_mmode (λ r, wrap 32 (Z.shiftr (mstatus r) 32)).
Definition misa_ops : csr_ops := ignored_csr_functions rv_mmode misa.

Definition medeleg_mask : Z :=
  Z.land RV_EXCEPTIONS_MASK (c_not XLEN (RV_EXCEPTION_MASK rv_exc_mmode_environment_call)).
Definition medeleg_ops : csr_ops := masked_csr_functions medeleg rv_mmode medeleg_mask.
Definition mideleg_ops : csr_ops := masked_csr_functions mideleg rv_mmode rv_csr_si_mask.
Definition mie_ops : csr_ops := masked_csr_functions mie rv_mmode rv_csr_mi_mask.

Definition mip_mask : Z := rv_csr_si_mask.
Definition mip_ops : csr_ops := mk_ops
  (λ _, minimal_privilege rv_mmode;;; rd_csr (λ r, Z.lor (mip r) (external_pending r)))
  (λ _ v, minimal_privilege rv_mmode;;; upd (λ r, r <| mip := Z.land v mip_mask |>))
  (λ _ v, minimal_privilege rv_mmode;;; upd (λ r, r <| mip := Z.lor (mip r) (Z.land v mip_mask) |>))
  (λ _ v, minimal_privilege rv_mmode;;;
     upd (λ r, r <| mip := Z.land (mip r) (c_not XLEN (Z.land v mip_mask)) |>)).

Definition mtvec_mask : Z := c_not 32 2.
Definition mtvec_ops : csr_ops := masked_csr_functions mtvec rv_mmode mtvec_mask.
Definition mcounteren_ops : csr_ops := default_csr_functions mcounteren rv_mmode.
Definition mscratch_ops : csr_ops := default_csr_functions mscratch rv_mmode.
Definition mepc_ops : csr_ops := default_csr_functions mepc rv_mmode.
Definition mtval_ops : csr_ops := default_csr_functions mtval rv_mmode.

Definition menvcfg_fiom_mask : Z := 1.
Definition menvcfg_ops : csr_ops := mk_ops
  (λ _, minimal_privilege rv_mmode;;; rd_csr (λ r, ux (menvcfg r)))
  (λ _ v, minimal_privilege rv_mmode;;;
     upd (λ r, r <| menvcfg := Z.lor (Z.land (menvcfg r) HIGH_HALF)
                                     (Z.land v menvcfg_fiom_mask) |>))
  (λ _ v, minimal_privilege rv_mmode;;;
     upd (λ r, r <| menvcfg := Z.lor (menvcfg r) (Z.land v menvcfg_fiom_mask) |>))
  (λ _ v, minimal_privilege rv_mmode;;;
     upd (λ r, r <| menvcfg := Z.land (menvcfg r) (c_not 64 (Z.land v menvcfg_fiom_mask)) |>)).
Definition menvcfgh_ops : csr_ops :=
  ignored_csr_functions rv_mmode (λ r, ux (Z.shiftr (menvcfg r) 32)).
Definition mseccfg_ops : csr_ops := ignored_csr_functions rv_mmode mseccfg.
Definition mseccfgh_ops : csr_ops := ignored_csr_functions rv_mmode (λ _, 0).

(** *** The switch of [get_csr_ops] *)
Inductive csr_kind :=
  | K_invalid | K_unreachable | K_counter | K_mhpmevent | K_pmpcfg | K_pmpaddr | K_mcountinhibit
  | K_sstatus | K_sie | K_stvec | K_scounteren | K_senvcfg | K_sscratch | K_sepc | K_scause
  | K_stval | K_sip | K_satp | K_scontext | K_scyclecmp
  | K_mvendorid | K_marchid | K_mimpid | K_mhartid | K_mconfigptr
  | K_mstatus | K_mstatush | K_misa | K_medeleg | K_mideleg | K_mie | K_mtvec | K_mcounteren
  | K_mscratch | K_mepc | K_mcause | K_mtval | K_mip | K_mtinst | K_mtval2
  | K_menvcfg | K_menvcfgh | K_mseccfg | K_mseccfgh
  | K_tselect | K_tdata1 | K_tdata2 | K_tdata3 | K_mcontext | K_dcsr | K_dpc
  | K_dscratch0 | K_dscratch1.

Definition between (lo hi n : Z) : bool := (lo <=? n) && (n <=? hi).

(** [rv32] tells whether [XLEN] is 32, for the one conditional case. *)
Definition csr_kind_of (rv32 : bool) (n : Z) : csr_kind :=
  if between 0xC00 0xC1F n || between 0xC80 0xC9F n
     || (n =? 0xB00) || between 0xB02 0xB1F n || (n =? 0xB80) || between 0xB82 0xB9F n
  then K_counter
  else if between 0x323 0x33F n then K_mhpmevent
  else if between 0x3A0 0x3AF n then K_pmpcfg
  else if between 0x3B0 0x3EF n then K_pmpaddr
  else match n with
  | 0x320 => K_mcountinhibit
  | 0x100 => K_sstatus | 0x104 => K_sie | 0x105 => K_stvec | 0x106 => K_scounteren
  | 0x10A => K_senvcfg | 0x140 => K_sscratch | 0x141 => K_sepc | 0x142 => K_scause
  | 0x143 => K_stval | 0x144 => K_sip | 0x180 => K_satp | 0x5A8 => K_scontext
  | 0x5C0 => K_scyclecmp
  | 0xF11 => K_mvendorid | 0xF12 => K_marchid | 0xF13 => K_mimpid | 0xF14 => K_mhartid
  | 0xF15 => K_mconfigptr
  | 0x300 => K_mstatus | 0x310 => if rv32 then K_mstatush else K_unreachable
  | 0x301 => K_misa | 0x302 => K_medeleg | 0x303 => K_mideleg | 0x304 => K_mie
  | 0x305 => K_mtvec | 0x306 => K_mcounteren
  | 0x340 => K_mscratch | 0x341 => K_mepc | 0x342 => K_mcause | 0x343 => K_mtval
  | 0x344 => K_mip | 0x34A => K_mtinst | 0x34B => K_mtval2
  | 0x30A => K_menvcfg | 0x31A => K_menvcfgh | 0x747 => K_mseccfg | 0x757 => K_mseccfgh
  | 0x7A0 => K_tselect | 0x7A1 => K_tdata1 | 0x7A2 => K_tdata2 | 0x7A3 => K_tdata3
  | 0x7A8 => K_mcontext | 0x7B0 => K_dcsr | 0x7B1 => K_dpc | 0x7B2 => K_dscratch0
  | 0x7B3 => K_dscratch1
  | _ => K_invalid
  end.

Definition get_csr_kind (n : Z) : csr_kind := csr_kind_of (XLEN =? 32) n.

Definition die_read (_ : Z) : exec C Z := stop AssertFailed.
Definition die_write (_ _ : Z) : exec C unit := stop AssertFailed.

Definition ops_of (k : csr_kind) : csr_ops :=
  match k with
  | K_counter => counter_ops | K_mhpmevent => mhpmevent_ops
  | K_mcountinhibit => mcountinhibit_ops
  | K_sstatus => sstatus_ops | K_sie => sie_ops | K_stvec => stvec_ops
  | K_scounteren => scounteren_ops | K_senvcfg => senvcfg_ops | K_sscratch => sscratch_ops
  | K_sepc => sepc_ops | K_scause => scause_ops | K_stval => stval_ops | K_sip => sip_ops
  | K_satp => satp_ops | K_scontext => scontext_ops | K_scyclecmp => scyclecmp_ops
  | K_mvendorid => read_only_ops mvendorid | K_marchid => read_only_ops marchid
  | K_mimpid => read_only_ops mimpid | K_mhartid => read_only_ops mhartid
  | K_mconfigptr => read_only_ops mconfigptr
  | K_mstatus => mstatus_ops | K_mstatush => mstatush_ops | K_misa => misa_ops
  | K_medeleg => medeleg_ops | K_mideleg => mideleg_ops | K_mie => mie_ops
  | K_mtvec => mtvec_ops | K_mcounteren => mcounteren_ops | K_mscratch => mscratch_ops
  | K_mepc => mepc_ops | K_mcause => mcause_ops | K_mtval => mtval_ops | K_mip => mip_ops
  | K_menvcfg => menvcfg_ops | K_menvcfgh => menvcfgh_ops | K_mseccfg => mseccfg_ops
  | K_mseccfgh => mseccfgh_ops
  | K_unreachable => mk_ops die_read die_write die_write die_write
  | K_invalid | K_pmpcfg | K_pmpaddr | K_mtinst | K_mtval2 | K_tselect | K_tdata1 | K_tdata2
  | K_tdata3 | K_mcontext | K_dcsr | K_dpc | K_dscratch0 | K_dscratch1 => invalid_ops
  end.

Definition get_csr_ops (n : Z) : csr_ops := ops_of (get_csr_kind n).

(** *** The CSR instructions: the old value is returned on success. *)
Definition rv_csr_rw (n value : Z) (read : bool) : exec C Z :=
  let ops := get_csr_ops n in
  old ⇐ (if read then ops_read ops n else ok 0);
  ops_write ops n value;;;
  ok old.

Definition rv_csr_rs (n value : Z) (write : bool) : exec C Z :=
  let ops := get_csr_ops n in
  old ⇐ ops_read ops n;
  (if write then ops_set ops n value else ok tt);;;
  ok old.

Definition rv_csr_rc (n value : Z) (write : bool) : exec C Z :=
  let ops := get_csr_ops n in
  old ⇐ ops_read ops n;
  (if write then ops_clear ops n value else ok tt);;;
  ok old.

(** The external wrapper of riscv_rv32ima/csr.c for clearing calls [rv_csr_rs]. *)
Definition rv32_csr_rw := rv_csr_rw.
Definition rv32_csr_rs := rv_csr_rs.
Definition rv32_csr_rc := rv_csr_rs.
End Ops.

(** ** Initialisation *)
Section Init.
Context `{Xlen}.

Definition RV_ISA : Z :=
  fold_right Z.lor 0 [if XLEN =? 32 then 0x40000000 else 0x80000000; Z.shiftl 1 8; Z.shiftl 1 12;
    Z.shiftl 1 0; Z.shiftl 1 20; Z.shiftl 1 18].

Definition zero_csr : rv_csr :=
  mk_csr 0 0 ∅ ∅ 0 0 0 0 0 0 0 0 0 0 0 0 0 0 0 0 0 0 0 0 0 0 0 0 0 0 0 0 0 0 0 false 0 0 0 0 false 0.

(** [now] is the result of [current_timestamp]. *)
Definition rv_init_csr (r : rv_csr) (procno now : Z) : rv_csr :=
  r <| misa := RV_ISA |> <| mvendorid := 0 |> <| marchid := 0 |> <| mimpid := 0 |>
    <| mhartid := ux procno |> <| mtime := now |> <| last_tick_time := now |>
    <| asid_len := rv_asid_len |>.
End Init.
