(* ===== verification/RvCsrProps.v ===== *)
(** * Properties of the control and status registers

    Access control by privilege and the read-only rule for all 4096 register
    numbers; the WARL invariant [csr_wf] and its preservation by every CSR
    instruction; read-back of written values; the restricted supervisor views;
    the executions of the counter registers that have no defined meaning. *)

From S2P Require Import Prelude RvTypes RvCpu RvCsr.

(** ** Access control *)

(** The least privilege every operation of a kind checks for; 4 where every
    operation is illegal. *)
Definition kind_guard (k : csr_kind) : Z :=
  match k with
  | K_counter | K_unreachable => 0
  | K_invalid | K_pmpcfg | K_pmpaddr | K_mtinst | K_mtval2 | K_tselect | K_tdata1 | K_tdata2
  | K_tdata3 | K_mcontext | K_dcsr | K_dpc | K_dscratch0 | K_dscratch1 => 4
  | K_sstatus | K_sie | K_stvec | K_scounteren | K_senvcfg | K_sscratch | K_sepc | K_scause
  | K_stval | K_sip | K_satp | K_scontext | K_scyclecmp => 1
  | _ => 3
  end.

Definition is_counter (k : csr_kind) : bool := match k with K_counter => true | _ => false end.
Definition is_unreachable (k : csr_kind) : bool :=
  match k with K_unreachable => true | _ => false end.

(** Every register of the table demands at least the privilege its number encodes. *)
#[local] Arguments rv_csr_min_priv_mode : simpl never.
Lemma kind_guard_number rv32 n : 0 ≤ n < 4096 →
  let k := csr_kind_of rv32 n in
  is_counter k = true ∧ (rv_csr_min_priv_mode n = rv_umode ∨ rv_csr_min_priv_mode n = rv_mmode) ∨
  is_unreachable k = true ∨ priv_num (rv_csr_min_priv_mode n) ≤ kind_guard k.
Proof.
  intros Hn.
  pose (f n := let k := csr_kind_of rv32 n in
    (is_counter k && (priv_eqb (rv_csr_min_priv_mode n) rv_umode ||
                      priv_eqb (rv_csr_min_priv_mode n) rv_mmode)) ||
    (is_unreachable k || (priv_num (rv_csr_min_priv_mode n) <=? kind_guard k))).
  assert (f n = true) as Hf.
  { apply (forallb_below f 4096); [|lia]. destruct rv32; vm_compute; reflexivity. }
  unfold f in Hf. cbv zeta in Hf |- *.
  rewrite !orb_true_iff, andb_true_iff, !orb_true_iff, Z.leb_le in Hf.
  destruct Hf as [[? Hm]|?]; auto. left. split; [done|].
  by destruct (priv_eqb_spec (rv_csr_min_priv_mode n) rv_umode),
    (priv_eqb_spec (rv_csr_min_priv_mode n) rv_mmode); destruct Hm; auto.
Qed.

Section Theorems.
Context {T : Type} `{Xlen}.
Implicit Types c : rv_cpu T.

Lemma guard_raises p c {A} (k : unit → exec (rv_cpu T) A) :
  priv_lt (priv_mode c) p = true →
  ebind (minimal_privilege p) k c = Done (inl rv_exc_illegal_instruction, c).
Proof. intros E. unfold minimal_privilege. emsimpl. by rewrite E. Qed.

Lemma guard_passes p c {A} (k : unit → exec (rv_cpu T) A) :
  priv_lt (priv_mode c) p = false → ebind (minimal_privilege p) k c = k tt c.
Proof. intros E. unfold minimal_privilege. emsimpl. by rewrite E. Qed.

Definition illegal {A} (c : rv_cpu T) : outcome ((rv_exc + A) * rv_cpu T) :=
  Done (inl rv_exc_illegal_instruction, c).

(** All four operations of a record refuse in state [c]. *)
Definition refuses (o : @csr_ops T) (n : Z) (c : rv_cpu T) : Prop :=
  ops_read o n c = illegal c ∧ ∀ v, ops_write o n v c = illegal c ∧
    ops_set o n v c = illegal c ∧ ops_clear o n v c = illegal c.

Lemma counter_refuses n c :
  rv_csr_min_priv_mode n = rv_mmode → priv_mode c ≠ rv_mmode → refuses counter_ops n c.
Proof.
  intros Hn Hp.
  assert (priv_lt (priv_mode c) rv_mmode = true) as Hlt by (by destruct (priv_mode c)).
  assert (∀ A (k : unit → exec (rv_cpu T) A), ebind (counter_modifiable n) k c = illegal c) as Hm.
  { intros A k. unfold counter_modifiable, minimal_privilege. emsimpl. by rewrite Hlt. }
  split; [|intros v; split_and!; apply Hm].
  cbn. unfold counter_read. emsimpl. rewrite Hn. cbn.
  by destruct (priv_eqb_spec (priv_mode c) rv_mmode).
Qed.

Lemma kind_refuses k n c :
  is_counter k = false → is_unreachable k = false → priv_num (priv_mode c) < kind_guard k →
  refuses (ops_of k) n c.
Proof.
  intros Hc Hu Hp.
  assert (∀ p, priv_num (priv_mode c) < priv_num p → priv_lt (priv_mode c) p = true) as Hlt
    by (intros p Hlt; by apply Z.ltb_lt).
  destruct k; cbn in Hc, Hu, Hp; try discriminate;
    (split; [|intros v; split_and!]); try reflexivity;
    cbn [ops_of ops_read ops_write ops_set ops_clear]; try (apply guard_raises, Hlt; exact Hp);
    unfold ops_read, ops_write, ops_set, ops_clear, satp_ops, misa_ops, mstatush_ops, menvcfgh_ops,
      mseccfg_ops, mseccfgh_ops, ignored_csr_functions, satp_guard, minimal_privilege; emsimpl;
    by rewrite Hlt.
Qed.

Lemma csr_refuses n c : 0 ≤ n < 4096 → is_unreachable (get_csr_kind n) = false →
  priv_lt (priv_mode c) (rv_csr_min_priv_mode n) = true → refuses (get_csr_ops n) n c.
Proof.
  intros Hn Hu Hp. unfold get_csr_ops.
  destruct (is_counter (get_csr_kind n)) eqn:Hc.
  - destruct (kind_guard_number (XLEN =? 32) n Hn) as [(_ & [Hm|Hm])|[Hk|Hk]].
    + rewrite Hm in Hp. by destruct (priv_mode c).
    + destruct (get_csr_kind n); try discriminate. apply counter_refuses; [done|].
      intros E. by rewrite E, Hm in Hp.
    + fold (get_csr_kind n) in Hk. congruence.
    + fold (get_csr_kind n) in Hk. apply Z.ltb_lt in Hp.
      destruct (get_csr_kind n); try discriminate. cbn in Hk. destruct (priv_mode c); cbn in Hp; lia.
  - destruct (kind_guard_number (XLEN =? 32) n Hn) as [(Hk & _)|[Hk|Hk]];
      fold (get_csr_kind n) in Hk; [congruence..|].
    apply kind_refuses; [done..|]. apply Z.ltb_lt in Hp. lia.
Qed.

(** A CSR instruction executed below the privilege that bits 9:8 of the
    register number encode raises an illegal-instruction exception and changes
    nothing, for every register number and every operation. *)
Theorem csr_access_control n v b c :
  0 ≤ n < 4096 → is_unreachable (get_csr_kind n) = false →
  priv_lt (priv_mode c) (rv_csr_min_priv_mode n) = true →
  rv_csr_rw n v b c = illegal c ∧ rv_csr_rs n v b c = illegal c ∧ rv_csr_rc n v b c = illegal c.
Proof.
  intros Hn Hu Hp. destruct (csr_refuses n c Hn Hu Hp) as [Hr Hw].
  destruct (Hw v) as (Hw1 & Hw2 & Hw3). unfold rv_csr_rw, rv_csr_rs, rv_csr_rc. split_and!.
  - destruct b; [by rewrite (ebind_Done_inl _ _ _ _ _ Hr)|].
    rewrite (ebind_Done_inr _ _ c 0 c) by done. by rewrite (ebind_Done_inl _ _ _ _ _ Hw1).
  - by rewrite (ebind_Done_inl _ _ _ _ _ Hr).
  - by rewrite (ebind_Done_inl _ _ _ _ _ Hr).
Qed.

(** Registers numbered 0xC00 to 0xFFF: counters, information registers, or nothing. *)
Lemma read_only_kinds rv32 n : 0 ≤ n < 4096 → Z.land (Z.shiftr n 10) 3 = 3 →
  let k := csr_kind_of rv32 n in
  (k = K_counter ∧ rv_csr_min_priv_mode n ≠ rv_mmode) ∨
  k ∈ [K_mvendorid; K_marchid; K_mimpid; K_mhartid; K_mconfigptr; K_invalid].
Proof.
  intros Hn Hro.
  pose (f n := negb (Z.land (Z.shiftr n 10) 3 =? 3) ||
    match csr_kind_of rv32 n with
    | K_counter => negb (priv_eqb (rv_csr_min_priv_mode n) rv_mmode)
    | K_mvendorid | K_marchid | K_mimpid | K_mhartid | K_mconfigptr | K_invalid => true
    | _ => false
    end).
  assert (f n = true) as Hf.
  { apply (forallb_below f 4096); [|lia]. destruct rv32; vm_compute; reflexivity. }
  unfold f in Hf. rewrite Hro in Hf. cbv zeta. cbn in Hf.
  destruct (csr_kind_of rv32 n); try discriminate; [right; set_solver|left|right; set_solver..].
  split; [done|]. intros E. by rewrite E in Hf.
Qed.

(** registers whose number has both top bits set are read-only: writing,
    setting and clearing raise an illegal-instruction exception in every mode
    and change nothing. *)
Theorem csr_read_only n v c :
  0 ≤ n < 4096 → Z.land (Z.shiftr n 10) 3 = 3 →
  ops_write (get_csr_ops n) n v c = illegal c ∧ ops_set (get_csr_ops n) n v c = illegal c ∧
  ops_clear (get_csr_ops n) n v c = illegal c.
Proof.
  intros Hn Hro. unfold get_csr_ops, get_csr_kind.
  destruct (read_only_kinds (XLEN =? 32) n Hn Hro) as [[-> Hm]|Hk].
  - assert (counter_modifiable n c = illegal c) as Hc.
    { unfold counter_modifiable, minimal_privilege. emsimpl.
      destruct (priv_lt _ _); [done|]. by destruct (priv_eqb_spec (rv_csr_min_priv_mode n) rv_mmode). }
    cbn. split_and!; by apply (ebind_Done_inl _ _ _ _ _ Hc).
  - revert Hk. generalize (csr_kind_of (XLEN =? 32) n). intros k Hk.
    rewrite !elem_of_cons in Hk. destruct Hk as [->|[->|[->|[->|[->|[->|Hk]]]]]]; try done.
    by apply not_elem_of_nil in Hk.
Qed.

(** ** The WARL invariant *)

(** The cause codes accepted by [is_exception_code]. *)
Definition valid_cause (num : Z) : bool :=
  let sh := if XLEN =? 32 then Z.land num (c_not 32 RV_INTERRUPT_EXC_BITS) else Z.land num 0x3F in
  if truthy (Z.land RV_INTERRUPT_EXC_BITS num)
  then truthy (Z.land (Z.shiftl 1 sh) RV_INTERRUPTS_MASK)
  else truthy (Z.land (Z.shiftl 1 sh) RV_EXCEPTIONS_MASK).

Record csr_wf (r : rv_csr) : Prop := {
  wf_mstatus : bits_in (mstatus r) rv_csr_mstatus_mask;
  wf_mpp : mpp_reserved (mstatus r) = false;
  wf_mtvec : bits_in (mtvec r) mtvec_mask;
  wf_stvec : bits_in (stvec r) scvec_mask;
  wf_sepc : bits_in (sepc r) sepc_mask;
  wf_medeleg : bits_in (medeleg r) medeleg_mask;
  wf_mideleg : bits_in (mideleg r) rv_csr_si_mask;
  wf_mie : bits_in (mie r) rv_csr_mi_mask;
  wf_mip : bits_in (mip r) rv_csr_mi_mask;
  wf_mcountinhibit : bits_in (mcountinhibit r) mcountinhibit_mask;
  wf_senvcfg : bits_in (senvcfg r) senvcfg_mask;
  wf_menvcfg : bits_in (menvcfg r) menvcfg_fiom_mask;
  wf_satp : satp r = 0 ∨ Z.land (c_not XLEN (satp r)) rv_csr_satp_mode_mask = 0;
  wf_scause : valid_cause (scause r) = true;
  wf_mcause : valid_cause (mcause r) = true
}.

(** Computations that keep a property of the CSRs, whatever they return. *)
Definition keeps (P : rv_csr → Prop) {A} (m : st (rv_cpu T) A) : Prop :=
  ∀ c a c', P (csr c) → m c = Done (a, c') → P (csr c').

Lemma keeps_ret P {A} (a : A) : keeps P (mret a).
Proof. intros c a' c' HP. unfold mret, st_ret. by intros [= -> ->]. Qed.

Lemma keeps_stop P {A} e : keeps P (stop (A:=A) e).
Proof. intros c a c' HP. done. Qed.

Lemma keeps_bind P {A B} (m : st (rv_cpu T) A) (k : A → st (rv_cpu T) B) :
  keeps P m → (∀ a, keeps P (k a)) → keeps P (m ≫= k).
Proof. intros Hm Hk c b c' HP Hrun. minv. eapply Hk; [|eassumption]. by eapply Hm. Qed.

(** The state read by [get_st] satisfies the property. *)
Lemma keeps_get P {B} (k : rv_cpu T → st (rv_cpu T) B) :
  (∀ c0, P (csr c0) → keeps P (k c0)) → keeps P (get_st ≫= k).
Proof. intros Hk c b c' HP. unfold get_st. msimpl. by apply Hk. Qed.

Lemma keeps_ebind P {A B} (m : exec (rv_cpu T) A) (k : A → exec (rv_cpu T) B) :
  keeps P m → (∀ a, keeps P (k a)) → keeps P (ebind m k).
Proof. intros Hm Hk. apply keeps_bind; [done|]. intros [e|a]; [apply keeps_ret|apply Hk]. Qed.

Lemma keeps_upd (P : rv_csr → Prop) f : (∀ r, P r → P (f r)) → keeps P (upd f).
Proof. intros Hf c a c' HP. unfold upd, modify, ok. msimpl. intros [= <- <-]. by apply Hf. Qed.

Lemma keeps_guard P p : keeps P (minimal_privilege p).
Proof. apply keeps_get. intros c0 _. case_match; apply keeps_ret. Qed.

Lemma keeps_defined P b : keeps P (c_defined b).
Proof. destruct b; [apply keeps_ret|apply keeps_stop]. Qed.

Lemma keeps_if P {A} (b : bool) (m m' : st (rv_cpu T) A) :
  keeps P m → keeps P m' → keeps P (if b then m else m').
Proof. by destruct b. Qed.

(** Structural decomposition of an operation into its updates. *)
Ltac keeps_step :=
  lazymatch goal with
  | |- keeps _ (ebind _ _) => apply keeps_ebind; [|intros ?]
  | |- keeps _ (get_st ≫= _) => apply keeps_get; intros ? ?
  | |- keeps _ (_ ≫= _) => apply keeps_bind; [|intros ?]
  | |- keeps _ (if _ then _ else _) => apply keeps_if
  | |- keeps _ (minimal_privilege _) => apply keeps_guard
  | |- keeps _ (upd _) => apply keeps_upd; intros ? ?
  | |- keeps _ (c_defined _) => apply keeps_defined
  | |- keeps _ (stop _) => apply keeps_stop
  | |- keeps _ (raise _) => apply keeps_ret
  | |- keeps _ (ok _) => apply keeps_ret
  | |- keeps _ (mret _) => apply keeps_ret
  | |- keeps _ (rd_csr _) => unfold rd_csr
  | |- keeps _ (update_stip) => unfold update_stip
  | |- keeps _ (invalid_read _) => apply keeps_ret
  | |- keeps _ (invalid_write _ _) => apply keeps_ret
  | |- keeps _ (die_read _) => apply keeps_stop
  | |- keeps _ (die_write _ _) => apply keeps_stop
  | |- keeps _ (ops_read _ _) => cbn
  | |- keeps _ (ops_write _ _ _) => cbn
  | |- keeps _ (ops_set _ _ _) => cbn
  | |- keeps _ (ops_clear _ _ _) => cbn
  end.

(** An update of one field leaves the other clauses alone. *)
Ltac wf_update :=
  match goal with Hr : csr_wf ?r |- csr_wf _ => destruct Hr; split; cbn; auto end.

Lemma mpp_reserved_bits x : mpp_reserved x = Z.testbit x 12 && negb (Z.testbit x 11).
Proof.
  unfold mpp_reserved. change rv_csr_mstatus_mpp_mask with (Z.shiftl 3 11).
  rewrite Z.shiftr_land, Z.shiftr_shiftl_l, Z.sub_diag, Z.shiftl_0_r by lia.
  change (Z.land (Z.shiftr x 11) 3) with (Z.land (Z.shiftr x 11) (Z.ones 2)).
  rewrite Z.land_ones by lia. rewrite Z.shiftr_div_pow2 by lia.
  pose proof (Z.testbit_spec' x 11 ltac:(lia)) as E0.
  pose proof (Z.testbit_spec' x 12 ltac:(lia)) as E1.
  replace (x / 2 ^ 12) with (x / 2 ^ 11 / 2) in E1 by (rewrite Z.div_div by lia; f_equal).
  revert E0 E1. generalize (x / 2 ^ 11). intros y. change (2 ^ 2) with 4.
  change (priv_num rv_rmode) with 2.
  destruct (Z.testbit x 11), (Z.testbit x 12); unfold Z.b2z; intros E0 E1;
    destruct (Z.eqb_spec (y mod 4) 2); try done; exfalso;
    Z.to_euclidean_division_equations; lia.
Qed.

(** Evaluates bits of constant masks. *)
Ltac const_bits :=
  repeat match goal with
  | |- context [Z.testbit ?m ?i] =>
      let b := eval vm_compute in (Z.testbit m i) in
      match b with
      | true => change (Z.testbit m i) with true
      | false => change (Z.testbit m i) with false
      end
  end.

Lemma default_keeps f `{!SetField f} p n v :
  (∀ r x, csr_wf r → csr_wf (r <| f := x |>)) →
  let o := default_csr_functions (T:=T) f p in
  keeps csr_wf (ops_read o n) ∧ keeps csr_wf (ops_write o n v) ∧
  keeps csr_wf (ops_set o n v) ∧ keeps csr_wf (ops_clear o n v).
Proof. intros Hf o. split_and!; repeat keeps_step; by apply Hf. Qed.

Lemma masked_keeps f `{!SetField f} p mask n v :
  (∀ r, csr_wf r → bits_in (f r) mask) →
  (∀ r x, csr_wf r → bits_in x mask → csr_wf (r <| f := x |>)) →
  let o := masked_csr_functions (T:=T) f p mask in
  keeps csr_wf (ops_read o n) ∧ keeps csr_wf (ops_write o n v) ∧
  keeps csr_wf (ops_set o n v) ∧ keeps csr_wf (ops_clear o n v).
Proof.
  intros Hm Hf o. split_and!; repeat keeps_step; (apply Hf; [done|]); try in_mask;
    match goal with Hr : csr_wf _ |- _ => apply Hm in Hr end; in_mask.
Qed.

Lemma put_cause_keeps f `{!SetField f} v :
  (∀ r x, csr_wf r → valid_cause x = true → csr_wf (r <| f := x |>)) →
  keeps csr_wf (put_cause f v).
Proof.
  intros Hf c a c' HP Hrun. unfold put_cause in Hrun. minv. rename x into b.
  assert (b = valid_cause v ∧ x0 = c) as [-> ->].
  { unfold is_exception_code, c_defined in *. emsimpl in H0. destruct (_ <? XLEN); [|done].
    by injection H0 as <- <-. }
  destruct (valid_cause v) eqn:E; [|by injection Hrun as <- <-].
  eapply keeps_upd; [|exact HP|exact Hrun]. intros r Hr. by apply Hf.
Qed.

(** The four operations of a record keep the invariant. *)
Definition ops_keep (o : @csr_ops T) (n v : Z) : Prop :=
  keeps csr_wf (ops_read o n) ∧ keeps csr_wf (ops_write o n v) ∧
  keeps csr_wf (ops_set o n v) ∧ keeps csr_wf (ops_clear o n v).

Lemma wf_set_mstatus r x :
  csr_wf r → bits_in x rv_csr_mstatus_mask → mpp_reserved x = false →
  csr_wf (r <| mstatus := x |>).
Proof. intros Hr Hx Hm. wf_update. Qed.

(** The MPP bits of an expression over constant masks. *)
Ltac mpp_solve :=
  pose proof xlen_pos;
  repeat match goal with Hm : mpp_reserved _ = _ |- _ => rewrite mpp_reserved_bits in Hm; revert Hm end;
  rewrite ?mpp_reserved_bits; unfold ux;
  autorewrite with zbits; const_bits;
  repeat match goal with
  | |- context [?i <? XLEN] => replace (i <? XLEN) with true
      by (destruct xlen_cases as [-> | ->]; reflexivity)
  end;
  repeat match goal with |- context [Z.testbit ?m ?i] => destruct (Z.testbit m i) end; done.

Lemma sstatus_in_mstatus : bits_in rv_csr_sstatus_mask rv_csr_mstatus_mask.
Proof. reflexivity. Qed.

Lemma sstatus_keep n v : ops_keep sstatus_ops n v.
Proof.
  pose proof sstatus_in_mstatus.
  split_and!; repeat keeps_step; (apply wf_set_mstatus; [done| |]);
    match goal with Hr : csr_wf _ |- _ => destruct Hr end; first [in_mask | mpp_solve].
Qed.

Lemma mstatus_keep n v : ops_keep mstatus_ops n v.
Proof.
  assert (bits_in rv_csr_mstatus_mpp_mask rv_csr_mstatus_mask) by reflexivity.
  split_and!; cbn; unfold mstatus_write, mstatus_set, mstatus_clear; repeat keeps_step; cbv zeta;
    (apply wf_set_mstatus; [done| |]);
    match goal with Hr : csr_wf _ |- _ => destruct Hr end; try in_mask;
    repeat case_match; mpp_solve.
Qed.

Lemma satp_update_keeps (g : rv_csr → Z) :
  keeps csr_wf (satp_guard (T:=T);;; upd (λ r, r <| satp := g r |>);;; satp_settle).
Proof.
  apply keeps_ebind; [unfold satp_guard; repeat keeps_step|]. intros _ c a c' Hwf.
  unfold upd, satp_settle, with_csr, rv_csr_satp_is_bare. emsimpl. cbn.
  destruct (truthy _) eqn:E; intros [= <- <-]; cbn; destruct Hwf; split; cbn; auto.
  right. by apply negb_false_iff, Z.eqb_eq in E.
Qed.

Lemma satp_keep n v : ops_keep satp_ops n v.
Proof.
  split_and!; [|apply satp_update_keeps..].
  cbn. unfold satp_guard, rd_csr. repeat keeps_step.
Qed.

Lemma cause_keep f `{!SetField f} p n v :
  (∀ r x, csr_wf r → valid_cause x = true → csr_wf (r <| f := x |>)) →
  ops_keep (cause_ops f p) n v.
Proof.
  intros Hf. split_and!; cbn; repeat first [by apply put_cause_keeps | keeps_step].
Qed.

Lemma modify_counter_keeps n g stip : keeps csr_wf (modify_counter (T:=T) n g stip).
Proof.
  unfold modify_counter, hpm_slot. cbv zeta.
  repeat case_match; subst; repeat keeps_step; wf_update.
Qed.

Lemma counter_keep n v : ops_keep counter_ops n v.
Proof.
  assert (keeps csr_wf (counter_modifiable (T:=T) n)) as Hm
    by (unfold counter_modifiable; repeat keeps_step).
  assert (keeps csr_wf (read_counter_csr_unchecked (T:=T) n)) as Hr.
  { unfold read_counter_csr_unchecked, hpm_slot. cbv zeta. apply keeps_get. intros c _.
    destruct (Z.land n 0x1F) as [|[?|[?|?|]|]|?]; repeat keeps_step. }
  split_and!; cbn.
  - unfold counter_read, is_counter_enabled. cbv zeta. repeat first [exact Hr | keeps_step].
  - apply keeps_ebind; [exact Hm|]. intros _. destruct (is_high_counter n); apply modify_counter_keeps.
  - apply keeps_ebind; [exact Hm|]. intros _. apply modify_counter_keeps.
  - apply keeps_ebind; [exact Hm|]. intros _. apply modify_counter_keeps.
Qed.

Lemma mhpmevent_keep n v : ops_keep mhpmevent_ops n v.
Proof.
  split_and!; cbn; unfold mhpmevent_read, mhpmevent_write, mhpmevent_set, mhpmevent_clear,
    hpm_slot, put_event; cbv zeta; repeat keeps_step; wf_update.
Qed.

(** Plain updates of a field that has a mask clause, or no clause. *)
Ltac field_keep :=
  split_and!; cbn; unfold rd_csr; repeat keeps_step;
  match goal with Hr : csr_wf _ |- csr_wf _ => destruct Hr; split; cbn; first [assumption | in_mask] end.

Lemma si_in_mi : bits_in rv_csr_si_mask rv_csr_mi_mask.
Proof. reflexivity. Qed.
Lemma ssi_in_mi : bits_in rv_csr_ssi_mask rv_csr_mi_mask.
Proof. reflexivity. Qed.

Lemma kind_keep k n v : ops_keep (ops_of k) n v.
Proof.
  pose proof si_in_mi. pose proof ssi_in_mi. unfold mip_mask in *.
  destruct k; cbn [ops_of];
  lazymatch goal with
  | |- ops_keep counter_ops _ _ => apply counter_keep
  | |- ops_keep mhpmevent_ops _ _ => apply mhpmevent_keep
  | |- ops_keep sstatus_ops _ _ => apply sstatus_keep
  | |- ops_keep mstatus_ops _ _ => apply mstatus_keep
  | |- ops_keep satp_ops _ _ => apply satp_keep
  | |- ops_keep scause_ops _ _ => apply (cause_keep scause); intros; wf_update
  | |- ops_keep mcause_ops _ _ => apply (cause_keep mcause); intros; wf_update
  | |- ops_keep stvec_ops _ _ => apply (masked_keeps stvec); [by intros ? [] | intros; wf_update]
  | |- ops_keep senvcfg_ops _ _ => apply (masked_keeps senvcfg); [by intros ? [] | intros; wf_update]
  | |- ops_keep sepc_ops _ _ => apply (masked_keeps sepc); [by intros ? [] | intros; wf_update]
  | |- ops_keep medeleg_ops _ _ => apply (masked_keeps medeleg); [by intros ? [] | intros; wf_update]
  | |- ops_keep mideleg_ops _ _ => apply (masked_keeps mideleg); [by intros ? [] | intros; wf_update]
  | |- ops_keep mie_ops _ _ => apply (masked_keeps mie); [by intros ? [] | intros; wf_update]
  | |- ops_keep mtvec_ops _ _ => apply (masked_keeps mtvec); [by intros ? [] | intros; wf_update]
  | |- ops_keep mcountinhibit_ops _ _ => apply (masked_keeps mcountinhibit); [by intros ? [] | intros; wf_update]
  | |- ops_keep scounteren_ops _ _ => apply (default_keeps scounteren); intros; wf_update
  | |- ops_keep sscratch_ops _ _ => apply (default_keeps sscratch); intros; wf_update
  | |- ops_keep stval_ops _ _ => apply (default_keeps stval); intros; wf_update
  | |- ops_keep scontext_ops _ _ => apply (default_keeps scontext); intros; wf_update
  | |- ops_keep mcounteren_ops _ _ => apply (default_keeps mcounteren); intros; wf_update
  | |- ops_keep mscratch_ops _ _ => apply (default_keeps mscratch); intros; wf_update
  | |- ops_keep mepc_ops _ _ => apply (default_keeps mepc); intros; wf_update
  | |- ops_keep mtval_ops _ _ => apply (default_keeps mtval); intros; wf_update
  | |- _ => field_keep
  end.
Qed.

(** Every CSR instruction keeps the invariant on the registers with
    constrained fields: reserved bits stay zero, MPP never holds the reserved
    mode, trap vectors and [sepc] stay aligned, only delegatable interrupts and
    exceptions are delegated, the cause registers hold existing causes, and
    [satp] is zero in bare mode. *)
Theorem csr_instructions_keep_wf n v b c :
  csr_wf (csr c) →
  (∀ r c', rv_csr_rw n v b c = Done (r, c') → csr_wf (csr c')) ∧
  (∀ r c', rv_csr_rs n v b c = Done (r, c') → csr_wf (csr c')) ∧
  (∀ r c', rv_csr_rc n v b c = Done (r, c') → csr_wf (csr c')).
Proof.
  intros Hwf. destruct (kind_keep (get_csr_kind n) n v) as (Hr & Hw & Hs & Hc).
  unfold rv_csr_rw, rv_csr_rs, rv_csr_rc, get_csr_ops.
  split_and!; intros r c'; (eapply keeps_ebind; [|intros ?|exact Hwf]);
    repeat first [assumption | keeps_step].
Qed.

(** ** Read-back *)

(** The registers that hold a plain field: the field, its writable bits and the
    privilege needed. *)
Definition plain (k : csr_kind) : option ((rv_csr → Z) * Z * rv_priv_mode) :=
  let all := Z.ones XLEN in
  match k with
  | K_mcountinhibit => Some (mcountinhibit, mcountinhibit_mask, rv_mmode)
  | K_stvec => Some (stvec, scvec_mask, rv_smode)
  | K_scounteren => Some (scounteren, all, rv_smode)
  | K_senvcfg => Some (senvcfg, senvcfg_mask, rv_smode)
  | K_sscratch => Some (sscratch, all, rv_smode)
  | K_sepc => Some (sepc, sepc_mask, rv_smode)
  | K_stval => Some (stval, all, rv_smode)
  | K_scontext => Some (scontext, all, rv_smode)
  | K_medeleg => Some (medeleg, medeleg_mask, rv_mmode)
  | K_mideleg => Some (mideleg, rv_csr_si_mask, rv_mmode)
  | K_mie => Some (mie, rv_csr_mi_mask, rv_mmode)
  | K_mtvec => Some (mtvec, mtvec_mask, rv_mmode)
  | K_mcounteren => Some (mcounteren, all, rv_mmode)
  | K_mscratch => Some (mscratch, all, rv_mmode)
  | K_mepc => Some (mepc, all, rv_mmode)
  | K_mtval => Some (mtval, all, rv_mmode)
  | _ => None
  end.

Lemma plain_ops k f m p c v :
  plain k = Some (f, m, p) → priv_lt (priv_mode c) p = false → in_width XLEN v →
  (∀ n, ops_read (ops_of k) n c = Done (inr (f (csr c)), c)) ∧
  (∃ c1, (∀ n, ops_write (ops_of k) n v c = Done (inr tt, c1)) ∧
    f (csr c1) = Z.land v m ∧ priv_mode c1 = priv_mode c) ∧
  (∃ c1, (∀ n, ops_set (ops_of k) n v c = Done (inr tt, c1)) ∧
    f (csr c1) = Z.lor (f (csr c)) (Z.land v m) ∧ priv_mode c1 = priv_mode c) ∧
  (∃ c1, (∀ n, ops_clear (ops_of k) n v c = Done (inr tt, c1)) ∧
    f (csr c1) = Z.land (f (csr c)) (c_not XLEN (Z.land v m)) ∧ priv_mode c1 = priv_mode c).
Proof.
  intros Hk Hp Hv.
  assert (Z.land v (Z.ones XLEN) = v) as Hall.
  { pose proof xlen_pos. rewrite <- wrap_land by lia. by apply wrap_small. }
  destruct k; try discriminate; injection Hk as <- <- <-; split_and!;
    try (intros n; cbn; by rewrite guard_passes);
    eexists; (split_and!; [intros n; cbn; rewrite guard_passes by done; reflexivity|
      cbn; by rewrite ?Hall|reflexivity]).
Qed.

(** Writing a plain register returns its old value and stores the writable
    bits of the operand; setting and clearing change exactly the selected
    writable bits; a later read returns what is stored. *)
Theorem csr_write_readback n f m p v c :
  plain (get_csr_kind n) = Some (f, m, p) → priv_lt (priv_mode c) p = false → in_width XLEN v →
  ∃ cw cs cc,
    rv_csr_rw n v true c = Done (inr (f (csr c)), cw) ∧
    rv_csr_rs n 0 false cw = Done (inr (Z.land v m), cw) ∧
    rv_csr_rs n v true c = Done (inr (f (csr c)), cs) ∧
    rv_csr_rs n 0 false cs = Done (inr (Z.lor (f (csr c)) (Z.land v m)), cs) ∧
    rv_csr_rc n v true c = Done (inr (f (csr c)), cc) ∧
    rv_csr_rs n 0 false cc =
      Done (inr (Z.land (f (csr c)) (c_not XLEN (Z.land v m))), cc).
Proof.
  intros Hk Hp Hv. destruct (plain_ops _ _ _ _ c v Hk Hp Hv)
    as (Hr & (cw & Ew & Fw & Pw) & (cs & Es & Fs & Ps) & (cc & Ec & Fc & Pc)).
  assert (∀ c1, priv_mode c1 = priv_mode c → rv_csr_rs n 0 false c1 = Done (inr (f (csr c1)), c1))
    as Hread.
  { intros c1 E. unfold rv_csr_rs, get_csr_ops. rewrite <- E in Hp.
    destruct (plain_ops _ _ _ _ c1 v Hk Hp Hv) as (Hr1 & _).
    by rewrite (ebind_Done_inr _ _ _ _ _ (Hr1 n)). }
  exists cw, cs, cc. rewrite <- Fs, <- Fc, <- Fw, !Hread by done.
  unfold rv_csr_rw, rv_csr_rs, rv_csr_rc, get_csr_ops.
  rewrite !(ebind_Done_inr _ _ _ _ _ (Hr n)).
  by rewrite (ebind_Done_inr _ _ _ _ _ (Ew n)), (ebind_Done_inr _ _ _ _ _ (Es n)),
    (ebind_Done_inr _ _ _ _ _ (Ec n)).
Qed.

(** [sstatus] is not a restricted view of [mstatus] for writes: a write to
    it zeroes every machine-level field of the low half (MPP, MPIE, MIE, MPRV,
    TVM, TW, TSR), where reading, setting and clearing touch the supervisor
    fields only. *)
Theorem sstatus_write_clears_machine_fields v c :
  csr_wf (csr c) → priv_lt (priv_mode c) rv_smode = false → in_width XLEN v →
  ∃ cw cs, rv_csr_rw 0x100 v true c =
      Done (inr (ux (Z.land (mstatus (csr c)) rv_csr_sstatus_mask)), cw) ∧
    mstatus (csr cw) = Z.land v rv_csr_sstatus_mask ∧
    rv_csr_rs 0x100 v true c =
      Done (inr (ux (Z.land (mstatus (csr c)) rv_csr_sstatus_mask)), cs) ∧
    mstatus (csr cs) = Z.lor (mstatus (csr c)) (Z.land v rv_csr_sstatus_mask).
Proof.
  intros Hwf Hp Hv. unfold rv_csr_rw, rv_csr_rs. change (get_csr_ops 0x100) with (sstatus_ops (T:=T)).
  unfold sstatus_ops, ops_read, ops_write, ops_set.
  do 2 eexists. split_and!.
  - unfold minimal_privilege, rd_csr, upd. emsimpl. rewrite Hp. emsimpl. rewrite Hp. reflexivity.
  - cbn. destruct Hwf as [Hm _ _ _ _ _ _ _ _ _ _ _ _ _ _]. unfold bits_in in Hm.
    rewrite <- Hm, <- Z.land_assoc. change (Z.land rv_csr_mstatus_mask HIGH_HALF) with 0.
    by rewrite Z.land_0_r.
  - unfold minimal_privilege, rd_csr, upd. emsimpl. rewrite Hp. emsimpl. rewrite Hp. reflexivity.
  - reflexivity.
Qed.

(** Executions of counter CSR accesses without a defined meaning: a user
    or supervisor read of any unprivileged counter shifts by [csr * 31], and a
    machine-mode write of [mcycleh] or [minstreth] indexes the counter array
    below its start. *)
Theorem csr_counter_undefined n v b c :
  (between 0xC00 0xC1F n = true → priv_mode c = rv_smode ∨ priv_mode c = rv_umode →
     rv_csr_rs n v b c = Stop UndefinedBehaviour) ∧
  (n = 0xB80 ∨ n = 0xB82 → priv_mode c = rv_mmode →
     rv_csr_rw n v false c = Stop UndefinedBehaviour).
Proof.
  split.
  - intros Hn Hp. unfold between in Hn. apply andb_true_iff in Hn as [H1%Z.leb_le H2%Z.leb_le].
    assert (get_csr_kind n = K_counter) as Hk.
    { unfold get_csr_kind, csr_kind_of, between.
      destruct (Z.leb_spec 0xC00 n), (Z.leb_spec n 0xC1F); try lia. done. }
    assert (rv_csr_min_priv_mode n = rv_umode) as Hm.
    { unfold rv_csr_min_priv_mode.
      replace (Z.shiftr n 8) with 12 by (rewrite Z.shiftr_div_pow2 by lia;
        apply Z.div_unique with (n - 3072); lia). reflexivity. }
    unfold rv_csr_rs, get_csr_ops. rewrite Hk. apply bind_Stop. cbn.
    unfold counter_read, is_counter_enabled. emsimpl. rewrite Hm. cbn -[Z.mul].
    replace ((0 <=? n * 31) && (n * 31 <? 32)) with false
      by (destruct (Z.leb_spec 0 (n * 31)), (Z.ltb_spec (n * 31) 32); try done; lia).
    by destruct Hp as [-> | ->].
  - intros Hn Hp. unfold rv_csr_rw. destruct Hn as [-> | ->]; cbn;
      unfold counter_write, counter_modifiable, minimal_privilege; emsimpl; by rewrite Hp.
Qed.
End Theorems.


Definition cpu0 (p : rv_priv_mode) : rv_cpu unit :=
  mk_cpu ∅ (rv_init_csr zero_csr 0 0) 0 0 p false 0 false tt.

Lemma csr_access_control_witness :
  rv_csr_rw 0x300 5 true (cpu0 rv_smode) = illegal (cpu0 rv_smode).
Proof. apply (csr_access_control 0x300 5 true (cpu0 rv_smode)); [lia|reflexivity|reflexivity]. Defined.

Lemma csr_read_only_witness :
  ops_write (get_csr_ops 0xC02) 0xC02 7 (cpu0 rv_mmode) = illegal (cpu0 rv_mmode).
Proof. apply (csr_read_only 0xC02 7 (cpu0 rv_mmode)); [lia|reflexivity]. Defined.

Lemma cpu0_wf p : csr_wf (csr (cpu0 p)).
Proof. split; try done; by left. Qed.

Lemma csr_instructions_keep_wf_witness :
  ∃ r c', rv_csr_rw 0x300 0xFFFFFFFF true (cpu0 rv_mmode) = Done (r, c') ∧ csr_wf (csr c').
Proof.
  destruct (csr_instructions_keep_wf 0x300 0xFFFFFFFF true (cpu0 rv_mmode) (cpu0_wf _)) as [Hw _].
  eexists _, _. split; [reflexivity|]. eapply Hw. reflexivity.
Defined.

Lemma csr_write_readback_witness :
  ∃ cw, rv_csr_rw 0x305 0xFFFFFFFF true (cpu0 rv_mmode) = Done (inr 0, cw) ∧
    rv_csr_rs 0x305 0 false cw = Done (inr 0xFFFFFFFD, cw).
Proof.
  destruct (csr_write_readback 0x305 mtvec mtvec_mask rv_mmode 0xFFFFFFFF (cpu0 rv_mmode))
    as (cw & _ & _ & Hw & Hr & _); [reflexivity|reflexivity|split; simpl; lia|].
  exists cw. split; [exact Hw|exact Hr].
Defined.

Lemma sstatus_write_clears_machine_fields_witness :
  ∃ cw r, rv_csr_rw 0x100 0x1800 true (cpu0 rv_smode) = Done (r, cw) ∧ mstatus (csr cw) = 0.
Proof.
  destruct (sstatus_write_clears_machine_fields 0x1800 (cpu0 rv_smode) (cpu0_wf _))
    as (cw & _ & Hw & Hm & _); [reflexivity|split; simpl; lia|].
  exists cw. eexists. split; [exact Hw|exact Hm].
Defined.

Lemma csr_counter_undefined_witness :
  rv_csr_rs 0xC00 0 false (cpu0 rv_umode) = Stop UndefinedBehaviour.
Proof. apply (csr_counter_undefined 0xC00 0 false (cpu0 rv_umode)); [reflexivity|by right]. Defined.
