(* ===== verification/RvTlb.v ===== *)
(** * Page-table entries and translation lookaside buffers

    (riscv_rv32ima/tlb.c and virt_mem.h, riscv_rv64ima/tlb.c and virt_mem.h)

    The TLBs of the two processors have the same text up to the sizes of pages,
    so they are written once for a type of page sizes [K]; [Rv32Tlb] and
    [Rv64Tlb] instantiate it.

    The TLB is an array of entries linked into two lists: the entries in use,
    most recently used first, and the free ones.  The lists hold array indices
    (the intrusive lists implement sequences, see [CList]); an entry is valid
    when its item is on the LRU list.

    The abstract TLB is the sequence of cached mappings in LRU order.  The
    refinement theorem shows that every operation implements its specification
    on that sequence: insertion evicts the least recently used mapping when the
    array is full, a lookup moves the mapping to the front, and the flushes keep
    exactly the mappings that SFENCE.VMA must not remove. *)

From S2P Require Import Prelude RvTypes.

(** ** Page-table entries

    The bit-fields of [sv39_pte_t]; those of [sv32_pte_t] are the same without
    the last three, which are zero there. *)
Record sv_pte := mk_pte {
  pte_v : bool; pte_r : bool; pte_w : bool; pte_x : bool;
  pte_u : bool; pte_g : bool; pte_a : bool; pte_d : bool;
  pte_rsw : Z;
  pte_ppn : Z;
  pte_reserved : Z;
  pte_pbmt : Z;
  pte_n : Z
}.

#[export] Instance eta_pte : Eta sv_pte := λ p,
  mk_pte (pte_v p) (pte_r p) (pte_w p) (pte_x p) (pte_u p) (pte_g p) (pte_a p) (pte_d p)
    (pte_rsw p) (pte_ppn p) (pte_reserved p) (pte_pbmt p) (pte_n p).
#[export] Instance set_pte_a : SetField pte_a := ltac:(derive_set_field).
#[export] Instance set_pte_d : SetField pte_d := ltac:(derive_set_field).
#[export] Instance sv_pte_eq_dec : EqDecision sv_pte.
Proof. solve_decision. Defined.

(** A flag at its position in the word. *)
Definition bit_at (b : bool) (k : Z) : Z := Z.shiftl (bool_to_Z b) k.

Definition zero_pte : sv_pte :=
  mk_pte false false false false false false false false 0 0 0 0 0.

Definition is_pte_leaf (p : sv_pte) : bool := pte_r p || pte_w p || pte_x p.
Definition is_pte_valid (p : sv_pte) : bool := pte_v p && (negb (pte_w p) || pte_r p).

(** ** Sizes of pages, as the logarithm of their number of bytes *)
Class PageSizes (K : Type) := {
  page_shift : K → Z;
  zero_size : K
}.

(** ** The TLB *)
Section Tlb.
Context {K : Type} `{PageSizes K}.

Record tlb_entry := mk_entry {
  e_pte : sv_pte;
  e_vpn : Z;
  e_asid : Z;
  e_global : bool;
  e_size : K
}.

Definition zero_entry : tlb_entry := mk_entry zero_pte 0 0 false zero_size.

Record rv_tlb := mk_tlb {
  t_entries : gmap Z tlb_entry;
  t_size : Z;
  lru_list : list Z;
  free_list : list Z
}.

#[export] Instance eta_tlb : Eta rv_tlb := λ t,
  mk_tlb (t_entries t) (t_size t) (lru_list t) (free_list t).
#[export] Instance set_t_entries : SetField t_entries := ltac:(derive_set_field).
#[export] Instance set_lru_list : SetField lru_list := ltac:(derive_set_field).
#[export] Instance set_free_list : SetField free_list := ltac:(derive_set_field).

Definition entry_at (t : rv_tlb) (i : Z) : tlb_entry := default zero_entry (t_entries t !! i).

(** [list_remove] of an item on the list; the assertion is the one of list.c. *)
Definition remove_item (i : Z) (xs : list Z) : list Z := filter (λ x, x ≠ i) xs.

Definition lru_remove (i : Z) : st rv_tlb unit :=
  t ← get_st;
  c_assert (bool_decide (i ∈ lru_list t));;
  modify (λ t, t <| lru_list := remove_item i (lru_list t) |>).
Definition lru_push (i : Z) : st rv_tlb unit :=
  modify (λ t, t <| lru_list := i :: lru_list t |>).
Definition free_push (i : Z) : st rv_tlb unit :=
  modify (λ t, t <| free_list := i :: free_list t |>).

Definition tlb_add_mapping (asid virt : Z) (pte : sv_pte) (size : K) (global : bool)
    : st rv_tlb unit :=
  t ← get_st;
  i ← match head (free_list t) with
      | Some i => modify (λ t, t <| free_list := remove_item i (free_list t) |>);; mret i
      | None =>
          match last (lru_list t) with
          | Some i => lru_remove i;; mret i
          | None => stop UndefinedBehaviour
          end
      end;
  let vpn := Z.shiftr virt (page_shift size) in
  modify (λ t, t <| t_entries := <[i := mk_entry pte vpn asid global size]> (t_entries t) |>);;
  lru_push i.

Definition move_lru_entry_to_front (i : Z) : st rv_tlb unit :=
  t ← get_st;
  if bool_decide (head (lru_list t) = Some i) then mret tt
  else c_assert (bool_decide (i ∈ lru_list t));; lru_remove i;; lru_push i.

Definition entry_maps_virt (e : tlb_entry) (virt : Z) : bool :=
  e_vpn e =? Z.shiftr virt (page_shift (e_size e)).

(** The test of the loops of [get_mapping] and [remove_mapping]. *)
Definition entry_matches (e : tlb_entry) (asid virt : Z) : bool :=
  negb (negb (e_global e) && negb (e_asid e =? asid)) && entry_maps_virt e virt.

(** The first index of the LRU list whose entry satisfies the test. *)
Fixpoint find_entry (p : tlb_entry → bool) (t : rv_tlb) (xs : list Z) : option Z :=
  match xs with
  | [] => None
  | i :: xs' => if p (entry_at t i) then Some i else find_entry p t xs'
  end.

Definition tlb_get_mapping (asid virt : Z) (noisy : bool)
    : st rv_tlb (option (sv_pte * K)) :=
  t ← get_st;
  match find_entry (λ e, entry_matches e asid virt) t (lru_list t) with
  | None => mret None
  | Some i =>
      (if noisy then move_lru_entry_to_front i else mret tt);;
      mret (Some (e_pte (entry_at t i), e_size (entry_at t i)))
  end.

Definition invalidate_tlb_entry (i : Z) : st rv_tlb unit :=
  t ← get_st;
  c_assert (bool_decide (i ∈ lru_list t));;
  lru_remove i;; free_push i.

Definition is_entry_valid (t : rv_tlb) (i : Z) : bool := bool_decide (i ∈ lru_list t).

Definition tlb_remove_mapping (asid virt : Z) : st rv_tlb unit :=
  t ← get_st;
  match find_entry (λ e, entry_matches e asid virt) t (lru_list t) with
  | None => mret tt
  | Some i => invalidate_tlb_entry i
  end.

(** The loop [for (i = 0; i < size; ++i)] of the flushes: entries that are valid
    and satisfy [p] are invalidated. *)
Fixpoint flush_loop (p : tlb_entry → bool) (n : nat) (i : Z) : st rv_tlb unit :=
  match n with
  | O => mret tt
  | S n' =>
      t ← get_st;
      (if is_entry_valid t i && p (entry_at t i) then invalidate_tlb_entry i else mret tt);;
      flush_loop p n' (i + 1)
  end.

Definition flush_where (p : tlb_entry → bool) : st rv_tlb unit :=
  t ← get_st; flush_loop p (Z.to_nat (t_size t)) 0.

Definition tlb_flush : st rv_tlb unit := flush_where (λ _, true).

Definition tlb_flush_by_asid (asid : Z) : st rv_tlb unit :=
  flush_where (λ e, negb (e_global e) && (e_asid e =? asid)).

Definition tlb_flush_by_addr (virt : Z) : st rv_tlb unit :=
  flush_where (λ e, e_vpn e =? Z.shiftr virt (page_shift (e_size e))).

Definition tlb_flush_by_asid_and_addr (asid virt : Z) : st rv_tlb unit :=
  flush_where (λ e, negb (e_global e) && negb (negb (e_asid e =? asid)) &&
                    (e_vpn e =? Z.shiftr virt (page_shift (e_size e)))).

Definition indices (size : Z) : list Z := seqZ 0 size.

Definition empty_tlb (size : Z) : rv_tlb := mk_tlb ∅ size [] (indices size).

(** [tlb_init] and [tlb_resize] replace the whole structure. *)
Definition tlb_init (size : Z) : st rv_tlb unit :=
  c_assert (negb (size =? 0));; put_st (empty_tlb size).

Definition tlb_resize (size : Z) : st rv_tlb bool :=
  put_st (empty_tlb size);; mret true.

(** ** Abstract TLB *)
Definition mappings (t : rv_tlb) : list tlb_entry := entry_at t <$> lru_list t.

Record tlb_wf (t : rv_tlb) : Prop := {
  tw_size : 0 < t_size t;
  tw_perm : lru_list t ++ free_list t ≡ₚ indices (t_size t)
}.

Definition capacity (t : rv_tlb) : nat := Z.to_nat (t_size t).

(** Specification on sequences of mappings, most recently used first. *)
Definition spec_add (cap : nat) (e : tlb_entry) (l : list tlb_entry) : list tlb_entry :=
  e :: take (cap - 1) l.

Fixpoint spec_touch (p : tlb_entry → bool) (l : list tlb_entry)
    : option (tlb_entry * list tlb_entry) :=
  match l with
  | [] => None
  | e :: l' => if p e then Some (e, l')
               else '(m, r) ← spec_touch p l'; Some (m, e :: r)
  end.

Definition spec_get (p : tlb_entry → bool) (l : list tlb_entry)
    : option tlb_entry * list tlb_entry :=
  match spec_touch p l with None => (None, l) | Some (m, r) => (Some m, m :: r) end.

Definition spec_remove (p : tlb_entry → bool) (l : list tlb_entry) : list tlb_entry :=
  match spec_touch p l with None => l | Some (_, r) => r end.

Definition spec_flush (p : tlb_entry → bool) (l : list tlb_entry) : list tlb_entry :=
  filter (λ e, p e = false) l.

(** ** Invariant *)
Lemma indices_nodup size : NoDup (indices size).
Proof. apply NoDup_seqZ. Qed.

Lemma wf_nodup t : tlb_wf t → NoDup (lru_list t ++ free_list t).
Proof. intros [_ Hp]. rewrite Hp. apply indices_nodup. Qed.

Lemma wf_index t i : tlb_wf t → i ∈ lru_list t → 0 ≤ i < t_size t.
Proof.
  intros [_ Hp] Hi. assert (i ∈ indices (t_size t)) as Hin.
  { rewrite <- Hp. apply elem_of_app. by left. }
  apply elem_of_seqZ in Hin. lia.
Qed.

Lemma wf_length t : tlb_wf t → (length (lru_list t) + length (free_list t) = capacity t)%nat.
Proof.
  intros [_ Hp%Permutation_length]. rewrite length_app in Hp. rewrite Hp.
  apply length_seqZ.
Qed.

Lemma empty_tlb_wf size : 0 < size → tlb_wf (empty_tlb size).
Proof. intros. by split. Qed.

(** Splitting the LRU list at a member. *)
Lemma lru_remove_run t pre i post :
  NoDup (lru_list t) → lru_list t = pre ++ i :: post →
  lru_remove i t = Done (tt, t <| lru_list := pre ++ post |>).
Proof.
  intros Hn E. unfold lru_remove. msimpl. rewrite bool_decide_eq_true_2; cycle 1.
  { rewrite E. apply elem_of_app. right. by left. }
  unfold remove_item. by rewrite E, filter_middle by (by rewrite <- E).
Qed.

Lemma wf_lru_nodup t : tlb_wf t → NoDup (lru_list t).
Proof. intros Hwf. apply wf_nodup, NoDup_app in Hwf. tauto. Qed.

(** The found index and the specification's choice agree. *)
Lemma find_entry_touch p t xs :
  match find_entry p t xs with
  | None => spec_touch p (entry_at t <$> xs) = None
  | Some i => ∃ pre post, xs = pre ++ i :: post ∧
      spec_touch p (entry_at t <$> xs) = Some (entry_at t i, entry_at t <$> (pre ++ post))
  end.
Proof.
  induction xs as [|x xs IH]; [done|]. cbn [find_entry]. rewrite fmap_cons. cbn [spec_touch].
  destruct (p (entry_at t x)) eqn:E; [by exists [], xs|].
  destruct (find_entry p t xs) as [i|]; [|by rewrite IH].
  destruct IH as (pre & post & -> & ->). by exists (x :: pre), post.
Qed.

(** Moving an index between or within the lists keeps the invariant. *)
Lemma wf_relist t lru free :
  tlb_wf t → lru ++ free ≡ₚ lru_list t ++ free_list t →
  tlb_wf (t <| lru_list := lru |> <| free_list := free |>).
Proof. intros [Hs Hp] E. split; cbn; [done|]. by rewrite E. Qed.

Lemma wf_set_lru t lru : tlb_wf t → lru ≡ₚ lru_list t → tlb_wf (t <| lru_list := lru |>).
Proof.
  intros Hwf E. assert (lru ++ free_list t ≡ₚ lru_list t ++ free_list t) as E' by (by rewrite E).
  exact (wf_relist t lru (free_list t) Hwf E').
Qed.

Lemma move_to_front_run t pre i post :
  tlb_wf t → lru_list t = pre ++ i :: post →
  move_lru_entry_to_front i t = Done (tt, t <| lru_list := i :: pre ++ post |>).
Proof.
  intros Hwf E. unfold move_lru_entry_to_front. msimpl. case_bool_decide as Hh.
  - assert (pre = []) as ->.
    { destruct pre as [|j pre]; [done|]. rewrite E in Hh. injection Hh as ->.
      pose proof (wf_lru_nodup t Hwf) as Hn. rewrite E in Hn. apply NoDup_cons in Hn as [Hn _].
      exfalso. apply Hn, elem_of_app. right. by left. }
    destruct t. cbn in *. by subst.
  - rewrite bool_decide_eq_true_2; cycle 1. { rewrite E. apply elem_of_app. right. by left. }
    rewrite (lru_remove_run t pre i post) by (done || by apply wf_lru_nodup). done.
Qed.

Lemma tlb_get_spec t asid virt noisy :
  tlb_wf t →
  let r := spec_get (λ e, entry_matches e asid virt) (mappings t) in
  ∃ t', tlb_get_mapping asid virt noisy t =
      Done ((λ e, (e_pte e, e_size e)) <$> fst r, t') ∧
    tlb_wf t' ∧ t_size t' = t_size t ∧
    mappings t' = if noisy then snd r else mappings t.
Proof.
  intros Hwf r. subst r. unfold tlb_get_mapping, spec_get, mappings. msimpl.
  pose proof (find_entry_touch (λ e, entry_matches e asid virt) t (lru_list t)) as Hf.
  destruct (find_entry _ t (lru_list t)) as [i|]; [|rewrite Hf; exists t; by destruct noisy].
  destruct Hf as (pre & post & E & ->). destruct noisy; [|by exists t].
  rewrite (move_to_front_run t pre i post) by done.
  eexists. split_and!; [done| |done|done].
  apply wf_set_lru; [done|]. rewrite E. apply Permutation_middle.
Qed.

Lemma invalidate_run t pre i post :
  tlb_wf t → lru_list t = pre ++ i :: post →
  ∃ t', invalidate_tlb_entry i t = Done (tt, t') ∧ tlb_wf t' ∧ t_size t' = t_size t ∧
    t_entries t' = t_entries t ∧ lru_list t' = pre ++ post.
Proof.
  intros Hwf E. unfold invalidate_tlb_entry, free_push. msimpl.
  rewrite bool_decide_eq_true_2; cycle 1. { rewrite E. apply elem_of_app. right. by left. }
  rewrite (lru_remove_run t pre i post) by (done || by apply wf_lru_nodup).
  eexists. split_and!; [done| |done|done|done].
  apply (wf_relist t (pre ++ post) (i :: free_list t) Hwf). rewrite E.
  by rewrite <- Permutation_middle, <- (Permutation_middle pre), (app_comm_cons (pre ++ post)).
Qed.

Lemma tlb_remove_spec t asid virt :
  tlb_wf t →
  ∃ t', tlb_remove_mapping asid virt t = Done (tt, t') ∧ tlb_wf t' ∧ t_size t' = t_size t ∧
    mappings t' = spec_remove (λ e, entry_matches e asid virt) (mappings t).
Proof.
  intros Hwf. unfold tlb_remove_mapping, spec_remove, mappings. msimpl.
  pose proof (find_entry_touch (λ e, entry_matches e asid virt) t (lru_list t)) as Hf.
  destruct (find_entry _ t (lru_list t)) as [i|]; [|rewrite Hf; by exists t].
  destruct Hf as (pre & post & E & ->).
  destruct (invalidate_run t pre i post Hwf E) as (t' & Hrun & Hwf' & Hs & He & Hl).
  exists t'. split_and!; [done|done|done|]. rewrite Hl. apply list_fmap_ext. intros k x _.
  unfold entry_at. by rewrite He.
Qed.

(** The loop of the flushes, from index [i] on. *)
Lemma flush_loop_run p n i t :
  tlb_wf t →
  ∃ t', flush_loop p n i t = Done (tt, t') ∧ tlb_wf t' ∧ t_size t' = t_size t ∧
    t_entries t' = t_entries t ∧
    lru_list t' = filter (λ x, ¬ (i ≤ x < i + Z.of_nat n ∧ p (entry_at t x) = true)) (lru_list t).
Proof.
  revert i t. induction n as [|n IH]; intros i t Hwf.
  { exists t. split_and!; try done. symmetry.
    apply filter_all. intros x _. lia. }
  assert (∃ t1, (if is_entry_valid t i && p (entry_at t i) then invalidate_tlb_entry i
                 else mret tt) t = Done (tt, t1) ∧ tlb_wf t1 ∧ t_size t1 = t_size t ∧
    t_entries t1 = t_entries t ∧
    lru_list t1 = filter (λ x, ¬ (x = i ∧ p (entry_at t x) = true)) (lru_list t))
    as (t1 & Hrun1 & Hwf1 & Hs1 & He1 & Hl1).
  { destruct (is_entry_valid t i && p (entry_at t i)) eqn:Ev.
    - apply andb_true_iff in Ev as [Hv Hp]. apply bool_decide_eq_true_1 in Hv.
      apply list_elem_of_split in Hv as (pre & post & E).
      destruct (invalidate_run t pre i post Hwf E) as (t1 & ? & ? & ? & ? & Hl).
      exists t1. split_and!; try done. rewrite Hl, E, <- (filter_middle pre post i)
        by (rewrite <- E; by apply wf_lru_nodup). apply list_filter_iff. intros x. naive_solver.
    - exists t. split_and!; try done. symmetry. apply filter_all. intros x Hx [-> Hp].
      unfold is_entry_valid in Ev. rewrite bool_decide_eq_true_2, Hp in Ev; done. }
  destruct (IH (i + 1) t1 Hwf1) as (t' & Hrun & Hwf' & Hs & He & Hl).
  exists t'. split_and!; [|done|congruence|congruence|].
  - cbn [flush_loop]. unfold get_st at 1. msimpl. unfold mret, st_ret in Hrun1. by rewrite Hrun1.
  - rewrite Hl, Hl1, list_filter_filter. apply list_filter_iff. intros x.
    unfold entry_at at 1. rewrite He1. fold (entry_at t x).
    destruct (decide (x = i)) as [->|]; [|assert (i + 1 ≤ x < i + 1 + Z.of_nat n ↔
      i ≤ x < i + Z.of_nat (S n)) by lia]; destruct (p (entry_at t _)); naive_solver lia.
Qed.

Lemma flush_where_spec p t :
  tlb_wf t →
  ∃ t', flush_where p t = Done (tt, t') ∧ tlb_wf t' ∧ t_size t' = t_size t ∧
    mappings t' = spec_flush p (mappings t).
Proof.
  intros Hwf. unfold flush_where. msimpl.
  destruct (flush_loop_run p (Z.to_nat (t_size t)) 0 t Hwf) as (t' & Hrun & Hwf' & Hs & He & Hl).
  exists t'. split_and!; [done|done|done|]. unfold mappings, spec_flush. rewrite Hl. clear Hl.
  assert (∀ x, entry_at t' x = entry_at t x) as Ee by (intros x; unfold entry_at; by rewrite He).
  assert (∀ x, x ∈ lru_list t → 0 ≤ x < 0 + Z.of_nat (Z.to_nat (t_size t))) as Hr.
  { intros x Hx. pose proof (wf_index t x Hwf Hx). lia. }
  revert Hr. induction (lru_list t) as [|x xs IH]; intros Hr; [done|].
  rewrite fmap_cons, !filter_cons. rewrite <- IH by (intros y Hy; apply Hr; by right).
  pose proof (Hr x ltac:(by left)). case_decide as H1; case_decide as H2; try done.
  - by rewrite fmap_cons, Ee.
  - destruct (p (entry_at t x)); naive_solver.
  - destruct (p (entry_at t x)); naive_solver.
Qed.

(** The mappings after an entry is filled in and pushed to the front. *)
Lemma mappings_push t t' i e xs :
  t_entries t' = <[i := e]> (t_entries t) → lru_list t' = i :: xs → i ∉ xs →
  mappings t' = e :: (entry_at t <$> xs).
Proof.
  intros He Hl Hi. unfold mappings, entry_at. rewrite Hl, He, fmap_cons. f_equal.
  - by rewrite lookup_insert_eq.
  - apply list_fmap_ext. intros k x Hx. rewrite lookup_insert_ne; [done|].
    intros ->. apply Hi. by eapply list_elem_of_lookup_2.
Qed.

Lemma tlb_add_spec t asid virt pte (size : K) (global : bool) :
  tlb_wf t →
  let vpn := Z.shiftr virt (page_shift size) in
  ∃ t', tlb_add_mapping asid virt pte size global t = Done (tt, t') ∧ tlb_wf t' ∧
    t_size t' = t_size t ∧
    mappings t' = spec_add (capacity t) (mk_entry pte vpn asid global size) (mappings t).
Proof.
  intros Hwf vpn. pose proof (wf_nodup t Hwf) as Hn. pose proof (wf_length t Hwf) as Hlen.
  pose proof (wf_lru_nodup t Hwf) as Hnl. destruct Hwf as [Hs Hp].
  unfold tlb_add_mapping, spec_add. unfold get_st at 1. msimpl.
  destruct (free_list t) as [|i free] eqn:Ef; cbn [head].
  - destruct (last (lru_list t)) as [i|] eqn:El.
    2: { apply last_None in El. rewrite El in Hlen. unfold capacity in Hlen. cbn in Hlen. lia. }
    apply last_Some in El as [pre El].
    rewrite (lru_remove_run t pre i []) by done. unfold lru_push, modify.
    eexists. split_and!; [done| |done|].
    + split; cbn; [done|]. rewrite Ef, El, !app_nil_r in *. rewrite <- Hp.
      apply Permutation_cons_append.
    + rewrite El in *. apply NoDup_app in Hnl as (_ & Hd & _).
      rewrite (mappings_push t _ i (mk_entry pte vpn asid global size) pre);
        [|done|cbn; by rewrite app_nil_r|intros Hi; apply (Hd i Hi); by left].
      f_equal. unfold mappings. rewrite El, fmap_app, take_app_length'; [done|].
      rewrite length_fmap. rewrite length_app in Hlen. cbn in Hlen. lia.
  - apply NoDup_app in Hn as (_ & Hd & [Hi _]%NoDup_cons).
    unfold remove_item. rewrite Ef, filter_cons_False, filter_not_in by (done || tauto).
    unfold lru_push, modify. eexists. split_and!; [done| |done|].
    + split; cbn; [done|]. rewrite <- Hp. by rewrite Permutation_middle.
    + rewrite (mappings_push t _ i (mk_entry pte vpn asid global size) (lru_list t));
        [|done|done|intros Hx; apply (Hd i Hx); by left].
      f_equal. rewrite take_ge; [done|]. unfold mappings. rewrite length_fmap. cbn in Hlen. lia.
Qed.

(** ** Operation sequences *)
Inductive tlb_op :=
  | TAdd (asid virt : Z) (pte : sv_pte) (size : K) (global : bool)
  | TGet (asid virt : Z) (noisy : bool)
  | TRemove (asid virt : Z)
  | TFlush
  | TFlushAsid (asid : Z)
  | TFlushAddr (virt : Z)
  | TFlushAsidAddr (asid virt : Z).

(** What a lookup answers: the cached entry and the size of its page, or a miss. *)
Abbreviation answer := (option (sv_pte * K)).

Definition silent (m : st rv_tlb unit) : st rv_tlb (list answer) := m;; mret [].

(** An operation gives the answers of the lookups it makes. *)
Definition run_tlb_op (o : tlb_op) : st rv_tlb (list answer) :=
  match o with
  | TAdd asid virt pte size glob => silent (tlb_add_mapping asid virt pte size glob)
  | TGet asid virt noisy => r ← tlb_get_mapping asid virt noisy; mret [r]
  | TRemove asid virt => silent (tlb_remove_mapping asid virt)
  | TFlush => silent tlb_flush
  | TFlushAsid asid => silent (tlb_flush_by_asid asid)
  | TFlushAddr virt => silent (tlb_flush_by_addr virt)
  | TFlushAsidAddr asid virt => silent (tlb_flush_by_asid_and_addr asid virt)
  end.

Fixpoint run_tlb_ops (os : list tlb_op) : st rv_tlb (list answer) :=
  match os with
  | [] => mret []
  | o :: os' => a ← run_tlb_op o; a' ← run_tlb_ops os'; mret (a ++ a')
  end.

(** A mapping applies to an address space: it is global or has its ASID. *)
Definition visible (asid : Z) (e : tlb_entry) : bool := e_global e || (e_asid e =? asid).

Definition spec_tlb_op (cap : nat) (o : tlb_op) (l : list tlb_entry) : list tlb_entry :=
  match o with
  | TAdd asid virt pte size glob =>
      spec_add cap (mk_entry pte (Z.shiftr virt (page_shift size)) asid glob size) l
  | TGet asid virt noisy =>
      if noisy then snd (spec_get (λ e, visible asid e && entry_maps_virt e virt) l) else l
  | TRemove asid virt => spec_remove (λ e, visible asid e && entry_maps_virt e virt) l
  | TFlush => []
  | TFlushAsid asid => spec_flush (λ e, negb (e_global e) && (e_asid e =? asid)) l
  | TFlushAddr virt => spec_flush (λ e, entry_maps_virt e virt) l
  | TFlushAsidAddr asid virt =>
      spec_flush (λ e, negb (e_global e) && (e_asid e =? asid) && entry_maps_virt e virt) l
  end.

(** A lookup answers the most recently used of the mappings that apply. *)
Definition spec_answer (o : tlb_op) (l : list tlb_entry) : list answer :=
  match o with
  | TGet asid virt _ =>
      [(λ e, (e_pte e, e_size e)) <$> List.find (λ e, visible asid e && entry_maps_virt e virt) l]
  | _ => []
  end.

Fixpoint spec_tlb_ops (cap : nat) (os : list tlb_op) (l : list tlb_entry) : list answer * list tlb_entry :=
  match os with
  | [] => ([], l)
  | o :: os' =>
      let '(a, l') := spec_tlb_ops cap os' (spec_tlb_op cap o l) in (spec_answer o l ++ a, l')
  end.

Lemma spec_get_find p l : fst (spec_get p l) = List.find p l.
Proof.
  unfold spec_get. induction l as [|e l IH]; [done|]. cbn. destruct (p e); [done|].
  rewrite <- IH. by destruct (spec_touch p l) as [[??]|].
Qed.

Lemma spec_touch_ext p q l : (∀ e, p e = q e) → spec_touch p l = spec_touch q l.
Proof. intros E. induction l as [|e l IH]; [done|]. cbn. by rewrite E, IH. Qed.

Lemma spec_flush_ext p q l : (∀ e, p e = q e) → spec_flush p l = spec_flush q l.
Proof. intros E. unfold spec_flush. apply list_filter_iff. intros e. by rewrite E. Qed.

Lemma visible_matches asid virt e :
  entry_matches e asid virt = visible asid e && entry_maps_virt e virt.
Proof. unfold entry_matches, visible. by destruct (e_global e), (e_asid e =? asid). Qed.

Lemma silent_spec m t (P : rv_tlb → Prop) :
  (∃ t', m t = Done (tt, t') ∧ P t') → ∃ t', silent m t = Done ([], t') ∧ P t'.
Proof. intros (t' & E & HP). exists t'. split; [|done]. unfold silent. by rewrite (bind_Done _ _ _ _ _ E). Qed.

Lemma run_tlb_op_spec o t :
  tlb_wf t →
  ∃ t', run_tlb_op o t = Done (spec_answer o (mappings t), t') ∧ tlb_wf t' ∧ t_size t' = t_size t ∧
    mappings t' = spec_tlb_op (capacity t) o (mappings t).
Proof.
  intros Hwf. destruct o as [asid virt pte size glob|asid virt noisy|asid virt| |asid|virt|asid virt];
    cbn [run_tlb_op spec_tlb_op spec_answer]; try apply silent_spec.
  - by apply tlb_add_spec.
  - destruct (tlb_get_spec t asid virt noisy Hwf) as (t' & Hrun & Hwf' & Hs & Hm).
    assert (spec_get (λ e, entry_matches e asid virt) (mappings t)
            = spec_get (λ e, visible asid e && entry_maps_virt e virt) (mappings t)) as Eg.
    { unfold spec_get. by rewrite (spec_touch_ext _ _ _ (visible_matches asid virt)). }
    rewrite Eg in Hrun, Hm. exists t'. split_and!; [|done|done|done].
    rewrite (bind_Done _ _ _ _ _ Hrun). by rewrite spec_get_find.
  - destruct (tlb_remove_spec t asid virt Hwf) as (t' & Hrun & Hwf' & Hs & Hm).
    exists t'. split_and!; [done..|]. rewrite Hm. unfold spec_remove.
    by rewrite (spec_touch_ext _ _ _ (visible_matches asid virt)).
  - destruct (flush_where_spec (λ _, true) t Hwf) as (t' & Hrun & Hwf' & Hs & Hm).
    exists t'. split_and!; [done..|]. rewrite Hm. clear. unfold spec_flush.
    induction (mappings t) as [|e l IH]; [done|]. by rewrite filter_cons_False.
  - by apply flush_where_spec.
  - by apply flush_where_spec.
  - erewrite spec_flush_ext; [by apply flush_where_spec|].
    intros e. unfold entry_maps_virt. by destruct (e_asid e =? asid).
Qed.

Lemma run_tlb_ops_spec os size t :
  tlb_wf t → t_size t = size →
  let r := spec_tlb_ops (Z.to_nat size) os (mappings t) in
  ∃ t', run_tlb_ops os t = Done (fst r, t') ∧ tlb_wf t' ∧ t_size t' = size ∧ mappings t' = snd r.
Proof.
  revert t. induction os as [|o os IH]; intros t Hwf Hs r; [by exists t|]. subst r.
  destruct (run_tlb_op_spec o t Hwf) as (t1 & Hrun1 & Hwf1 & Hs1 & Hm1).
  destruct (IH t1 Hwf1 ltac:(congruence)) as (t' & Hrun & Hwf' & Hs' & Hm).
  rewrite Hm1 in Hrun, Hm. unfold capacity in Hrun, Hm. rewrite Hs in Hrun, Hm. exists t'.
  cbn [run_tlb_ops spec_tlb_ops]. rewrite (bind_Done _ _ _ _ _ Hrun1), (bind_Done _ _ _ _ _ Hrun).
  by destruct (spec_tlb_ops _ os _) as [a l].
Qed.

(** C15: starting from a fresh TLB, any sequence of insertions, lookups, removals
    and flushes runs to completion; every lookup answers the most recently used of
    the cached mappings that apply to the address and the address space, or a miss
    when there is none; the TLB then caches exactly the sequence of mappings, in
    LRU order, that the specification computes, and never holds more mappings than
    it has entries. *)
Theorem tlb_refines os size :
  0 < size →
  let '(answers, l) := spec_tlb_ops (Z.to_nat size) os [] in
  ∃ t, run_tlb_ops os (empty_tlb size) = Done (answers, t) ∧ tlb_wf t ∧
    mappings t = l ∧ (length l ≤ Z.to_nat size)%nat.
Proof.
  intros Hs. destruct (run_tlb_ops_spec os size _ (empty_tlb_wf size Hs) eq_refl) as (t & Hrun & Hwf & Ht & Hm).
  change (mappings (empty_tlb size)) with (@nil tlb_entry) in *.
  destruct (spec_tlb_ops _ os []) as [a l]. exists t. split_and!; [done|done|done|].
  pose proof (wf_length t Hwf) as Hl. cbn in Hm. rewrite <- Hm. unfold mappings, capacity in *.
  rewrite length_fmap. lia.
Qed.

Lemma spec_touch_flushed p q l e r :
  spec_touch p (spec_flush q l) = Some (e, r) → e ∈ l ∧ p e = true ∧ q e = false.
Proof.
  unfold spec_flush. induction l as [|x l IH] in e, r |- *; [done|]. rewrite filter_cons.
  case_decide as Hq.
  - cbn. destruct (p x) eqn:Hp.
    { intros [= <- <-]. split_and!; [by left|done|done]. }
    intros ([m r'] & Ht & [= <- <-])%bind_Some. apply IH in Ht as (? & ? & ?). set_solver.
  - intros Ht. apply IH in Ht as (? & ? & ?). set_solver.
Qed.

(** What a lookup can return after a flush. *)
Lemma get_after_flush q t t1 asid virt noisy r t2 :
  tlb_wf t → flush_where q t = Done (tt, t1) →
  tlb_get_mapping asid virt noisy t1 = Done (r, t2) →
  r = None ∨ ∃ e, e ∈ mappings t ∧ visible asid e = true ∧ entry_maps_virt e virt = true ∧
    q e = false ∧ r = Some (e_pte e, e_size e).
Proof.
  intros Hwf Hf Hg. destruct (flush_where_spec q t Hwf) as (t1' & Hrun & Hwf1 & _ & Hm).
  rewrite Hrun in Hf. injection Hf as <-.
  destruct (tlb_get_spec t1' asid virt noisy Hwf1) as (t2' & Hrun' & _).
  rewrite Hrun' in Hg. injection Hg as <- _. unfold spec_get.
  destruct (spec_touch _ (mappings t1')) as [[e r']|] eqn:E; [right|by left].
  rewrite Hm in E. apply spec_touch_flushed in E as (Hin & Hp & Hq).
  rewrite visible_matches in Hp. apply andb_true_iff in Hp as [? ?]. by exists e.
Qed.

(** SFENCE.VMA removes what it must.  After each flush a lookup that the
    flush covers finds nothing, except a global mapping after the two
    ASID-specific flushes. *)
Theorem tlb_flush_no_stale t asid virt t1 noisy r t2 :
  tlb_wf t → tlb_get_mapping asid virt noisy t1 = Done (r, t2) →
  (tlb_flush t = Done (tt, t1) ∨ tlb_flush_by_addr virt t = Done (tt, t1) → r = None) ∧
  (tlb_flush_by_asid asid t = Done (tt, t1) ∨
     tlb_flush_by_asid_and_addr asid virt t = Done (tt, t1) →
     r = None ∨ ∃ e, e ∈ mappings t ∧ e_global e = true ∧ r = Some (e_pte e, e_size e)).
Proof.
  intros Hwf Hg. split; intros [Hf|Hf];
    destruct (get_after_flush _ _ _ _ _ _ _ _ Hwf Hf Hg) as [->|(e & Hin & Hv & Hm & Hq & ->)];
    try (by left); try done.
  - unfold entry_maps_virt in Hm. congruence.
  - right. exists e. unfold visible in Hv. by destruct (e_global e), (e_asid e =? asid).
  - right. exists e. unfold visible, entry_maps_virt in *.
    destruct (e_global e), (e_asid e =? asid); simpl in *; try done; congruence.
Qed.

(** a mapping just cached is found by the next lookup of any address of its
    page in the same address space, and in every address space if it is global. *)
Theorem tlb_hit_after_add t asid asid' virt virt' pte (size : K) (global : bool) t1 :
  tlb_wf t → tlb_add_mapping asid virt pte size global t = Done (tt, t1) →
  Z.shiftr virt' (page_shift size) =
    Z.shiftr virt (page_shift size) →
  asid' = asid ∨ global = true →
  ∃ t2, tlb_get_mapping asid' virt' true t1 = Done (Some (pte, size), t2).
Proof.
  intros Hwf Hadd Hpage Hvis.
  destruct (tlb_add_spec t asid virt pte size global Hwf) as (t1' & Hrun & Hwf1 & _ & Hm).
  rewrite Hrun in Hadd. injection Hadd as <-.
  destruct (tlb_get_spec t1' asid' virt' true Hwf1) as (t2 & Hg & _). exists t2. rewrite Hg.
  do 2 f_equal. rewrite Hm. unfold spec_get, spec_add. cbn [spec_touch].
  replace (entry_matches _ asid' virt') with true; [done|].
  rewrite visible_matches. unfold visible, entry_maps_virt. cbn.
  symmetry. apply andb_true_iff. split.
  - destruct Hvis as [-> | ->]; [by rewrite Z.eqb_refl, orb_true_r|done].
  - apply Z.eqb_eq. by rewrite <- Hpage.
Qed.
End Tlb.
Arguments tlb_entry K : clear implicits.
Arguments rv_tlb K : clear implicits.
Arguments tlb_op K : clear implicits.
