(* ===== verification/Rv32Tlb.v ===== *)
(** * Sv32 page-table entries and the RV32 TLB (riscv_rv32ima/virt_mem.h, tlb.h, tlb.c)

    The instance of [RvTlb] with pages and megapages; the size of a page is the
    flag [megapage] of the source. *)

From S2P Require Import Prelude RvTypes RvTlb.

Definition RV_PAGESIZE : Z := 12.
Definition RV_PTESIZE : Z := 4.
Definition RV_MEGAPAGESIZE : Z := 22.

Abbreviation sv32_pte := sv_pte.

(** The bit-field layout of the union [sv32_pte_helper_t]. *)
Definition pte_from_uint (v : Z) : sv32_pte :=
  mk_pte (Z.testbit v 0) (Z.testbit v 1) (Z.testbit v 2) (Z.testbit v 3)
    (Z.testbit v 4) (Z.testbit v 5) (Z.testbit v 6) (Z.testbit v 7)
    (ubits v 8 2) (ubits v 10 22) 0 0 0.

Definition uint_from_pte (p : sv32_pte) : Z :=
  fold_right Z.lor 0
    [bit_at (pte_v p) 0; bit_at (pte_r p) 1; bit_at (pte_w p) 2; bit_at (pte_x p) 3;
     bit_at (pte_u p) 4; bit_at (pte_g p) 5; bit_at (pte_a p) 6; bit_at (pte_d p) 7;
     Z.shiftl (pte_rsw p) 8; Z.shiftl (pte_ppn p) 10].

Definition pte_ppn0 (p : sv32_pte) : Z := Z.land (pte_ppn p) 0x0003FF.
Definition pte_ppn1 (p : sv32_pte) : Z := Z.land (pte_ppn p) 0x3FFC00.
Definition pte_ppn_phys (p : sv32_pte) : Z := Z.shiftl (pte_ppn p) RV_PAGESIZE.

(** ** The TLB *)
#[export] Instance sv32_sizes : PageSizes bool := {|
  page_shift := λ megapage : bool, if megapage then RV_MEGAPAGESIZE else RV_PAGESIZE;
  zero_size := false
|}.

Abbreviation rv32_tlb := (rv_tlb bool).

Definition rv32_tlb_add_mapping : Z → Z → sv32_pte → bool → bool → st rv32_tlb unit :=
  tlb_add_mapping.
Definition rv32_tlb_get_mapping : Z → Z → bool → st rv32_tlb (option (sv32_pte * bool)) :=
  tlb_get_mapping.
Definition rv32_tlb_remove_mapping : Z → Z → st rv32_tlb unit := tlb_remove_mapping.
Definition rv32_tlb_flush : st rv32_tlb unit := tlb_flush.
Definition rv32_tlb_flush_by_asid : Z → st rv32_tlb unit := tlb_flush_by_asid.
Definition rv32_tlb_flush_by_addr : Z → st rv32_tlb unit := tlb_flush_by_addr.
Definition rv32_tlb_flush_by_asid_and_addr : Z → Z → st rv32_tlb unit :=
  tlb_flush_by_asid_and_addr.
Definition rv32_tlb_init : Z → st rv32_tlb unit := tlb_init.
Definition rv32_tlb_resize : Z → st rv32_tlb bool := tlb_resize.

Definition DEFAULT_RV_TLB_SIZE : Z := 48.

(** ** Witnesses *)
Definition sample_ops : list (tlb_op bool) :=
  [TAdd 1 0x5000 (pte_from_uint 0x81F) false false;
   TAdd 2 0x5000 (pte_from_uint 0xC1F) false false;
   TGet 1 0x5123 true; TGet 2 0x5123 true; TGet 3 0x5123 true; TFlushAsid 1; TGet 1 0x5123 false].

Lemma tlb_refines_witness :
  ∃ t, run_tlb_ops sample_ops (empty_tlb 2) =
      Done ([Some (pte_from_uint 0x81F, false); Some (pte_from_uint 0xC1F, false); None; None], t) ∧
    mappings t = [mk_entry (pte_from_uint 0xC1F) 5 2 false false].
Proof.
  destruct (tlb_refines sample_ops 2 ltac:(lia)) as (t & Hrun & _ & Hm & _).
  exists t. split; [exact Hrun|]. rewrite Hm. vm_compute. reflexivity.
Defined.

(** A page and a megapage that both map an address: the lookup answers the mapping
    used last, not the megapage. *)
Theorem tlb_no_megapage_priority :
  ∃ t, run_tlb_ops [TAdd 1 0 (pte_from_uint 0x81F) true false; TAdd 1 0x5000 (pte_from_uint 0xC1F) false false;
                    TGet 1 0x5123 true] (empty_tlb 2) = Done ([Some (pte_from_uint 0xC1F, false)], t).
Proof. eexists. vm_compute. reflexivity. Qed.

Definition tlb_one : rv32_tlb :=
  mk_tlb {[0 := mk_entry (pte_from_uint 0x81F) 5 1 false false]} 2 [0] [1].

Lemma tlb_one_wf : tlb_wf tlb_one.
Proof. by split. Qed.

Lemma tlb_flush_no_stale_witness :
  ∃ r t2, rv32_tlb_get_mapping 1 0x5000 true (mk_tlb (t_entries tlb_one) 2 [] [0; 1]) = Done (r, t2)
    ∧ r = None.
Proof.
  eexists _, _. split; [reflexivity|].
  refine (proj1 (tlb_flush_no_stale tlb_one 1 0x5000
    (mk_tlb (t_entries tlb_one) 2 [] [0; 1]) true _ _ tlb_one_wf eq_refl) _).
  right. vm_compute. reflexivity.
Defined.

Lemma tlb_hit_after_add_witness :
  ∃ t2, rv32_tlb_get_mapping 1 0x7123 true
      (mk_tlb {[0 := mk_entry (pte_from_uint 0x81F) 5 1 false false;
                1 := mk_entry (pte_from_uint 0xC1F) 7 1 false false]} 2 [1; 0] [])
    = Done (Some (pte_from_uint 0xC1F, false), t2).
Proof.
  refine (tlb_hit_after_add tlb_one 1 1 0x7000 0x7123 _ false false _ tlb_one_wf _ _ _);
    [vm_compute; reflexivity|reflexivity|by left].
Defined.
