(* ===== verification/Rv64Tlb.v ===== *)
(** * Sv39 page-table entries and the RV64 TLB (riscv_rv64ima/virt_mem.h, tlb.h, tlb.c)

    The instance of [RvTlb] with pages, megapages and gigapages. *)

From S2P Require Import Prelude RvTypes RvTlb.

Definition RV64_PAGESIZE : Z := 12.
Definition RV64_PTESIZE : Z := 8.
Definition RV64_MEGAPAGESIZE : Z := 21.
Definition RV64_GIGAPAGESIZE : Z := 30.

Inductive sv39_page_type := page | megapage | gigapage.

Abbreviation sv39_pte := sv_pte.

(** The bit-field layout of the union [sv39_pte_helper_t]. *)
Definition sv39_pte_from_uint (v : Z) : sv39_pte :=
  mk_pte (Z.testbit v 0) (Z.testbit v 1) (Z.testbit v 2) (Z.testbit v 3)
    (Z.testbit v 4) (Z.testbit v 5) (Z.testbit v 6) (Z.testbit v 7)
    (ubits v 8 2) (ubits v 10 44) (ubits v 54 7) (ubits v 61 2) (ubits v 63 1).

Definition sv39_uint_from_pte (p : sv39_pte) : Z :=
  fold_right Z.lor 0
    [bit_at (pte_v p) 0; bit_at (pte_r p) 1; bit_at (pte_w p) 2; bit_at (pte_x p) 3;
     bit_at (pte_u p) 4; bit_at (pte_g p) 5; bit_at (pte_a p) 6; bit_at (pte_d p) 7;
     Z.shiftl (pte_rsw p) 8; Z.shiftl (pte_ppn p) 10; Z.shiftl (pte_reserved p) 54;
     Z.shiftl (pte_pbmt p) 61; Z.shiftl (pte_n p) 63].

Definition sv39_is_pte_leaf : sv39_pte → bool := is_pte_leaf.
Definition sv39_is_pte_valid : sv39_pte → bool := is_pte_valid.
Definition sv39_pte_ppn0 (p : sv39_pte) : Z := Z.land (pte_ppn p) 0x1FF.
Definition sv39_pte_ppn1 (p : sv39_pte) : Z := Z.land (Z.shiftr (pte_ppn p) 9) 0x1FF.
Definition sv39_pte_ppn2 (p : sv39_pte) : Z := Z.shiftr (pte_ppn p) 18.
Definition sv39_pte_ppn_phys (p : sv39_pte) : Z := Z.shiftl (pte_ppn p) RV64_PAGESIZE.

(** ** The TLB.  The [default] branches of the switches on the page type are
    not reachable. *)
#[export] Instance sv39_sizes : PageSizes sv39_page_type := {|
  page_shift := λ page_type, match page_type with
                             | page => RV64_PAGESIZE
                             | megapage => RV64_MEGAPAGESIZE
                             | gigapage => RV64_GIGAPAGESIZE
                             end;
  zero_size := page
|}.

Abbreviation rv64_tlb := (rv_tlb sv39_page_type).

Definition rv64_tlb_add_mapping : Z → Z → sv39_pte → sv39_page_type → bool → st rv64_tlb unit :=
  tlb_add_mapping.
Definition rv64_tlb_get_mapping
    : Z → Z → bool → st rv64_tlb (option (sv39_pte * sv39_page_type)) := tlb_get_mapping.
Definition rv64_tlb_remove_mapping : Z → Z → st rv64_tlb unit := tlb_remove_mapping.
Definition rv64_tlb_flush : st rv64_tlb unit := tlb_flush.
Definition rv64_tlb_flush_by_asid : Z → st rv64_tlb unit := tlb_flush_by_asid.
Definition rv64_tlb_flush_by_addr : Z → st rv64_tlb unit := tlb_flush_by_addr.
Definition rv64_tlb_flush_by_asid_and_addr : Z → Z → st rv64_tlb unit :=
  tlb_flush_by_asid_and_addr.
Definition rv64_tlb_init : Z → st rv64_tlb unit := tlb_init.
Definition rv64_tlb_resize : Z → st rv64_tlb bool := tlb_resize.

Definition DEFAULT_RV64_TLB_SIZE : Z := 96.
