(* ===== verification/RvWorld.v ===== *)
(** * The machine of RISC-V processors

    The instance of [Machine] for RISC-V: a processor is notified of stores with
    [rv_sc_access] (riscv_rv_ima/memory.c).  [Translation] is the interface of
    address translation that the shared sources (riscv_rv_ima/memory.c) call and
    each processor family implements. *)

From S2P Require Import Prelude PhysMem Machine RvTypes RvCpu MachineProps.
Import PhysMem.

Abbreviation cache_item := (Machine.cache_item Instr.instr_func).
Abbreviation world T D := (Machine.world (rv_cpu T) Instr.instr_func D).
Abbreviation Board T D := (BoardOf (rv_cpu T) Instr.instr_func D).

(** ** Reservations (riscv_rv_ima/memory.c: [rv_sc_access]) *)
Definition AREAS_OVERLAP (base1 size1 base2 size2 : Z) : bool :=
  ((base2 <=? base1) && (base1 <? base2 + size2)) || ((base1 <=? base2) && (base2 <? base1 + size1)).

Definition rv_sc_access {T} (phys size : Z) (c : rv_cpu T) : bool * rv_cpu T :=
  let hit := AREAS_OVERLAP (reserved_addr c) 4 phys size in
  (hit, if hit then c <| reserved_valid := false |> else c).

#[export] Instance rv_core {T} : Core (rv_cpu T) := {|
  core_number c := mhartid (csr c);
  core_sc_access := rv_sc_access
|}.

(** ** Address translation

    [rv_convert_addr virt wr fetch noisy] yields the physical address or a page
    fault. *)
Class Translation (T D : Type) `{Board T D} := {
  rv_convert_addr : Z → bool → bool → bool → exec (world T D) Z
}.

(** A processor may have lost its reservation. *)
Definition cpu_weaker {T} (c c' : rv_cpu T) : Prop := c' = c ∨ c' = c <| reserved_valid := false |>.

#[export] Instance cpu_weaker_preorder {T} : PreOrder (@cpu_weaker T).
Proof.
  split; [by left|]. intros c1 c2 c3 [-> | ->] [-> | ->]; [by left|by right..].
Qed.

Lemma rv_sc_access_weaker {T} phys size (c : rv_cpu T) : cpu_weaker c (snd (rv_sc_access phys size c)).
Proof. unfold rv_sc_access. cbn. destruct (AREAS_OVERLAP _ _ _ _); [by right|by left]. Qed.

#[export] Instance rv_core_laws {T} : CoreLaws (rv_cpu T) := {|
  core_weaker := cpu_weaker;
  core_sc_access_weaker := rv_sc_access_weaker
|}.
