(* ===== verification/RvMem.v ===== *)
(** * Virtual memory accesses (riscv_rv_ima/memory.c)

    The timer registers [mtime] and [mtimecmp] are mapped at fixed addresses in
    machine mode; every other access is translated, checked for alignment and
    sent to physical memory.  Translation faults have priority over alignment
    faults, as in the source. *)

From S2P Require Import Prelude PhysMem RvTypes RvCpu RvCsr Machine RvWorld.
Import PhysMem.

Definition RV_START_ADDRESS : Z := 0xF0000000.
Definition RV_MTIME_ADDRESS : Z := 0xFF000000.
Definition RV_MTIMECMP_ADDRESS : Z := 0xFF000008.

Definition BIT_MASK (start stop : Z) : Z := wrap 64 (Z.shiftl (Z.shiftl 1 (stop - start) - 1) start).
Definition WRITE_BITS (target val start stop : Z) : Z :=
  Z.lor (Z.land target (c_not 64 (BIT_MASK start stop)))
        (Z.land (wrap 64 (Z.shiftl val start)) (BIT_MASK start stop)).

Section Mem.
Context `{Xlen} {T D : Type} `{Board T D} `{!Translation T D}.
Abbreviation W := (world T D).

(** ** Memory-mapped timer registers *)

(** The registers are only visible to unmodified machine-mode accesses. *)
Definition mmio_enabled (c : rv_cpu T) (virt width : Z) : bool :=
  IS_ALIGNED virt (width / 8) &&
  negb (priv_lt (priv_mode c) rv_mmode || rv_csr_mstatus_mprv c).

(** The macro [try_read_memory_mapped_regs_body]: it extracts [width / 8] bits. *)
Definition try_read_memory_mapped_regs (width virt : Z) (c : rv_cpu T) : option Z :=
  if mmio_enabled c virt width then
    let offset := Z.land virt 7 * 8 in
    if ALIGN_DOWN virt 8 =? RV_MTIME_ADDRESS
    then Some (wrap width (EXTRACT_BITS (mtime (csr c)) offset (offset + width / 8)))
    else if ALIGN_DOWN virt 8 =? RV_MTIMECMP_ADDRESS
    then Some (wrap width (EXTRACT_BITS (mtimecmp (csr c)) offset (offset + width / 8)))
    else None
  else None.

Definition handle_mtip (c : rv_cpu T) : rv_cpu T :=
  if mtimecmp (csr c) <=? mtime (csr c)
  then with_csr (λ r, r <| mip := Z.lor (mip r) rv_csr_mti_mask |>) c
  else with_csr (λ r, r <| mip := Z.land (mip r) (c_not 32 rv_csr_mti_mask) |>) c.

(** [WRITE_BITS] of 64 bits shifts by the full width, which is undefined. *)
Definition try_write_memory_mapped_regs (virt value width : Z) : st W bool :=
  c ← cpu;
  if mmio_enabled c virt width then
    let offset := Z.land virt 7 * 8 in
    if ALIGN_DOWN virt 8 =? RV_MTIME_ADDRESS then
      c_defined (width <? 64);;
      cpu_modify (λ c, handle_mtip
        (with_csr (λ r, r <| mtime := WRITE_BITS (mtime r) value offset (offset + width) |>) c));;
      mret true
    else if ALIGN_DOWN virt 8 =? RV_MTIMECMP_ADDRESS then
      c_defined (width <? 64);;
      cpu_modify (λ c, handle_mtip
        (with_csr (λ r, r <| mtimecmp := WRITE_BITS (mtimecmp r) value offset (offset + width) |>) c));;
      mret true
    else mret false
  else mret false.

(** The macro [throw_ex]. *)
Definition throw_ex {A} (virt : Z) (e : rv_exc) (noisy : bool) : exec W A :=
  (if noisy then cpu_modify (with_csr (λ r, r <| tval_next := virt |>)) else mret tt);;
  raise e.

(** Translation whose fault is recorded by [throw_ex]. *)
Definition convert_or_throw (virt : Z) (wr fetch noisy : bool) : exec W Z :=
  r ← rv_convert_addr virt wr fetch noisy;
  match r with inl e => throw_ex virt e noisy | inr phys => ok phys end.

(** ** Reads *)
Definition rv_read_mem (width : Z) (physread : Z → Z → bool → st W Z)
    (virt : Z) (fetch noisy : bool) : exec W Z :=
  c ← cpu;
  match try_read_memory_mapped_regs width virt c with
  | Some v => ok v
  | None =>
      phys ⇐ convert_or_throw virt false fetch noisy;
      if negb (IS_ALIGNED virt (width / 8))
      then throw_ex virt (if fetch then rv_exc_instruction_address_misaligned
                          else rv_exc_load_address_misaligned) noisy
      else c ← cpu; lift (physread (mhartid (csr c)) phys true)
  end.

Definition rv_read_mem64 := rv_read_mem 64 physmem_read64.
Definition rv_read_mem32 := rv_read_mem 32 physmem_read32.
Definition rv_read_mem16 := rv_read_mem 16 physmem_read16.
Definition rv_read_mem8 (virt : Z) (noisy : bool) := rv_read_mem 8 physmem_read8 virt false noisy.

(** ** Writes: a failed physical write is ignored. *)
Definition rv_write_mem (width : Z) (physwrite : Z → Z → Z → bool → st W bool)
    (virt value : Z) (noisy : bool) : exec W unit :=
  done ← try_write_memory_mapped_regs virt value width;
  if (done : bool) then ok tt
  else
    phys ⇐ convert_or_throw virt true false noisy;
    if negb (IS_ALIGNED virt (width / 8))
    then throw_ex virt rv_exc_store_amo_address_misaligned noisy
    else c ← cpu; physwrite (mhartid (csr c)) phys value true;; ok tt.

Definition rv_write_mem8 := rv_write_mem 8 physmem_write8.
Definition rv_write_mem16 := rv_write_mem 16 physmem_write16.
Definition rv_write_mem32 := rv_write_mem 32 physmem_write32.
Definition rv_write_mem64 := rv_write_mem 64 physmem_write64.
End Mem.
