(* ===== verification/RvMemOps.v ===== *)
(** * Memory instructions (riscv_rv_ima/instructions/mem_ops.c and the atomics of computations.c)

    Loads, stores, LR/SC and the atomic memory operations, over the accesses of
    [RvMem] and the reservation list of [PhysMem].  The order of register reads
    and writes follows the source: the AMO functions other than AMOSWAP write the
    destination register before they read the second source register. *)

From S2P Require Import Prelude PhysMem RvTypes RvCpu RvCsr Machine RvWorld RvMem.
Import PhysMem Instr.

Section MemOps.
Context `{Xlen} {T D : Type} `{Board T D} `{!Translation T D}.
Abbreviation W := (world T D).

Definition write_reg (r v : Z) : st W unit := cpu_modify (set_reg r v).

(** [ASSERT(ex == rv_exc_none)] after a call. *)
Definition expect {A} (m : exec W A) : st W A :=
  r ← m; match r with inl _ => stop AssertFailed | inr a => mret a end.

Definition rv_illegal_instr (_ : Z) : exec W unit :=
  w ← get_st; if machine_undefined w then ok tt else raise rv_exc_illegal_instruction.

(** ** Loads *)
Definition load_addr (i : Z) : st W Z :=
  c ← cpu; mret (ux (reg (rs1 i) c + i_imm i)).

Definition load_misaligned {A} (virt : Z) : exec W A :=
  cpu_modify (with_csr (λ r, r <| tval_next := virt |>));;
  raise rv_exc_load_address_misaligned.

Definition rv_lb_instr (i : Z) : exec W unit :=
  c_assert (opcode i =? rv_opcLOAD);;
  virt ← load_addr i;
  val ⇐ rv_read_mem8 virt true;
  write_reg (rd i) (sign_extend_8_to_xlen val);; ok tt.

Definition rv_lh_instr (i : Z) : exec W unit :=
  c_assert (opcode i =? rv_opcLOAD);;
  virt ← load_addr i;
  val ⇐ rv_read_mem16 virt false true;
  write_reg (rd i) (sign_extend_16_to_xlen val);; ok tt.

Definition rv_lw_instr (i : Z) : exec W unit :=
  c_assert (opcode i =? rv_opcLOAD);;
  virt ← load_addr i;
  if negb (IS_ALIGNED virt 4) then load_misaligned virt
  else
    val ⇐ rv_read_mem32 virt false true;
    write_reg (rd i) (sign_extend_32_to_xlen val);; ok tt.

Definition rv_ld_instr (i : Z) : exec W unit :=
  c_assert (opcode i =? rv_opcLOAD);;
  virt ← load_addr i;
  if negb (IS_ALIGNED virt 8) then load_misaligned virt
  else
    val ⇐ rv_read_mem64 virt false true;
    write_reg (rd i) (ux val);; ok tt.

Definition rv_lbu_instr (i : Z) : exec W unit :=
  c_assert (opcode i =? rv_opcLOAD);;
  virt ← load_addr i;
  val ⇐ rv_read_mem8 virt true;
  write_reg (rd i) (ux val);; ok tt.

Definition rv_lhu_instr (i : Z) : exec W unit :=
  c_assert (opcode i =? rv_opcLOAD);;
  virt ← load_addr i;
  if negb (IS_ALIGNED virt 2) then load_misaligned virt
  else
    val ⇐ rv_read_mem16 virt false true;
    write_reg (rd i) (ux val);; ok tt.

Definition rv_lwu_instr (i : Z) : exec W unit :=
  c_assert (opcode i =? rv_opcLOAD);;
  virt ← load_addr i;
  if negb (IS_ALIGNED virt 4) then load_misaligned virt
  else
    val ⇐ rv_read_mem32 virt false true;
    write_reg (rd i) (ux val);; ok tt.

(** ** Stores *)
Definition store_op (width : Z) (mem : Z → Z → bool → exec W unit) (i : Z) : exec W unit :=
  c_assert (opcode i =? rv_opcSTORE);;
  c ← cpu;
  let virt := ux (reg (rs1 i) c + RV_S_IMM i) in
  mem virt (wrap width (reg (rs2 i) c)) true.

Definition rv_sb_instr := store_op 8 rv_write_mem8.
Definition rv_sh_instr := store_op 16 rv_write_mem16.
Definition rv_sw_instr := store_op 32 rv_write_mem32.
Definition rv_sd_instr := store_op 64 rv_write_mem64.

Definition rv_fence_instr (_ : Z) : exec W unit := ok tt.

(** ** LR and SC *)

(** Dropping the reservation: the global list and the processor's flag. *)
Definition cancel_reservation : st W unit :=
  c ← cpu;
  sc_unregister (mhartid (csr c));;
  cpu_modify (λ c, c <| reserved_valid := false |>).

(** The body shared by [rv_lr_w_instr] and [rv_lr_instr]. *)
Definition load_reserved (mem : Z → bool → bool → exec W Z) (align : Z) (ext : Z → Z) (i : Z)
    : exec W unit :=
  c_assert (opcode i =? rv_opcAMO);;
  c_assert (rs2 i =? 0);;
  c ← cpu;
  let virt := reg (rs1 i) c in
  r ← mem virt false true;
  match r with
  | inl e => cancel_reservation;; raise e
  | inr val =>
      if negb (IS_ALIGNED virt align)
      then cancel_reservation;; raise rv_exc_load_address_misaligned
      else
        write_reg (rd i) (ext val);;
        phys ← expect (rv_convert_addr virt false false false);
        c ← cpu;
        sc_register (mhartid (csr c));;
        cpu_modify (λ c, c <| reserved_valid := true |>);;
        cpu_modify (λ c, c <| reserved_addr := phys |>);;
        ok tt
  end.

Definition rv_lr_w_instr := load_reserved rv_read_mem32 4 zero_extend_32_to_xlen.
Definition rv_lr_instr :=
  load_reserved (if XLEN =? 32 then rv_read_mem32 else rv_read_mem64) (XLEN / 8) ux.

(** The body shared by [rv_sc_w_instr] and [rv_sc_instr]. *)
Definition store_conditional (width : Z) (mem : Z → Z → bool → exec W unit) (i : Z)
    : exec W unit :=
  c_assert (opcode i =? rv_opcAMO);;
  c ← cpu;
  let virt := reg (rs1 i) c in
  if negb (reserved_valid c) then write_reg (rd i) 1;; ok tt
  else
    cpu_modify (λ c, c <| reserved_valid := false |>);;
    sc_unregister (mhartid (csr c));;
    r ← rv_convert_addr virt true false true;
    match r with
    | inl e => write_reg (rd i) 1;; raise e
    | inr phys =>
        if negb (IS_ALIGNED virt (width / 8))
        then write_reg (rd i) 1;; raise rv_exc_store_amo_address_misaligned
        else
          c ← cpu;
          if negb (phys =? reserved_addr c) then write_reg (rd i) 1;; ok tt
          else
            r ← mem virt (wrap width (reg (rs2 i) c)) true;
            match r with
            | inl e => write_reg (rd i) 1;; raise e
            | inr _ => write_reg (rd i) 0;; ok tt
            end
    end.

Definition rv_sc_w_instr := store_conditional 32 rv_write_mem32.
Definition rv_sc_instr := store_conditional 64 rv_write_mem64.

(** ** Atomic memory operations *)

(** [throw_if_wrong_privilege] and [throw_if_misaligned_word] / [_dword]. *)
Definition amo_checks (virt align : Z) : exec W unit :=
  convert_or_throw virt true false true;;;
  if negb (IS_ALIGNED virt align)
  then throw_ex virt rv_exc_store_amo_address_misaligned true
  else ok tt.

Definition rv_amoswap_w_instr (i : Z) : exec W unit :=
  c_assert (opcode i =? rv_opcAMO);;
  c ← cpu;
  let virt := reg (rs1 i) c in
  amo_checks virt 4;;;
  val ← expect (rv_read_mem32 virt false true);
  c ← cpu;
  expect (rv_write_mem32 virt (wrap 32 (reg (rs2 i) c)) true);;
  write_reg (rd i) (sign_extend_32_to_xlen val);; ok tt.

Definition rv_amoswap_d_instr (i : Z) : exec W unit :=
  c_assert (opcode i =? rv_opcAMO);;
  c ← cpu;
  let virt := reg (rs1 i) c in
  amo_checks virt 8;;;
  val ← expect (rv_read_mem64 virt false true);
  c ← cpu;
  expect (rv_write_mem64 virt (reg (rs2 i) c) true);;
  write_reg (rd i) (ux val);; ok tt.

(** The common body of the others: [f] combines the loaded value with [rs2],
    read after [rd] was written. *)
Definition amo_w (ext : Z → Z) (f : Z → Z → Z) (i : Z) : exec W unit :=
  c ← cpu;
  let virt := reg (rs1 i) c in
  amo_checks virt 4;;;
  val ← expect (rv_read_mem32 virt false true);
  write_reg (rd i) (ext val);;
  c ← cpu;
  expect (rv_write_mem32 virt (f val (wrap 32 (reg (rs2 i) c))) true);;
  ok tt.

Definition amo_d (check_opcode : bool) (f : Z → Z → Z) (i : Z) : exec W unit :=
  c_assert (negb check_opcode || (opcode i =? rv_opcAMO));;
  c ← cpu;
  let virt := reg (rs1 i) c in
  amo_checks virt 8;;;
  val ← expect (rv_read_mem64 virt false true);
  write_reg (rd i) (ux val);;
  c ← cpu;
  expect (rv_write_mem64 virt (f val (reg (rs2 i) c)) true);;
  ok tt.

Definition signed_min (w val rs2 : Z) : Z := if sgn w rs2 <? sgn w val then rs2 else val.
Definition signed_max (w val rs2 : Z) : Z := if sgn w val <? sgn w rs2 then rs2 else val.
Definition unsigned_min (val rs2 : Z) : Z := if rs2 <? val then rs2 else val.
Definition unsigned_max (val rs2 : Z) : Z := if val <? rs2 then rs2 else val.

Definition rv_amoadd_w_instr := amo_w sign_extend_32_to_xlen (λ val rs2, wrap 32 (val + rs2)).
Definition rv_amoxor_w_instr := amo_w sign_extend_32_to_xlen Z.lxor.
Definition rv_amoand_w_instr := amo_w sign_extend_32_to_xlen Z.land.
Definition rv_amoor_w_instr := amo_w sign_extend_32_to_xlen Z.lor.
Definition rv_amomin_w_instr := amo_w sign_extend_32_to_xlen (signed_min 32).
Definition rv_amomax_w_instr := amo_w sign_extend_32_to_xlen (signed_max 32).
Definition rv_amominu_w_instr := amo_w zero_extend_32_to_xlen unsigned_min.
Definition rv_amomaxu_w_instr := amo_w zero_extend_32_to_xlen unsigned_max.

Definition rv_amoadd_d_instr := amo_d false (λ val rs2, wrap 64 (val + rs2)).
Definition rv_amoxor_d_instr := amo_d false Z.lxor.
Definition rv_amoand_d_instr := amo_d true Z.land.
Definition rv_amoor_d_instr := amo_d true Z.lor.
Definition rv_amomin_d_instr := amo_d true (signed_min 64).
Definition rv_amomax_d_instr := amo_d false (signed_max 64).
Definition rv_amominu_d_instr := amo_d true unsigned_min.
Definition rv_amomaxu_d_instr := amo_d true unsigned_max.
End MemOps.
