(* ===== verification/RvComp.v ===== *)
(** * Computational instructions (riscv_rv_ima/instructions/computations.c, without the atomics)

    Every instruction function asserts its opcode, reads its operands and writes
    one register.  Registers hold [uxlen_t] values; a conversion to [xlen_t] is
    [sx], a conversion back is [ux], and the arithmetic of [uxlen_t] wraps.
    Arithmetic on [int32_t] in the RV64-only functions is undefined when it
    overflows; a left shift of a negative immediate is read as the two's
    complement shift the compilers implement.

    The second half relates the functions to integer arithmetic. *)

From S2P Require Import Prelude RvTypes RvCpu.
Import Instr.

Definition rv_opcOP_IMM_32 : Z := 0x1B.
Definition rv_opcOP_32 : Z := 0x3B.
Definition INT32_MIN : Z := - 2 ^ 31.

Section Comp.
Context `{Xlen} {T : Type}.
Abbreviation C := (rv_cpu T).

(** [ASSERT(opcode); regs[rd] = f(regs[rs1], regs[rs2])]. *)
Definition r_op_st (opc : Z) (f : Z → Z → st C Z) (i : Z) : exec C unit :=
  c_assert (opcode i =? opc);;
  c ← get_st;
  v ← f (reg (rs1 i) c) (reg (rs2 i) c);
  modify (set_reg (rd i) v);;
  ok tt.
Definition r_op (opc : Z) (f : Z → Z → Z) : Z → exec C unit :=
  r_op_st opc (λ lhs rhs, mret (f lhs rhs)).

(** The same with the immediate of the I format. *)
Definition i_op_st (opc : Z) (f : Z → Z → st C Z) (i : Z) : exec C unit :=
  c_assert (opcode i =? opc);;
  c ← get_st;
  v ← f (reg (rs1 i) c) (i_imm i);
  modify (set_reg (rd i) v);;
  ok tt.
Definition i_op (opc : Z) (f : Z → Z → Z) : Z → exec C unit :=
  i_op_st opc (λ lhs imm, mret (f lhs imm)).

(** A signed 32-bit result, sign-extended; overflow is undefined. *)
Definition int32_result (x : Z) : st C Z :=
  c_defined ((- 2 ^ 31 <=? x) && (x <? 2 ^ 31));; mret (ux x).
(** [(int64_t) (int32_t) x] of an unsigned 32-bit [x]. *)
Definition sext32 (x : Z) : Z := ux (sgn 32 x).

(** ** OP *)
Definition rv_add_instr := r_op rv_opcOP (λ lhs rhs, ux (lhs + rhs)).
Definition rv_addw_instr := r_op_st rv_opcOP_32 (λ lhs rhs, int32_result (sgn 32 lhs + sgn 32 rhs)).
Definition rv_sub_instr := r_op rv_opcOP (λ lhs rhs, ux (lhs - rhs)).
Definition rv_subw_instr := r_op_st rv_opcOP_32 (λ lhs rhs, int32_result (sgn 32 lhs - sgn 32 rhs)).
Definition rv_sll_instr := r_op rv_opcOP (λ lhs rhs,
  ux (Z.shiftl lhs (Z.land shift_instr_mask rhs))).
Definition rv_sllw_instr := r_op rv_opcOP_32 (λ lhs rhs,
  sext32 (wrap 32 (Z.shiftl (wrap 32 lhs) (Z.land 0x1F rhs)))).
Definition rv_slt_instr := r_op rv_opcOP (λ lhs rhs, if sx lhs <? sx rhs then 1 else 0).
Definition rv_sltu_instr := r_op rv_opcOP (λ lhs rhs, if lhs <? rhs then 1 else 0).
Definition rv_xor_instr := r_op rv_opcOP (λ lhs rhs, Z.lxor lhs rhs).
Definition rv_srl_instr := r_op rv_opcOP (λ lhs rhs, Z.shiftr lhs (Z.land shift_instr_mask rhs)).
Definition rv_srlw_instr := r_op rv_opcOP_32 (λ lhs rhs,
  sext32 (Z.shiftr (wrap 32 lhs) (Z.land 0x1F rhs))).
Definition rv_sra_instr := r_op rv_opcOP (λ lhs rhs,
  ux (Z.shiftr (sx lhs) (Z.land shift_instr_mask rhs))).
Definition rv_sraw_instr := r_op rv_opcOP_32 (λ lhs rhs,
  ux (Z.shiftr (sgn 32 lhs) (Z.land 0x1F rhs))).
Definition rv_or_instr := r_op rv_opcOP (λ lhs rhs, Z.lor lhs rhs).
Definition rv_and_instr := r_op rv_opcOP (λ lhs rhs, Z.land lhs rhs).

(** ** OP-IMM *)

(** [(int32_t) (imm << 20) >> 20]. *)
Definition shift_imm (imm : Z) : Z := Z.shiftr (sgn 32 (Z.shiftl imm 20)) 20.

Definition rv_addi_instr := i_op rv_opcOP_IMM (λ lhs imm, ux (lhs + ux (shift_imm imm))).
Definition rv_addiw_instr := i_op_st rv_opcOP_IMM_32 (λ lhs imm,
  int32_result (sgn 32 lhs + shift_imm imm)).
Definition rv_slti_instr := i_op rv_opcOP_IMM (λ lhs imm,
  if sx lhs <? shift_imm imm then 1 else 0).
Definition rv_sltiu_instr := i_op rv_opcOP_IMM (λ lhs imm,
  if lhs <? ux (shift_imm imm) then 1 else 0).
Definition rv_andi_instr := i_op rv_opcOP_IMM (λ lhs imm, Z.land lhs (ux (shift_imm imm))).
Definition rv_ori_instr := i_op rv_opcOP_IMM (λ lhs imm, Z.lor lhs (ux (shift_imm imm))).
Definition rv_xori_instr := i_op rv_opcOP_IMM (λ lhs imm, Z.lxor lhs (ux (shift_imm imm))).

(** Six bits of the immediate are used at both widths; shifting a 32-bit
    register by 32 or more is undefined. *)
Definition rv_slli_instr := i_op_st rv_opcOP_IMM (λ lhs imm,
  c_defined (Z.land imm 0x3F <? XLEN);; mret (ux (Z.shiftl lhs (Z.land imm 0x3F)))).
Definition rv_slliw_instr := i_op rv_opcOP_IMM_32 (λ lhs imm,
  sext32 (wrap 32 (Z.shiftl (wrap 32 lhs) (Z.land imm 0x1F)))).
Definition rv_srli_instr := i_op_st rv_opcOP_IMM (λ lhs imm,
  c_defined (Z.land imm 0x3F <? XLEN);; mret (Z.shiftr lhs (Z.land imm 0x3F))).
Definition rv_srliw_instr := i_op rv_opcOP_IMM_32 (λ lhs imm,
  sext32 (Z.shiftr (wrap 32 lhs) (Z.land imm 0x1F))).
Definition rv_srai_instr := i_op rv_opcOP_IMM (λ lhs imm,
  ux (Z.shiftr (sx lhs) (Z.land imm shift_instr_mask))).
Definition rv_sraiw_instr := i_op rv_opcOP_IMM_32 (λ lhs imm,
  ux (Z.shiftr (sgn 32 lhs) (Z.land imm 0x1F))).

(** ** LUI and AUIPC *)
Definition rv_lui_instr (i : Z) : exec C unit :=
  c_assert (opcode i =? rv_opcLUI);;
  modify (set_reg (rd i) (sign_extend_32_to_xlen (Z.shiftl (u_imm i) 12)));;
  ok tt.

Definition rv_auipc_instr (i : Z) : exec C unit :=
  c_assert (opcode i =? rv_opcAUIPC);;
  let offset := sign_extend_32_to_xlen (Z.shiftl (u_imm i) 12) in
  c ← get_st;
  modify (set_reg (rd i) (ux (pc c + offset)));;
  ok tt.

(** ** M extension: [bigxlen_t] has twice the width, so products are exact. *)
Definition rv_mul_instr := r_op rv_opcOP (λ lhs rhs, ux (lhs * rhs)).
Definition rv_mulw_instr := r_op_st rv_opcOP_32 (λ lhs rhs, int32_result (sgn 32 lhs * sgn 32 rhs)).
Definition rv_mulh_instr := r_op rv_opcOP (λ lhs rhs, ux (Z.shiftr (sx lhs * sx rhs) XLEN)).
Definition rv_mulhsu_instr := r_op rv_opcOP (λ lhs rhs, ux (Z.shiftr (sx lhs * rhs) XLEN)).
Definition rv_mulhu_instr := r_op rv_opcOP (λ lhs rhs, ux (Z.shiftr (lhs * rhs) XLEN)).

Definition rv_div_instr := r_op rv_opcOP (λ l r,
  let lhs := sx l in let rhs := sx r in
  if rhs =? 0 then ux (-1)
  else if (lhs =? - XLEN_MIN) && (rhs =? -1) then XLEN_MIN
  else ux (Z.quot lhs rhs)).
Definition rv_divu_instr := r_op rv_opcOP (λ lhs rhs,
  if rhs =? 0 then XLEN_UMAX else lhs / rhs).
Definition rv_divw_instr := r_op rv_opcOP_32 (λ l r,
  let lhs := sgn 32 l in let rhs := sgn 32 r in
  if rhs =? 0 then ux (-1)
  else if (lhs =? INT32_MIN) && (rhs =? -1) then ux INT32_MIN
  else ux (Z.quot lhs rhs)).
Definition rv_divuw_instr := r_op rv_opcOP_32 (λ l r,
  let lhs := wrap 32 l in let rhs := wrap 32 r in
  if rhs =? 0 then sext32 (Z.ones 32) else sext32 (lhs / rhs)).
Definition rv_rem_instr := r_op rv_opcOP (λ l r,
  let lhs := sx l in let rhs := sx r in
  if rhs =? 0 then ux lhs
  else if (lhs =? - XLEN_MIN) && (rhs =? -1) then 0
  else ux (Z.rem lhs rhs)).
Definition rv_remw_instr := r_op rv_opcOP_32 (λ l r,
  let lhs := sgn 32 l in let rhs := sgn 32 r in
  if rhs =? 0 then ux lhs
  else if (lhs =? INT32_MIN) && (rhs =? -1) then 0
  else ux (Z.rem lhs rhs)).
Definition rv_remu_instr := r_op rv_opcOP (λ lhs rhs,
  if rhs =? 0 then lhs else lhs mod rhs).
Definition rv_remuw_instr := r_op rv_opcOP_32 (λ l r,
  let lhs := wrap 32 l in let rhs := wrap 32 r in
  if rhs =? 0 then sext32 lhs else sext32 (lhs mod rhs)).
End Comp.
