(* ===== verification/RvCtl.v ===== *)
(** * Jumps and branches (riscv_rv_ima/instructions/control_transfer.c)

    Targets are relative to the address of the instruction.  A target that is
    not a multiple of four raises the misaligned-fetch exception at the jump, and
    the destination register keeps its value. *)

From S2P Require Import Prelude Machine RvTypes RvCpu.
Import Instr.

Section Ctl.
Context `{Xlen} {T : Type}.
Abbreviation C := (rv_cpu T).

Definition misaligned_target {A} (target : Z) : exec C A :=
  modify (with_csr (λ r, r <| tval_next := target |>));;
  raise rv_exc_instruction_address_misaligned.

(** The common tail of the two jumps. *)
Definition jump_and_link (i target : Z) : exec C unit :=
  if negb (IS_ALIGNED target 4) then misaligned_target target
  else
    modify (λ c, set_reg (rd i) (ux (pc c + 4)) c);;
    modify (λ c, c <| pc_next := target |>);;
    ok tt.

Definition rv_jal_instr (i : Z) : exec C unit :=
  c_assert (opcode i =? rv_opcJAL);;
  c ← get_st;
  let target := ux (pc c + RV_J_IMM i) in
  jump_and_link i target.

Definition rv_jalr_instr (i : Z) : exec C unit :=
  c_assert (opcode i =? rv_opcJALR);;
  c_assert (funct3 i =? 0);;
  c ← get_st;
  let target := ux (reg (rs1 i) c + i_imm i) in
  let target := Z.land target (ux (-2)) in
  jump_and_link i target.

(** A branch taken when [cond] holds of the two source registers. *)
Definition branch (cond : Z → Z → bool) (i : Z) : exec C unit :=
  c_assert (opcode i =? rv_opcBRANCH);;
  c ← get_st;
  let target := ux (pc c + RV_B_IMM i) in
  if cond (reg (rs1 i) c) (reg (rs2 i) c) then
    if negb (IS_ALIGNED target 4) then misaligned_target target
    else modify (λ c, c <| pc_next := target |>);; ok tt
  else ok tt.

Definition rv_beq_instr := branch (λ lhs rhs, lhs =? rhs).
Definition rv_bne_instr := branch (λ lhs rhs, negb (lhs =? rhs)).
Definition rv_blt_instr := branch (λ lhs rhs, sx lhs <? sx rhs).
Definition rv_bltu_instr := branch (λ lhs rhs, lhs <? rhs).
Definition rv_bge_instr := branch (λ lhs rhs, sx rhs <=? sx lhs).
Definition rv_bgeu_instr := branch (λ lhs rhs, rhs <=? lhs).
End Ctl.
