(* ===== verification/RvVm.v ===== *)
(** * Page tables and translation of the RISC-V processors

    Page table entries with their packing and permission checks
    (riscv_rv32ima/virt_mem.h and riscv_rv64ima/virt_mem.h), and the parts of the
    page walk that both cpu.c share. *)

From S2P Require Import Prelude RvTypes RvTlb Rv32Tlb Rv64Tlb RvCpu RvCsr Machine RvWorld.

(** ** Contiguous bit-fields: values with their widths, from bit [pos] up *)
Fixpoint put_fields (pos : Z) (fs : list (Z * Z)) : Z :=
  match fs with
  | [] => 0
  | (v, w) :: r => Z.lor (Z.shiftl v pos) (put_fields (pos + w) r)
  end.

Fixpoint fields_of (x pos : Z) (ws : list Z) : list (Z * Z) :=
  match ws with
  | [] => []
  | w :: r => (ubits x pos w, w) :: fields_of x (pos + w) r
  end.

Definition fields_ok (fs : list (Z * Z)) : Prop := Forall (λ f, 0 ≤ f.2 ∧ in_width f.2 f.1) fs.

Fixpoint total (ws : list Z) : Z := match ws with [] => 0 | w :: r => w + total r end.

Lemma total_nonneg ws : Forall (λ w, 0 ≤ w) ws → 0 ≤ total ws.
Proof. induction 1; cbn; lia. Qed.

Lemma fields_total fs : fields_ok fs → 0 ≤ total (fs.*2).
Proof. intros Hok. apply total_nonneg, Forall_fmap. eapply Forall_impl; [exact Hok|]. by intros f []. Qed.

Lemma put_fields_low fs pos i : fields_ok fs → 0 ≤ i < pos → Z.testbit (put_fields pos fs) i = false.
Proof.
  revert pos. induction fs as [|[v w] fs IH]; intros pos Hok Hi; [apply Z.testbit_0_l|].
  apply Forall_cons in Hok as [[Hw _] Hok]. cbn in Hw. cbn [put_fields].
  rewrite Z.lor_spec, testbit_shiftl', IH by (done || lia).
  by destruct (Z.leb_spec pos i); [lia|].
Qed.

Lemma put_fields_first v w fs pos : 0 ≤ pos → fields_ok ((v, w) :: fs) →
  ubits (put_fields pos ((v, w) :: fs)) pos w = v.
Proof.
  intros Hp Hok. apply Forall_cons in Hok as [[Hw Hv] Hok]. cbn in Hw, Hv.
  apply Z.bits_inj'. intros i Hi. rewrite testbit_ubits by done. cbn [put_fields].
  rewrite Z.lor_spec, testbit_shiftl' by lia. destruct (Z.ltb_spec i w); cbn [andb].
  - rewrite put_fields_low, orb_false_r by (done || lia).
    destruct (Z.leb_spec pos (i + pos)); [|lia]. cbn [andb]. f_equal. lia.
  - symmetry. by apply (testbit_high w).
Qed.

Lemma put_fields_rest v w fs pos p n : 0 ≤ pos → fields_ok ((v, w) :: fs) → pos + w ≤ p → 0 ≤ n →
  ubits (put_fields pos ((v, w) :: fs)) p n = ubits (put_fields (pos + w) fs) p n.
Proof.
  intros Hp Hok Hle Hn. apply Forall_cons in Hok as [[Hw Hv] Hok]. cbn in Hw, Hv.
  apply Z.bits_inj'. intros i Hi. rewrite !testbit_ubits by lia. cbn [put_fields]. f_equal.
  rewrite Z.lor_spec, testbit_shiftl' by lia.
  rewrite (testbit_high w v) by (done || lia). by rewrite andb_false_r.
Qed.

(** Unpacking what was packed. *)
Lemma fields_of_put fs pos : 0 ≤ pos → fields_ok fs →
  fields_of (put_fields pos fs) pos (fs.*2) = fs.
Proof.
  intros Hp Hok.
  assert (∀ x, (∀ p n, pos ≤ p → 0 ≤ n → ubits x p n = ubits (put_fields pos fs) p n) →
    fields_of x pos (fs.*2) = fs) as Hgen; [|by apply Hgen].
  revert pos Hp. induction fs as [|[v w] fs IH]; intros pos Hp x Hx; [done|].
  pose proof Hok as [[Hw Hv] Hok']%Forall_cons. cbn in Hw. cbn [fmap list_fmap fields_of snd]. f_equal.
  - f_equal. rewrite Hx by lia. by apply put_fields_first.
  - apply IH; [done|lia|]. intros p n Hle Hn. rewrite Hx by lia. by apply put_fields_rest.
Qed.

(** Packing what was unpacked. *)
Lemma put_fields_of x pos ws i : 0 ≤ pos → Forall (λ w, 0 ≤ w) ws → 0 ≤ i →
  Z.testbit (put_fields pos (fields_of x pos ws)) i =
    (pos <=? i) && (i <? pos + total ws) && Z.testbit x i.
Proof.
  revert pos. induction ws as [|w ws IH]; intros pos Hp Hws Hi.
  { cbn. rewrite Z.testbit_0_l. destruct (Z.leb_spec pos i), (Z.ltb_spec i (pos + 0)); done || lia. }
  apply Forall_cons in Hws as [Hw Hws]. cbn [fields_of put_fields].
  pose proof (total_nonneg ws Hws) as Ht.
  rewrite Z.lor_spec, testbit_shiftl', IH by (done || lia). cbn [total].
  destruct (Z.leb_spec pos i); cbn [andb]; [|destruct (Z.leb_spec (pos + w) i); [lia|done]].
  rewrite testbit_ubits by lia. replace (i - pos + pos) with i by lia.
  destruct (Z.ltb_spec (i - pos) w), (Z.leb_spec (pos + w) i),
    (Z.ltb_spec i (pos + w + total ws)), (Z.ltb_spec i (pos + (w + total ws))); try lia;
    cbn [andb]; by rewrite ?orb_false_r.
Qed.

Lemma put_fields_width fs : fields_ok fs → in_width (total (fs.*2)) (put_fields 0 fs).
Proof.
  intros Hok. pose proof (fields_total fs Hok) as Ht.
  assert (∀ pos, 0 ≤ pos → 0 ≤ put_fields pos fs) as Hpos.
  { clear Ht. induction Hok as [|[v w] fs [Hw Hv] Hok IH]; intros pos Hp; cbn in *; [done|].
    apply Z.lor_nonneg. split; [apply Z.shiftl_nonneg, Hv|apply IH; lia]. }
  apply in_width_testbit; [done|by apply Hpos|]. intros i Hi.
  assert (∀ pos, 0 ≤ pos → pos + total (fs.*2) ≤ i → Z.testbit (put_fields pos fs) i = false) as Hh;
    [|apply Hh; lia].
  clear Hpos Ht Hi. induction Hok as [|[v w] fs [Hw Hv] Hok IH]; intros pos Hp Hi; cbn in *;
    [apply Z.testbit_0_l|].
  pose proof (fields_total fs Hok) as Ht. rewrite Z.lor_spec, testbit_shiftl', IH by lia.
  rewrite (testbit_high w v) by (done || lia). by rewrite andb_false_r.
Qed.

(** ** Page-table entries *)
Definition flag_fields (p : sv_pte) : list (Z * Z) :=
  (λ b, (bool_to_Z b, 1)) <$> [pte_v p; pte_r p; pte_w p; pte_x p; pte_u p; pte_g p; pte_a p; pte_d p].
Definition sv32_fields (p : sv_pte) : list (Z * Z) := flag_fields p ++ [(pte_rsw p, 2); (pte_ppn p, 22)].
Definition sv39_fields (p : sv_pte) : list (Z * Z) :=
  flag_fields p ++ [(pte_rsw p, 2); (pte_ppn p, 44); (pte_reserved p, 7); (pte_pbmt p, 2); (pte_n p, 1)].

Definition pte_wf (p : sv_pte) : Prop :=
  fields_ok (sv32_fields p) ∧ pte_reserved p = 0 ∧ pte_pbmt p = 0 ∧ pte_n p = 0.
Definition sv39_pte_wf (p : sv_pte) : Prop := fields_ok (sv39_fields p).

Lemma bit_field x k : 0 ≤ k → ubits x k 1 = bool_to_Z (Z.testbit x k).
Proof.
  intros Hk. apply Z.bits_inj'. intros i Hi. rewrite testbit_ubits by lia.
  destruct (Z.ltb_spec i 1); cbn [andb].
  - assert (i = 0) as -> by lia. rewrite Z.add_0_l. by destruct (Z.testbit x k).
  - symmetry. apply (testbit_high 1); [lia| |lia]. by destruct (Z.testbit x k).
Qed.

Lemma bool_bit x k b : 0 ≤ k → ubits x k 1 = bool_to_Z b → Z.testbit x k = b.
Proof. intros Hk. rewrite bit_field by done. by destruct (Z.testbit x k), b. Qed.

Lemma flags_ok p : fields_ok (flag_fields p).
Proof.
  apply Forall_fmap, Forall_forall. intros b _. split; [cbn; lia|]. by destruct b.
Qed.

(** Packing gives back the word whose fields were taken. *)
Lemma put_fields_word x ws : Forall (λ w, 0 ≤ w) ws → in_width (total ws) x →
  put_fields 0 (fields_of x 0 ws) = x.
Proof.
  intros Hws Hx. apply Z.bits_inj'. intros i Hi. rewrite put_fields_of by done.
  pose proof (total_nonneg ws Hws). destruct (Z.leb_spec 0 i); [|lia].
  destruct (Z.ltb_spec i (0 + total ws)); [done|]. cbn. symmetry.
  apply (testbit_high (total ws)); [done|done|lia].
Qed.

Lemma fields_of_ok x pos ws : Forall (λ w, 0 ≤ w) ws → fields_ok (fields_of x pos ws).
Proof.
  intros Hws. revert pos. induction Hws as [|w ws Hw Hws IH]; intros pos; constructor; [|apply IH].
  split; [done|]. by apply ubits_range.
Qed.

Lemma sv32_fields_of v :
  sv32_fields (pte_from_uint v) = fields_of v 0 [1; 1; 1; 1; 1; 1; 1; 1; 2; 22].
Proof. cbn -[ubits Z.testbit]. by rewrite !bit_field by lia. Qed.

Lemma sv39_fields_of v :
  sv39_fields (sv39_pte_from_uint v) = fields_of v 0 [1; 1; 1; 1; 1; 1; 1; 1; 2; 44; 7; 2; 1].
Proof. cbn -[ubits Z.testbit]. by rewrite !bit_field by lia. Qed.

Lemma uint_fields p : uint_from_pte p = put_fields 0 (sv32_fields p).
Proof. reflexivity. Qed.
Lemma sv39_uint_fields p : sv39_uint_from_pte p = put_fields 0 (sv39_fields p).
Proof. reflexivity. Qed.

Ltac widths_nonneg := repeat constructor; lia.

Lemma pte_from_uint_wf v : pte_wf (pte_from_uint v).
Proof. split; [|done]. rewrite sv32_fields_of. apply fields_of_ok. widths_nonneg. Qed.
Lemma sv39_pte_from_uint_wf v : sv39_pte_wf (sv39_pte_from_uint v).
Proof. unfold sv39_pte_wf. rewrite sv39_fields_of. apply fields_of_ok. widths_nonneg. Qed.

Lemma uint_pte_uint v : in_width 32 v → uint_from_pte (pte_from_uint v) = v.
Proof. intros Hv. rewrite uint_fields, sv32_fields_of. apply put_fields_word; [widths_nonneg|done]. Qed.
Lemma sv39_uint_pte_uint v : in_width 64 v → sv39_uint_from_pte (sv39_pte_from_uint v) = v.
Proof. intros Hv. rewrite sv39_uint_fields, sv39_fields_of. apply put_fields_word; [widths_nonneg|done]. Qed.

Lemma uint_from_pte_width p : pte_wf p → in_width 32 (uint_from_pte p).
Proof. intros [Hok _]. rewrite uint_fields. exact (put_fields_width _ Hok). Qed.
Lemma sv39_uint_from_pte_width p : sv39_pte_wf p → in_width 64 (sv39_uint_from_pte p).
Proof. intros Hok. rewrite sv39_uint_fields. exact (put_fields_width _ Hok). Qed.

(** Entries are determined by their fields. *)
Ltac split_fields E :=
  cbn -[ubits Z.testbit bool_to_Z uint_from_pte sv39_uint_from_pte] in E;
  injection E as; f_equal; try assumption; apply bool_bit; (lia || assumption).

Lemma pte_uint_pte p : pte_wf p → pte_from_uint (uint_from_pte p) = p.
Proof.
  intros (Hok & H1 & H2 & H3). pose proof (fields_of_put _ 0 ltac:(lia) Hok) as E.
  rewrite <- uint_fields in E. unfold pte_from_uint.
  destruct p as [v r w x u g a d rsw ppn rs pb n]. cbn in H1, H2, H3. subst. split_fields E.
Qed.

Lemma sv39_pte_uint_pte p : sv39_pte_wf p → sv39_pte_from_uint (sv39_uint_from_pte p) = p.
Proof.
  intros Hok. pose proof (fields_of_put _ 0 ltac:(lia) Hok) as E.
  rewrite <- sv39_uint_fields in E. unfold sv39_pte_from_uint.
  destruct p as [v r w x u g a d rsw ppn rs pb n]. split_fields E.
Qed.

Section Vm.
Context `{Xlen} {T D : Type}.
Abbreviation W := (world T D).

Definition on_tlb {A} (m : st T A) : st W A :=
  on_cpu (zoom tlb (λ t c, c <| tlb := t |>) m).

Definition is_access_allowed (c : rv_cpu T) (pte : sv_pte) (wr fetch : bool) : bool :=
  if wr && negb (pte_w pte) then false
  else if fetch && negb (pte_x pte) then false
  else
    let rx := rv_csr_sstatus_mxr c && pte_x pte in
    if negb wr && negb fetch && negb (pte_r pte) && negb rx then false
    else if priv_eqb (sv32_effective_priv c) rv_smode
            && (negb (rv_csr_sstatus_sum c) && pte_u pte || fetch && pte_u pte) then false
    else if priv_eqb (sv32_effective_priv c) rv_umode && negb (pte_u pte) then false
    else true.

Definition page_fault_exception (wr fetch : bool) : rv_exc :=
  if fetch then rv_exc_instruction_page_fault
  else if wr then rv_exc_store_amo_page_fault else rv_exc_load_page_fault.

Definition pte_access_dirty_update_needed (pte : sv_pte) (wr : bool) : bool :=
  negb (pte_a pte) || (negb (pte_d pte) && wr).

Definition use_sv (c : rv_cpu T) (fetch : bool) : bool :=
  (priv_num (sv32_effective_priv c) <=? priv_num rv_smode) &&
  negb (rv_csr_satp_is_bare c) &&
  negb (priv_eqb (priv_mode c) rv_mmode && fetch).

(** Changing the number of ASID bits: the bits that go are cleared, the TLB is
    emptied. *)
Definition csr_set_asid_len (flush : st T unit) (len : Z) : st (rv_cpu T) unit :=
  c_assert (len <=? rv_asid_len);;
  modify (with_csr (λ r, r <| asid_len := len |>));;
  let zeroing_asid_mask :=
    Z.shiftl (Z.lxor rv_asid_mask (Z.shiftl 1 len - 1)) rv_csr_satp_asid_offset in
  modify (with_csr (λ r, r <| satp := Z.land (satp r) (c_not 64 zeroing_asid_mask) |>));;
  zoom tlb (λ t c, c <| tlb := t |>) flush.
End Vm.
