(* ===== verification/Rv32Vm.v ===== *)
(** * Sv32 address translation (riscv_rv32ima/cpu.c: from [is_access_allowed] to [rv32_convert_addr])

    The page walk reads the two levels of the page table from physical memory,
    checks permissions, sets the accessed and dirty bits in memory and caches the
    leaf entry in the TLB; [rv_convert_addr] consults the TLB first.  The
    instance [sv32_translation] is what the memory accesses of [RvMem] use.
    The theorems are in [Rv32VmProps]. *)

From S2P Require Import Prelude PhysMem RvTypes RvCpu RvCsr RvTlb Rv32Tlb Machine RvWorld RvVm.
Import PhysMem.

Section Vm.
Context {D : Type} `{Board rv32_tlb D}.
Abbreviation W := (world rv32_tlb D).

Definition make_phys_from_ppn (virt : Z) (pte : sv32_pte) (megapage : bool) : Z :=
  let page_offset := Z.land virt 0x00000FFF in
  let virt_vpn0 := Z.land virt 0x003FF000 in
  let ppn0 := Z.shiftl (pte_ppn0 pte) 12 in
  let ppn1 := Z.shiftl (pte_ppn1 pte) 12 in
  let phys_ppn0 := if megapage then virt_vpn0 else ppn0 in
  Z.lor (Z.lor ppn1 phys_ppn0) page_offset.

(** The tail of the page walk, from the access check on. *)
Definition pagewalk_finish (virt : Z) (wr fetch noisy : bool)
    (pte : sv32_pte) (pte_addr : Z) (is_megapage is_global : bool) : exec W Z :=
  c ← cpu;
  if negb (is_access_allowed c pte wr fetch) then raise (page_fault_exception wr fetch)
  else
    pte ← (if pte_access_dirty_update_needed pte wr then
             let pte := pte <| pte_a := true |> <| pte_d := pte_d pte || wr |> in
             (if noisy
              then _ ← physmem_write32 (mhartid (csr c)) pte_addr (uint_from_pte pte) true; mret tt
              else mret tt);;
             mret pte
           else mret pte);
    let phys := make_phys_from_ppn virt pte is_megapage in
    c ← cpu;
    on_tlb (rv32_tlb_add_mapping (rv_csr_satp_asid c) virt pte is_megapage is_global);;
    ok phys.

Definition rv32_pagewalk (virt : Z) (wr fetch noisy : bool) : exec W Z :=
  c ← cpu;
  let vpn0 := Z.shiftr (Z.land virt 0x003FF000) 12 in
  let vpn1 := Z.shiftr (Z.land virt 0xFFC00000) 22 in
  let a := Z.shiftl (rv_csr_satp_ppn c) RV_PAGESIZE in
  let pte_addr := a + vpn1 * RV_PTESIZE in
  pte_val ← physmem_read32 (mhartid (csr c)) pte_addr noisy;
  let pte := pte_from_uint pte_val in
  if negb (is_pte_valid pte) then raise (page_fault_exception wr fetch)
  else if is_pte_leaf pte then
    if negb (pte_ppn0 pte =? 0) then raise (page_fault_exception wr fetch)
    else pagewalk_finish virt wr fetch noisy pte pte_addr true (pte_g pte)
  else
    let a := pte_ppn_phys pte in
    let pte_addr := a + vpn0 * RV_PTESIZE in
    let is_global := pte_g pte in
    c ← cpu;
    pte_val ← physmem_read32 (mhartid (csr c)) pte_addr noisy;
    let pte := pte_from_uint pte_val in
    if negb (is_pte_valid pte) then raise (page_fault_exception wr fetch)
    else if negb (is_pte_leaf pte) then raise (page_fault_exception wr fetch)
    else pagewalk_finish virt wr fetch noisy pte pte_addr false (is_global || pte_g pte).

Definition rv_convert_addr (virt : Z) (wr fetch noisy : bool) : exec W Z :=
  c_assert (negb (wr && fetch));;
  c ← cpu;
  if negb (use_sv c fetch) then ok virt
  else
    let asid := rv_csr_satp_asid c in
    hit ← on_tlb (rv32_tlb_get_mapping asid virt true);
    match hit with
    | Some (pte, megapage) =>
        if negb (is_pte_valid pte) then raise (page_fault_exception wr fetch)
        else
          c ← cpu;
          if negb (is_access_allowed c pte wr fetch) then raise (page_fault_exception wr fetch)
          else if megapage && negb (pte_ppn0 pte =? 0) then raise (page_fault_exception wr fetch)
          else if negb (pte_access_dirty_update_needed pte wr)
          then ok (make_phys_from_ppn virt pte megapage)
          else
            on_tlb (rv32_tlb_remove_mapping asid virt);;
            rv32_pagewalk virt wr fetch noisy
    | None => rv32_pagewalk virt wr fetch noisy
    end.

#[export] Instance sv32_translation : Translation rv32_tlb D := {|
  RvWorld.rv_convert_addr := rv_convert_addr
|}.

Definition rv32_convert_addr := rv_convert_addr.
End Vm.
