(* ===== verification/Rv64Vm.v ===== *)
(** * Sv39 address translation (riscv_rv64ima/cpu.c: from [rv64_is_access_allowed] to [rv64_convert_addr])

    The page walk reads up to three levels of 64-bit entries.  Virtual
    addresses are used with all 64 bits by the TLB, while the walk looks at the
    low 39 bits only.  The instance [sv39_translation] is what the memory
    accesses of [RvMem] use.  The theorems are in [Rv64VmProps]. *)

From S2P Require Import Prelude PhysMem RvTypes RvCpu RvCsr RvTlb Rv64Tlb Machine RvWorld RvVm.
Import PhysMem.
#[local] Existing Instance xlen64.

Section Vm.
Context {D : Type} `{Board rv64_tlb D}.
Abbreviation W := (world rv64_tlb D).

Definition rv64_is_access_allowed : rv_cpu rv64_tlb → sv39_pte → bool → bool → bool :=
  is_access_allowed.
Definition rv64_pte_access_dirty_update_needed : sv39_pte → bool → bool :=
  pte_access_dirty_update_needed.

Definition sv39_make_phys_from_ppn (virt : Z) (pte : sv39_pte) (page_type : sv39_page_type) : Z :=
  let page_offset := Z.land virt 0xFFF in
  let ppn0 := Z.shiftl (sv39_pte_ppn0 pte) 12 in
  let ppn1 := Z.shiftl (sv39_pte_ppn1 pte) 21 in
  let phys_addr := Z.shiftl (sv39_pte_ppn2 pte) 30 in
  let phys_addr :=
    match page_type with
    | megapage => Z.lor phys_addr (Z.lor ppn1 (Z.land virt 0x1FF000))
    | gigapage => Z.lor phys_addr (Z.land virt 0x3FFFF000)
    | page => Z.lor phys_addr (Z.lor ppn1 ppn0)
    end in
  Z.lor phys_addr page_offset.

(** The tail of the page walk, from the access check on. *)
Definition rv64_pagewalk_finish (virt : Z) (wr fetch noisy : bool)
    (pte : sv39_pte) (pte_addr : Z) (page_type : sv39_page_type) (is_global : bool) : exec W Z :=
  c ← cpu;
  if negb (rv64_is_access_allowed c pte wr fetch) then raise (page_fault_exception wr fetch)
  else
    pte ← (if rv64_pte_access_dirty_update_needed pte wr then
             let pte := pte <| pte_a := true |> <| pte_d := pte_d pte || wr |> in
             (if noisy
              then _ ← physmem_write64 (mhartid (csr c)) pte_addr (sv39_uint_from_pte pte) true; mret tt
              else mret tt);;
             mret pte
           else mret pte);
    let phys := sv39_make_phys_from_ppn virt pte page_type in
    c ← cpu;
    on_tlb (rv64_tlb_add_mapping (rv_csr_satp_asid c) virt pte page_type is_global);;
    ok phys.

Definition rv64_pagewalk (virt : Z) (wr fetch noisy : bool) : exec W Z :=
  c ← cpu;
  let vpn0 := Z.shiftr (Z.land virt 0x0000001FF000) 12 in
  let vpn1 := Z.shiftr (Z.land virt 0x00003FE00000) 21 in
  let vpn2 := Z.shiftr (Z.land virt 0x007FC0000000) 30 in
  let ppn := rv_csr_satp_ppn c in
  let a := Z.shiftl ppn RV64_PAGESIZE in
  let pte_addr := a + vpn2 * RV64_PTESIZE in
  pte_val ← physmem_read64 (mhartid (csr c)) pte_addr noisy;
  let pte := sv39_pte_from_uint pte_val in
  if negb (sv39_is_pte_valid pte) then raise (page_fault_exception wr fetch)
  else if sv39_is_pte_leaf pte then
    if negb (sv39_pte_ppn0 pte =? 0) || negb (sv39_pte_ppn1 pte =? 0)
    then raise (page_fault_exception wr fetch)
    else rv64_pagewalk_finish virt wr fetch noisy pte pte_addr gigapage (pte_g pte)
  else
    let a := sv39_pte_ppn_phys pte in
    let pte_addr := a + vpn1 * RV64_PTESIZE in
    let is_global := pte_g pte in
    c ← cpu;
    pte_val ← physmem_read64 (mhartid (csr c)) pte_addr noisy;
    let pte := sv39_pte_from_uint pte_val in
    if negb (sv39_is_pte_valid pte) then raise (page_fault_exception wr fetch)
    else if sv39_is_pte_leaf pte then
      if negb (sv39_pte_ppn0 pte =? 0) then raise (page_fault_exception wr fetch)
      else rv64_pagewalk_finish virt wr fetch noisy pte pte_addr megapage (is_global || pte_g pte)
    else
      let is_global := is_global || pte_g pte in
      let a := sv39_pte_ppn_phys pte in
      let pte_addr := a + vpn0 * RV64_PTESIZE in
      c ← cpu;
      pte_val ← physmem_read64 (mhartid (csr c)) pte_addr noisy;
      let pte := sv39_pte_from_uint pte_val in
      if negb (sv39_is_pte_valid pte) then raise (page_fault_exception wr fetch)
      else if negb (sv39_is_pte_leaf pte) then raise (page_fault_exception wr fetch)
      else rv64_pagewalk_finish virt wr fetch noisy pte pte_addr page (is_global || pte_g pte).

Definition sv39_misaligned (pte : sv39_pte) (page_type : sv39_page_type) : bool :=
  match page_type with
  | megapage => negb (sv39_pte_ppn0 pte =? 0)
  | gigapage => negb (sv39_pte_ppn0 pte =? 0) || negb (sv39_pte_ppn1 pte =? 0)
  | page => false
  end.

Definition rv64_convert (virt : Z) (wr fetch noisy : bool) : exec W Z :=
  c_assert (negb (wr && fetch));;
  c ← cpu;
  if negb (use_sv c fetch) then ok virt
  else
    let asid := rv_csr_satp_asid c in
    hit ← on_tlb (rv64_tlb_get_mapping asid virt true);
    match hit with
    | Some (pte, page_type) =>
        if negb (sv39_is_pte_valid pte) then raise (page_fault_exception wr fetch)
        else
          c ← cpu;
          if negb (rv64_is_access_allowed c pte wr fetch) then raise (page_fault_exception wr fetch)
          else if sv39_misaligned pte page_type then raise (page_fault_exception wr fetch)
          else if negb (rv64_pte_access_dirty_update_needed pte wr)
          then ok (sv39_make_phys_from_ppn virt pte page_type)
          else
            on_tlb (rv64_tlb_remove_mapping asid virt);;
            rv64_pagewalk virt wr fetch noisy
    | None => rv64_pagewalk virt wr fetch noisy
    end.

#[export] Instance sv39_translation : Translation rv64_tlb D := {|
  rv_convert_addr := rv64_convert
|}.

Definition rv64_convert_addr : Z → bool → bool → bool → exec W Z := rv64_convert.
End Vm.
