(* ===== verification/RvSystem.v ===== *)
(** * System instructions (riscv_rv_ima/instructions/system.c)

    Environment calls, trap returns, WFI and the CSR instructions work on the
    processor alone; the simulator's own instructions switch the global flags.
    Messages to the user are not modelled. *)

From S2P Require Import Prelude PhysMem RvTypes RvCpu RvCsr Machine RvWorld.
Import PhysMem Instr.

Section System.
Context `{Xlen} {T : Type}.
Abbreviation C := (rv_cpu T).

Definition update_mstatus (f : Z → Z) : st C unit :=
  modify (with_csr (λ r, r <| mstatus := f (mstatus r) |>)).
(** [mstatus |= mask] and [mstatus &= ~mask]; the masks have [XLEN] bits. *)
Definition mstatus_or (mask : Z) : st C unit := update_mstatus (λ m, Z.lor m mask).
Definition mstatus_andn (mask : Z) : st C unit := update_mstatus (λ m, Z.land m (c_not XLEN mask)).
Definition mstatus_put (mask : Z) (b : bool) : st C unit :=
  if b then mstatus_or mask else mstatus_andn mask.

Definition rv_call_instr (_ : Z) : exec C unit :=
  c ← get_st;
  match priv_mode c with
  | rv_umode => raise rv_exc_umode_environment_call
  | rv_smode => raise rv_exc_smode_environment_call
  | rv_mmode => raise rv_exc_mmode_environment_call
  | rv_rmode => raise rv_exc_illegal_instruction
  end.

Definition rv_sret_instr (_ : Z) : exec C unit :=
  c ← get_st;
  if rv_csr_mstatus_tsr c then raise rv_exc_illegal_instruction
  else if priv_lt (priv_mode c) rv_smode then raise rv_exc_illegal_instruction
  else
    let spp_priv := rv_csr_sstatus_spp c in
    mstatus_put rv_csr_sstatus_sie_mask (rv_csr_sstatus_spie c);;
    modify (λ c, c <| priv_mode := spp_priv |>);;
    mstatus_or rv_csr_sstatus_spie_mask;;
    mstatus_andn rv_csr_sstatus_spp_mask;;
    mstatus_andn rv_csr_mstatus_mprv_mask;;
    modify (λ c, c <| pc_next := sepc (csr c) |>);;
    ok tt.

Definition rv_mret_instr (_ : Z) : exec C unit :=
  c ← get_st;
  if priv_lt (priv_mode c) rv_mmode then raise rv_exc_illegal_instruction
  else
    let mpp_priv := rv_csr_mstatus_mpp c in
    mstatus_put rv_csr_mstatus_mie_mask (rv_csr_mstatus_mpie c);;
    modify (λ c, c <| priv_mode := mpp_priv |>);;
    mstatus_or rv_csr_mstatus_mpie_mask;;
    mstatus_andn rv_csr_mstatus_mpp_mask;;
    (if negb (priv_eqb mpp_priv rv_mmode) then mstatus_andn rv_csr_mstatus_mprv_mask else mret tt);;
    modify (λ c, c <| pc_next := mepc (csr c) |>);;
    ok tt.

Definition rv_wfi_instr (_ : Z) : exec C unit :=
  c ← get_st;
  if rv_csr_mstatus_tw c && negb (priv_eqb (priv_mode c) rv_mmode)
  then raise rv_exc_illegal_instruction
  else if priv_eqb (priv_mode c) rv_umode then raise rv_exc_illegal_instruction
  else modify (λ c, c <| stdby := true |>);; ok tt.

(** CSR instructions: the register number is the unsigned immediate, and the old
    value is stored in [rd] on success. *)
Definition csr_of (i : Z) : Z := Z.land (wrap 32 (i_imm i)) 0xFFF.

Definition csr_instr (op : Z → Z → bool → exec C Z) (val : C → Z) (flag : bool) (i : Z)
    : exec C unit :=
  c ← get_st;
  old ⇐ op (csr_of i) (val c) flag;
  modify (set_reg (rd i) old);; ok tt.

Definition rv_csrrw_instr (i : Z) := csr_instr rv_csr_rw (reg (rs1 i)) (negb (rd i =? 0)) i.
Definition rv_csrrs_instr (i : Z) := csr_instr rv_csr_rs (reg (rs1 i)) (negb (rs1 i =? 0)) i.
Definition rv_csrrc_instr (i : Z) := csr_instr rv_csr_rc (reg (rs1 i)) (negb (rs1 i =? 0)) i.
Definition rv_csrrwi_instr (i : Z) := csr_instr rv_csr_rw (λ _, rs1 i) (negb (rd i =? 0)) i.
Definition rv_csrrsi_instr (i : Z) := csr_instr rv_csr_rs (λ _, rs1 i) (negb (rs1 i =? 0)) i.
Definition rv_csrrci_instr (i : Z) := csr_instr rv_csr_rc (λ _, rs1 i) (negb (rs1 i =? 0)) i.
End System.

Section Machine.
Context {T D : Type}.
Abbreviation W := (world T D).

Definition rv_break_instr (i : Z) : exec W unit :=
  c_assert (opcode i =? rv_opcSYSTEM);;
  w ← get_st;
  (if interactive_allowed w then modify (λ w, w <| w_phys := (w_phys w) <| machine_interactive := true |> |>)
   else modify (λ w, w <| machine_halt := true |>));;
  ok tt.

Definition rv_halt_instr (i : Z) : exec W unit :=
  c_assert (opcode i =? rv_opcSYSTEM);;
  modify (λ w, w <| machine_halt := true |>);; ok tt.

Definition rv_trace_set_instr (i : Z) : exec W unit :=
  c_assert (opcode i =? rv_opcSYSTEM);;
  modify (λ w, w <| machine_trace := true |>);; ok tt.

Definition rv_trace_reset_instr (i : Z) : exec W unit :=
  c_assert (opcode i =? rv_opcSYSTEM);;
  modify (λ w, w <| machine_trace := false |>);; ok tt.
End Machine.
