(* ===== verification/RvTrap.v ===== *)
(** * Traps, interrupts and accounting (riscv_rv32ima/cpu.c and riscv_rv64ima/cpu.c)

    The two processors have the same text for these functions; here they are
    written once for any register width.  They serve the supervisor interrupts
    in different orders, so that order is an argument, which [Rv32Cpu] and
    [Rv64Cpu] supply.  The shift [1 << (i + 3)] of the counters reaches the sign
    bit of an int, which the compilers the simulator supports define. *)

From S2P Require Import Prelude RvTypes RvCpu RvCsr Machine RvWorld RvMem RvSystem.

(** ** Traps *)
Section Traps.
Context {T : Type} `{Xlen}.
Abbreviation C := (rv_cpu T).

(** The vector of a trap: [mtvec] or [stvec]. *)
Definition trap_vector (tvec : Z) (ex : rv_exc) : st C Z :=
  let mode := Z.land tvec rv_csr_mtvec_mode_mask in
  let base := Z.land tvec (c_not XLEN rv_csr_mtvec_mode_mask) in
  if mode =? rv_csr_mtvec_mode_direct then mret base
  else if mode =? rv_csr_mtvec_mode_vectored then
    mret (if is_interrupt ex then ux (base + 4 * exc_no ex) else base)
  else stop AssertFailed.

Definition m_trap (ex : rv_exc) : st C unit :=
  modify (λ c, c <| stdby := false |>);;
  modify (λ c, with_csr (λ r, r <| mepc := if is_interrupt ex then pc_next c else pc c |>
                                <| mcause := exc_code ex |> <| mtval := tval_next r |>) c);;
  c ← get_st;
  mstatus_put rv_csr_mstatus_mpie_mask (rv_csr_mstatus_mie c);;
  mstatus_andn rv_csr_mstatus_mie_mask;;
  mstatus_andn rv_csr_mstatus_mpp_mask;;
  mstatus_or (Z.land (Z.shiftl (priv_num (priv_mode c)) rv_csr_mstatus_mpp_pos)
                     rv_csr_mstatus_mpp_mask);;
  modify (λ c, c <| priv_mode := rv_mmode |>);;
  v ← trap_vector (mtvec (csr c)) ex;
  modify (λ c, c <| pc_next := v |>).

Definition s_trap (ex : rv_exc) : st C unit :=
  modify (λ c, c <| stdby := false |>);;
  modify (λ c, with_csr (λ r, r <| sepc := if is_interrupt ex then pc_next c else pc c |>
                                <| scause := exc_code ex |> <| stval := tval_next r |>) c);;
  c ← get_st;
  mstatus_put rv_csr_sstatus_spie_mask (rv_csr_sstatus_sie c);;
  mstatus_andn rv_csr_sstatus_sie_mask;;
  mstatus_andn rv_csr_sstatus_spp_mask;;
  mstatus_or (Z.land (Z.shiftl (priv_num (priv_mode c)) rv_csr_sstatus_spp_pos)
                     rv_csr_sstatus_spp_mask);;
  modify (λ c, c <| priv_mode := rv_smode |>);;
  v ← trap_vector (stvec (csr c)) ex;
  modify (λ c, c <| pc_next := v |>).

Definition handle_exception (ex : rv_exc) : st C unit :=
  c_assert (negb (is_interrupt ex));;
  c ← get_st;
  let delegated := truthy (Z.land (medeleg (csr c)) (RV_EXCEPTION_MASK ex)) in
  if delegated && negb (priv_eqb (priv_mode c) rv_mmode) then s_trap ex else m_trap ex.

(** The first interrupt of the list that is set in the mask. *)
Fixpoint first_set (mask : Z) (l : list rv_exc) : option rv_exc :=
  match l with
  | [] => None
  | e :: l' => if truthy (Z.land mask (RV_EXCEPTION_MASK e)) then Some e else first_set mask l'
  end.

(** The order of the [trap_if_set] calls. *)
Definition m_mode_order : list rv_exc :=
  [rv_exc_machine_external_interrupt; rv_exc_machine_software_interrupt;
   rv_exc_machine_timer_interrupt; rv_exc_supervisor_external_interrupt;
   rv_exc_supervisor_software_interrupt; rv_exc_supervisor_timer_interrupt].

Definition effective_mip (r : rv_csr) : Z :=
  Z.lor (Z.lor (mip r) (if external_SEIP r then rv_csr_sei_mask else 0))
        (if external_STIP r then rv_csr_sti_mask else 0).

Definition can_trap_to_M (c : C) : bool :=
  (priv_eqb (priv_mode c) rv_mmode && rv_csr_mstatus_mie c) || priv_lt (priv_mode c) rv_mmode.
Definition can_trap_to_S (c : C) : bool :=
  (priv_eqb (priv_mode c) rv_smode && rv_csr_sstatus_sie c) || priv_lt (priv_mode c) rv_smode.

(** [s_order]: the order in which the processor family serves the supervisor
    interrupts. *)
Definition handle_interrupt (s_order : list rv_exc) : st C unit :=
  c ← get_st;
  let pending := effective_mip (csr c) in
  if pending =? 0 then mret tt
  else
    let m_active := Z.land (Z.land pending (mie (csr c))) (c_not XLEN (mideleg (csr c))) in
    let s_active := Z.land (Z.land pending (mie (csr c))) rv_csr_si_mask in
    match (if can_trap_to_M c then first_set m_active m_mode_order else None) with
    | Some e => m_trap e
    | None =>
        match (if can_trap_to_S c then first_set s_active s_order else None) with
        | Some e => s_trap e
        | None => mret tt
        end
    end.

(** ** Accounting *)
Definition hpm_no_event : Z := 0.
Definition hpm_u_cycles : Z := 1.
Definition hpm_s_cycles : Z := 2.
Definition hpm_r_cycles : Z := 3.
Definition hpm_m_cycles : Z := 4.
Definition hpm_w_cycles : Z := 5.

Definition hpm_counts (c : C) (event : Z) : bool :=
  if event =? hpm_u_cycles then priv_eqb (priv_mode c) rv_umode
  else if event =? hpm_s_cycles then priv_eqb (priv_mode c) rv_smode
  else if event =? hpm_m_cycles then priv_eqb (priv_mode c) rv_mmode
  else if event =? hpm_w_cycles then stdby c
  else false.

Definition account_hmp (i : Z) : st C unit :=
  c_assert ((0 <=? i) && (i <? 29));;
  c ← get_st;
  let mask := Z.shiftl 1 (i + 3) in
  if truthy (Z.land (mcountinhibit (csr c)) mask) then mret tt
  else if hpm_counts c (default 0 (hpmevents (csr c) !! i)) then
    modify (with_csr (λ r, r <| hpmcounters :=
      <[i := wrap 64 (default 0 (hpmcounters r !! i) + 1)]> (hpmcounters r) |>))
  else mret tt.

(** [stip_now]: RV32 compares the low half of [cycle], RV64 all of it. *)
Definition manage_timer_interrupts : st C unit :=
  modify (with_csr (λ r, r <| external_STIP := stip_now r |>));;
  modify handle_mtip.

Fixpoint account_all (n : nat) (i : Z) : st C unit :=
  match n with
  | O => mret tt
  | S n' => account_hmp i;; account_all n' (i + 1)
  end.

Definition account (now : Z) (instruction_retired : bool) : st C unit :=
  modify (with_csr (λ r, if truthy (Z.land (mcountinhibit r) 1) then r
                         else r <| cycle := wrap 64 (cycle r + 1) |>));;
  modify (with_csr (λ r, r <| mtime := wrap 64 (mtime r + (now - last_tick_time r)) |>
                           <| last_tick_time := now |>));;
  modify (with_csr (λ r, if negb (truthy (Z.land (mcountinhibit r) 4)) && instruction_retired
                         then r <| instret := wrap 64 (instret r + 1) |> else r));;
  account_all 29 0;;
  manage_timer_interrupts.

(** ** Requests from devices and from the debugger *)
Definition cpu_set_pc (value : Z) : st C unit :=
  if negb (IS_ALIGNED value 4) then mret tt
  else modify (λ c, c <| pc := value |> <| pc_next := ux (value + 4) |>).

(** Numbers other than the software and machine external ones mean MEI. *)
Definition interrupt_number (no : Z) : Z :=
  if (no =? exc_no rv_exc_machine_software_interrupt)
     || (no =? exc_no rv_exc_supervisor_software_interrupt)
     || (no =? exc_no rv_exc_machine_external_interrupt)
  then no else exc_no rv_exc_machine_external_interrupt.

Definition interrupt_up (no : Z) : st C unit :=
  if no =? exc_no rv_exc_supervisor_external_interrupt
  then modify (with_csr (λ r, r <| external_SEIP := true |>))
  else modify (with_csr (λ r, r <| mip := Z.lor (mip r) (Z.shiftl 1 (interrupt_number no)) |>)).

Definition interrupt_down (no : Z) : st C unit :=
  if no =? exc_no rv_exc_supervisor_external_interrupt
  then modify (with_csr (λ r, r <| external_SEIP := false |>))
  else modify (with_csr (λ r,
         r <| mip := Z.land (mip r) (c_not XLEN (Z.shiftl 1 (interrupt_number no))) |>)).

End Traps.
