(* ===== verification/RvStep.v ===== *)
(** * Fetch, execute, step (riscv_rv32ima/cpu.c and riscv_rv64ima/cpu.c)

    The instruction cache, the execution of one instruction and the step have
    the same text for both processors.  [Family] is what they take from the
    processor's own files: the decoder, the instruction functions that only
    exist there and the order of the supervisor interrupts.

    [cpu_step] fetches through the cache of decoded instructions, executes,
    takes a trap for an exception or a pending interrupt, accounts the cycle and
    advances the program counter.  The wall-clock time read by
    [current_timestamp] is the argument [now].  Tracing output is not modelled.

    The cache of decoded instructions is [ICache]. *)

From S2P Require Import Prelude PhysMem RvTypes RvCpu RvCsr Machine RvWorld RvMem RvMemOps RvComp RvCtl ICache.
From S2P Require Import RvSystem RvTrap.
Import PhysMem Instr.

Class Family (T D : Type) `{Board T D} := {
  instr_decode : bool → Z → instr_func;
  dump_instr : Z → exec (world T D) unit;
  csr_rd_instr : Z → exec (world T D) unit;
  sfence_instr : Z → exec (world T D) unit;
  supervisor_order : list rv_exc
}.

Section Step.
Context `{Xlen} {T D : Type} `{Board T D} `{!Translation T D} `{!Family T D}.
Abbreviation W := (world T D).

(** The call through the function pointer. *)
Definition instr_exec (f : instr_func) (i : Z) : exec W unit :=
  match f with
  | rv_illegal_instr => RvMemOps.rv_illegal_instr i
  | rv_lb_instr => RvMemOps.rv_lb_instr i | rv_lh_instr => RvMemOps.rv_lh_instr i
  | rv_lw_instr => RvMemOps.rv_lw_instr i | rv_lbu_instr => RvMemOps.rv_lbu_instr i
  | rv_lhu_instr => RvMemOps.rv_lhu_instr i
  | rv_fence_instr => RvMemOps.rv_fence_instr i
  | rv_addi_instr => on_cpu (RvComp.rv_addi_instr i) | rv_slti_instr => on_cpu (RvComp.rv_slti_instr i)
  | rv_sltiu_instr => on_cpu (RvComp.rv_sltiu_instr i) | rv_xori_instr => on_cpu (RvComp.rv_xori_instr i)
  | rv_ori_instr => on_cpu (RvComp.rv_ori_instr i) | rv_andi_instr => on_cpu (RvComp.rv_andi_instr i)
  | rv_slli_instr => on_cpu (RvComp.rv_slli_instr i) | rv_srli_instr => on_cpu (RvComp.rv_srli_instr i)
  | rv_srai_instr => on_cpu (RvComp.rv_srai_instr i)
  | rv_auipc_instr => on_cpu (RvComp.rv_auipc_instr i)
  | rv_sb_instr => RvMemOps.rv_sb_instr i | rv_sh_instr => RvMemOps.rv_sh_instr i
  | rv_sw_instr => RvMemOps.rv_sw_instr i
  | rv_lr_w_instr => RvMemOps.rv_lr_w_instr i | rv_sc_w_instr => RvMemOps.rv_sc_w_instr i
  | rv_amoswap_w_instr => RvMemOps.rv_amoswap_w_instr i
  | rv_amoadd_w_instr => RvMemOps.rv_amoadd_w_instr i
  | rv_amoxor_w_instr => RvMemOps.rv_amoxor_w_instr i
  | rv_amoand_w_instr => RvMemOps.rv_amoand_w_instr i
  | rv_amoor_w_instr => RvMemOps.rv_amoor_w_instr i
  | rv_amomin_w_instr => RvMemOps.rv_amomin_w_instr i
  | rv_amomax_w_instr => RvMemOps.rv_amomax_w_instr i
  | rv_amominu_w_instr => RvMemOps.rv_amominu_w_instr i
  | rv_amomaxu_w_instr => RvMemOps.rv_amomaxu_w_instr i
  | rv_add_instr => on_cpu (RvComp.rv_add_instr i) | rv_sub_instr => on_cpu (RvComp.rv_sub_instr i)
  | rv_sll_instr => on_cpu (RvComp.rv_sll_instr i) | rv_slt_instr => on_cpu (RvComp.rv_slt_instr i)
  | rv_sltu_instr => on_cpu (RvComp.rv_sltu_instr i) | rv_xor_instr => on_cpu (RvComp.rv_xor_instr i)
  | rv_srl_instr => on_cpu (RvComp.rv_srl_instr i) | rv_sra_instr => on_cpu (RvComp.rv_sra_instr i)
  | rv_or_instr => on_cpu (RvComp.rv_or_instr i) | rv_and_instr => on_cpu (RvComp.rv_and_instr i)
  | rv_mul_instr => on_cpu (RvComp.rv_mul_instr i) | rv_mulh_instr => on_cpu (RvComp.rv_mulh_instr i)
  | rv_mulhsu_instr => on_cpu (RvComp.rv_mulhsu_instr i)
  | rv_mulhu_instr => on_cpu (RvComp.rv_mulhu_instr i)
  | rv_div_instr => on_cpu (RvComp.rv_div_instr i) | rv_divu_instr => on_cpu (RvComp.rv_divu_instr i)
  | rv_rem_instr => on_cpu (RvComp.rv_rem_instr i) | rv_remu_instr => on_cpu (RvComp.rv_remu_instr i)
  | rv_lui_instr => on_cpu (RvComp.rv_lui_instr i)
  | rv_beq_instr => on_cpu (RvCtl.rv_beq_instr i) | rv_bne_instr => on_cpu (RvCtl.rv_bne_instr i)
  | rv_blt_instr => on_cpu (RvCtl.rv_blt_instr i) | rv_bltu_instr => on_cpu (RvCtl.rv_bltu_instr i)
  | rv_bge_instr => on_cpu (RvCtl.rv_bge_instr i) | rv_bgeu_instr => on_cpu (RvCtl.rv_bgeu_instr i)
  | rv_jalr_instr => on_cpu (RvCtl.rv_jalr_instr i) | rv_jal_instr => on_cpu (RvCtl.rv_jal_instr i)
  | rv_break_instr => RvSystem.rv_break_instr i | rv_halt_instr => RvSystem.rv_halt_instr i
  | rv_dump_instr => dump_instr i
  | rv_trace_set_instr => RvSystem.rv_trace_set_instr i
  | rv_trace_reset_instr => RvSystem.rv_trace_reset_instr i
  | rv_csr_rd_instr => csr_rd_instr i
  | rv_call_instr => on_cpu (RvSystem.rv_call_instr i)
  | rv_sret_instr => on_cpu (RvSystem.rv_sret_instr i)
  | rv_mret_instr => on_cpu (RvSystem.rv_mret_instr i)
  | rv_wfi_instr => on_cpu (RvSystem.rv_wfi_instr i)
  | rv_sfence_instr => sfence_instr i
  | rv_csrrw_instr => on_cpu (RvSystem.rv_csrrw_instr i)
  | rv_csrrs_instr => on_cpu (RvSystem.rv_csrrs_instr i)
  | rv_csrrc_instr => on_cpu (RvSystem.rv_csrrc_instr i)
  | rv_csrrwi_instr => on_cpu (RvSystem.rv_csrrwi_instr i)
  | rv_csrrsi_instr => on_cpu (RvSystem.rv_csrrsi_instr i)
  | rv_csrrci_instr => on_cpu (RvSystem.rv_csrrci_instr i)
  | rv_lwu_instr => RvMemOps.rv_lwu_instr i
  | rv_ld_instr => RvMemOps.rv_ld_instr i
  | rv_sd_instr => RvMemOps.rv_sd_instr i
  | rv_addiw_instr => on_cpu (RvComp.rv_addiw_instr i)
  | rv_slliw_instr => on_cpu (RvComp.rv_slliw_instr i)
  | rv_srliw_instr => on_cpu (RvComp.rv_srliw_instr i)
  | rv_sraiw_instr => on_cpu (RvComp.rv_sraiw_instr i)
  | rv_addw_instr => on_cpu (RvComp.rv_addw_instr i)
  | rv_subw_instr => on_cpu (RvComp.rv_subw_instr i)
  | rv_sllw_instr => on_cpu (RvComp.rv_sllw_instr i)
  | rv_srlw_instr => on_cpu (RvComp.rv_srlw_instr i)
  | rv_sraw_instr => on_cpu (RvComp.rv_sraw_instr i)
  | rv_mulw_instr => on_cpu (RvComp.rv_mulw_instr i)
  | rv_divw_instr => on_cpu (RvComp.rv_divw_instr i)
  | rv_divuw_instr => on_cpu (RvComp.rv_divuw_instr i)
  | rv_remw_instr => on_cpu (RvComp.rv_remw_instr i)
  | rv_remuw_instr => on_cpu (RvComp.rv_remuw_instr i)
  | rv_lr_instr => RvMemOps.rv_lr_instr i
  | rv_sc_instr => RvMemOps.rv_sc_instr i
  | rv_amoswap_d_instr => RvMemOps.rv_amoswap_d_instr i
  | rv_amoadd_d_instr => RvMemOps.rv_amoadd_d_instr i
  | rv_amoxor_d_instr => RvMemOps.rv_amoxor_d_instr i
  | rv_amoand_d_instr => RvMemOps.rv_amoand_d_instr i
  | rv_amoor_d_instr => RvMemOps.rv_amoor_d_instr i
  | rv_amomin_d_instr => RvMemOps.rv_amomin_d_instr i
  | rv_amomax_d_instr => RvMemOps.rv_amomax_d_instr i
  | rv_amominu_d_instr => RvMemOps.rv_amominu_d_instr i
  | rv_amomaxu_d_instr => RvMemOps.rv_amomaxu_d_instr i
  end.

(** Outside of physical memory the word is read and decoded without the cache. *)
Definition fetch_instr (phys : Z) : st W Instr.instr_func :=
  r ← fetch_cached instr_decode phys;
  match r with
  | Some f => mret f
  | None =>
      w ← get_st;
      instr_data ← physmem_read32 (mhartid (csr (w_cpu w))) phys true;
      mret (instr_decode (machine_specific_instructions w) instr_data)
  end.

Definition execute : exec W unit :=
  c ← cpu;
  phys ⇐ rv_convert_addr (pc c) false true true;
  instr_func ← fetch_instr phys;
  c ← cpu;
  instr_data ← physmem_read32 (mhartid (csr c)) phys true;
  r ← instr_exec instr_func instr_data;
  match r with
  | inl rv_exc_illegal_instruction =>
      cpu_modify (with_csr (λ r, r <| tval_next := instr_data |>));;
      raise rv_exc_illegal_instruction
  | _ => mret r
  end.

(** The end of the step: the program counter, x0 and the trap value. *)
Definition finish_step (c : rv_cpu T) : rv_cpu T :=
  let c := if stdby c then c else c <| pc := pc_next c |> <| pc_next := ux (pc_next c + 4) |> in
  with_csr (λ r, r <| tval_next := 0 |>) (set_reg 0 0 c).

Definition cpu_step (now : Z) : st W unit :=
  c ← cpu;
  r ← (if stdby c then ok tt else execute);
  let instruction_retired := negb (stdby c) && match r with inr _ => true | inl _ => false end in
  (match r with
   | inl ex => on_cpu (handle_exception ex)
   | inr _ => on_cpu (handle_interrupt supervisor_order)
   end);;
  on_cpu (account now instruction_retired);;
  cpu_modify finish_step.

(** Removing a processor empties the whole cache. *)
Definition cpu_done : st W unit := cache_clear.
End Step.
