(* ===== verification/Rv32Decode.v ===== *)
(** * Instruction decoding (riscv_rv32ima/instr.c)

    [rv32_instr_decode] maps an instruction word to an instruction function, a
    constructor of [instr_func].  The simulator's own instructions decode only when the machine is
    configured to have them ([special]). *)

From S2P Require Import Prelude PhysMem RvTypes RvCpu RvCsr RvTlb Rv32Tlb Machine RvWorld RvMem RvMemOps.
From S2P Require Import RvComp RvCtl RvSystem RvVm Rv32Vm.
Import Instr.

(** ** Decoding.  The assertions on the opcode are the cases of the outer switch. *)
Definition decode_LOAD (i : Z) : instr_func :=
  match funct3 i with
  | 0 => rv_lb_instr | 1 => rv_lh_instr | 2 => rv_lw_instr
  | 4 => rv_lbu_instr | 5 => rv_lhu_instr
  | _ => rv_illegal_instr
  end.

Definition decode_MISC_MEM (i : Z) : instr_func :=
  if funct3 i =? 0 then rv_fence_instr else rv_illegal_instr.

Definition decode_OP_IMM (i : Z) : instr_func :=
  match funct3 i with
  | 0 => rv_addi_instr | 2 => rv_slti_instr | 3 => rv_sltiu_instr
  | 4 => rv_xori_instr | 6 => rv_ori_instr | 7 => rv_andi_instr
  | 1 => if Z.shiftr (i_imm i) 5 =? 0 then rv_slli_instr else rv_illegal_instr
  | 5 => match Z.shiftr (i_imm i) 5 with
         | 0x20 => rv_srai_instr | 0 => rv_srli_instr | _ => rv_illegal_instr
         end
  | _ => rv_illegal_instr
  end.

Definition decode_AUIPC (_ : Z) : instr_func := rv_auipc_instr.

Definition decode_STORE (i : Z) : instr_func :=
  match funct3 i with
  | 0 => rv_sb_instr | 1 => rv_sh_instr | 2 => rv_sw_instr | _ => rv_illegal_instr
  end.

Definition RV_AMO_32_WLEN : Z := 2.

Definition decode_AMO (i : Z) : instr_func :=
  if negb (funct3 i =? RV_AMO_32_WLEN) then rv_illegal_instr
  else match RV_AMO_FUNCT i with
       | 0x02 => if rs2 i =? 0 then rv_lr_w_instr else rv_illegal_instr
       | 0x03 => rv_sc_w_instr | 0x01 => rv_amoswap_w_instr | 0x00 => rv_amoadd_w_instr
       | 0x04 => rv_amoxor_w_instr | 0x0C => rv_amoand_w_instr | 0x08 => rv_amoor_w_instr
       | 0x10 => rv_amomin_w_instr | 0x14 => rv_amomax_w_instr
       | 0x18 => rv_amominu_w_instr | 0x1C => rv_amomaxu_w_instr
       | _ => rv_illegal_instr
       end.

Definition decode_OP (i : Z) : instr_func :=
  match RV_R_FUNCT i with
  | 0x000 => rv_add_instr | 0x100 => rv_sub_instr | 0x001 => rv_sll_instr
  | 0x002 => rv_slt_instr | 0x003 => rv_sltu_instr | 0x004 => rv_xor_instr
  | 0x005 => rv_srl_instr | 0x105 => rv_sra_instr | 0x006 => rv_or_instr
  | 0x007 => rv_and_instr
  | 0x008 => rv_mul_instr | 0x009 => rv_mulh_instr | 0x00A => rv_mulhsu_instr
  | 0x00B => rv_mulhu_instr | 0x00C => rv_div_instr | 0x00D => rv_divu_instr
  | 0x00E => rv_rem_instr | 0x00F => rv_remu_instr
  | _ => rv_illegal_instr
  end.

Definition decode_LUI (_ : Z) : instr_func := rv_lui_instr.

Definition decode_BRANCH (i : Z) : instr_func :=
  match funct3 i with
  | 0 => rv_beq_instr | 1 => rv_bne_instr | 4 => rv_blt_instr
  | 6 => rv_bltu_instr | 5 => rv_bge_instr | 7 => rv_bgeu_instr
  | _ => rv_illegal_instr
  end.

Definition decode_JALR (i : Z) : instr_func :=
  if negb (funct3 i =? 0) then rv_illegal_instr else rv_jalr_instr.

Definition decode_JAL (_ : Z) : instr_func := rv_jal_instr.

Definition rv_privSFENCEVMA_FUNCT7 : Z := 0x09.

Definition decode_PRIV (special : bool) (i : Z) : instr_func :=
  let sim (f : instr_func) := if special then f else rv_illegal_instr in
  if funct7 i =? rv_privSFENCEVMA_FUNCT7 then rv_sfence_instr
  else match Z.land (i_imm i) 0xFFF with
       | 0x001 => rv_break_instr
       | 0x8C0 => sim rv_halt_instr | 0x8C1 => sim rv_dump_instr
       | 0x8C2 => sim rv_trace_set_instr | 0x8C3 => sim rv_trace_reset_instr
       | 0x8C4 => sim rv_csr_rd_instr
       | 0x000 => rv_call_instr | 0x102 => rv_sret_instr | 0x302 => rv_mret_instr
       | 0x105 => rv_wfi_instr
       | _ => rv_illegal_instr
       end.

Definition decode_SYSTEM (special : bool) (i : Z) : instr_func :=
  match funct3 i with
  | 0 => decode_PRIV special i
  | 1 => rv_csrrw_instr | 2 => rv_csrrs_instr | 3 => rv_csrrc_instr
  | 5 => rv_csrrwi_instr | 6 => rv_csrrsi_instr | 7 => rv_csrrci_instr
  | _ => rv_illegal_instr
  end.

Definition rv32_instr_decode (special : bool) (i : Z) : instr_func :=
  match opcode i with
  | 0x03 => decode_LOAD i
  | 0x0F => decode_MISC_MEM i
  | 0x13 => decode_OP_IMM i
  | 0x17 => decode_AUIPC i
  | 0x23 => decode_STORE i
  | 0x2F => decode_AMO i
  | 0x33 => decode_OP i
  | 0x37 => decode_LUI i
  | 0x63 => decode_BRANCH i
  | 0x67 => decode_JALR i
  | 0x6F => decode_JAL i
  | 0x73 => decode_SYSTEM special i
  | _ => rv_illegal_instr
  end.

(** ** The RV32-only instruction functions *)
Section Run.
Context {D : Type} `{Board rv32_tlb D}.
Abbreviation W := (world rv32_tlb D).

(** Dumps only print. *)
Definition rv32_dump_instr (i : Z) : exec W unit :=
  c_assert (opcode i =? rv_opcSYSTEM);; ok tt.
Definition rv32_csr_rd_instr (i : Z) : exec W unit :=
  c_assert (opcode i =? rv_opcSYSTEM);; ok tt.

Definition rv32_sfence_instr (i : Z) : exec W unit :=
  c ← cpu;
  if rv_csr_mstatus_tvm c || priv_lt (priv_mode c) rv_smode
  then raise rv_exc_illegal_instruction
  else
    (if rs1 i =? 0 then
       if rs2 i =? 0 then on_tlb rv32_tlb_flush
       else on_tlb (rv32_tlb_flush_by_asid (Z.land (reg (rs2 i) c) rv_asid_mask))
     else
       if rs2 i =? 0 then on_tlb (rv32_tlb_flush_by_addr (reg (rs1 i) c))
       else on_tlb (rv32_tlb_flush_by_asid_and_addr
                      (Z.land (reg (rs2 i) c) rv_asid_mask) (reg (rs1 i) c)));;
    ok tt.
End Run.
