(* ===== verification/Rv32Cpu.v ===== *)
(** * The RV32 processor (riscv_rv32ima/cpu.c)

    The instance of traps ([RvTrap]) and step ([RvStep]) for Sv32 translation and
    the RV32 decoder, at 32 bits. *)

From S2P Require Import Prelude PhysMem RvTypes RvCpu RvCsr RvTlb Rv32Tlb Machine RvWorld RvMem RvSystem RvVm.
From S2P Require Import RvTrap RvStep RvVm Rv32Vm Rv32Decode.
Import PhysMem.

Section Traps.
Context {T : Type}.
Abbreviation C := (rv_cpu T).

(** The order of the supervisor [trap_if_set] calls. *)
Definition s_mode_order : list rv_exc :=
  [rv_exc_supervisor_external_interrupt; rv_exc_supervisor_software_interrupt;
   rv_exc_supervisor_timer_interrupt].
Definition try_handle_interrupt : st C unit := handle_interrupt s_mode_order.

Definition rv32_cpu_set_pc : Z → st C unit := cpu_set_pc.
Definition rv32_interrupt_up : Z → st C unit := interrupt_up.
Definition rv32_interrupt_down : Z → st C unit := interrupt_down.
Definition rv32_sc_access : Z → Z → C → bool * C := rv_sc_access.
End Traps.

Section Step.
Context {D : Type} `{Board rv32_tlb D}.
Abbreviation W := (world rv32_tlb D).

#[export] Instance rv32_family : Family rv32_tlb D := {|
  instr_decode := rv32_instr_decode;
  dump_instr := rv32_dump_instr;
  csr_rd_instr := rv32_csr_rd_instr;
  sfence_instr := rv32_sfence_instr;
  supervisor_order := s_mode_order
|}.

Definition rv32_cpu_step (now : Z) : st W unit := cpu_step now.

(** ** Creation and removal *)
Definition rv32_cpu_init (procno now : Z) : rv_cpu rv32_tlb :=
  mk_cpu ∅ (rv_init_csr zero_csr procno now) RV_START_ADDRESS (ux (RV_START_ADDRESS + 4))
    rv_mmode false 0 false (empty_tlb DEFAULT_RV_TLB_SIZE).

Definition rv32_cpu_done : st W unit := cpu_done.

Definition rv32_csr_set_asid_len : Z → st (rv_cpu rv32_tlb) unit := csr_set_asid_len rv32_tlb_flush.
End Step.
