(* ===== verification/Rv64Decode.v ===== *)
(** * Instruction decoding (riscv_rv64ima/instr.c)

    The decoder of the RV64 processor.  Where its text is that of the RV32 file
    the definition refers to [Rv32Decode]. *)

From S2P Require Import Prelude PhysMem RvTypes RvCpu RvCsr RvTlb Rv64Tlb Machine RvWorld RvVm.
From S2P Require Rv32Decode.
Import Instr.
#[local] Existing Instance xlen64.

Definition decode_LOAD (i : Z) : instr_func :=
  match funct3 i with
  | 0 => rv_lb_instr | 1 => rv_lh_instr | 2 => rv_lw_instr | 6 => rv_lwu_instr
  | 3 => rv_ld_instr | 4 => rv_lbu_instr | 5 => rv_lhu_instr
  | _ => rv_illegal_instr
  end.

Definition decode_PRIV : bool → Z → instr_func := Rv32Decode.decode_PRIV.
Definition decode_SYSTEM (special : bool) (i : Z) : instr_func :=
  match funct3 i with
  | 0 => decode_PRIV special i
  | 1 => rv_csrrw_instr | 2 => rv_csrrs_instr | 3 => rv_csrrc_instr
  | 5 => rv_csrrwi_instr | 6 => rv_csrrsi_instr | 7 => rv_csrrci_instr
  | _ => rv_illegal_instr
  end.
Definition decode_JALR : Z → instr_func := Rv32Decode.decode_JALR.
Definition decode_JAL : Z → instr_func := Rv32Decode.decode_JAL.
Definition decode_BRANCH : Z → instr_func := Rv32Decode.decode_BRANCH.
Definition decode_MISC_MEM : Z → instr_func := Rv32Decode.decode_MISC_MEM.

(** A right shift whose upper immediate bits are not zero is arithmetic. *)
Definition decode_OP_IMM (i : Z) : instr_func :=
  match funct3 i with
  | 0 => rv_addi_instr | 2 => rv_slti_instr | 3 => rv_sltiu_instr
  | 4 => rv_xori_instr | 6 => rv_ori_instr | 7 => rv_andi_instr
  | 1 => if Z.shiftr (i_imm i) 6 =? 0 then rv_slli_instr else rv_illegal_instr
  | 5 => if Z.shiftr (i_imm i) 6 =? 0 then rv_srli_instr else rv_srai_instr
  | _ => rv_illegal_instr
  end.

Definition decode_OP_IMM_32 (i : Z) : instr_func :=
  match funct3 i with
  | 0 => rv_addiw_instr
  | 1 => if Z.shiftr (i_imm i) 5 =? 0 then rv_slliw_instr else rv_illegal_instr
  | 5 => match Z.shiftr (i_imm i) 5 with
         | 0x20 => rv_sraiw_instr | 0 => rv_srliw_instr | _ => rv_illegal_instr
         end
  | _ => rv_illegal_instr
  end.

Definition decode_AUIPC : Z → instr_func := Rv32Decode.decode_AUIPC.

Definition decode_STORE (i : Z) : instr_func :=
  match funct3 i with
  | 0 => rv_sb_instr | 1 => rv_sh_instr | 2 => rv_sw_instr | 3 => rv_sd_instr
  | _ => rv_illegal_instr
  end.

Definition decode_AMO_32 (i : Z) : instr_func :=
  match RV_AMO_FUNCT i with
  | 0x02 => if rs2 i =? 0 then rv_lr_w_instr else rv_illegal_instr
  | 0x03 => rv_sc_w_instr | 0x01 => rv_amoswap_w_instr | 0x00 => rv_amoadd_w_instr
  | 0x04 => rv_amoxor_w_instr | 0x0C => rv_amoand_w_instr | 0x08 => rv_amoor_w_instr
  | 0x10 => rv_amomin_w_instr | 0x14 => rv_amomax_w_instr
  | 0x18 => rv_amominu_w_instr | 0x1C => rv_amomaxu_w_instr
  | _ => rv_illegal_instr
  end.

Definition decode_AMO_64 (i : Z) : instr_func :=
  match RV_AMO_FUNCT i with
  | 0x02 => if rs2 i =? 0 then rv_lr_instr else rv_illegal_instr
  | 0x03 => rv_sc_instr | 0x01 => rv_amoswap_d_instr | 0x00 => rv_amoadd_d_instr
  | 0x04 => rv_amoxor_d_instr | 0x0C => rv_amoand_d_instr | 0x08 => rv_amoor_d_instr
  | 0x10 => rv_amomin_d_instr | 0x14 => rv_amomax_d_instr
  | 0x18 => rv_amominu_d_instr | 0x1C => rv_amomaxu_d_instr
  | _ => rv_illegal_instr
  end.

Definition decode_AMO (i : Z) : instr_func :=
  match funct3 i with
  | 2 => decode_AMO_32 i | 3 => decode_AMO_64 i | _ => rv_illegal_instr
  end.

Definition decode_OP : Z → instr_func := Rv32Decode.decode_OP.

Definition decode_OP_32 (i : Z) : instr_func :=
  match RV_R_FUNCT i with
  | 0x000 => rv_addw_instr | 0x100 => rv_subw_instr | 0x001 => rv_sllw_instr
  | 0x005 => rv_srlw_instr | 0x105 => rv_sraw_instr
  | 0x008 => rv_mulw_instr | 0x00C => rv_divw_instr | 0x00D => rv_divuw_instr
  | 0x00E => rv_remw_instr | 0x00F => rv_remuw_instr
  | _ => rv_illegal_instr
  end.

Definition decode_LUI : Z → instr_func := Rv32Decode.decode_LUI.

Definition rv64_instr_decode (special : bool) (i : Z) : instr_func :=
  match opcode i with
  | 0x03 => decode_LOAD i
  | 0x0F => decode_MISC_MEM i
  | 0x13 => decode_OP_IMM i
  | 0x1B => decode_OP_IMM_32 i
  | 0x17 => decode_AUIPC i
  | 0x23 => decode_STORE i
  | 0x2F => decode_AMO i
  | 0x33 => decode_OP i
  | 0x3B => decode_OP_32 i
  | 0x37 => decode_LUI i
  | 0x63 => decode_BRANCH i
  | 0x67 => decode_JALR i
  | 0x6F => decode_JAL i
  | 0x73 => decode_SYSTEM special i
  | _ => rv_illegal_instr
  end.

(** ** The RV64-only instruction functions *)
Section Run.
Context {D : Type} `{Board rv64_tlb D}.
Abbreviation W := (world rv64_tlb D).

(** Dumps only print. *)
Definition rv64_dump_instr (i : Z) : exec W unit :=
  c_assert (opcode i =? rv_opcSYSTEM);; ok tt.
Definition rv64_csr_rd_instr (i : Z) : exec W unit :=
  c_assert (opcode i =? rv_opcSYSTEM);; ok tt.

Definition rv64_sfence_instr (i : Z) : exec W unit :=
  c ← cpu;
  if rv_csr_mstatus_tvm c || priv_lt (priv_mode c) rv_smode
  then raise rv_exc_illegal_instruction
  else
    (if rs1 i =? 0 then
       if rs2 i =? 0 then on_tlb rv64_tlb_flush
       else on_tlb (rv64_tlb_flush_by_asid (Z.land (reg (rs2 i) c) rv_asid_mask))
     else
       if rs2 i =? 0 then on_tlb (rv64_tlb_flush_by_addr (reg (rs1 i) c))
       else on_tlb (rv64_tlb_flush_by_asid_and_addr
                      (Z.land (reg (rs2 i) c) rv_asid_mask) (reg (rs1 i) c)));;
    ok tt.
End Run.
