(* ===== verification/Rv64Cpu.v ===== *)
(** * The RV64 processor (riscv_rv64ima/cpu.c and csr.c)

    The instance of traps ([RvTrap]) and step ([RvStep]) for Sv39 translation and
    the RV64 decoder, at 64 bits.  The processor has a cache of decoded
    instructions of its own. *)

From S2P Require Import Prelude PhysMem RvTypes RvCpu RvCsr RvTlb Rv64Tlb Machine ICache RvWorld RvMem RvSystem RvVm.
From S2P Require Import RvTrap RvStep Rv64Vm Rv64Decode.
Import PhysMem.
#[local] Existing Instance xlen64.

Section Traps.
Context {T : Type}.
Abbreviation C := (rv_cpu T).

(** The order of the tests of bits 5, 9 and 1. *)
Definition rv64_s_mode_order : list rv_exc :=
  [rv_exc_supervisor_timer_interrupt; rv_exc_supervisor_external_interrupt;
   rv_exc_supervisor_software_interrupt].
Definition rv64_try_handle_interrupt : st C unit := handle_interrupt rv64_s_mode_order.

Definition rv64_m_trap : rv_exc → st C unit := m_trap.
Definition rv64_s_trap : rv_exc → st C unit := s_trap.
Definition rv64_handle_exception : rv_exc → st C unit := handle_exception.
Definition rv64_account_hmp : Z → st C unit := account_hmp.
Definition rv64_manage_timer_interrupts : st C unit := manage_timer_interrupts.
Definition rv64_account : Z → bool → st C unit := account.
Definition rv64_cpu_set_pc : Z → st C unit := cpu_set_pc.
Definition rv64_interrupt_up : Z → st C unit := interrupt_up.
Definition rv64_interrupt_down : Z → st C unit := interrupt_down.
Definition rv64_sc_access : Z → Z → C → bool * C := rv_sc_access.

(** The external wrapper for clearing calls [rv_csr_rs]. *)
Definition rv64_csr_rw : Z → Z → bool → exec C Z := rv_csr_rw.
Definition rv64_csr_rs : Z → Z → bool → exec C Z := rv_csr_rs.
Definition rv64_csr_rc : Z → Z → bool → exec C Z := rv_csr_rs.
End Traps.

Section Step.
Context {D : Type} `{Board rv64_tlb D}.
Abbreviation W := (world rv64_tlb D).

#[export] Instance rv64_family : Family rv64_tlb D := {|
  instr_decode := rv64_instr_decode;
  dump_instr := rv64_dump_instr;
  csr_rd_instr := rv64_csr_rd_instr;
  sfence_instr := rv64_sfence_instr;
  supervisor_order := rv64_s_mode_order
|}.

Definition rv64_cache_hit : Z → st W (option cache_item) := cache_hit.
Definition rv64_cache_item_page_decode : Z → st W (gmap Z Instr.instr_func) :=
  cache_item_page_decode rv64_instr_decode.
Definition rv64_update_cache_item : cache_item → st W cache_item :=
  update_cache_item rv64_instr_decode.
Definition rv64_cache_try_add : Z → st W (option cache_item) :=
  cache_try_add rv64_instr_decode.
Definition rv64_fetch_instr : Z → st W Instr.instr_func := fetch_instr.
Definition rv64_execute : exec W unit := execute.
Definition rv64_cpu_step (now : Z) : st W unit := cpu_step now.

(** ** Creation and removal *)
Definition rv64_cpu_init (procno now : Z) : rv_cpu rv64_tlb :=
  mk_cpu ∅ (rv_init_csr zero_csr procno now) RV_START_ADDRESS (ux (RV_START_ADDRESS + 4))
    rv_mmode false 0 false (empty_tlb DEFAULT_RV64_TLB_SIZE).

Definition rv64_cpu_done : st W unit := cpu_done.

Definition rv64_csr_set_asid_len : Z → st (rv_cpu rv64_tlb) unit := csr_set_asid_len rv64_tlb_flush.
End Step.
