(* ===== verification/RvSample.v ===== *)
(** * Concrete RISC-V machines

    One processor without devices: for RV32 ([Sample]) two pages of RAM at physical
    address 0 and the program at the reset address; for RV64 ([Sample64]) the same
    memory around the 64-bit processor. *)

From S2P Require Import Prelude PhysMem RvTypes RvCpu RvCsr RvTlb Rv32Tlb Machine RvWorld RvMem RvVm Rv32Vm.
From S2P Require Import Rv32Decode RvTrap RvStep Rv32Cpu Rv64Tlb Rv64Vm Rv64Decode Rv64Cpu.
Import PhysMem.

Module Sample.
#[global] Instance board : Board rv32_tlb unit := {| devices := []; debugger_event d := d |}.
Abbreviation W := (world rv32_tlb unit).

(** Words stored from address 0 of a memory block on. *)
Fixpoint words_at (off : Z) (ws : list Z) (d : gmap Z Z) : gmap Z Z :=
  match ws with
  | [] => d
  | w :: ws' => words_at (off + 4) ws' (store_le d off w 4)
  end.

Definition low_ram (d : gmap Z Z) : physmem_area := mk_area MEMT_MEM true 0 2 (Some d).
Definition boot_ram (prog : list Z) : physmem_area :=
  mk_area MEMT_MEM true 0xF0000 1 (Some (words_at 0 prog ∅)).

Definition memory (low : gmap Z Z) (prog : list Z) : physmem :=
  mk_physmem {[ 1 := low_ram low; 2 := boot_ram prog ]}
    {[ ftl1_index 0 := Ftl1 {[ 0 := mk_frame 1 0 false; 1 := mk_frame 1 4096 false ]};
       ftl1_index 0xF0000000 := Ftl1 {[ ftl2_index 0xF0000000 := mk_frame 2 0 false ]} ]}
    [] [] false.

Definition machine (c : rv_cpu rv32_tlb) (low : gmap Z Z) (prog : list Z) : W :=
  mk_world c [] [] (memory low prog) [] tt false false false true false.

Definition cpu0 : rv_cpu rv32_tlb := rv32_cpu_init 0 0.

Fixpoint run (n : nat) : st W unit :=
  match n with O => mret tt | S n' => rv32_cpu_step 0;; run n' end.

(** ** The memory of the machine is well formed *)
Definition bytes_ok (d : gmap Z Z) : Prop := ∀ k v, d !! k = Some v → in_width 8 v.

Lemma store_le_ok d off v n : bytes_ok d → bytes_ok (store_le d off v n).
Proof.
  intros Hd k x. rewrite store_le_lookup. case_decide; [|by apply Hd].
  intros [= <-]. apply wrap_range. lia.
Qed.

Lemma words_at_ok ws off d : bytes_ok d → bytes_ok (words_at off ws d).
Proof.
  revert off d. induction ws as [|w ws IH]; intros off d Hd; cbn [words_at]; [done|].
  by apply IH, store_le_ok.
Qed.

Lemma empty_ok : bytes_ok ∅.
Proof. intros k v. by rewrite lookup_empty. Qed.

Lemma memory_wf low prog : bytes_ok low → phys_wf (memory low prog).
Proof.
  intros Hlow. split; cbn [ftl0 areas sc_list memory].
  - intros i. rewrite lookup_insert, lookup_singleton. by repeat case_decide.
  - intros i j fs f Hi Hj. rewrite lookup_insert, lookup_singleton in Hi. repeat case_decide; [..|done];
      injection Hi as <-; subst i.
    + rewrite lookup_insert, lookup_singleton in Hj. repeat case_decide; [..|done];
        injection Hj as <-; subst j; (split_and!; [vm_compute; congruence..|]);
        exists (low_ram low), low; cbn; split_and!; lia || done.
    + apply lookup_singleton_Some in Hj as [<- <-]. split_and!; [vm_compute; congruence..|].
      eexists (boot_ram prog), _; cbn. split_and!; try done; vm_compute; congruence.
  - intros id a d k v Ha Hd Hk. rewrite lookup_insert, lookup_singleton in Ha.
    repeat case_decide; [..|done]; injection Ha as <-; cbn in Hd; injection Hd as <-;
      [by eapply Hlow|]. eapply words_at_ok; [apply empty_ok|exact Hk].
  - constructor.
Qed.

(** ** A page table: virtual page 1 is the boot page, readable, writable,
    executable and accessible to user mode *)
Definition page_table : gmap Z Z := store_le (store_le ∅ 0 0x401 4) 0x1004 0x3C00001F 4.

Definition user_cpu : rv_cpu rv32_tlb :=
  with_csr (λ r, r <| satp := 0x80000000 |>) (cpu0 <| priv_mode := rv_umode |>).

Definition vm_machine (prog : list Z) : W := machine user_cpu page_table prog.
End Sample.

Module Sample64.
#[local] Existing Instance xlen64.
#[global] Instance board64 : Board rv64_tlb unit := {| devices := []; debugger_event d := d |}.
Abbreviation W := (world rv64_tlb unit).

Definition machine (c : rv_cpu rv64_tlb) (low : gmap Z Z) (prog : list Z) : W :=
  mk_world c [] [] (Sample.memory low prog) [] tt false false false true false.

Definition cpu0 : rv_cpu rv64_tlb := rv64_cpu_init 0 0.

(** Virtual page 1 is the boot page, through the tables at 0, 0x1000 and again 0. *)
Definition page_table : gmap Z Z :=
  store_le (store_le (store_le ∅ 0 0x401 8) 0x1000 0x1 8) 0x8 0x3C00001F 8.

Definition user_cpu : rv_cpu rv64_tlb :=
  with_csr (λ r, r <| satp := Z.shiftl 8 60 |>) (cpu0 <| priv_mode := rv_umode |>).

Definition vm_machine (prog : list Z) : W := machine user_cpu page_table prog.

Lemma page_table_ok : Sample.bytes_ok page_table.
Proof. do 3 apply Sample.store_le_ok. apply Sample.empty_ok. Qed.
End Sample64.
