(* ===== verification/RvIrq.v ===== *)
(** * The RISC-V processors in the processor table (src/src/device/drvcpu.c)

    The machine of [RvWorld] implements the interface of [GenCpu]: its processors
    are the entries of [cpu_list] and the method table is [rv_cpu] of drvcpu.c.
    Address translation reads memory and so reaches the devices, which are built on
    this table: the table the devices see leaves [convert_addr] out (no device
    calls it), [rv_cpu_table] is the complete one.

    The reservation callback that physical memory uses in [RvWorld] is shown to be
    the dispatch of general_cpu.c through this table. *)

From S2P Require Import Prelude PhysMem GenCpu DevHost RvTypes RvCpu RvCsr RvTlb Rv32Tlb Machine RvWorld RvMem RvVm Rv32Vm.
From S2P Require Import RvTrap RvStep Rv32Cpu.
Import PhysMem GenCpu.

Inductive rv_family := RV32.

Section Irq.
Context {D : Type}.
Abbreviation W := (world rv32_tlb D).
Abbreviation C := (rv_cpu rv32_tlb).

(** ** The method table of drvcpu.c

    The wrappers keep the low 32 bits of an address; breakpoints are not
    implemented. *)
Definition rv32_set_pc_wrapper (addr : Z) : st W unit := on_cpu (rv32_cpu_set_pc (wrap 32 addr)).

Definition on_sc_access (addr size : Z) : st W bool := λ w,
  let '(b, c) := rv32_sc_access addr size (w_cpu w) in Done (b, w <| w_cpu := c |>).

Definition rv_cpu_ops (convert : option (Z → Z → bool → st W (option Z))) : cpu_ops W :=
  mk_cpu_ops
    (Some (λ d no, on_nth (Z.to_nat d) (on_cpu (rv32_interrupt_up no))))
    (Some (λ d no, on_nth (Z.to_nat d) (on_cpu (rv32_interrupt_down no))))
    None
    None
    convert
    (Some (λ d, mret tt))
    (Some (λ d addr, on_nth (Z.to_nat d) (rv32_set_pc_wrapper addr)))
    (Some (λ d addr size, on_nth (Z.to_nat d) (on_sc_access addr size))).

Definition rv32_convert_add_wrapper (virt : Z) (write : bool) `{Board rv32_tlb D}
    : st W (option Z) :=
  r ← rv_convert_addr (wrap 32 virt) write false false;
  mret (match r with inr phys => Some phys | inl _ => None end).

Definition rv_cpu_table `{Board rv32_tlb D} : cpu_ops W :=
  rv_cpu_ops (Some (λ d virt write, on_nth (Z.to_nat d) (rv32_convert_add_wrapper virt write))).

#[export] Instance rv_cpu_host : CpuHost W rv_family := {|
  ch_cpus := family_cpus RV32;
  ch_ops _ := rv_cpu_ops None
|}.

(** ** Interrupt lines *)
Definition rv_pending (c : C) (no : Z) : bool :=
  if no =? exc_no rv_exc_supervisor_external_interrupt then external_SEIP (csr c)
  else Z.testbit (mip (csr c)) (interrupt_number no).

Definition irq_cpu (up : bool) (no : Z) (c : C) : C :=
  if no =? exc_no rv_exc_supervisor_external_interrupt
  then with_csr (λ r, r <| external_SEIP := up |>) c
  else with_csr (λ r, r <| mip :=
         if up then Z.lor (mip r) (Z.shiftl 1 (interrupt_number no))
         else Z.land (mip r) (c_not 32 (Z.shiftl 1 (interrupt_number no))) |>) c.

Lemma interrupt_number_range no : 0 ≤ interrupt_number no < 32.
Proof.
  unfold interrupt_number. destruct (_ || _) eqn:E; [|done].
  rewrite !orb_true_iff, !Z.eqb_eq in E. destruct E as [[-> | ->] | ->]; done.
Qed.

Lemma irq_cpu_pending up no c : rv_pending (irq_cpu up no c) no = up.
Proof.
  unfold rv_pending, irq_cpu. destruct (no =? _) eqn:E; [done|].
  pose proof (interrupt_number_range no). destruct up; cbn.
  - by rewrite Z.lor_spec, testbit_bit, Z.eqb_refl, orb_true_r by lia.
  - by rewrite Z.land_spec, testbit_c_not, testbit_bit, Z.eqb_refl, !andb_false_r by lia.
Qed.

Lemma irq_cpu_hart up no c : mhartid (csr (irq_cpu up no c)) = mhartid (csr c).
Proof. unfold irq_cpu. by destruct (_ =? _). Qed.

#[export] Instance rv_irq : IrqCore C.
Proof.
  refine {| core_up := rv32_interrupt_up; core_down := rv32_interrupt_down; core_pending := rv_pending;
            core_accepts _ := true |}; [intros c no _..|done].
  - exists (irq_cpu true no c). split_and!; [|apply irq_cpu_hart|apply irq_cpu_pending].
    unfold irq_cpu, rv32_interrupt_up, RvTrap.interrupt_up. by destruct (no =? _).
  - exists (irq_cpu false no c). split_and!; [|apply irq_cpu_hart|apply irq_cpu_pending].
    unfold irq_cpu, rv32_interrupt_down, RvTrap.interrupt_down. by destruct (no =? _).
Defined.
End Irq.

#[export] Instance rv_cpu_host_laws {D} : CpuHostLaws (world rv32_tlb D) rv_family.
Proof. by apply (family_laws RV32). Defined.

(** ** The reservation callback is the dispatch of the table *)
Section Dispatch.
Context {D : Type}.
Abbreviation W := (world rv32_tlb D).

Lemma get_cpu_first no (w : W) :
  get_cpu no (ch_cpus w) =
    match first_at (has_number no) 0 (all_cpus w) with
    | Some (i, c) => Some (mk_gcpu (mhartid (csr c)) RV32 (Z.of_nat i))
    | None => None
    end.
Proof.
  cbn [ch_cpus rv_cpu_host]. unfold family_cpus. cbn [core_number rv_core]. generalize (all_cpus w). intros l.
  enough (∀ k, get_cpu no (imap (λ i c, mk_gcpu (mhartid (csr c)) RV32 (Z.of_nat (k + i))) l) =
    match first_at (has_number no) k l with
    | Some (i, c) => Some (mk_gcpu (mhartid (csr c)) RV32 (Z.of_nat i)) | None => None end) as Hk
    by apply (Hk O).
  induction l as [|c l IH]; intros k; cbn; [done|]. unfold has_number. destruct (_ =? no).
  - by rewrite Nat.add_0_r.
  - rewrite <- IH. f_equal. apply imap_ext. intros i x _. cbn. do 2 f_equal. lia.
Qed.

Lemma dispatch_sc addr size i c (w : W) :
  all_cpus w !! i = Some c →
  cpu_sc_access (Some (mk_gcpu (mhartid (csr c)) RV32 (Z.of_nat i))) addr size w =
    Done ((rv_sc_access addr size c).1, update_nth i (rv_sc_access addr size c).2 w).
Proof.
  intros Hc. unfold cpu_sc_access, cpu_or_fallback. msimpl. cbn [type data ch_ops rv_cpu_host rv_cpu_ops sc_access call].
  rewrite Nat2Z.id. apply (on_nth_run _ _ c); [done|]. intros w1 <-. unfold on_sc_access, rv32_sc_access.
  by destruct (rv_sc_access addr size (w_cpu w1)).
Qed.
End Dispatch.

#[export] Instance world_slot_laws {D X} `{DevFieldLaws (rv_cpu rv32_tlb) Instr.instr_func D X} :
  SlotLaws (world rv32_tlb D) rv_family X.
Proof. by apply field_slot_laws. Qed.

(** The reservation callback of physical memory in the RISC-V machine is
    [cpu_sc_access(get_cpu(procno), addr, size)] of general_cpu.c: the processor of
    that number, else processor 0, else the first of the list. *)
Theorem sc_access_dispatch {D} procno addr size (w : world rv32_tlb D) :
  Machine.cpu_sc_access procno addr size w =
    (cpu ← find_cpu procno; GenCpu.cpu_sc_access cpu addr size) w.
Proof.
  unfold Machine.cpu_sc_access, find_cpu. msimpl. rewrite !with_first_at, get_cpu_first.
  destruct (first_at (has_number procno) 0 (all_cpus w)) as [[i c]|] eqn:E1.
  { apply first_at_bound in E1 as [_ E1]. rewrite Nat.sub_0_r in E1. by rewrite dispatch_sc. }
  assert (∀ c, get_fallback_cpu w = Done (c, w) →
    GenCpu.cpu_sc_access None addr size w = GenCpu.cpu_sc_access (Some c) addr size w) as Hfb.
  { intros c Ec. unfold GenCpu.cpu_sc_access. cbn [cpu_or_fallback].
    by rewrite (bind_Done _ _ _ _ _ Ec), (bind_Done _ _ _ _ _ eq_refl). }
  unfold get_fallback_cpu in Hfb. rewrite get_cpu_first in Hfb.
  destruct (first_at (has_number 0) 0 (all_cpus w)) as [[i c]|] eqn:E2.
  { apply first_at_bound in E2 as [_ E2]. rewrite Nat.sub_0_r in E2.
    by rewrite (Hfb _ eq_refl), dispatch_sc. }
  cbn [ch_cpus rv_cpu_host] in Hfb. unfold family_cpus in Hfb.
  destruct (all_cpus w) as [|c l] eqn:E3; [unfold all_cpus in E3; by destruct (w_before w)|]. cbn [first_at].
  rewrite (Hfb _ eq_refl), (dispatch_sc addr size 0 c) by (by rewrite E3). done.
Qed.
