(* ===== verification/DDiskProps.v ===== *)
(** * Properties of the disk

    The disk never leaves its image, whatever the guest writes to its registers
    ([disk_keeps_wf]); a read or write command moves exactly one sector in 128
    disk cycles, interleaved in any way with steps of the rest of the machine
    that leave the buffer alone ([disk_read_transfer], [disk_write_transfer]).
    The last section records what goes wrong: an acknowledgement that re-raises
    the interrupt, an error that hides a transfer in progress, and a DMA address
    that is not checked. *)

From stdpp Require Import strings.
From S2P Require Import Prelude PhysMem GenCpu Device DevHost DDisk.
From S2P Require Import RvTypes RvCpu RvCsr RvTlb Rv32Tlb Machine RvWorld RvTrap RvStep Rv32Cpu RvSample RvIrq.
Import PhysMem GenCpu Device DDisk.

Module DDiskProps.

(** ** Invariant *)
Record disk_wf (d : disk_data) : Prop := {
  wf_size : 0 ≤ size d < 2 ^ 64;
  wf_sectors : size d mod 512 = 0;
  wf_none : disk_type d = DISKT_NONE → size d = 0 ∧ action d = ACTION_NONE;
  wf_image : disk_type d ≠ DISKT_NONE → ∃ im, img d = Some im ∧ img_len im = size d ∧
    ∀ k, in_width 8 (img_bytes im k);
  wf_ptr : in_width 64 (disk_ptr d);
  wf_secno : in_width 32 (disk_secno d);
  wf_status : in_width 32 (disk_status d);
  wf_transfer : action d ≠ ACTION_NONE →
    0 ≤ secno d ∧ (secno d + 1) * 512 ≤ size d ∧ 0 ≤ cnt d < 128
}.

Lemma in_transfer_typed d : disk_wf d → action d ≠ ACTION_NONE →
  ∃ im, img d = Some im ∧ img_len im = size d ∧ ∀ k, in_width 8 (img_bytes im k).
Proof.
  intros Hwf Ha. apply (wf_image _ Hwf). intros E. by destruct (wf_none _ Hwf E).
Qed.

(** The word of the image at a position. *)
Definition img_word (im : image) (pos : Z) : Z := le_join (img_bytes im) (4 * pos) 4.

Lemma img_word_width im pos : (∀ k, in_width 8 (img_bytes im k)) → in_width 32 (img_word im pos).
Proof. intros H. apply (le_join_width (img_bytes im) (4 * pos) 4). intros. apply H. Qed.

(** The disk after its interrupt was raised, after a word and after a transfer. *)
Definition raised (d : disk_data) : disk_data :=
  if uses_busy_bit d then d
  else d <| disk_status := Z.lor (disk_status d) STATUS_INT |> <| ig := true |>
         <| intrcount := wrap 64 (intrcount d + 1) |>.

Definition advanced (d : disk_data) : disk_data :=
  d <| disk_ptr := wrap 64 (disk_ptr d + 4) |> <| cnt := wrap 64 (cnt d + 1) |>.

Definition completed (d : disk_data) : disk_data :=
  if cnt d =? 128
  then raised (d <| action := ACTION_NONE |>
                 <| disk_status := Z.land (disk_status d) (c_not 32 STATUS_BUSY) |>)
  else d.

Definition failed (d : disk_data) : disk_data :=
  let d' := raised (d <| disk_status := STATUS_ERROR |>) in
  d' <| cmds_error := wrap 64 (cmds_error d' + 1) |>.

Lemma or_status_width a b : in_width 32 a → in_width 32 b → in_width 32 (Z.lor a b).
Proof. intros. apply lor_width; [lia|done|done]. Qed.

Ltac split_wf H :=
  destruct H as [Hw1 Hw2 Hw3 Hw4 Hw5 Hw6 Hw7 Hw8]; split; cbn; try done.

Lemma raised_wf d : disk_wf d → disk_wf (raised d).
Proof.
  unfold raised. destruct (uses_busy_bit d); [done|]. intros Hd. split_wf Hd.
  by apply or_status_width.
Qed.

(** Only the status, the interrupt flags and the counters differ. *)
Definition same_transfer (d d' : disk_data) : Prop :=
  action d' = action d ∧ secno d' = secno d ∧ cnt d' = cnt d ∧ size d' = size d ∧
  img d' = img d ∧ disk_type d' = disk_type d ∧ uses_busy_bit d' = uses_busy_bit d ∧ intno d' = intno d.

#[export] Instance same_transfer_preorder : PreOrder same_transfer.
Proof.
  split; [by repeat split|]. intros x y z (?&?&?&?&?&?&?&?) (?&?&?&?&?&?&?&?). repeat split; congruence.
Qed.

(** The interrupt of the disk is the same. *)
Definition same_irq (d d' : disk_data) : Prop := uses_busy_bit d' = uses_busy_bit d ∧ intno d' = intno d.

Lemma same_transfer_irq d d' : same_transfer d d' → same_irq d d'.
Proof. intros (_ & _ & _ & _ & _ & _ & ? & ?). by split. Qed.

Lemma raised_same d : same_transfer d (raised d).
Proof. unfold raised. destruct (uses_busy_bit d) eqn:E; repeat split; cbn; by rewrite ?E. Qed.

Lemma failed_wf d : disk_wf d → disk_wf (failed d).
Proof.
  intros Hd. assert (disk_wf (raised (d <| disk_status := STATUS_ERROR |>))) as Hr.
  { apply raised_wf. split_wf Hd. }
  unfold failed. split_wf Hr.
Qed.

Lemma failed_same d : same_transfer d (failed d).
Proof.
  unfold failed. cbv zeta. trans (raised (d <| disk_status := STATUS_ERROR |>)).
  - trans (d <| disk_status := STATUS_ERROR |>); [by repeat split|apply raised_same].
  - by repeat split.
Qed.

Lemma completed_wf d : disk_wf d → action d ≠ ACTION_NONE → disk_wf (completed (advanced d)).
Proof.
  intros Hd Ha. destruct (wf_transfer _ Hd Ha) as (Hs & Hb & Hc).
  assert (cnt (advanced d) = cnt d + 1) as Ec
    by (cbn; apply wrap_small; unfold in_width; lia).
  unfold completed. rewrite Ec. destruct (Z.eqb_spec (cnt d + 1) 128).
  - apply raised_wf. split_wf Hd.
    + intros E. by destruct (Hw3 E).
    + apply wrap_range. lia.
    + apply land_width_l; [lia|done].
  - split_wf Hd.
    + apply wrap_range. lia.
    + intros _. rewrite wrap_small by (unfold in_width; lia). lia.
Qed.

Lemma completed_irq d : same_irq d (completed (advanced d)).
Proof.
  unfold completed. destruct (_ =? _); [|by split].
  destruct (same_transfer_irq _ _ (raised_same ((advanced d) <| action := ACTION_NONE |>
    <| disk_status := Z.land (disk_status (advanced d)) (c_not 32 STATUS_BUSY) |>))) as [H1 H2]. by split.
Qed.

Lemma put_word_wf d im pos v : disk_wf d → img d = Some im → in_width 32 v →
  disk_wf (d <| img := Some (put_word im pos v) |>).
Proof.
  intros Hd Ei Hv. split_wf Hd. intros Ht. destruct (Hw4 Ht) as (im' & Ei' & Hl & Hb). simplify_eq.
  eexists. split_and!; [done|done|]. intros k. cbn. destruct (_ && _); [|apply Hb].
  unfold le_byte. apply wrap_range. lia.
Qed.

Lemma start_wf d act : disk_wf d → disk_type d ≠ DISKT_NONE → (disk_secno d + 1) * 512 ≤ size d →
  disk_wf (start_action act d).
Proof.
  intros Hd Ht Hb. pose proof (wf_secno _ Hd) as Hs. unfold in_width in Hs. split_wf Hd.
  - by apply or_status_width.
  - intros _. lia.
Qed.

Lemma clean_up_wf d : disk_wf d → disk_wf (ddisk_clean_up d).
Proof. intros Hd. unfold ddisk_clean_up. split_wf Hd. Qed.

Lemma mounted_wf d t sz bytes :
  disk_wf d → t ≠ DISKT_NONE → 0 ≤ sz < 2 ^ 64 → sz mod 512 = 0 → (∀ k, in_width 8 (bytes k)) →
  disk_wf ((ddisk_clean_up d) <| img := Some (mk_image sz bytes) |> <| size := sz |> <| disk_type := t |>).
Proof.
  intros Hd Ht Hs Hm Hb. apply clean_up_wf in Hd. split_wf Hd. intros _. by exists (mk_image sz bytes).
Qed.

Lemma generic_wf sz d : 0 ≤ sz < 2 ^ 64 → disk_wf d → disk_wf (ddisk_generic sz d).2.
Proof.
  intros Hs Hd. unfold ddisk_generic. destruct (sz =? 0); [done|].
  destruct (Z.eqb_spec (Z.land sz 0x1ff) 0) as [E|]; [|done]. cbn [negb snd].
  change 0x1ff with (Z.ones 9) in E. rewrite Z.land_ones in E by lia.
  apply mounted_wf; [done|done|done|done|]. intros. by apply in_width_0.
Qed.

Lemma align_down_512 x : 0 ≤ x < 2 ^ 64 →
  0 ≤ Z.land x (c_not 64 511) < 2 ^ 64 ∧ Z.land x (c_not 64 511) mod 512 = 0.
Proof.
  intros Hx. split.
  - apply land_width_l; [lia|done].
  - change 512 with (2 ^ 9). rewrite <- Z.land_ones, <- Z.land_assoc by lia.
    change (Z.land (c_not 64 511) (Z.ones 9)) with 0. apply Z.land_0_r.
Qed.

Lemma fmap_wf f d : 0 ≤ img_len f < 2 ^ 64 → (∀ k, in_width 8 (img_bytes f k)) →
  disk_wf d → disk_wf (ddisk_fmap (Some f) d).2.
Proof.
  intros Hl Hb Hd. unfold ddisk_fmap. destruct (img_len f =? 0); [done|].
  destruct (_ =? 0); [done|]. cbn [snd]. destruct (align_down_512 _ Hl) as [H1 H2].
  by apply (mounted_wf d DISKT_FMAP).
Qed.

Lemma fill_wf t d r : (∀ i, t = tt_uint i → 0 ≤ i) → disk_wf d → ddisk_fill t d = Done r → disk_wf r.2.
Proof.
  intros Ht Hd. unfold ddisk_fill. destruct (fill_char t) as [c|] eqn:Ec; [|by intros [= <-]].
  assert (in_width 8 c) as Hc.
  { unfold fill_char in Ec. destruct t as [|i|[|c' [|]]|]; try done; simplify_eq.
    - by apply in_width_0.
    - specialize (Ht i eq_refl). destruct (Z.ltb_spec 255 i); [done|]. simplify_eq. unfold in_width. lia.
    - pose proof (Ascii.N_ascii_bounded c'). unfold in_width. lia. }
  destruct (Z.eqb_spec (size d) 0); [by intros [= <-]|].
  destruct (img d) as [im|] eqn:Ei; [|done]. destruct (Z.leb_spec (size d) (img_len im)); [|done].
  intros [= <-]. cbn [snd]. split_wf Hd. intros Hn. destruct (Hw4 Hn) as (im' & Ei' & Hl & Hb). simplify_eq.
  eexists. split_and!; [done|done|]. intros k. cbn. by destruct (_ && _).
Qed.

Lemma load_wf f rd d r : (∀ k, in_width 8 (img_bytes f k)) → disk_wf d →
  ddisk_load (Some f) rd d = Done r → disk_wf r.2.
Proof.
  intros Hf Hd. unfold ddisk_load. destruct (bool_decide (disk_type d = DISKT_NONE)); [by intros [= <-]|].
  destruct (img_len f =? 0); [by intros [= <-]|]. destruct (size d <? img_len f); [by intros [= <-]|].
  destruct (img d) as [im|] eqn:Ei; [|done]. destruct (img_len f <=? img_len im); [|done].
  intros [= <-]. cbn [snd]. split_wf Hd. intros Hn. destruct (Hw4 Hn) as (im' & Ei' & Hl & Hb). simplify_eq.
  eexists. split_and!; [done|done|]. intros k. cbn. by destruct (_ && _).
Qed.

(** ** Register writes as functions on the disk *)
Definition acked (d : disk_data) : disk_data :=
  d <| disk_status := Z.land (disk_status d) (c_not 32 STATUS_INT) |> <| ig := false |>.

Definition has (val bit : Z) : bool := truthy (Z.land (Z.land val COMMAND_MASK) bit).

Definition received (val : Z) (d : disk_data) : disk_data :=
  let d := d <| disk_command := Z.land val COMMAND_MASK |> in
  if has val COMMAND_INT_ACK then acked d else d.

(** The command is refused. *)
Definition refused (val : Z) (d : disk_data) : bool :=
  (has val COMMAND_READ && has val COMMAND_WRITE)
  || ((has val COMMAND_READ || has val COMMAND_WRITE) && negb (bool_decide (action d = ACTION_NONE)))
  || (size d <? (disk_secno d + 1) * 512).

Definition commanded (val : Z) (d : disk_data) : disk_data :=
  let d := received val d in
  if refused val d then failed d
  else if has val COMMAND_READ
  then (start_action ACTION_READ d) <| cmds_read := wrap 64 (cmds_read d + 1) |>
  else if has val COMMAND_WRITE
  then (start_action ACTION_WRITE d) <| cmds_write := wrap 64 (cmds_write d + 1) |>
  else d.

Definition written (a val : Z) (d : disk_data) : disk_data :=
  if bool_decide (disk_type d = DISKT_NONE) then d
  else
    let off := reg_offset a (addr d) in
    if off =? REGISTER_ADDR_LO
    then d <| disk_ptr := Z.lor (Z.land (disk_ptr d) (c_not 64 0xffffffff)) val |>
    else if off =? REGISTER_ADDR_HI
    then d <| disk_ptr := Z.lor (Z.land (disk_ptr d) 0xffffffff) (Z.shiftl val 32) |>
    else if off =? REGISTER_SECNO then d <| disk_secno := val |>
    else if off =? REGISTER_COMMAND then commanded val d
    else d.

Lemma received_wf val d : disk_wf d → disk_wf (received val d).
Proof.
  intros Hd. unfold received, acked. destruct (has _ _); split_wf Hd. apply land_width_l; [lia|done].
Qed.

Lemma received_same val d : same_transfer d (received val d).
Proof. unfold received, acked. destruct (has _ _); by repeat split. Qed.

Lemma received_secno val d : disk_secno (received val d) = disk_secno d.
Proof. unfold received, acked. by destruct (has _ _). Qed.

Lemma commanded_wf val d : disk_wf d → disk_type d ≠ DISKT_NONE → disk_wf (commanded val d).
Proof.
  intros Hd Ht. pose proof (received_wf val d Hd) as Hr. unfold commanded. cbv zeta.
  destruct (received_same val d) as (_ & _ & _ & _ & _ & Et & _). rewrite <- Et in Ht. clear Et Hd.
  revert Hr Ht. generalize (received val d). clear d. intros d Hd Ht.
  destruct (refused val d) eqn:Er; [by apply failed_wf|].
  unfold refused in Er. apply orb_false_iff in Er as [_ Eb].
  assert ((disk_secno d + 1) * 512 ≤ size d) as Hb by lia.
  destruct (has val COMMAND_READ); [|destruct (has val COMMAND_WRITE); [|done]];
    [assert (disk_wf (start_action ACTION_READ d)) as Hs by by apply start_wf
    |assert (disk_wf (start_action ACTION_WRITE d)) as Hs by by apply start_wf]; split_wf Hs.
Qed.

Lemma commanded_same val d : action d ≠ ACTION_NONE → same_transfer d (commanded val d).
Proof.
  intros Ha. pose proof (received_same val d) as Hr. etrans; [exact Hr|].
  destruct Hr as (Ea & _). rewrite <- Ea in Ha. clear Ea. unfold commanded. cbv zeta. revert Ha.
  generalize (received val d). clear d. intros d Ha.
  destruct (refused val d) eqn:Er; [apply failed_same|]. unfold refused in Er.
  rewrite bool_decide_eq_false_2 in Er by done.
  destruct (has val COMMAND_READ), (has val COMMAND_WRITE); done.
Qed.

Lemma shift_hi_width val : in_width 32 val → in_width 64 (Z.shiftl val 32).
Proof. unfold in_width. rewrite Z.shiftl_mul_pow2 by lia. lia. Qed.

(** A register write keeps the invariant and never disturbs a transfer. *)
Lemma written_wf a val d : in_width 32 val → disk_wf d → disk_wf (written a val d).
Proof.
  intros Hv Hd. unfold written. destruct (bool_decide_reflect (disk_type d = DISKT_NONE)) as [|Ht]; [done|].
  cbv zeta. destruct (_ =? _).
  { split_wf Hd. apply lor_width; [lia|apply land_width_l; [lia|done]|].
    eapply in_width_mono; [..|exact Hv]; lia. }
  destruct (_ =? _).
  { split_wf Hd. apply lor_width; [lia|apply land_width_l; [lia|done]|]. by apply shift_hi_width. }
  destruct (_ =? _); [split_wf Hd|]. destruct (_ =? _); [by apply commanded_wf|done].
Qed.

Lemma written_same a val d : action d ≠ ACTION_NONE → same_transfer d (written a val d).
Proof.
  intros Ha. unfold written. destruct (bool_decide _); [done|]. cbv zeta.
  repeat (destruct (_ =? _); [by repeat split || by apply commanded_same|]). done.
Qed.

Lemma commanded_irq val d : same_irq d (commanded val d).
Proof.
  destruct (same_transfer_irq _ _ (received_same val d)) as [H1 H2]. unfold commanded. cbv zeta.
  destruct (refused _ _).
  - destruct (same_transfer_irq _ _ (failed_same (received val d))) as [H3 H4]. split; congruence.
  - destruct (has val COMMAND_READ), (has val COMMAND_WRITE); split; cbn; done.
Qed.

Lemma written_irq a val d : same_irq d (written a val d).
Proof.
  unfold written. destruct (bool_decide _); [by split|]. cbv zeta.
  repeat (destruct (_ =? _); [first [by split|apply commanded_irq]|]). by split.
Qed.

(** The user commands do not touch it either. *)
Lemma image_commands_irq d :
  (∀ sz, same_irq d (ddisk_generic sz d).2) ∧ (∀ f, same_irq d (ddisk_fmap f d).2) ∧
  (∀ t r, ddisk_fill t d = Done r → same_irq d r.2) ∧ (∀ f rd r, ddisk_load f rd d = Done r → same_irq d r.2).
Proof.
  split_and!.
  - intros sz. unfold ddisk_generic. repeat case_match; by split.
  - intros f. unfold ddisk_fmap. destruct f; repeat case_match; by split.
  - intros t x. unfold ddisk_fill. repeat case_match; intros [= <-]; by split.
  - intros f rd x. unfold ddisk_load. repeat case_match; intros [= <-]; by split.
Qed.

Section Runs.
Context {W F : Type} `{SlotLaws W F disk_data} `{!PhysHostLaws W}.
Implicit Types w : W.

Abbreviation disk w := (slot_get w : disk_data).

Lemma dev_modify_run (f : disk_data → disk_data) w :
  ∃ w', dev_modify f w = Done (tt, w') ∧ disk w' = f (disk w) ∧ ph_get w' = ph_get w ∧
    ch_cpus w' = ch_cpus w ∧ ch_pending w' = ch_pending w.
Proof.
  eexists. split; [done|]. by rewrite slot_get_set, slot_phys, slot_cpus, slot_pending.
Qed.

(** The processors have the interrupt of the disk, if it uses one. *)
Definition takes_irq (d : disk_data) : Prop := uses_busy_bit d = false → irq_ok W (intno d).

(** The interrupt of the disk is pending at its processor. *)
Definition signalled w (d : disk_data) : Prop :=
  ∃ c, irq_target (cpuid d) (ch_cpus w) = Some c ∧ ch_pending w (data c) (intno d) = true.

Lemma disk_raise_run w : takes_irq (disk w) →
  ∃ w', disk_raise w = Done (tt, w') ∧ disk w' = raised (disk w) ∧ ph_get w' = ph_get w ∧
    (uses_busy_bit (disk w) = false → signalled w' (disk w)).
Proof.
  intros Hok. unfold disk_raise, dev, raised. rewrite (bind_Done _ _ _ _ _ eq_refl).
  destruct (uses_busy_bit (disk w)) eqn:Eb; [by exists w|].
  edestruct (dev_modify_run (λ d, d <| disk_status := Z.lor (disk_status d) STATUS_INT |>) w)
    as (w1 & E1 & D1 & P1 & C1 & _). rewrite (bind_Done _ _ _ _ _ E1).
  destruct (raise_on_run (cpuid (disk w)) (intno (disk w)) w1 (Hok Eb)) as (c & w2 & Hc & E2 & Hs & Hcp & Hp & _).
  rewrite (bind_Done _ _ _ _ _ E2). apply slot_same in Hs as [D2 P2].
  edestruct (dev_modify_run (λ d, d <| ig := true |> <| intrcount := wrap 64 (intrcount d + 1) |>) w2)
    as (w3 & E3 & D3 & P3 & C3 & Q3).
  exists w3. split_and!; [exact E3| |by rewrite P3, P2|].
  - by rewrite D3, D2, D1.
  - intros _. exists c. by rewrite C3, Hcp, Q3.
Qed.

Lemma disk_error_run w : takes_irq (disk w) →
  ∃ w', disk_command_error w = Done (tt, w') ∧ disk w' = failed (disk w) ∧ ph_get w' = ph_get w ∧
    (uses_busy_bit (disk w) = false → signalled w' (disk w)).
Proof.
  intros Hok. unfold disk_command_error.
  edestruct (dev_modify_run (λ d, d <| disk_status := STATUS_ERROR |>) w) as (w1 & E1 & D1 & P1 & _).
  rewrite (bind_Done _ _ _ _ _ E1). destruct (disk_raise_run w1) as (w2 & E2 & D2 & P2 & S2); [by rewrite D1|].
  rewrite (bind_Done _ _ _ _ _ E2).
  edestruct (dev_modify_run (λ d, d <| cmds_error := wrap 64 (cmds_error d + 1) |>) w2)
    as (w3 & E3 & D3 & P3 & C3 & Q3).
  exists w3. split_and!; [exact E3|by rewrite D3, D2, D1|by rewrite P3, P2, P1|].
  intros Hb. rewrite D1 in S2. destruct (S2 Hb) as (c & Hc & Hp). exists c. by rewrite C3, Q3.
Qed.

Lemma disk_finish_run w : takes_irq (disk w) →
  ∃ w', (next_word;; finish_transfer) w = Done (tt, w') ∧ disk w' = completed (advanced (disk w)) ∧
    ph_get w' = ph_get w ∧
    (cnt (advanced (disk w)) = 128 → uses_busy_bit (disk w) = false → signalled w' (disk w)).
Proof.
  intros Hok. unfold next_word. edestruct (dev_modify_run advanced w) as (w1 & E1 & D1 & P1 & _).
  rewrite (bind_Done _ _ _ _ _ E1). unfold finish_transfer, dev. rewrite (bind_Done _ _ _ _ _ eq_refl), D1.
  unfold completed. destruct (Z.eqb_spec (cnt (advanced (disk w))) 128).
  - edestruct (dev_modify_run (λ d, d <| action := ACTION_NONE |>
        <| disk_status := Z.land (disk_status d) (c_not 32 STATUS_BUSY) |>) w1) as (w2 & E2 & D2 & P2 & _).
    rewrite (bind_Done _ _ _ _ _ E2). destruct (disk_raise_run w2) as (w3 & E3 & D3 & P3 & S3); [by rewrite D2, D1|].
    exists w3. rewrite D2, D1 in S3. split_and!; [done|by rewrite D3, D2, D1|by rewrite P3, P2, P1|].
    intros _. exact S3.
  - exists w1. split_and!; [done|done|done|]. lia.
Qed.

Lemma if_or3 {A} (a b c : bool) (x y : A) :
  (if a then x else if b then x else if c then x else y) = if a || b || c then x else y.
Proof. by destruct a, b, c. Qed.

Lemma has_read_write val (d : disk_data) :
  refused val d = false → has val COMMAND_READ = true → has val COMMAND_WRITE = false.
Proof. unfold refused. intros Er Hr. rewrite Hr in Er. by destruct (has val COMMAND_WRITE). Qed.

Lemma command_run val w : takes_irq (disk w) →
  in_width 32 (disk_secno (disk w)) →
  ∃ w', disk_command_write val w = Done (tt, w') ∧ disk w' = commanded val (disk w) ∧
    ph_get w' = ph_get w ∧
    (refused val (disk w) = true → uses_busy_bit (disk w) = false → signalled w' (disk w)).
Proof.
  intros Hok Hs. unfold disk_command_write. cbv zeta. fold (has val COMMAND_READ).
  edestruct (dev_modify_run (λ d, d <| disk_command := Z.land val COMMAND_MASK |>) w)
    as (w1 & E1 & D1 & P1 & _). rewrite (bind_Done _ _ _ _ _ E1).
  assert (∃ w2, (if has val COMMAND_INT_ACK then
      dev_modify (λ d : disk_data, d <| disk_status := Z.land (disk_status d) (c_not 32 STATUS_INT) |>
                        <| ig := false |>);;
      d ← dev; if uses_busy_bit d then mret tt else lower_on (cpuid d) (intno d)
     else mret tt) w1 = Done (tt, w2) ∧ disk w2 = received val (disk w) ∧ ph_get w2 = ph_get w)
    as (w2 & E2 & D2 & P2).
  { unfold received. destruct (has val COMMAND_INT_ACK); [|by exists w1; rewrite D1, P1].
    edestruct (dev_modify_run acked w1) as (w2 & E2 & D2 & P2 & _).
    unfold acked in E2. rewrite (bind_Done _ _ _ _ _ E2).
    unfold dev. rewrite (bind_Done _ _ _ _ _ eq_refl).
    destruct (uses_busy_bit (disk w2)) eqn:Eb; [by exists w2; rewrite D2, D1, P2, P1|].
    destruct (lower_on_run (cpuid (disk w2)) (intno (disk w2)) w2) as (c & w3 & Hc & E3 & Hsame & _);
      [rewrite D2, D1 in Eb |- *; by apply Hok|].
    apply slot_same in Hsame as [D3 P3]. exists w3.
    split_and!; [done|by rewrite D3, D2, D1|by rewrite P3, P2, P1]. }
  rewrite (bind_Done _ _ _ _ _ E2). unfold dev.
  rewrite (bind_Done _ _ _ _ _ eq_refl), D2. unfold commanded. cbv zeta.
  assert (wrap 64 ((disk_secno (received val (disk w)) + 1) * 512) =
    (disk_secno (received val (disk w)) + 1) * 512) as ->.
  { rewrite received_secno. apply wrap_small. unfold in_width in *. lia. }
  fold (has val COMMAND_READ) (has val COMMAND_WRITE).
  destruct (received_same val (disk w)) as (Ra & _ & _ & Rs & _ & _ & Rb & _).
  pose proof (received_secno val (disk w)) as Rn.
  rewrite if_or3. change (_ || _ || _) with (refused val (received val (disk w))).
  destruct (refused val (received val (disk w))) eqn:Er.
  - destruct (disk_error_run w2) as (w3 & E3 & D3 & P3 & S3).
    { rewrite D2. unfold takes_irq, received, acked. by destruct (has val COMMAND_INT_ACK). }
    exists w3. split_and!; [exact E3|by rewrite D3, D2|by rewrite P3|].
    intros _ Hb. rewrite D2, Rb in S3. destruct (S3 Hb) as (c & Hc & Hp). exists c.
    revert Hc Hp. unfold received, acked. by destruct (has val COMMAND_INT_ACK).
  - assert (refused val (disk w) = false) as Er'.
    { rewrite <- Er. unfold refused. by rewrite Ra, Rs, Rn. }
    pose proof (has_read_write val _ Er) as Hrw.
    destruct (has val COMMAND_READ) eqn:Hr.
    + rewrite (Hrw eq_refl).
      edestruct (dev_modify_run (λ d, (start_action ACTION_READ d)
        <| cmds_read := wrap 64 (cmds_read d + 1) |>) w2) as (w3 & E3 & D3 & P3 & _).
      rewrite (bind_Done _ _ _ _ _ E3). exists w3. rewrite D3, D2, P3, Er'. by split_and!.
    + rewrite (bind_Done _ _ _ _ _ eq_refl). destruct (has val COMMAND_WRITE).
      * edestruct (dev_modify_run (λ d, (start_action ACTION_WRITE d)
          <| cmds_write := wrap 64 (cmds_write d + 1) |>) w2) as (w3 & E3 & D3 & P3 & _).
        exists w3. rewrite D3, D2, P3, Er'. by split_and!.
      * exists w2. rewrite Er'. by split_and!.
Qed.

Lemma disk_write_run procno a val w : takes_irq (disk w) →
  in_width 32 (disk_secno (disk w)) →
  ∃ w', ddisk_write32 procno a val w = Done (tt, w') ∧ disk w' = written a val (disk w) ∧
    ph_get w' = ph_get w.
Proof.
  intros Hok Hs. unfold ddisk_write32, written, dev. rewrite (bind_Done _ _ _ _ _ eq_refl).
  destruct (bool_decide _); [by exists w|]. cbv zeta.
  repeat (destruct (_ =? _); [first [edestruct dev_modify_run as (w1 & E1 & D1 & P1 & _); by exists w1
    | destruct (command_run val w Hok Hs) as (w1 & E1 & D1 & P1 & _); by exists w1]|]).
  by exists w.
Qed.

(** The position of the current word lies in the image. *)
Lemma pos_in_image (d : disk_data) : disk_wf d → action d ≠ ACTION_NONE →
  wrap 64 (secno d * 128 + cnt d) = secno d * 128 + cnt d ∧
  0 ≤ secno d * 128 + cnt d ∧ 4 * (secno d * 128 + cnt d) + 4 ≤ size d.
Proof.
  intros Hwf Ha. destruct (wf_transfer _ Hwf Ha) as (Hs & Hb & Hc). pose proof (wf_size _ Hwf).
  split_and!; [apply wrap_small; unfold in_width|..]; lia.
Qed.

Lemma img_read_run w im pos :
  img (disk w) = Some im → 0 ≤ pos → 4 * pos + 4 ≤ img_len im →
  img_read pos w = Done (img_word im pos, w).
Proof.
  intros Ei Hp Hl. unfold img_read, dev. rewrite (bind_Done _ _ _ _ _ eq_refl), Ei.
  replace ((0 <=? pos) && (4 * pos + 4 <=? img_len im)) with true by lia. done.
Qed.

Lemma step_read_run w : takes_irq (disk w) →
  disk_wf (disk w) → action (disk w) = ACTION_READ → phys_wf (ph_get w) →
  writable_at (ph_get w) (disk_ptr (disk w)) →
  ∃ w' im, ddisk_step w = Done (tt, w') ∧ img (disk w) = Some im ∧
    disk w' = completed (advanced (disk w)) ∧ phys_wf (ph_get w') ∧
    word_at (ph_get w') (disk_ptr (disk w)) = img_word im (secno (disk w) * 128 + cnt (disk w)) ∧
    (∀ x, 0 ≤ x < PHYS_LIMIT → ¬ (disk_ptr (disk w) ≤ x < disk_ptr (disk w) + 4) →
      byte_at (ph_get w') x = byte_at (ph_get w) x) ∧
    (∀ x, writable_at (ph_get w) x → writable_at (ph_get w') x) ∧
    (cnt (advanced (disk w)) = 128 → uses_busy_bit (disk w) = false → signalled w' (disk w)).
Proof.
  intros Hok Hwf Ha Hpwf Hw. assert (action (disk w) ≠ ACTION_NONE) as Hn by by rewrite Ha.
  destruct (pos_in_image _ Hwf Hn) as (Ew & Hp0 & Hp1).
  destruct (in_transfer_typed _ Hwf Hn) as (im & Ei & Hl & Hb).
  unfold ddisk_step, dev. rewrite (bind_Done _ _ _ _ _ eq_refl), Ha, Ew.
  rewrite (bind_Done _ _ _ _ _ (img_read_run w im _ Ei Hp0 ltac:(lia))).
  edestruct (write32_run NO_CPU (disk_ptr (disk w)) (img_word im (secno (disk w) * 128 + cnt (disk w))) true w)
    as (w1 & E1 & Hwf1 & Hword & Hother & Hwr & _); [done|done|by apply img_word_width|].
  rewrite (bind_Done _ _ _ _ _ E1).
  destruct Hw as [(_ & _ & [f Hf]) _].
  assert (disk w1 = disk w) as D1.
  { eapply (physmem_write_obs slot_get); [apply slot_ph_set|apply slot_sc_access|apply slot_gdb_event|done|done|exact E1]. }
  destruct (disk_finish_run w1) as (w2 & E2 & D2 & P2 & S2); [by rewrite D1|]. rewrite D1 in D2, S2.
  exists w2, im. rewrite P2. by split_and!.
Qed.

Lemma step_write_run w : takes_irq (disk w) →
  disk_wf (disk w) → action (disk w) = ACTION_WRITE → phys_wf (ph_get w) →
  mapped_at (ph_get w) (disk_ptr (disk w)) →
  ∃ w' im, ddisk_step w = Done (tt, w') ∧ img (disk w) = Some im ∧
    let pos := secno (disk w) * 128 + cnt (disk w) in
    disk w' = completed (advanced ((disk w)
      <| img := Some (put_word im pos (word_at (ph_get w) (disk_ptr (disk w)))) |>)) ∧
    same_store (ph_get w) (ph_get w') ∧
    (cnt (advanced (disk w)) = 128 → uses_busy_bit (disk w) = false → signalled w' (disk w)).
Proof.
  intros Hok Hwf Ha Hpwf Hm. assert (action (disk w) ≠ ACTION_NONE) as Hn by by rewrite Ha.
  destruct (pos_in_image _ Hwf Hn) as (Ew & Hp0 & Hp1).
  destruct (in_transfer_typed _ Hwf Hn) as (im & Ei & Hl & Hb).
  unfold ddisk_step, dev. rewrite (bind_Done _ _ _ _ _ eq_refl), Ha, Ew.
  destruct (read32_run NO_CPU (disk_ptr (disk w)) true w Hpwf Hm) as (w1 & E1 & Hs).
  rewrite (bind_Done _ _ _ _ _ E1). destruct Hm as (_ & _ & [f Hf]).
  assert (disk w1 = disk w) as D1.
  { eapply (physmem_read_obs slot_get); [apply slot_ph_set|apply slot_gdb_event|done|done|].
    unfold physmem_read32 in E1. exact E1. }
  unfold img_write at 1, dev. msimpl. rewrite D1, Ei.
  replace ((0 <=? secno (disk w) * 128 + cnt (disk w)) &&
    (4 * (secno (disk w) * 128 + cnt (disk w)) + 4 <=? img_len im)) with true by lia.
  edestruct (dev_modify_run (λ d, d <| img := Some (put_word im (secno (disk w) * 128 + cnt (disk w))
    (word_at (ph_get w) (disk_ptr (disk w)))) |>) w1) as (w2 & E2 & D2 & P2 & _).
  rewrite E2. destruct (disk_finish_run w2) as (w3 & E3 & D3 & P3 & S3); [by rewrite D2, D1|]. rewrite D2, D1 in D3, S3.
  exists w3, im. split_and!; [exact E3|done|exact D3|by rewrite P3, P2|exact S3].
Qed.
End Runs.

(** ** Transfers *)

(** The disk before word [k] of a transfer that it began as [d]. *)
Definition at_word (d : disk_data) (k : Z) : disk_data :=
  d <| disk_ptr := disk_ptr d + 4 * k |> <| cnt := k |>.

Lemma at_word_0 d : cnt d = 0 → at_word d 0 = d.
Proof. intros E. unfold at_word. rewrite Z.mul_0_r, Z.add_0_r. destruct d. cbn in *. by subst. Qed.

Lemma at_word_next d k : 0 ≤ disk_ptr d → disk_ptr d + 512 ≤ PHYS_LIMIT → 0 ≤ k < 128 →
  advanced (at_word d k) = at_word d (k + 1).
Proof.
  intros Hp Hl Hk. unfold advanced, at_word. cbn. unfold PHYS_LIMIT in Hl.
  rewrite !wrap_small by (unfold in_width; lia).
  replace (disk_ptr d + 4 * k + 4) with (disk_ptr d + 4 * (k + 1)) by lia. done.
Qed.

Lemma at_word_running d k : k ≠ 128 → completed (at_word d k) = at_word d k.
Proof. intros Hk. unfold completed. cbn. by replace (k =? 128) with false by lia. Qed.

Lemma at_word_wf d k : disk_wf d → 0 ≤ disk_ptr d → disk_ptr d + 512 ≤ PHYS_LIMIT → 0 ≤ k < 128 →
  disk_wf (at_word d k).
Proof.
  intros Hd Hp Hl Hk. unfold PHYS_LIMIT in Hl. split_wf Hd.
  - unfold in_width. lia.
  - intros Ha. destruct (Hw8 Ha) as (Hs & Hb & _). lia.
Qed.

Lemma completed_idle d :
  action (completed (at_word d 128)) = ACTION_NONE ∧
  Z.testbit (disk_status (completed (at_word d 128))) 4 = false ∧ img (completed (at_word d 128)) = img d.
Proof.
  unfold completed, raised. cbn -[Z.testbit]. destruct (uses_busy_bit d); cbn -[Z.testbit];
    (split_and!; [done| |done]).
  - by rewrite Z.land_spec, andb_false_r.
  - by rewrite Z.lor_spec, Z.land_spec, andb_false_r.
Qed.

Section Transfer.
Context {W F : Type} `{SlotLaws W F disk_data} `{!PhysHostLaws W}.
Implicit Types w : W.

(** A step of the rest of the machine: it leaves the disk and the 512 bytes at
    [base] alone and unmaps nothing. *)
Record others (base : Z) (w w' : W) : Prop := {
  ot_disk : (slot_get w' : disk_data) = slot_get w;
  ot_wf : phys_wf (ph_get w) → phys_wf (ph_get w');
  ot_writable : ∀ x, writable_at (ph_get w) x → writable_at (ph_get w') x;
  ot_mapped : ∀ x, mapped_at (ph_get w) x → mapped_at (ph_get w') x;
  ot_buffer : ∀ x, base ≤ x < base + 512 → byte_at (ph_get w') x = byte_at (ph_get w) x
}.

(** [k] steps of the disk, interleaved with steps of the rest of the machine. *)
Inductive dma_run (base : Z) (w : W) : Z → W → Prop :=
  | dma_start : dma_run base w 0 w
  | dma_other k w1 w2 : dma_run base w k w1 → others base w1 w2 → dma_run base w k w2
  | dma_disk k w1 w2 : dma_run base w k w1 → ddisk_step w1 = Done (tt, w2) → dma_run base w (k + 1) w2.

Lemma dma_run_pos base w k w1 : dma_run base w k w1 → 0 ≤ k.
Proof. induction 1; lia. Qed.

(** A transfer that has just begun. *)
Record begun (act : action_e) (ok : physmem → Z → Prop) (base : Z) (w : W) : Prop := {
  bg_wf : disk_wf (slot_get w);
  bg_irq : takes_irq (W:=W) (slot_get w);
  bg_action : action (slot_get w) = act;
  bg_cnt : cnt (slot_get w) = 0;
  bg_ptr : disk_ptr (slot_get w) = base;
  bg_phys : phys_wf (ph_get w);
  bg_limit : 0 ≤ base ∧ base + 512 ≤ PHYS_LIMIT;
  bg_buffer : ∀ i, 0 ≤ i < 128 → ok (ph_get w) (base + 4 * i)
}.

Lemma word_buffer base p p' i :
  (∀ x, base ≤ x < base + 512 → byte_at p' x = byte_at p x) → 0 ≤ i < 128 →
  word_at p' (base + 4 * i) = word_at p (base + 4 * i).
Proof. intros Hb Hi. apply word_at_frame. intros k Hk. apply Hb. lia. Qed.

(** ** Reading a sector *)
Record reading (base : Z) (w : W) (im : image) (k : Z) (w1 : W) : Prop := {
  rd_disk : slot_get w1 = completed (at_word (slot_get w) k);
  rd_phys : phys_wf (ph_get w1);
  rd_buffer : ∀ i, 0 ≤ i < 128 → writable_at (ph_get w1) (base + 4 * i);
  rd_words : ∀ i, 0 ≤ i < k → word_at (ph_get w1) (base + 4 * i) =
    img_word im (secno (slot_get w) * 128 + i)
}.

Lemma reading_step base w im k w1 :
  begun ACTION_READ writable_at base w → img (slot_get w) = Some im → 0 ≤ k < 128 →
  reading base w im k w1 →
  ∃ w2, ddisk_step w1 = Done (tt, w2) ∧ reading base w im (k + 1) w2 ∧
    (k = 127 → uses_busy_bit (slot_get w) = false → signalled w2 (slot_get w)).
Proof.
  intros [Hwf Hok Ha Hc Hp Hpw [Hl0 Hl1] _] Ei Hk [Rd Rp Rb Rw]. rewrite <- Hp in Hl0, Hl1.
  rewrite at_word_running in Rd by lia.
  destruct (step_read_run w1) as (w2 & im' & E & Ei' & D & P & Hword & Hother & Hwr & Hsig);
    rewrite ?Rd in *; [done|by apply at_word_wf|done|done|cbn; rewrite Hp; by apply Rb|].
  cbn in Ei', Hword, Hother. rewrite Ei in Ei'. injection Ei' as <-. rewrite Hp in Hword, Hother.
  rewrite at_word_next in D, Hsig by lia. exists w2. split_and!; [done| |].
  - split; [done|done|by auto|]. intros i Hi. destruct (Z.eq_dec i k) as [-> | Hne]; [done|].
    rewrite <- (Rw i) by lia. apply word_at_frame. intros j Hj. apply Hother; lia.
  - intros -> Hb. by apply Hsig.
Qed.

Lemma reading_run base w im k w1 :
  begun ACTION_READ writable_at base w → img (slot_get w) = Some im →
  dma_run base w k w1 → k ≤ 128 → reading base w im k w1.
Proof.
  intros Hbg Ei Hrun. induction Hrun as [|k w1 w2 Hrun IH Ho|k w1 w2 Hrun IH E]; intros Hk.
  - split; [|by apply (bg_phys _ _ _ _ Hbg)|apply (bg_buffer _ _ _ _ Hbg)|lia].
    rewrite at_word_running by lia. symmetry. apply at_word_0, (bg_cnt _ _ _ _ Hbg).
  - destruct (IH Hk) as [Rd Rp Rb Rw]. destruct Ho as [Od Ow Owr _ Ob]. pose proof (dma_run_pos _ _ _ _ Hrun).
    split; [by rewrite Od|by auto|by auto|]. intros i Hi. rewrite (word_buffer base (ph_get w1)) by (done || lia).
    by apply Rw.
  - pose proof (dma_run_pos _ _ _ _ Hrun).
    destruct (reading_step base w im k w1 Hbg Ei ltac:(lia) (IH ltac:(lia))) as (w2' & E' & Hr & _).
    rewrite E in E'. by injection E' as <-.
Qed.

(** ** Writing a sector *)
Lemma completed_img d i : completed (d <| img := i |>) = (completed d) <| img := i |>.
Proof. unfold completed, raised. cbn. destruct (cnt d =? 128); [|done]. by destruct (uses_busy_bit d). Qed.

Record writing (base : Z) (w : W) (im : image) (k : Z) (w1 : W) (im1 : image) : Prop := {
  wr_disk : slot_get w1 = (completed (at_word (slot_get w) k)) <| img := Some im1 |>;
  wr_phys : phys_wf (ph_get w1);
  wr_buffer : ∀ i, 0 ≤ i < 128 → mapped_at (ph_get w1) (base + 4 * i);
  wr_same : ∀ x, base ≤ x < base + 512 → byte_at (ph_get w1) x = byte_at (ph_get w) x;
  wr_len : img_len im1 = img_len im;
  wr_bytes : ∀ x, let off := x - secno (slot_get w) * 512 in
    img_bytes im1 x =
      if decide (0 ≤ off < 4 * k) then default 0 (byte_at (ph_get w) (base + off)) else img_bytes im x
}.

Lemma writing_step base w im k w1 im1 :
  begun ACTION_WRITE mapped_at base w → img (slot_get w) = Some im → 0 ≤ k < 128 →
  writing base w im k w1 im1 →
  ∃ w2 im2, ddisk_step w1 = Done (tt, w2) ∧ writing base w im (k + 1) w2 im2 ∧
    (k = 127 → uses_busy_bit (slot_get w) = false → signalled w2 (slot_get w)).
Proof.
  intros [Hwf Hok Ha Hc Hp Hpw [Hl0 Hl1] _] Ei Hk [Rd Rp Rb Rs Rl Rw]. rewrite <- Hp in Hl0, Hl1.
  rewrite at_word_running in Rd by lia. pose proof (in_transfer_typed _ Hwf) as Hty.
  destruct Hty as (im' & Ei' & Him & Hbytes); [by rewrite Ha|]. rewrite Ei in Ei'. injection Ei' as <-.
  assert (disk_wf ((at_word (slot_get w) k) <| img := Some im1 |>)) as Hwf1.
  { pose proof (at_word_wf _ k Hwf Hl0 Hl1 Hk) as Hwk. split_wf Hwk. intros _. exists im1.
    split_and!; [done|by rewrite Rl|]. intros x. rewrite Rw. cbv zeta. case_decide; [|done].
    apply byte_at_width. apply Hpw. }
  destruct (step_write_run w1) as (w2 & im' & E & Ei' & D & S & Hsig);
    rewrite ?Rd in *; [done|done|done|done|cbn; rewrite Hp; by apply Rb|].
  cbn -[word_at] in Ei', D. injection Ei' as <-. rewrite Hp in D.
  eexists w2, _. split_and!; [done| |].
  - split.
    + rewrite D, <- completed_img. f_equal. rewrite <- at_word_next by lia. unfold advanced. cbn -[word_at].
      rewrite Hp. reflexivity.
    + by eapply same_store_wf.
    + intros i Hi. eapply same_store_mapped; [done|]. by apply Rb.
    + intros x Hx. rewrite (same_store_bytes _ _ _ S). by apply Rs.
    + done.
    + intros x off. unfold put_word. cbn [img_bytes].
      change (secno (at_word (slot_get w) k)) with (secno (slot_get w)).
      change (cnt (at_word (slot_get w) k)) with k.
      assert ((4 * (secno (slot_get w) * 128 + k) <=? x) && (x <? 4 * (secno (slot_get w) * 128 + k) + 4)
        = bool_decide (4 * k ≤ off < 4 * k + 4)) as ->.
      { apply Bool.eq_iff_eq_true. rewrite andb_true_iff, bool_decide_eq_true. subst off. lia. }
      case_bool_decide as Ho.
      * rewrite decide_True by lia. unfold word_at.
        replace (x - 4 * (secno (slot_get w) * 128 + k)) with (off - 4 * k) by lia.
        rewrite le_byte_join by (lia || (intros; by apply byte_at_width)).
        replace (base + 4 * k + (off - 4 * k)) with (base + off) by lia. rewrite Rs by lia. done.
      * rewrite Rw. fold off. cbv zeta. repeat case_decide; (done || lia).
  - intros -> Hb. apply Hsig; [reflexivity|exact Hb].
Qed.

Lemma writing_run base w im k w1 :
  begun ACTION_WRITE mapped_at base w → img (slot_get w) = Some im →
  dma_run base w k w1 → k ≤ 128 → ∃ im1, writing base w im k w1 im1.
Proof.
  intros Hbg Ei Hrun. induction Hrun as [|k w1 w2 Hrun IH Ho|k w1 w2 Hrun IH E]; intros Hk.
  - exists im. split; [|by apply (bg_phys _ _ _ _ Hbg)|apply (bg_buffer _ _ _ _ Hbg)|done|done|].
    + rewrite at_word_running, at_word_0 by (lia || apply (bg_cnt _ _ _ _ Hbg)).
      rewrite <- Ei. by destruct (slot_get w).
    + intros x off. by rewrite decide_False by lia.
  - destruct (IH Hk) as (im1 & [Rd Rp Rb Rs Rl Rw]). destruct Ho as [Od Ow _ Om Ob].
    exists im1. split; [by rewrite Od|by auto|by auto| |done|done].
    intros x Hx. rewrite Ob by lia. by apply Rs.
  - pose proof (dma_run_pos _ _ _ _ Hrun). destruct (IH ltac:(lia)) as (im1 & Hw1).
    destruct (writing_step base w im k w1 im1 Hbg Ei ltac:(lia) Hw1) as (w2' & im2 & E' & Hr & _).
    rewrite E in E'. injection E' as <-. by exists im2.
Qed.
End Transfer.

(** ** Operations in any order *)
Inductive disk_op :=
  | OpWrite (procno a val : Z)
  | OpStep
  | OpGeneric (sz : Z)
  | OpFmap (file : host_file)
  | OpFill (parm : token)
  | OpLoad (file : host_file) (rd : Z).

Section Ops.
Context {W F : Type} `{SlotLaws W F disk_data} `{!PhysHostLaws W}.
Implicit Types w : W.

Definition on_disk {A} (f : disk_data → outcome (A * disk_data)) : st W A := λ w,
  match f (slot_get w) with Done (a, d) => Done (a, slot_set d w) | Stop e => Stop e end.

Definition disk_run (op : disk_op) : st W unit :=
  match op with
  | OpWrite procno a val => ddisk_write32 procno a val
  | OpStep => ddisk_step
  | OpGeneric sz => on_disk (λ d, Done (ddisk_generic sz d));; mret tt
  | OpFmap file => on_disk (λ d, Done (ddisk_fmap file d));; mret tt
  | OpFill parm => on_disk (ddisk_fill parm);; mret tt
  | OpLoad file rd => on_disk (ddisk_load file rd);; mret tt
  end.

Definition file_ok (file : host_file) : Prop :=
  match file with
  | Some f => 0 ≤ img_len f < 2 ^ 64 ∧ ∀ k, in_width 8 (img_bytes f k)
  | None => True
  end.

(** The memory access of a step returns; where it reaches a device it may change
    the disk the way a register write does. *)
Definition dma_ok w : Prop :=
  let kept w1 := disk_wf (slot_get w1) ∧ same_transfer (slot_get w) (slot_get w1) in
  match action (slot_get w) with
  | ACTION_NONE => True
  | ACTION_READ => ∀ v, in_width 32 v → ∃ b w1,
      physmem_write32 NO_CPU (disk_ptr (slot_get w)) v true w = Done (b, w1) ∧ kept w1
  | ACTION_WRITE => ∃ v w1,
      physmem_read32 NO_CPU (disk_ptr (slot_get w)) true w = Done (v, w1) ∧ in_width 32 v ∧ kept w1
  end.

Definition op_ok (op : disk_op) w : Prop :=
  match op with
  | OpWrite _ _ val => in_width 32 val
  | OpStep => dma_ok w
  | OpGeneric sz => 0 ≤ sz < 2 ^ 64
  | OpFmap file | OpLoad file _ => file_ok file
  | OpFill parm => ∀ i, parm = tt_uint i → 0 ≤ i
  end.

Lemma on_disk_wf {A} (f : disk_data → outcome (A * disk_data)) w :
  (∃ a d, f (slot_get w) = Done (a, d) ∧ disk_wf d ∧ same_irq (slot_get w) d) →
  ∃ w', (on_disk f;; mret tt) w = Done (tt, w') ∧ disk_wf (slot_get w') ∧ same_irq (slot_get w) (slot_get w').
Proof.
  intros (a & d & E & Hd). exists (slot_set d w). unfold on_disk. msimpl. rewrite E.
  by rewrite slot_get_set.
Qed.

Lemma fill_total parm d : disk_wf d → ∃ r, ddisk_fill parm d = Done r.
Proof.
  intros Hd. unfold ddisk_fill. destruct (fill_char parm); [|by eexists].
  destruct (Z.eqb_spec (size d) 0); [by eexists|].
  destruct (wf_image _ Hd) as (im & -> & -> & _); [intros E; by destruct (wf_none _ Hd E)|].
  rewrite Z.leb_refl. by eexists.
Qed.

Lemma load_total f rd d : disk_wf d → ∃ r, ddisk_load (Some f) rd d = Done r.
Proof.
  intros Hd. unfold ddisk_load. case_bool_decide; [by eexists|].
  destruct (img_len f =? 0); [by eexists|]. destruct (Z.ltb_spec (size d) (img_len f)); [by eexists|].
  destruct (wf_image _ Hd) as (im & -> & -> & _); [done|]. replace (img_len f <=? size d) with true by lia.
  by eexists.
Qed.

Lemma takes_same_irq (d d' : disk_data) : same_irq d d' → takes_irq (W:=W) d → takes_irq (W:=W) d'.
Proof. intros [E1 E2] Ht. unfold takes_irq. by rewrite E1, E2. Qed.

Lemma step_wf w : takes_irq (W:=W) (slot_get w) → disk_wf (slot_get w) → dma_ok w →
  ∃ w', ddisk_step w = Done (tt, w') ∧ disk_wf (slot_get w') ∧ same_irq (slot_get w) (slot_get w').
Proof.
  intros Hok Hwf Hdma. unfold dma_ok in Hdma. unfold ddisk_step, dev. rewrite (bind_Done _ _ _ _ _ eq_refl).
  destruct (action (slot_get w)) eqn:Ha; [by exists w|..].
  - assert (action (slot_get w) ≠ ACTION_NONE) as Hn by by rewrite Ha.
    destruct (pos_in_image _ Hwf Hn) as (Ew & Hp0 & Hp1).
    destruct (in_transfer_typed _ Hwf Hn) as (im & Ei & Hl & Hb). rewrite Ew.
    rewrite (bind_Done _ _ _ _ _ (img_read_run w im _ Ei Hp0 ltac:(lia))).
    destruct (Hdma (img_word im (secno (slot_get w) * 128 + cnt (slot_get w))))
      as (b & w1 & E1 & Hwf1 & Hs); [by apply img_word_width|]. rewrite (bind_Done _ _ _ _ _ E1).
    pose proof (same_transfer_irq _ _ Hs) as [I1 I2].
    destruct (disk_finish_run w1) as (w2 & E2 & D2 & _); [by eapply takes_same_irq|].
    destruct (completed_irq (slot_get w1)) as [J1 J2]. exists w2. split; [done|]. rewrite D2. split.
    + apply completed_wf; [done|]. by rewrite (proj1 Hs).
    + split; congruence.
  - assert (action (slot_get w) ≠ ACTION_NONE) as Hn by by rewrite Ha.
    destruct (pos_in_image _ Hwf Hn) as (Ew & Hp0 & Hp1).
    destruct (in_transfer_typed _ Hwf Hn) as (im & Ei & Hl & Hb). rewrite Ew.
    destruct Hdma as (v & w1 & E1 & Hv & Hwf1 & Ha1 & Hs1 & Hc1 & Hz1 & Hi1 & _ & Hb1 & Hn1).
    rewrite (bind_Done _ _ _ _ _ E1). unfold img_write at 1, dev. msimpl. rewrite Hi1, Ei.
    replace ((0 <=? secno (slot_get w) * 128 + cnt (slot_get w)) &&
      (4 * (secno (slot_get w) * 128 + cnt (slot_get w)) + 4 <=? img_len im)) with true by lia.
    edestruct (dev_modify_run (λ d, d <| img := Some (put_word im
      (secno (slot_get w) * 128 + cnt (slot_get w)) v) |>) w1) as (w2 & E2 & D2 & _).
    rewrite E2. destruct (disk_finish_run w2) as (w3 & E3 & D3 & _); [by apply (takes_same_irq (slot_get w)); [rewrite D2|]|].
    destruct (completed_irq (slot_get w2)) as [J1 J2]. rewrite D2 in J1, J2. cbn in J1, J2.
    exists w3. split; [exact E3|]. rewrite D3, D2. split.
    + apply completed_wf; [|cbn; congruence]. apply put_word_wf; [done|congruence|done].
    + split; congruence.
Qed.

Lemma disk_run_wf op w : op_ok op w → takes_irq (W:=W) (slot_get w) → disk_wf (slot_get w) →
  ∃ w', disk_run op w = Done (tt, w') ∧ disk_wf (slot_get w') ∧ same_irq (slot_get w) (slot_get w').
Proof.
  intros Hok Hirq Hwf. destruct (image_commands_irq (slot_get w)) as (I1 & I2 & I3 & I4). destruct op as [procno a val| |sz|file|parm|file rd]; cbn [op_ok disk_run] in *.
  - destruct (disk_write_run procno a val w Hirq (wf_secno _ Hwf)) as (w' & E & D & _). exists w'.
    rewrite D. split_and!; [done|by apply written_wf|apply written_irq].
  - by apply step_wf.
  - apply on_disk_wf. pose proof (generic_wf sz _ Hok Hwf). specialize (I1 sz). destruct (ddisk_generic sz (slot_get w)) as [a d].
    by exists a, d.
  - apply on_disk_wf. destruct file as [f|]; [|by eexists _, _]. destruct Hok as [Hl Hb].
    pose proof (fmap_wf f _ Hl Hb Hwf). specialize (I2 (Some f)). destruct (ddisk_fmap (Some f) (slot_get w)) as [a d]. by exists a, d.
  - apply on_disk_wf. destruct (fill_total parm _ Hwf) as [[a d] E]. exists a, d. split_and!; [done| |by apply (I3 _ _ E)].
    by apply (fill_wf parm (slot_get w) (a, d)).
  - apply on_disk_wf. destruct file as [f|].
    + destruct Hok as [_ Hb]. destruct (load_total f rd _ Hwf) as [[a d] E]. exists a, d. split_and!; [done| |by apply (I4 _ _ _ E)].
      by apply (load_wf f rd (slot_get w) (a, d)).
    + exists false, (slot_get w). split_and!; [|done|done]. unfold ddisk_load. by case_bool_decide.
Qed.
End Ops.

(** ** Properties *)
Section Claims.
Context {W F : Type} `{SlotLaws W F disk_data} `{!PhysHostLaws W}.
Implicit Types w : W.

(** An idle disk whose sector register is in range, with a 512-byte buffer. *)
Record idle (ok : physmem → Z → Prop) (base : Z) w : Prop := {
  id_wf : disk_wf (slot_get w);
  id_irq : takes_irq (W:=W) (slot_get w);
  id_type : disk_type (slot_get w) ≠ DISKT_NONE;
  id_action : action (slot_get w) = ACTION_NONE;
  id_sector : (disk_secno (slot_get w) + 1) * 512 ≤ size (slot_get w);
  id_ptr : disk_ptr (slot_get w) = base;
  id_phys : phys_wf (ph_get w);
  id_limit : 0 ≤ base ∧ base + 512 ≤ PHYS_LIMIT;
  id_buffer : ∀ i, 0 ≤ i < 128 → ok (ph_get w) (base + 4 * i)
}.

Lemma reg_offset_command d :
  ∀ A (x1 x2 x3 x4 x5 : A),
  (if reg_offset (addr d + REGISTER_COMMAND) (addr d) =? REGISTER_ADDR_LO then x1
   else if reg_offset (addr d + REGISTER_COMMAND) (addr d) =? REGISTER_ADDR_HI then x2
   else if reg_offset (addr d + REGISTER_COMMAND) (addr d) =? REGISTER_SECNO then x3
   else if reg_offset (addr d + REGISTER_COMMAND) (addr d) =? REGISTER_COMMAND then x4 else x5) = x4.
Proof. intros. unfold reg_offset. rewrite Z.add_simpl_l. done. Qed.

Lemma in_range_image {ok base w} : idle ok base w → ∃ im, img (slot_get w) = Some im.
Proof. intros [Hwf _ Ht _ _ _ _ _ _]. destruct (wf_image _ Hwf Ht) as (im & Ei & _). by exists im. Qed.

Definition command_of (act : action_e) : Z :=
  match act with ACTION_READ => COMMAND_READ | ACTION_WRITE => COMMAND_WRITE | ACTION_NONE => 0 end.

Lemma commanded_start act d :
  act ≠ ACTION_NONE → refused (command_of act) (received (command_of act) d) = false →
  ∃ n m, commanded (command_of act) d =
    (start_action act (d <| disk_command := command_of act |>)) <| cmds_read := n |> <| cmds_write := m |>.
Proof.
  intros Hact Hr. unfold commanded. rewrite Hr.
  destruct act; [done|exists (wrap 64 (cmds_read d + 1)), (cmds_write d)
    |exists (cmds_read d), (wrap 64 (cmds_write d + 1))]; by destruct d.
Qed.

Lemma idle_begun act ok base procno w :
  act ≠ ACTION_NONE → idle ok base w →
  ∃ w', ddisk_write32 procno (addr (slot_get w) + REGISTER_COMMAND) (command_of act) w = Done (tt, w') ∧
    begun act ok base w' ∧ Z.testbit (disk_status (slot_get w')) 4 = true ∧
    secno (slot_get w') = disk_secno (slot_get w) ∧ img (slot_get w') = img (slot_get w) ∧
    cpuid (slot_get w') = cpuid (slot_get w) ∧ intno (slot_get w') = intno (slot_get w) ∧
    uses_busy_bit (slot_get w') = uses_busy_bit (slot_get w) ∧ ph_get w' = ph_get w.
Proof.
  intros Hact [Hwf Hok Ht Ha Hs Hp Hph Hl Hb].
  destruct (disk_write_run procno (addr (slot_get w) + REGISTER_COMMAND) (command_of act) w Hok (wf_secno _ Hwf))
    as (w' & E & D & P). exists w'. rewrite D.
  assert (in_width 32 (command_of act)) as Hv by (destruct act; vm_compute; split; congruence).
  pose proof (written_wf (addr (slot_get w) + REGISTER_COMMAND) _ _ Hv Hwf) as Hwf'. revert Hwf' D.
  unfold written. rewrite bool_decide_eq_false_2 by done. cbv zeta.
  rewrite reg_offset_command.
  assert (refused (command_of act) (received (command_of act) (slot_get w)) = false) as Hr.
  { unfold refused. destruct (received_same (command_of act) (slot_get w)) as (-> & _ & _ & -> & _).
    rewrite received_secno, Ha, bool_decide_eq_true_2, andb_false_r, orb_false_r by done.
    apply orb_false_iff. split; [by destruct act|]. lia. }
  destruct (commanded_start act (slot_get w) Hact Hr) as (n & m & ->). intros Hwf' D.
  split_and!; [done| |cbn -[Z.testbit]; by rewrite Z.lor_spec, orb_true_r|done..].
  split; rewrite ?D, ?P; done.
Qed.

(** C36: A read command on an idle disk with the sector in range, whose interrupt the
    processors have unless the disk is polled, succeeds: it sets
    the busy bit, every one of the next 128 disk steps returns, however they are
    interleaved with steps of the rest of the machine that leave the buffer alone,
    the last of them raises the interrupt of the disk (unless it is polled), and
    after it the 512 bytes at the DMA address are the sector of the image, the
    disk is idle and the busy bit is clear. *)
Theorem disk_read_transfer base procno w :
  idle writable_at base w →
  ∃ w0 im, ddisk_write32 procno (addr (slot_get w) + REGISTER_COMMAND) COMMAND_READ w = Done (tt, w0) ∧
    img (slot_get w) = Some im ∧ Z.testbit (disk_status (slot_get w0)) 4 = true ∧
    (∀ k w1, dma_run base w0 k w1 → k < 128 → ∃ w2, ddisk_step w1 = Done (tt, w2) ∧
      (k = 127 → uses_busy_bit (slot_get w) = false → signalled w2 (slot_get w))) ∧
    (∀ w1, dma_run base w0 128 w1 →
      (∀ i, 0 ≤ i < 128 → word_at (ph_get w1) (base + 4 * i) =
        img_word im (disk_secno (slot_get w) * 128 + i)) ∧
      action (slot_get w1) = ACTION_NONE ∧ Z.testbit (disk_status (slot_get w1)) 4 = false ∧
      img (slot_get w1) = Some im).
Proof.
  intros Hid. destruct (in_range_image Hid) as (im & Ei).
  destruct (idle_begun ACTION_READ writable_at base procno w) as
    (w0 & E & Hbg & Hbusy & Es & Eim & Ec & En & Eu & _); [done|done|]. exists w0, im.
  rewrite Ei in Eim. split_and!; [done|done|done|..].
  - intros k w1 Hrun Hk. pose proof (dma_run_pos _ _ _ _ Hrun).
    destruct (reading_step base w0 im k w1 Hbg Eim ltac:(lia)) as (w2 & E2 & _ & Hsig);
      [apply reading_run; (done || lia)|].
    exists w2. split; [done|]. intros Hk' Hu. rewrite <- Eu in Hu. specialize (Hsig Hk' Hu).
    unfold signalled in *. by rewrite <- Ec, <- En.
  - intros w1 Hrun. destruct (reading_run base w0 im 128 w1 Hbg Eim Hrun) as [Rd _ _ Rw]; [done|].
    rewrite Es in Rw. split; [done|]. rewrite Rd, <- Eim. apply completed_idle.
Qed.

(** A write command stores the buffer in the sector: after the 128 steps the
    512 bytes of the sector are the 512 bytes at the DMA address and every other
    byte of the image is unchanged; the disk is idle and not busy. *)
Theorem disk_write_transfer base procno w :
  idle mapped_at base w →
  ∃ w0 im, ddisk_write32 procno (addr (slot_get w) + REGISTER_COMMAND) COMMAND_WRITE w = Done (tt, w0) ∧
    img (slot_get w) = Some im ∧ Z.testbit (disk_status (slot_get w0)) 4 = true ∧
    (∀ k w1, dma_run base w0 k w1 → k < 128 → ∃ w2, ddisk_step w1 = Done (tt, w2) ∧
      (k = 127 → uses_busy_bit (slot_get w) = false → signalled w2 (slot_get w))) ∧
    (∀ w1, dma_run base w0 128 w1 →
      (∃ im1, img (slot_get w1) = Some im1 ∧ img_len im1 = img_len im ∧
        ∀ x, img_bytes im1 x =
          let off := x - disk_secno (slot_get w) * 512 in
          if decide (0 ≤ off < 512) then default 0 (byte_at (ph_get w) (base + off))
          else img_bytes im x) ∧
      action (slot_get w1) = ACTION_NONE ∧ Z.testbit (disk_status (slot_get w1)) 4 = false).
Proof.
  intros Hid. destruct (in_range_image Hid) as (im & Ei).
  destruct (idle_begun ACTION_WRITE mapped_at base procno w) as
    (w0 & E & Hbg & Hbusy & Es & Eim & Ec & En & Eu & P0); [done|done|]. exists w0, im.
  rewrite Ei in Eim. split_and!; [done|done|done|..].
  - intros k w1 Hrun Hk. pose proof (dma_run_pos _ _ _ _ Hrun).
    destruct (writing_run base w0 im k w1 Hbg Eim Hrun ltac:(lia)) as (im1 & Hwr).
    destruct (writing_step base w0 im k w1 im1 Hbg Eim ltac:(lia) Hwr) as (w2 & im2 & E2 & _ & Hsig).
    exists w2. split; [done|]. intros Hk' Hu. rewrite <- Eu in Hu. specialize (Hsig Hk' Hu).
    unfold signalled in *. by rewrite <- Ec, <- En.
  - intros w1 Hrun. destruct (writing_run base w0 im 128 w1 Hbg Eim Hrun) as (im1 & [Rd _ _ _ Rl Rw]); [done|].
    rewrite Es, P0 in Rw. split.
    + exists im1. rewrite Rd. split_and!; [done|done|]. intros x. by rewrite Rw.
    + rewrite Rd. destruct (completed_idle (slot_get w0)) as (Ea & Eb & _). exact (conj Ea Eb).
Qed.

(** C37: Whatever the guest and the user do to a disk whose interrupt the processors
    have (register writes, machine cycles, new images, fills, loads), the operation
    returns and the invariant is kept: the current sector of a transfer lies inside
    the image and the word counter stays below 128, so no image access is out of
    bounds.  A machine cycle may reach a device with its memory access, which is
    assumed to return and to change the disk at most as register writes do. *)
Theorem disk_keeps_wf op w : op_ok op w → takes_irq (W:=W) (slot_get w) → disk_wf (slot_get w) →
  ∃ w', disk_run op w = Done (tt, w') ∧ disk_wf (slot_get w') ∧ takes_irq (W:=W) (slot_get w').
Proof.
  intros Hok Hirq Hwf. destruct (disk_run_wf op w Hok Hirq Hwf) as (w' & E & Hwf' & Hs). exists w'.
  split_and!; [done|done|]. by eapply takes_same_irq.
Qed.

(** A disk may be given an interrupt that its processor does not have: then the step
    that completes a transfer fails the assertion of the processor. *)
Theorem disk_irq_refused w c : disk_wf (slot_get w) → action (slot_get w) = ACTION_READ →
  cnt (slot_get w) = 127 → uses_busy_bit (slot_get w) = false → 0 ≤ intno (slot_get w) → phys_wf (ph_get w) →
  writable_at (ph_get w) (disk_ptr (slot_get w)) →
  (∀ v b w1, physmem_write32 NO_CPU (disk_ptr (slot_get w)) v true w = Done (b, w1) →
     irq_target (cpuid (slot_get w)) (ch_cpus w1) = Some c) → ch_accepts (type c) (intno (slot_get w)) = false →
  ddisk_step w = Stop AssertFailed.
Proof.
  intros Hwf Ha Hcnt Hbb Hno Hp Hw Ht Hr. assert (action (slot_get w) ≠ ACTION_NONE) as Hn by by rewrite Ha.
  destruct (pos_in_image _ Hwf Hn) as (Ew & Hp0 & Hp1).
  destruct (in_transfer_typed _ Hwf Hn) as (im & Ei & Hl & Hb).
  unfold ddisk_step, dev. rewrite (bind_Done _ _ _ _ _ eq_refl), Ha, Ew.
  rewrite (bind_Done _ _ _ _ _ (img_read_run w im _ Ei Hp0 ltac:(lia))).
  edestruct (write32_run NO_CPU (disk_ptr (slot_get w)) (img_word im (secno (slot_get w) * 128 + cnt (slot_get w))) true w)
    as (w1 & E1 & _); [done|done|by apply img_word_width|].
  rewrite (bind_Done _ _ _ _ _ E1). destruct Hw as [(_ & _ & [f Hf]) _].
  assert ((slot_get w1 : disk_data) = slot_get w) as D1.
  { eapply (physmem_write_obs slot_get); [apply slot_ph_set|apply slot_sc_access|apply slot_gdb_event|done|done|exact E1]. }
  unfold next_word. edestruct (dev_modify_run advanced w1) as (w2 & E2 & D2 & _ & C2 & _). rewrite (bind_Done _ _ _ _ _ E2).
  unfold finish_transfer, dev. rewrite (bind_Done _ _ _ _ _ eq_refl), D2, D1.
  change (cnt (advanced (slot_get w))) with (wrap 64 (cnt (slot_get w) + 1)). rewrite Hcnt.
  change (wrap 64 (127 + 1) =? 128) with true. cbv iota.
  edestruct (dev_modify_run (λ d, d <| action := ACTION_NONE |>
        <| disk_status := Z.land (disk_status d) (c_not 32 STATUS_BUSY) |>) w2) as (w3 & E3 & D3 & _ & C3 & _).
  rewrite (bind_Done _ _ _ _ _ E3). unfold disk_raise, dev. rewrite (bind_Done _ _ _ _ _ eq_refl).
  rewrite D3, D2, D1. cbn [uses_busy_bit]. change (uses_busy_bit _) with (uses_busy_bit (slot_get w)). rewrite Hbb.
  edestruct (dev_modify_run (λ d, d <| disk_status := Z.lor (disk_status d) STATUS_INT |>) w3) as (w4 & E4 & _ & _ & C4 & _).
  rewrite (bind_Done _ _ _ _ _ E4). apply bind_Stop. eapply raise_on_refused; [|done|done]. rewrite C4, C3, C2. by eapply Ht.
Qed.

(** While the sector register is out of range the interrupt of a disk in
    interrupt mode cannot be acknowledged: the bounds check also runs for a
    command that only acknowledges, so the write leaves the interrupt raised. *)
Theorem disk_ack_rearms procno w : takes_irq (W:=W) (slot_get w) →
  disk_wf (slot_get w) → disk_type (slot_get w) ≠ DISKT_NONE → uses_busy_bit (slot_get w) = false →
  size (slot_get w) < (disk_secno (slot_get w) + 1) * 512 →
  ∃ w', ddisk_write32 procno (addr (slot_get w) + REGISTER_COMMAND) COMMAND_INT_ACK w = Done (tt, w') ∧
    signalled w' (slot_get w) ∧ ig (slot_get w') = true ∧
    disk_status (slot_get w') = Z.lor STATUS_ERROR STATUS_INT.
Proof.
  intros Hok Hwf Ht Hb Hs. unfold ddisk_write32, dev. rewrite (bind_Done _ _ _ _ _ eq_refl).
  rewrite bool_decide_eq_false_2, reg_offset_command by done. cbv zeta iota.
  destruct (command_run COMMAND_INT_ACK w Hok (wf_secno _ Hwf)) as (w' & E & D & _ & Hsig).
  assert (∀ d, size d < (disk_secno d + 1) * 512 → refused COMMAND_INT_ACK d = true) as Href.
  { intros d Hd. unfold refused. apply orb_true_iff. right. lia. }
  assert (uses_busy_bit (received COMMAND_INT_ACK (slot_get w)) = false) as Hb' by exact Hb.
  exists w'. split_and!; [exact E|apply Hsig; [by apply Href|done]|..];
    rewrite D; unfold commanded; cbv zeta; rewrite (Href (received COMMAND_INT_ACK (slot_get w)) Hs);
    unfold failed, raised; cbn -[received]; by rewrite Hb'.
Qed.

(** A read or write command given while a transfer is in progress is refused,
    but it also clears the busy bit: the transfer goes on while the status register
    says that the disk is not busy. *)
Theorem disk_error_hides_busy procno val w : takes_irq (W:=W) (slot_get w) →
  disk_wf (slot_get w) → action (slot_get w) ≠ ACTION_NONE →
  has val COMMAND_READ || has val COMMAND_WRITE = true →
  ∃ w', ddisk_write32 procno (addr (slot_get w) + REGISTER_COMMAND) val w = Done (tt, w') ∧
    action (slot_get w') = action (slot_get w) ∧ cnt (slot_get w') = cnt (slot_get w) ∧
    Z.testbit (disk_status (slot_get w')) 4 = false.
Proof.
  intros Hok Hwf Ha Hv. unfold ddisk_write32, dev. rewrite (bind_Done _ _ _ _ _ eq_refl).
  rewrite bool_decide_eq_false_2 by (intros Ht; by destruct (wf_none _ Hwf Ht)).
  rewrite reg_offset_command. cbv zeta iota.
  destruct (command_run val w Hok (wf_secno _ Hwf)) as (w' & E & D & _ & _).
  assert (refused val (received val (slot_get w)) = true) as Href.
  { unfold refused. destruct (received_same val (slot_get w)) as (-> & _).
    rewrite (bool_decide_eq_false_2 (action _ = _)), Hv by done. by destruct (_ && _). }
  destruct (commanded_same val (slot_get w) Ha) as (Ea & _ & Ec & _).
  exists w'. rewrite D. split_and!; [exact E|done|done|]. unfold commanded. cbv zeta. rewrite Href.
  unfold failed, raised. cbn -[Z.testbit]. by destruct (uses_busy_bit _).
Qed.

(** The DMA address is not checked: when the word of a read transfer starts less
    than four bytes before the end of a memory block, the store of the disk runs
    past the block. *)
Theorem disk_dma_overruns w :
  disk_wf (slot_get w) → action (slot_get w) = ACTION_READ → phys_wf (ph_get w) →
  0 ≤ disk_ptr (slot_get w) < PHYS_LIMIT → crosses_end (ph_get w) (disk_ptr (slot_get w)) 4 →
  ddisk_step w = Stop UndefinedBehaviour.
Proof.
  intros Hwf Ha Hp Hl Hc. assert (action (slot_get w) ≠ ACTION_NONE) as Hn by by rewrite Ha.
  destruct (pos_in_image _ Hwf Hn) as (Ew & Hp0 & Hp1).
  destruct (in_transfer_typed _ Hwf Hn) as (im & Ei & Hlen & Hb).
  unfold ddisk_step, dev. rewrite (bind_Done _ _ _ _ _ eq_refl), Ha, Ew.
  rewrite (bind_Done _ _ _ _ _ (img_read_run w im _ Ei Hp0 ltac:(lia))).
  apply bind_Stop. by apply physmem_write_overrun.
Qed.
End Claims.

(** ** A RISC-V machine with a disk *)
Module Board.
#[global] Instance field : DevField disk_data disk_data := {| df_get d := d; df_set x _ := x |}.
#[global] Instance board : RvWorld.Board rv32_tlb disk_data :=
  {| devices := [ddisk_mem]; debugger_event d := d |}.
#[global] Instance field_laws : DevFieldLaws (rv_cpu rv32_tlb) Instr.instr_func disk_data disk_data.
Proof. by split. Qed.

(** Two sectors; the registers are at 0x10000000 and interrupt 11 goes to
    processor 0. *)
Definition image2 : image := mk_image 1024 (λ k, k mod 251).
Definition disk (act : action_e) (ptr sector : Z) : disk_data :=
  mk_disk (Some image2) 11 0 false DISKT_MEM 0x10000000 1024 ptr sector 0 0 act 0 0 false 0 0 0 0.

Definition machine (d : disk_data) : world rv32_tlb disk_data :=
  mk_world Sample.cpu0 [] [] (Sample.memory ∅ []) [] d false false false true false.

Lemma disk_ok act ptr sector :
  in_width 64 ptr → in_width 32 sector → disk_wf (disk act ptr sector).
Proof.
  intros Hp Hs. split; cbn; try done; try lia.
  intros _. eexists. split_and!; [done|done|]. intros k. cbn. unfold in_width.
  pose proof (Z.mod_pos_bound k 251). lia.
Qed.

Lemma machine_phys d : phys_wf (ph_get (machine d)).
Proof. apply Sample.memory_wf, Sample.empty_ok. Qed.

Lemma low_writable d addr : 0 ≤ addr < 8192 → addr mod 4 = 0 → writable_at (ph_get (machine d)) addr.
Proof.
  intros Ha Hm. assert (lookup_frame (ph_get (machine d)) addr =
    Some (mk_frame 1 (addr / 4096 * 4096) false)) as Hf.
  { assert (addr / 4096 = 0 ∨ addr / 4096 = 1) as Hq by (Z.to_euclidean_division_equations; lia).
    rewrite (lookup_frame_same _ addr (addr / 4096 * 4096)) by (Z.to_euclidean_division_equations; lia).
    destruct Hq as [-> | ->]; reflexivity. }
  split; [split_and!; [lia|unfold PHYS_LIMIT; lia|done|by rewrite Hf]|].
  intros f a Hf' Har. rewrite Hf in Hf'. injection Hf' as <-. by injection Har as <-.
Qed.

Lemma idle_disk : idle writable_at 0x200 (machine (disk ACTION_NONE 0x200 1)).
Proof.
  split; cbn [slot_get world_slot df_get field w_dev machine]; try done; [by apply disk_ok|apply machine_phys|].
  intros i Hi. apply low_writable; [lia|Z.to_euclidean_division_equations; lia].
Qed.

(** The same machine whose disk writes sector 1 from 0x200. *)
Lemma idle_disk_mapped : idle mapped_at 0x200 (machine (disk ACTION_NONE 0x200 1)).
Proof. destruct idle_disk. split; try done. intros i Hi. by apply id_buffer0. Qed.
End Board.

Lemma disk_read_transfer_witness :
  ∃ w0, ddisk_write32 0 0x10000008 COMMAND_READ (Board.machine (Board.disk ACTION_NONE 0x200 1)) = Done (tt, w0) ∧
    Z.testbit (disk_status (slot_get w0)) 4 = true ∧
    ∃ w2, ddisk_step w0 = Done (tt, w2).
Proof.
  destruct (disk_read_transfer 0x200 0 _ Board.idle_disk) as (w0 & im & E & _ & Hb & Hstep & _).
  exists w0. split; [exact E|]. split; [exact Hb|].
  destruct (Hstep 0 w0 (dma_start _ _) eq_refl) as (w2 & E2 & _). by exists w2.
Defined.

Lemma disk_write_transfer_witness :
  ∃ w0, ddisk_write32 0 0x10000008 COMMAND_WRITE (Board.machine (Board.disk ACTION_NONE 0x200 1)) = Done (tt, w0) ∧
    Z.testbit (disk_status (slot_get w0)) 4 = true ∧
    ∃ w2, ddisk_step w0 = Done (tt, w2).
Proof.
  destruct (disk_write_transfer 0x200 0 _ Board.idle_disk_mapped) as (w0 & im & E & _ & Hb & Hstep & _).
  exists w0. split; [exact E|]. split; [exact Hb|].
  destruct (Hstep 0 w0 (dma_start _ _) eq_refl) as (w2 & E2 & _). by exists w2.
Defined.

Lemma disk_keeps_wf_witness :
  ∃ w', disk_run (OpWrite 0 0x10000004 0xffffffff) (Board.machine (Board.disk ACTION_NONE 0 0)) = Done (tt, w') ∧
    disk_wf (slot_get w').
Proof.
  destruct (disk_keeps_wf (OpWrite 0 0x10000004 0xffffffff) (Board.machine (Board.disk ACTION_NONE 0 0))) as (w' & E & Hwf & _).
  - vm_compute. split; congruence.
  - done.
  - by apply Board.disk_ok.
  - exists w'. split; [exact E|exact Hwf].
Defined.

Lemma disk_ack_rearms_witness :
  ∃ w', ddisk_write32 0 0x10000008 COMMAND_INT_ACK (Board.machine (Board.disk ACTION_NONE 0 2)) = Done (tt, w') ∧
    ig (slot_get w') = true.
Proof.
  destruct (disk_ack_rearms 0 (Board.machine (Board.disk ACTION_NONE 0 2))) as (w' & E & _ & Hi & _);
    [done|by apply Board.disk_ok|done|done|done|]. exists w'. split; [exact E|exact Hi].
Defined.

Lemma disk_error_hides_busy_witness :
  ∃ w', ddisk_write32 0 0x10000008 COMMAND_READ (Board.machine (Board.disk ACTION_READ 0 1)) = Done (tt, w') ∧
    action (slot_get w') = ACTION_READ.
Proof.
  destruct (disk_error_hides_busy 0 COMMAND_READ (Board.machine (Board.disk ACTION_READ 0 1)))
    as (w' & E & Ha & _); [done|by apply Board.disk_ok|done|done|]. exists w'. split; [exact E|exact Ha].
Defined.

Lemma disk_dma_overruns_witness :
  ddisk_step (Board.machine (Board.disk ACTION_READ 0x1ffe 0)) = Stop UndefinedBehaviour.
Proof.
  apply (disk_dma_overruns (Board.machine (Board.disk ACTION_READ 0x1ffe 0))).
  - by apply Board.disk_ok.
  - done.
  - apply Board.machine_phys.
  - vm_compute. split; congruence.
  - exists (mk_frame 1 4096 false), (Sample.low_ram ∅). split_and!; reflexivity.
Defined.
End DDiskProps.
