(* ===== verification/DevicesProps.v ===== *)
(** * Properties of the simple devices *)

From stdpp Require Import strings.
From S2P Require Import Prelude PhysMem GenCpu Device DevHost.
From S2P Require Import DDevices.
From S2P Require Import RvTypes RvCpu RvCsr RvTlb Rv32Tlb Machine RvWorld RvTrap RvStep Rv32Cpu RvSample RvIrq.
Import PhysMem GenCpu Device.

Section DevRuns.
Context {W F X : Type} `{SlotLaws W F X}.

Lemma modify_run (f : X → X) (w : W) :
  ∃ w', dev_modify f w = Done (tt, w') ∧ slot_get w' = f (slot_get w) ∧ ph_get w' = ph_get w ∧
    ch_cpus w' = ch_cpus w ∧ ch_pending w' = ch_pending w.
Proof. eexists. split; [done|]. by rewrite slot_get_set, slot_phys, slot_cpus, slot_pending. Qed.
End DevRuns.

(** ** Interprocessor interrupts *)
Module OrderProps.
Import Order.

Section Props.
Context {W F : Type} `{SlotLaws W F dorder_data}.
Implicit Types w : W.

(** Interrupt [no] of every registered processor after line changes for the
    processors numbered by the bits of [val]. *)
Definition lines_set (v : bool) (i n val no : Z) w w' : Prop :=
  (slot_get w' : dorder_data) = slot_get w ∧ ph_get w' = ph_get w ∧ ch_cpus w' = ch_cpus w ∧
  ∀ c, c ∈ ch_cpus w → ch_pending w' (data c) no =
    if (i <=? cpuno c) && (cpuno c <? i + n) && Z.testbit val (cpuno c - i) then v
    else ch_pending w (data c) no.

Definition numbered w (i n val : Z) : Prop :=
  ∀ k, 0 ≤ k < n → Z.testbit val k = true → ∃ c, c ∈ ch_cpus w ∧ cpuno c = i + k.

Lemma truthy_bit0 val : truthy (Z.land val 1) = Z.testbit val 0.
Proof. apply (truthy_mask val 0). done. Qed.

(** The window of [n + 1] bits from [i] is bit [i] and the window of [n] from [i + 1]. *)
Lemma window_split {A} (n : nat) (i x val : Z) (a b : A) :
  (if (i + 1 <=? x) && (x <? i + 1 + Z.of_nat n) && Z.testbit (Z.shiftr val 1) (x - (i + 1)) then a
   else if (i <=? x) && (x <? i + 1) && Z.testbit val (x - i) then a else b) =
  if (i <=? x) && (x <? i + Z.of_nat (S n)) && Z.testbit val (x - i) then a else b.
Proof.
  destruct (Z.leb_spec (i + 1) x).
  - rewrite Z.shiftr_spec by lia. replace (x - (i + 1) + 1) with (x - i) by lia.
    destruct (Z.leb_spec i x), (Z.ltb_spec x (i + 1)), (Z.ltb_spec x (i + 1 + Z.of_nat n)),
      (Z.ltb_spec x (i + Z.of_nat (S n))); try lia; done.
  - destruct (Z.leb_spec i x), (Z.ltb_spec x (i + 1)), (Z.ltb_spec x (i + Z.of_nat (S n))); try lia; done.
Qed.

Lemma for_bits_run (v : bool) (line : Z → st W unit) no n i val w :
  (∀ j w, ∃ c w', irq_target j (ch_cpus w) = Some c ∧ line j w = Done (tt, w') ∧ irq_moved v c no w w') →
  NoDup (cpuno <$> ch_cpus w) → numbered w i (Z.of_nat n) val →
  ∃ w', for_bits n i val line w = Done (tt, w') ∧ lines_set v i (Z.of_nat n) val no w w'.
Proof.
  intros Hline. revert i val w. induction n as [|n IH]; intros i val w Hnd Hnum; cbn [for_bits].
  - exists w. split; [done|]. split_and!; [done..|]. intros c _.
    change (Z.of_nat 0) with 0. by replace ((i <=? cpuno c) && (cpuno c <? i + 0)) with false by lia.
  - rewrite truthy_bit0.
    assert (∃ w1, (if Z.testbit val 0 then line i else mret tt) w = Done (tt, w1) ∧
      lines_set v i 1 val no w w1) as (w1 & E1 & D1 & P1 & C1 & L1).
    { destruct (Z.testbit val 0) eqn:Hb.
      - destruct (Hnum 0) as (c & Hc & Hno); [lia|done|]. rewrite Z.add_0_r in Hno.
        destruct (Hline i w) as (c' & w1 & Ht & E1 & Hsame & Hcp & Hp & Hfr). exists w1. split; [done|].
        unfold irq_target in Ht. rewrite (get_cpu_Some i _ c Hnd Hc Hno) in Ht. injection Ht as <-.
        apply slot_same in Hsame as [D1 P1]. split_and!; [done..|]. intros x Hx.
        destruct (Z.eq_dec (cpuno x) i) as [Ex|Hne].
        + assert (x = c) as ->.
          { apply (get_cpu_Some i _ x Hnd Hx) in Ex. rewrite (get_cpu_Some i _ c Hnd Hc Hno) in Ex. congruence. }
          replace ((i <=? cpuno c) && (cpuno c <? i + 1)) with true by lia.
          rewrite Hno, Z.sub_diag, Hb. done.
        + replace ((i <=? cpuno x) && (cpuno x <? i + 1)) with false by lia. cbn [andb].
          apply Hfr. intros Ed. apply Hne. by rewrite (ch_data_inj w x c Hx Hc Ed).
      - exists w. split; [done|]. split_and!; [done..|]. intros c Hc.
        destruct (Z.eq_dec (cpuno c) i) as [->|Hne].
        + by rewrite Z.sub_diag, Hb, andb_false_r.
        + by replace ((i <=? cpuno c) && (cpuno c <? i + 1)) with false by lia. }
    rewrite (bind_Done _ _ _ _ _ E1).
    destruct (IH (i + 1) (Z.shiftr val 1) w1) as (w' & E2 & D2 & P2 & C2 & L2).
    { by rewrite C1. }
    { intros k Hk Hb. rewrite Z.shiftr_spec in Hb by lia. destruct (Hnum (k + 1)) as (c & Hc & Hno); [lia|done|].
      exists c. rewrite C1. split; [done|lia]. }
    exists w'. split; [done|]. split_and!; [congruence..|]. intros c Hc.
    rewrite L2 by (by rewrite C1). rewrite (L1 c Hc). by apply window_split.
Qed.

(** The write to either register is the loop with the counter increased. *)
Lemma sync_run (v : bool) val w : irq_ok W (intno (slot_get w)) →
  NoDup (cpuno <$> ch_cpus w) → numbered w 0 32 val →
  ∃ w', (if v then sync_up_write val else sync_down_write val) w = Done (tt, w') ∧
    cmds (slot_get w') = wrap 64 (cmds (slot_get w) + 1) ∧ ph_get w' = ph_get w ∧
    ∀ c, c ∈ ch_cpus w → 0 ≤ cpuno c < 32 → ch_pending w' (data c) (intno (slot_get w)) =
      if Z.testbit val (cpuno c) then v else ch_pending w (data c) (intno (slot_get w)).
Proof.
  intros Hok Hnd Hnum.
  edestruct (modify_run (λ d, d <| cmds := wrap 64 (cmds d + 1) |>) w) as (w1 & E1 & D1 & P1 & C1 & Q1).
  assert (∃ w', for_bits 32 0 val (λ i, if v then raise_on i (intno (slot_get w)) else lower_on i (intno (slot_get w))) w1
      = Done (tt, w') ∧ lines_set v 0 32 val (intno (slot_get w)) w1 w') as (w' & E2 & D2 & P2 & C2 & L2).
  { apply for_bits_run; [|by rewrite C1|by unfold numbered; rewrite C1].
    intros j w2. destruct v; [by apply raise_on_run|by apply lower_on_run]. }
  exists w'. split_and!.
  - destruct v; [unfold sync_up_write|unfold sync_down_write]; rewrite (bind_Done _ _ _ _ _ E1);
      unfold dev; rewrite (bind_Done _ _ _ _ _ eq_refl), D1; exact E2.
  - by rewrite D2, D1.
  - by rewrite P2, P1.
  - intros c Hc Hr. rewrite L2 by by rewrite C1.
    replace ((0 <=? cpuno c) && (cpuno c <? 0 + 32)) with true by lia. cbn [andb].
    by rewrite Z.sub_0_r, Q1.
Qed.

(** When the processors have the interrupt of the device, writing a mask to the
    interrupt-up register raises it at exactly the processors whose bit is set, when
    every set bit is the number of a processor, and writing it to the interrupt-down
    register cancels it there; no other processor and no memory is touched. *)
Theorem order_selects (up : bool) procno val w : irq_ok W (intno (slot_get w)) →
  NoDup (cpuno <$> ch_cpus w) → numbered w 0 32 val →
  let reg := if up then REGISTER_INT_UP else REGISTER_INT_DOWN in
  ∃ w', dorder_write32 procno (addr (slot_get w) + reg) val w = Done (tt, w') ∧ ph_get w' = ph_get w ∧
    ∀ c, c ∈ ch_cpus w → 0 ≤ cpuno c < 32 → ch_pending w' (data c) (intno (slot_get w)) =
      if Z.testbit val (cpuno c) then up else ch_pending w (data c) (intno (slot_get w)).
Proof.
  intros Hok Hnd Hnum reg. destruct (sync_run up val w Hok Hnd Hnum) as (w' & E & _ & P & L). exists w'.
  split_and!; [|done|done]. unfold dorder_write32, dev. rewrite (bind_Done _ _ _ _ _ eq_refl).
  unfold reg_offset. rewrite Z.add_simpl_l. unfold reg. destruct up; exact E.
Qed.

(** A set bit that is no processor's number does not vanish: the interrupt is
    raised at processor 0. *)
Theorem order_unknown_number procno i c0 w : irq_ok W (intno (slot_get w)) →
  0 ≤ i < 32 → get_cpu i (ch_cpus w) = None → get_cpu 0 (ch_cpus w) = Some c0 →
  ∃ w', dorder_write32 procno (addr (slot_get w) + REGISTER_INT_UP) (Z.shiftl 1 i) w = Done (tt, w') ∧
    ch_pending w' (data c0) (intno (slot_get w)) = true.
Proof.
  intros Hok Hi Hno Hzero.
  edestruct (modify_run (λ d, d <| cmds := wrap 64 (cmds d + 1) |>) w) as (w1 & E1 & D1 & P1 & C1 & Q1).
  destruct (raise_on_run i (intno (slot_get w)) w1 Hok) as (c & w' & Ht & E2 & _ & _ & Hp & _).
  unfold irq_target in Ht. rewrite C1, Hno, Hzero in Ht. injection Ht as <-.
  assert (∀ n (j k : Z), (0 ≤ k < Z.of_nat n)%Z → for_bits n j (Z.shiftl 1 k) (λ i, raise_on i (intno (slot_get w))) w1
    = raise_on (j + k) (intno (slot_get w)) w1) as Hloop.
  { assert (∀ n j (w2 : W), for_bits n j 0 (λ i, raise_on i (intno (slot_get w))) w2 = Done (tt, w2)) as Hz.
    { induction n as [|n IHn]; intros j w2; [done|]. cbn. apply IHn. }
    induction n as [|n IHn]; intros j k Hk; [lia|]. cbn [for_bits]. rewrite truthy_bit0, testbit_bit by lia.
    destruct (Z.eqb_spec 0 k) as [<-|Hne].
    - change (Z.shiftr (Z.shiftl 1 0) 1) with 0. rewrite Z.add_0_r. msimpl.
      destruct (raise_on j (intno (slot_get w)) w1) as [[[] w3]|]; [apply Hz|done].
    - rewrite (bind_Done _ _ _ _ _ eq_refl). replace (Z.shiftr (Z.shiftl 1 k) 1) with (Z.shiftl 1 (k - 1)).
      + rewrite IHn by lia. f_equal. lia.
      + rewrite Z.shiftr_shiftl_l by lia. done. }
  exists w'. split; [|done]. unfold dorder_write32, dev. rewrite (bind_Done _ _ _ _ _ eq_refl).
  unfold reg_offset. rewrite Z.add_simpl_l. change (wrap 64 REGISTER_INT_UP =? REGISTER_INT_UP) with true.
  cbv zeta iota. unfold sync_up_write. rewrite (bind_Done _ _ _ _ _ E1).
  unfold dev. rewrite (bind_Done _ _ _ _ _ eq_refl), D1. cbn [intno].
  etrans; [apply (Hloop 32%nat 0 i); lia|]. exact E2.
Qed.
End Props.

(** A machine with two processors and a [dorder] device at 0x20000000. *)
Module Board.
#[global] Instance field : DevField dorder_data dorder_data := {| df_get d := d; df_set x _ := x |}.
#[global] Instance board : RvWorld.Board rv32_tlb dorder_data :=
  {| devices := [mk_device None None (Some dorder_read32) None None None (Some dorder_write32) None];
     debugger_event d := d |}.
#[global] Instance field_laws : DevFieldLaws (rv_cpu rv32_tlb) Instr.instr_func dorder_data dorder_data.
Proof. by split. Qed.

Definition machine : world rv32_tlb dorder_data :=
  mk_world (rv32_cpu_init 0 0) [] [rv32_cpu_init 1 0] (Sample.memory ∅ []) [] (mk_order 0x20000000 3 0)
    false false false true false.
End Board.

Lemma order_selects_witness :
  ∃ w', dorder_write32 0 0x20000000 2 Board.machine = Done (tt, w') ∧
    ch_pending w' 1 3 = true ∧ ch_pending w' 0 3 = false.
Proof.
  destruct (order_selects true 0 2 Board.machine) as (w' & E & _ & L).
  - done.
  - apply (bool_decide_unpack (NoDup [0; 1])). exact I.
  - intros k Hk Hb. exists (mk_gcpu 1 RV32 1). assert (k = 1) as ->.
    { assert (Z.testbit 2 k = (k =? 1)) as Ek by (apply (testbit_bit 1); done). rewrite Ek in Hb. lia. }
    split; [right; left|done].
  - exists w'. split; [exact E|]. split.
    + apply (L (mk_gcpu 1 RV32 1)); [right; left|split; [done|reflexivity]].
    + apply (L (mk_gcpu 0 RV32 0)); [left|split; [done|reflexivity]].
Defined.

Lemma order_unknown_number_witness :
  ∃ w', dorder_write32 0 0x20000000 16 Board.machine = Done (tt, w') ∧ ch_pending w' 0 3 = true.
Proof.
  destruct (order_unknown_number 0 4 (mk_gcpu 0 RV32 0) Board.machine) as (w' & E & Hp);
    [done|lia|reflexivity|reflexivity|]. exists w'. split; [exact E|exact Hp].
Defined.
End OrderProps.

(** ** Keyboard *)
Module KeyboardProps.
Import Keyboard.

Section Props.
Context {W F : Type} `{SlotLaws W F keyboard_data}.
Implicit Types w : W.

Fixpoint gen_keys (cs : list Z) : st W unit :=
  match cs with [] => mret tt | c :: cs' => gen_key c;; gen_keys cs' end.

(** The keyboard after keys: the first unread key raises the interrupt, the
    following ones overrun the buffer. *)
Definition pressed (c : Z) (d : keyboard_data) : keyboard_data :=
  let d := d <| incomming := c |> <| keycount := wrap 64 (keycount d + 1) |> in
  if ig d then d <| overrun := wrap 64 (overrun d + 1) |>
  else d <| ig := true |> <| intrcount := wrap 64 (intrcount d + 1) |>.

Definition fallback_pending w (no : Z) : Prop :=
  ∃ c, irq_target 0 (ch_cpus w) = Some c ∧ ch_pending w (data c) no = true.

Lemma gen_key_run c w : irq_ok W (intno (slot_get w)) →
  ∃ w', gen_key c w = Done (tt, w') ∧ slot_get w' = pressed c (slot_get w) ∧ ph_get w' = ph_get w ∧
    (ig (slot_get w) = false → fallback_pending w' (intno (slot_get w))) ∧
    (ig (slot_get w) = true → ∀ no, fallback_pending w no → fallback_pending w' no).
Proof.
  intros Hok. unfold gen_key. edestruct (modify_run (λ d, d <| incomming := c |> <| keycount := wrap 64 (keycount d + 1) |>) w)
    as (w1 & E1 & D1 & P1 & C1 & Q1). rewrite (bind_Done _ _ _ _ _ E1). unfold dev.
  rewrite (bind_Done _ _ _ _ _ eq_refl), D1. cbn [ig]. unfold pressed. cbn [ig].
  change (ig ((slot_get w) <| incomming := c |> <| keycount := wrap 64 (keycount (slot_get w) + 1) |>))
    with (ig (slot_get w)). destruct (ig (slot_get w)) eqn:Eg; cbn [negb].
  - edestruct (modify_run (λ d, d <| overrun := wrap 64 (overrun d + 1) |>) w1) as (w2 & E2 & D2 & P2 & C2 & Q2).
    exists w2. split_and!; [done|by rewrite D2, D1|by rewrite P2|done|].
    intros _ no (x & Hx & Hp). exists x. by rewrite C2, C1, Q2, Q1.
  - edestruct (modify_run (λ d, d <| ig := true |> <| intrcount := wrap 64 (intrcount d + 1) |>) w1)
      as (w2 & E2 & D2 & P2 & C2 & Q2). rewrite (bind_Done _ _ _ _ _ E2).
    destruct (fallback_run w2) as (x & Hx & Ex).
    destruct (interrupt_up_run None (intno (slot_get w)) x w2 Ex) as (w3 & E3 & Hs & Hc & Hp & _);
      [by eapply irq_target_elem|apply Hok|]. apply slot_same in Hs as [D3 P3].
    exists w3. split_and!; [exact E3|by rewrite D3, D2, D1|by rewrite P3, P2|intros _|done].
    exists x. by rewrite Hc.
Qed.

Lemma pressed_intno c d : intno (pressed c d) = intno d.
Proof. unfold pressed. cbv zeta. by destruct (ig _). Qed.
Lemma pressed_addr c d : addr (pressed c d) = addr d.
Proof. unfold pressed. cbv zeta. by destruct (ig _). Qed.
Lemma pressed_ig c d : ig (pressed c d) = true.
Proof. unfold pressed. cbv zeta. cbn. by destruct (ig d) eqn:E. Qed.
Lemma pressed_key c d : incomming (pressed c d) = c.
Proof. unfold pressed. cbv zeta. by destruct (ig _). Qed.

Lemma gen_keys_run cs w : irq_ok W (intno (slot_get w)) →
  cs ≠ [] →
  (ig (slot_get w) = true → fallback_pending w (intno (slot_get w))) →
  ∃ w', gen_keys cs w = Done (tt, w') ∧ slot_get w' = foldl (λ d c, pressed c d) (slot_get w) cs ∧
    ph_get w' = ph_get w ∧ fallback_pending w' (intno (slot_get w)) ∧
    ig (slot_get w') = true ∧ intno (slot_get w') = intno (slot_get w) ∧
    addr (slot_get w') = addr (slot_get w) ∧ incomming (slot_get w') = List.last cs 0.
Proof.
  revert w. induction cs as [|c cs IH]; intros w Hok Hne Hp; [done|]. cbn [gen_keys foldl].
  destruct (gen_key_run c w Hok) as (w1 & E1 & D1 & P1 & S1 & S2). rewrite (bind_Done _ _ _ _ _ E1).
  assert (fallback_pending w1 (intno (slot_get w))) as Hp1 by (destruct (ig (slot_get w)); auto).
  destruct cs as [|c' cs].
  - exists w1. rewrite D1. split_and!; [done..|apply pressed_ig|apply pressed_intno|apply pressed_addr|apply pressed_key].
  - destruct (IH w1) as (w' & E & D & P & Hf & Hg & Hi & Ha & Hl); [by rewrite D1, pressed_intno|done|by rewrite D1, pressed_intno|].
    exists w'. rewrite D1, pressed_intno in Hf, Hi. rewrite D1, pressed_addr in Ha. rewrite D1 in D.
    split_and!; [done|done|by rewrite P|done..].
Qed.

(** After any keys the interrupt is pending; reading the register then returns
    the last key (a signed character extended to 32 bits), empties the buffer and
    cancels the interrupt, and a second read returns 0. *)
Theorem keyboard_last_key cs procno procno' w : irq_ok W (intno (slot_get w)) →
  cs ≠ [] → ig (slot_get w) = false → 
  ∃ w1 w2 w3, gen_keys cs w = Done (tt, w1) ∧ fallback_pending w1 (intno (slot_get w)) ∧
    keyboard_read32 procno (addr (slot_get w)) w1 = Done (Some (wrap 32 (List.last cs 0)), w2) ∧
    (∀ c, irq_target 0 (ch_cpus w2) = Some c → ch_pending w2 (data c) (intno (slot_get w)) = false) ∧
    keyboard_read32 procno' (addr (slot_get w)) w2 = Done (Some 0, w3).
Proof.
  intros Hok Hne Hg. destruct (gen_keys_run cs w Hok Hne) as (w1 & E1 & D1 & P1 & Hf & Hg1 & Hi1 & Ha1 & Hl1); [by rewrite Hg|].
  assert (∀ x : Z, (reg_offset x x =? REGISTER_CHAR) = true) as Hoff
    by (intros x; unfold reg_offset; by rewrite Z.sub_diag).
  edestruct (modify_run (λ d, d <| incomming := 0 |>) w1) as (wa & Ea & Da & Pa & Ca & Qa).
  edestruct (modify_run (λ d, d <| ig := false |>) wa) as (wb & Eb & Db & Pb & Cb & Qb).
  destruct (fallback_run wb) as (x & Hx & Ex).
  destruct (interrupt_down_run None (intno (slot_get w)) x wb Ex) as (w2 & E2 & Hs & Hc & Hp & _);
    [by eapply irq_target_elem|apply Hok|]. apply slot_same in Hs as [D2 P2].
  edestruct (modify_run (λ d, d <| incomming := 0 |>) w2) as (w3 & E3 & _).
  exists w1, w2, w3. split_and!; [done|done| | |].
  - unfold keyboard_read32, dev. rewrite (bind_Done _ _ _ _ _ eq_refl), Ha1, Hoff, (bind_Done _ _ _ _ _ Ea), Hg1.
    rewrite Hi1. unfold mbind at 1, st_bind at 1. rewrite (bind_Done _ _ _ _ _ Eb), E2. by rewrite Hl1.
  - intros c. rewrite Hc. congruence.
  - unfold keyboard_read32, dev. rewrite (bind_Done _ _ _ _ _ eq_refl), D2, Db, Da. cbn [addr].
    change (addr ((slot_get w1) <| incomming := 0 |> <| ig := false |>)) with (addr (slot_get w1)).
    rewrite Ha1, Hoff, (bind_Done _ _ _ _ _ E3). done.
Qed.
End Props.

(** A machine with a keyboard at 0x30000000. *)
Module Board.
#[global] Instance field : DevField keyboard_data keyboard_data := {| df_get d := d; df_set x _ := x |}.
#[global] Instance board : RvWorld.Board rv32_tlb keyboard_data :=
  {| devices := [mk_device None None (Some keyboard_read32) None None None None None];
     debugger_event d := d |}.
#[global] Instance field_laws : DevFieldLaws (rv_cpu rv32_tlb) Instr.instr_func keyboard_data keyboard_data.
Proof. by split. Qed.

Definition machine : world rv32_tlb keyboard_data :=
  mk_world (rv32_cpu_init 0 0) [] [] (Sample.memory ∅ []) [] (mk_keyboard 0x30000000 11 0 false 0 0 0)
    false false false true false.
End Board.

Lemma keyboard_last_key_witness :
  ∃ w1 w2, gen_keys [97; 98; -23] Board.machine = Done (tt, w1) ∧
    keyboard_read32 0 0x30000000 w1 = Done (Some 0xffffffe9, w2).
Proof.
  destruct (keyboard_last_key [97; 98; -23] 0 0 Board.machine) as (w1 & w2 & _ & E1 & _ & E2 & _); [done|done|done|].
  exists w1, w2. split; [exact E1|exact E2].
Defined.
End KeyboardProps.

(** ** Cycle counter *)
Module CycleProps.
Import Cycle.

(** [n] machine cycles add [n] modulo 2^64, and the two 32-bit halves are the
    64-bit register. *)
Theorem cycle_counts {W F} `{SlotLaws W F dcycle_data} (n : nat) procno (w : W) :
  in_width 64 (cycle (slot_get w)) →
  ∃ w' lo hi, Nat.iter n (λ m, dcycle_step;; m) (mret tt) w = Done (tt, w') ∧
    addr (slot_get w') = addr (slot_get w) ∧
    dcycle_read64 procno (addr (slot_get w)) w' = Done (Some (wrap 64 (cycle (slot_get w) + Z.of_nat n)), w') ∧
    dcycle_read32 procno (addr (slot_get w)) w' = Done (Some lo, w') ∧
    dcycle_read32 procno (addr (slot_get w) + 4) w' = Done (Some hi, w') ∧
    wrap 64 (cycle (slot_get w) + Z.of_nat n) = lo + hi * 2 ^ 32.
Proof.
  intros Hc.
  assert (∃ w', Nat.iter n (λ m, dcycle_step;; m) (mret tt) w = Done (tt, w') ∧
    slot_get w' = mk_cycle (addr (slot_get w)) (wrap 64 (cycle (slot_get w) + Z.of_nat n))) as (w' & E & D).
  { clear procno. revert w Hc. induction n as [|n IH]; intros w Hc; cbn -[Z.of_nat].
    - exists w. change (Z.of_nat 0) with 0. split; [done|]. rewrite Z.add_0_r, wrap_small by done. by destruct (slot_get w).
    - edestruct (modify_run (λ d, mk_cycle (addr d) (wrap 64 (cycle d + 1))) w) as (w1 & E1 & D1 & _).
      unfold dcycle_step at 1. rewrite (bind_Done _ _ _ _ _ E1).
      destruct (IH w1) as (w' & E & D); [rewrite D1; apply wrap_range; lia|].
      exists w'. split; [done|]. rewrite D, D1. cbn -[Z.of_nat]. f_equal.
      rewrite wrap_add_l, Nat2Z.inj_succ by lia. f_equal. lia. }
  set (v := wrap 64 (cycle (slot_get w) + Z.of_nat n)) in *. exists w', (wrap 32 v), (wrap 32 (Z.shiftr v 32)).
  unfold dcycle_read64, dcycle_read32, dev. msimpl. rewrite D. cbn [addr cycle].
  unfold reg_offset. rewrite Z.sub_diag, Z.add_simpl_l. split_and!; [done..|].
  assert (in_width 64 v) as Hv by (apply wrap_range; lia). unfold in_width in Hv.
  unfold wrap. rewrite Z.shiftr_div_pow2 by lia. clearbody v. Z.to_euclidean_division_equations. lia.
Qed.
End CycleProps.

(** ** Printer *)
Module PrinterProps.
Import Printer.

Lemma be32toh_byte v : in_width 32 v → wrap 8 (be32toh v) = le_byte v 3.
Proof.
  intros Hv. unfold be32toh, be16toh, le_byte. apply Z.bits_inj'. intros i Hi.
  rewrite !testbit_wrap by lia. destruct (Z.ltb_spec i 8); [|done]. cbn [andb].
  rewrite Z.lor_spec, Z.shiftl_spec_low, Z.lor_spec, Z.shiftl_spec_low by lia. cbn [orb].
  rewrite Z.land_spec, !Z.shiftr_spec by lia.
  change 0xff with (Z.ones 8). rewrite testbit_ones by lia. replace (i <? 8) with true by lia.
  rewrite andb_true_r. f_equal. lia.
Qed.

(** A 32-bit write to the printer prints one character: the lowest byte of the
    word in little-endian mode, the highest in big-endian mode. *)
Theorem printer_prints {W F} `{SlotLaws W F printer_data} procno val (w : W) :
  in_width 32 val →
  ∃ w', printer_write32 procno (addr (slot_get w)) val w = Done (tt, w') ∧
    output (slot_get w') = (fname (slot_get w), le_byte val (if endianness (slot_get w) then 0 else 3))
      :: output (slot_get w) ∧
    count (slot_get w') = wrap 64 (count (slot_get w) + 1).
Proof.
  intros Hv. unfold printer_write32, dev, reg_offset. rewrite (bind_Done _ _ _ _ _ eq_refl), Z.sub_diag.
  change (wrap 64 0 =? REGISTER_CHAR) with true. cbv zeta iota.
  edestruct (modify_run (print_char (if endianness (slot_get w) then val else be32toh val)) w)
    as (w' & E & D & _). exists w'. split; [exact E|]. rewrite D. cbn. split; [|done]. do 2 f_equal.
  destruct (endianness (slot_get w)); [unfold le_byte; by rewrite Z.shiftr_0_r|by apply be32toh_byte].
Qed.
End PrinterProps.

(** ** Absent memory *)
Module NomemProps.
Import Nomem.

(** With register dumps enabled, an access that no processor makes (the DMA of
    the disk passes -1) fails an assertion of the simulator. *)
Theorem nomem_dma_asserts {W F} `{SlotLaws W F dnomem_data, MachineFlags W} procno a (w : W) :
  get_cpu procno (ch_cpus w) = None → register_dump (slot_get w) = true →
  reg_offset a (addr (slot_get w)) < size (slot_get w) →
  dnomem_access32 procno a w = Stop AssertFailed.
Proof.
  intros Hc Hd Hs. unfold dnomem_access32, dev, find_cpu. msimpl.
  replace (_ <=? _) with false by lia. by rewrite Hd, Hc.
Qed.
End NomemProps.
