(* ===== verification/RvVmProps.v ===== *)
(** * Address translation: the page-table walk of any format, and its properties

    [Sv] describes a page-table format: the sizes of pages from the root of the
    table down, the width of entries and their codec.  [sv_walk] and
    [sv_convert] are the walk and the translation written once for any format;
    [Rv32VmProps] and [Rv64VmProps] show that the functions of the two
    processors are instances of them.

    The abstract translation [translate] walks the page table of an abstract
    memory with the arithmetic of the architecture manual, ignoring the reserved bits
    of the entries as the code does.  The walk implements
    it, updates exactly the accessed and dirty bits of the leaf entry and caches
    that entry; with a TLB that agrees with the page table the translation gives
    the same answer. *)

From S2P Require Import Prelude PhysMem RvTypes RvCpu RvCsr RvTlb Machine RvWorld MachineProps RvVm.
Import PhysMem.

(** ** Page-table formats *)
Class Sv (K : Type) `{PageSizes K} := {
  sv_wide : bool;             (** entries have 64 bits, otherwise 32 *)
  sv_vpn_bits : Z;            (** index bits per level *)
  sv_ppn_bits : Z;            (** bits of a physical page number *)
  sv_levels : list K;         (** page sizes, from the root down *)
  sv_decode : Z → sv_pte;
  sv_encode : sv_pte → Z;
  sv_pte_ok : sv_pte → Prop;  (** entries whose fields fit *)
  sv_phys : Z → sv_pte → K → Z;
  sv_misaligned : sv_pte → K → bool
}.

(** Setting the accessed and dirty bits. *)
Definition mark (wr : bool) (pte : sv_pte) : sv_pte :=
  pte <| pte_a := true |> <| pte_d := pte_d pte || wr |>.

Definition sv_bytes `{Sv K} : nat := if sv_wide then 8 else 4.

(** The physical address in a page of the given size. *)
Definition leaf_phys `{PageSizes K} (pte : sv_pte) (k : K) (virt : Z) : Z :=
  pte_ppn pte / 2 ^ (page_shift k - 12) * 2 ^ page_shift k + virt mod 2 ^ page_shift k.

(** Pages are aligned to their size. *)
Definition aligned_for `{PageSizes K} (pte : sv_pte) (k : K) : bool :=
  pte_ppn pte mod 2 ^ (page_shift k - 12) =? 0.

Class SvLaws (K : Type) `{Sv K} := {
  sv_shift k : 12 ≤ page_shift k ≤ 12 + sv_ppn_bits;
  sv_decode_ok v : sv_pte_ok (sv_decode v);
  sv_encode_decode v : in_width (8 * Z.of_nat sv_bytes) v → sv_encode (sv_decode v) = v;
  sv_decode_encode p : sv_pte_ok p → sv_decode (sv_encode p) = p;
  sv_encode_width p : sv_pte_ok p → in_width (8 * Z.of_nat sv_bytes) (sv_encode p);
  sv_mark_ok wr p : sv_pte_ok p → sv_pte_ok (mark wr p);
  sv_ppn_width p : sv_pte_ok p → in_width sv_ppn_bits (pte_ppn p);
  sv_phys_leaf virt p k : sv_pte_ok p → sv_phys virt p k = leaf_phys p k virt;
  sv_misaligned_spec p k : sv_misaligned p k = negb (aligned_for p k)
}.

Lemma sv_bytes_size `{Sv K} : access_size sv_bytes.
Proof. unfold sv_bytes, access_size. destruct sv_wide; tauto. Qed.

(** ** The abstract translation *)

(** The outcome of the table lookup: the leaf entry, where it is stored, the
    size of its page and whether the translation is global. *)
Record leaf (K : Type) := mk_leaf { l_pte : sv_pte; l_addr : Z; l_size : K; l_global : bool }.
Arguments mk_leaf {K}.
Arguments l_pte {K}.
Arguments l_addr {K}.
Arguments l_size {K}.
Arguments l_global {K}.

Section Spec.
Context `{Sv K}.

(** The entry for [virt] in the table at page [table]. *)
Definition sv_slot (table virt : Z) (k : K) : Z :=
  table * 4096 + (virt / 2 ^ page_shift k) mod 2 ^ sv_vpn_bits * Z.of_nat sv_bytes.

(** The lookup goes by the fields that Sv32 and Sv39 share.  Like the code it ignores
    the upper bits of the entries of Sv39, which the manual reserves; see
    [Rv64VmProps] for the architectural lookup of Sv39. *)
Fixpoint find_leaf_in (word : Z → Z) (ks : list K) (table : Z) (glob : bool) (virt : Z)
    : option (leaf K) :=
  match ks with
  | [] => None
  | k :: ks' =>
      let a := sv_slot table virt k in
      let p := sv_decode (word a) in
      if negb (is_pte_valid p) then None
      else if is_pte_leaf p then
        if aligned_for p k then Some (mk_leaf p a k (glob || pte_g p)) else None
      else find_leaf_in word ks' (pte_ppn p) (glob || pte_g p) virt
  end.

Definition find_leaf (word : Z → Z) (root virt : Z) : option (leaf K) :=
  find_leaf_in word sv_levels root false virt.

(** The entries a lookup reads. *)
Fixpoint walk_slots (word : Z → Z) (ks : list K) (table virt : Z) : list Z :=
  match ks with
  | [] => []
  | k :: ks' =>
      let a := sv_slot table virt k in
      let p := sv_decode (word a) in
      a :: if is_pte_valid p && negb (is_pte_leaf p) then walk_slots word ks' (pte_ppn p) virt else []
  end.
End Spec.

(** The access rules of the privileged architecture. *)
Definition permits (mode : rv_priv_mode) (sum mxr : bool) (pte : sv_pte) (wr fetch : bool) : bool :=
  (if wr then pte_w pte else if fetch then pte_x pte else pte_r pte || (mxr && pte_x pte)) &&
  match mode with
  | rv_umode => pte_u pte
  | rv_smode => negb (pte_u pte) || (sum && negb fetch)
  | _ => true
  end.

Definition cpu_permits {T} (c : rv_cpu T) := permits (sv32_effective_priv c)
  (rv_csr_sstatus_sum c) (rv_csr_sstatus_mxr c).

Section Translate.
Context `{Xlen} `{Sv K}.

(** The result of an access through the leaf [l]. *)
Definition leaf_result {T} (c : rv_cpu T) (virt : Z) (wr fetch : bool) (l : leaf K) : rv_exc + Z :=
  if cpu_permits c (l_pte l) wr fetch then inr (leaf_phys (l_pte l) (l_size l) virt)
  else inl (page_fault_exception wr fetch).

Definition lookup_result {T} (c : rv_cpu T) (virt : Z) (wr fetch : bool) (o : option (leaf K))
    : rv_exc + Z :=
  match o with
  | Some l => leaf_result c virt wr fetch l
  | None => inl (page_fault_exception wr fetch)
  end.

Definition translate {T} (word : Z → Z) (c : rv_cpu T) (virt : Z) (wr fetch : bool) : rv_exc + Z :=
  lookup_result c virt wr fetch (find_leaf word (rv_csr_satp_ppn c) virt).
End Translate.

Lemma access_permits {T} (c : rv_cpu T) pte wr fetch :
  wr && fetch = false → is_access_allowed c pte wr fetch = cpu_permits c pte wr fetch.
Proof.
  intros Hwf. unfold is_access_allowed, cpu_permits, permits.
  destruct wr, fetch; try discriminate; cbn [andb negb];
    destruct (pte_w pte), (pte_x pte), (pte_r pte), (pte_u pte), (rv_csr_sstatus_mxr c),
      (rv_csr_sstatus_sum c), (sv32_effective_priv c); reflexivity.
Qed.

(** ** The walk of any format *)
Section Code.
Context `{Xlen} `{Sv K} {D : Type} `{Board (rv_tlb K) D}.
Abbreviation W := (world (rv_tlb K) D).

Definition pte_read (procno a : Z) (noisy : bool) : st W Z :=
  if sv_wide then physmem_read64 procno a noisy else physmem_read32 procno a noisy.
Definition pte_write (procno a v : Z) (protected : bool) : st W bool :=
  if sv_wide then physmem_write64 procno a v protected else physmem_write32 procno a v protected.

Definition sv_finish (virt : Z) (wr fetch noisy : bool) (pte : sv_pte) (pte_addr : Z) (size : K)
    (is_global : bool) : exec W Z :=
  c ← cpu;
  if negb (is_access_allowed c pte wr fetch) then raise (page_fault_exception wr fetch)
  else
    pte ← (if pte_access_dirty_update_needed pte wr then
             (if noisy
              then _ ← pte_write (mhartid (csr c)) pte_addr (sv_encode (mark wr pte)) true; mret tt
              else mret tt);;
             mret (mark wr pte)
           else mret pte);
    c ← cpu;
    on_tlb (tlb_add_mapping (rv_csr_satp_asid c) virt pte size is_global);;
    ok (sv_phys virt pte size).

Fixpoint sv_walk (ks : list K) (table : Z) (glob : bool) (virt : Z) (wr fetch noisy : bool)
    : exec W Z :=
  match ks with
  | [] => raise (page_fault_exception wr fetch)
  | k :: ks' =>
      c ← cpu;
      let a := sv_slot table virt k in
      v ← pte_read (mhartid (csr c)) a noisy;
      let p := sv_decode v in
      if negb (is_pte_valid p) then raise (page_fault_exception wr fetch)
      else if is_pte_leaf p then
        if negb (aligned_for p k) then raise (page_fault_exception wr fetch)
        else sv_finish virt wr fetch noisy p a k (glob || pte_g p)
      else sv_walk ks' (pte_ppn p) (glob || pte_g p) virt wr fetch noisy
  end.

Definition sv_pagewalk (virt : Z) (wr fetch noisy : bool) : exec W Z :=
  c ← cpu; sv_walk sv_levels (rv_csr_satp_ppn c) false virt wr fetch noisy.

Definition sv_convert (virt : Z) (wr fetch noisy : bool) : exec W Z :=
  c_assert (negb (wr && fetch));;
  c ← cpu;
  if negb (use_sv c fetch) then ok virt
  else
    let asid := rv_csr_satp_asid c in
    hit ← on_tlb (tlb_get_mapping asid virt true);
    match hit with
    | Some (pte, size) =>
        if negb (is_pte_valid pte) then raise (page_fault_exception wr fetch)
        else
          c ← cpu;
          if negb (is_access_allowed c pte wr fetch) then raise (page_fault_exception wr fetch)
          else if sv_misaligned pte size then raise (page_fault_exception wr fetch)
          else if negb (pte_access_dirty_update_needed pte wr) then ok (sv_phys virt pte size)
          else on_tlb (tlb_remove_mapping asid virt);; sv_pagewalk virt wr fetch noisy
    | None => sv_pagewalk virt wr fetch noisy
    end.
End Code.

Lemma mark_unneeded wr pte : pte_access_dirty_update_needed pte wr = false → mark wr pte = pte.
Proof.
  destruct pte as [v r w x u g a d rsw ppn rs pb n].
  unfold pte_access_dirty_update_needed, mark. cbn. by destruct a, d, wr.
Qed.

(** ** The walk implements the abstract translation *)
Section Walk.
Context `{Xlen} `{SvLaws K} {D : Type} `{Board (rv_tlb K) D}.
Abbreviation W := (world (rv_tlb K) D).
Implicit Types w : W.

(** The entries of the page tables. *)
Definition pte_at w (a : Z) : Z := value_at (w_phys w) a sv_bytes.
Abbreviation pte_slot := (slot sv_bytes).

Definition rw_slot w (a : Z) : Prop := pte_slot a ∧ rw_word (w_phys w) a.

(** Only memory, devices, reservations and the TLB of the running processor
    changed. *)
Definition translation_rel w w' : Prop :=
  write_rel (w <| w_cpu := (w_cpu w) <| tlb := tlb (w_cpu w') |> |>) w'.

(** A fault changes nothing but the bookkeeping of reads. *)
Definition only_read w w' : Prop := read_rel w w' ∧ same_store (w_phys w) (w_phys w').

Lemma only_read_refl w : only_read w w.
Proof. split; reflexivity. Qed.
Lemma only_read_trans w w1 w2 : only_read w w1 → only_read w1 w2 → only_read w w2.
Proof. intros [R1 S1] [R2 S2]. split; by etrans. Qed.

Lemma pte_at_same w w' a : only_read w w' → pte_at w' a = pte_at w a.
Proof. intros [_ S]. by apply value_at_same. Qed.
Lemma rw_slot_same w w' a : only_read w w' → rw_slot w a → rw_slot w' a.
Proof. intros [_ S] [Hs Hrw]. split; [done|]. by eapply rw_word_same. Qed.

Lemma pte_read_run procno a noisy w :
  phys_wf (w_phys w) → rw_slot w a →
  ∃ w', pte_read procno a noisy w = Done (pte_at w a, w') ∧ only_read w w'.
Proof.
  intros Hwf [Hs Hrw]. unfold pte_read, only_read.
  pose proof (λ dm, read_slot sv_bytes dm procno a noisy w sv_bytes_size Hwf Hs Hrw) as Hread.
  unfold pte_at, sv_bytes in *. destruct sv_wide.
  - destruct (Hread devmem_read64) as (w' & E & S & R). by exists w'.
  - destruct (Hread devmem_read32) as (w' & E & S & R). by exists w'.
Qed.

Lemma pte_write_run procno a v w :
  phys_wf (w_phys w) → rw_slot w a → in_width (8 * Z.of_nat sv_bytes) v →
  ∃ w', pte_write procno a v true w = Done (true, w') ∧ phys_wf (w_phys w') ∧ write_rel w w' ∧
    ∀ b, pte_slot b → pte_at w' b = if decide (b = a) then v else pte_at w b.
Proof.
  intros Hwf [Hs Hrw] Hv. unfold pte_write.
  pose proof (λ dm, write_slot sv_bytes dm procno a v w sv_bytes_size Hwf Hs Hrw Hv) as Hwrite.
  unfold pte_at, sv_bytes in *. destruct sv_wide.
  - apply (Hwrite devmem_write64).
  - apply (Hwrite devmem_write32).
Qed.

Lemma on_tlb_run {A} (m : st (rv_tlb K) A) w a t :
  m (tlb (w_cpu w)) = Done (a, t) →
  on_tlb m w = Done (a, w <| w_cpu := (w_cpu w) <| tlb := t |> |>).
Proof. intros E. unfold on_tlb, on_cpu. msimpl. by rewrite E. Qed.

(** The entry cached for a leaf. *)
Definition leaf_entry (c : rv_cpu (rv_tlb K)) (virt : Z) (wr : bool) (l : leaf K) : tlb_entry K :=
  mk_entry (mark wr (l_pte l)) (Z.shiftr virt (page_shift (l_size l)))
    (rv_csr_satp_asid c) (l_global l) (l_size l).

(** The state after a successful walk to the leaf [l]. *)
Definition walked (virt : Z) (wr : bool) (l : leaf K) w w' : Prop :=
  phys_wf (w_phys w') ∧ tlb_wf (tlb (w_cpu w')) ∧
  t_size (tlb (w_cpu w')) = t_size (tlb (w_cpu w)) ∧ translation_rel w w' ∧
  mappings (tlb (w_cpu w')) = spec_add (capacity (tlb (w_cpu w))) (leaf_entry (w_cpu w) virt wr l)
                                       (mappings (tlb (w_cpu w))) ∧
  ∀ b, pte_slot b → pte_at w' b =
    if decide (b = l_addr l) then sv_encode (mark wr (l_pte l)) else pte_at w b.

Lemma read_rel_tlb w w' t : read_rel w w' →
  write_rel (w <| w_cpu := (w_cpu w) <| tlb := t |> |>) (w' <| w_cpu := (w_cpu w') <| tlb := t |> |>).
Proof. intros ->. destruct w. split; cbn; reflexivity. Qed.

Lemma translation_rel_read w w1 w' : read_rel w w1 → translation_rel w1 w' → translation_rel w w'.
Proof. intros Hr Ht. unfold translation_rel in *. etrans; [by apply read_rel_tlb|done]. Qed.

Lemma walked_pre virt wr l w w1 w' :
  only_read w w1 → walked virt wr l w1 w' → walked virt wr l w w'.
Proof.
  intros Ho (Hwf & Ht & Hs & Hrel & Hm & Hw). pose proof (read_rel_cpu _ _ (proj1 Ho)) as Ec.
  rewrite Ec in *. split_and!; [done|done|done|by eapply translation_rel_read; [apply Ho|]|done|].
  intros b Hb. rewrite Hw by done. by rewrite (pte_at_same _ _ _ Ho).
Qed.

(** Adding the leaf to the TLB after the (possible) update of memory. *)
Lemma add_leaf_run virt wr l w w1 :
  tlb_wf (tlb (w_cpu w)) → phys_wf (w_phys w1) → write_rel w w1 →
  (∀ b, pte_slot b → pte_at w1 b =
    if decide (b = l_addr l) then sv_encode (mark wr (l_pte l)) else pte_at w b) →
  ∃ w', on_tlb (tlb_add_mapping (rv_csr_satp_asid (w_cpu w1)) virt (mark wr (l_pte l))
      (l_size l) (l_global l)) w1 = Done (tt, w') ∧ walked virt wr l w w'.
Proof.
  intros Ht Hwf Hrel Hw.
  assert (tlb (w_cpu w1) = tlb (w_cpu w) ∧ csr (w_cpu w1) = csr (w_cpu w)) as [Et Ec]
    by (destruct (wr_cpu _ _ Hrel) as [-> | ->]; done).
  destruct (tlb_add_spec (tlb (w_cpu w1)) (rv_csr_satp_asid (w_cpu w1)) virt (mark wr (l_pte l))
    (l_size l) (l_global l)) as (t' & Hadd & Ht' & Hs & Hm); [by rewrite Et|].
  eexists. split; [by apply on_tlb_run|]. rewrite Et in *.
  split_and!; cbn [w_cpu w_phys set_w_cpu tlb]; try done.
  - destruct Hrel as [Hc Hb Ha Er]. destruct w, w1. cbn in *. split; cbn; try done.
    + destruct Hc as [-> | ->]; [by left|by right].
    + injection Er as. by subst.
  - cbn. rewrite Hm. unfold leaf_entry, rv_csr_satp_asid. by rewrite Ec.
Qed.

Lemma finish_run virt wr fetch l w :
  phys_wf (w_phys w) → tlb_wf (tlb (w_cpu w)) → wr && fetch = false →
  sv_pte_ok (l_pte l) → rw_slot w (l_addr l) → pte_at w (l_addr l) = sv_encode (l_pte l) →
  ∃ w', sv_finish virt wr fetch true (l_pte l) (l_addr l) (l_size l) (l_global l) w =
      Done (leaf_result (w_cpu w) virt wr fetch l, w') ∧
    if cpu_permits (w_cpu w) (l_pte l) wr fetch then walked virt wr l w w' else w' = w.
Proof.
  intros Hwf Ht Hwf' Hp Hrw Hword. unfold sv_finish, leaf_result.
  rewrite (bind_Done _ _ _ _ _ eq_refl), access_permits by done.
  destruct (cpu_permits _ _ _ _); [|by eexists]. cbn [negb].
  set (upd := if pte_access_dirty_update_needed (l_pte l) wr then _ else _).
  assert (∃ w1, upd w = Done (mark wr (l_pte l), w1) ∧ phys_wf (w_phys w1) ∧ write_rel w w1 ∧
    ∀ b, pte_slot b → pte_at w1 b =
      if decide (b = l_addr l) then sv_encode (mark wr (l_pte l)) else pte_at w b)
    as (w1 & Hupd & Hwf1 & Hrel & Hw1).
  { subst upd. destruct (pte_access_dirty_update_needed (l_pte l) wr) eqn:E.
    - destruct (pte_write_run (mhartid (csr (w_cpu w))) (l_addr l) (sv_encode (mark wr (l_pte l))) w)
        as (w1 & Hrun & ? & ? & ?); [done..|by apply sv_encode_width, sv_mark_ok|].
      exists w1. split_and!; [|done..].
      rewrite (bind_Done _ _ w tt w1); [done|]. by rewrite (bind_Done _ _ _ _ _ Hrun).
    - exists w. rewrite mark_unneeded by done. split_and!; [done|done|reflexivity|].
      intros b Hb. case_decide; [by subst|done]. }
  rewrite (bind_Done _ _ _ _ _ Hupd), (bind_Done _ _ _ _ _ eq_refl).
  destruct (add_leaf_run virt wr l w w1) as (w' & Hadd & Hwalk); [done..|].
  rewrite (bind_Done _ _ _ _ _ Hadd). exists w'. split; [|done].
  by rewrite sv_phys_leaf by by apply sv_mark_ok.
Qed.

(** What a walk that found [o] leaves behind. *)
Definition walk_post (virt : Z) (wr fetch : bool) (o : option (leaf K)) w w' : Prop :=
  match o with
  | Some l => if cpu_permits (w_cpu w) (l_pte l) wr fetch then walked virt wr l w w'
              else only_read w w'
  | None => only_read w w'
  end.

Lemma walk_run ks table glob virt wr fetch w w1 :
  phys_wf (w_phys w) → tlb_wf (tlb (w_cpu w)) → wr && fetch = false → only_read w w1 →
  (∀ a, a ∈ walk_slots (pte_at w) ks table virt → rw_slot w a) →
  ∃ w', sv_walk ks table glob virt wr fetch true w1 =
      Done (lookup_result (w_cpu w) virt wr fetch (find_leaf_in (pte_at w) ks table glob virt), w') ∧
    walk_post virt wr fetch (find_leaf_in (pte_at w) ks table glob virt) w w'.
Proof.
  intros Hwf Ht Hwrf. revert table glob w1. induction ks as [|k ks IH]; intros table glob w1 Ho Hrw.
  { by exists w1. }
  cbn [sv_walk find_leaf_in walk_slots] in *. rewrite (bind_Done _ _ _ _ _ eq_refl). cbv zeta in *.
  set (a := sv_slot table virt k) in *. pose proof (Hrw a ltac:(by left)) as Ha.
  destruct (pte_read_run (mhartid (csr (w_cpu w1))) a true w1) as (w2 & Hrd & Ho2);
    [by eapply same_store_wf; [apply Ho|]|by eapply rw_slot_same|].
  rewrite (bind_Done _ _ _ _ _ Hrd), (pte_at_same _ _ _ Ho).
  pose proof (only_read_trans _ _ _ Ho Ho2) as Ho3.
  set (p := sv_decode (pte_at w a)) in *.
  destruct (is_pte_valid p) eqn:Ev; cbn [negb]; [|by exists w2].
  destruct (is_pte_leaf p) eqn:El.
  - destruct (aligned_for p k); cbn [negb]; [|by exists w2].
    set (l := mk_leaf p a k (glob || pte_g p)). pose proof (read_rel_cpu _ _ (proj1 Ho3)) as Ec.
    destruct (finish_run virt wr fetch l w2) as (w' & Hrun & Hpost);
      [by eapply same_store_wf; [apply Ho3|]|by rewrite Ec|done|apply sv_decode_ok
      |by eapply rw_slot_same| |].
    { rewrite (pte_at_same _ _ _ Ho3). symmetry. by apply sv_encode_decode, value_width. }
    exists w'. cbn [lookup_result walk_post]. rewrite Ec in Hrun, Hpost. split; [exact Hrun|].
    destruct (cpu_permits _ _ _ _); [by eapply walked_pre|by subst].
  - apply IH; [done|]. intros b Hb. apply Hrw. right. done.
Qed.

(** The page-table entries consulted for [virt] are writable memory. *)
Definition tables_wired w (virt : Z) : Prop :=
  ∀ a, a ∈ walk_slots (pte_at w) sv_levels (rv_csr_satp_ppn (w_cpu w)) virt → rw_slot w a.

(** The machine is ready to translate [virt]. *)
Record vm_ready w (virt : Z) : Prop := {
  vr_phys : phys_wf (w_phys w);
  vr_tlb : tlb_wf (tlb (w_cpu w));
  vr_virt : in_width XLEN virt;
  vr_tables : tables_wired w virt
}.

Lemma pagewalk_run virt wr fetch w :
  vm_ready w virt → wr && fetch = false →
  ∃ w', sv_pagewalk virt wr fetch true w =
      Done (translate (pte_at w) (w_cpu w) virt wr fetch, w') ∧
    walk_post virt wr fetch (find_leaf (pte_at w) (rv_csr_satp_ppn (w_cpu w)) virt) w w'.
Proof.
  intros [Hwf Ht Hv Htab] Hwrf. unfold sv_pagewalk. rewrite (bind_Done _ _ _ _ _ eq_refl).
  by apply walk_run; [..|apply only_read_refl|].
Qed.

(** ** Translation through the TLB *)
Definition cached_entry w (virt : Z) : option (tlb_entry K) :=
  fst (spec_get (λ e, entry_matches e (rv_csr_satp_asid (w_cpu w)) virt) (mappings (tlb (w_cpu w)))).

(** The entry a lookup finds is the page table's. *)
Definition tlb_agrees w (virt : Z) : Prop :=
  ∀ e, cached_entry w virt = Some e →
  ∃ l, find_leaf (pte_at w) (rv_csr_satp_ppn (w_cpu w)) virt = Some l ∧
    e_pte e = l_pte l ∧ e_size e = l_size l.

Lemma find_leaf_in_props word ks table glob virt l :
  find_leaf_in word ks table glob virt = Some l →
  l_pte l = sv_decode (word (l_addr l)) ∧ is_pte_valid (l_pte l) = true ∧
  is_pte_leaf (l_pte l) = true ∧ aligned_for (l_pte l) (l_size l) = true ∧
  l_addr l ∈ walk_slots word ks table virt.
Proof.
  revert table glob. induction ks as [|k ks IH]; intros table glob; cbn [find_leaf_in walk_slots];
    [done|]. cbv zeta. set (a := sv_slot table virt k). set (p := sv_decode (word a)).
  destruct (is_pte_valid p) eqn:Ev; [|done]. destruct (is_pte_leaf p) eqn:El; cbn [negb andb].
  - destruct (aligned_for p k) eqn:Ea; [|done]. intros [= <-]. cbn. split_and!; try done. by left.
  - intros E. destruct (IH _ _ E) as (? & ? & ? & ? & ?). split_and!; try done. by right.
Qed.

Lemma find_leaf_props word root virt l :
  find_leaf word root virt = Some l →
  is_pte_valid (l_pte l) = true ∧ sv_pte_ok (l_pte l) ∧ sv_misaligned (l_pte l) (l_size l) = false.
Proof.
  intros (Ep & Hv & _ & Ha & _)%find_leaf_in_props. rewrite sv_misaligned_spec, Ha.
  split_and!; [done| |done]. rewrite Ep. apply sv_decode_ok.
Qed.

Definition mark_leaf (wr : bool) (l : leaf K) : leaf K :=
  mk_leaf (mark wr (l_pte l)) (l_addr l) (l_size l) (l_global l).

(** Marking the leaf in memory does not change what the walk finds. *)
Lemma find_leaf_marked word word' wr ks table glob virt l :
  find_leaf_in word ks table glob virt = Some l →
  (∀ b, b ∈ walk_slots word ks table virt → word' b =
     if decide (b = l_addr l) then sv_encode (mark wr (l_pte l)) else word b) →
  find_leaf_in word' ks table glob virt = Some (mark_leaf wr l).
Proof.
  intros Hl. pose proof (find_leaf_in_props _ _ _ _ _ _ Hl) as (Ep & _ & Hlf & _ & _). revert table glob Hl.
  induction ks as [|k ks IH]; intros table glob; cbn [find_leaf_in walk_slots]; [done|].
  cbv zeta. set (a := sv_slot table virt k). set (p := sv_decode (word a)). intros Hl Hw.
  rewrite (Hw a) by by left. destruct (is_pte_valid p) eqn:Ev; [|done].
  destruct (is_pte_leaf p) eqn:El; cbn [negb] in Hl.
  - destruct (aligned_for p k) eqn:Ea; [|done]. injection Hl as <-. cbn [l_addr l_pte] in *.
    rewrite decide_True by done. rewrite sv_decode_encode by apply sv_mark_ok, sv_decode_ok.
    change (is_pte_valid (mark wr p)) with (is_pte_valid p).
    change (is_pte_leaf (mark wr p)) with (is_pte_leaf p).
    change (aligned_for (mark wr p) k) with (aligned_for p k). by rewrite Ev, El, Ea.
  - rewrite decide_False by (intros E; subst p; rewrite E in El; congruence). fold p.
    rewrite Ev, El. cbn [negb]. apply IH; [done|]. intros b Hb. apply Hw. right. done.
Qed.

(** A lookup of [virt] hits an entry that allows the access without an update. *)
Definition ready_hit w (virt : Z) (wr fetch : bool) (phys : Z) : Prop :=
  ∃ e, cached_entry w virt = Some e ∧ is_pte_valid (e_pte e) = true ∧
    cpu_permits (w_cpu w) (e_pte e) wr fetch = true ∧
    sv_misaligned (e_pte e) (e_size e) = false ∧
    pte_access_dirty_update_needed (e_pte e) wr = false ∧
    phys = sv_phys virt (e_pte e) (e_size e).

(** The page-table words after a translation of [virt]. *)
Definition marks_leaf (virt : Z) (wr : bool) w w' : Prop :=
  ∀ b, pte_slot b → pte_at w' b = pte_at w b ∨
    ∃ l, find_leaf (pte_at w) (rv_csr_satp_ppn (w_cpu w)) virt = Some l ∧
      b = l_addr l ∧ pte_at w' b = sv_encode (mark wr (l_pte l)).

Definition with_tlb w (t : rv_tlb K) : W := w <| w_cpu := (w_cpu w) <| tlb := t |> |>.

Lemma translation_rel_csr w w' : translation_rel w w' →
  csr (w_cpu w') = csr (w_cpu w) ∧ priv_mode (w_cpu w') = priv_mode (w_cpu w).
Proof. intros Hrel. by destruct (wr_cpu _ _ Hrel) as [-> | ->]. Qed.

Lemma translation_rel_refl w : translation_rel w w.
Proof. unfold translation_rel. destruct w as [[] ? ? ? ? ? ? ? ? ? ?]. split; cbn; reflexivity. Qed.

Lemma translation_rel_with_tlb w t w' : translation_rel (with_tlb w t) w' → translation_rel w w'.
Proof. done. Qed.

Lemma translation_rel_tlb w t : translation_rel w (with_tlb w t).
Proof. unfold translation_rel, with_tlb. destruct w. split; cbn; reflexivity. Qed.

(** The access rules depend on the control registers and the mode only. *)
Lemma cpu_permits_ext {T T'} (c : rv_cpu T) (c' : rv_cpu T') :
  csr c' = csr c → priv_mode c' = priv_mode c → cpu_permits c' = cpu_permits c.
Proof.
  intros E1 E2. unfold cpu_permits, sv32_effective_priv, rv_csr_mstatus_mprv, rv_csr_mstatus_mpp,
    rv_csr_sstatus_sum, rv_csr_sstatus_mxr, mstatus_bit. by rewrite E1, E2.
Qed.

Lemma leaf_entry_matches c virt wr l :
  entry_matches (leaf_entry c virt wr l) (rv_csr_satp_asid c) virt = true.
Proof.
  unfold entry_matches, leaf_entry, entry_maps_virt. cbn [e_global e_asid e_vpn e_size].
  rewrite Z.eqb_refl, andb_false_r. cbn [negb andb]. by apply Z.eqb_eq.
Qed.

Lemma walked_hit virt wr fetch l w w' :
  walked virt wr l w w' → tables_wired w virt →
  find_leaf (pte_at w) (rv_csr_satp_ppn (w_cpu w)) virt = Some l →
  cpu_permits (w_cpu w) (l_pte l) wr fetch = true →
  ready_hit w' virt wr fetch (leaf_phys (l_pte l) (l_size l) virt) ∧ tlb_agrees w' virt.
Proof.
  intros (_ & _ & _ & Hrel & Hm & Hw) Htab Hl Hp.
  destruct (translation_rel_csr _ _ Hrel) as [Ec Ep].
  destruct (find_leaf_props _ _ _ _ Hl) as (Hval & Hwfp & Hmis).
  assert (cached_entry w' virt = Some (leaf_entry (w_cpu w) virt wr l)) as Hce.
  { unfold cached_entry. rewrite Hm. unfold spec_add, spec_get. cbn [spec_touch].
    unfold rv_csr_satp_asid. rewrite Ec. fold (rv_csr_satp_asid (w_cpu w)).
    by rewrite leaf_entry_matches. }
  split.
  - eexists. split; [exact Hce|]. cbn [leaf_entry e_pte e_size].
    rewrite (cpu_permits_ext _ _ Ec Ep). split_and!; [done|done| | |].
    + rewrite sv_misaligned_spec in *. exact Hmis.
    + unfold pte_access_dirty_update_needed, mark. cbn. by destruct (pte_d (l_pte l)), wr.
    + by rewrite sv_phys_leaf by by apply sv_mark_ok.
  - intros e He. rewrite Hce in He. injection He as <-. exists (mark_leaf wr l).
    split; [|done]. unfold rv_csr_satp_ppn. rewrite Ec. fold (rv_csr_satp_ppn (w_cpu w)).
    eapply find_leaf_marked; [exact Hl|]. intros b Hb. apply Hw, Htab, Hb.
Qed.

(** A page walk with another TLB content. *)
Lemma walk_after virt wr fetch w t :
  vm_ready w virt → tlb_wf t → wr && fetch = false →
  ∃ w', sv_pagewalk virt wr fetch true (with_tlb w t) =
      Done (translate (pte_at w) (w_cpu w) virt wr fetch, w') ∧
    translation_rel w w' ∧ phys_wf (w_phys w') ∧ tlb_wf (tlb (w_cpu w')) ∧ marks_leaf virt wr w w' ∧
    match translate (pte_at w) (w_cpu w) virt wr fetch with
    | inr p => ready_hit w' virt wr fetch p ∧ tlb_agrees w' virt
    | inl _ => tlb (w_cpu w') = t
    end.
Proof.
  intros [Hwf Ht Hv Htab] Htwf Hwrf.
  destruct (pagewalk_run virt wr fetch (with_tlb w t)) as (w' & Hrun & Hpost);
    [by split|done|].
  exists w'. split; [exact Hrun|]. unfold translate.
  change (rv_csr_satp_ppn (w_cpu (with_tlb w t))) with (rv_csr_satp_ppn (w_cpu w)) in Hpost.
  change (pte_at (with_tlb w t)) with (pte_at w) in Hpost.
  assert (only_read (with_tlb w t) w' →
    translation_rel w w' ∧ phys_wf (w_phys w') ∧ tlb_wf (tlb (w_cpu w')) ∧ marks_leaf virt wr w w' ∧
    tlb (w_cpu w') = t) as Hfault.
  { intros Ho. pose proof (read_rel_cpu _ _ (proj1 Ho)) as Ec. rewrite Ec. split_and!; try done.
    - eapply (translation_rel_with_tlb w t), translation_rel_read; [apply Ho|].
      apply translation_rel_refl.
    - by eapply same_store_wf; [apply Ho|].
    - intros b Hb. left. by apply (pte_at_same (with_tlb w t)). }
  destruct (find_leaf _ _ _) as [l|] eqn:El; [|by apply Hfault]. cbn [lookup_result walk_post] in *.
  unfold leaf_result. change (cpu_permits (w_cpu (with_tlb w t))) with (cpu_permits (w_cpu w)) in Hpost.
  destruct (cpu_permits _ _ _ _) eqn:Ep; [|by apply Hfault].
  pose proof (walked_hit virt wr fetch l _ _ Hpost Htab El Ep) as Hhit.
  destruct Hpost as (Hwf' & Ht' & _ & Hrel & _ & Hw). split_and!; try done.
  - intros b Hb. rewrite Hw by done. case_decide; [right; by exists l|by left].
  - apply Hhit.
  - apply Hhit.
Qed.

Lemma spec_touch_matches p (l : list (tlb_entry K)) m r : spec_touch p l = Some (m, r) → p m = true.
Proof.
  revert m r. induction l as [|e l IH]; intros m r; cbn [spec_touch]; [done|].
  destruct (p e) eqn:E; [by intros [= <- <-]|].
  destruct (spec_touch p l) as [[m' r']|]; [|done]. intros [= <- <-]. by eapply IH.
Qed.

(** A lookup keeps the entry it finds in front. *)
Lemma spec_get_again p (l : list (tlb_entry K)) :
  fst (spec_get p (snd (spec_get p l))) = fst (spec_get p l).
Proof.
  unfold spec_get. destruct (spec_touch p l) as [[m r]|] eqn:E; cbn [fst snd]; [|by rewrite E].
  cbn [spec_touch]. by rewrite (spec_touch_matches _ _ _ _ E).
Qed.

(** The TLB lookup of a translation. *)
Lemma lookup_run w virt :
  tlb_wf (tlb (w_cpu w)) →
  ∃ t, on_tlb (tlb_get_mapping (rv_csr_satp_asid (w_cpu w)) virt true) w =
      Done ((λ e, (e_pte e, e_size e)) <$> cached_entry w virt, with_tlb w t) ∧ tlb_wf t ∧
    cached_entry (with_tlb w t) virt = cached_entry w virt.
Proof.
  intros Ht. destruct (tlb_get_spec _ (rv_csr_satp_asid (w_cpu w)) virt true Ht)
    as (t & Hrun & Ht' & _ & Hm).
  exists t. split; [by apply on_tlb_run|]. split; [done|].
  unfold cached_entry. cbn [w_cpu with_tlb]. cbn. rewrite Hm. apply spec_get_again.
Qed.

(** What [sv_convert] answers. *)
Definition convert_result w (virt : Z) (wr fetch : bool) : rv_exc + Z :=
  if use_sv (w_cpu w) fetch then translate (pte_at w) (w_cpu w) virt wr fetch
  else inr virt.

Definition converted (virt : Z) (wr fetch : bool) w w' : Prop :=
  translation_rel w w' ∧ phys_wf (w_phys w') ∧ tlb_wf (tlb (w_cpu w')) ∧
  marks_leaf virt wr w w' ∧ tlb_agrees w' virt ∧
  ∀ p, use_sv (w_cpu w) fetch = true → convert_result w virt wr fetch = inr p →
    ready_hit w' virt wr fetch p.

Lemma marks_refl virt wr w t : marks_leaf virt wr w (with_tlb w t).
Proof. intros b Hb. by left. Qed.

Lemma agrees_with_tlb w t virt :
  tlb_agrees w virt → cached_entry (with_tlb w t) virt = cached_entry w virt →
  tlb_agrees (with_tlb w t) virt.
Proof. intros Hag Hc e He. rewrite Hc in He. by apply Hag. Qed.

Lemma convert_off virt wr fetch noisy w :
  wr && fetch = false → use_sv (w_cpu w) fetch = false →
  sv_convert virt wr fetch noisy w = Done (inr virt, w).
Proof.
  intros Hwrf Huse. unfold sv_convert. rewrite Hwrf. do 2 rewrite (bind_Done _ _ _ _ _ eq_refl).
  by rewrite Huse.
Qed.

(** The start of the translation up to the TLB lookup. *)
Lemma convert_lookup virt wr fetch noisy w :
  tlb_wf (tlb (w_cpu w)) → wr && fetch = false → use_sv (w_cpu w) fetch = true →
  ∃ t, tlb_wf t ∧ cached_entry (with_tlb w t) virt = cached_entry w virt ∧
    sv_convert virt wr fetch noisy w =
    match cached_entry w virt with
    | None => sv_pagewalk virt wr fetch noisy (with_tlb w t)
    | Some e =>
        if is_pte_valid (e_pte e) && cpu_permits (w_cpu w) (e_pte e) wr fetch
           && negb (sv_misaligned (e_pte e) (e_size e))
        then if pte_access_dirty_update_needed (e_pte e) wr
             then (on_tlb (tlb_remove_mapping (rv_csr_satp_asid (w_cpu w)) virt);;
                   sv_pagewalk virt wr fetch noisy) (with_tlb w t)
             else Done (inr (sv_phys virt (e_pte e) (e_size e)), with_tlb w t)
        else Done (inl (page_fault_exception wr fetch), with_tlb w t)
    end.
Proof.
  intros Ht Hwrf Huse. destruct (lookup_run w virt Ht) as (t & Hrun & Ht' & Hc).
  exists t. split; [done|]. split; [done|]. unfold sv_convert. rewrite Hwrf.
  do 2 rewrite (bind_Done _ _ _ _ _ eq_refl). rewrite Huse. cbn [negb]. cbv zeta.
  rewrite (bind_Done _ _ _ _ _ Hrun). destruct (cached_entry w virt) as [e|]; [|done].
  cbn [fmap option_fmap option_map]. destruct (is_pte_valid (e_pte e)); cbn [negb andb]; [|done].
  rewrite (bind_Done _ _ _ _ _ eq_refl), access_permits by done.
  change (cpu_permits (w_cpu (with_tlb w t))) with (cpu_permits (w_cpu w)).
  destruct (cpu_permits _ _ _ _); cbn [negb andb]; [|done].
  destruct (sv_misaligned _ _); cbn [negb andb]; [done|]. by destruct (pte_access_dirty_update_needed _ _).
Qed.

(** An access that a cached entry serves. *)
Lemma hit_run virt wr fetch noisy phys w :
  tlb_wf (tlb (w_cpu w)) → wr && fetch = false → use_sv (w_cpu w) fetch = true →
  ready_hit w virt wr fetch phys →
  ∃ t, sv_convert virt wr fetch noisy w = Done (inr phys, with_tlb w t) ∧ tlb_wf t ∧
    cached_entry (with_tlb w t) virt = cached_entry w virt.
Proof.
  intros Ht Hwrf Huse (e & He & Hv & Hp & Hm & Hu & ->).
  destruct (convert_lookup virt wr fetch noisy w Ht Hwrf Huse) as (t & Ht' & Hc & ->).
  rewrite He, Hv, Hp, Hm, Hu. cbn [andb negb]. exists t. by rewrite Hc, He.
Qed.

(** Clauses of [converted] when only the TLB changed. *)
Ltac tlb_only :=
  try first [done | apply translation_rel_tlb | apply marks_refl
            | apply agrees_with_tlb; [done|congruence]].

(** With a TLB whose entry for the address (if any) is the page table's,
    translation gives the answer of the table lookup. *)
Lemma convert_run virt wr fetch w :
  vm_ready w virt → wr && fetch = false → tlb_agrees w virt →
  ∃ w', sv_convert virt wr fetch true w = Done (convert_result w virt wr fetch, w') ∧
    converted virt wr fetch w w'.
Proof.
  intros Hr Hwrf Hag. pose proof Hr as [Hwf Ht Hv _]. unfold converted, convert_result.
  destruct (use_sv (w_cpu w) fetch) eqn:Huse; cycle 1.
  { exists w. rewrite convert_off by done. split; [done|].
    split_and!; try done; [apply translation_rel_refl|by left]. }
  destruct (convert_lookup virt wr fetch true w Ht Hwrf Huse) as (t & Ht' & Hc & ->).
  destruct (cached_entry w virt) as [e|] eqn:He.
  - destruct (Hag e He) as (l & Hl & E1 & E2).
    destruct (find_leaf_props _ _ _ _ Hl) as (Hval & Hwfp & Hmis).
    rewrite <- E1, <- E2 in *. rewrite Hval, Hmis. cbn [negb andb]. rewrite andb_true_r.
    assert (translate (pte_at w) (w_cpu w) virt wr fetch =
      if cpu_permits (w_cpu w) (e_pte e) wr fetch
      then inr (leaf_phys (e_pte e) (e_size e) virt) else inl (page_fault_exception wr fetch))
      as Etr by (unfold translate; rewrite Hl; unfold lookup_result, leaf_result; by rewrite E1, E2).
    destruct (cpu_permits _ _ _ _) eqn:Hp; cycle 1.
    { rewrite Etr. eexists. split; [done|]. by split_and!; tlb_only. }
    destruct (pte_access_dirty_update_needed (e_pte e) wr) eqn:Hu.
    + destruct (tlb_remove_spec t (rv_csr_satp_asid (w_cpu w)) virt Ht') as (t2 & Hrm & Ht2 & _).
      rewrite (bind_Done _ _ _ _ _ (on_tlb_run _ (with_tlb w t) _ _ Hrm)).
      change (_ <| w_cpu := _ |>) with (with_tlb w t2).
      destruct (walk_after virt wr fetch w t2 Hr Ht2 Hwrf) as (w' & Hrun & ? & ? & ? & ? & Hpost).
      exists w'. rewrite Etr in *. split; [exact Hrun|]. destruct Hpost as [Hhit Hag'].
      split_and!; try done. intros p _ [= <-]. done.
    + rewrite sv_phys_leaf, Etr by done. eexists. split; [done|]. split_and!; tlb_only.
      intros p _ [= <-]. exists e. rewrite Hc. split_and!; try done. by rewrite sv_phys_leaf.
  - destruct (walk_after virt wr fetch w t Hr Ht' Hwrf) as (w' & Hrun & Hrel & ? & ? & ? & Hpost).
    exists w'. split; [exact Hrun|]. destruct (translate _ _ _ _ _) as [ex|p] eqn:Etr.
    + split_and!; try done. intros e He'. exfalso. destruct (translation_rel_csr _ _ Hrel) as [Ec _].
      assert (cached_entry w' virt = cached_entry (with_tlb w t) virt) as E
        by (unfold cached_entry, rv_csr_satp_asid; by rewrite Hpost, Ec).
      congruence.
    + split_and!; try done; [apply Hpost|]. intros q _ [= <-]. apply Hpost.
Qed.

Lemma permits_weaker mode sum mxr pte wr wr' :
  is_pte_valid pte = true → (wr' = true → wr = true) →
  permits mode sum mxr pte wr false = true → permits mode sum mxr pte wr' false = true.
Proof.
  unfold is_pte_valid, permits. intros Hv Hle Hp.
  destruct wr, wr'; try done; [|discriminate (Hle eq_refl)].
  apply andb_true_iff in Hp as [Hw Hu]. rewrite Hw in Hv. cbn in Hv.
  apply andb_true_iff in Hv as [_ ->]. by rewrite Hu.
Qed.

Lemma use_sv_ext {T T'} (c : rv_cpu T) (c' : rv_cpu T') fetch :
  csr c' = csr c → priv_mode c' = priv_mode c → use_sv c' fetch = use_sv c fetch.
Proof.
  intros E1 E2. unfold use_sv, sv32_effective_priv, rv_csr_mstatus_mprv, rv_csr_mstatus_mpp,
    mstatus_bit, rv_csr_satp_is_bare. by rewrite E1, E2.
Qed.

(** A data address just translated translates again to the same address. *)
Lemma convert_again_run virt wr wr' noisy phys w w1 :
  vm_ready w virt → tlb_agrees w virt → (wr' = true → wr = true) →
  sv_convert virt wr false true w = Done (inr phys, w1) →
  ∃ w2, sv_convert virt wr' false noisy w1 = Done (inr phys, w2) ∧ w_phys w2 = w_phys w1.
Proof.
  intros Hr Hag Hle Hrun. assert (wr && false = false ∧ wr' && false = false) as [Hf Hf']
    by (by destruct wr, wr').
  destruct (convert_run virt wr false w Hr Hf Hag) as (w1' & Hrun' & Hrel & _ & Ht & _ & _ & Hhit).
  rewrite Hrun in Hrun'. injection Hrun' as Eres <-.
  destruct (translation_rel_csr _ _ Hrel) as [Ec Ep].
  pose proof (use_sv_ext _ _ false Ec Ep) as Euse.
  unfold convert_result in *. destruct (use_sv (w_cpu w) false) eqn:Huse.
  - symmetry in Eres. destruct (Hhit phys eq_refl Eres) as (e & He & Hv & Hp & Hm & Hu & Ephys).
    destruct (hit_run virt wr' false noisy phys w1) as (t & Hrun2 & _); [done..| |by eexists].
    exists e. split_and!; try done; [by eapply permits_weaker|].
    unfold pte_access_dirty_update_needed in *. destruct (pte_a (e_pte e)), (pte_d (e_pte e)), wr, wr';
      try done. by specialize (Hle eq_refl).
  - exists w1. injection Eres as <-. by rewrite convert_off.
Qed.

(** A translated address is below the limit of the format. *)
Lemma translate_range word (c : rv_cpu (rv_tlb K)) virt wr fetch phys :
  translate word c virt wr fetch = inr phys → 0 ≤ phys < 2 ^ (sv_ppn_bits + 12).
Proof.
  unfold translate. destruct (find_leaf _ _ _) as [l|] eqn:El; [|done]. cbn [lookup_result].
  destruct (find_leaf_props _ _ _ _ El) as (_ & Hok & _). unfold leaf_result.
  destruct (cpu_permits _ _ _ _); [|done]. intros [= <-]. unfold leaf_phys.
  pose proof (sv_ppn_width _ Hok) as Hp. pose proof (sv_shift (l_size l)) as Hs.
  set (s := page_shift (l_size l)) in *. unfold in_width in Hp.
  assert (0 < 2 ^ (s - 12)) by (apply Z.pow_pos_nonneg; lia).
  assert (0 < 2 ^ s) by (apply Z.pow_pos_nonneg; lia).
  pose proof (Z.mod_pos_bound virt (2 ^ s)). set (q := pte_ppn (l_pte l) / 2 ^ (s - 12)).
  assert (2 ^ sv_ppn_bits = 2 ^ (s - 12) * 2 ^ (sv_ppn_bits - (s - 12))) as Eb
    by (rewrite <- Z.pow_add_r by lia; f_equal; lia).
  assert (0 ≤ q < 2 ^ (sv_ppn_bits - (s - 12))) as Hq.
  { split; [apply Z.div_pos; lia|apply Z.div_lt_upper_bound; lia]. }
  assert (2 ^ (sv_ppn_bits + 12) = 2 ^ (sv_ppn_bits - (s - 12)) * 2 ^ s) as ->
    by (rewrite <- Z.pow_add_r by lia; f_equal; lia).
  nia.
Qed.

Lemma convert_range virt wr fetch phys w w1 :
  vm_ready w virt → wr && fetch = false → tlb_agrees w virt →
  sv_convert virt wr fetch true w = Done (inr phys, w1) →
  phys = virt ∨ 0 ≤ phys < 2 ^ (sv_ppn_bits + 12).
Proof.
  intros Hr Hwrf Hag Hrun. destruct (convert_run virt wr fetch w Hr Hwrf Hag) as (w' & Hrun' & _).
  rewrite Hrun in Hrun'. injection Hrun' as E _. unfold convert_result in E.
  destruct (use_sv _ _); [right; by eapply translate_range|left; congruence].
Qed.
End Walk.
