(* ===== verification/Rv32VmProps.v ===== *)
(** * Sv32 address translation: properties

    The page walk and the address translation of riscv_rv32ima/cpu.c are those
    of [RvVmProps] for two levels of 32-bit entries, so they implement the
    translation of the architecture manual. *)

From S2P Require Import Prelude PhysMem RvTypes RvCpu RvCsr RvCsrProps RvTlb Rv32Tlb Machine RvWorld.
From S2P Require Import MachineProps RvWorld RvMem RvVm Rv32Vm Rv32Cpu RvVmProps RvSample.
Import PhysMem.

(** page-table words and page-table entries correspond one to one: packing
    an unpacked 32-bit word gives the word, and unpacking a packed entry gives
    the entry. *)
Theorem pte_round_trip v p :
  (in_width 32 v → uint_from_pte (pte_from_uint v) = v) ∧
  (pte_wf p → pte_from_uint (uint_from_pte p) = p ∧ in_width 32 (uint_from_pte p)).
Proof.
  split; [apply uint_pte_uint|].
  intros Hp. split; [by apply pte_uint_pte|by apply uint_from_pte_width].
Qed.

(** ** The format *)
#[export] Instance sv32 : Sv bool := {|
  sv_wide := false; sv_vpn_bits := 10; sv_ppn_bits := 22; sv_levels := [true; false];
  sv_decode := pte_from_uint; sv_encode := uint_from_pte; sv_pte_ok := pte_wf;
  sv_phys := make_phys_from_ppn;
  sv_misaligned := λ pte megapage, megapage && negb (pte_ppn0 pte =? 0)
|}.

Lemma pte_ppn0_mod p : pte_ppn0 p = pte_ppn p mod 2 ^ 10.
Proof. unfold pte_ppn0. change 0x3FF with (Z.ones 10). by apply Z.land_ones. Qed.

Lemma pte_ppn_width p : pte_wf p → in_width 22 (pte_ppn p).
Proof. intros [Hok _]. exact (proj2 (Forall_lookup_1 _ _ 9 (pte_ppn p, 22) Hok eq_refl)). Qed.

Lemma make_phys_leaf virt pte mega :
  pte_wf pte → make_phys_from_ppn virt pte mega = leaf_phys pte mega virt.
Proof.
  intros Hp%pte_ppn_width. unfold make_phys_from_ppn, leaf_phys, pte_ppn0, pte_ppn1. cbv zeta.
  change 0x3FFC00 with (Z.shiftl (Z.ones 12) 10). change 0x3FF with (Z.ones 10).
  change 0xFFF with (Z.ones 12). change 0x3FF000 with (Z.shiftl (Z.ones 10) 12).
  rewrite !land_field, !Z.land_ones, Z.shiftl_shiftl by lia. change (10 + 12) with 22.
  unfold in_width in *. rewrite (Z.mod_small (pte_ppn pte / 2 ^ 10)) by
    (split; [apply Z.div_pos; lia|apply Z.div_lt_upper_bound; lia]).
  destruct mega; cbn [page_shift sv32_sizes]; unfold RV_MEGAPAGESIZE, RV_PAGESIZE;
    rewrite (lor_fields _ _ _ 22 12) by first [lia | apply Z.mod_pos_bound; lia];
    Z.to_euclidean_division_equations; lia.
Qed.

#[export] Instance sv32_laws : SvLaws bool.
Proof.
  split.
  - intros []; cbn; unfold RV_MEGAPAGESIZE, RV_PAGESIZE; lia.
  - apply pte_from_uint_wf.
  - apply uint_pte_uint.
  - apply pte_uint_pte.
  - apply uint_from_pte_width.
  - intros wr p [Hok Hz]. split; [|done].
    apply Forall_app in Hok as [_ Hok]. apply Forall_app. split; [apply flags_ok|exact Hok].
  - apply pte_ppn_width.
  - intros virt p k. apply make_phys_leaf.
  - intros p []; cbn [sv_misaligned sv32 andb].
    + by rewrite pte_ppn0_mod.
    + unfold aligned_for. cbn. by rewrite Z.mod_1_r.
Qed.

Lemma satp_ppn_width {T} (c : rv_cpu T) : in_width 22 (rv_csr_satp_ppn c).
Proof. apply land_width_r; [lia|]. unfold in_width. vm_compute. split; congruence. Qed.

(** ** The functions of the processor *)
Section Refine.
Context {D : Type} `{Board rv32_tlb D}.
Abbreviation W := (world rv32_tlb D).
Implicit Types w : W.

Lemma root_slot_eq table virt :
  Z.shiftl table RV_PAGESIZE + Z.shiftr (Z.land virt 0xFFC00000) 22 * RV_PTESIZE
  = sv_slot table virt true.
Proof.
  change 0xFFC00000 with (Z.shiftl (Z.ones 10) 22). rewrite field_shiftr by lia.
  unfold sv_slot. by rewrite Z.shiftl_mul_pow2.
Qed.

Lemma next_slot_eq pte virt :
  pte_ppn_phys pte + Z.shiftr (Z.land virt 0x003FF000) 12 * RV_PTESIZE
  = sv_slot (pte_ppn pte) virt false.
Proof.
  change 0x3FF000 with (Z.shiftl (Z.ones 10) 12). rewrite field_shiftr by lia.
  unfold sv_slot, pte_ppn_phys. by rewrite Z.shiftl_mul_pow2.
Qed.

Lemma pagewalk_generic virt wr fetch noisy w :
  rv32_pagewalk virt wr fetch noisy w = sv_pagewalk virt wr fetch noisy w.
Proof.
  unfold rv32_pagewalk, sv_pagewalk. cbn [sv_levels sv32 sv_walk]. cbv zeta.
  rewrite !(bind_Done cpu _ w (w_cpu w) w eq_refl), root_slot_eq.
  apply bind_ext. intros v w2. cbn [sv_decode sv32].
  set (p := pte_from_uint v). destruct (is_pte_valid p); [|done]. cbn [negb].
  destruct (is_pte_leaf p).
  { by rewrite <- (sv_misaligned_spec p true). }
  apply bind_ext. intros c' w3. rewrite next_slot_eq. apply bind_ext. intros v' w4.
  set (q := pte_from_uint v'). destruct (is_pte_valid q); [|done]. cbn [negb].
  destruct (is_pte_leaf q); [|done]. unfold aligned_for. cbn. by rewrite Z.mod_1_r.
Qed.

Lemma convert_generic virt wr fetch noisy w :
  rv_convert_addr virt wr fetch noisy w = sv_convert virt wr fetch noisy w.
Proof.
  unfold rv_convert_addr, sv_convert. apply bind_ext. intros _ w1. apply bind_ext. intros c w2.
  destruct (use_sv c fetch); [|done]. cbn [negb]. cbv zeta. apply bind_ext. intros [[pte mega]|] w3;
    [|apply pagewalk_generic].
  destruct (is_pte_valid pte); [|done]. cbn [negb]. apply bind_ext. intros c' w4.
  destruct (is_access_allowed _ _ _ _); [|done]. cbn [negb sv_misaligned sv32].
  destruct (mega && _); [done|]. destruct (pte_access_dirty_update_needed _ _); [|done]. cbn [negb].
  apply bind_ext. intros _ w5. apply pagewalk_generic.
Qed.

(** The page walk computes the translation of the architecture manual on
    the words of physical memory.  When it succeeds it sets the accessed bit (and
    for a write the dirty bit) of the leaf entry in memory, changes no other
    word, and caches exactly that entry in the TLB; when it fails it raises the
    page fault of the access type and changes nothing but the bookkeeping of
    memory reads. *)
Theorem pagewalk_refines virt wr fetch w :
  vm_ready w virt → wr && fetch = false →
  ∃ w', rv32_pagewalk virt wr fetch true w =
      Done (translate (pte_at w) (w_cpu w) virt wr fetch, w') ∧
    walk_post virt wr fetch (find_leaf (pte_at w) (rv_csr_satp_ppn (w_cpu w)) virt) w w'.
Proof. rewrite pagewalk_generic. apply pagewalk_run. Qed.

(** C3: with a TLB whose entry for the address (if any) is the page table's,
    address translation gives exactly the architectural answer: the identity when
    translation is off, otherwise the page-table translation or the page fault
    of the access type.  It changes memory only by marking the leaf entry,
    changes no processor state but the TLB and reservations, and leaves the TLB
    in agreement with the page table. *)
Theorem convert_refines virt wr fetch w :
  vm_ready w virt → wr && fetch = false → tlb_agrees w virt →
  ∃ w', rv_convert_addr virt wr fetch true w = Done (convert_result w virt wr fetch, w') ∧
    converted virt wr fetch w w'.
Proof. rewrite convert_generic. apply convert_run. Qed.

(** A data address just translated translates again to the same physical
    address for the same or a weaker access, without another page walk, whether
    the second translation is noisy or not.  This is what the assertions of LR
    and of the AMO instructions rely on. *)
Theorem convert_again virt wr wr' noisy phys w w1 :
  vm_ready w virt → tlb_agrees w virt → (wr' = true → wr = true) →
  rv_convert_addr virt wr false true w = Done (inr phys, w1) →
  ∃ w2, rv_convert_addr virt wr' false noisy w1 = Done (inr phys, w2) ∧ w_phys w2 = w_phys w1 ∧
    0 ≤ phys < 2 ^ 34.
Proof.
  rewrite !convert_generic. intros Hr Hag Hle Hrun.
  destruct (convert_again_run virt wr wr' noisy phys w w1 Hr Hag Hle Hrun) as (w2 & Hrun2 & Hp).
  exists w2. split_and!; [done|done|..];
    destruct (convert_range virt wr false phys w w1) as [-> | Hlt]; try done;
    try (by destruct wr); try apply Hlt; destruct (vr_virt _ _ Hr); cbn in *; lia.
Qed.
End Refine.

(** ** Witnesses *)
Lemma pte_round_trip_witness :
  uint_from_pte (pte_from_uint 0x3C00001F) = 0x3C00001F ∧
  pte_from_uint (uint_from_pte (pte_from_uint 0x401)) = pte_from_uint 0x401.
Proof.
  destruct (pte_round_trip 0x3C00001F (pte_from_uint 0x401)) as [Hv Hp]. split.
  - apply Hv. unfold in_width. lia.
  - apply Hp, pte_from_uint_wf.
Defined.

Lemma sample_rw a f :
  slot_ok a → lookup_frame (Sample.memory Sample.page_table []) a = Some f → frame_area f = 1 →
  rw_slot (Sample.vm_machine []) a.
Proof. intros Hs Hf Ha. split; [done|]. exists f, (Sample.low_ram Sample.page_table). by rewrite Ha. Qed.

Lemma sample_ready : vm_ready (Sample.vm_machine []) 0x1008.
Proof.
  split.
  - apply Sample.memory_wf. apply Sample.store_le_ok, Sample.store_le_ok, Sample.empty_ok.
  - by apply empty_tlb_wf.
  - unfold in_width. cbn. lia.
  - unfold tables_wired. set (l := walk_slots _ _ _ _). vm_compute in l. subst l.
    intros a [->|[->|[]%elem_of_nil]%elem_of_cons]%elem_of_cons;
      (eapply sample_rw; [split; [unfold PHYS_LIMIT; lia|done]|vm_compute; reflexivity|done]).
Qed.

Lemma sample_agrees : tlb_agrees (Sample.vm_machine []) 0x1008.
Proof. intros e. discriminate. Qed.

Lemma pagewalk_refines_witness :
  ∃ w', rv32_pagewalk 0x1008 true false true (Sample.vm_machine []) = Done (inr 0xF0000008, w') ∧
    pte_at w' 0x1004 = 0x3C0000DF.
Proof.
  destruct (pagewalk_refines 0x1008 true false (Sample.vm_machine []) sample_ready eq_refl)
    as (w' & Hrun & Hpost).
  exists w'. split; [exact Hrun|]. set (fl := find_leaf _ _ _) in Hpost. vm_compute in fl. subst fl.
  unfold walk_post in Hpost. match type of Hpost with if ?b then _ else _ => replace b with true in Hpost
    by (vm_compute; reflexivity) end.
  destruct Hpost as (_ & _ & _ & _ & _ & Hw).
  refine (eq_trans (Hw 0x1004 _) _); [unfold slot, PHYS_LIMIT; split; [lia|done]|reflexivity].
Defined.

Lemma convert_refines_witness :
  ∃ w', rv_convert_addr 0x1008 false true true (Sample.vm_machine []) = Done (inr 0xF0000008, w') ∧
    tlb_agrees w' 0x1008.
Proof.
  destruct (convert_refines 0x1008 false true (Sample.vm_machine []) sample_ready eq_refl sample_agrees)
    as (w' & Hrun & Hpost).
  exists w'. split; [exact Hrun|]. apply Hpost.
Defined.

Lemma convert_again_witness :
  ∃ w1 w2, rv_convert_addr 0x1008 true false true (Sample.vm_machine []) = Done (inr 0xF0000008, w1) ∧
    rv_convert_addr 0x1008 false false false w1 = Done (inr 0xF0000008, w2).
Proof.
  destruct (rv_convert_addr 0x1008 true false true (Sample.vm_machine [])) as [[[ex|p] w1]|e] eqn:E;
    [vm_compute in E; discriminate| |vm_compute in E; discriminate].
  assert (p = 0xF0000008) as -> by (vm_compute in E; congruence).
  destruct (convert_again 0x1008 true false false 0xF0000008 _ w1 sample_ready sample_agrees
    ltac:(done) E) as (w2 & Hrun & _).
  exists w1, w2. split; [reflexivity|exact Hrun].
Defined.
