(* ===== verification/Rv64VmProps.v ===== *)
(** * Sv39 address translation: properties

    The page walk and the address translation of riscv_rv64ima/cpu.c are those
    of [RvVmProps] for three levels of 64-bit entries.  They implement the
    table lookup of the architecture manual for the low 39 bits of an address: the
    upper bits of the address and the reserved bits of the entries take no part in
    the walk.  For canonical addresses and entries without reserved bits the answer
    is the architectural one. *)

From S2P Require Import Prelude PhysMem RvTypes RvCpu RvCsr RvCsrProps RvTlb Rv64Tlb Machine RvWorld.
From S2P Require Import MachineProps RvWorld RvMem RvVm Rv64Vm Rv64Cpu RvVmProps.
From S2P Require Import RvSample.
Import PhysMem.
#[local] Existing Instance xlen64.

(** page-table words and page-table entries correspond one to one. *)
Theorem sv39_pte_round_trip v p :
  (in_width 64 v → sv39_uint_from_pte (sv39_pte_from_uint v) = v) ∧
  (sv39_pte_wf p → sv39_pte_from_uint (sv39_uint_from_pte p) = p ∧ in_width 64 (sv39_uint_from_pte p)).
Proof.
  split; [apply sv39_uint_pte_uint|].
  intros Hp. split; [by apply sv39_pte_uint_pte|by apply sv39_uint_from_pte_width].
Qed.

(** ** The format *)
#[export] Instance sv39 : Sv sv39_page_type := {|
  sv_wide := true; sv_vpn_bits := 9; sv_ppn_bits := 44; sv_levels := [gigapage; megapage; page];
  sv_decode := sv39_pte_from_uint; sv_encode := sv39_uint_from_pte; sv_pte_ok := sv39_pte_wf;
  sv_phys := sv39_make_phys_from_ppn; sv_misaligned := sv39_misaligned
|}.

Lemma ppn0_mod p : sv39_pte_ppn0 p = pte_ppn p mod 2 ^ 9.
Proof. unfold sv39_pte_ppn0. change 0x1FF with (Z.ones 9). by apply Z.land_ones. Qed.
Lemma ppn1_mod p : sv39_pte_ppn1 p = pte_ppn p / 2 ^ 9 mod 2 ^ 9.
Proof.
  unfold sv39_pte_ppn1. change 0x1FF with (Z.ones 9). rewrite Z.land_ones by lia.
  by rewrite Z.shiftr_div_pow2.
Qed.
Lemma ppn2_div p : sv39_pte_ppn2 p = pte_ppn p / 2 ^ 18.
Proof. by apply Z.shiftr_div_pow2. Qed.

Lemma sv39_ppn_width p : sv39_pte_wf p → in_width 44 (pte_ppn p).
Proof. intros Hok. exact (proj2 (Forall_lookup_1 _ _ 9 (pte_ppn p, 44) Hok eq_refl)). Qed.

Lemma lor_fields_3 m y z o : in_width 9 y → in_width 9 z → in_width 12 o →
  Z.lor (Z.lor (Z.shiftl m 30) (Z.lor (Z.shiftl y 21) (Z.shiftl z 12))) o
  = m * 2 ^ 30 + y * 2 ^ 21 + z * 2 ^ 12 + o.
Proof.
  intros Hy Hz Ho. unfold in_width in *. rewrite <- !Z.lor_assoc.
  rewrite (lor_disjoint z), (lor_disjoint y), (lor_disjoint m) by (unfold in_width; lia). lia.
Qed.

Lemma sv39_phys_leaf virt p k :
  sv39_pte_wf p → sv39_make_phys_from_ppn virt p k = leaf_phys p k virt.
Proof.
  intros Hp%sv39_ppn_width. unfold sv39_make_phys_from_ppn, leaf_phys.
  rewrite ppn0_mod, ppn1_mod, ppn2_div. cbv zeta. change 0xFFF with (Z.ones 12).
  change 0x1FF000 with (Z.shiftl (Z.ones 9) 12). change 0x3FFFF000 with (Z.shiftl (Z.ones 18) 12).
  rewrite !land_field, !Z.land_ones by lia.
  destruct k; cbn [page_shift sv39_sizes]; unfold RV64_PAGESIZE, RV64_MEGAPAGESIZE, RV64_GIGAPAGESIZE.
  - rewrite lor_fields_3 by (apply Z.mod_pos_bound; lia). Z.to_euclidean_division_equations. lia.
  - rewrite lor_fields_3 by (apply Z.mod_pos_bound; lia). Z.to_euclidean_division_equations. lia.
  - rewrite (lor_fields _ _ _ 30 12) by first [lia | apply Z.mod_pos_bound; lia].
    Z.to_euclidean_division_equations. lia.
Qed.

Lemma sv39_aligned p k : sv39_misaligned p k = negb (aligned_for p k).
Proof.
  unfold aligned_for. destruct k; cbn [sv39_misaligned page_shift sv39_sizes];
    unfold RV64_PAGESIZE, RV64_MEGAPAGESIZE, RV64_GIGAPAGESIZE; rewrite ?ppn0_mod, ?ppn1_mod.
  - by rewrite Z.mod_1_r.
  - done.
  - rewrite <- negb_andb. f_equal. apply eq_true_iff_eq. rewrite andb_true_iff, !Z.eqb_eq.
    change (2 ^ (30 - 12)) with (2 ^ 9 * 2 ^ 9). change (2 ^ 9) with 512.
    split; intros; Z.to_euclidean_division_equations; lia.
Qed.

#[export] Instance sv39_laws : SvLaws sv39_page_type.
Proof.
  split.
  - intros []; cbn; unfold RV64_PAGESIZE, RV64_MEGAPAGESIZE, RV64_GIGAPAGESIZE; lia.
  - apply sv39_pte_from_uint_wf.
  - apply sv39_uint_pte_uint.
  - apply sv39_pte_uint_pte.
  - apply sv39_uint_from_pte_width.
  - intros wr p Hok. apply Forall_app in Hok as [_ Hok]. apply Forall_app. split; [apply flags_ok|exact Hok].
  - apply sv39_ppn_width.
  - intros virt p k. apply sv39_phys_leaf.
  - apply sv39_aligned.
Qed.

(** ** The functions of the processor *)
Section Refine.
Context {D : Type} `{Board rv64_tlb D}.
Abbreviation W := (world rv64_tlb D).
Implicit Types w : W.

Lemma slot_eq table virt mask k : mask = Z.shiftl (Z.ones 9) (page_shift k) →
  Z.shiftl table RV64_PAGESIZE + Z.shiftr (Z.land virt mask) (page_shift k) * RV64_PTESIZE
  = sv_slot table virt k.
Proof.
  intros ->. rewrite field_shiftr by first [lia | destruct k; by vm_compute].
  unfold sv_slot. by rewrite Z.shiftl_mul_pow2.
Qed.

Lemma sv39_pagewalk_generic virt wr fetch noisy w :
  rv64_pagewalk virt wr fetch noisy w = sv_pagewalk virt wr fetch noisy w.
Proof.
  unfold rv64_pagewalk, sv_pagewalk. cbn [sv_levels sv39 sv_walk]. cbv zeta.
  rewrite !(bind_Done cpu _ w (w_cpu w) w eq_refl).
  rewrite (slot_eq _ virt 0x007FC0000000 gigapage eq_refl).
  apply bind_ext. intros v w2. cbn [sv_decode sv39].
  set (p := sv39_pte_from_uint v). unfold sv39_is_pte_valid, sv39_is_pte_leaf.
  destruct (is_pte_valid p); [|done]. cbn [negb].
  destruct (is_pte_leaf p); [by rewrite <- (sv_misaligned_spec p gigapage)|].
  apply bind_ext. intros c' w3. unfold sv39_pte_ppn_phys.
  rewrite (slot_eq _ virt 0x00003FE00000 megapage eq_refl). apply bind_ext. intros v' w4.
  set (q := sv39_pte_from_uint v'). destruct (is_pte_valid q); [|done]. cbn [negb].
  destruct (is_pte_leaf q); [by rewrite <- (sv_misaligned_spec q megapage)|].
  apply bind_ext. intros c'' w5.
  rewrite (slot_eq _ virt 0x0000001FF000 page eq_refl). apply bind_ext. intros v'' w6.
  set (r := sv39_pte_from_uint v''). destruct (is_pte_valid r); [|done]. cbn [negb].
  destruct (is_pte_leaf r); [|done]. by rewrite <- (sv_misaligned_spec r page).
Qed.

Lemma sv39_convert_generic virt wr fetch noisy w :
  rv64_convert virt wr fetch noisy w = sv_convert virt wr fetch noisy w.
Proof.
  unfold rv64_convert, sv_convert. apply bind_ext. intros _ w1. apply bind_ext. intros c w2.
  destruct (use_sv c fetch); [|done]. cbn [negb]. cbv zeta. apply bind_ext. intros [[pte k]|] w3;
    [|apply sv39_pagewalk_generic].
  unfold sv39_is_pte_valid. destruct (is_pte_valid pte); [|done]. cbn [negb]. apply bind_ext.
  intros c' w4. unfold rv64_is_access_allowed, rv64_pte_access_dirty_update_needed.
  destruct (is_access_allowed _ _ _ _); [|done]. cbn [negb sv_misaligned sv39].
  destruct (sv39_misaligned _ _); [done|]. destruct (pte_access_dirty_update_needed _ _); [|done].
  cbn [negb]. apply bind_ext. intros _ w5. apply sv39_pagewalk_generic.
Qed.

(** The Sv39 page walk computes the table lookup of the architecture manual, with
    reserved bits ignored, on the double words of physical memory, over three levels with pages,
    megapages and gigapages.  When it succeeds it sets the accessed (and for a
    write the dirty) bit of the leaf entry in memory, changes no other double
    word, and caches exactly that entry; when it fails it raises the page fault of
    the access type and changes nothing but the bookkeeping of memory reads. *)
Theorem sv39_pagewalk_refines virt wr fetch w :
  vm_ready w virt → wr && fetch = false →
  ∃ w', rv64_pagewalk virt wr fetch true w =
      Done (translate (pte_at w) (w_cpu w) virt wr fetch, w') ∧
    walk_post virt wr fetch (find_leaf (pte_at w) (rv_csr_satp_ppn (w_cpu w)) virt) w w'.
Proof. rewrite sv39_pagewalk_generic. apply pagewalk_run. Qed.

(** The translation of the architecture manual: the upper bits of the address repeat
    bit 38, and bits 54 to 63 of every entry used are zero, since the processor has
    neither of the extensions that define some of them; otherwise the access faults. *)
Definition canonical (virt : Z) : bool := (virt / 2 ^ 38 =? 0) || (virt / 2 ^ 38 =? 2 ^ 26 - 1).

Definition reserved_clear (p : sv_pte) : bool := (pte_reserved p =? 0) && (pte_pbmt p =? 0) && (pte_n p =? 0).

Fixpoint arch_leaf_in (word : Z → Z) (ks : list sv39_page_type) (table : Z) (glob : bool) (virt : Z) : option (leaf sv39_page_type) :=
  match ks with
  | [] => None
  | k :: ks' =>
      let a := sv_slot table virt k in
      let p := sv_decode (word a) in
      if negb (is_pte_valid p && reserved_clear p) then None
      else if is_pte_leaf p then
        if aligned_for p k then Some (mk_leaf p a k (glob || pte_g p)) else None
      else arch_leaf_in word ks' (pte_ppn p) (glob || pte_g p) virt
  end.

Definition arch_result w (virt : Z) (wr fetch : bool) : rv_exc + Z :=
  if use_sv (w_cpu w) fetch then
    lookup_result (w_cpu w) virt wr fetch
      (if canonical virt then arch_leaf_in (pte_at w) sv_levels (rv_csr_satp_ppn (w_cpu w)) false virt else None)
  else inr virt.

(** No valid entry that the lookup of [virt] reads has a reserved bit. *)
Definition entries_clear w (virt : Z) : Prop :=
  ∀ a, a ∈ walk_slots (pte_at w) sv_levels (rv_csr_satp_ppn (w_cpu w)) virt →
    is_pte_valid (sv_decode (pte_at w a)) = true → reserved_clear (sv_decode (pte_at w a)) = true.

Lemma arch_leaf_clear word ks table glob virt :
  (∀ a, a ∈ walk_slots word ks table virt → is_pte_valid (sv_decode (word a)) = true →
     reserved_clear (sv_decode (word a)) = true) →
  arch_leaf_in word ks table glob virt = find_leaf_in word ks table glob virt.
Proof.
  revert table glob. induction ks as [|k ks IH]; intros table glob Hc; cbn [arch_leaf_in find_leaf_in walk_slots] in *; [done|].
  cbv zeta in *. set (a := sv_slot table virt k) in *. pose proof (Hc a ltac:(by left)) as Ha.
  destruct (is_pte_valid (sv_decode (word a))) eqn:Ev; [|done]. rewrite (Ha eq_refl). cbn [andb negb] in *.
  destruct (is_pte_leaf (sv_decode (word a))); [done|]. apply IH. intros b Hb. apply Hc. by right.
Qed.

Lemma arch_result_clear virt wr fetch w : canonical virt = true → entries_clear w virt →
  convert_result w virt wr fetch = arch_result w virt wr fetch.
Proof.
  intros Hv Hc. unfold convert_result, arch_result, translate, find_leaf. destruct (use_sv _ _); [|done].
  by rewrite Hv, arch_leaf_clear.
Qed.

(** C24: with a TLB whose entry for the address (if any) is the page table's, the
    address translation of the RV64 processor gives exactly the answer of the
    three-level table lookup for the low 39 bits of the address, which ignores bits
    54 to 63 of the entries; for a canonical address and entries whose reserved bits
    are zero this is the architectural Sv39 answer.  It marks only the leaf entry,
    changes no processor state but the TLB and reservations, leaves the TLB in
    agreement with the page table, and gives addresses below [2 ^ 56] when
    translation is on. *)
Theorem sv39_convert_refines virt wr fetch w :
  vm_ready w virt → wr && fetch = false → tlb_agrees w virt →
  ∃ w', rv64_convert_addr virt wr fetch true w = Done (convert_result w virt wr fetch, w') ∧
    (canonical virt = true → entries_clear w virt →
       convert_result w virt wr fetch = arch_result w virt wr fetch) ∧
    converted virt wr fetch w w' ∧
    ∀ phys, convert_result w virt wr fetch = inr phys → phys = virt ∨ 0 ≤ phys < 2 ^ 56.
Proof.
  intros Hr Hwf Hag. unfold rv64_convert_addr. rewrite sv39_convert_generic.
  destruct (convert_run virt wr fetch w Hr Hwf Hag) as (w' & Hrun & Hc). exists w'.
  split_and!; [exact Hrun|apply arch_result_clear|exact Hc|]. intros phys E. rewrite E in Hrun.
  exact (convert_range virt wr fetch phys w w' Hr Hwf Hag Hrun).
Qed.

(** An entry with its reserved bits cleared. *)
Definition trim (p : sv_pte) : sv_pte :=
  mk_pte (pte_v p) (pte_r p) (pte_w p) (pte_x p) (pte_u p) (pte_g p) (pte_a p) (pte_d p) (pte_rsw p) (pte_ppn p) 0 0 0.

Lemma ubits_low v i n : 0 ≤ i → 0 ≤ n → i + n ≤ 54 → ubits (v mod 2 ^ 54) i n = ubits v i n.
Proof.
  intros Hi Hn Hin. apply Z.bits_inj'. intros k Hk. unfold ubits.
  rewrite !Z.land_spec, Z.testbit_ones_nonneg, !Z.shiftr_spec by lia.
  destruct (Z.ltb_spec k n); [|by rewrite !andb_false_r]. by rewrite Z.mod_pow2_bits_low by lia.
Qed.

Lemma ubits_high v i n : 54 ≤ i → ubits (v mod 2 ^ 54) i n = 0.
Proof.
  intros Hi. unfold ubits. rewrite Z.shiftr_div_pow2, Z.div_small by (pose proof (Z.pow_le_mono_r 2 54 i); pose proof (Z.mod_pos_bound v (2 ^ 54)); lia).
  apply Z.land_0_l.
Qed.

Lemma decode_low v : sv39_pte_from_uint (v mod 2 ^ 54) = trim (sv39_pte_from_uint v).
Proof.
  unfold sv39_pte_from_uint, trim. cbn [pte_v pte_r pte_w pte_x pte_u pte_g pte_a pte_d pte_rsw pte_ppn].
  by rewrite !Z.mod_pow2_bits_low, !ubits_low, !ubits_high by lia.
Qed.

(** The table lookup ignores bits 54 to 63 of the entries, which the architecture
    requires to be zero: no setting of them makes an access fault. *)
Theorem sv39_reserved_ignored word (c : rv_cpu rv64_tlb) virt wr fetch :
  translate (λ a, word a mod 2 ^ 54) c virt wr fetch = translate word c virt wr fetch.
Proof.
  unfold translate, find_leaf. generalize sv_levels, (rv_csr_satp_ppn c), false. intros ks.
  induction ks as [|k ks IH]; intros table glob; cbn [find_leaf_in]; [done|]. cbv zeta.
  change sv_decode with sv39_pte_from_uint in *. rewrite decode_low.
  set (p := sv39_pte_from_uint _). change (is_pte_valid (trim p)) with (is_pte_valid p).
  change (is_pte_leaf (trim p)) with (is_pte_leaf p). change (aligned_for (trim p) k) with (aligned_for p k).
  destruct (is_pte_valid p); [|done]. destruct (is_pte_leaf p); [by destruct (aligned_for p k)|]. apply IH.
Qed.

Lemma field_low virt k : (virt mod 2 ^ 39) / 2 ^ page_shift k mod 2 ^ 9 = virt / 2 ^ page_shift k mod 2 ^ 9.
Proof.
  destruct k; cbn [page_shift sv39_sizes]; unfold RV64_PAGESIZE, RV64_MEGAPAGESIZE, RV64_GIGAPAGESIZE;
    Z.to_euclidean_division_equations; lia.
Qed.

(** The table lookup sees the low 39 bits of the address only. *)
Lemma find_leaf_low word ks table glob virt :
  find_leaf_in word ks table glob (virt mod 2 ^ 39) = find_leaf_in word ks table glob virt.
Proof.
  revert table glob. induction ks as [|k ks IH]; intros table glob; cbn [find_leaf_in]; [done|].
  assert (sv_slot table (virt mod 2 ^ 39) k = sv_slot table virt k) as ->
    by (unfold sv_slot; change sv_vpn_bits with 9; by rewrite (field_low virt k)).
  cbv zeta. by rewrite IH.
Qed.

(** the architecture requires the bits above bit 38 to repeat it; the walk
    ignores them, so two addresses with the same low 39 bits translate alike. *)
Theorem sv39_not_canonical word (c : rv_cpu rv64_tlb) virt wr fetch :
  translate word c (virt mod 2 ^ 39) wr fetch = translate word c virt wr fetch.
Proof.
  unfold translate, find_leaf. rewrite find_leaf_low. destruct (find_leaf_in _ _ _ _ _) as [l|]; [|done].
  cbn [lookup_result]. unfold leaf_result. destruct (cpu_permits _ _ _ _); [|done]. f_equal.
  unfold leaf_phys. f_equal.
  destruct (l_size l); cbn [page_shift sv39_sizes]; unfold RV64_PAGESIZE, RV64_MEGAPAGESIZE, RV64_GIGAPAGESIZE;
    Z.to_euclidean_division_equations; lia.
Qed.
End Refine.

(** ** Witnesses *)
Lemma sv39_pte_round_trip_witness :
  sv39_uint_from_pte (sv39_pte_from_uint 0x8000000000000401) = 0x8000000000000401 ∧
  sv39_pte_from_uint (sv39_uint_from_pte (sv39_pte_from_uint 0x401)) = sv39_pte_from_uint 0x401.
Proof.
  destruct (sv39_pte_round_trip 0x8000000000000401 (sv39_pte_from_uint 0x401)) as [Hv Hp]. split.
  - apply Hv. unfold in_width. lia.
  - apply Hp, sv39_pte_from_uint_wf.
Defined.

Lemma sample64_rw a f :
  slot 8 a → lookup_frame (Sample.memory Sample64.page_table []) a = Some f → frame_area f = 1 →
  rw_slot (Sample64.vm_machine []) a.
Proof. intros Hs Hf Ha. split; [done|]. exists f, (Sample.low_ram Sample64.page_table). by rewrite Ha. Qed.

Lemma sample64_ready : vm_ready (Sample64.vm_machine []) 0x1008.
Proof.
  split.
  - apply Sample.memory_wf, Sample64.page_table_ok.
  - by apply empty_tlb_wf.
  - unfold in_width. cbn. lia.
  - unfold tables_wired. set (l := walk_slots _ _ _ _). vm_compute in l. subst l.
    intros a Ha. repeat (apply elem_of_cons in Ha as [->|Ha];
      [eapply sample64_rw; [split; [unfold PHYS_LIMIT; lia|done]|vm_compute; reflexivity|done]|]).
    by apply not_elem_of_nil in Ha.
Qed.

Lemma sample64_agrees : tlb_agrees (Sample64.vm_machine []) 0x1008.
Proof. intros e. discriminate. Qed.

Lemma sv39_pagewalk_refines_witness :
  ∃ w', rv64_pagewalk 0x1008 true false true (Sample64.vm_machine []) = Done (inr 0xF0000008, w') ∧
    pte_at w' 0x8 = 0x3C0000DF.
Proof.
  destruct (sv39_pagewalk_refines 0x1008 true false (Sample64.vm_machine []) sample64_ready eq_refl)
    as (w' & Hrun & Hpost).
  exists w'. split; [exact Hrun|]. set (fl := find_leaf _ _ _) in Hpost. vm_compute in fl. subst fl.
  unfold walk_post in Hpost. match type of Hpost with if ?b then _ else _ => replace b with true in Hpost
    by (vm_compute; reflexivity) end.
  destruct Hpost as (_ & _ & _ & _ & _ & Hw).
  refine (eq_trans (Hw 0x8 _) _); [unfold slot, PHYS_LIMIT; split; [lia|done]|reflexivity].
Defined.

Lemma sample64_clear : entries_clear (Sample64.vm_machine []) 0x1008.
Proof.
  unfold entries_clear. set (l := walk_slots _ _ _ _). vm_compute in l. subst l.
  intros a Ha _. repeat (apply elem_of_cons in Ha as [->|Ha]; [vm_compute; reflexivity|]). by apply not_elem_of_nil in Ha.
Qed.

Lemma sv39_convert_refines_witness :
  ∃ w', rv64_convert_addr 0x1008 false true true (Sample64.vm_machine []) = Done (inr 0xF0000008, w') ∧
    arch_result (Sample64.vm_machine []) 0x1008 false true = inr 0xF0000008 ∧
    tlb_agrees w' 0x1008.
Proof.
  destruct (sv39_convert_refines 0x1008 false true (Sample64.vm_machine []) sample64_ready eq_refl sample64_agrees)
    as (w' & Hrun & Harch & Hpost & _).
  exists w'. split; [exact Hrun|]. split; [|apply Hpost].
  rewrite <- Harch by (exact sample64_clear || reflexivity). vm_compute. reflexivity.
Defined.
