(* ===== verification/RvTrapProps.v ===== *)
(** * Traps and interrupts: properties

    The bits of [mstatus] after a trap and after a return, the round trip of a
    trap and its return, delegation, and the choice of the interrupt taken. *)

From Stdlib Require Import Sorted.
From S2P Require Import Prelude RvTypes RvCpu RvCsr RvCsrProps RvSystem RvTrap Rv32Tlb Machine RvWorld Rv32Cpu RvSample.
From S2P Require Import RvTlb Rv64Tlb Rv64Cpu.

(** ** Bits of the status register *)
Lemma mstatus_bit_spec {T} (c : rv_cpu T) k :
  0 ≤ k → mstatus_bit (Z.shiftl 1 k) c = Z.testbit (mstatus (csr c)) k.
Proof. intros. by apply truthy_mask. Qed.

(** A two-bit field read through its bits. *)
Lemma two_bit_field x k : 0 ≤ k →
  Z.shiftr (Z.land x (Z.shiftl 3 k)) k = 2 * Z.b2z (Z.testbit x (k + 1)) + Z.b2z (Z.testbit x k).
Proof.
  intros Hk. rewrite Z.shiftr_land, Z.shiftr_shiftl_l, Z.sub_diag, Z.shiftl_0_r by lia.
  replace (Z.testbit x (k + 1)) with (Z.testbit (Z.shiftr x k) 1) by (rewrite Z.shiftr_spec by lia; f_equal; lia).
  replace (Z.testbit x k) with (Z.testbit (Z.shiftr x k) 0) by (rewrite Z.shiftr_spec by lia; f_equal; lia).
  generalize (Z.shiftr x k). intros y. change 3 with (Z.ones 2). rewrite Z.land_ones by lia.
  rewrite !Z.testbit_spec' by lia. change (2 ^ 0) with 1. change (2 ^ 1) with 2. change (2 ^ 2) with 4.
  Z.to_euclidean_division_equations. lia.
Qed.

Lemma mpp_of_bits m :
  mpp_of m = match Z.testbit m 12, Z.testbit m 11 with
             | false, false => rv_umode | false, true => rv_smode
             | true, false => rv_rmode | true, true => rv_mmode
             end.
Proof.
  unfold mpp_of. change rv_csr_mstatus_mpp_mask with (Z.shiftl 3 11).
  change rv_csr_mstatus_mpp_pos with 11. rewrite two_bit_field by lia.
  change (11 + 1) with 12. by destruct (Z.testbit m 12), (Z.testbit m 11).
Qed.

Lemma spp_of_bits m : spp_of m = if Z.testbit m 8 then rv_smode else rv_umode.
Proof.
  unfold spp_of. change rv_csr_sstatus_spp_pos with 8.
  assert (Z.shiftr (Z.land m rv_csr_sstatus_spp_mask) 8 = Z.b2z (Z.testbit m 8)) as ->;
    [|by destruct (Z.testbit m 8)].
  apply Z.bits_inj'. intros i Hi. rewrite Z.shiftr_spec, Z.land_spec by done.
  change rv_csr_sstatus_spp_mask with (Z.shiftl 1 8). rewrite testbit_bit by lia.
  destruct (Z.eqb_spec (i + 8) 8).
  - assert (i = 0) as -> by lia. rewrite andb_true_r. change (0 + 8) with 8. by destruct (Z.testbit m 8).
  - rewrite andb_false_r. symmetry. assert (0 < i) by lia.
    destruct (Z.testbit m 8); cbn [Z.b2z]; [|by rewrite Z.testbit_0_l].
    apply Z.bits_above_log2; cbn; lia.
Qed.

(** Status registers that differ at most in the given bits. *)
Definition same_but (ks : list Z) (m m' : Z) : Prop :=
  ∀ i, 0 ≤ i → i ∉ ks → Z.testbit m' i = Z.testbit m i.

(** Bounds on the width, for [lia]. *)
Lemma xlen_ge `{Xlen} : 32 ≤ XLEN.
Proof. destruct xlen_cases as [-> | ->]; lia. Qed.

Ltac width_lia := pose proof xlen_ge; lia.

Section Status.
Context `{Xlen}.

(** Setting or clearing a single bit. *)
Definition put_bit (k : Z) (b : bool) (m : Z) : Z :=
  if b then Z.lor m (Z.shiftl 1 k) else Z.land m (c_not XLEN (Z.shiftl 1 k)).

Lemma testbit_put_bit k b m i : 0 ≤ k < 32 → 0 ≤ i → in_width XLEN m →
  Z.testbit (put_bit k b m) i = if i =? k then b else Z.testbit m i.
Proof.
  intros Hk Hi Hm. pose proof xlen_ge. unfold put_bit.
  destruct b; rewrite ?Z.lor_spec, ?Z.land_spec, ?testbit_c_not, testbit_bit by lia.
  - destruct (i =? k); [apply orb_true_r|apply orb_false_r].
  - destruct (Z.ltb_spec i XLEN) as [Hl|Hl].
    + destruct (i =? k); [apply andb_false_r|apply andb_true_r].
    + rewrite andb_false_r, (testbit_high XLEN) by (done || lia). by destruct (i =? k).
Qed.

Lemma put_bit_width k b m : 0 ≤ k < 32 → in_width XLEN m → in_width XLEN (put_bit k b m).
Proof.
  intros Hk Hm. pose proof xlen_ge. unfold put_bit. destruct b; [|apply land_width_l; lia || done].
  apply lor_width; [lia|done|]. unfold in_width. rewrite Z.shiftl_1_l.
  split; [apply Z.pow_nonneg; lia|]. apply Z.pow_lt_mono_r; lia.
Qed.



Ltac put_width := first [width_lia | repeat (apply put_bit_width; [lia|]); assumption].

(** The status after a trap from mode [p] and after a return from one. *)
Definition trap_status_M (p : rv_priv_mode) (m : Z) : Z :=
  put_bit 12 (Z.testbit (priv_num p) 1) (put_bit 11 (Z.testbit (priv_num p) 0)
    (put_bit 3 false (put_bit 7 (Z.testbit m 3) m))).
Definition trap_status_S (p : rv_priv_mode) (m : Z) : Z :=
  put_bit 8 (Z.testbit (priv_num p) 0) (put_bit 1 false (put_bit 5 (Z.testbit m 1) m)).

Lemma testbit_shiftl3 k i : 0 ≤ k → 0 ≤ i →
  Z.testbit (Z.shiftl 3 k) i = (i =? k) || (i =? k + 1).
Proof.
  intros Hk Hi. change 3 with (Z.lor (Z.shiftl 1 0) (Z.shiftl 1 1)).
  rewrite Z.shiftl_lor, !Z.shiftl_shiftl, Z.lor_spec, !testbit_bit by lia.
  f_equal; f_equal; lia.
Qed.

(** Replacing a privilege field. *)
Lemma replace_mpp p m : in_width XLEN m →
  Z.lor (Z.land m (c_not XLEN (Z.shiftl 3 11)))
        (Z.land (Z.shiftl (priv_num p) 11) (Z.shiftl 3 11)) =
  put_bit 12 (Z.testbit (priv_num p) 1) (put_bit 11 (Z.testbit (priv_num p) 0) m).
Proof.
  intros Hm. apply Z.bits_inj'. intros i Hi.
  rewrite !testbit_put_bit, Z.lor_spec, !Z.land_spec, testbit_c_not, testbit_shiftl3, testbit_shiftl'
    by put_width.
  change (11 + 1) with 12. destruct (Z.eqb_spec i 12) as [->|]; [|destruct (Z.eqb_spec i 11) as [->|]].
  - cbn [Z.eqb Pos.eqb orb negb]. by rewrite !andb_false_r, andb_true_r.
  - cbn [Z.eqb Pos.eqb orb negb]. by rewrite !andb_false_r, andb_true_r.
  - rewrite !andb_false_r, orb_false_r, !andb_true_r. destruct (Z.ltb_spec i XLEN); [apply andb_true_r|].
    by rewrite (testbit_high XLEN) by (done || width_lia).
Qed.

Lemma replace_spp p m : in_width XLEN m →
  Z.lor (Z.land m (c_not XLEN (Z.shiftl 1 8)))
        (Z.land (Z.shiftl (priv_num p) 8) (Z.shiftl 1 8)) =
  put_bit 8 (Z.testbit (priv_num p) 0) m.
Proof.
  intros Hm. apply Z.bits_inj'. intros i Hi.
  rewrite !testbit_put_bit, Z.lor_spec, !Z.land_spec, testbit_c_not, testbit_bit, testbit_shiftl'
    by put_width.
  destruct (Z.eqb_spec i 8) as [->|].
  - cbn [Z.eqb Pos.eqb orb negb]. by rewrite !andb_false_r, andb_true_r.
  - rewrite !andb_false_r, orb_false_r, !andb_true_r. destruct (Z.ltb_spec i XLEN); [apply andb_true_r|].
    by rewrite (testbit_high XLEN) by (done || width_lia).
Qed.

End Status.

Ltac put_width := first [width_lia | repeat (apply put_bit_width; [lia|]); assumption].

(** Evaluates the bits of nested updates at distinct positions. *)
Ltac status_bits :=
  unfold trap_status_M, trap_status_S;
  repeat (rewrite testbit_put_bit by put_width); cbn [Z.eqb Pos.eqb].

Section Runs.
Context `{Xlen} {T : Type}.
Implicit Types c : rv_cpu T.

(** Direct and vectored mode are the only modes of a legal vector. *)
Lemma tvec_mode v m : bits_in v m → Z.testbit m 1 = false →
  Z.land v rv_csr_mtvec_mode_mask = Z.b2z (Z.testbit v 0).
Proof.
  intros Hv Hm. change rv_csr_mtvec_mode_mask with (Z.shiftl 3 0).
  rewrite <- (Z.shiftr_0_r (Z.land v _)), two_bit_field by lia. change (0 + 1) with 1.
  destruct (Z.testbit v 1) eqn:E; [|by cbn].
  rewrite bits_in_spec in Hv. apply Hv in E; [|lia]. congruence.
Qed.

(** Where a trap continues. *)
Definition vector_of (tvec : Z) (ex : rv_exc) : Z :=
  let base := Z.land tvec (c_not XLEN 3) in
  if Z.testbit tvec 0 && is_interrupt ex then ux (base + 4 * exc_no ex) else base.

Lemma trap_vector_run tvec m ex c :
  bits_in tvec m → Z.testbit m 1 = false → trap_vector tvec ex c = Done (vector_of tvec ex, c).
Proof.
  intros Hv Hm. unfold trap_vector, vector_of. rewrite (tvec_mode _ _ Hv Hm).
  destruct (Z.testbit tvec 0); cbn; [|done]. by destruct (is_interrupt ex).
Qed.

(** The processor after a trap. *)
Definition m_trapped (ex : rv_exc) c : rv_cpu T :=
  with_csr (λ r, r <| mepc := if is_interrupt ex then pc_next c else pc c |>
                   <| mcause := exc_code ex |> <| mtval := tval_next r |>
                   <| mstatus := trap_status_M (priv_mode c) (mstatus r) |>) c
    <| stdby := false |> <| priv_mode := rv_mmode |> <| pc_next := vector_of (mtvec (csr c)) ex |>.

Definition s_trapped (ex : rv_exc) c : rv_cpu T :=
  with_csr (λ r, r <| sepc := if is_interrupt ex then pc_next c else pc c |>
                   <| scause := exc_code ex |> <| stval := tval_next r |>
                   <| mstatus := trap_status_S (priv_mode c) (mstatus r) |>) c
    <| stdby := false |> <| priv_mode := rv_smode |> <| pc_next := vector_of (stvec (csr c)) ex |>.

Lemma mstatus_mask_width x : bits_in x rv_csr_mstatus_mask → in_width XLEN x.
Proof.
  intros Hx. apply (in_width_mono 32); [lia|apply xlen_ge|].
  eapply bits_in_width; [lia| |exact Hx]. vm_compute; split; congruence.
Qed.

Lemma wf_mstatus_width r : csr_wf r → in_width XLEN (mstatus r).
Proof. intros Hr. apply mstatus_mask_width, Hr. Qed.

Definition upd_mstatus (f : Z → Z) c : rv_cpu T := with_csr (λ r, r <| mstatus := f (mstatus r) |>) c.

Lemma mstatus_put_run k b c :
  mstatus_put (Z.shiftl 1 k) b c = Done (tt, upd_mstatus (put_bit k b) c).
Proof. by destruct b. Qed.

Lemma m_trap_run ex c : csr_wf (csr c) → m_trap ex c = Done (tt, m_trapped ex c).
Proof.
  intros Hr. pose proof (wf_mstatus_width _ Hr) as Hm. unfold m_trap.
  do 3 rewrite (bind_Done _ _ _ _ _ eq_refl). unfold rv_csr_mstatus_mie, rv_csr_mstatus_mie_mask.
  rewrite mstatus_bit_spec by lia. rewrite (bind_Done _ _ _ _ _ (mstatus_put_run 7 _ _)).
  do 4 rewrite (bind_Done _ _ _ _ _ eq_refl).
  rewrite (bind_Done _ _ _ _ _ (trap_vector_run _ mtvec_mask _ _ (wf_mtvec _ Hr) eq_refl)).
  unfold m_trapped, trap_status_M, with_csr.
  cbn -[Z.shiftl Z.testbit Z.land Z.lor put_bit c_not vector_of priv_num exc_code].
  by rewrite <- replace_mpp by put_width.
Qed.

Lemma s_trap_run ex c : csr_wf (csr c) → s_trap ex c = Done (tt, s_trapped ex c).
Proof.
  intros Hr. pose proof (wf_mstatus_width _ Hr) as Hm. unfold s_trap.
  do 3 rewrite (bind_Done _ _ _ _ _ eq_refl). unfold rv_csr_sstatus_sie, rv_csr_sstatus_sie_mask.
  rewrite mstatus_bit_spec by lia. rewrite (bind_Done _ _ _ _ _ (mstatus_put_run 5 _ _)).
  do 4 rewrite (bind_Done _ _ _ _ _ eq_refl).
  rewrite (bind_Done _ _ _ _ _ (trap_vector_run _ scvec_mask _ _ (wf_stvec _ Hr) eq_refl)).
  unfold s_trapped, trap_status_S, with_csr.
  cbn -[Z.shiftl Z.testbit Z.land Z.lor put_bit c_not vector_of priv_num exc_code].
  by rewrite <- replace_spp by put_width.
Qed.

(** ** Returns from traps *)
Definition ret_status_M (m : Z) : Z :=
  let m1 := put_bit 12 false (put_bit 11 false (put_bit 7 true (put_bit 3 (Z.testbit m 7) m))) in
  if priv_eqb (mpp_of m) rv_mmode then m1 else put_bit 17 false m1.
Definition ret_status_S (m : Z) : Z :=
  put_bit 17 false (put_bit 8 false (put_bit 5 true (put_bit 1 (Z.testbit m 5) m))).

Lemma clear_mpp m : in_width XLEN m →
  Z.land m (c_not XLEN (Z.shiftl 3 11)) = put_bit 12 false (put_bit 11 false m).
Proof. intros Hm. by rewrite <- (replace_mpp rv_umode), Z.lor_0_r. Qed.

Lemma mret_run i c :
  in_width XLEN (mstatus (csr c)) → priv_mode c = rv_mmode →
  rv_mret_instr i c = Done (inr tt, upd_mstatus ret_status_M c
    <| priv_mode := mpp_of (mstatus (csr c)) |> <| pc_next := mepc (csr c) |>).
Proof.
  intros Hm Hp. unfold rv_mret_instr. rewrite (bind_Done _ _ _ _ _ eq_refl), Hp.
  cbn [priv_lt priv_num Z.ltb Z.compare Pos.compare Pos.compare_cont]. 
  rewrite (mstatus_bit_spec c 7 ltac:(lia) : rv_csr_mstatus_mpie c = _).
  rewrite (bind_Done _ _ _ _ _ (mstatus_put_run 3 _ _)). do 3 rewrite (bind_Done _ _ _ _ _ eq_refl).
  unfold rv_csr_mstatus_mpp, upd_mstatus, ret_status_M, with_csr.
  destruct (priv_eqb (mpp_of (mstatus (csr c))) rv_mmode) eqn:E; cbn [negb];
    do 2 rewrite (bind_Done _ _ _ _ _ eq_refl);
    cbn -[Z.shiftl Z.testbit Z.land Z.lor put_bit c_not mpp_of priv_eqb];
    by rewrite E, <- clear_mpp by put_width.
Qed.

Lemma sret_run i c :
  priv_lt (priv_mode c) rv_smode = false → Z.testbit (mstatus (csr c)) 22 = false →
  rv_sret_instr i c = Done (inr tt, upd_mstatus ret_status_S c
    <| priv_mode := spp_of (mstatus (csr c)) |> <| pc_next := sepc (csr c) |>).
Proof.
  intros Hp Ht. unfold rv_sret_instr. rewrite (bind_Done _ _ _ _ _ eq_refl), Hp.
  unfold rv_csr_mstatus_tsr, rv_csr_mstatus_tsr_mask. rewrite mstatus_bit_spec, Ht by lia.
  rewrite (mstatus_bit_spec c 5 ltac:(lia) : rv_csr_sstatus_spie c = _).
  rewrite (bind_Done _ _ _ _ _ (mstatus_put_run 1 _ _)). by do 5 rewrite (bind_Done _ _ _ _ _ eq_refl).
Qed.

Lemma mpp_of_trapped p m : in_width XLEN m → mpp_of (trap_status_M p m) = p.
Proof. intros Hm. rewrite mpp_of_bits. status_bits. by destruct p. Qed.

Lemma spp_of_trapped p m : in_width XLEN m → priv_lt rv_smode p = false → spp_of (trap_status_S p m) = p.
Proof. intros Hm Hp. rewrite spp_of_bits. status_bits. by destruct p. Qed.

(** Splits on whether a bit position is one of the listed ones. *)
Ltac bit_cases i :=
  repeat match goal with |- context [i =? ?k] => destruct (Z.eqb_spec i k) as [->|] end.

Lemma ret_trap_status_M p m : in_width XLEN m →
  same_but [7; 11; 12; 17] m (ret_status_M (trap_status_M p m)).
Proof.
  intros Hm i Hi Hks. rewrite !not_elem_of_cons in Hks. destruct Hks as (H7 & H11 & H12 & H17 & _).
  assert (in_width XLEN (trap_status_M p m)) as Hw by (unfold trap_status_M; put_width).
  unfold ret_status_M. destruct (priv_eqb _ _); status_bits; bit_cases i; done.
Qed.

Lemma ret_trap_status_S p m : in_width XLEN m →
  same_but [5; 8; 17] m (ret_status_S (trap_status_S p m)).
Proof.
  intros Hm i Hi Hks. rewrite !not_elem_of_cons in Hks. destruct Hks as (H5 & H8 & H17 & _).
  assert (in_width XLEN (trap_status_S p m)) as Hw by (unfold trap_status_S; put_width).
  unfold ret_status_S. status_bits; bit_cases i; done.
Qed.

(** States in which a trap handler left the trap context alone. *)
Definition same_context (epc : rv_csr → Z) c c' : Prop :=
  mstatus (csr c') = mstatus (csr c) ∧ epc (csr c') = epc (csr c) ∧ priv_mode c' = priv_mode c.

(** C19: a trap to machine mode followed by a handler that restores the trap
    context and executes MRET resumes in the interrupted mode, at the faulting
    instruction for an exception and at the next one for an interrupt, with the
    interrupt enable and every other status bit but MPIE, MPP and MPRV restored. *)
Theorem m_trap_mret ex i c :
  csr_wf (csr c) →
  ∃ c1, m_trap ex c = Done (tt, c1) ∧ priv_mode c1 = rv_mmode ∧
    mcause (csr c1) = exc_code ex ∧ mtval (csr c1) = tval_next (csr c) ∧ regs c1 = regs c ∧
    ∀ c1', same_context mepc c1 c1' →
    ∃ c2, rv_mret_instr i c1' = Done (inr tt, c2) ∧ priv_mode c2 = priv_mode c ∧
      pc_next c2 = (if is_interrupt ex then pc_next c else pc c) ∧
      same_but [7; 11; 12; 17] (mstatus (csr c)) (mstatus (csr c2)) ∧ regs c2 = regs c1'.
Proof.
  intros Hr. pose proof (wf_mstatus_width _ Hr) as Hm.
  assert (in_width XLEN (trap_status_M (priv_mode c) (mstatus (csr c)))) as Hw
    by (unfold trap_status_M; put_width).
  eexists. split; [by apply m_trap_run|]. do 4 (split; [done|]). intros c1' (E1 & E2 & E3).
  eexists. split; [apply mret_run; [by rewrite E1|by rewrite E3]|]. cbn -[mpp_of ret_status_M].
  rewrite E1, E2. cbn -[mpp_of ret_status_M trap_status_M]. split; [by apply mpp_of_trapped|].
  split; [done|]. split; [by apply ret_trap_status_M|done].
Qed.

(** The same for supervisor mode and SRET: a trap taken from user or
    supervisor mode resumes there, with every status bit but SPIE, SPP and MPRV
    restored. *)
Theorem s_trap_sret ex i c :
  csr_wf (csr c) → priv_lt rv_smode (priv_mode c) = false → rv_csr_mstatus_tsr c = false →
  ∃ c1, s_trap ex c = Done (tt, c1) ∧ priv_mode c1 = rv_smode ∧
    scause (csr c1) = exc_code ex ∧ stval (csr c1) = tval_next (csr c) ∧ regs c1 = regs c ∧
    ∀ c1', same_context sepc c1 c1' →
    ∃ c2, rv_sret_instr i c1' = Done (inr tt, c2) ∧ priv_mode c2 = priv_mode c ∧
      pc_next c2 = (if is_interrupt ex then pc_next c else pc c) ∧
      same_but [5; 8; 17] (mstatus (csr c)) (mstatus (csr c2)) ∧ regs c2 = regs c1'.
Proof.
  intros Hr Hp Ht. pose proof (wf_mstatus_width _ Hr) as Hm.
  unfold rv_csr_mstatus_tsr, rv_csr_mstatus_tsr_mask in Ht. rewrite mstatus_bit_spec in Ht by lia.
  eexists. split; [by apply s_trap_run|]. do 4 (split; [done|]). intros c1' (E1 & E2 & E3).
  eexists. split; [apply sret_run; [by rewrite E3|rewrite E1]|].
  { cbn -[Z.testbit trap_status_S]. by status_bits. }
  cbn -[spp_of ret_status_S]. rewrite E1, E2. cbn -[spp_of ret_status_S trap_status_S].
  split; [by apply spp_of_trapped|]. split; [done|]. split; [by apply ret_trap_status_S|done].
Qed.

(** ** The invariant of the control registers across traps *)
Definition pc_aligned c : Prop := bits_in (pc c) sepc_mask ∧ bits_in (pc_next c) sepc_mask.

Lemma valid_cause_code ex : valid_cause (exc_code ex) = true.
Proof.
  unfold valid_cause, exc_code, RV_INTERRUPT_EXC_BITS.
  destruct xlen_cases as [-> | ->]; by destruct ex.
Qed.

Lemma mstatus_in_mask x :
  (∀ i, 0 ≤ i → Z.testbit rv_csr_mstatus_mask i = false → Z.testbit x i = false) →
  bits_in x rv_csr_mstatus_mask.
Proof.
  intros Hb. apply bits_in_spec. intros i Hi Hx.
  destruct (Z.testbit rv_csr_mstatus_mask i) eqn:E; [done|]. by rewrite Hb in Hx by done.
Qed.

(** Updates of existing status bits stay within the legal ones. *)
Lemma put_bit_mask k b m :
  0 ≤ k < 32 → Z.testbit rv_csr_mstatus_mask k = true → bits_in m rv_csr_mstatus_mask →
  bits_in (put_bit k b m) rv_csr_mstatus_mask.
Proof.
  intros Hk Hb Hm. pose proof (mstatus_mask_width _ Hm) as Hw.
  apply mstatus_in_mask. intros i Hi Hf. rewrite testbit_put_bit by put_width.
  destruct (Z.eqb_spec i k) as [->|]; [congruence|].
  destruct (Z.testbit m i) eqn:E; [|done]. rewrite bits_in_spec in Hm. apply Hm in E; [congruence|lia].
Qed.

Ltac put_mask := repeat (apply put_bit_mask; [lia|reflexivity|]); assumption.

Lemma m_trapped_wf ex c :
  csr_wf (csr c) → priv_mode c ≠ rv_rmode → csr_wf (csr (m_trapped ex c)).
Proof.
  intros Hr Hp. pose proof (wf_mstatus_width _ Hr) as Hm. destruct Hr.
  split; cbn -[trap_status_M mpp_reserved exc_code valid_cause]; try done.
  - unfold trap_status_M. put_mask.
  - rewrite mpp_reserved_bits. status_bits. by destruct (priv_mode c).
  - apply valid_cause_code.
Qed.

Lemma s_trapped_wf ex c : csr_wf (csr c) → pc_aligned c → csr_wf (csr (s_trapped ex c)).
Proof.
  intros Hr [Hp Hp']. pose proof (wf_mstatus_width _ Hr) as Hm. destruct Hr.
  split; cbn -[trap_status_S mpp_reserved exc_code valid_cause]; try done.
  - unfold trap_status_S. put_mask.
  - rewrite mpp_reserved_bits in *. by status_bits.
  - by destruct (is_interrupt ex).
  - apply valid_cause_code.
Qed.

(** ** Delegation *)

(** C22: an exception traps to supervisor mode exactly when it is delegated and
    was raised below machine mode; the trap registers of the other mode are left
    alone, the privilege never decreases and the control registers stay legal. *)
Theorem exception_delegation ex c :
  csr_wf (csr c) → pc_aligned c → priv_mode c ≠ rv_rmode → is_interrupt ex = false →
  ∃ c', handle_exception ex c = Done (tt, c') ∧ csr_wf (csr c') ∧
    priv_num (priv_mode c) ≤ priv_num (priv_mode c') ∧ regs c' = regs c ∧ stdby c' = false ∧
    if Z.testbit (medeleg (csr c)) (exc_no ex) && negb (priv_eqb (priv_mode c) rv_mmode)
    then priv_mode c' = rv_smode ∧ sepc (csr c') = pc c ∧ scause (csr c') = exc_no ex ∧
         stval (csr c') = tval_next (csr c) ∧ mepc (csr c') = mepc (csr c) ∧
         mcause (csr c') = mcause (csr c) ∧ pc_next c' = Z.land (stvec (csr c)) (c_not XLEN 3)
    else priv_mode c' = rv_mmode ∧ mepc (csr c') = pc c ∧ mcause (csr c') = exc_no ex ∧
         mtval (csr c') = tval_next (csr c) ∧ sepc (csr c') = sepc (csr c) ∧
         scause (csr c') = scause (csr c) ∧ pc_next c' = Z.land (mtvec (csr c)) (c_not XLEN 3).
Proof.
  intros Hr Hpc Hp Hex. unfold handle_exception. rewrite Hex.
  do 2 rewrite (bind_Done _ _ _ _ _ eq_refl).
  assert (0 ≤ exc_no ex) as Hno by (by destruct ex).
  assert (exc_code ex = exc_no ex) as Hcode by (by destruct ex).
  unfold RV_EXCEPTION_MASK. rewrite truthy_mask by done.
  destruct (_ && _) eqn:E.
  - exists (s_trapped ex c). split; [by apply s_trap_run|]. split; [by apply s_trapped_wf|].
    apply andb_true_iff in E as [_ E]. cbn -[Z.land c_not exc_code vector_of].
    unfold vector_of. rewrite Hex, Hcode, andb_false_r. split; [by destruct (priv_mode c)|]. by split_and!.
  - exists (m_trapped ex c). split; [by apply m_trap_run|]. split; [by apply m_trapped_wf|].
    cbn -[Z.land c_not exc_code vector_of].
    unfold vector_of. rewrite Hex, Hcode, andb_false_r. split; [by destruct (priv_mode c)|]. by split_and!.
Qed.

(** ** Interrupts *)

(** The interrupt conditions of the privileged architecture. *)
Definition pending c (e : rv_exc) : bool :=
  Z.testbit (mip (csr c)) (exc_no e) ||
  (external_SEIP (csr c) && (exc_no e =? 9)) || (external_STIP (csr c) && (exc_no e =? 5)).
Definition enabled c (e : rv_exc) : bool := Z.testbit (mie (csr c)) (exc_no e).
Definition delegated c (e : rv_exc) : bool := Z.testbit (mideleg (csr c)) (exc_no e).
Definition M_accepts c : bool :=
  match priv_mode c with rv_mmode => Z.testbit (mstatus (csr c)) 3 | _ => true end.
Definition S_accepts c : bool :=
  match priv_mode c with
  | rv_umode => true | rv_smode => Z.testbit (mstatus (csr c)) 1 | _ => false end.
Definition taken_in_M c (e : rv_exc) : bool :=
  M_accepts c && pending c e && enabled c e && negb (delegated c e).
Definition taken_in_S c (e : rv_exc) : bool :=
  S_accepts c && pending c e && enabled c e && delegated c e.

(** [e] is the first of the list that satisfies [P]. *)
Definition first_of (P : rv_exc → bool) (l : list rv_exc) (e : rv_exc) : Prop :=
  ∃ l1 l2, l = l1 ++ e :: l2 ∧ P e = true ∧ ∀ e', e' ∈ l1 → P e' = false.

Lemma first_set_spec mask (P : rv_exc → bool) l :
  (∀ e, e ∈ l → Z.testbit mask (exc_no e) = P e) →
  match first_set mask l with
  | Some e => first_of P l e
  | None => ∀ e, e ∈ l → P e = false
  end.
Proof.
  induction l as [|e l IH]; intros Hm; cbn; [by intros e' He%not_elem_of_nil|].
  unfold RV_EXCEPTION_MASK. rewrite truthy_mask, Hm; [|by left|by destruct e].
  destruct (P e) eqn:E; [exists [], l; split_and!; try done; by intros e' He%not_elem_of_nil|].
  specialize (IH (λ e' He, Hm e' ltac:(by right))).
  destruct (first_set mask l) as [x|].
  - destruct IH as (l1 & l2 & -> & Hx & Hl). exists (e :: l1), l2. split_and!; [done|done|].
    intros e' [->|He]%elem_of_cons; [done|by apply Hl].
  - intros e' [->|He]%elem_of_cons; [done|by apply IH].
Qed.

Lemma effective_mip_bit c e : is_interrupt e = true →
  Z.testbit (effective_mip (csr c)) (exc_no e) = pending c e.
Proof.
  intros He. unfold effective_mip, pending. rewrite !Z.lor_spec.
  f_equal; [f_equal|]; destruct e; try discriminate He;
    [destruct (external_SEIP (csr c))..|]; try done; destruct (external_STIP (csr c)); done.
Qed.

(** The architecture's priority: MEI, MSI, MTI, SEI, SSI, STI. *)
Definition rank (e : rv_exc) : Z :=
  match exc_no e with 11 => 0 | 3 => 1 | 7 => 2 | 9 => 3 | 1 => 4 | _ => 5 end.

(** [e] satisfies [P] and no interrupt that does comes before it. *)
Definition highest_by (rank : rv_exc → Z) (P : rv_exc → bool) (e : rv_exc) : Prop :=
  is_interrupt e = true ∧ P e = true ∧
  ∀ e', is_interrupt e' = true → P e' = true → rank e ≤ rank e'.
Abbreviation highest := (highest_by rank).

(** The first of a list that is sorted by rank and complete for [P]. *)
Lemma first_of_highest rank P l e :
  (∀ e', is_interrupt e' = true → P e' = true → e' ∈ l) → forallb is_interrupt l = true →
  (∀ l1 l2 a b, l = l1 ++ a :: l2 → b ∈ l2 → rank a ≤ rank b) →
  first_of P l e → highest_by rank P e.
Proof.
  intros Hc Hi Hs (l1 & l2 & -> & He & Hl). rewrite forallb_forall in Hi. split_and!; [|done|].
  - apply Hi, in_app_iff. right. by left.
  - intros e' Hi' HP. specialize (Hc e' Hi' HP). apply elem_of_app in Hc as [Hin|Hin].
    + rewrite Hl in HP by done. discriminate.
    + apply elem_of_cons in Hin as [->|Hin]; [done|]. by eapply Hs.
Qed.

Lemma sorted_by_rank (rank : rv_exc → Z) (l : list rv_exc) :
  StronglySorted Z.le (rank <$> l) → ∀ l1 l2 a b, l = l1 ++ a :: l2 → b ∈ l2 → rank a ≤ rank b.
Proof.
  intros Hs l1. revert l Hs. induction l1 as [|x l1 IH]; intros l Hs l2 a b -> Hb.
  - inversion Hs as [|? ? _ Hall]; subst. rewrite Forall_forall in Hall. apply Hall.
    by apply list_elem_of_fmap_2.
  - inversion Hs as [|? ? Hs' _]; subst. by eapply IH.
Qed.

Lemma m_active_bit c e : is_interrupt e = true →
  Z.testbit (Z.land (Z.land (effective_mip (csr c)) (mie (csr c))) (c_not XLEN (mideleg (csr c))))
    (exc_no e) = pending c e && enabled c e && negb (delegated c e).
Proof.
  intros He. assert (0 ≤ exc_no e < 32) by (destruct e; cbn; lia).
  rewrite !Z.land_spec, testbit_c_not, effective_mip_bit by (width_lia || done).
  by destruct (Z.ltb_spec (exc_no e) XLEN); [|width_lia].
Qed.

Lemma mideleg_supervisor c e :
  csr_wf (csr c) → delegated c e = true → Z.testbit rv_csr_si_mask (exc_no e) = true.
Proof.
  intros Hr Hd. pose proof (wf_mideleg _ Hr) as Hm. rewrite bits_in_spec in Hm.
  apply Hm; [by destruct e|done].
Qed.

Lemma no_pending c : effective_mip (csr c) = 0 → ∀ e, is_interrupt e = true → pending c e = false.
Proof. intros E e He. by rewrite <- effective_mip_bit, E, Z.testbit_0_l. Qed.

(** The two searches of [try_handle_interrupt]. *)
Definition m_choice c : option rv_exc :=
  if can_trap_to_M c
  then first_set (Z.land (Z.land (effective_mip (csr c)) (mie (csr c))) (c_not XLEN (mideleg (csr c))))
         m_mode_order
  else None.
Definition s_choice s_order c : option rv_exc :=
  if can_trap_to_S c
  then first_set (Z.land (Z.land (effective_mip (csr c)) (mie (csr c))) rv_csr_si_mask) s_order
  else None.

(** An order of the three supervisor interrupts. *)
Record order_ok (rank : rv_exc → Z) (l : list rv_exc) : Prop := {
  oo_exact : ∀ e, e ∈ l ↔ is_interrupt e = true ∧ Z.testbit rv_csr_si_mask (exc_no e) = true;
  oo_sorted : StronglySorted Z.le (rank <$> l)
}.

Lemma can_trap_accepts c : can_trap_to_M c = M_accepts c ∧ can_trap_to_S c = S_accepts c.
Proof.
  unfold can_trap_to_M, can_trap_to_S, M_accepts, S_accepts.
  unfold rv_csr_mstatus_mie, rv_csr_mstatus_mie_mask, rv_csr_sstatus_sie, rv_csr_sstatus_sie_mask.
  rewrite !mstatus_bit_spec by lia.
  split; destruct (priv_mode c); cbn -[Z.testbit]; rewrite ?orb_false_r; done.
Qed.

Lemma interrupt_in_order e : is_interrupt e = true → e ∈ m_mode_order.
Proof. intros He. unfold m_mode_order. destruct e; try discriminate He; set_solver. Qed.

Lemma m_choice_spec c :
  match m_choice c with
  | Some e => highest (taken_in_M c) e
  | None => ∀ e, is_interrupt e = true → taken_in_M c e = false
  end.
Proof.
  unfold m_choice. rewrite (proj1 (can_trap_accepts c)).
  destruct (M_accepts c) eqn:Ha; [|intros e He; unfold taken_in_M; by rewrite Ha].
  match goal with |- context [first_set ?m _] =>
    pose proof (first_set_spec m (taken_in_M c) m_mode_order) as Hf end.
  assert (∀ e, e ∈ m_mode_order → is_interrupt e = true) as Hi.
  { intros e He. unfold m_mode_order in He. rewrite !elem_of_cons in He.
    by destruct He as [->|[->|[->|[->|[->|[->|He%not_elem_of_nil]]]]]]. }
  match type of Hf with ?A → _ => assert A as Hm end.
  { intros e He. unfold taken_in_M. rewrite Ha. by apply m_active_bit, Hi. }
  specialize (Hf Hm). destruct (first_set _ _) as [e|].
  - apply (first_of_highest _ _ m_mode_order); [|reflexivity| |exact Hf]; [intros; by apply interrupt_in_order|].
    apply sorted_by_rank. repeat constructor; cbn; lia.
  - intros e He. apply Hf, interrupt_in_order, He.
Qed.

Lemma s_choice_spec srank s_order c :
  order_ok srank s_order → csr_wf (csr c) →
  (∀ e, is_interrupt e = true → taken_in_M c e = false) →
  match s_choice s_order c with
  | Some e => highest_by srank (taken_in_S c) e
  | None => ∀ e, is_interrupt e = true → taken_in_S c e = false
  end.
Proof.
  intros [Hex Hs] Hr HM. unfold s_choice. rewrite (proj2 (can_trap_accepts c)).
  destruct (S_accepts c) eqn:Ha; [|intros e He; unfold taken_in_S; by rewrite Ha].
  assert (M_accepts c = true) as HaM.
  { unfold S_accepts in Ha. unfold M_accepts. by destruct (priv_mode c). }
  match goal with |- context [first_set ?m _] =>
    pose proof (first_set_spec m (taken_in_S c) s_order) as Hf end.
  match type of Hf with ?A → _ => assert A as Hm end.
  { intros e [Hi Hb]%Hex. specialize (HM e Hi). unfold taken_in_M in HM. unfold taken_in_S.
    rewrite Ha, HaM in *.
    rewrite !Z.land_spec, effective_mip_bit, Hb, andb_true_r by done. fold (enabled c e).
    cbn [andb] in *. by destruct (pending c e), (enabled c e), (delegated c e). }
  specialize (Hf Hm).
  assert (∀ e, is_interrupt e = true → taken_in_S c e = true → e ∈ s_order) as Hc.
  { intros e He Ht. apply Hex. split; [done|]. apply (mideleg_supervisor c); [done|].
    unfold taken_in_S in Ht. by apply andb_true_iff in Ht as [_ ?]. }
  destruct (first_set _ _) as [e|].
  - apply (first_of_highest _ _ s_order); [done| |by apply sorted_by_rank|exact Hf].
    apply forallb_forall. intros e' He'. apply Hex. by apply list_elem_of_In.
  - intros e He. destruct (taken_in_S c e) eqn:E; [|done]. rewrite <- E. by apply Hf, Hc.
Qed.

(** The interrupt taken with a given supervisor order. *)
Lemma handle_interrupt_run srank s_order c :
  order_ok srank s_order → csr_wf (csr c) →
  ∃ c', handle_interrupt s_order c = Done (tt, c') ∧
    ((∃ e, highest (taken_in_M c) e ∧ c' = m_trapped e c) ∨
     (∃ e, (∀ e', is_interrupt e' = true → taken_in_M c e' = false) ∧
        highest_by srank (taken_in_S c) e ∧ c' = s_trapped e c) ∨
     ((∀ e', is_interrupt e' = true → taken_in_M c e' = false ∧ taken_in_S c e' = false) ∧ c' = c)).
Proof.
  intros Ho Hr. unfold handle_interrupt. rewrite (bind_Done _ _ _ _ _ eq_refl). cbv zeta.
  destruct (Z.eqb_spec (effective_mip (csr c)) 0) as [E0|_].
  { exists c. split; [done|]. do 2 right. split; [|done]. intros e He.
    unfold taken_in_M, taken_in_S. by rewrite (no_pending c E0 e He), !andb_false_r. }
  fold (m_choice c) (s_choice s_order c). pose proof (m_choice_spec c) as HM.
  destruct (m_choice c) as [e|]; [eexists; split; [by apply m_trap_run|left; eauto]|].
  pose proof (s_choice_spec srank s_order c Ho Hr HM) as HS.
  destruct (s_choice s_order c) as [e|]; [eexists; split; [by apply s_trap_run|right; left; eauto]|].
  exists c. split; [done|]. do 2 right. auto.
Qed.
End Runs.

(** Decides [order_ok] of a concrete order. *)
Ltac solve_order :=
  split; [intros e; unfold s_mode_order; rewrite ?elem_of_cons, ?elem_of_nil; destruct e; cbn; naive_solver
         |repeat constructor; cbn; lia].

Lemma rv32_order_ok : order_ok rank s_mode_order.
Proof. solve_order. Qed.

(** C23: on the 32-bit processor, whose order of tests is [s_mode_order], the interrupt
    taken is the one of highest architectural priority that
    machine mode accepts (pending, enabled, not delegated); otherwise the one of
    highest priority that is delegated and supervisor mode accepts; otherwise
    nothing changes.  In particular a supervisor trap is only taken for a
    delegated interrupt although the code does not consult [mideleg] there. *)
Theorem interrupt_choice {T} (c : rv_cpu T) :
  csr_wf (csr c) →
  ∃ c', try_handle_interrupt c = Done (tt, c') ∧
    ((∃ e, highest_by rank (taken_in_M c) e ∧ c' = m_trapped e c) ∨
     (∃ e, (∀ e', is_interrupt e' = true → taken_in_M c e' = false) ∧
        highest_by rank (taken_in_S c) e ∧ c' = s_trapped e c) ∨
     ((∀ e', is_interrupt e' = true → taken_in_M c e' = false ∧ taken_in_S c e' = false) ∧ c' = c)).
Proof. apply handle_interrupt_run, rv32_order_ok. Qed.

(** ** Witnesses *)
Lemma init_csr_wf procno now : csr_wf (rv_init_csr zero_csr procno now).
Proof. split; cbn; try reflexivity; try apply bits_in_0. by left. Qed.

(** The sample processor in a mode, with given interrupt state. *)
Definition sample_cpu (p : rv_priv_mode) : rv_cpu rv32_tlb := Sample.cpu0 <| priv_mode := p |>.
Definition sample_irq : rv_cpu rv32_tlb :=
  with_csr (λ r, r <| mip := 2 |> <| mie := 2 |> <| mideleg := 2 |>) (sample_cpu rv_umode).

Lemma m_trap_mret_witness :
  ∃ c1 c2, m_trap rv_exc_breakpoint (sample_cpu rv_smode) = Done (tt, c1) ∧
    rv_mret_instr 0 c1 = Done (inr tt, c2) ∧ priv_mode c2 = rv_smode.
Proof.
  destruct (m_trap_mret rv_exc_breakpoint 0 (sample_cpu rv_smode) (init_csr_wf 0 0))
    as (c1 & Hrun & _ & _ & _ & _ & Hret).
  destruct (Hret c1) as (c2 & Hrun2 & Hp & _); [done|]. by exists c1, c2.
Defined.

Lemma s_trap_sret_witness :
  ∃ c1 c2, s_trap rv_exc_supervisor_timer_interrupt (sample_cpu rv_umode) = Done (tt, c1) ∧
    rv_sret_instr 0 c1 = Done (inr tt, c2) ∧ priv_mode c2 = rv_umode.
Proof.
  destruct (s_trap_sret rv_exc_supervisor_timer_interrupt 0 (sample_cpu rv_umode) (init_csr_wf 0 0)
    eq_refl eq_refl) as (c1 & Hrun & _ & _ & _ & _ & Hret).
  destruct (Hret c1) as (c2 & Hrun2 & Hp & _); [done|]. by exists c1, c2.
Defined.

Lemma exception_delegation_witness :
  ∃ c', handle_exception rv_exc_illegal_instruction (sample_cpu rv_umode) = Done (tt, c') ∧
    priv_mode c' = rv_mmode.
Proof.
  destruct (exception_delegation rv_exc_illegal_instruction (sample_cpu rv_umode) (init_csr_wf 0 0)
    (conj eq_refl eq_refl) ltac:(done) eq_refl) as (c' & Hrun & _ & _ & _ & _ & Hp & _).
  by exists c'.
Defined.

Lemma interrupt_choice_witness :
  ∃ c', try_handle_interrupt sample_irq = Done (tt, c') ∧ priv_mode c' = rv_smode.
Proof.
  destruct (interrupt_choice sample_irq) as (c' & Hrun & Hc).
  { split; cbn; try reflexivity; try apply bits_in_0. by left. }
  exists c'. split; [exact Hrun|]. vm_compute in Hrun. injection Hrun as <-. reflexivity.
Defined.

(** ** Interrupts of the 64-bit processor *)
Section Rv64.
#[local] Existing Instance xlen64.

(** The architectural ranks with the timer in front of the others. *)
Definition rank64 (e : rv_exc) : Z :=
  match e with
  | rv_exc_supervisor_timer_interrupt => -1
  | e => rank e
  end.

Lemma rv64_order_ok : order_ok rank64 rv64_s_mode_order.
Proof.
  split; [|repeat constructor; cbn; lia].
  intros e. unfold rv64_s_mode_order. rewrite ?elem_of_cons, ?elem_of_nil; destruct e; cbn; naive_solver.
Qed.

(** The RV64 processor takes the interrupt of highest architectural priority
    that machine mode accepts; otherwise a delegated interrupt that supervisor
    mode accepts, the timer before the external and the software interrupt;
    otherwise nothing changes. *)
Theorem rv64_interrupt_choice {T} (c : rv_cpu T) :
  csr_wf (csr c) →
  ∃ c', rv64_try_handle_interrupt c = Done (tt, c') ∧
    ((∃ e, highest_by rank (taken_in_M c) e ∧ c' = m_trapped e c) ∨
     (∃ e, (∀ e', is_interrupt e' = true → taken_in_M c e' = false) ∧
        highest_by rank64 (taken_in_S c) e ∧ c' = s_trapped e c) ∨
     ((∀ e', is_interrupt e' = true → taken_in_M c e' = false ∧ taken_in_S c e' = false) ∧ c' = c)).
Proof. apply handle_interrupt_run, rv64_order_ok. Qed.

(** User mode with the timer and the external supervisor interrupt pending. *)
Definition two_irqs : rv_cpu rv64_tlb :=
  with_csr (λ r, r <| mip := 0x220 |> <| mie := 0x220 |> <| mideleg := 0x220 |>)
    (Sample64.cpu0 <| priv_mode := rv_umode |>).

Lemma rv64_interrupt_choice_witness :
  ∃ c', rv64_try_handle_interrupt two_irqs = Done (tt, c') ∧ priv_mode c' = rv_smode.
Proof.
  destruct (rv64_interrupt_choice two_irqs) as (c' & Hrun & Hc).
  { split; cbn; try reflexivity; try apply bits_in_0. by left. }
  exists c'. split; [exact Hrun|]. vm_compute in Hrun. injection Hrun as <-. reflexivity.
Defined.

(** When both are delegated and accepted the timer interrupt is taken, although the
    architecture gives the external interrupt priority. *)
Theorem rv64_timer_before_external {T} (c : rv_cpu T) :
  csr_wf (csr c) → (∀ e, is_interrupt e = true → taken_in_M c e = false) →
  taken_in_S c rv_exc_supervisor_timer_interrupt = true →
  taken_in_S c rv_exc_supervisor_external_interrupt = true →
  rv64_try_handle_interrupt c = Done (tt, s_trapped rv_exc_supervisor_timer_interrupt c).
Proof.
  intros Hr HM Ht He. destruct (handle_interrupt_run rank64 rv64_s_mode_order c rv64_order_ok Hr) as (c' & Hrun & Hc).
  unfold rv64_try_handle_interrupt. rewrite Hrun. destruct Hc as [(e & Hh & _)|[(e & _ & Hh & ->)|[Hn _]]].
  - destruct Hh as (Hi & Hm & _). by rewrite (HM e Hi) in Hm.
  - destruct Hh as (Hi & _ & Hb). specialize (Hb rv_exc_supervisor_timer_interrupt eq_refl Ht).
    assert (e = rv_exc_supervisor_timer_interrupt) as -> by (destruct e; try discriminate Hi; cbn in Hb; done || lia).
    done.
  - destruct (Hn rv_exc_supervisor_timer_interrupt eq_refl) as [_ E]. by rewrite E in Ht.
Qed.

Lemma rv64_timer_before_external_witness :
  rv64_try_handle_interrupt two_irqs = Done (tt, s_trapped rv_exc_supervisor_timer_interrupt two_irqs).
Proof.
  apply (rv64_timer_before_external two_irqs); [| |reflexivity|reflexivity].
  - split; cbn; try reflexivity; try apply bits_in_0. by left.
  - intros e He. by destruct e; try discriminate He.
Defined.
End Rv64.
