(* ===== verification/RvIcacheProps.v ===== *)
(** * Fetching on the RISC-V processors: properties

    The instance of [ICacheProps] with the processor's decoder: a fetch returns
    the decoding of the word in memory, whatever was stored before. *)

From S2P Require Import Prelude PhysMem RvTypes RvCpu RvCsr RvTlb Rv32Tlb Machine RvWorld MachineProps.
From S2P Require Import MachineProps ICache ICacheProps RvStep Rv32Decode Rv32Cpu RvSample.
Import PhysMem.

Section Icache.
Context {T D : Type} `{Board T D} `{!Family T D}.
Abbreviation W := (world T D).
Implicit Types w : W.

Abbreviation decoded := (ICacheProps.decoded (D:=D) instr_decode).
Abbreviation icache_ok := (ICacheProps.icache_ok (D:=D) instr_decode).

Lemma fetch_instr_run phys w (f : Instr.instr_func) w' :
  fetch_cached instr_decode phys w = Done (Some f, w') → fetch_instr phys w = Done (f, w').
Proof. intros E. unfold fetch_instr. by rewrite (bind_Done _ _ _ _ _ E). Qed.

Lemma rv_fetch_run phys f w :
  phys_wf (w_phys w) → icache_ok w → slot_ok phys → lookup_frame (w_phys w) phys = Some f →
  ∃ w', fetch_instr phys w = Done (decoded w phys, w') ∧ icache_ok w' ∧ fetch_rel w w'.
Proof.
  intros Hwf Hic Hs Hf. destruct (fetch_run instr_decode phys f w Hwf Hic Hs Hf) as (w' & Hrun & Hrest).
  exists w'. split; [by apply fetch_instr_run|done].
Qed.

(** C4: fetching an instruction through the cache gives exactly the decoding of
    the word in memory, keeps the cache coherent, and changes nothing but the
    cache and the valid flags of frames. *)
Theorem fetch_refines phys f w :
  phys_wf (w_phys w) → icache_ok w → slot_ok phys → lookup_frame (w_phys w) phys = Some f →
  ∃ w', fetch_instr phys w =
      Done (instr_decode (machine_specific_instructions w) (word_at (w_phys w) phys), w') ∧
    icache_ok w' ∧ fetch_rel w w'.
Proof. apply rv_fetch_run. Qed.

(** C18: a store of any width, by any processor, keeps the cache coherent; the
    next fetch of any wired word sees the memory after the store, in particular
    the stored word itself. *)
Theorem store_then_fetch b procno addr val f a w :
  access_ok w b addr f a → icache_ok w → area_writable a = true →
  ∃ w', write_of b procno addr val true w = Done (true, w') ∧ icache_ok w' ∧
    (∀ phys f', slot_ok phys → lookup_frame (w_phys w) phys = Some f' →
       ∃ w'', fetch_instr phys w' = Done (decoded w' phys, w'')) ∧
    (b = W32 → slot_ok addr →
       ∃ w'', fetch_instr addr w' =
         Done (instr_decode (machine_specific_instructions w) (wrap 32 val), w'')).
Proof.
  intros [Hwf Ha Hc Hf Har] Hic Hw.
  assert (∃ devmem, write_of b procno addr val true w =
    physmem_write devmem (bytes_of b) procno addr val true w) as [devmem ->] by (destruct b; by eexists).
  destruct (store_run instr_decode (bytes_of b) devmem procno addr val f a w)
    as (w' & Hrun & Hwf' & Hic' & Hrel & Hl & Hb); [done..|].
  assert (∀ phys f', slot_ok phys → lookup_frame (w_phys w) phys = Some f' →
    ∃ w'', fetch_instr phys w' = Done (decoded w' phys, w'')) as Hfetch.
  { intros phys f' Hs Hf'. destruct (Hl phys (proj1 Hs) ltac:(by eexists)) as [f'' Hf''].
    destruct (rv_fetch_run phys f'' w' Hwf' Hic' Hs Hf'') as (w'' & Hr & _). by exists w''. }
  exists w'. split_and!; [done|done|done|]. intros -> Hs.
  destruct (Hfetch addr f Hs Hf) as (w'' & Hr). exists w''. rewrite Hr. unfold decoded.
  rewrite (wr_rest _ _ Hrel). cbn [machine_specific_instructions].
  assert (word_at (w_phys w') addr = wrap 32 val) as Ew; [|unfold w_phys in *; by rewrite <- Ew].
  change (wrap 32 val) with (wrap (8 * Z.of_nat 4) val). rewrite <- (le_join_bytes val addr 4). apply le_join_ext. intros k Hk.
  rewrite Hb by (unfold slot, PHYS_LIMIT in *; Z.to_euclidean_division_equations; lia).
  rewrite decide_True by (cbn; lia). done.
Qed.
End Icache.

(** ** Witnesses *)
Definition sample_boot : world rv32_tlb unit := Sample.machine Sample.cpu0 ∅ [0x00500093].

Lemma sample_boot_wf : phys_wf (w_phys sample_boot).
Proof. apply Sample.memory_wf, Sample.empty_ok. Qed.

Lemma sample_boot_icache : ICacheProps.icache_ok instr_decode sample_boot.
Proof. split; [constructor|]. by intros ci ?%not_elem_of_nil. Qed.

Lemma fetch_refines_witness :
  ∃ w', fetch_instr 0xF0000000 sample_boot = Done (Instr.rv_addi_instr, w') ∧ ICacheProps.icache_ok instr_decode w'.
Proof.
  destruct (fetch_refines 0xF0000000 (mk_frame 2 0 false) sample_boot sample_boot_wf
    sample_boot_icache) as (w' & Hrun & Hic & _);
    [unfold slot, PHYS_LIMIT; split; [lia|done]|reflexivity|].
  exists w'. split; [|exact Hic]. rewrite Hrun. reflexivity.
Defined.

Lemma store_then_fetch_witness :
  ∃ w' w'', write_of W32 0 0xF0000004 0x00108093 true sample_boot = Done (true, w') ∧
    fetch_instr 0xF0000004 w' = Done (Instr.rv_addi_instr, w'').
Proof.
  destruct (store_then_fetch W32 0 0xF0000004 0x00108093 (mk_frame 2 0 false)
    (Sample.boot_ram [0x00500093]) sample_boot) as (w' & Hrun & _ & _ & Hf).
  - split; [apply sample_boot_wf|unfold PHYS_LIMIT; lia|vm_compute; congruence|reflexivity|reflexivity].
  - apply sample_boot_icache.
  - reflexivity.
  - destruct (Hf eq_refl) as (w'' & Hfetch); [unfold slot, PHYS_LIMIT; split; [lia|done]|].
    exists w', w''. split; [exact Hrun|]. rewrite Hfetch. reflexivity.
Defined.
