(* ===== verification/RvCompProps.v ===== *)
(** * Multiplication and division: properties, at both register widths

    The high and low halves of a product fit together to the exact product of
    the operands read as signed or unsigned numbers; quotient and remainder
    satisfy the division identity, with the architecture's results for a zero
    divisor and for overflow. *)

From S2P Require Import Prelude RvTypes RvCpu RvComp RvTlb Rv32Tlb RvSample.
Import Instr.

Section Props.
Context `{Xlen} {T : Type}.
Implicit Types c : rv_cpu T.

Definition regs_wf c : Prop := ∀ r, in_width XLEN (reg r c).

(** The function ran without exception and wrote [v] to its destination. *)
Definition writes_rd (f : Z → exec (rv_cpu T) unit) (i : Z) c (v : Z) : Prop :=
  f i c = Done (inr tt, set_reg (rd i) v c).

Lemma r_op_writes opc f i c : opcode i = opc →
  writes_rd (r_op opc f) i c (f (reg (rs1 i) c) (reg (rs2 i) c)).
Proof. intros E. unfold writes_rd, r_op, r_op_st. emsimpl. by rewrite E, Z.eqb_refl. Qed.

Lemma pow_xlen : 2 ^ XLEN = 2 * 2 ^ (XLEN - 1) ∧ 0 < 2 ^ (XLEN - 1).
Proof.
  pose proof xlen_pos. split; [|apply Z.pow_pos_nonneg; lia].
  rewrite <- Z.pow_succ_r by lia. f_equal. lia.
Qed.

Lemma sx_cases a : in_width XLEN a → sx a = a ∧ a < 2 ^ (XLEN - 1) ∨
  sx a = a - 2 ^ XLEN ∧ 2 ^ (XLEN - 1) ≤ a.
Proof.
  intros Ha. unfold sx, sgn. rewrite (wrap_small XLEN a Ha).
  destruct (Z.ltb_spec a (2 ^ (XLEN - 1))); [left|right]; lia.
Qed.

Lemma sx_range a : in_width XLEN a → - 2 ^ (XLEN - 1) ≤ sx a < 2 ^ (XLEN - 1).
Proof. intros Ha. apply sgn_range, xlen_pos. Qed.

(** A value within the signed range survives the conversion to [uxlen_t]. *)
Lemma sx_ux x : - 2 ^ (XLEN - 1) ≤ x < 2 ^ (XLEN - 1) → sx (ux x) = x.
Proof.
  intros Hx. destruct pow_xlen as [E Hp]. unfold sx, ux, sgn. pose proof xlen_pos.
  rewrite wrap_idemp by lia. unfold wrap. destruct (Z.ltb_spec x 0).
  - rewrite <- (Z.mod_unique x (2 ^ XLEN) (-1) (x + 2 ^ XLEN)) by lia.
    destruct (Z.ltb_spec (x + 2 ^ XLEN) (2 ^ (XLEN - 1))); lia.
  - rewrite Z.mod_small by lia. destruct (Z.ltb_spec x (2 ^ (XLEN - 1))); lia.
Qed.

Lemma ux_sx a : in_width XLEN a → ux (sx a) = a.
Proof. intros Ha. unfold ux, sx. pose proof xlen_pos. rewrite wrap_sgn by lia. by apply wrap_small. Qed.

(** ** Multiplication *)
Lemma product_halves x y : ux (x * y) = (x * y) mod 2 ^ XLEN ∧
  Z.shiftr (x * y) XLEN * 2 ^ XLEN + (x * y) mod 2 ^ XLEN = x * y.
Proof.
  pose proof xlen_pos. destruct pow_xlen as [E Hp]. rewrite Z.shiftr_div_pow2 by lia.
  split; [done|]. pose proof (Z.div_mod (x * y) (2 ^ XLEN)). lia.
Qed.

(** Products of congruent factors have the same low half. *)
Lemma low_product a b x y : in_width XLEN a → in_width XLEN b → (x = a ∨ x = sx a) → (y = b ∨ y = sx b) →
  (x * y) mod 2 ^ XLEN = ux (a * b).
Proof.
  intros Ha Hb Hx Hy. unfold ux, wrap. pose proof pow_xlen.
  assert (∀ u v, (v = u ∨ v = sx u) → in_width XLEN u → v mod 2 ^ XLEN = u mod 2 ^ XLEN) as Hc.
  { intros u v [->| ->] Hu; [done|]. destruct (sx_cases u Hu) as [[-> _]|[-> _]]; [done|].
    rewrite <- (Z.mod_add u (-1)) by lia. f_equal; lia. }
  rewrite Z.mul_mod, (Hc a x), (Hc b y), <- Z.mul_mod by (lia || done). done.
Qed.

(** the results of MUL and of the three high multiplications are the two
    halves of the exact product, for signed, unsigned and mixed operands. *)
Theorem mul_halves i c :
  opcode i = rv_opcOP → regs_wf c →
  let a := reg (rs1 i) c in let b := reg (rs2 i) c in
  ∃ lo hss hsu huu, writes_rd RvComp.rv_mul_instr i c lo ∧ writes_rd RvComp.rv_mulh_instr i c hss ∧
    writes_rd RvComp.rv_mulhsu_instr i c hsu ∧ writes_rd RvComp.rv_mulhu_instr i c huu ∧
    sx hss * 2 ^ XLEN + lo = sx a * sx b ∧ sx hsu * 2 ^ XLEN + lo = sx a * b ∧
    huu * 2 ^ XLEN + lo = a * b.
Proof.
  intros Ho Hr a b. do 4 eexists. do 4 (split; [by apply r_op_writes|]).
  pose proof (Hr (rs1 i) : in_width XLEN a) as Ha. pose proof (Hr (rs2 i) : in_width XLEN b) as Hb.
  destruct pow_xlen as [E2 Hp]. pose proof xlen_pos.
  pose proof (sx_range a Ha) as Hsa. pose proof (sx_range b Hb) as Hsb.
  fold a b. destruct (product_halves (sx a) (sx b)) as [_ E3].
  destruct (product_halves (sx a) b) as [_ E4]. destruct (product_halves a b) as [_ E5].
  rewrite (low_product a b) in E3 by auto. rewrite (low_product a b) in E4 by auto.
  rewrite (low_product a b) in E5 by auto.
  unfold in_width in Ha, Hb.
  assert (0 ≤ ux (a * b) < 2 ^ XLEN) as Hl by (apply ux_range).
  split_and!; [rewrite sx_ux; [exact E3|nia]|rewrite sx_ux; [exact E4|nia]|].
  rewrite ux_small; [exact E5|]. unfold in_width. nia.
Qed.

(** ** Division *)
Definition overflows (a b : Z) : Prop := sx a = - 2 ^ (XLEN - 1) ∧ sx b = -1.

Lemma overflowsP a b : reflect (overflows a b) ((sx a =? - XLEN_MIN) && (sx b =? -1)).
Proof.
  unfold overflows, XLEN_MIN. destruct (Z.eqb_spec (sx a) (- 2 ^ (XLEN - 1)));
    destruct (Z.eqb_spec (sx b) (-1)); constructor; lia.
Qed.

(** The quotient fits unless it is the overflowing one. *)
Lemma quot_fits x y : let m := 2 ^ (XLEN - 1) in
  - m ≤ x < m → y ≠ 0 → ¬ (x = - m ∧ y = -1) → - m ≤ Z.quot x y < m.
Proof.
  intros m Hx Hy Hn. pose proof (Z.quot_rem' x y). pose proof (Z.rem_bound_abs x y Hy).
  pose proof (Z.rem_sign_nz x y Hy). pose proof (Z.quot_abs x y Hy).
  destruct (decide (Z.abs y = 1)).
  - assert (y = 1 ∨ y = -1) as [-> | ->] by lia; [rewrite Z.quot_1_r; lia|].
    change (-1) with (- (1)). rewrite Z.quot_opp_r, Z.quot_1_r by lia. lia.
  - assert (Z.abs (Z.quot x y) < m); [|lia].
    rewrite <- Z.quot_abs by done. rewrite Z.quot_div_nonneg by lia.
    apply Z.div_lt_upper_bound; nia.
Qed.

Lemma rem_fits x y : let m := 2 ^ (XLEN - 1) in
  - m ≤ x < m → - m ≤ y < m → y ≠ 0 → - m ≤ Z.rem x y < m.
Proof. intros m Hx Hy H0. pose proof (Z.rem_bound_abs x y H0). lia. Qed.

Lemma sx_zero b : in_width XLEN b → sx b = 0 ↔ b = 0.
Proof. intros Hb. pose proof pow_xlen. unfold in_width in Hb. destruct (sx_cases b Hb); lia. Qed.

(** DIV, REM, DIVU and REMU satisfy the division identity with truncation
    towards zero and a remainder of the dividend's sign; dividing by zero gives
    all ones and the dividend, and the overflowing signed division gives the
    dividend and zero. *)
Theorem div_rem i c :
  opcode i = rv_opcOP → regs_wf c →
  let a := reg (rs1 i) c in let b := reg (rs2 i) c in
  ∃ q r qu ru, writes_rd RvComp.rv_div_instr i c q ∧ writes_rd RvComp.rv_rem_instr i c r ∧
    writes_rd RvComp.rv_divu_instr i c qu ∧ writes_rd RvComp.rv_remu_instr i c ru ∧
    (b = 0 → q = 2 ^ XLEN - 1 ∧ r = a ∧ qu = 2 ^ XLEN - 1 ∧ ru = a) ∧
    (overflows a b → q = a ∧ r = 0) ∧
    (b ≠ 0 → a = qu * b + ru ∧ 0 ≤ ru < b) ∧
    (b ≠ 0 → ¬ overflows a b → sx a = sx q * sx b + sx r ∧ Z.abs (sx r) < Z.abs (sx b) ∧
       0 ≤ sx r * sx a).
Proof.
  intros Ho Hr a b. do 4 eexists. do 4 (split; [by apply r_op_writes|]). fold a b. cbv zeta.
  pose proof (Hr (rs1 i) : in_width XLEN a) as Ha. pose proof (Hr (rs2 i) : in_width XLEN b) as Hb.
  destruct pow_xlen as [E2 Hp]. pose proof (sx_zero b Hb) as Hb0.
  pose proof (sx_range a Ha) as Hsa. pose proof (sx_range b Hb) as Hsb.
  unfold in_width in Hb. split_and!.
  - intros E. apply Hb0 in E as E'. rewrite E', E. cbn [Z.eqb]. rewrite ux_sx by done.
    split_and!; [|done| |done]; [|unfold XLEN_UMAX; rewrite Z.ones_equiv; lia].
    unfold ux, wrap. symmetry. apply Z.mod_unique_pos with (-1); lia.
  - intros Hv. destruct (overflowsP a b); [|done]. destruct Hv as [Eo1 Eo2].
    rewrite Eo2. cbn [Z.eqb]. split; [|done]. unfold XLEN_MIN.
    destruct (sx_cases a Ha); unfold in_width in Ha; lia.
  - intros Hn. destruct (Z.eqb_spec b 0); [done|]. pose proof (Z.div_mod a b).
    pose proof (Z.mod_pos_bound a b). lia.
  - intros Hn Hv. destruct (Z.eqb_spec (sx b) 0) as [|Hs]; [tauto|].
    destruct (overflowsP a b); [done|].
    rewrite !sx_ux by (apply quot_fits || apply rem_fits; done).
    pose proof (Z.quot_rem' (sx a) (sx b)). pose proof (Z.rem_bound_abs (sx a) (sx b) Hs).
    pose proof (Z.rem_sign_mul (sx a) (sx b) Hs). lia.
Qed.
End Props.

(** ** At a concrete instruction: [x1 = -3] and [x2 = 7] *)
Definition two_operands : rv_cpu rv32_tlb := set_reg 1 (2 ^ 32 - 3) (set_reg 2 7 Sample.cpu0).
Abbreviation mul_x3_x1_x2 := 0x022081B3.

Lemma two_operands_wf : regs_wf two_operands.
Proof.
  intros r. unfold two_operands. rewrite !reg_set_reg. by repeat case_decide.
Qed.

Lemma mul_halves_witness : ∃ lo hss hsu huu,
  writes_rd RvComp.rv_mul_instr mul_x3_x1_x2 two_operands lo ∧
  writes_rd RvComp.rv_mulh_instr mul_x3_x1_x2 two_operands hss ∧
  writes_rd RvComp.rv_mulhsu_instr mul_x3_x1_x2 two_operands hsu ∧
  writes_rd RvComp.rv_mulhu_instr mul_x3_x1_x2 two_operands huu ∧
  sx hss * 2 ^ XLEN + lo = -21 ∧ sx hsu * 2 ^ XLEN + lo = -21 ∧
  huu * 2 ^ XLEN + lo = 30064771051.
Proof. exact (mul_halves mul_x3_x1_x2 two_operands eq_refl two_operands_wf). Defined.

Lemma div_rem_witness : ∃ q r qu ru,
  writes_rd RvComp.rv_div_instr mul_x3_x1_x2 two_operands q ∧
  writes_rd RvComp.rv_rem_instr mul_x3_x1_x2 two_operands r ∧
  writes_rd RvComp.rv_divu_instr mul_x3_x1_x2 two_operands qu ∧
  writes_rd RvComp.rv_remu_instr mul_x3_x1_x2 two_operands ru ∧
  4294967293 = qu * 7 + ru ∧ 0 ≤ ru < 7.
Proof.
  destruct (div_rem mul_x3_x1_x2 two_operands eq_refl two_operands_wf)
    as (q & r & qu & ru & H1 & H2 & H3 & H4 & _ & _ & H5 & _).
  exists q, r, qu, ru. split_and!; try done; apply H5; vm_compute; congruence.
Defined.
