(* ===== verification/RvIsa.v ===== *)
(** * The RISC-V instruction set: syntax and encodings

    [instr] is the assembly syntax of the instructions of RV32IMA and RV64IMA,
    [encode] their encoding as the instruction set manual lays out the R, I, S, B,
    U and J formats: fields packed from the lowest bit up.  [instr_wf] depends on
    the register width: some instructions and shift amounts exist for 64 bits
    only.  [func_of] is the function of the simulator for an instruction; the
    decoders are shown to select it in [Rv32Isa] and [Rv64Isa]. *)

From S2P Require Import Prelude RvTypes RvCpu RvCompProps.
Import Instr.

(** ** Syntax *)
Inductive alu_op := ADD | SUB | SLL | SLT | SLTU | XOR | SRL | SRA | OR | AND
  | MUL | MULH | MULHSU | MULHU | DIV | DIVU | REM | REMU.
Inductive imm_op := ADDI | SLTI | SLTIU | XORI | ORI | ANDI.
Inductive shift_op := SLLI | SRLI | SRAI.
Inductive branch_op := BEQ | BNE | BLT | BGE | BLTU | BGEU.
Inductive aluw_op := ADDW | SUBW | SLLW | SRLW | SRAW | MULW | DIVW | DIVUW | REMW | REMUW.
Inductive load_kind := LB | LH | LW | LBU | LHU | LWU | LD.
Inductive store_kind := SB | SH | SW | SD.
Inductive amo_kind := SC | AMOSWAP | AMOADD | AMOXOR | AMOAND | AMOOR | AMOMIN | AMOMAX
  | AMOMINU | AMOMAXU.
Inductive csr_op := CSRRW | CSRRS | CSRRC | CSRRWI | CSRRSI | CSRRCI.
Inductive priv_op := ECALL | EBREAK | SRET | MRET | WFI.

(** Offsets and immediates of the I, S, B and J formats are signed numbers;
    the fields the decoder ignores in FENCE, SFENCE.VMA and the privileged
    instructions are part of the syntax. *)
Inductive instr :=
  | Alu (op : alu_op) (rd rs1 rs2 : Z)
  | AluImm (op : imm_op) (rd rs1 imm : Z)
  | ShiftImm (op : shift_op) (rd rs1 shamt : Z)
  | Lui (rd imm : Z)
  | Auipc (rd imm : Z)
  | Jal (rd off : Z)
  | Jalr (rd rs1 off : Z)
  | Branch (op : branch_op) (rs1 rs2 off : Z)
  | Load (op : load_kind) (rd rs1 off : Z)
  | Store (op : store_kind) (rs1 rs2 off : Z)
  | Lr (rd rs1 aqrl : Z)
  | Amo (op : amo_kind) (rd rs1 rs2 aqrl : Z)
  | AluW (op : aluw_op) (rd rs1 rs2 : Z)
  | AddIW (rd rs1 imm : Z)
  | ShiftW (op : shift_op) (rd rs1 shamt : Z)
  | LrD (rd rs1 aqrl : Z)
  | AmoD (op : amo_kind) (rd rs1 rs2 aqrl : Z)
  | Csr (op : csr_op) (rd rs1 no : Z)
  | Fence (rd rs1 imm : Z)
  | Priv (op : priv_op) (rd rs1 : Z)
  | SfenceVma (rd rs1 rs2 : Z).

Definition alu_codes (op : alu_op) : Z * Z :=
  match op with
  | ADD => (0, 0) | SUB => (0x20, 0) | SLL => (0, 1) | SLT => (0, 2) | SLTU => (0, 3)
  | XOR => (0, 4) | SRL => (0, 5) | SRA => (0x20, 5) | OR => (0, 6) | AND => (0, 7)
  | MUL => (1, 0) | MULH => (1, 1) | MULHSU => (1, 2) | MULHU => (1, 3)
  | DIV => (1, 4) | DIVU => (1, 5) | REM => (1, 6) | REMU => (1, 7)
  end.
Definition aluw_codes (op : aluw_op) : Z * Z :=
  match op with
  | ADDW => (0, 0) | SUBW => (0x20, 0) | SLLW => (0, 1) | SRLW => (0, 5) | SRAW => (0x20, 5)
  | MULW => (1, 0) | DIVW => (1, 4) | DIVUW => (1, 5) | REMW => (1, 6) | REMUW => (1, 7)
  end.
Definition imm_code (op : imm_op) : Z :=
  match op with ADDI => 0 | SLTI => 2 | SLTIU => 3 | XORI => 4 | ORI => 6 | ANDI => 7 end.
Definition shift_codes (op : shift_op) : Z * Z :=
  match op with SLLI => (0, 1) | SRLI => (0, 5) | SRAI => (0x20, 5) end.
Definition branch_code (op : branch_op) : Z :=
  match op with BEQ => 0 | BNE => 1 | BLT => 4 | BGE => 5 | BLTU => 6 | BGEU => 7 end.
Definition load_code (op : load_kind) : Z :=
  match op with LB => 0 | LH => 1 | LW => 2 | LBU => 4 | LHU => 5 | LWU => 6 | LD => 3 end.
Definition store_code (op : store_kind) : Z := match op with SB => 0 | SH => 1 | SW => 2 | SD => 3 end.
Definition amo_code (op : amo_kind) : Z :=
  match op with
  | SC => 3 | AMOSWAP => 1 | AMOADD => 0 | AMOXOR => 4 | AMOAND => 12 | AMOOR => 8
  | AMOMIN => 16 | AMOMAX => 20 | AMOMINU => 24 | AMOMAXU => 28
  end.
Definition csr_code (op : csr_op) : Z :=
  match op with CSRRW => 1 | CSRRS => 2 | CSRRC => 3 | CSRRWI => 5 | CSRRSI => 6 | CSRRCI => 7 end.
Definition priv_code (op : priv_op) : Z :=
  match op with ECALL => 0 | EBREAK => 1 | SRET => 0x102 | MRET => 0x302 | WFI => 0x105 end.

(** ** Encoding *)

(** Fields as (width, value), the lowest first. *)
Fixpoint pack (fs : list (Z * Z)) : Z :=
  match fs with
  | [] => 0
  | (n, v) :: fs' => v + 2 ^ n * pack fs'
  end.

(** Two parts of one field, the lower of [n] bits. *)
Definition join (hi n lo : Z) : Z := hi * 2 ^ n + lo.

Lemma join_high hi n lo : 0 ≤ n → in_width n lo → Z.shiftr (join hi n lo) n = hi.
Proof.
  intros Hn Hl. unfold join. pose proof (pow2_pos n Hn).
  by rewrite Z.shiftr_div_pow2, Z.add_comm, Z.div_add, (Z.div_small lo) by (done || lia).
Qed.

Definition r_type (opc rd f3 rs1 rs2 f7 : Z) : list (Z * Z) :=
  [(7, opc); (5, rd); (3, f3); (5, rs1); (5, rs2); (7, f7)].
Definition i_type (opc rd f3 rs1 imm : Z) : list (Z * Z) :=
  [(7, opc); (5, rd); (3, f3); (5, rs1); (12, imm mod 2 ^ 12)].
Definition s_type (opc f3 rs1 rs2 imm : Z) : list (Z * Z) :=
  [(7, opc); (5, imm mod 2 ^ 5); (3, f3); (5, rs1); (5, rs2); (7, (imm / 2 ^ 5) mod 2 ^ 7)].
Definition b_type (opc f3 rs1 rs2 off : Z) : list (Z * Z) :=
  [(7, opc); (1, (off / 2 ^ 11) mod 2); (4, (off / 2) mod 2 ^ 4); (3, f3); (5, rs1); (5, rs2);
   (6, (off / 2 ^ 5) mod 2 ^ 6); (1, (off / 2 ^ 12) mod 2)].
Definition u_type (opc rd imm : Z) : list (Z * Z) := [(7, opc); (5, rd); (20, imm)].
Definition j_type (opc rd off : Z) : list (Z * Z) :=
  [(7, opc); (5, rd); (8, (off / 2 ^ 12) mod 2 ^ 8); (1, (off / 2 ^ 11) mod 2);
   (10, (off / 2) mod 2 ^ 10); (1, (off / 2 ^ 20) mod 2)].

Definition fields (i : instr) : list (Z * Z) :=
  match i with
  | Alu op rd rs1 rs2 => r_type 0x33 rd (snd (alu_codes op)) rs1 rs2 (fst (alu_codes op))
  | AluImm op rd rs1 imm => i_type 0x13 rd (imm_code op) rs1 imm
  | ShiftImm op rd rs1 sh => i_type 0x13 rd (snd (shift_codes op)) rs1 (join (fst (shift_codes op)) 5 sh)
  | Lui rd imm => u_type 0x37 rd imm
  | Auipc rd imm => u_type 0x17 rd imm
  | Jal rd off => j_type 0x6F rd off
  | Jalr rd rs1 off => i_type 0x67 rd 0 rs1 off
  | Branch op rs1 rs2 off => b_type 0x63 (branch_code op) rs1 rs2 off
  | Load op rd rs1 off => i_type 0x03 rd (load_code op) rs1 off
  | Store op rs1 rs2 off => s_type 0x23 (store_code op) rs1 rs2 off
  | Lr rd rs1 aqrl => r_type 0x2F rd 2 rs1 0 (join 2 2 aqrl)
  | Amo op rd rs1 rs2 aqrl => r_type 0x2F rd 2 rs1 rs2 (join (amo_code op) 2 aqrl)
  | AluW op rd rs1 rs2 => r_type 0x3B rd (snd (aluw_codes op)) rs1 rs2 (fst (aluw_codes op))
  | AddIW rd rs1 imm => i_type 0x1B rd 0 rs1 imm
  | ShiftW op rd rs1 sh => i_type 0x1B rd (snd (shift_codes op)) rs1 (join (fst (shift_codes op)) 5 sh)
  | LrD rd rs1 aqrl => r_type 0x2F rd 3 rs1 0 (join 2 2 aqrl)
  | AmoD op rd rs1 rs2 aqrl => r_type 0x2F rd 3 rs1 rs2 (join (amo_code op) 2 aqrl)
  | Csr op rd rs1 no => i_type 0x73 rd (csr_code op) rs1 no
  | Fence rd rs1 imm => i_type 0x0F rd 0 rs1 imm
  | Priv op rd rs1 => i_type 0x73 rd 0 rs1 (priv_code op)
  | SfenceVma rd rs1 rs2 => r_type 0x73 rd 0 rs1 rs2 9
  end.

Definition encode (i : instr) : Z := pack (fields i).

(** ** Well-formed instructions *)
Definition is_reg (r : Z) : Prop := 0 ≤ r < 32.
Definition simm (n x : Z) : Prop := - 2 ^ (n - 1) ≤ x < 2 ^ (n - 1).

(** Loads and stores of the 64-bit processor only. *)
Definition load_wide (op : load_kind) : bool := match op with LWU | LD => true | _ => false end.
Definition store_wide (op : store_kind) : bool := match op with SD => true | _ => false end.

Definition instr_wf `{Xlen} (i : instr) : Prop :=
  match i with
  | Alu _ rd rs1 rs2 => is_reg rd ∧ is_reg rs1 ∧ is_reg rs2
  | AluImm _ rd rs1 imm => is_reg rd ∧ is_reg rs1 ∧ simm 12 imm
  | ShiftImm _ rd rs1 sh => is_reg rd ∧ is_reg rs1 ∧ 0 ≤ sh < XLEN
  | Lui rd imm | Auipc rd imm => is_reg rd ∧ in_width 20 imm
  | Jal rd off => is_reg rd ∧ simm 21 off ∧ off mod 2 = 0
  | Jalr rd rs1 off => is_reg rd ∧ is_reg rs1 ∧ simm 12 off
  | Branch _ rs1 rs2 off => is_reg rs1 ∧ is_reg rs2 ∧ simm 13 off ∧ off mod 2 = 0
  | Load op rd rs1 off => is_reg rd ∧ is_reg rs1 ∧ simm 12 off ∧ (load_wide op = true → XLEN = 64)
  | Store op rs1 rs2 off => is_reg rs1 ∧ is_reg rs2 ∧ simm 12 off ∧ (store_wide op = true → XLEN = 64)
  | Lr rd rs1 aqrl => is_reg rd ∧ is_reg rs1 ∧ 0 ≤ aqrl < 4
  | Amo _ rd rs1 rs2 aqrl => is_reg rd ∧ is_reg rs1 ∧ is_reg rs2 ∧ 0 ≤ aqrl < 4
  | AluW _ rd rs1 rs2 => is_reg rd ∧ is_reg rs1 ∧ is_reg rs2 ∧ XLEN = 64
  | AddIW rd rs1 imm => is_reg rd ∧ is_reg rs1 ∧ simm 12 imm ∧ XLEN = 64
  | ShiftW _ rd rs1 sh => is_reg rd ∧ is_reg rs1 ∧ 0 ≤ sh < 32 ∧ XLEN = 64
  | LrD rd rs1 aqrl => is_reg rd ∧ is_reg rs1 ∧ 0 ≤ aqrl < 4 ∧ XLEN = 64
  | AmoD _ rd rs1 rs2 aqrl => is_reg rd ∧ is_reg rs1 ∧ is_reg rs2 ∧ 0 ≤ aqrl < 4 ∧ XLEN = 64
  | Csr _ rd rs1 no => is_reg rd ∧ is_reg rs1 ∧ in_width 12 no
  | Fence rd rs1 imm => is_reg rd ∧ is_reg rs1 ∧ in_width 12 imm
  | Priv _ rd rs1 => is_reg rd ∧ is_reg rs1
  | SfenceVma rd rs1 rs2 => is_reg rd ∧ is_reg rs1 ∧ is_reg rs2
  end.

(** The function an instruction stands for. *)
Definition func_of (i : instr) : instr_func :=
  match i with
  | Alu op _ _ _ =>
      match op with
      | ADD => rv_add_instr | SUB => rv_sub_instr | SLL => rv_sll_instr | SLT => rv_slt_instr
      | SLTU => rv_sltu_instr | XOR => rv_xor_instr | SRL => rv_srl_instr | SRA => rv_sra_instr
      | OR => rv_or_instr | AND => rv_and_instr | MUL => rv_mul_instr | MULH => rv_mulh_instr
      | MULHSU => rv_mulhsu_instr | MULHU => rv_mulhu_instr | DIV => rv_div_instr
      | DIVU => rv_divu_instr | REM => rv_rem_instr | REMU => rv_remu_instr
      end
  | AluImm op _ _ _ =>
      match op with
      | ADDI => rv_addi_instr | SLTI => rv_slti_instr | SLTIU => rv_sltiu_instr
      | XORI => rv_xori_instr | ORI => rv_ori_instr | ANDI => rv_andi_instr
      end
  | ShiftImm op _ _ _ =>
      match op with SLLI => rv_slli_instr | SRLI => rv_srli_instr | SRAI => rv_srai_instr end
  | Lui _ _ => rv_lui_instr
  | Auipc _ _ => rv_auipc_instr
  | Jal _ _ => rv_jal_instr
  | Jalr _ _ _ => rv_jalr_instr
  | Branch op _ _ _ =>
      match op with
      | BEQ => rv_beq_instr | BNE => rv_bne_instr | BLT => rv_blt_instr
      | BGE => rv_bge_instr | BLTU => rv_bltu_instr | BGEU => rv_bgeu_instr
      end
  | Load op _ _ _ =>
      match op with
      | LB => rv_lb_instr | LH => rv_lh_instr | LW => rv_lw_instr
      | LBU => rv_lbu_instr | LHU => rv_lhu_instr | LWU => rv_lwu_instr | LD => rv_ld_instr
      end
  | Store op _ _ _ =>
      match op with SB => rv_sb_instr | SH => rv_sh_instr | SW => rv_sw_instr | SD => rv_sd_instr end
  | Lr _ _ _ => rv_lr_w_instr
  | Amo op _ _ _ _ =>
      match op with
      | SC => rv_sc_w_instr | AMOSWAP => rv_amoswap_w_instr | AMOADD => rv_amoadd_w_instr
      | AMOXOR => rv_amoxor_w_instr | AMOAND => rv_amoand_w_instr | AMOOR => rv_amoor_w_instr
      | AMOMIN => rv_amomin_w_instr | AMOMAX => rv_amomax_w_instr
      | AMOMINU => rv_amominu_w_instr | AMOMAXU => rv_amomaxu_w_instr
      end
  | AluW op _ _ _ =>
      match op with
      | ADDW => rv_addw_instr | SUBW => rv_subw_instr | SLLW => rv_sllw_instr | SRLW => rv_srlw_instr
      | SRAW => rv_sraw_instr | MULW => rv_mulw_instr | DIVW => rv_divw_instr
      | DIVUW => rv_divuw_instr | REMW => rv_remw_instr | REMUW => rv_remuw_instr
      end
  | AddIW _ _ _ => rv_addiw_instr
  | ShiftW op _ _ _ =>
      match op with SLLI => rv_slliw_instr | SRLI => rv_srliw_instr | SRAI => rv_sraiw_instr end
  | LrD _ _ _ => rv_lr_instr
  | AmoD op _ _ _ _ =>
      match op with
      | SC => rv_sc_instr | AMOSWAP => rv_amoswap_d_instr | AMOADD => rv_amoadd_d_instr
      | AMOXOR => rv_amoxor_d_instr | AMOAND => rv_amoand_d_instr | AMOOR => rv_amoor_d_instr
      | AMOMIN => rv_amomin_d_instr | AMOMAX => rv_amomax_d_instr
      | AMOMINU => rv_amominu_d_instr | AMOMAXU => rv_amomaxu_d_instr
      end
  | Csr op _ _ _ =>
      match op with
      | CSRRW => rv_csrrw_instr | CSRRS => rv_csrrs_instr | CSRRC => rv_csrrc_instr
      | CSRRWI => rv_csrrwi_instr | CSRRSI => rv_csrrsi_instr | CSRRCI => rv_csrrci_instr
      end
  | Fence _ _ _ => rv_fence_instr
  | Priv op _ _ =>
      match op with
      | ECALL => rv_call_instr | EBREAK => rv_break_instr | SRET => rv_sret_instr
      | MRET => rv_mret_instr | WFI => rv_wfi_instr
      end
  | SfenceVma _ _ _ => rv_sfence_instr
  end.

(** ** Reading packed fields *)
Definition fields_ok (fs : list (Z * Z)) : Prop := Forall (λ f, 0 ≤ fst f ∧ in_width (fst f) (snd f)) fs.

(** The bits [lo, lo + n) when they lie within one field. *)
Fixpoint field_at (fs : list (Z * Z)) (lo n : Z) : option Z :=
  match fs with
  | [] => None
  | (w, v) :: fs' =>
      if w <=? lo then field_at fs' (lo - w) n
      else if n <=? w - lo then Some (if (lo =? 0) && (n =? w) then v else ubits v lo n) else None
  end.

Lemma ubits_div x lo n : 0 ≤ lo → 0 ≤ n → ubits x lo n = (x / 2 ^ lo) mod 2 ^ n.
Proof. intros. unfold ubits. by rewrite Z.land_ones, Z.shiftr_div_pow2. Qed.

Lemma ubits_above v w rest lo n : 0 ≤ w ≤ lo → 0 ≤ n → in_width w v →
  ubits (v + 2 ^ w * rest) lo n = ubits rest (lo - w) n.
Proof.
  intros Hw Hn Hv. rewrite !ubits_div by lia. f_equal.
  replace (2 ^ lo) with (2 ^ w * 2 ^ (lo - w)) by (rewrite <- Z.pow_add_r by lia; f_equal; lia).
  rewrite <- Z.div_div by (pose proof (pow2_pos w); pose proof (pow2_pos (lo - w)); lia).
  f_equal. rewrite Z.mul_comm, Z.div_add by (pose proof (pow2_pos w); lia).
  by rewrite (Z.div_small v).
Qed.

Lemma ubits_within v w rest lo n : 0 ≤ lo → 0 ≤ n → lo + n ≤ w →
  ubits (v + 2 ^ w * rest) lo n = ubits v lo n.
Proof.
  intros Hlo Hn Hw. rewrite !ubits_div by lia.
  replace (2 ^ w * rest) with (rest * 2 ^ (w - lo - n) * 2 ^ n * 2 ^ lo).
  - pose proof (pow2_pos lo Hlo). pose proof (pow2_pos n Hn).
    rewrite Z.div_add by lia. by rewrite Z.mod_add by lia.
  - replace w with ((w - lo - n) + n + lo) at 2 by lia. rewrite !Z.pow_add_r by lia. lia.
Qed.

Lemma field_at_ok fs lo n v : fields_ok fs → 0 ≤ lo → 0 ≤ n →
  field_at fs lo n = Some v → ubits (pack fs) lo n = v.
Proof.
  revert lo. induction fs as [|[w x] fs IH]; intros lo Hok Hlo Hn; [done|]. cbn [field_at pack].
  apply Forall_cons in Hok as [[Hw Hx] Hok]. cbn in Hw, Hx.
  destruct (Z.leb_spec w lo); [rewrite ubits_above by (lia || done); apply IH; lia || done|].
  destruct (Z.leb_spec n (w - lo)); [|done]. rewrite ubits_within by lia. intros [= <-].
  destruct (Z.eqb_spec lo 0), (Z.eqb_spec n w); try done. subst. unfold ubits. cbn [andb].
  rewrite Z.shiftr_0_r, <- wrap_land by done. by apply wrap_small.
Qed.

Section Fields.
Context `{Xlen}.

Lemma xlen_bounds : 32 ≤ XLEN ≤ 64.
Proof. destruct xlen_cases as [-> | ->]; lia. Qed.

Lemma fields_are_ok i : instr_wf i → fields_ok (fields i).
Proof.
  intros Hi. unfold fields_ok, is_reg, simm, in_width in *. pose proof xlen_bounds as Hx.
  destruct i; cbn in Hi; unfold is_reg, simm, in_width in Hi; cbn [fields];
    unfold r_type, i_type, s_type, b_type, u_type, j_type;
    repeat (apply Forall_cons; split; [unfold in_width; cbn [fst snd]|]); try apply Forall_nil_2;
    try (split; [lia|apply Z.mod_pos_bound; lia]);
    unfold join; try (destruct op; cbn; lia); lia.
Qed.

Lemma encode_field i lo n v : instr_wf i → 0 ≤ lo → 0 ≤ n →
  field_at (fields i) lo n = Some v → ubits (encode i) lo n = v.
Proof. intros Hi. by apply field_at_ok, fields_are_ok. Qed.

End Fields.

(** Replaces the fields of an encoding by their values. *)
Ltac fields :=
  repeat match goal with
  | |- context [ubits (encode ?i) ?lo ?n] =>
      let e := eval cbv -[join Z.div Z.modulo Z.pow ubits fst snd alu_codes imm_code shift_codes
        branch_code load_code store_code amo_code csr_code priv_code aluw_codes] in
        (field_at (fields i) lo n) in
      match e with
      | Some ?v => rewrite (encode_field i lo n v) by first [assumption | lia | reflexivity]
      end
  end.

Section Fields2.
Context `{Xlen}.

Lemma encode_opcode i : instr_wf i → opcode (encode i) = snd (default (0, 0) (head (fields i))).
Proof. intros Hi. apply encode_field; [done|lia|lia|]. by destruct i. Qed.

Lemma sgn_simm n x : 0 < n → simm n x → sgn n (x mod 2 ^ n) = x.
Proof.
  intros Hn [H1 H2]. unfold sgn, wrap. rewrite Zmod_mod.
  assert (2 ^ n = 2 * 2 ^ (n - 1)) as E by (rewrite <- Z.pow_succ_r by lia; f_equal; lia).
  destruct (Z.ltb_spec x 0).
  - rewrite <- (Z.mod_unique x (2 ^ n) (-1) (x + 2 ^ n)) by lia.
    destruct (Z.ltb_spec (x + 2 ^ n) (2 ^ (n - 1))); lia.
  - rewrite Z.mod_small by lia. destruct (Z.ltb_spec x (2 ^ (n - 1))); lia.
Qed.

Lemma i_imm_shift op rd rs1 sh : instr_wf (ShiftImm op rd rs1 sh) →
  i_imm (encode (ShiftImm op rd rs1 sh)) = join (fst (shift_codes op)) 5 sh.
Proof.
  intros Hi. unfold i_imm, sbits. fields. apply sgn_simm; [lia|].
  destruct Hi as (_ & _ & Hs). pose proof xlen_bounds. unfold simm, join. destruct op; cbn; lia.
Qed.

Lemma i_imm_shiftw op rd rs1 sh : instr_wf (ShiftW op rd rs1 sh) →
  i_imm (encode (ShiftW op rd rs1 sh)) = join (fst (shift_codes op)) 5 sh.
Proof.
  intros Hi. unfold i_imm, sbits. fields. apply sgn_simm; [lia|].
  destruct Hi as (_ & _ & Hs & _). unfold simm, join. destruct op; cbn; lia.
Qed.

Lemma i_imm_of imm i : instr_wf i → simm 12 imm →
  field_at (fields i) 20 12 = Some (imm mod 2 ^ 12) → i_imm (encode i) = imm.
Proof.
  intros Hi Hs Hf. unfold i_imm, sbits. rewrite (encode_field i 20 12 _ Hi) by first [lia|exact Hf].
  by apply sgn_simm.
Qed.
End Fields2.


(** ** Words are packed from their slices *)
Fixpoint slices (x lo : Z) (ws : list Z) : list (Z * Z) :=
  match ws with
  | [] => []
  | n :: ws' => (n, ubits x lo n) :: slices x (lo + n) ws'
  end.

Lemma pack_slices x lo ws : 0 ≤ lo → Forall (λ n, 0 ≤ n) ws →
  pack (slices x lo ws) = (x / 2 ^ lo) mod 2 ^ foldr Z.add 0 ws ∧ 0 ≤ foldr Z.add 0 ws.
Proof.
  intros Hlo Hws. revert lo Hlo. induction Hws as [|n ws Hn Hws IH]; intros lo Hlo; cbn.
  { by rewrite Z.mod_1_r. }
  destruct (IH (lo + n) ltac:(lia)) as [-> Hs]. split; [|lia].
  pose proof (pow2_pos lo Hlo). pose proof (pow2_pos n Hn). pose proof (pow2_pos _ Hs).
  rewrite ubits_div, !Z.pow_add_r, <- Z.div_div by lia. by rewrite Z.rem_mul_r by lia.
Qed.

Lemma encode_slices i w : in_width 32 w → fields i = slices w 0 (map fst (fields i)) → encode i = w.
Proof.
  intros Hw E. unfold encode. rewrite E. destruct (pack_slices w 0 (map fst (fields i))) as [-> _].
  - lia.
  - destruct i; cbn; repeat (apply Forall_cons; split; [lia|]); apply Forall_nil_2.
  - assert (foldr Z.add 0 (map fst (fields i)) = 32) as -> by by destruct i.
    rewrite Z.div_1_r. by apply Z.mod_small.
Qed.

(** An equation between field lists, one equation per field; the ones among the
    hypotheses are discharged. *)
Ltac same_fields :=
  apply encode_slices; [assumption|];
  cbn [fields]; unfold r_type, i_type, s_type, b_type, u_type, j_type; cbn [slices map fst];
  unfold opcode, rd, rs1, rs2, funct3, funct7, u_imm in *;
  repeat match goal with
  | |- context [ubits ?x (?a + ?b) ?n] =>
      let l := eval vm_compute in (a + b) in change (ubits x (a + b) n) with (ubits x l n)
  end;
  repeat match goal with
  | |- @eq (list _) (_ :: _) (_ :: _) => f_equal
  | |- @eq (_ * _) (_, _) (_, _) => f_equal
  | |- ?a = ?a => reflexivity
  | H : ?a = ?b |- ?a = ?b => exact H
  | H : ?b = ?a |- ?a = ?b => exact (eq_sym H)
  end.

Lemma join_inj hi lo hi' lo' n : 0 ≤ n → in_width n lo → in_width n lo' →
  join hi n lo = join hi' n lo' → hi = hi' ∧ lo = lo'.
Proof.
  unfold join, in_width. intros Hn Hl Hl' E. pose proof (pow2_pos n Hn).
  assert (hi = hi') by nia. nia.
Qed.

Lemma i_imm_mod w : i_imm w mod 2 ^ 12 = ubits w 20 12.
Proof.
  change (wrap 12 (i_imm w) = ubits w 20 12). unfold i_imm, sbits. rewrite wrap_sgn by lia.
  apply wrap_small, ubits_range. lia.
Qed.

Lemma i_imm_simm w : simm 12 (i_imm w).
Proof. apply sgn_range. lia. Qed.

(** ** Offsets scattered over the word *)
Definition s_off (w : Z) : Z := join (s_imm11_5 w) 5 (s_imm4_0 w).
Definition b_off (w : Z) : Z :=
  b_imm12 w * 2 ^ 12 + b_imm11 w * 2 ^ 11 + b_imm10_5 w * 2 ^ 5 + b_imm4_1 w * 2.
Definition j_off (w : Z) : Z :=
  j_imm20 w * 2 ^ 20 + j_imm19_12 w * 2 ^ 12 + j_imm11 w * 2 ^ 11 + j_imm10_1 w * 2.

(** The ranges of the slices of a word. *)
Ltac slice_range w lo n :=
  let H := fresh "Hb" in pose proof (ubits_range w lo n ltac:(lia)) as H; unfold in_width in H; cbn in H.

Lemma sbits1 w lo : sbits w lo 1 = - ubits w lo 1.
Proof.
  slice_range w lo 1. unfold sbits, sgn. rewrite wrap_small by done.
  destruct (Z.ltb_spec (ubits w lo 1) (2 ^ (1 - 1))); cbn in *; lia.
Qed.

Lemma s_imm_off `{Xlen} w : RV_S_IMM w = ux (s_off w).
Proof. unfold RV_S_IMM. rewrite lor_disjoint; [done|lia|apply ubits_range; lia]. Qed.

Lemma b_imm_off `{Xlen} w : RV_B_IMM w = ux (b_off w).
Proof.
  unfold RV_B_IMM, b_off. f_equal. unfold b_imm11, b_imm10_5, b_imm4_1.
  slice_range w 7 1. slice_range w 8 4. slice_range w 25 6.
  rewrite <- !Z.lor_assoc, (Z.shiftl_mul_pow2 (ubits w 8 4)) by lia.
  rewrite (lor_disjoint (ubits w 25 6)), (lor_disjoint (ubits w 7 1)), lor_disjoint
    by (unfold in_width; cbn; lia). lia.
Qed.

Lemma j_imm_off `{Xlen} w : RV_J_IMM w = ux (j_off w).
Proof.
  unfold RV_J_IMM, j_off. f_equal. unfold j_imm11, j_imm10_1, j_imm19_12.
  slice_range w 12 8. slice_range w 20 1. slice_range w 21 10.
  rewrite <- !Z.lor_assoc, (Z.shiftl_mul_pow2 (ubits w 21 10)) by lia.
  rewrite (lor_disjoint (ubits w 20 1)), (lor_disjoint (ubits w 12 8)), lor_disjoint
    by (unfold in_width; cbn; lia). lia.
Qed.

Lemma s_off_slices w : simm 12 (s_off w) ∧ s_off w mod 2 ^ 5 = ubits w 7 5 ∧
  (s_off w / 2 ^ 5) mod 2 ^ 7 = ubits w 25 7.
Proof.
  unfold s_off, join, s_imm11_5, s_imm4_0, simm. slice_range w 7 5. slice_range w 25 7.
  pose proof (sgn_range 7 (ubits w 25 7)) as Hr. fold (sbits w 25 7) in Hr.
  assert (sbits w 25 7 = ubits w 25 7 ∨ sbits w 25 7 = ubits w 25 7 - 2 ^ 7) as Hs.
  { unfold sbits, sgn. rewrite wrap_small by done. destruct (_ <? _); lia. }
  split_and!; [cbn in *; lia..| |]; cbn; Z.to_euclidean_division_equations; lia.
Qed.

Lemma b_off_slices w : simm 13 (b_off w) ∧ b_off w mod 2 = 0 ∧
  (b_off w / 2 ^ 11) mod 2 = ubits w 7 1 ∧ (b_off w / 2) mod 2 ^ 4 = ubits w 8 4 ∧
  (b_off w / 2 ^ 5) mod 2 ^ 6 = ubits w 25 6 ∧ (b_off w / 2 ^ 12) mod 2 = ubits w 31 1.
Proof.
  unfold b_off, b_imm12, b_imm11, b_imm10_5, b_imm4_1, simm. rewrite sbits1.
  slice_range w 7 1. slice_range w 8 4. slice_range w 25 6. slice_range w 31 1.
  split_and!; cbn; Z.to_euclidean_division_equations; lia.
Qed.

Lemma j_off_slices w : simm 21 (j_off w) ∧ j_off w mod 2 = 0 ∧
  (j_off w / 2 ^ 12) mod 2 ^ 8 = ubits w 12 8 ∧ (j_off w / 2 ^ 11) mod 2 = ubits w 20 1 ∧
  (j_off w / 2) mod 2 ^ 10 = ubits w 21 10 ∧ (j_off w / 2 ^ 20) mod 2 = ubits w 31 1.
Proof.
  unfold j_off, j_imm20, j_imm11, j_imm19_12, j_imm10_1, simm. rewrite sbits1.
  slice_range w 12 8. slice_range w 20 1. slice_range w 21 10. slice_range w 31 1.
  split_and!; cbn; Z.to_euclidean_division_equations; lia.
Qed.

Lemma r_funct_join `{Xlen} w : RV_R_FUNCT w = join (funct7 w) 3 (funct3 w).
Proof.
  pose proof (ubits_range w 12 3 ltac:(lia)) as H3. pose proof (ubits_range w 25 7 ltac:(lia)) as H7.
  unfold RV_R_FUNCT, join. rewrite lor_disjoint by (lia || done). apply ux_small.
  unfold in_width, funct3, funct7 in *. destruct xlen_cases as [-> | ->]; cbn in *; lia.
Qed.

(** Solves [∃ op, code op = v] by trying the constructors. *)
Ltac find_op := first
  [ by exists ADD | by exists SUB | by exists SLL | by exists SLT | by exists SLTU | by exists XOR
  | by exists SRL | by exists SRA | by exists OR | by exists AND | by exists MUL | by exists MULH
  | by exists MULHSU | by exists MULHU | by exists DIV | by exists DIVU | by exists REM | by exists REMU
  | by exists ADDI | by exists SLTI | by exists SLTIU | by exists XORI | by exists ORI | by exists ANDI
  | by exists SLLI | by exists SRLI | by exists SRAI | by exists BEQ | by exists BNE | by exists BLT
  | by exists BGE | by exists BLTU | by exists BGEU | by exists LB | by exists LH | by exists LW
  | by exists LBU | by exists LHU | by exists LWU | by exists LD | by exists SD | by exists SB | by exists SH | by exists SW | by exists SC
  | by exists AMOSWAP | by exists AMOADD | by exists AMOXOR | by exists AMOAND | by exists AMOOR
  | by exists AMOMIN | by exists AMOMAX | by exists AMOMINU | by exists AMOMAXU | by exists CSRRW
  | by exists CSRRS | by exists CSRRC | by exists CSRRWI | by exists CSRRSI | by exists CSRRCI
  | by exists ADDW | by exists SUBW | by exists SLLW | by exists SRLW | by exists SRAW | by exists MULW
  | by exists DIVW | by exists DIVUW | by exists REMW | by exists REMUW | by exists ECALL | by exists EBREAK | by exists SRET | by exists MRET | by exists WFI ].

(** Case analysis on a number matched against literals. *)
Ltac cases v :=
  destruct v as [|p|p];
  repeat match goal with
  | H : ?x ≠ ?x |- _ => by destruct H
  | p : positive |- _ => destruct p as [p|p|]
  end; try congruence.
