(* ===== verification/Rv32Isa.v ===== *)
(** * The RV32IMA decoder inverts the encodings

    An encoding decodes to the function of its instruction, and every word the
    decoder accepts is an encoding.  The decoders shared with the RV64 processor
    are treated for any register width. *)

From S2P Require Import Prelude RvTypes RvCpu RvComp RvCtl RvCompProps Machine RvWorld RvTlb Rv32Tlb.
From S2P Require Import Rv32Decode RvIsa.
Import Instr.

Lemma decode_encode_run sp i : instr_wf i → rv32_instr_decode sp (encode i) = func_of i.
Proof.
  intros Hi. unfold rv32_instr_decode. rewrite encode_opcode by done.
  destruct i; cbn -[encode decode_PRIV]; try done; try (by destruct Hi as (_ & _ & _ & ?));
    unfold decode_OP, decode_OP_IMM, decode_JALR, decode_BRANCH, decode_LOAD, decode_STORE,
      decode_AMO, decode_SYSTEM, decode_MISC_MEM, RV_R_FUNCT, RV_AMO_FUNCT, funct3, funct7, rs2; fields.
  - by destruct op.
  - by destruct op.
  - rewrite i_imm_shift, join_high by (apply Hi || done || lia). by destruct op.
  - done.
  - by destruct op.
  - destruct Hi as (_ & _ & _ & Hx). by destruct op; try done; specialize (Hx eq_refl).
  - destruct Hi as (_ & _ & _ & Hx). by destruct op; try done; specialize (Hx eq_refl).
  - rewrite join_high by (apply Hi || lia). done.
  - rewrite join_high by (apply Hi || lia). by destruct op.
  - by destruct Hi as (_ & _ & _ & _ & ?).
  - by destruct op.
  - done.
  - unfold decode_PRIV, funct7, i_imm, sbits. fields. by destruct op.
  - unfold decode_PRIV, funct7. by fields.
Qed.

(** ** Operations of accepted words *)
Lemma branch_ops w : decode_BRANCH w ≠ rv_illegal_instr → ∃ op, branch_code op = funct3 w.
Proof. unfold decode_BRANCH. intros Hd. cases (funct3 w); find_op. Qed.

Lemma alu_ops w : decode_OP w ≠ rv_illegal_instr → ∃ op, alu_codes op = (funct7 w, funct3 w).
Proof.
  unfold decode_OP. rewrite r_funct_join. intros Hd.
  assert (∃ op, join (fst (alu_codes op)) 3 (snd (alu_codes op)) = join (funct7 w) 3 (funct3 w))
    as [op E] by (cases (join (funct7 w) 3 (funct3 w)); find_op).
  exists op. apply join_inj in E as [E1 E2]; [|lia|by destruct op|apply ubits_range; lia].
  rewrite <- E1, <- E2. by destruct op.
Qed.

Lemma csr_ops sp w : decode_SYSTEM sp w ≠ rv_illegal_instr →
  (∃ op, csr_code op = funct3 w) ∨ funct3 w = 0 ∧ decode_PRIV sp w ≠ rv_illegal_instr.
Proof. unfold decode_SYSTEM. intros Hd. cases (funct3 w); first [by right|left; find_op]. Qed.

Lemma priv_ops w : decode_PRIV false w ≠ rv_illegal_instr →
  funct7 w = 9 ∨ ∃ op, priv_code op = ubits w 20 12.
Proof.
  unfold decode_PRIV. destruct (Z.eqb_spec (funct7 w) rv_privSFENCEVMA_FUNCT7) as [->|]; [by left|].
  change 0xFFF with (Z.ones 12). rewrite Z.land_ones by lia. rewrite i_imm_mod.
  intros Hd. right. cases (ubits w 20 12); find_op.
Qed.

(** ** Accepted words of the decoders both processors share *)
Section Common.
Context `{Xlen}.

(** The two lowest bits of [funct7] of an atomic instruction are its ordering. *)
Lemma aqrl_join w :
  join (Z.shiftr (funct7 w) 2) 2 (funct7 w mod 4) = funct7 w ∧ 0 ≤ funct7 w mod 4 < 4.
Proof.
  split; [|apply Z.mod_pos_bound; lia].
  unfold join. rewrite Z.shiftr_div_pow2 by lia. cbn. Z.to_euclidean_division_equations; lia.
Qed.

(** An immediate is its upper part and a shift amount. *)
Lemma shamt_join w n : 0 ≤ n → join (Z.shiftr (i_imm w) n) n (i_imm w mod 2 ^ n) = i_imm w.
Proof.
  intros Hn. unfold join. rewrite Z.shiftr_div_pow2 by done. rewrite Z.mul_comm.
  symmetry. apply Z.div_mod. pose proof (pow2_pos n Hn). lia.
Qed.

Lemma decoded_branch w : in_width 32 w →
  (opcode w = 0x63 → decode_BRANCH w ≠ rv_illegal_instr → ∃ i, instr_wf i ∧ encode i = w) ∧
  (opcode w = 0x33 → decode_OP w ≠ rv_illegal_instr → ∃ i, instr_wf i ∧ encode i = w).
Proof.
  intros Hw. pose proof (rd_range w) as Hrd. pose proof (rs1_range w) as Hrs1.
  pose proof (rs2_range w) as Hrs2. split; intros Ho Hd.
  - apply branch_ops in Hd as [op Ef]. exists (Branch op (rs1 w) (rs2 w) (b_off w)).
    destruct (b_off_slices w) as (Hs & Hm & E1 & E2 & E3 & E4). split; [done|]. same_fields.
  - apply alu_ops in Hd as [op Ef]. exists (Alu op (rd w) (rs1 w) (rs2 w)).
    split; [done|]. same_fields; by rewrite Ef.
Qed.

Lemma decoded_others w : in_width 32 w →
  (opcode w = 0x0F → decode_MISC_MEM w ≠ rv_illegal_instr → ∃ i, instr_wf i ∧ encode i = w) ∧
  (opcode w = 0x67 → decode_JALR w ≠ rv_illegal_instr → ∃ i, instr_wf i ∧ encode i = w) ∧
  (opcode w = 0x17 ∨ opcode w = 0x37 ∨ opcode w = 0x6F → ∃ i, instr_wf i ∧ encode i = w) ∧
  (opcode w = 0x73 → decode_SYSTEM false w ≠ rv_illegal_instr → ∃ i, instr_wf i ∧ encode i = w).
Proof.
  intros Hw. pose proof (rd_range w) as Hrd. pose proof (rs1_range w) as Hrs1.
  pose proof (rs2_range w) as Hrs2. pose proof (i_imm_simm w) as Hi.
  pose proof (ubits_range w 20 12 ltac:(lia)) as Hu. pose proof (ubits_range w 12 20 ltac:(lia)) as Hui.
  assert (∀ x, in_width 12 x → x mod 2 ^ 12 = x) as Hm by (intros; by apply Z.mod_small).
  split_and!.
  - intros Ho Hd. unfold decode_MISC_MEM in Hd. destruct (Z.eqb_spec (funct3 w) 0) as [Ef|]; [|done].
    exists (Fence (rd w) (rs1 w) (ubits w 20 12)). split; [done|]. same_fields. by apply Hm.
  - intros Ho Hd. unfold decode_JALR in Hd. destruct (Z.eqb_spec (funct3 w) 0) as [Ef|]; [|done].
    exists (Jalr (rd w) (rs1 w) (i_imm w)). split; [done|]. same_fields. apply i_imm_mod.
  - destruct (j_off_slices w) as (Hs & Hm2 & E1 & E2 & E3 & E4). intros [Ho|[Ho|Ho]].
    + exists (Auipc (rd w) (u_imm w)). split; [done|]. same_fields.
    + exists (Lui (rd w) (u_imm w)). split; [done|]. same_fields.
    + exists (Jal (rd w) (j_off w)). split; [done|]. same_fields.
  - intros Ho [[op Ef]|[Ef Hd]]%csr_ops.
    + exists (Csr op (rd w) (rs1 w) (ubits w 20 12)). split; [done|]. same_fields. by apply Hm.
    + apply priv_ops in Hd as [E7|[op Eo]].
      * exists (SfenceVma (rd w) (rs1 w) (rs2 w)). split; [done|]. same_fields.
      * exists (Priv op (rd w) (rs1 w)). split; [done|]. same_fields. rewrite Eo. by apply Hm.
Qed.

End Common.

(** ** The RV32 decoders *)
Lemma load_ops w : decode_LOAD w ≠ rv_illegal_instr → ∃ op, load_code op = funct3 w ∧ load_wide op = false.
Proof.
  unfold decode_LOAD. intros Hd.
  cases (funct3 w); first [by exists LB|by exists LH|by exists LW|by exists LBU|by exists LHU].
Qed.

Lemma store_ops w : decode_STORE w ≠ rv_illegal_instr → ∃ op, store_code op = funct3 w ∧ store_wide op = false.
Proof.
  unfold decode_STORE. intros Hd. cases (funct3 w); first [by exists SB|by exists SH|by exists SW].
Qed.

Lemma amo_ops w : decode_AMO w ≠ rv_illegal_instr → funct3 w = 2 ∧
  (Z.shiftr (funct7 w) 2 = 2 ∧ rs2 w = 0 ∨ ∃ op, amo_code op = Z.shiftr (funct7 w) 2).
Proof.
  unfold decode_AMO, RV_AMO_FUNCT. destruct (Z.eqb_spec (funct3 w) RV_AMO_32_WLEN) as [->|]; [|done].
  intros Hd. split; [done|]. cbn [negb] in Hd. destruct (Z.eqb_spec (rs2 w) 0).
  all: cases (Z.shiftr (funct7 w) 2); first [by left|right; find_op].
Qed.

Lemma imm_ops w : decode_OP_IMM w ≠ rv_illegal_instr →
  (∃ op, imm_code op = funct3 w) ∨ ∃ op, shift_codes op = (Z.shiftr (i_imm w) 5, funct3 w).
Proof.
  unfold decode_OP_IMM. intros Hd. destruct (Z.eqb_spec (Z.shiftr (i_imm w) 5) 0) as [E|].
  - rewrite E in *. cases (funct3 w); first [left; find_op|right; find_op].
  - destruct (decide (Z.shiftr (i_imm w) 5 = 0x20)) as [E'|].
    + rewrite E' in *. cases (funct3 w); first [left; find_op|right; find_op].
    + assert (funct3 w ≠ 5) as H5.
      { intros E5. rewrite E5 in Hd. cases (Z.shiftr (i_imm w) 5). }
      cases (funct3 w); left; find_op.
Qed.

Lemma decoded_loads_stores w : in_width 32 w →
  (opcode w = 0x03 → decode_LOAD w ≠ rv_illegal_instr → ∃ i, instr_wf i ∧ encode i = w) ∧
  (opcode w = 0x23 → decode_STORE w ≠ rv_illegal_instr → ∃ i, instr_wf i ∧ encode i = w).
Proof.
  intros Hw. pose proof (rd_range w) as Hrd. pose proof (rs1_range w) as Hrs1.
  pose proof (rs2_range w) as Hrs2. split_and!; intros Ho Hd.
  - apply load_ops in Hd as (op & Ef & En). exists (Load op (rd w) (rs1 w) (i_imm w)).
    split; [split_and!; [done|done|apply i_imm_simm|by rewrite En]|]. same_fields. apply i_imm_mod.
  - apply store_ops in Hd as (op & Ef & En). exists (Store op (rs1 w) (rs2 w) (s_off w)).
    destruct (s_off_slices w) as (Hs & E1 & E2).
    split; [split_and!; [done|done|done|by rewrite En]|]. same_fields.
Qed.

Lemma decoded_op w : in_width 32 w →
  (opcode w = 0x2F → decode_AMO w ≠ rv_illegal_instr → ∃ i, instr_wf i ∧ encode i = w) ∧
  (opcode w = 0x13 → decode_OP_IMM w ≠ rv_illegal_instr → ∃ i, instr_wf i ∧ encode i = w).
Proof.
  intros Hw. pose proof (rd_range w) as Hrd. pose proof (rs1_range w) as Hrs1.
  pose proof (rs2_range w) as Hrs2. pose proof (ubits_range w 25 7 ltac:(lia)) as H7.
  pose proof (i_imm_simm w) as Hi. split_and!; intros Ho Hd.
  - apply amo_ops in Hd as (E3 & Hs).
    destruct (aqrl_join w) as [Ej Hm].
    destruct Hs as [[E7 E2]|[op Eo]].
    + exists (Lr (rd w) (rs1 w) (funct7 w mod 4)). rewrite E7 in Ej. split; [done|]. by same_fields.
    + exists (Amo op (rd w) (rs1 w) (rs2 w) (funct7 w mod 4)). rewrite <- Eo in Ej.
      split; [done|]. by same_fields.
  - apply imm_ops in Hd as [[op Ef]|[op Ef]].
    + exists (AluImm op (rd w) (rs1 w) (i_imm w)). split; [done|]. same_fields. apply i_imm_mod.
    + exists (ShiftImm op (rd w) (rs1 w) (i_imm w mod 32)).
      split; [split_and!; try done; apply (Z.mod_pos_bound _ 32); lia|]. same_fields; rewrite Ef; [done|].
      cbn [fst]. rewrite <- i_imm_mod. f_equal. by apply (shamt_join w 5).
Qed.

Lemma decode_accepts w : in_width 32 w → rv32_instr_decode false w ≠ rv_illegal_instr →
  ∃ i, instr_wf i ∧ encode i = w.
Proof.
  intros Hw Hd. destruct (decoded_loads_stores w Hw) as (H1 & H2).
  destruct (decoded_branch w Hw) as (H3 & H4). destruct (decoded_op w Hw) as (H5 & H6). destruct (decoded_others w Hw) as (H7 & H8 & H9 & H10).
  unfold rv32_instr_decode in Hd. revert Hd H1 H2 H3 H4 H5 H6 H7 H8 H9 H10.
  generalize (opcode w). intros o Hd H1 H2 H3 H4 H5 H6 H7 H8 H9 H10. cases o; auto.
Qed.

(** C8: the decoder inverts the encodings of the RV32IMA instructions: an
    instruction's encoding decodes to its function, and without the simulator's
    own instructions every 32-bit word that decodes to anything but the illegal
    instruction is the encoding of a well-formed instruction with that function. *)
Theorem decode_inverts_encode w :
  (∀ sp i, instr_wf i → rv32_instr_decode sp (encode i) = func_of i) ∧
  (in_width 32 w → rv32_instr_decode false w ≠ rv_illegal_instr →
   ∃ i, instr_wf i ∧ encode i = w ∧ func_of i = rv32_instr_decode false w).
Proof.
  split; [apply decode_encode_run|]. intros Hw Hd.
  destruct (decode_accepts w Hw Hd) as (i & Hi & <-). exists i.
  split_and!; [done..|]. by rewrite decode_encode_run.
Qed.

Lemma decode_inverts_encode_witness :
  encode (Alu ADD 3 1 2) = 0x002081B3 ∧ encode (Branch BNE 1 0 (-4)) = 0xFE009EE3 ∧
  rv32_instr_decode false (encode (Jal 1 2048)) = rv_jal_instr ∧
  ∃ i, instr_wf i ∧ encode i = 0xFE009EE3 ∧ func_of i = rv32_instr_decode false 0xFE009EE3.
Proof.
  split_and!; [reflexivity..| |].
  - apply (proj1 (decode_inverts_encode 0) false (Jal 1 2048)). by vm_compute.
  - apply (proj2 (decode_inverts_encode 0xFE009EE3)); [by vm_compute|vm_compute; congruence].
Defined.
