(* ===== verification/Rv64Isa.v ===== *)
(** * The RV64IMA decoder inverts the encodings

    An encoding decodes to the function of its instruction.  Every word the
    decoder accepts is an encoding, except right shifts by an immediate whose upper
    bits are reserved: they are taken as SRAI. *)

From S2P Require Import Prelude RvTypes RvCpu RvComp RvCtl RvCompProps Machine RvWorld RvTlb Rv64Tlb.
From S2P Require Import RvIsa Rv32Isa Rv64Decode.
Import Instr.
#[local] Existing Instance xlen64.

Lemma rv64_decode_encode sp i : instr_wf i → rv64_instr_decode sp (encode i) = func_of i.
Proof.
  intros Hi. unfold rv64_instr_decode. rewrite encode_opcode by done.
  destruct i; cbn -[encode decode_PRIV Z.shiftr]; try done;
    unfold decode_OP, Rv32Decode.decode_OP, decode_OP_32, decode_OP_IMM, decode_OP_IMM_32, decode_JALR,
      Rv32Decode.decode_JALR, decode_BRANCH, Rv32Decode.decode_BRANCH, decode_LOAD, decode_STORE,
      decode_AMO, decode_AMO_32, decode_AMO_64, decode_SYSTEM, decode_MISC_MEM,
      Rv32Decode.decode_MISC_MEM, RV_R_FUNCT, RV_AMO_FUNCT, funct3, funct7, rs2; fields;
    try done; try (by destruct op).
  - rewrite i_imm_shift by done. destruct Hi as (_ & _ & Hs).
    assert (Z.shiftr (join (fst (shift_codes op)) 5 shamt) 6 = fst (shift_codes op) / 2) as ->.
    { unfold join. rewrite Z.shiftr_div_pow2 by lia. cbn in Hs.
      destruct op; cbn [shift_codes fst]; Z.to_euclidean_division_equations; lia. }
    by destruct op.
  - rewrite join_high by (apply Hi || lia). done.
  - rewrite join_high by (apply Hi || lia). by destruct op.
  - rewrite i_imm_shiftw, join_high by (apply Hi || done || lia). by destruct op.
  - rewrite join_high by (apply Hi || lia). done.
  - rewrite join_high by (apply Hi || lia). by destruct op.
  - unfold decode_PRIV, Rv32Decode.decode_PRIV, funct7, i_imm, sbits. fields. by destruct op.
  - unfold decode_PRIV, Rv32Decode.decode_PRIV, funct7. by fields.
Qed.

(** ** Accepted words *)
Lemma rv64_load_ops w : decode_LOAD w ≠ rv_illegal_instr → ∃ op, load_code op = funct3 w.
Proof. unfold decode_LOAD. intros Hd. cases (funct3 w); find_op. Qed.

Lemma rv64_store_ops w : decode_STORE w ≠ rv_illegal_instr → ∃ op, store_code op = funct3 w.
Proof. unfold decode_STORE. intros Hd. cases (funct3 w); find_op. Qed.

Lemma aluw_ops w : decode_OP_32 w ≠ rv_illegal_instr → ∃ op, aluw_codes op = (funct7 w, funct3 w).
Proof.
  unfold decode_OP_32. rewrite r_funct_join. intros Hd.
  assert (∃ op, join (fst (aluw_codes op)) 3 (snd (aluw_codes op)) = join (funct7 w) 3 (funct3 w))
    as [op E] by (cases (join (funct7 w) 3 (funct3 w)); find_op).
  exists op. apply join_inj in E as [E1 E2]; [|lia|by destruct op|apply ubits_range; lia].
  rewrite <- E1, <- E2. by destruct op.
Qed.

Lemma rv64_amo_ops w : decode_AMO w ≠ rv_illegal_instr → (funct3 w = 2 ∨ funct3 w = 3) ∧
  (Z.shiftr (funct7 w) 2 = 2 ∧ rs2 w = 0 ∨ ∃ op, amo_code op = Z.shiftr (funct7 w) 2).
Proof.
  unfold decode_AMO, decode_AMO_32, decode_AMO_64, RV_AMO_FUNCT. intros Hd.
  assert (funct3 w = 2 ∨ funct3 w = 3) as Hf by (cases (funct3 w); auto). split; [done|].
  destruct Hf as [E|E]; rewrite E in Hd; destruct (Z.eqb_spec (rs2 w) 0);
    cases (Z.shiftr (funct7 w) 2); first [by left|right; find_op].
Qed.

(** Right shifts whose upper immediate bits are neither those of SRLI nor of SRAI. *)
Definition reserved_shift (w : Z) : bool :=
  (opcode w =? 0x13) && (funct3 w =? 5) &&
  negb ((Z.shiftr (i_imm w) 6 =? 0) || (Z.shiftr (i_imm w) 6 =? 0x10)).

Lemma rv64_imm_ops w : opcode w = 0x13 → reserved_shift w = false → decode_OP_IMM w ≠ rv_illegal_instr →
  (∃ op, imm_code op = funct3 w) ∨
  ∃ op, (fst (shift_codes op) / 2, snd (shift_codes op)) = (Z.shiftr (i_imm w) 6, funct3 w).
Proof.
  unfold reserved_shift, decode_OP_IMM. intros -> Hr Hd. cbn [Z.eqb andb] in Hr.
  destruct (Z.eqb_spec (Z.shiftr (i_imm w) 6) 0) as [E|].
  - rewrite E in *. cases (funct3 w); first [left; find_op|right; find_op].
  - destruct (Z.eqb_spec (Z.shiftr (i_imm w) 6) 0x10) as [E'|].
    + rewrite E' in *. cases (funct3 w); first [left; find_op|right; find_op].
    + rewrite andb_true_r in Hr. apply Z.eqb_neq in Hr. cases (funct3 w); left; find_op.
Qed.

Lemma immw_ops w : decode_OP_IMM_32 w ≠ rv_illegal_instr →
  funct3 w = 0 ∨ ∃ op, shift_codes op = (Z.shiftr (i_imm w) 5, funct3 w).
Proof.
  unfold decode_OP_IMM_32. intros Hd. destruct (Z.eqb_spec (Z.shiftr (i_imm w) 5) 0) as [E|].
  - rewrite E in *. cases (funct3 w); first [by left|right; find_op].
  - destruct (decide (Z.shiftr (i_imm w) 5 = 0x20)) as [E'|].
    + rewrite E' in *. cases (funct3 w); first [by left|right; find_op].
    + assert (funct3 w ≠ 5) as H5.
      { intros E5. rewrite E5 in Hd. cases (Z.shiftr (i_imm w) 5). }
      cases (funct3 w); by left.
Qed.

Lemma rv64_decoded_memory w : in_width 32 w →
  (opcode w = 0x03 → decode_LOAD w ≠ rv_illegal_instr → ∃ i, instr_wf i ∧ encode i = w) ∧
  (opcode w = 0x23 → decode_STORE w ≠ rv_illegal_instr → ∃ i, instr_wf i ∧ encode i = w) ∧
  (opcode w = 0x2F → decode_AMO w ≠ rv_illegal_instr → ∃ i, instr_wf i ∧ encode i = w).
Proof.
  intros Hw. pose proof (rd_range w) as Hrd. pose proof (rs1_range w) as Hrs1.
  pose proof (rs2_range w) as Hrs2. split_and!; intros Ho Hd.
  - apply rv64_load_ops in Hd as (op & Ef). exists (Load op (rd w) (rs1 w) (i_imm w)).
    split; [split_and!; try done; apply i_imm_simm|]. same_fields. apply i_imm_mod.
  - apply rv64_store_ops in Hd as (op & Ef). exists (Store op (rs1 w) (rs2 w) (s_off w)).
    destruct (s_off_slices w) as (Hs & E1 & E2). split; [done|]. same_fields.
  - apply rv64_amo_ops in Hd as (E3 & Hs). destruct (aqrl_join w) as [Ej Hm].
    destruct E3 as [E3|E3], Hs as [[E7 E2]|[op Eo]].
    + exists (Lr (rd w) (rs1 w) (funct7 w mod 4)). rewrite E7 in Ej. split; [done|]. by same_fields.
    + exists (Amo op (rd w) (rs1 w) (rs2 w) (funct7 w mod 4)). rewrite <- Eo in Ej.
      split; [done|]. by same_fields.
    + exists (LrD (rd w) (rs1 w) (funct7 w mod 4)). rewrite E7 in Ej. split; [done|]. by same_fields.
    + exists (AmoD op (rd w) (rs1 w) (rs2 w) (funct7 w mod 4)). rewrite <- Eo in Ej.
      split; [done|]. by same_fields.
Qed.

Lemma rv64_decoded_imm w : in_width 32 w → reserved_shift w = false →
  (opcode w = 0x13 → decode_OP_IMM w ≠ rv_illegal_instr → ∃ i, instr_wf i ∧ encode i = w) ∧
  (opcode w = 0x1B → decode_OP_IMM_32 w ≠ rv_illegal_instr → ∃ i, instr_wf i ∧ encode i = w) ∧
  (opcode w = 0x3B → decode_OP_32 w ≠ rv_illegal_instr → ∃ i, instr_wf i ∧ encode i = w).
Proof.
  intros Hw Hres. pose proof (rd_range w) as Hrd. pose proof (rs1_range w) as Hrs1.
  pose proof (rs2_range w) as Hrs2. pose proof (i_imm_simm w) as Hi. split_and!; intros Ho Hd.
  - apply (rv64_imm_ops w Ho Hres) in Hd as [[op Ef]|[op Ef]].
    + exists (AluImm op (rd w) (rs1 w) (i_imm w)). split; [done|]. same_fields. apply i_imm_mod.
    + exists (ShiftImm op (rd w) (rs1 w) (i_imm w mod 64)). injection Ef as E1 E2.
      split; [split_and!; try done; apply (Z.mod_pos_bound _ 64); lia|]. same_fields.
      rewrite <- i_imm_mod. f_equal. etrans; [|by apply (shamt_join w 6)].
      rewrite <- E1. change (2 ^ 6) with 64. unfold join. by destruct op.
  - apply immw_ops in Hd as [Ef|[op Ef]].
    + exists (AddIW (rd w) (rs1 w) (i_imm w)). split; [done|]. same_fields. apply i_imm_mod.
    + exists (ShiftW op (rd w) (rs1 w) (i_imm w mod 32)).
      split; [split_and!; try done; apply (Z.mod_pos_bound _ 32); lia|]. same_fields; rewrite Ef; [done|].
      cbn [fst]. rewrite <- i_imm_mod. f_equal. by apply (shamt_join w 5).
  - apply aluw_ops in Hd as [op Ef]. exists (AluW op (rd w) (rs1 w) (rs2 w)).
    split; [done|]. same_fields; by rewrite Ef.
Qed.

Lemma rv64_decode_accepts w : in_width 32 w → reserved_shift w = false →
  rv64_instr_decode false w ≠ rv_illegal_instr → ∃ i, instr_wf i ∧ encode i = w.
Proof.
  intros Hw Hr Hd. destruct (rv64_decoded_memory w Hw) as (H1 & H2 & H3).
  destruct (decoded_branch w Hw) as (H4 & H5). destruct (rv64_decoded_imm w Hw Hr) as (H6 & H6' & H6'').
  destruct (decoded_others w Hw) as (H7 & H8 & H9 & H10).
  unfold rv64_instr_decode in Hd. revert Hd H1 H2 H3 H4 H5 H6 H6' H6'' H7 H8 H9 H10.
  generalize (opcode w). intros o Hd H1 H2 H3 H4 H5 H6 H6' H6'' H7 H8 H9 H10. cases o; auto.
Qed.

(** C25: the RV64 decoder inverts the encodings of the RV64IMA instructions: an
    instruction's encoding decodes to its function, and without the simulator's
    own instructions every accepted word that is not a right shift with reserved
    immediate bits is the encoding of a well-formed instruction with that
    function. *)
Theorem rv64_decode_inverts_encode w :
  (∀ sp i, instr_wf i → rv64_instr_decode sp (encode i) = func_of i) ∧
  (in_width 32 w → reserved_shift w = false → rv64_instr_decode false w ≠ rv_illegal_instr →
   ∃ i, instr_wf i ∧ encode i = w ∧ func_of i = rv64_instr_decode false w).
Proof.
  split; [apply rv64_decode_encode|]. intros Hw Hr Hd.
  destruct (rv64_decode_accepts w Hw Hr Hd) as (i & Hi & <-). exists i.
  split_and!; [done..|]. by rewrite rv64_decode_encode.
Qed.

(** every right shift by an immediate with reserved upper bits is accepted and
    runs as SRAI, where the instruction set reserves the encoding. *)
Theorem reserved_shift_is_srai sp w : reserved_shift w = true → rv64_instr_decode sp w = rv_srai_instr.
Proof.
  unfold reserved_shift, rv64_instr_decode, decode_OP_IMM.
  intros [[->%Z.eqb_eq ->%Z.eqb_eq]%andb_true_iff Hn]%andb_true_iff.
  by destruct (Z.shiftr (i_imm w) 6 =? 0).
Qed.

Lemma rv64_decode_inverts_encode_witness :
  encode (AluW ADDW 3 1 2) = 0x002081BB ∧ encode (ShiftImm SRAI 1 1 40) = 0x4280D093 ∧
  rv64_instr_decode false (encode (Load LD 5 2 8)) = rv_ld_instr ∧
  ∃ i, instr_wf i ∧ encode i = 0x4280D093 ∧ func_of i = rv64_instr_decode false 0x4280D093.
Proof.
  split_and!; [reflexivity..| |].
  - apply (proj1 (rv64_decode_inverts_encode 0) false (Load LD 5 2 8)). by vm_compute.
  - apply (proj2 (rv64_decode_inverts_encode 0x4280D093));
      [by vm_compute|reflexivity|vm_compute; congruence].
Defined.

Lemma reserved_shift_is_srai_witness : rv64_instr_decode false 0x2010D093 = rv_srai_instr.
Proof. apply (reserved_shift_is_srai false 0x2010D093). reflexivity. Defined.
