(* ===== verification/RvExec.v ===== *)
(** * The meaning of the integer instructions

    [meaning] gives the effect of the computational instructions, of jumps and
    of branches with integer arithmetic modulo [2 ^ XLEN]: shifts are products and
    quotients by powers of two, offsets are signed numbers, and the overflowing
    division needs no case of its own.  Running the function that the decoder
    selects for an encoding has exactly that effect, on both processors.

    [FamilyLaws] is what the properties of execution need to know of a processor:
    its decoder selects the function of an encoding, and without translation
    addresses are physical. *)

From S2P Require Import Prelude PhysMem RvTypes RvCpu RvComp RvCtl RvCompProps Machine RvWorld RvTlb RvVm.
From S2P Require Import MachineProps RvStep RvIsa.
Import Instr.

(** ** Integer semantics *)
Section Semantics.
Context `{Xlen}.

Definition MX : Z := 2 ^ XLEN.
Definition signed (x : Z) : Z := if x <? 2 ^ (XLEN - 1) then x else x - MX.

Definition alu (op : alu_op) (a b : Z) : Z :=
  match op with
  | ADD => (a + b) mod MX
  | SUB => (a - b) mod MX
  | SLL => (a * 2 ^ (b mod XLEN)) mod MX
  | SLT => if signed a <? signed b then 1 else 0
  | SLTU => if a <? b then 1 else 0
  | XOR => Z.lxor a b
  | SRL => a / 2 ^ (b mod XLEN)
  | SRA => (signed a / 2 ^ (b mod XLEN)) mod MX
  | OR => Z.lor a b
  | AND => Z.land a b
  | MUL => (a * b) mod MX
  | MULH => (signed a * signed b / MX) mod MX
  | MULHSU => (signed a * b / MX) mod MX
  | MULHU => a * b / MX
  | DIV => if b =? 0 then MX - 1 else Z.quot (signed a) (signed b) mod MX
  | DIVU => if b =? 0 then MX - 1 else a / b
  | REM => if b =? 0 then a else Z.rem (signed a) (signed b) mod MX
  | REMU => if b =? 0 then a else a mod b
  end.

Definition imm_alu (op : imm_op) : alu_op :=
  match op with
  | ADDI => ADD | SLTI => SLT | SLTIU => SLTU | XORI => XOR | ORI => OR | ANDI => AND
  end.
Definition shift_alu (op : shift_op) : alu_op := match op with SLLI => SLL | SRLI => SRL | SRAI => SRA end.

(** Sums, differences and products of words are defined when they do not
    overflow; the architecture wraps them. *)
Definition word_result (x : Z) : option Z :=
  if (- 2 ^ 31 <=? x) && (x <? 2 ^ 31) then Some (x mod MX) else None.
(** The low 32 bits, sign-extended. *)
Definition sext (x : Z) : Z := sgn 32 x mod MX.

Definition aluw (op : aluw_op) (a b : Z) : option Z :=
  let sa := sgn 32 a in let sb := sgn 32 b in
  let ua := a mod 2 ^ 32 in let ub := b mod 2 ^ 32 in
  match op with
  | ADDW => word_result (sa + sb)
  | SUBW => word_result (sa - sb)
  | MULW => word_result (sa * sb)
  | SLLW => Some (sext (ua * 2 ^ (b mod 32)))
  | SRLW => Some (sext (ua / 2 ^ (b mod 32)))
  | SRAW => Some (sa / 2 ^ (b mod 32) mod MX)
  | DIVW => Some (if ub =? 0 then MX - 1 else sext (Z.quot sa sb))
  | DIVUW => Some (if ub =? 0 then MX - 1 else sext (ua / ub))
  | REMW => Some (if ub =? 0 then sext a else Z.rem sa sb mod MX)
  | REMUW => Some (if ub =? 0 then sext a else sext (ua mod ub))
  end.

Definition shiftw (op : shift_op) : aluw_op := match op with SLLI => SLLW | SRLI => SRLW | SRAI => SRAW end.

Definition holds (op : branch_op) (a b : Z) : bool :=
  match op with
  | BEQ => a =? b | BNE => negb (a =? b) | BLT => signed a <? signed b
  | BGE => signed b <=? signed a | BLTU => a <? b | BGEU => b <=? a
  end.

(** What an instruction does given the registers and its address: a register
    write and a jump; or [inl target], a jump to a misaligned target.  Memory and
    system instructions have no effect here. *)
Definition effect (i : instr) (rf : Z → Z) (pc : Z) : option (Z + option (Z * Z) * option Z) :=
  let write rd v := Some (inr (Some (rd, v), None)) in
  let jump (link : option (Z * Z)) (target : Z) :=
    Some (if target mod 4 =? 0 then inr (link, Some target) else inl target) in
  match i with
  | Alu op rd rs1 rs2 => write rd (alu op (rf rs1) (rf rs2))
  | AluImm op rd rs1 imm => write rd (alu (imm_alu op) (rf rs1) (imm mod MX))
  | ShiftImm op rd rs1 sh => write rd (alu (shift_alu op) (rf rs1) sh)
  | AluW op rd rs1 rs2 => v ← aluw op (rf rs1) (rf rs2); write rd v
  | AddIW rd rs1 imm => v ← word_result (sgn 32 (rf rs1) + imm); write rd v
  | ShiftW op rd rs1 sh => v ← aluw (shiftw op) (rf rs1) sh; write rd v
  | Lui rd imm => write rd (sext (imm * 2 ^ 12))
  | Auipc rd imm => write rd ((pc + sext (imm * 2 ^ 12)) mod MX)
  | Jal rd off => jump (Some (rd, (pc + 4) mod MX)) ((pc + off) mod MX)
  | Jalr rd rs1 off =>
      let sum := (rf rs1 + off) mod MX in
      jump (Some (rd, (pc + 4) mod MX)) (sum - sum mod 2)
  | Branch op rs1 rs2 off =>
      if holds op (rf rs1) (rf rs2) then jump None ((pc + off) mod MX) else Some (inr (None, None))
  | _ => None
  end.

(** The effect on a processor. *)
Definition apply_effect {T} (e : option (Z * Z) * option Z) (c : rv_cpu T) : rv_cpu T :=
  let c := match fst e with Some (r, v) => set_reg r v c | None => c end in
  match snd e with Some t => c <| pc_next := t |> | None => c end.

Definition meaning {T} (i : instr) (c : rv_cpu T) : option (Z + rv_cpu T) :=
  (λ e, match e with inr e => inr (apply_effect e c) | inl t => inl t end)
    <$> effect i (λ r, reg r c) (pc c).

(** ** The arithmetic of the functions *)
Lemma sx_signed a : in_width XLEN a → sx a = signed a.
Proof. intros Ha. unfold sx, sgn, signed, MX. by rewrite (wrap_small XLEN a Ha). Qed.

Lemma signed_zero b : in_width XLEN b → signed b = 0 ↔ b = 0.
Proof.
  unfold in_width, signed, MX. intros Hb. destruct pow_xlen as [E Hp].
  destruct (Z.ltb_spec b (2 ^ (XLEN - 1))); lia.
Qed.

Lemma mask_amount x : Z.land x shift_instr_mask = x mod XLEN.
Proof.
  unfold shift_instr_mask. destruct xlen_cases as [-> | ->]; [apply (Z.land_ones x 5)|apply (Z.land_ones x 6)]; lia.
Qed.

Lemma shift_amount b : Z.land shift_instr_mask b = b mod XLEN.
Proof. rewrite Z.land_comm. apply mask_amount. Qed.

Lemma amount_pos b : 0 ≤ b mod XLEN.
Proof. apply Z.mod_pos_bound, xlen_pos. Qed.

Lemma mulhu_small a b : in_width XLEN a → in_width XLEN b → in_width XLEN (a * b / 2 ^ XLEN).
Proof.
  unfold in_width. intros Ha Hb. destruct pow_xlen. split; [apply Z.div_pos; nia|].
  apply Z.div_lt_upper_bound; nia.
Qed.

(** The overflowing quotient and remainder wrap to the architecture's values. *)
Lemma div_cases (q ov : Z) a b : (overflows a b → ov = wrap XLEN q) →
  (if (sx a =? - XLEN_MIN) && (sx b =? -1) then ov else ux q) = wrap XLEN q.
Proof. intros Ho. destruct (overflowsP a b); [by apply Ho|done]. Qed.

Lemma ux_minus_one : ux (-1) = MX - 1.
Proof. unfold ux, wrap, MX. destruct pow_xlen. symmetry. apply (Z.mod_unique _ _ (-1)); lia. Qed.

Lemma umax_pred : XLEN_UMAX = MX - 1.
Proof. unfold XLEN_UMAX, MX. rewrite Z.ones_equiv. lia. Qed.

Lemma xlen_min_wrap : XLEN_MIN = wrap XLEN (Z.quot (- 2 ^ (XLEN - 1)) (-1)).
Proof.
  unfold XLEN_MIN. destruct pow_xlen as [E Hp]. change (-1) with (- (1)).
  rewrite Z.quot_opp_opp, Z.quot_1_r by lia.
  symmetry. apply wrap_small. unfold in_width. lia.
Qed.

Lemma rem_min : Z.rem (- 2 ^ (XLEN - 1)) (-1) = 0.
Proof. change (-1) with (- (1)). by rewrite Z.rem_opp_r, Z.rem_1_r by lia. Qed.
End Semantics.

(** ** What execution needs to know of the processor *)
Class FamilyLaws (T D : Type) `{Xlen} `{Board T D} `{!Translation T D} `{!Family T D} := {
  family_decodes sp i : instr_wf i → instr_decode sp (encode i) = func_of i;
  family_bare virt wr fetch noisy (w : world T D) :
    wr && fetch = false → use_sv (w_cpu w) fetch = false →
    rv_convert_addr virt wr fetch noisy w = Done (inr virt, w)
}.

Section Exec.
Context {T D : Type} `{FamilyLaws T D}.
Abbreviation W := (world T D).
Implicit Types (w : W) (c : rv_cpu T).

(** The outcome of an instruction in the machine. *)
Definition outcome_of (r : Z + rv_cpu T) w : outcome ((rv_exc + unit) * W) :=
  match r with
  | inr c => Done (inr tt, w <| w_cpu := c |>)
  | inl target => Done (inl rv_exc_instruction_address_misaligned,
      w <| w_cpu := with_csr (λ r, r <| tval_next := target |>) (w_cpu w) |>)
  end.

Lemma r_op_exec opc f i w : opcode i = opc →
  on_cpu (r_op opc f i) w =
    Done (inr tt, w <| w_cpu := set_reg (rd i) (f (reg (rs1 i) (w_cpu w)) (reg (rs2 i) (w_cpu w))) (w_cpu w) |>).
Proof. intros E. apply on_cpu_run, r_op_writes, E. Qed.

Lemma r_op_st_exec opc (f : Z → Z → st (rv_cpu T) Z) i v w : opcode i = opc →
  f (reg (rs1 i) (w_cpu w)) (reg (rs2 i) (w_cpu w)) (w_cpu w) = Done (v, w_cpu w) →
  on_cpu (r_op_st opc f i) w = Done (inr tt, w <| w_cpu := set_reg (rd i) v (w_cpu w) |>).
Proof. intros E Ev. apply on_cpu_run. unfold r_op_st. emsimpl. by rewrite E, Z.eqb_refl, Ev. Qed.

Lemma i_op_exec opc f i w : opcode i = opc →
  on_cpu (i_op opc f i) w =
    Done (inr tt, w <| w_cpu := set_reg (rd i) (f (reg (rs1 i) (w_cpu w)) (i_imm i)) (w_cpu w) |>).
Proof. intros E. apply on_cpu_run. unfold i_op, i_op_st. emsimpl. by rewrite E, Z.eqb_refl. Qed.

Lemma alu_exec op rd rs1 rs2 w : let i := Alu op rd rs1 rs2 in
  instr_wf i → regs_wf (w_cpu w) →
  instr_exec (func_of i) (encode i) w =
    Done (inr tt, w <| w_cpu := set_reg rd (alu op (reg rs1 (w_cpu w)) (reg rs2 (w_cpu w))) (w_cpu w) |>).
Proof.
  intros i Hi Hr. pose proof (encode_opcode i Hi) as Ho. cbn in Ho.
  assert (Instr.rd (encode i) = rd ∧ Instr.rs1 (encode i) = rs1 ∧ Instr.rs2 (encode i) = rs2)
    as (Ed & E1 & E2) by (unfold Instr.rd, Instr.rs1, Instr.rs2, i; by fields).
  pose proof (Hr rs1) as Hr1. pose proof (Hr rs2) as Hr2. pose proof (sx_signed _ Hr1) as Es1.
  pose proof (sx_signed _ Hr2) as Es2. pose proof (signed_zero _ Hr2) as Hz.
  pose proof (amount_pos (reg rs2 (w_cpu w))) as Hp. pose proof xlen_pos as Hx.
  destruct op; cbn [func_of i instr_exec]; (etrans; [apply r_op_exec, Ho|]); rewrite Ed, E1, E2;
    do 4 f_equal; cbn [alu];
    rewrite ?shift_amount, ?Es1, ?Es2, ?Z.shiftr_div_pow2, ?Z.shiftl_mul_pow2, ?umax_pred by lia;
    try reflexivity.
  - apply ux_small, mulhu_small; done.
  - destruct (Z.eqb_spec (reg rs2 (w_cpu w)) 0) as [E|E].
    + apply Hz in E as ->. apply ux_minus_one.
    + rewrite (proj2 (Z.eqb_neq _ _)) by tauto. rewrite <- Es1, <- Es2. apply div_cases.
      intros [-> ->]. apply xlen_min_wrap.
  - destruct (Z.eqb_spec (reg rs2 (w_cpu w)) 0) as [E|E].
    + apply Hz in E as ->. rewrite <- Es1. by apply ux_sx.
    + rewrite (proj2 (Z.eqb_neq _ _)) by tauto. rewrite <- Es1, <- Es2. apply div_cases.
      intros [-> ->]. by rewrite rem_min.
Qed.

(** ** Immediate operands *)
Lemma shift_imm_simm x : simm 12 x → shift_imm x = x.
Proof.
  unfold simm, shift_imm. change (2 ^ (12 - 1)) with 2048. intros Hx. rewrite Z.shiftl_mul_pow2 by lia.
  rewrite <- (sgn_wrap 32) by lia. unfold wrap. rewrite sgn_simm by (unfold simm; lia).
  by rewrite Z.shiftr_div_pow2, Z.div_mul by lia.
Qed.

Lemma signed_imm x : simm 12 x → signed (x mod MX) = x.
Proof.
  intros Hx. rewrite <- sx_signed by apply (ux_range x). apply sx_ux.
  unfold simm in Hx. change (2 ^ (12 - 1)) with 2048 in Hx.
  pose proof (Z.pow_le_mono_r 2 11 (XLEN - 1)) as Hm. pose proof xlen_bounds.
  change (2 ^ 11) with 2048 in Hm. lia.
Qed.

Lemma imm_exec op rd rs1 imm w : let i := AluImm op rd rs1 imm in
  instr_wf i → regs_wf (w_cpu w) →
  instr_exec (func_of i) (encode i) w =
    Done (inr tt, w <| w_cpu := set_reg rd (alu (imm_alu op) (reg rs1 (w_cpu w)) (imm mod MX)) (w_cpu w) |>).
Proof.
  intros i Hi Hr. assert (opcode (encode i) = 0x13) as Ho by by rewrite encode_opcode.
  assert (Instr.rd (encode i) = rd ∧ Instr.rs1 (encode i) = rs1) as (Ed & E1)
    by (unfold Instr.rd, Instr.rs1, i; by fields).
  assert (simm 12 imm) as Hs by apply Hi.
  pose proof (i_imm_of imm i Hi Hs eq_refl) as Ei. pose proof (sx_signed _ (Hr rs1)) as Es1. subst i.
  destruct op; cbn [func_of instr_exec]; (etrans; [apply i_op_exec, Ho|]);
    rewrite Ed, E1, Ei, shift_imm_simm by done; do 4 f_equal; cbn [alu imm_alu];
    rewrite ?Es1, ?signed_imm by done; reflexivity.
Qed.

Lemma land_join hi n lo : 0 ≤ n → in_width n lo → Z.land (join hi n lo) (Z.ones n) = lo.
Proof.
  intros Hn Hl. unfold join. rewrite Z.land_ones, Z.add_comm, Z.mod_add by (pose proof (pow2_pos n); lia).
  by apply Z.mod_small.
Qed.

(** The amount of a shift by an immediate, as the functions extract it. *)
Lemma shift_bits op sh : 0 ≤ sh < XLEN →
  Z.land (join (fst (shift_codes op)) 5 sh) 0x3F = sh ∧
  Z.land (join (fst (shift_codes op)) 5 sh) shift_instr_mask = sh.
Proof.
  intros Hs. rewrite mask_amount. change 0x3F with (Z.ones 6). rewrite Z.land_ones by lia.
  destruct xlen_cases as [E|E]; rewrite E in *; unfold join; destruct op; cbn [shift_codes fst];
    split; Z.to_euclidean_division_equations; lia.
Qed.

Lemma shift_exec op rd rs1 sh w : let i := ShiftImm op rd rs1 sh in
  instr_wf i → regs_wf (w_cpu w) →
  instr_exec (func_of i) (encode i) w =
    Done (inr tt, w <| w_cpu := set_reg rd (alu (shift_alu op) (reg rs1 (w_cpu w)) sh) (w_cpu w) |>).
Proof.
  intros i Hi Hr. assert (opcode (encode i) = 0x13) as Ho by by rewrite encode_opcode.
  assert (Instr.rd (encode i) = rd ∧ Instr.rs1 (encode i) = rs1) as (Ed & E1)
    by (unfold Instr.rd, Instr.rs1, i; by fields).
  pose proof (i_imm_shift op rd rs1 sh Hi) as Ei. pose proof (sx_signed _ (Hr rs1)) as Es1.
  assert (0 ≤ sh < XLEN) as Hs by apply Hi. destruct (shift_bits op sh Hs) as [E6 Em].
  assert (sh mod XLEN = sh) as Es by by apply Z.mod_small. subst i.
  destruct op; cbn [func_of instr_exec] in *; cbn [alu shift_alu]; rewrite Es.
  - apply on_cpu_run. unfold RvComp.rv_slli_instr, i_op_st. emsimpl. rewrite Ho, Ed, E1, Ei, E6. cbn.
    rewrite (proj2 (Z.ltb_lt sh XLEN)) by lia. by rewrite Z.shiftl_mul_pow2 by lia.
  - apply on_cpu_run. unfold RvComp.rv_srli_instr, i_op_st. emsimpl. rewrite Ho, Ed, E1, Ei, E6. cbn.
    rewrite (proj2 (Z.ltb_lt sh XLEN)) by lia. by rewrite Z.shiftr_div_pow2 by lia.
  - etrans; [apply i_op_exec, Ho|]. rewrite Ed, E1, Ei, Es1, Em. do 4 f_equal.
    by rewrite Z.shiftr_div_pow2 by lia.
Qed.

(** ** Word operations of the 64-bit processor *)
Lemma amount5 b : Z.land 0x1F b = b mod 32 ∧ Z.land b 0x1F = b mod 32 ∧ 0 ≤ b mod 32.
Proof.
  rewrite Z.land_comm. change 0x1F with (Z.ones 5). rewrite Z.land_ones by lia.
  split_and!; [done..|]. apply Z.mod_pos_bound. lia.
Qed.

Lemma int32_result_run x v c : word_result x = Some v → int32_result x c = Done (v, c).
Proof. unfold word_result, int32_result. msimpl. destruct (_ && _); [|done]. by intros [= <-]. Qed.

Lemma sgn32_zero b : (sgn 32 b =? 0) = (b mod 2 ^ 32 =? 0).
Proof.
  apply eq_true_iff_eq. rewrite !Z.eqb_eq. unfold sgn, wrap. pose proof (Z.mod_pos_bound b (2 ^ 32)).
  destruct (Z.ltb_spec (b mod 2 ^ 32) (2 ^ (32 - 1))); cbn in *; lia.
Qed.

Lemma sgn32_fits x : - 2 ^ 31 ≤ x < 2 ^ 31 → sgn 32 x = x.
Proof. intros Hx. rewrite <- (sgn_wrap 32) by lia. apply sgn_simm; [lia|]. unfold simm. lia. Qed.

Lemma divw_value a b :
  (if sgn 32 b =? 0 then ux (-1)
   else if (sgn 32 a =? INT32_MIN) && (sgn 32 b =? -1) then ux INT32_MIN
   else ux (Z.quot (sgn 32 a) (sgn 32 b)))
  = if b mod 2 ^ 32 =? 0 then MX - 1 else sext (Z.quot (sgn 32 a) (sgn 32 b)).
Proof.
  rewrite sgn32_zero. pose proof (sgn32_zero b) as Hz.
  destruct (Z.eqb_spec (b mod 2 ^ 32) 0); [apply ux_minus_one|].
  pose proof (sgn_range 32 a ltac:(lia)) as Ha. pose proof (sgn_range 32 b ltac:(lia)) as Hb.
  apply Z.eqb_neq in Hz. unfold sext, INT32_MIN.
  destruct (Z.eqb_spec (sgn 32 a) (- 2 ^ 31)) as [Ea|Na], (Z.eqb_spec (sgn 32 b) (-1)) as [Eb|Nb]; cbn [andb].
  - rewrite Ea, Eb. by change (sgn 32 (Z.quot (- 2 ^ 31) (-1))) with (- 2 ^ 31).
  - rewrite (sgn32_fits (Z.quot _ _)); [done|]. apply (quot_fits (H:=xlen32)); cbn in *; lia.
  - rewrite (sgn32_fits (Z.quot _ _)); [done|]. apply (quot_fits (H:=xlen32)); cbn in *; lia.
  - rewrite (sgn32_fits (Z.quot _ _)); [done|]. apply (quot_fits (H:=xlen32)); cbn in *; lia.
Qed.

Lemma remw_value a b :
  (if sgn 32 b =? 0 then ux (sgn 32 a)
   else if (sgn 32 a =? INT32_MIN) && (sgn 32 b =? -1) then 0
   else ux (Z.rem (sgn 32 a) (sgn 32 b)))
  = if b mod 2 ^ 32 =? 0 then sext a else Z.rem (sgn 32 a) (sgn 32 b) mod MX.
Proof.
  rewrite sgn32_zero. destruct (_ =? 0); [done|]. unfold INT32_MIN.
  destruct (Z.eqb_spec (sgn 32 a) (- 2 ^ 31)) as [->|], (Z.eqb_spec (sgn 32 b) (-1)) as [->|]; done.
Qed.

Lemma aluw_exec op rd rs1 rs2 v w : let i := AluW op rd rs1 rs2 in
  instr_wf i → aluw op (reg rs1 (w_cpu w)) (reg rs2 (w_cpu w)) = Some v →
  instr_exec (func_of i) (encode i) w = Done (inr tt, w <| w_cpu := set_reg rd v (w_cpu w) |>).
Proof.
  intros i Hi Hv. assert (opcode (encode i) = rv_opcOP_32) as Ho by by rewrite encode_opcode.
  assert (Instr.rd (encode i) = rd ∧ Instr.rs1 (encode i) = rs1 ∧ Instr.rs2 (encode i) = rs2)
    as (Ed & E1 & E2) by (unfold Instr.rd, Instr.rs1, Instr.rs2, i; by fields).
  destruct (amount5 (reg rs2 (w_cpu w))) as (Em & _ & Hp).
  rewrite <- Ed. subst i.
  destruct op; cbn [func_of instr_exec aluw] in *; try injection Hv as <-;
    try (apply r_op_st_exec; [exact Ho|rewrite E1, E2; by apply int32_result_run]);
    (etrans; [apply r_op_exec, Ho|]); rewrite E1, E2, ?Em; do 4 f_equal.
  - unfold sext32. rewrite sgn_wrap, Z.shiftl_mul_pow2 by lia. done.
  - unfold sext32. rewrite Z.shiftr_div_pow2 by lia. done.
  - rewrite Z.shiftr_div_pow2 by lia. done.
  - apply divw_value.
  - unfold wrap. destruct (_ =? 0); [|done]. exact ux_minus_one.
  - apply remw_value.
  - unfold sext32. rewrite (sgn_wrap 32) by lia. unfold wrap. by destruct (_ =? 0).
Qed.

Lemma addiw_exec rd rs1 imm v w : let i := AddIW rd rs1 imm in
  instr_wf i → word_result (sgn 32 (reg rs1 (w_cpu w)) + imm) = Some v →
  instr_exec (func_of i) (encode i) w = Done (inr tt, w <| w_cpu := set_reg rd v (w_cpu w) |>).
Proof.
  intros i Hi Hv. assert (opcode (encode i) = rv_opcOP_IMM_32) as Ho by by rewrite encode_opcode.
  assert (Instr.rd (encode i) = rd ∧ Instr.rs1 (encode i) = rs1) as (Ed & E1)
    by (unfold Instr.rd, Instr.rs1, i; by fields).
  assert (simm 12 imm) as Hs by apply Hi. pose proof (i_imm_of imm i Hi Hs eq_refl) as Ei.
  cbn [func_of i instr_exec]. apply on_cpu_run. unfold RvComp.rv_addiw_instr, i_op_st. emsimpl.
  rewrite Ho, Ed, E1, Ei, shift_imm_simm by done. cbn. by rewrite (int32_result_run _ _ _ Hv).
Qed.

Lemma shiftw_exec op rd rs1 sh v w : let i := ShiftW op rd rs1 sh in
  instr_wf i → aluw (shiftw op) (reg rs1 (w_cpu w)) sh = Some v →
  instr_exec (func_of i) (encode i) w = Done (inr tt, w <| w_cpu := set_reg rd v (w_cpu w) |>).
Proof.
  intros i Hi Hv. assert (opcode (encode i) = rv_opcOP_IMM_32) as Ho by by rewrite encode_opcode.
  assert (Instr.rd (encode i) = rd ∧ Instr.rs1 (encode i) = rs1) as (Ed & E1)
    by (unfold Instr.rd, Instr.rs1, i; by fields).
  pose proof (i_imm_shiftw op rd rs1 sh Hi) as Ei. assert (0 ≤ sh < 32) as Hs by apply Hi.
  assert (Z.land (join (fst (shift_codes op)) 5 sh) 0x1F = sh) as Em
    by (apply (land_join _ 5 sh); [lia|done]).
  assert (sh mod 32 = sh) as Es by by apply Z.mod_small. subst i.
  destruct op; cbn [func_of instr_exec shiftw aluw] in *; injection Hv as <-;
    (etrans; [apply i_op_exec, Ho|]); rewrite Ed, E1, Ei, Em, Es; do 4 f_equal; unfold sext32;
    rewrite ?sgn_wrap, ?Z.shiftl_mul_pow2, ?Z.shiftr_div_pow2 by lia; done.
Qed.

(** ** Upper immediates *)
Lemma upper_exec rd imm w : is_reg rd → in_width 20 imm →
  instr_exec (func_of (Lui rd imm)) (encode (Lui rd imm)) w =
    Done (inr tt, w <| w_cpu := set_reg rd (sext (imm * 2 ^ 12)) (w_cpu w) |>) ∧
  instr_exec (func_of (Auipc rd imm)) (encode (Auipc rd imm)) w =
    Done (inr tt, w <| w_cpu := set_reg rd ((pc (w_cpu w) + sext (imm * 2 ^ 12)) mod MX) (w_cpu w) |>).
Proof.
  intros Hr Hm. assert (instr_wf (Lui rd imm) ∧ instr_wf (Auipc rd imm)) as [Hl Ha] by done.
  split; apply on_cpu_run; unfold RvComp.rv_lui_instr, RvComp.rv_auipc_instr; emsimpl;
    rewrite encode_opcode by done; unfold Instr.rd, u_imm; fields; by rewrite Z.shiftl_mul_pow2 by lia.
Qed.

(** ** Jumps and branches *)
Lemma aligned4 t : IS_ALIGNED t 4 = (t mod 4 =? 0).
Proof. unfold IS_ALIGNED. change (4 - 1) with (Z.ones 2). by rewrite Z.land_ones. Qed.

Lemma clear_low_bit t : in_width XLEN t → Z.land t (ux (-2)) = t - t mod 2.
Proof.
  unfold in_width. intros Ht. pose proof xlen_bounds.
  assert (ux (-2) = Z.shiftl (Z.ones (XLEN - 1)) 1) as -> by (unfold ux; destruct xlen_cases as [-> | ->]; done).
  rewrite land_field, Z.shiftl_mul_pow2 by lia. change (2 ^ 1) with 2. rewrite Z.mod_small.
  - pose proof (Z.div_mod t 2). lia.
  - destruct pow_xlen. split; [apply Z.div_pos; lia|apply Z.div_lt_upper_bound; lia].
Qed.

Lemma j_off_encoded rd off : instr_wf (Jal rd off) → j_off (encode (Jal rd off)) = off.
Proof.
  intros Hi. destruct Hi as (Hr & Hs & Hm) eqn:E. clear E.
  unfold j_off, j_imm20, j_imm19_12, j_imm11, j_imm10_1. rewrite sbits1. fields.
  unfold simm in Hs. change (2 ^ (21 - 1)) with 1048576 in Hs. cbn -[Z.modulo Z.div Z.mul Z.add].
  Z.to_euclidean_division_equations; lia.
Qed.

Lemma b_off_encoded op rs1 rs2 off :
  instr_wf (Branch op rs1 rs2 off) → b_off (encode (Branch op rs1 rs2 off)) = off.
Proof.
  intros Hi. destruct Hi as (Hr & Hr2 & Hs & Hm) eqn:E. clear E.
  unfold b_off, b_imm12, b_imm11, b_imm10_5, b_imm4_1. rewrite sbits1. fields.
  unfold simm in Hs. change (2 ^ (13 - 1)) with 4096 in Hs. cbn -[Z.modulo Z.div Z.mul Z.add].
  Z.to_euclidean_division_equations; lia.
Qed.

Lemma ux_add_r x y : ux (x + ux y) = (x + y) mod MX.
Proof. apply wrap_add_r. pose proof xlen_pos. lia. Qed.

Lemma jump_exec i target w :
  on_cpu (jump_and_link (encode i) target) w = outcome_of
    (if target mod 4 =? 0
     then inr ((set_reg (rd (encode i)) ((pc (w_cpu w) + 4) mod MX) (w_cpu w)) <| pc_next := target |>)
     else inl target) w.
Proof.
  unfold outcome_of, jump_and_link. rewrite aligned4. destruct (target mod 4 =? 0); cbn [negb].
  all: by apply on_cpu_run.
Qed.

Lemma jal_exec rd off w r : instr_wf (Jal rd off) → meaning (Jal rd off) (w_cpu w) = Some r →
  instr_exec rv_jal_instr (encode (Jal rd off)) w = outcome_of r w.
Proof.
  intros Hi [= <-]. cbn [instr_exec].
  transitivity (on_cpu (jump_and_link (encode (Jal rd off))
    (ux (pc (w_cpu w) + RV_J_IMM (encode (Jal rd off))))) w).
  { unfold on_cpu, zoom, RvCtl.rv_jal_instr. emsimpl. by rewrite encode_opcode. }
  rewrite jump_exec, j_imm_off, ux_add_r, j_off_encoded by done. unfold Instr.rd. fields.
  by destruct (_ =? 0).
Qed.

Lemma jalr_exec rd rs1 off w r : instr_wf (Jalr rd rs1 off) → meaning (Jalr rd rs1 off) (w_cpu w) = Some r →
  instr_exec rv_jalr_instr (encode (Jalr rd rs1 off)) w = outcome_of r w.
Proof.
  intros Hi [= <-]. cbn [instr_exec].
  assert (simm 12 off) as Hs by apply Hi. pose proof (i_imm_of off _ Hi Hs eq_refl) as Ei.
  assert (Instr.rs1 (encode (Jalr rd rs1 off)) = rs1 ∧ Instr.rd (encode (Jalr rd rs1 off)) = rd) as [E1 Ed]
    by (unfold Instr.rd, Instr.rs1; by fields).
  transitivity (on_cpu (jump_and_link (encode (Jalr rd rs1 off))
    (Z.land (ux (reg rs1 (w_cpu w) + off)) (ux (-2)))) w).
  { unfold on_cpu, zoom, RvCtl.rv_jalr_instr. emsimpl. rewrite encode_opcode by done.
    unfold funct3. fields. by rewrite Ei, E1. }
  rewrite jump_exec, clear_low_bit, Ed by apply ux_range.
  by destruct (_ =? 0).
Qed.

Lemma branch_ext f g i w :
  f (reg (Instr.rs1 i) (w_cpu w)) (reg (Instr.rs2 i) (w_cpu w)) =
    g (reg (Instr.rs1 i) (w_cpu w)) (reg (Instr.rs2 i) (w_cpu w)) →
  on_cpu (branch f i) w = on_cpu (branch g i) w.
Proof.
  intros E. unfold on_cpu, zoom, branch. emsimpl. destruct (_ =? rv_opcBRANCH); [|done]. by rewrite E.
Qed.

Lemma branch_exec op rs1 rs2 off w r : let i := Branch op rs1 rs2 off in
  instr_wf i → regs_wf (w_cpu w) → meaning i (w_cpu w) = Some r →
  instr_exec (func_of i) (encode i) w = outcome_of r w.
Proof.
  intros i Hi Hr Hm. subst i. set (i := Branch op rs1 rs2 off) in *.
  assert (Instr.rs1 (encode i) = rs1 ∧ Instr.rs2 (encode i) = rs2) as [E1 E2]
    by (unfold Instr.rs1, Instr.rs2, i; by fields).
  assert (instr_exec (func_of i) (encode i) w = on_cpu (branch (holds op) (encode i)) w) as ->.
  { pose proof (sx_signed _ (Hr rs1)) as Es1. pose proof (sx_signed _ (Hr rs2)) as Es2.
    subst i. destruct op; apply branch_ext; rewrite E1, E2, ?Es1, ?Es2; done. }
  unfold outcome_of, on_cpu, zoom, branch. emsimpl. rewrite (encode_opcode i) by done.
  change (_ =? rv_opcBRANCH) with true. cbv beta iota. rewrite E1, E2, b_imm_off, ux_add_r.
  revert Hm. unfold i, meaning. rewrite b_off_encoded by done. cbn [effect].
  destruct (holds op _ _); [|intros [= <-]; by destruct w].
  rewrite aligned4. by destruct (_ =? 0); intros [= <-].
Qed.

Lemma instr_meaning_run sp i w r :
  instr_wf i → regs_wf (w_cpu w) → meaning i (w_cpu w) = Some r →
  instr_exec (instr_decode sp (encode i)) (encode i) w = outcome_of r w.
Proof.
  intros Hi Hr Hm. rewrite family_decodes by done. destruct i; try discriminate Hm.
  - injection Hm as <-. exact (alu_exec _ _ _ _ w Hi Hr).
  - injection Hm as <-. exact (imm_exec _ _ _ _ w Hi Hr).
  - injection Hm as <-. exact (shift_exec _ _ _ _ w Hi Hr).
  - injection Hm as <-. apply upper_exec; apply Hi.
  - injection Hm as <-. apply upper_exec; apply Hi.
  - by apply jal_exec.
  - by apply jalr_exec.
  - exact (branch_exec _ _ _ _ w r Hi Hr Hm).
  - unfold meaning in Hm. cbn [effect] in Hm. destruct (aluw _ _ _) as [v|] eqn:Ev; [|done].
    injection Hm as <-. exact (aluw_exec _ _ _ _ v w Hi Ev).
  - unfold meaning in Hm. cbn [effect] in Hm. destruct (word_result _) as [v|] eqn:Ev; [|done].
    injection Hm as <-. exact (addiw_exec _ _ _ v w Hi Ev).
  - unfold meaning in Hm. cbn [effect] in Hm. destruct (aluw _ _ _) as [v|] eqn:Ev; [|done].
    injection Hm as <-. exact (shiftw_exec _ _ _ _ v w Hi Ev).
Qed.

(** C6: for every well-formed encoding of a computational instruction, jump or
    branch of either processor, running the function the decoder selects has the
    effect of [meaning]: the destination register gets the result of the integer
    operation and the next program counter the branch target; a misaligned
    target raises the exception, records the target and changes nothing else. *)
Theorem decoded_instr_meaning sp i w r :
  instr_wf i → regs_wf (w_cpu w) → meaning i (w_cpu w) = Some r →
  instr_exec (instr_decode sp (encode i)) (encode i) w = outcome_of r w.
Proof. apply instr_meaning_run. Qed.
End Exec.
