(* ===== verification/RvLaws.v ===== *)
(** * Both processors satisfy the laws of execution

    [rv32_laws] and [rv64_laws] discharge [FamilyLaws] with the decoders'
    inverse theorems and the translation functions, so that the properties of
    execution, of runs and of memory accesses hold of both processors. *)

From S2P Require Import Prelude PhysMem RvTypes RvCpu RvComp RvCompProps RvTlb Rv32Tlb Rv64Tlb Machine RvWorld RvVm Rv32Vm Rv64Vm.
From S2P Require Import RvStep Rv32Decode Rv32Cpu Rv64Decode Rv64Cpu RvSample RvIsa Rv32Isa Rv64Isa RvExec.

#[export] Instance rv32_laws {D} `{Board rv32_tlb D} : FamilyLaws rv32_tlb D.
Proof.
  split; [apply decode_encode_run|]. intros virt wr fetch noisy w Hw Huse.
  cbn. unfold Rv32Vm.rv_convert_addr. rewrite Hw. do 2 rewrite (bind_Done _ _ _ _ _ eq_refl). by rewrite Huse.
Qed.

#[export] Instance rv64_laws {D} `{Board rv64_tlb D} : FamilyLaws (H:=xlen64) rv64_tlb D.
Proof.
  split; [apply rv64_decode_encode|]. intros virt wr fetch noisy w Hw Huse.
  cbn. unfold Rv64Vm.rv64_convert. rewrite Hw. do 2 rewrite (bind_Done _ _ _ _ _ eq_refl). by rewrite Huse.
Qed.

(** A taken backward branch and a jump to a misaligned address. *)
Lemma decoded_instr_meaning_witness :
  (let w := Sample.machine two_operands ∅ [] in
   instr_exec (rv32_instr_decode true (encode (Branch BLT 1 2 (-8)))) (encode (Branch BLT 1 2 (-8))) w =
     Done (inr tt, w <| w_cpu := two_operands <| pc_next := 0xEFFFFFF8 |> |>)) ∧
  (let w := Sample.machine two_operands ∅ [] in
   instr_exec (rv32_instr_decode true (encode (Jalr 5 2 4))) (encode (Jalr 5 2 4)) w =
     Done (inl rv_exc_instruction_address_misaligned,
           w <| w_cpu := with_csr (λ r, r <| tval_next := 10 |>) two_operands |>)).
Proof.
  split; cbv zeta.
  - pose proof (decoded_instr_meaning true (Branch BLT 1 2 (-8)) (Sample.machine two_operands ∅ [])
      (inr (two_operands <| pc_next := 0xEFFFFFF8 |>))) as H. unfold outcome_of in H.
    apply H; [by vm_compute|apply two_operands_wf|reflexivity].
  - pose proof (decoded_instr_meaning true (Jalr 5 2 4) (Sample.machine two_operands ∅ []) (inl 10)) as H.
    unfold outcome_of in H. apply H; [by vm_compute|apply two_operands_wf|reflexivity].
Defined.
