(* ===== verification/RvRun.v ===== *)
(** * Running programs: the simulator refines the instruction set

    The abstract machine [isa_step] has registers, a program counter and a
    program: a map from addresses to instructions.  A simulated processor whose
    memory holds the encodings of the program, with address translation off for
    fetches and no interrupt enabled, follows it step by step: each
    [cpu_step] fetches through the instruction cache, decodes, executes,
    accounts and advances exactly as the abstract machine does. *)

From S2P Require Import Prelude PhysMem RvTypes RvCpu RvCsr RvComp RvCompProps RvTlb Rv32Tlb Rv64Tlb Machine RvWorld.
From S2P Require Import MachineProps RvWorld RvMem RvVm RvVmProps RvTrap RvStep Rv32Decode Rv32Cpu Rv64Decode Rv64Cpu.
From S2P Require Import Rv32Vm Rv64Vm RvSample ICache ICacheProps RvIcacheProps RvIsa RvExec RvLaws RvCsrProps RvTrapProps RvMemOps.
Import PhysMem.

(** ** The abstract machine *)
Record isa_state := mk_isa { isa_pc : Z; isa_regs : Z → Z }.

Section Isa.
Context `{Xlen}.

(** Register 0 stays zero. *)
Definition isa_write (wr : option (Z * Z)) (rf : Z → Z) (r : Z) : Z :=
  match wr with
  | Some (rd, v) => if (r =? rd) && negb (r =? 0) then v else rf r
  | None => rf r
  end.

(** [None] stands for a trap, or an instruction without an [effect]. *)
Definition isa_step (prog : gmap Z instr) (s : isa_state) : option isa_state :=
  i ← prog !! isa_pc s;
  e ← effect i (isa_regs s) (isa_pc s);
  match e with
  | inl _ => None
  | inr (wr, target) =>
      Some (mk_isa (default ((isa_pc s + 4) mod MX) target) (isa_write wr (isa_regs s)))
  end.

Fixpoint isa_run (prog : gmap Z instr) (n : nat) (s : isa_state) : option isa_state :=
  match n with
  | O => Some s
  | S n' => s' ← isa_step prog s; isa_run prog n' s'
  end.

(** ** Effects stay within 32 bits *)
Definition rf_wf (rf : Z → Z) : Prop := ∀ r, in_width XLEN (rf r).

Lemma mod_width x : in_width XLEN (x mod MX).
Proof. apply (ux_range x). Qed.

Lemma flag_width (b : bool) : in_width XLEN (if b then 1 else 0).
Proof. unfold in_width. destruct pow_xlen. destruct b; lia. Qed.

Lemma umax_width : in_width XLEN (MX - 1).
Proof. unfold in_width, MX. destruct pow_xlen. lia. Qed.

Lemma div_width a b : in_width XLEN a → 0 ≤ b → in_width XLEN (a / b).
Proof.
  unfold in_width. intros Ha Hb. destruct (decide (b = 0)) as [->|]; [rewrite Z.div_0_r; apply (flag_width false)|].
  split; [apply Z.div_pos; lia|]. apply Z.div_lt_upper_bound; nia.
Qed.

Lemma rem_width a b : in_width XLEN a → in_width XLEN b → b ≠ 0 → in_width XLEN (a mod b).
Proof. unfold in_width. intros Ha Hb H0. pose proof (Z.mod_pos_bound a b). lia. Qed.

Lemma alu_width op a b : in_width XLEN a → in_width XLEN b → in_width XLEN (alu op a b).
Proof.
  intros Ha Hb. assert (0 ≤ b) as Hb0 by (unfold in_width in Hb; lia). pose proof xlen_pos.
  destruct op; cbn [alu]; try apply mod_width; try apply flag_width; auto with widths zarith.
  - apply div_width; [done|]. apply Z.pow_nonneg. lia.
  - by apply mulhu_small.
  - destruct (b =? 0); [apply umax_width|apply mod_width].
  - destruct (b =? 0); [apply umax_width|by apply div_width].
  - destruct (b =? 0); [done|apply mod_width].
  - destruct (Z.eqb_spec b 0); [done|by apply rem_width].
Qed.

Lemma word_result_width x v : word_result x = Some v → in_width XLEN v.
Proof. unfold word_result. destruct (_ && _); [|done]. intros [= <-]. apply mod_width. Qed.

Lemma aluw_width op a b v : aluw op a b = Some v → in_width XLEN v.
Proof.
  destruct op; cbn [aluw]; try apply word_result_width; intros [= <-]; try apply mod_width;
    destruct (_ =? 0); apply umax_width || apply mod_width.
Qed.

Lemma effect_width i rf pc wr target : instr_wf i → rf_wf rf → effect i rf pc = Some (inr (wr, target)) →
  (∀ r v, wr = Some (r, v) → is_reg r ∧ in_width XLEN v) ∧ ∀ t, target = Some t → in_width XLEN t.
Proof.
  intros Hi Hrf. destruct i; cbn in Hi |- *; try discriminate.
  1-5: intros [= <- <-]; split; [|done]; intros r v [= <- <-]; (split; [apply Hi|]);
    try apply alu_width; try apply Hrf; try apply mod_width.
  - destruct Hi as (_ & _ & Hi). pose proof xlen_bounds. pose proof (Z.pow_gt_lin_r 2 XLEN).
    unfold in_width in *. lia.
  - destruct (_ =? 0); [|done]. intros [= <- <-]. split.
    + intros r v [= <- <-]. split; [apply Hi|apply mod_width].
    + intros t [= <-]. apply mod_width.
  - destruct (_ =? 0); [|done]. intros [= <- <-]. split.
    + intros r v [= <- <-]. split; [apply Hi|apply mod_width].
    + intros t [= <-]. pose proof (mod_width (rf rs1 + off)) as Hm. unfold in_width, MX in *.
      Z.to_euclidean_division_equations; lia.
  - destruct (holds _ _ _); [|intros [= <- <-]; by split]. destruct (_ =? 0); [|done].
    intros [= <- <-]. split; [done|]. intros t [= <-]. apply mod_width.
  - destruct (aluw _ _ _) as [x|] eqn:E; [|done]. intros [= <- <-]. split; [|done].
    intros r v [= <- <-]. split; [apply Hi|by eapply aluw_width].
  - destruct (word_result _) as [x|] eqn:E; [|done]. intros [= <- <-]. split; [|done].
    intros r v [= <- <-]. split; [apply Hi|by eapply word_result_width].
  - destruct (aluw _ _ _) as [x|] eqn:E; [|done]. intros [= <- <-]. split; [|done].
    intros r v [= <- <-]. split; [apply Hi|by eapply aluw_width].
Qed.

Lemma effect_ext i rf rf' pc : (∀ r, rf r = rf' r) → effect i rf pc = effect i rf' pc.
Proof. intros E. destruct i; cbn; by rewrite ?E. Qed.

(** ** Accounting touches counters, timers and pending bits only *)
Definition csr_kept (r r' : rv_csr) : Prop :=
  mie r' = mie r ∧ mstatus r' = mstatus r ∧ satp r' = satp r ∧ mhartid r' = mhartid r ∧
  mepc r' = mepc r ∧ mcause r' = mcause r ∧ mtval r' = mtval r.

#[export] Instance csr_kept_preorder : PreOrder csr_kept.
Proof. split; [by intros r|]. unfold csr_kept. intros r1 r2 r3 K1 K2. destruct_and!. split_and!; congruence. Qed.

Definition accounts {T} (m : st (rv_cpu T) unit) : Prop :=
  ∀ c, ∃ r', m c = Done (tt, c <| csr := r' |>) ∧ csr_kept (csr c) r'.

Lemma accounts_bind {T} (m : st (rv_cpu T) unit) k : accounts m → accounts k → accounts (m;; k).
Proof.
  intros Hm Hk c. destruct (Hm c) as (r1 & E1 & K1). destruct (Hk (c <| csr := r1 |>)) as (r2 & E2 & K2).
  exists r2. rewrite (bind_Done _ _ _ _ _ E1), E2. split; [done|]. by etrans.
Qed.

Lemma accounts_modify {T} f : (∀ r, csr_kept r (f r)) → accounts (T:=T) (modify (with_csr f)).
Proof. intros Hf c. exists (f (csr c)). by split. Qed.

Lemma accounts_hmp {T} i : 0 ≤ i < 29 → accounts (T:=T) (account_hmp i).
Proof.
  intros Hi c. unfold account_hmp. rewrite (proj2 (Z.leb_le 0 i)), (proj2 (Z.ltb_lt i 29)) by lia.
  do 2 rewrite (bind_Done _ _ _ _ _ eq_refl). cbv zeta.
  destruct (truthy _); [exists (csr c); by destruct c|].
  destruct (hpm_counts c _); [by eexists|exists (csr c); by destruct c].
Qed.

Lemma accounts_all {T} n i : 0 ≤ i → i + Z.of_nat n ≤ 29 → accounts (T:=T) (account_all n i).
Proof.
  revert i. induction n as [|n IH]; intros i H0 Hi; cbn [account_all].
  - intros c. exists (csr c). by destruct c.
  - apply accounts_bind; [apply accounts_hmp|apply IH]; lia.
Qed.

Lemma account_run {T} now retired : accounts (T:=T) (account now retired).
Proof.
  unfold account, manage_timer_interrupts.
  apply accounts_bind; [apply accounts_modify; intros r; by destruct (truthy _)|].
  apply accounts_bind; [by apply accounts_modify|].
  apply accounts_bind; [apply accounts_modify; intros r; by destruct (negb _ && _)|].
  apply accounts_bind; [apply accounts_all; lia|].
  apply accounts_bind; [by apply accounts_modify|].
  intros c. unfold modify, handle_mtip. destruct (_ <=? _); by eexists.
Qed.

(** No interrupt is taken while none is enabled. *)
Lemma first_set_none l : first_set 0 l = None.
Proof. by induction l. Qed.

Lemma no_interrupt_run {T} order (c : rv_cpu T) : mie (csr c) = 0 → handle_interrupt order c = Done (tt, c).
Proof.
  intros E. unfold handle_interrupt. rewrite (bind_Done _ _ _ _ _ eq_refl). cbv zeta.
  destruct (_ =? 0); [done|]. rewrite E, Z.land_0_r, !Z.land_0_l, !first_set_none.
  by destruct (can_trap_to_M c), (can_trap_to_S c).
Qed.

End Isa.

(** ** One step *)
Section Run.
Context {T D : Type} `{FamilyLaws T D}.
Abbreviation W := (world T D).
Abbreviation decoded := (ICacheProps.decoded (D:=D) instr_decode).
Abbreviation icache_ok := (ICacheProps.icache_ok (D:=D) instr_decode).
Implicit Types w : W.

(** Memory holds the program. *)
Definition loaded (prog : gmap Z instr) (p : physmem) : Prop := ∀ a i, prog !! a = Some i →
  instr_wf i ∧ slot_ok a ∧ is_Some (byte_at p a) ∧ word_at p a = encode i.

Lemma loaded_same prog p p' : same_bytes p p' → loaded prog p → loaded prog p'.
Proof.
  intros Hb Hl a i Hi. destruct (Hl a i Hi) as (Hw & Hs & Hba & Ha). split_and!; [done|done| |].
  - by rewrite (Hb a (proj1 Hs)).
  - by rewrite (same_bytes_word _ _ _ Hb Hs).
Qed.

(** An execution of [execute] without translation. *)
Lemma execute_run i c' w :
  use_sv (w_cpu w) true = false → phys_wf (w_phys w) → icache_ok w → regs_wf (w_cpu w) →
  instr_wf i → slot_ok (pc (w_cpu w)) → is_Some (byte_at (w_phys w) (pc (w_cpu w))) →
  word_at (w_phys w) (pc (w_cpu w)) = encode i → meaning i (w_cpu w) = Some (inr c') →
  ∃ w1, execute w = Done (inr tt, w1 <| w_cpu := c' |>) ∧ fetched w w1 ∧ icache_ok w1.
Proof.
  intros Huse Hwf Hic Hr Hi Hs Hb Hw Hm.
  destruct (fetch_word instr_decode (mhartid (csr (w_cpu w))) true _ w Hwf Hic Hs Hb)
    as (w1 & w2 & Hf%fetch_instr_run & Hrd & Ec1 & Hrel & Hic2).
  assert (w_cpu w2 = w_cpu w) as Ec2 by by rewrite (proj1 Hrel).
  exists w2. split; [|done]. unfold execute. rewrite (bind_Done _ _ _ _ _ eq_refl).
  pose proof (family_bare (pc (w_cpu w)) false true true w eq_refl Huse) as Hconv.
  rewrite (ebind_Done_inr _ _ _ _ _ Hconv), (bind_Done _ _ _ _ _ Hf), (bind_Done _ _ _ _ _ eq_refl).
  rewrite Ec1, (bind_Done _ _ _ _ _ Hrd).
  assert (instr_exec (decoded w (pc (w_cpu w))) (word_at (w_phys w) (pc (w_cpu w))) w2 =
    Done (inr tt, w2 <| w_cpu := c' |>)) as Hex.
  { unfold decoded. rewrite Hw. apply (instr_meaning_run _ i w2 (inr c')); by rewrite ?Ec2. }
  by rewrite (bind_Done _ _ _ _ _ Hex).
Qed.

(** The simulation relation. *)
Record sim (prog : gmap Z instr) (s : isa_state) w : Prop := {
  sim_awake : stdby (w_cpu w) = false;
  sim_no_irq : mie (csr (w_cpu w)) = 0;
  sim_bare : use_sv (w_cpu w) true = false;
  sim_pc : pc (w_cpu w) = isa_pc s;
  sim_next : pc_next (w_cpu w) = (isa_pc s + 4) mod MX;
  sim_regs : ∀ r, reg r (w_cpu w) = isa_regs s r;
  sim_x0 : isa_regs s 0 = 0;
  sim_width : rf_wf (isa_regs s);
  sim_phys : phys_wf (w_phys w);
  sim_icache : icache_ok w;
  sim_loaded : loaded prog (w_phys w)
}.

(** The end of a step, seen from the abstract machine. *)
Lemma finish_sim prog s wr target w w1 r' :
  sim prog s w → fetched w w1 → icache_ok w1 → csr_kept (csr (w_cpu w)) r' →
  (∀ r v, wr = Some (r, v) → is_reg r ∧ in_width XLEN v) →
  sim prog (mk_isa (default ((isa_pc s + 4) mod MX) target) (isa_write wr (isa_regs s)))
    (w1 <| w_cpu := finish_step ((apply_effect (wr, target) (w_cpu w)) <| csr := r' |>) |>).
Proof.
  intros [Haw Hirq Hbare Hpc Hnx Hregs Hx0 Hwd Hph Hic Hl] (E & Hwf1 & Hb) Hic1 (K1 & K2 & K3 & _) Hwr.
  assert (stdby (apply_effect (wr, target) (w_cpu w)) = false ∧
    priv_mode (apply_effect (wr, target) (w_cpu w)) = priv_mode (w_cpu w) ∧
    pc_next (apply_effect (wr, target) (w_cpu w)) = default ((isa_pc s + 4) mod MX) target)
    as (Es & Ep & En) by (destruct wr as [[]|], target; cbn; rewrite ?Haw, ?Hnx; done).
  split; cbn [w_cpu isa_pc isa_regs]; unfold finish_step; cbn; rewrite ?Es; cbn; try done.
  - congruence.
  - rewrite <- Hbare. unfold use_sv, sv32_effective_priv, rv_csr_mstatus_mprv, rv_csr_mstatus_mpp,
      mstatus_bit, rv_csr_satp_is_bare. cbn. by rewrite K2, K3, Ep.
  - by rewrite En.
  - intros r. unfold with_csr, reg. cbn. rewrite lookup_insert. case_decide as Er.
    + subst r. unfold isa_write. destruct wr as [[rd v]|]; [|by rewrite Hx0].
      rewrite andb_false_r. by rewrite Hx0.
    + unfold isa_write. rewrite <- Hregs. destruct target; cbn; destruct wr as [[rd v]|]; cbn; try done.
      all: rewrite lookup_insert; destruct (Z.eqb_spec r rd), (Z.eqb_spec r 0); try lia; cbn;
        by rewrite ?decide_True, ?decide_False by done.
  - unfold isa_write. destruct wr as [[rd v]|]; [by rewrite andb_false_r|done].
  - intros r. unfold isa_write. destruct wr as [[rd v]|]; [|apply Hwd].
    destruct (_ && _); [by apply (Hwr rd v)|apply Hwd].
  - destruct Hic1 as [Hn Hp]. split; cbn; [done|]. intros ci Hci. by destruct (Hp ci Hci).
  - by eapply loaded_same.
Qed.

Lemma step_sim now prog s s' w :
  sim prog s w → isa_step prog s = Some s' →
  ∃ w', cpu_step now w = Done (tt, w') ∧ sim prog s' w' ∧ same_bytes (w_phys w) (w_phys w').
Proof.
  intros Hsim Hstep. pose proof Hsim as [Haw Hirq Hbare Hpc Hnx Hregs Hx0 Hwd Hph Hic Hl].
  unfold isa_step in Hstep. destruct (prog !! isa_pc s) as [i|] eqn:Ei; [|done]. cbn in Hstep.
  destruct (Hl _ _ Ei) as (Hi & Hs & Hb & Hw). rewrite <- Hpc in Hs, Hb, Hw.
  destruct (effect i (isa_regs s) (isa_pc s)) as [[|[wr target]]|] eqn:Ee; [done| |done].
  injection Hstep as <-. set (c' := apply_effect (wr, target) (w_cpu w)).
  assert (meaning i (w_cpu w) = Some (inr c')) as Hm
    by (unfold meaning; by rewrite (effect_ext i _ (isa_regs s)), Hpc, Ee).
  assert (regs_wf (w_cpu w)) as Hr by (intros r; rewrite Hregs; apply Hwd).
  destruct (execute_run i c' w Hbare Hph Hic Hr Hi Hs Hb Hw Hm) as (w1 & Hex & Hrel & Hic1).
  assert (csr c' = csr (w_cpu w)) as Ecsr by (by destruct wr as [[]|], target).
  assert (mie (csr c') = 0) as Hirq' by by rewrite Ecsr.
  destruct (account_run now true c') as (r' & Hacc & K). rewrite Ecsr in K.
  eexists. split_and!; [| |].
  - unfold cpu_step. rewrite (bind_Done _ _ _ _ _ eq_refl), Haw, (bind_Done _ _ _ _ _ Hex).
    cbv zeta. cbn [negb andb].
    set (w2 := w1 <| w_cpu := c' |>).
    assert (on_cpu (handle_interrupt supervisor_order) w2 = Done (tt, w2)) as Htry
      by (etrans; [apply on_cpu_run, no_interrupt_run, Hirq'|done]).
    rewrite (bind_Done _ _ _ _ _ Htry).
    assert (on_cpu (account now true) w2 = Done (tt, w2 <| w_cpu := c' <| csr := r' |> |>)) as Hacc'
      by (apply on_cpu_run, Hacc).
    rewrite (bind_Done _ _ _ _ _ Hacc'). reflexivity.
  - destruct (effect_width i _ _ _ _ Hi Hwd Ee) as [Hwr _].
    exact (finish_sim prog s wr target w w1 r' Hsim Hrel Hic1 K Hwr).
  - apply Hrel.
Qed.

(** A fetch of a word that does not decode. *)
Lemma illegal_execute_run w :
  let c := w_cpu w in let word := word_at (w_phys w) (pc c) in
  use_sv c true = false → phys_wf (w_phys w) → icache_ok w → slot_ok (pc c) →
  is_Some (byte_at (w_phys w) (pc c)) → machine_undefined w = false →
  instr_decode (machine_specific_instructions w) word = Instr.rv_illegal_instr →
  ∃ w1, execute w = Done (inl rv_exc_illegal_instruction,
      w1 <| w_cpu := with_csr (λ r, r <| tval_next := word |>) c |>) ∧ fetched w w1 ∧ icache_ok w1.
Proof.
  intros c word Huse Hwf Hic Hs Hb Hund Hdec.
  destruct (fetch_word instr_decode (mhartid (csr (w_cpu w))) true _ w Hwf Hic Hs Hb)
    as (w1 & w2 & Hf%fetch_instr_run & Hrd & Ec1 & Hrel & Hic2).
  rewrite <- Ec1 in Hrd.
  exists w2. split; [|done]. pose proof (proj1 Hrel) as E.
  assert (w_cpu w2 = c ∧ machine_undefined w2 = false) as [Ec2 Eu] by (by rewrite E).
  unfold execute. rewrite (bind_Done _ _ _ _ _ eq_refl). fold c.
  pose proof (family_bare (pc c) false true true w eq_refl Huse) as Hconv.
  rewrite (ebind_Done_inr _ _ _ _ _ Hconv), (bind_Done _ _ _ _ _ Hf), (bind_Done _ _ _ _ _ eq_refl).
  rewrite (bind_Done _ _ _ _ _ Hrd). unfold decoded. fold c. fold word. rewrite Hdec.
  assert (instr_exec Instr.rv_illegal_instr word w2 = Done (inl rv_exc_illegal_instruction, w2)) as Hex.
  { cbn. unfold RvMemOps.rv_illegal_instr. rewrite (bind_Done _ _ _ _ _ eq_refl). by rewrite Eu. }
  rewrite (bind_Done _ _ _ _ _ Hex). rewrite (bind_Done _ _ _ _ _ eq_refl). by rewrite Ec2.
Qed.

(** C30: stepping onto a word that does not decode, with fetch translation off,
    traps: machine mode (unless the exception is delegated) is entered at the base
    of the trap vector with the illegal-instruction cause, the address of the
    instruction and the instruction word as the trap value; the registers keep
    their values, x0 is zero, and memory keeps its bytes. *)
Theorem illegal_instruction_traps now w :
  let c := w_cpu w in let word := word_at (w_phys w) (pc c) in
  stdby c = false → use_sv c true = false → phys_wf (w_phys w) → icache_ok w → csr_wf (csr c) →
  slot_ok (pc c) → is_Some (byte_at (w_phys w) (pc c)) → machine_undefined w = false →
  instr_decode (machine_specific_instructions w) word = Instr.rv_illegal_instr →
  Z.testbit (medeleg (csr c)) 2 = false ∨ priv_mode c = rv_mmode →
  ∃ w', cpu_step now w = Done (tt, w') ∧
    priv_mode (w_cpu w') = rv_mmode ∧ mcause (csr (w_cpu w')) = 2 ∧ mepc (csr (w_cpu w')) = pc c ∧
    mtval (csr (w_cpu w')) = word ∧ pc (w_cpu w') = Z.land (mtvec (csr c)) (c_not XLEN 3) ∧
    regs (w_cpu w') = <[0 := 0]> (regs c) ∧ same_bytes (w_phys w) (w_phys w') ∧ icache_ok w'.
Proof.
  intros c word Haw Huse Hwf Hic Hcsr Hs Hb Hund Hdec Hdel.
  destruct (illegal_execute_run w) as (w1 & Hex & Hrel & Hic1); try done.
  set (c1 := with_csr (λ r, r <| tval_next := word |>) c).
  assert (csr_wf (csr c1)) as Hcsr1 by (by destruct Hcsr).
  assert (handle_exception rv_exc_illegal_instruction c1 =
    Done (tt, m_trapped rv_exc_illegal_instruction c1)) as Htrap.
  { unfold handle_exception. do 2 rewrite (bind_Done _ _ _ _ _ eq_refl). cbv zeta.
    unfold RV_EXCEPTION_MASK. rewrite truthy_mask by done. rewrite <- m_trap_run by done.
    change (exc_no rv_exc_illegal_instruction) with 2.
    change (medeleg (csr c1)) with (medeleg (csr c)). change (priv_mode c1) with (priv_mode c).
    destruct Hdel as [Hd|Hm]; [by rewrite Hd|].
    by rewrite Hm, andb_false_r. }
  destruct (account_run now false (m_trapped rv_exc_illegal_instruction c1)) as (r' & Hacc & K).
  destruct K as (_ & _ & _ & _ & K1 & K2 & K3).
  set (w2 := w1 <| w_cpu := c1 |>) in *.
  pose proof (on_cpu_run (handle_exception rv_exc_illegal_instruction) w2 tt _ Htrap) as Htrap'.
  set (w3 := w2 <| w_cpu := m_trapped rv_exc_illegal_instruction c1 |>) in *.
  pose proof (on_cpu_run (account now false) w3 tt _ Hacc) as Hacc'.
  eexists. split.
  { unfold cpu_step. rewrite (bind_Done _ _ _ _ _ eq_refl). fold c. rewrite Haw.
    rewrite (bind_Done _ _ _ _ _ Hex). cbv zeta. cbn [negb andb].
    rewrite (bind_Done _ _ _ _ _ Htrap'), (bind_Done _ _ _ _ _ Hacc'). reflexivity. }
  split_and!; [done|exact K2|exact K1|exact K3| |done|apply Hrel|].
  { change (vector_of (mtvec (csr c)) rv_exc_illegal_instruction = Z.land (mtvec (csr c)) (c_not XLEN 3)).
    unfold vector_of. by rewrite andb_false_r. }
  destruct Hic1 as [Hn Hp]. split; cbn; [done|]. intros ci Hci. by destruct (Hp ci Hci).
Qed.

(** The processor stepped at the given times. *)
Fixpoint run_steps (times : list Z) : st W unit :=
  match times with
  | [] => mret tt
  | now :: times' => cpu_step now;; run_steps times'
  end.

(** C1: a processor whose memory holds a program of computational instructions,
    jumps and branches, with fetch translation off and no interrupt enabled,
    refines the abstract machine: as many simulator steps as the abstract machine
    takes, at whatever times, end in a state with the abstract registers (x0 zero)
    and program counter, with the bytes of memory unchanged and the relation
    re-established, so it holds for runs of every length. *)
Theorem run_refines prog times s s' w :
  sim prog s w → isa_run prog (length times) s = Some s' →
  ∃ w', run_steps times w = Done (tt, w') ∧ sim prog s' w' ∧ same_bytes (w_phys w) (w_phys w').
Proof.
  revert s w. induction times as [|now times IH]; intros s w Hsim Hrun; cbn in Hrun.
  { injection Hrun as <-. by exists w. }
  destruct (isa_step prog s) as [s1|] eqn:E1; [|done]. cbn in Hrun.
  destruct (step_sim now prog s s1 w Hsim E1) as (w1 & Hstep & Hsim1 & Hb1).
  destruct (IH s1 w1 Hsim1 Hrun) as (w' & Hsteps & Hsim' & Hb').
  exists w'. cbn [run_steps]. rewrite (bind_Done _ _ _ _ _ Hstep). split_and!; [done|done|].
  intros x Hx. by rewrite Hb', Hb1.
Qed.
End Run.

(** ** A loop that adds the numbers from 5 down to 1 *)
Definition sum_code : list instr :=
  [AluImm ADDI 1 0 5; AluImm ADDI 2 0 0; Alu ADD 2 2 1; AluImm ADDI 1 1 (-1); Branch BNE 1 0 (-8)].
Definition sum_prog : gmap Z instr :=
  {[ 0xF0000000 := AluImm ADDI 1 0 5; 0xF0000004 := AluImm ADDI 2 0 0; 0xF0000008 := Alu ADD 2 2 1;
     0xF000000C := AluImm ADDI 1 1 (-1); 0xF0000010 := Branch BNE 1 0 (-8) ]}.
Definition sum_machine : Sample.W := Sample.machine Sample.cpu0 ∅ (encode <$> sum_code).
Definition boot_state : isa_state := mk_isa 0xF0000000 (λ _, 0).

Lemma sum_sim : sim sum_prog boot_state sum_machine.
Proof.
  split; try done.
  - apply Sample.memory_wf, Sample.empty_ok.
  - split; [constructor|]. by intros ci ?%not_elem_of_nil.
  - intros a i. unfold sum_prog. rewrite !lookup_insert, lookup_singleton.
    repeat case_decide; intros [= <-]; subst a;
      (split; [by vm_compute|split; [by vm_compute|split; [vm_compute; by eexists|by vm_compute]]]).
Qed.

(** The same loop on RV64 with word additions. *)
Definition sum_code64 : list instr :=
  [AddIW 1 0 5; AddIW 2 0 0; AluW ADDW 2 2 1; AddIW 1 1 (-1); Branch BNE 1 0 (-8)].
Definition sum_prog64 : gmap Z instr :=
  {[ 0xF0000000 := AddIW 1 0 5; 0xF0000004 := AddIW 2 0 0; 0xF0000008 := AluW ADDW 2 2 1;
     0xF000000C := AddIW 1 1 (-1); 0xF0000010 := Branch BNE 1 0 (-8) ]}.
Definition sum_machine64 : Sample64.W := Sample64.machine Sample64.cpu0 ∅ (encode <$> sum_code64).

Lemma sum_sim64 : sim (H:=xlen64) sum_prog64 boot_state sum_machine64.
Proof.
  split; try done.
  - apply Sample.memory_wf, Sample.empty_ok.
  - split; [constructor|]. by intros ci ?%not_elem_of_nil.
  - intros a i. unfold sum_prog64. rewrite !lookup_insert, lookup_singleton.
    repeat case_decide; intros [= <-]; subst a;
      (split; [by vm_compute|split; [by vm_compute|split; [vm_compute; by eexists|by vm_compute]]]).
Qed.

Lemma run_refines_witness :
  (∃ w', run_steps (replicate 17 0) sum_machine = Done (tt, w') ∧ reg 2 (w_cpu w') = 15 ∧
    pc (w_cpu w') = 0xF0000014) ∧
  ∃ w', run_steps (H:=xlen64) (replicate 17 0) sum_machine64 = Done (tt, w') ∧ reg 2 (w_cpu w') = 15 ∧
    pc (w_cpu w') = 0xF0000014.
Proof.
  split.
  - assert ((λ s, (isa_regs s 2, isa_pc s)) <$> isa_run sum_prog 17 boot_state = Some (15, 0xF0000014)) as Hs
      by (vm_compute; reflexivity).
    destruct (isa_run sum_prog 17 boot_state) as [s'|] eqn:E; [|discriminate Hs].
    destruct (run_refines sum_prog (replicate 17 0) boot_state s' sum_machine sum_sim E)
      as (w' & Hrun & Hsim & _).
    exists w'. split; [exact Hrun|]. rewrite (sim_regs _ _ _ Hsim), (sim_pc _ _ _ Hsim).
    cbn in Hs. injection Hs as -> ->. split; reflexivity.
  - assert ((λ s, (isa_regs s 2, isa_pc s)) <$> isa_run (H:=xlen64) sum_prog64 17 boot_state =
      Some (15, 0xF0000014)) as Hs by (vm_compute; reflexivity).
    destruct (isa_run (H:=xlen64) sum_prog64 17 boot_state) as [s'|] eqn:E; [|discriminate Hs].
    destruct (run_refines (H:=xlen64) sum_prog64 (replicate 17 0) boot_state s' sum_machine64 sum_sim64 E)
      as (w' & Hrun & Hsim & _).
    exists w'. split; [exact Hrun|]. rewrite (sim_regs _ _ _ Hsim), (sim_pc _ _ _ Hsim).
    cbn in Hs. injection Hs as -> ->. split; reflexivity.
Defined.

(** The all-zero word is not an instruction. *)
Lemma illegal_instruction_traps_witness :
  ∃ w', rv32_cpu_step 0 (Sample.machine Sample.cpu0 ∅ [0]) = Done (tt, w') ∧
    mcause (csr (w_cpu w')) = 2 ∧ mepc (csr (w_cpu w')) = 0xF0000000.
Proof.
  destruct (illegal_instruction_traps 0 (Sample.machine Sample.cpu0 ∅ [0]))
    as (w' & Hrun & _ & Hc & He & _); try reflexivity.
  - apply Sample.memory_wf, Sample.empty_ok.
  - split; [constructor|]. by intros ci ?%not_elem_of_nil.
  - apply (cpu0_wf rv_mmode).
  - by vm_compute.
  - vm_compute. by eexists.
  - by left.
  - exists w'. split; [exact Hrun|]. split; [exact Hc|exact He].
Defined.
