(* ===== verification/RvMemProps.v ===== *)
(** * Loads, stores and atomics of the RISC-V processors

    A load after a store of the same width returns the stored bytes; LR/SC pairs are
    atomic with respect to every processor; the effect of the AMO instructions. *)

From S2P Require Import Prelude PhysMem RvTypes RvCpu RvCsr RvComp RvCompProps RvTlb Rv32Tlb Machine RvWorld MachineProps.
From S2P Require Import RvMem RvMemOps MachineProps RvVm Rv32Vm RvVmProps RvTrap RvStep Rv32Decode Rv32Cpu RvSample RvIsa.
From S2P Require Import RvExec RvLaws.
Import PhysMem.

(** The timer registers occupy two double words. *)
Definition timer_address (virt : Z) : bool :=
  (ALIGN_DOWN virt 8 =? RV_MTIME_ADDRESS) || (ALIGN_DOWN virt 8 =? RV_MTIMECMP_ADDRESS).

Lemma width_aligned n virt : access_size n → IS_ALIGNED virt (8 * Z.of_nat n / 8) = (virt mod Z.of_nat n =? 0).
Proof.
  unfold IS_ALIGNED. intros [->|[->|[->| ->]]].
  - by rewrite Z.land_0_r, Z.mod_1_r.
  - change (_ - 1) with (Z.ones 1). by rewrite Z.land_ones.
  - change (_ - 1) with (Z.ones 2). by rewrite Z.land_ones.
  - change (_ - 1) with (Z.ones 3). by rewrite Z.land_ones.
Qed.

Lemma aligned_limit n a k : access_size n → a mod Z.of_nat n = 0 → 0 ≤ a < PHYS_LIMIT → 0 ≤ k < Z.of_nat n →
  0 ≤ a + k < PHYS_LIMIT.
Proof.
  unfold PHYS_LIMIT. intros [->|[->|[->| ->]]] Ha Hl Hk; cbn in *; Z.to_euclidean_division_equations; lia.
Qed.

Section Bare.
Context {T D : Type} `{FamilyLaws T D}.
Abbreviation W := (world T D).
Implicit Types w : W.

(** An aligned access of [n] bytes to wired memory without translation. *)
Record bare_access w (n : nat) (virt : Z) : Prop := {
  ba_off : use_sv (w_cpu w) false = false;
  ba_virt : 0 ≤ virt < PHYS_LIMIT;
  ba_timer : timer_address virt = false;
  ba_aligned : virt mod Z.of_nat n = 0;
  ba_phys : phys_wf (w_phys w);
  ba_wired : is_Some (lookup_frame (w_phys w) virt)
}.

Lemma convert_bare virt wr noisy w :
  use_sv (w_cpu w) false = false → RvWorld.rv_convert_addr virt wr false noisy w = Done (inr virt, w).
Proof.
  intros Huse. apply family_bare; [apply andb_false_r|done].
Qed.

Lemma convert_throw_bare virt wr w :
  use_sv (w_cpu w) false = false → convert_or_throw virt wr false true w = Done (inr virt, w).
Proof.
  intros Huse. unfold convert_or_throw. by rewrite (bind_Done _ _ _ _ _ (convert_bare virt wr true w Huse)).
Qed.

Lemma no_mmio_read width virt (c : rv_cpu T) :
  timer_address virt = false → try_read_memory_mapped_regs width virt c = None.
Proof.
  unfold timer_address, try_read_memory_mapped_regs. intros [E1 E2]%orb_false_iff.
  destruct (mmio_enabled _ _ _); [|done]. by rewrite E1, E2.
Qed.

Lemma no_mmio_write width virt v w :
  timer_address virt = false → try_write_memory_mapped_regs virt v width w = Done (false, w).
Proof.
  unfold timer_address, try_write_memory_mapped_regs. intros [E1 E2]%orb_false_iff.
  rewrite (bind_Done _ _ _ _ _ eq_refl). destruct (mmio_enabled _ _ _); [|done]. by rewrite E1, E2.
Qed.

Lemma read_mem_bare n devmem virt w :
  access_size n → bare_access w n virt →
  ∃ w', rv_read_mem (8 * Z.of_nat n) (physmem_read devmem n) virt false true w =
      Done (inr (value_at (w_phys w) virt n), w') ∧
    same_store (w_phys w) (w_phys w') ∧ read_rel w w'.
Proof.
  intros Hn [Huse Hv Ht Ha Hwf [f Hf]].
  destruct (world_read devmem n (mhartid (csr (w_cpu w))) virt true f w Hwf Hv
    (size_no_cross n virt Hn Ha) Hf) as (w' & Hrun & S & R).
  exists w'. split; [|done]. unfold rv_read_mem. rewrite (bind_Done _ _ _ _ _ eq_refl), no_mmio_read by done.
  rewrite (ebind_Done_inr _ _ _ _ _ (convert_throw_bare virt false w Huse)).
  rewrite width_aligned, Ha by done. cbn [Z.eqb negb]. rewrite (bind_Done _ _ _ _ _ eq_refl).
  unfold lift. by rewrite (bind_Done _ _ _ _ _ Hrun).
Qed.

Lemma write_mem_bare n devmem virt v w :
  access_size n → bare_access w n virt → rw_word (w_phys w) virt →
  ∃ w', rv_write_mem (8 * Z.of_nat n) (physmem_write devmem n) virt v true w = Done (inr tt, w') ∧
    physmem_write devmem n (mhartid (csr (w_cpu w))) virt v true w = Done (true, w') ∧
    phys_wf (w_phys w') ∧ write_rel w w' ∧
    (∀ x, 0 ≤ x < PHYS_LIMIT → is_Some (lookup_frame (w_phys w) x) → is_Some (lookup_frame (w_phys w') x)) ∧
    ∀ x, 0 ≤ x < PHYS_LIMIT → byte_at (w_phys w') x =
      if decide (virt ≤ x < virt + Z.of_nat n) then Some (le_byte v (x - virt)) else byte_at (w_phys w) x.
Proof.
  intros Hn [Huse Hv Ht Ha Hwf _] (f & ar & Hf & Har & Hwr).
  destruct (world_write devmem n (mhartid (csr (w_cpu w))) virt v true f ar w Hwf Hv
    (size_no_cross n virt Hn Ha) Hf Har) as (w' & Hrun & Hwf' & R & Hl & Hb); [by rewrite Hwr|].
  exists w'. split_and!; [|exact Hrun|done|done| |done].
  - unfold rv_write_mem. rewrite (bind_Done _ _ _ _ _ (no_mmio_write _ _ _ _ Ht)).
    rewrite (ebind_Done_inr _ _ _ _ _ (convert_throw_bare virt true w Huse)).
    rewrite width_aligned, Ha by done. cbn [Z.eqb negb]. rewrite (bind_Done _ _ _ _ _ eq_refl).
    by rewrite (bind_Done _ _ _ _ _ Hrun).
  - intros x Hx Hs. rewrite Hl by done. by case_decide.
Qed.

(** ** Load and store instructions *)
Definition load_bytes (op : load_kind) : nat := 
  match op with LB | LBU => 1 | LH | LHU => 2 | LW | LWU => 4 | LD => 8 end.
Definition store_bytes (op : store_kind) : nat := match op with SB => 1 | SH => 2 | SW => 4 | SD => 8 end.

(** Sign or zero extension of the loaded bytes to the register width. *)
Definition load_value (op : load_kind) (v : Z) : Z :=
  match op with
  | LB => sgn 8 v mod MX | LH => sgn 16 v mod MX | LW => sgn 32 v mod MX
  | LBU | LHU | LWU | LD => v
  end.

Definition target_addr w (rs1 off : Z) : Z := (reg rs1 (w_cpu w) + off) mod MX.

(** The common tail of the loads. *)
Lemma load_tail n devmem a rd ext w : access_size n → bare_access w n a →
  ∃ w1, (val ⇐ rv_read_mem (8 * Z.of_nat n) (physmem_read devmem n) a false true;
         write_reg rd (ext val);; ok tt) w =
      Done (inr tt, w1 <| w_cpu := set_reg rd (ext (value_at (w_phys w) a n)) (w_cpu w) |>) ∧
    read_rel w w1 ∧ same_store (w_phys w) (w_phys w1).
Proof.
  intros Hn Hb. destruct (read_mem_bare n devmem a w Hn Hb) as (w1 & Hrd & S & R).
  exists w1. split; [|done]. rewrite (ebind_Done_inr _ _ _ _ _ Hrd), (bind_Done _ _ _ _ _ eq_refl).
  by rewrite <- (read_rel_cpu _ _ R).
Qed.

Lemma load_zero n devmem a rd w : access_size n → bare_access w n a → 8 * Z.of_nat n ≤ XLEN →
  ∃ w1, (val ⇐ rv_read_mem (8 * Z.of_nat n) (physmem_read devmem n) a false true;
         write_reg rd (ux val);; ok tt) w =
      Done (inr tt, w1 <| w_cpu := set_reg rd (value_at (w_phys w) a n) (w_cpu w) |>) ∧
    read_rel w w1 ∧ same_store (w_phys w) (w_phys w1).
Proof.
  intros Hn Hb Hx. destruct (load_tail n devmem a rd ux w Hn Hb) as (w1 & E & R).
  rewrite ux_small in E; [by exists w1|].
  eapply (in_width_mono (8 * Z.of_nat n)); [lia|lia|]. apply value_width, Hb.
Qed.

Lemma load_exec op rd rs1 off w : let i := Load op rd rs1 off in
  instr_wf i → bare_access w (load_bytes op) (target_addr w rs1 off) →
  ∃ w1, instr_exec (func_of i) (encode i) w = Done (inr tt, w1 <| w_cpu := set_reg rd
      (load_value op (value_at (w_phys w) (target_addr w rs1 off) (load_bytes op))) (w_cpu w) |>) ∧
    read_rel w w1 ∧ same_store (w_phys w) (w_phys w1).
Proof.
  intros i Hi Hb. set (a := target_addr w rs1 off) in *.
  assert (access_size (load_bytes op)) as Hn by (destruct op; cbv; auto).
  assert (load_addr (encode i) w = Done (a, w)) as Ha.
  { unfold load_addr. rewrite (bind_Done _ _ _ _ _ eq_refl). unfold Instr.rs1, Instr.i_imm, sbits.
    unfold i. fields. by rewrite sgn_simm by (lia || apply Hi). }
  assert (Instr.rd (encode i) = rd) as Ed by (unfold Instr.rd, i; by fields).
  assert (c_assert (Instr.opcode (encode i) =? Instr.rv_opcLOAD) w = Done (tt, w)) as Ho
    by by rewrite encode_opcode.
  assert (IS_ALIGNED a (8 * Z.of_nat (load_bytes op) / 8) = true) as Hal
    by (rewrite width_aligned by done; by rewrite (ba_aligned _ _ _ Hb)).
  assert (load_wide op = true → XLEN = 64) as Hwide by apply Hi. pose proof xlen_bounds as Hx.
  destruct op; cbn [func_of i instr_exec load_bytes load_value] in *;
    unfold RvMemOps.rv_lb_instr, RvMemOps.rv_lh_instr, RvMemOps.rv_lw_instr, RvMemOps.rv_lbu_instr,
      RvMemOps.rv_lhu_instr, RvMemOps.rv_lwu_instr, RvMemOps.rv_ld_instr;
    rewrite (bind_Done _ _ _ _ _ Ho), (bind_Done _ _ _ _ _ Ha), Ed.
  - exact (load_tail 1 devmem_read8 a rd sign_extend_8_to_xlen w Hn Hb).
  - exact (load_tail 2 devmem_read16 a rd sign_extend_16_to_xlen w Hn Hb).
  - change (IS_ALIGNED a 4 = true) in Hal. rewrite Hal.
    exact (load_tail 4 devmem_read32 a rd sign_extend_32_to_xlen w Hn Hb).
  - apply (load_zero 1 devmem_read8); [done|done|lia].
  - change (IS_ALIGNED a 2 = true) in Hal. rewrite Hal. apply (load_zero 2 devmem_read16); [done|done|lia].
  - change (IS_ALIGNED a 4 = true) in Hal. rewrite Hal. apply (load_zero 4 devmem_read32); [done|done|lia].
  - change (IS_ALIGNED a 8 = true) in Hal. rewrite Hal. apply (load_zero 8 devmem_read64); [done|done|].
    by rewrite Hwide.
Qed.

Lemma store_exec op rs1 rs2 off w : let i := Store op rs1 rs2 off in
  let a := target_addr w rs1 off in let n := store_bytes op in
  instr_wf i → bare_access w n a → rw_word (w_phys w) a →
  ∃ w1, instr_exec (func_of i) (encode i) w = Done (inr tt, w1) ∧ phys_wf (w_phys w1) ∧ write_rel w w1 ∧
    (∀ x, 0 ≤ x < PHYS_LIMIT → is_Some (lookup_frame (w_phys w) x) → is_Some (lookup_frame (w_phys w1) x)) ∧
    value_at (w_phys w1) a n = reg rs2 (w_cpu w) mod 2 ^ (8 * Z.of_nat n) ∧
    ∀ x, 0 ≤ x < PHYS_LIMIT → ¬ a ≤ x < a + Z.of_nat n → byte_at (w_phys w1) x = byte_at (w_phys w) x.
Proof.
  intros i a n Hi Hb Hrw. assert (access_size n) as Hn by (unfold n; destruct op; cbv; auto).
  assert (Instr.rs1 (encode i) = rs1 ∧ Instr.rs2 (encode i) = rs2) as [E1 E2]
    by (unfold Instr.rs1, Instr.rs2, i; by fields).
  assert (Instr.RV_S_IMM (encode i) = ux off) as Es.
  { rewrite s_imm_off. f_equal. unfold s_off, Instr.s_imm11_5, Instr.s_imm4_0, sbits, i. fields.
    destruct Hi as (_ & _ & Hs & _). unfold simm in Hs. change (2 ^ (12 - 1)) with 2048 in Hs.
    rewrite sgn_simm; [unfold join; cbn; Z.to_euclidean_division_equations; lia|lia|].
    unfold simm. cbn. Z.to_euclidean_division_equations; lia. }
  assert (∃ devmem, instr_exec (func_of i) (encode i) w =
    rv_write_mem (8 * Z.of_nat n) (physmem_write devmem n) a
      (wrap (8 * Z.of_nat n) (reg rs2 (w_cpu w))) true w) as [devmem ->].
  { subst i n. destruct op; cbn [func_of instr_exec store_bytes] in *;
      [exists devmem_write8|exists devmem_write16|exists devmem_write32|exists devmem_write64];
      unfold RvMemOps.rv_sb_instr, RvMemOps.rv_sh_instr, RvMemOps.rv_sw_instr, RvMemOps.rv_sd_instr, store_op;
      rewrite encode_opcode by done; do 2 rewrite (bind_Done _ _ _ _ _ eq_refl); cbv zeta;
      rewrite E1, E2, Es, ux_add_r; reflexivity. }
  destruct (write_mem_bare n devmem a (wrap (8 * Z.of_nat n) (reg rs2 (w_cpu w))) w Hn Hb Hrw)
    as (w1 & Hrun & _ & Hwf & R & Hl & Hby).
  exists w1. split_and!; [done|done|done|done| |].
  - pose proof (ba_virt _ _ _ Hb) as Hlim. unfold PHYS_LIMIT in Hlim.
    change (_ mod _) with (wrap (8 * Z.of_nat n) (reg rs2 (w_cpu w))).
    rewrite <- (wrap_idemp (8 * Z.of_nat n)) by lia. rewrite <- (le_join_bytes _ a n).
    apply le_join_ext. intros k Hk.
    rewrite Hby by (apply (aligned_limit n); [done|apply Hb|apply Hb|lia]). by rewrite decide_True by lia.
  - intros x Hx Hnx. rewrite Hby by done. by rewrite decide_False.
Qed.

(** The processor seen by loads after a store. *)
Lemma write_rel_cpu w w1 : write_rel w w1 →
  regs (w_cpu w1) = regs (w_cpu w) ∧ csr (w_cpu w1) = csr (w_cpu w) ∧
  priv_mode (w_cpu w1) = priv_mode (w_cpu w).
Proof. intros R. by destruct (wr_cpu _ _ R) as [-> | ->]. Qed.

(** C28: with translation off, a load from the address of an earlier store of the
    same width, through any registers that give the address, returns the stored
    bytes, sign- or zero-extended; the store changes no byte outside the access
    and no register, and the load changes only its destination. *)
Theorem store_then_load sp st ld rs1 rs2 off rd rs1' off' w :
  let a := target_addr w rs1 off in
  instr_wf (Store st rs1 rs2 off) → instr_wf (Load ld rd rs1' off') →
  load_bytes ld = store_bytes st → target_addr w rs1' off' = a →
  bare_access w (store_bytes st) a → rw_word (w_phys w) a →
  ∃ w1 w2,
    instr_exec (instr_decode sp (encode (Store st rs1 rs2 off))) (encode (Store st rs1 rs2 off)) w =
      Done (inr tt, w1) ∧
    instr_exec (instr_decode sp (encode (Load ld rd rs1' off'))) (encode (Load ld rd rs1' off')) w1 =
      Done (inr tt, w2) ∧
    regs (w_cpu w1) = regs (w_cpu w) ∧
    regs (w_cpu w2) = <[rd := load_value ld (reg rs2 (w_cpu w) mod 2 ^ (8 * Z.of_nat (store_bytes st)))]>
                        (regs (w_cpu w)) ∧
    ∀ x, 0 ≤ x < PHYS_LIMIT → ¬ a ≤ x < a + Z.of_nat (store_bytes st) →
      byte_at (w_phys w2) x = byte_at (w_phys w) x.
Proof.
  intros a Hs Hl En Ea Hb Hrw. rewrite !family_decodes by done.
  destruct (store_exec st rs1 rs2 off w Hs Hb Hrw) as (w1 & Hst & Hwf1 & R1 & Hk & Hv & Hother).
  destruct (write_rel_cpu _ _ R1) as (Er & Ec & Ep).
  assert (target_addr w1 rs1' off' = a) as Ea1 by (unfold target_addr, reg in *; by rewrite Er).
  destruct Hb as [B1 B2 B3 B4 B5 B6].
  assert (bare_access w1 (load_bytes ld) (target_addr w1 rs1' off')) as Hb1.
  { rewrite Ea1, En. split; try done; [by rewrite (use_sv_ext (w_cpu w))|].
    by apply Hk. }
  destruct (load_exec ld rd rs1' off' w1 Hl Hb1) as (w2 & Hld & R2 & S2).
  exists w1. eexists. split_and!; [exact Hst|exact Hld|done| |].
  - cbn. rewrite Er, Ea1, En. unfold a. by rewrite Hv.
  - intros x Hx Hn. cbn. by rewrite (same_store_bytes _ _ _ S2), Hother.
Qed.
End Bare.

(** A byte stored and loaded with sign extension on the sample machine. *)
Definition mem_cpu : rv_cpu rv32_tlb := set_reg 1 0x100 (set_reg 2 0x1FF Sample.cpu0).
Definition mem_machine : Sample.W := Sample.machine mem_cpu ∅ [].

Lemma mem_machine_wf : phys_wf (w_phys mem_machine).
Proof. apply Sample.memory_wf, Sample.empty_ok. Qed.

Lemma mem_machine_rw a f : lookup_frame (w_phys mem_machine) a = Some f → frame_area f = 1 →
  rw_word (w_phys mem_machine) a.
Proof. intros Hf Ha. exists f, (Sample.low_ram ∅). by rewrite Ha. Qed.

Lemma store_then_load_witness : ∃ w1 w2,
  instr_exec (rv32_instr_decode true (encode (Store SB 1 2 3))) (encode (Store SB 1 2 3)) mem_machine =
    Done (inr tt, w1) ∧
  instr_exec (rv32_instr_decode true (encode (Load LB 5 1 3))) (encode (Load LB 5 1 3)) w1 =
    Done (inr tt, w2) ∧ reg 5 (w_cpu w2) = 0xFFFFFFFF.
Proof.
  destruct (store_then_load true SB LB 1 2 3 5 1 3 mem_machine) as (w1 & w2 & H1 & H2 & _ & Hr & _);
    [by vm_compute|by vm_compute|reflexivity|reflexivity| | |].
  - split; [reflexivity|by vm_compute|reflexivity|reflexivity|apply mem_machine_wf|by eexists].
  - by eapply mem_machine_rw.
  - exists w1, w2. split; [exact H1|]. split; [exact H2|]. unfold reg. rewrite Hr. reflexivity.
Defined.


Section Reservations.
Context {T D : Type} `{FamilyLaws T D}.
Abbreviation W := (world T D).
Implicit Types w : W.

Abbreviation hart w := (mhartid (csr (w_cpu w))).







(** ** LR and SC without translation *)
Lemma word_zero_extend v : in_width 32 v → zero_extend_32_to_xlen v = v.
Proof.
  intros Hv. unfold zero_extend_32_to_xlen. rewrite (wrap_small 32 v Hv). apply ux_small.
  pose proof xlen_bounds. by eapply (in_width_mono 32); [lia|lia|].
Qed.








(** ** Atomic memory operations *)
Definition amo_result (op : amo_kind) (old src : Z) : Z :=
  match op with
  | SC | AMOSWAP => src
  | AMOADD => (old + src) mod 2 ^ 32
  | AMOXOR => Z.lxor old src
  | AMOAND => Z.land old src
  | AMOOR => Z.lor old src
  | AMOMIN => if sgn 32 src <? sgn 32 old then src else old
  | AMOMAX => if sgn 32 old <? sgn 32 src then src else old
  | AMOMINU => if src <? old then src else old
  | AMOMAXU => if old <? src then src else old
  end.

(** The loaded word as the destination register gets it: the unsigned minimum and
    maximum extend it with zeros. *)
Definition amo_loaded (op : amo_kind) (old : Z) : Z :=
  match op with AMOMINU | AMOMAXU => old | _ => sext old end.

(** The word the instruction combines with the loaded word. *)
Definition amo_operand (op : amo_kind) (rd rs2 old : Z) (c : rv_cpu T) : Z :=
  match op with
  | AMOSWAP => wrap 32 (reg rs2 c)
  | _ => if rd =? rs2 then old else wrap 32 (reg rs2 c)
  end.

Lemma expect_run {A} (m : exec W A) w v w' : m w = Done (inr v, w') → expect m w = Done (v, w').
Proof. intros E. unfold expect. by rewrite (bind_Done _ _ _ _ _ E). Qed.

(** A read of the word, then a write of it after a change of the registers. *)
Lemma amo_accesses a w : bare_access w 4 a → rw_word (w_phys w) a →
  amo_checks a 4 w = Done (inr tt, w) ∧
  ∃ w1, expect (rv_read_mem32 a false true) w = Done (value_at (w_phys w) a 4, w1) ∧ w_cpu w1 = w_cpu w ∧
    ∀ rs v, ∃ w2, expect (rv_write_mem32 a v true) (w1 <| w_cpu := (w_cpu w) <| regs := rs |> |>) = Done (tt, w2) ∧
      regs (w_cpu w2) = rs ∧ value_at (w_phys w2) a 4 = wrap 32 v ∧
      ∀ x, 0 ≤ x < PHYS_LIMIT → ¬ a ≤ x < a + 4 → byte_at (w_phys w2) x = byte_at (w_phys w) x.
Proof.
  intros Hb Hrw. assert (access_size 4) as Hn by (cbv; auto). split.
  { unfold amo_checks. rewrite (ebind_Done_inr _ _ _ _ _ (convert_throw_bare a true w (ba_off _ _ _ Hb))).
    rewrite (width_aligned 4 a Hn : IS_ALIGNED a 4 = _). by rewrite (ba_aligned _ _ _ Hb). }
  destruct (read_mem_bare 4 devmem_read32 a w Hn Hb) as (w1 & Hrd & S & R). exists w1.
  pose proof (read_rel_cpu _ _ R) as Ec. split; [by apply expect_run|]. split; [done|]. intros rs v.
  set (w1' := w1 <| w_cpu := _ |>).
  assert (bare_access w1' 4 a) as Hb1.
  { destruct Hb as [B1 B2 B3 B4 B5 B6]. split; try done; [by eapply same_store_wf|].
    change (w_phys w1') with (w_phys w1). by rewrite (same_store_lookup _ _ _ S). }
  destruct (write_mem_bare 4 devmem_write32 a v w1' Hn Hb1) as (w2 & Hwr & _ & _ & R2 & _ & Hby);
    [by eapply rw_word_same|].
  exists w2. split; [by apply expect_run|]. destruct (write_rel_cpu _ _ R2) as (Er & _).
  split; [done|]. split.
  - rewrite <- (le_join_bytes _ a 4 : _ = wrap 32 _). apply le_join_ext. intros k Hk.
    rewrite Hby by (apply (aligned_limit 4); [cbv; auto|apply Hb|apply Hb|lia]). by rewrite decide_True by lia.
  - intros x Hx Hnx. rewrite Hby, decide_False by done. apply (same_store_bytes _ _ _ S).
Qed.

Lemma amo_w_run ext f i w : let a := reg (Instr.rs1 i) (w_cpu w) in let old := value_at (w_phys w) a 4 in
  bare_access w 4 a → rw_word (w_phys w) a →
  ∃ w2, amo_w ext f i w = Done (inr tt, w2) ∧
    regs (w_cpu w2) = <[Instr.rd i := ext old]> (regs (w_cpu w)) ∧
    value_at (w_phys w2) a 4 =
      wrap 32 (f old (wrap 32 (reg (Instr.rs2 i) (set_reg (Instr.rd i) (ext old) (w_cpu w))))) ∧
    ∀ x, 0 ≤ x < PHYS_LIMIT → ¬ a ≤ x < a + 4 → byte_at (w_phys w2) x = byte_at (w_phys w) x.
Proof.
  intros a old Hb Hrw. destruct (amo_accesses a w Hb Hrw) as (Hck & w1 & Hrd & Ec & Hwr).
  unfold amo_w. rewrite (bind_Done _ _ _ _ _ eq_refl). fold a. cbv zeta.
  rewrite (ebind_Done_inr _ _ _ _ _ Hck), (bind_Done _ _ _ _ _ Hrd). fold old.
  rewrite (bind_Done _ _ _ _ _ eq_refl), (bind_Done _ _ _ _ _ eq_refl). cbn [w_cpu].
  destruct (Hwr (<[Instr.rd i := ext old]> (regs (w_cpu w)))
    (f old (wrap 32 (reg (Instr.rs2 i) (set_reg (Instr.rd i) (ext old) (w_cpu w))))))
    as (w2 & Hrun & Hr & Hv & Hby).
  exists w2. split_and!; [|done|done|done].
  rewrite Ec. exact (bind_Done _ (λ _, ok tt) _ _ _ Hrun).
Qed.

Lemma amoswap_run i w : let a := reg (Instr.rs1 i) (w_cpu w) in let old := value_at (w_phys w) a 4 in
  Instr.opcode i = Instr.rv_opcAMO → bare_access w 4 a → rw_word (w_phys w) a →
  ∃ w2, RvMemOps.rv_amoswap_w_instr i w = Done (inr tt, w2) ∧
    regs (w_cpu w2) = <[Instr.rd i := sign_extend_32_to_xlen old]> (regs (w_cpu w)) ∧
    value_at (w_phys w2) a 4 = wrap 32 (wrap 32 (reg (Instr.rs2 i) (w_cpu w))) ∧
    ∀ x, 0 ≤ x < PHYS_LIMIT → ¬ a ≤ x < a + 4 → byte_at (w_phys w2) x = byte_at (w_phys w) x.
Proof.
  intros a old Ho Hb Hrw. destruct (amo_accesses a w Hb Hrw) as (Hck & w1 & Hrd & Ec & Hwr).
  unfold RvMemOps.rv_amoswap_w_instr. rewrite Ho. do 2 rewrite (bind_Done _ _ _ _ _ eq_refl). fold a. cbv zeta.
  rewrite (ebind_Done_inr _ _ _ _ _ Hck), (bind_Done _ _ _ _ _ Hrd). fold old.
  rewrite (bind_Done _ _ _ _ _ eq_refl).
  destruct (Hwr (regs (w_cpu w)) (wrap 32 (reg (Instr.rs2 i) (w_cpu w)))) as (w2 & Hrun & Hr & Hv & Hby).
  assert (w1 <| w_cpu := (w_cpu w) <| regs := regs (w_cpu w) |> |> = w1) as Ew
    by (destruct w1; cbn in *; subst; by destruct (w_cpu w)).
  rewrite Ew, <- Ec in Hrun. rewrite (bind_Done _ _ _ _ _ Hrun). eexists. split; [reflexivity|].
  cbn -[value_at]. by rewrite Hr.
Qed.

(** What an AMO does to the registers and to memory. *)
Definition amo_done op rd rs1 rs2 w (m : outcome ((rv_exc + unit) * W)) : Prop :=
  let a := reg rs1 (w_cpu w) in let old := value_at (w_phys w) a 4 in
  ∃ w', m = Done (inr tt, w') ∧ regs (w_cpu w') = <[rd := amo_loaded op old]> (regs (w_cpu w)) ∧
    value_at (w_phys w') a 4 = amo_result op old (amo_operand op rd rs2 old (w_cpu w)) ∧
    ∀ x, 0 ≤ x < PHYS_LIMIT → ¬ a ≤ x < a + 4 → byte_at (w_phys w') x = byte_at (w_phys w) x.

Lemma amo_fields op rd rs1 rs2 aqrl : let i := Amo op rd rs1 rs2 aqrl in instr_wf i →
  Instr.rs1 (encode i) = rs1 ∧ Instr.rs2 (encode i) = rs2 ∧ Instr.rd (encode i) = rd.
Proof. intros i Hi. unfold Instr.rs1, Instr.rs2, Instr.rd, i. by fields. Qed.

(** The low word of the destination register is the loaded word. *)
Lemma amo_loaded_low op old : in_width 32 old → wrap 32 (amo_loaded op old) = old.
Proof.
  intros Hold. assert (wrap 32 (sext old) = old) as Es.
  { rewrite <- (wrap_small 32 old Hold) at 2. rewrite <- (wrap_sgn 32 old) by lia.
    unfold sext, wrap, MX. by destruct xlen_cases as [-> | ->]; Z.to_euclidean_division_equations; lia. }
  destruct op; cbn [amo_loaded]; try done; by apply wrap_small.
Qed.

Lemma amo_common ext f op rd rs1 rs2 aqrl w : let i := Amo op rd rs1 rs2 aqrl in
  let a := reg rs1 (w_cpu w) in let old := value_at (w_phys w) a 4 in
  let src := if rd =? rs2 then old else wrap 32 (reg rs2 (w_cpu w)) in
  instr_wf i → op ≠ AMOSWAP → bare_access w 4 a → rw_word (w_phys w) a →
  ext old = amo_loaded op old →
  (in_width 32 old → in_width 32 src → wrap 32 (f old src) = amo_result op old src) →
  amo_done op rd rs1 rs2 w (amo_w ext f (encode i) w).
Proof.
  intros i a old src Hi Hop Hb Hrw Eext Ef. destruct (amo_fields op rd rs1 rs2 aqrl Hi) as (E1 & E2 & Ed).
  assert (in_width 32 old) as Hold by apply (value_width _ _ 4), Hb.
  assert (in_width 32 src) as Hsrc by (unfold src; destruct (rd =? rs2); [done|apply wrap_range; lia]).
  fold i in E1, E2, Ed.
  destruct (amo_w_run ext f (encode i) w) as (w2 & Hrun & Hr2 & Hv & Hby); rewrite ?E1; try done.
  rewrite E1 in Hr2, Hv, Hby. rewrite Ed in Hr2, Hv. rewrite E2 in Hv.
  fold a in Hv, Hby, Hr2. fold old in Hv, Hr2. rewrite Eext in Hv, Hr2.
  exists w2. split_and!; try done. fold a old. rewrite Hv, reg_set_reg.
  replace (wrap 32 (if decide (rd = rs2) then amo_loaded op old else reg rs2 (w_cpu w))) with src
    by (unfold src; destruct (Z.eqb_spec rd rs2); case_decide; try done; by rewrite amo_loaded_low).
  rewrite Ef by done. f_equal. unfold amo_operand. by destruct op.
Qed.

(** With translation off, an AMO on a word writes the loaded word, extended,
    to its destination and stores the combination of the loaded word with its
    operand, changing no other byte.  The operand is the second source register,
    but for the operations other than AMOSWAP with [rd = rs2] the code reads that
    register after overwriting it, so the operand is the loaded word itself. *)
Theorem amo_effect sp op rd rs1 rs2 aqrl w :
  let i := Amo op rd rs1 rs2 aqrl in let a := reg rs1 (w_cpu w) in let old := value_at (w_phys w) a 4 in
  instr_wf i → op ≠ SC → bare_access w 4 a → rw_word (w_phys w) a →
  ∃ w', instr_exec (instr_decode sp (encode i)) (encode i) w = Done (inr tt, w') ∧
    regs (w_cpu w') = <[rd := amo_loaded op old]> (regs (w_cpu w)) ∧
    value_at (w_phys w') a 4 = amo_result op old (amo_operand op rd rs2 old (w_cpu w)) ∧
    ∀ x, 0 ≤ x < PHYS_LIMIT → ¬ a ≤ x < a + 4 → byte_at (w_phys w') x = byte_at (w_phys w) x.
Proof.
  intros i a old Hi Hop Hb Hrw. rewrite family_decodes by done.
  assert (in_width 32 old) as Hold by apply (value_width _ _ 4), Hb.
  pose proof (word_zero_extend old Hold) as Ez.
  destruct op; try done; cbn [func_of i instr_exec].
  2-9: eapply amo_common; try done; intros Ho Hs; cbn [amo_result];
    unfold signed_min, signed_max, unsigned_min, unsigned_max;
    first [by apply wrap_idemp|apply wrap_small; repeat case_match; auto with widths zarith].
  - destruct (amo_fields AMOSWAP rd rs1 rs2 aqrl Hi) as (E1 & E2 & Ed). fold i in E1, E2, Ed.
    destruct (amoswap_run (encode i) w) as (w2 & Hrun & Hr2 & Hv & Hby); rewrite ?E1; try done;
      [by rewrite encode_opcode|].
    rewrite E1 in Hr2, Hv, Hby. rewrite Ed in Hr2. rewrite E2 in Hv. fold a in Hr2, Hv, Hby. fold old in Hr2.
    exists w2. split_and!; try done. by rewrite Hv, wrap_idemp by lia.
Qed.
End Reservations.

Definition atomic_cpu : rv_cpu rv32_tlb := set_reg 1 0x100 (set_reg 2 7 Sample.cpu0).
Definition atomic_machine : Sample.W := Sample.machine atomic_cpu (store_le ∅ 0x100 0x28 4) [].

Lemma atomic_machine_access : bare_access atomic_machine 4 0x100 ∧ rw_word (w_phys atomic_machine) 0x100.
Proof.
  split.
  - split; [reflexivity|by vm_compute|reflexivity|reflexivity|apply Sample.memory_wf|by eexists].
    apply Sample.store_le_ok, Sample.empty_ok.
  - eexists _, (Sample.low_ram (store_le ∅ 0x100 0x28 4)). by split_and!; [reflexivity|reflexivity|].
Qed.


(** AMOADD with distinct registers adds; with [rd = rs2] it doubles the word. *)
Lemma amo_effect_witness : ∃ w1 w2,
  instr_exec (rv32_instr_decode true (encode (Amo AMOADD 5 1 2 0))) (encode (Amo AMOADD 5 1 2 0)) atomic_machine =
    Done (inr tt, w1) ∧ value_at (w_phys w1) 0x100 4 = 0x2F ∧
  instr_exec (rv32_instr_decode true (encode (Amo AMOADD 2 1 2 0))) (encode (Amo AMOADD 2 1 2 0)) atomic_machine =
    Done (inr tt, w2) ∧ value_at (w_phys w2) 0x100 4 = 0x50.
Proof.
  destruct atomic_machine_access as [Ha Hrw].
  destruct (amo_effect true AMOADD 5 1 2 0 atomic_machine) as (w1 & H1 & _ & V1 & _);
    [by vm_compute|done|exact Ha|exact Hrw|].
  destruct (amo_effect true AMOADD 2 1 2 0 atomic_machine) as (w2 & H2 & _ & V2 & _);
    [by vm_compute|done|exact Ha|exact Hrw|].
  exists w1, w2. split; [exact H1|]. split; [exact V1|]. split; [exact H2|exact V2].
Defined.
