(* ===== verification/R4kTypes.v ===== *)
(** * Data of the MIPS R4000 (mips_r4000/cpu.h)

    The record has the source's fields but [bps] (the debugger's code
    breakpoints, which the processor never reads).  Arrays are finite maps whose
    absent entries are zero, the value [r4k_init] gives them; every index is a
    bit-field or is tested before it is used.  Registers are 64 bits wide; [lo] is
    the member of that name of the union [reg64_t].

    A shift of a negative signed value to the left, and [1 << 31], have the value
    the two's complement representation gives them, as with the compilers the
    build supports. *)

From S2P Require Import Prelude Machine.

Definition R4K_REG_COUNT : Z := 32.
Definition TLB_ENTRIES : Z := 48.
Definition INTR_COUNT : Z := 8.
Definition TLB_PHYSMASK : Z := 0x780000000.

(** ** Exceptions *)
Inductive r4k_exc :=
  | r4k_excInt
  | r4k_excMod
  | r4k_excTLBL
  | r4k_excTLBS
  | r4k_excAdEL
  | r4k_excAdES
  | r4k_excIBE
  | r4k_excDBE
  | r4k_excSys
  | r4k_excBp
  | r4k_excRI
  | r4k_excCpU
  | r4k_excOv
  | r4k_excTr
  | r4k_excVCEI
  | r4k_excFPE
  | r4k_excWATCH
  | r4k_excVCED
  | r4k_excTLBR
  | r4k_excTLBLR
  | r4k_excTLBSR
  | r4k_excNone
  | r4k_excJump
  | r4k_excAddrError
  | r4k_excTLB
  | r4k_excReset.

#[export] Instance r4k_exc_eq_dec : EqDecision r4k_exc.
Proof. solve_decision. Defined.

Definition exc_no (e : r4k_exc) : Z :=
  match e with
  | r4k_excInt => 0 | r4k_excMod => 1 | r4k_excTLBL => 2 | r4k_excTLBS => 3
  | r4k_excAdEL => 4 | r4k_excAdES => 5 | r4k_excIBE => 6 | r4k_excDBE => 7
  | r4k_excSys => 8 | r4k_excBp => 9 | r4k_excRI => 10 | r4k_excCpU => 11
  | r4k_excOv => 12 | r4k_excTr => 13 | r4k_excVCEI => 14 | r4k_excFPE => 15
  | r4k_excWATCH => 23 | r4k_excVCED => 31 | r4k_excTLBR => 64 | r4k_excTLBLR => 65
  | r4k_excTLBSR => 66 | r4k_excNone => 128 | r4k_excJump => 129 | r4k_excAddrError => 130
  | r4k_excTLB => 131 | r4k_excReset => 132
  end.

Definition is_exc (e e' : r4k_exc) : bool := bool_decide (e = e').

(** ** Data *)
Record tlb_rec := mk_tlb_rec {
  pfn : Z;
  cohh : Z;
  dirty : bool;
  valid : bool
}.

(** [pg0] and [pg1] are the two elements of [pg]. *)
Record tlb_entry := mk_tlb_entry {
  mask : Z;
  vpn2 : Z;
  global : bool;
  asid : Z;
  pg0 : tlb_rec;
  pg1 : tlb_rec
}.

Inductive branch_state := BRANCH_NONE | BRANCH_PASSED | BRANCH_COND.

#[export] Instance branch_state_eq_dec : EqDecision branch_state.
Proof. solve_decision. Defined.

Definition branch_is (b b' : branch_state) : bool := bool_decide (b = b').

(** [cpu->branch--] for a value above [BRANCH_NONE]. *)
Definition branch_pred (b : branch_state) : branch_state :=
  match b with BRANCH_COND => BRANCH_PASSED | _ => BRANCH_NONE end.

Record r4k_cpu := mk_r4k {
  procno : Z;
  stdby : bool;
  regs : gmap Z Z;
  cp0 : gmap Z Z;
  fpregs : gmap Z Z;
  loreg : Z;
  hireg : Z;
  pc : Z;
  pc_next : Z;
  tlb : gmap Z tlb_entry;
  tlb_hint : Z;
  old_regs : gmap Z Z;
  old_cp0 : gmap Z Z;
  old_loreg : Z;
  old_hireg : Z;
  excaddr : Z;
  branch : branch_state;
  llbit : bool;
  lladdr : Z;
  waddr : Z;
  wexcaddr : Z;
  wpending : bool;
  k_cycles : Z;
  u_cycles : Z;
  w_cycles : Z;
  tlb_refill : Z;
  tlb_invalid : Z;
  tlb_modified : Z;
  intr : gmap Z Z
}.

#[export] Instance eta_r4k_cpu : Eta r4k_cpu := λ c,
  mk_r4k
    (procno c) (stdby c) (regs c) (cp0 c) (fpregs c) (loreg c) (hireg c)
    (pc c) (pc_next c) (tlb c) (tlb_hint c) (old_regs c) (old_cp0 c) (old_loreg c)
    (old_hireg c) (excaddr c) (branch c) (llbit c) (lladdr c) (waddr c) (wexcaddr c)
    (wpending c) (k_cycles c) (u_cycles c) (w_cycles c) (tlb_refill c) (tlb_invalid c) (tlb_modified c)
    (intr c).
#[export] Instance set_procno : SetField procno := ltac:(derive_set_field).
#[export] Instance set_stdby : SetField stdby := ltac:(derive_set_field).
#[export] Instance set_regs : SetField regs := ltac:(derive_set_field).
#[export] Instance set_cp0 : SetField cp0 := ltac:(derive_set_field).
#[export] Instance set_fpregs : SetField fpregs := ltac:(derive_set_field).
#[export] Instance set_loreg : SetField loreg := ltac:(derive_set_field).
#[export] Instance set_hireg : SetField hireg := ltac:(derive_set_field).
#[export] Instance set_pc : SetField pc := ltac:(derive_set_field).
#[export] Instance set_pc_next : SetField pc_next := ltac:(derive_set_field).
#[export] Instance set_tlb : SetField tlb := ltac:(derive_set_field).
#[export] Instance set_tlb_hint : SetField tlb_hint := ltac:(derive_set_field).
#[export] Instance set_old_regs : SetField old_regs := ltac:(derive_set_field).
#[export] Instance set_old_cp0 : SetField old_cp0 := ltac:(derive_set_field).
#[export] Instance set_old_loreg : SetField old_loreg := ltac:(derive_set_field).
#[export] Instance set_old_hireg : SetField old_hireg := ltac:(derive_set_field).
#[export] Instance set_excaddr : SetField excaddr := ltac:(derive_set_field).
#[export] Instance set_branch : SetField branch := ltac:(derive_set_field).
#[export] Instance set_llbit : SetField llbit := ltac:(derive_set_field).
#[export] Instance set_lladdr : SetField lladdr := ltac:(derive_set_field).
#[export] Instance set_waddr : SetField waddr := ltac:(derive_set_field).
#[export] Instance set_wexcaddr : SetField wexcaddr := ltac:(derive_set_field).
#[export] Instance set_wpending : SetField wpending := ltac:(derive_set_field).
#[export] Instance set_k_cycles : SetField k_cycles := ltac:(derive_set_field).
#[export] Instance set_u_cycles : SetField u_cycles := ltac:(derive_set_field).
#[export] Instance set_w_cycles : SetField w_cycles := ltac:(derive_set_field).
#[export] Instance set_tlb_refill : SetField tlb_refill := ltac:(derive_set_field).
#[export] Instance set_tlb_invalid : SetField tlb_invalid := ltac:(derive_set_field).
#[export] Instance set_tlb_modified : SetField tlb_modified := ltac:(derive_set_field).
#[export] Instance set_intr : SetField intr := ltac:(derive_set_field).

(** ** Registers *)
Definition u64 (x : Z) : Z := wrap 64 x.
Definition lo (x : Z) : Z := wrap 32 x.

Definition reg (r : Z) (c : r4k_cpu) : Z := default 0 (regs c !! r).
Definition set_reg (r v : Z) (c : r4k_cpu) : r4k_cpu := c <| regs := <[r := v]> (regs c) |>.
Definition cp0r (r : Z) (c : r4k_cpu) : Z := default 0 (cp0 c !! r).
Definition set_cp0r (r v : Z) (c : r4k_cpu) : r4k_cpu := c <| cp0 := <[r := v]> (cp0 c) |>.
Definition upd_cp0 (r : Z) (f : Z → Z) (c : r4k_cpu) : r4k_cpu := set_cp0r r (f (cp0r r c)) c.

Definition zero_rec : tlb_rec := mk_tlb_rec 0 0 false false.
Definition zero_entry : tlb_entry := mk_tlb_entry 0 0 false 0 zero_rec zero_rec.
Definition tlb_at (i : Z) (c : r4k_cpu) : tlb_entry := default zero_entry (tlb c !! i).

(** ** Coprocessor 0 *)
Definition cp0_Index : Z := 0.
Definition cp0_Random : Z := 1.
Definition cp0_EntryLo0 : Z := 2.
Definition cp0_EntryLo1 : Z := 3.
Definition cp0_Context : Z := 4.
Definition cp0_PageMask : Z := 5.
Definition cp0_Wired : Z := 6.
Definition cp0_Res1 : Z := 7.
Definition cp0_BadVAddr : Z := 8.
Definition cp0_Count : Z := 9.
Definition cp0_EntryHi : Z := 10.
Definition cp0_Compare : Z := 11.
Definition cp0_Status : Z := 12.
Definition cp0_Cause : Z := 13.
Definition cp0_EPC : Z := 14.
Definition cp0_PRId : Z := 15.
Definition cp0_Config : Z := 16.
Definition cp0_LLAddr : Z := 17.
Definition cp0_WatchLo : Z := 18.
Definition cp0_WatchHi : Z := 19.
Definition cp0_XContext : Z := 20.
Definition cp0_Res2 : Z := 21.
Definition cp0_Res3 : Z := 22.
Definition cp0_Res4 : Z := 23.
Definition cp0_Res5 : Z := 24.
Definition cp0_Res6 : Z := 25.
Definition cp0_ECC : Z := 26.
Definition cp0_CacheErr : Z := 27.
Definition cp0_TagLo : Z := 28.
Definition cp0_TagHi : Z := 29.
Definition cp0_ErrorEPC : Z := 30.
Definition cp0_Res7 : Z := 31.

Definition cp0_index_index_mask : Z := 0x0000003f.
Definition cp0_index_p_shift : Z := 31.
Definition cp0_random_random_mask : Z := 0x0000003f.
Definition cp0_index_index (c : r4k_cpu) : Z := Z.land (cp0r cp0_Index c) cp0_index_index_mask.
Definition cp0_random_random (c : r4k_cpu) : Z := Z.land (cp0r cp0_Random c) cp0_random_random_mask.

Definition cp0_status_ie_mask : Z := 0x00000001.
Definition cp0_status_exl_mask : Z := 0x00000002.
Definition cp0_status_erl_mask : Z := 0x00000004.
Definition cp0_status_ksu_mask : Z := 0x00000018.
Definition cp0_status_ux_mask : Z := 0x00000020.
Definition cp0_status_sx_mask : Z := 0x00000040.
Definition cp0_status_kx_mask : Z := 0x00000080.
Definition cp0_status_ts_mask : Z := 0x00200000.
Definition cp0_status_bev_mask : Z := 0x00400000.
Definition cp0_status_cu0_mask : Z := 0x10000000.
Definition cp0_status_cu1_mask : Z := 0x20000000.
Definition cp0_status_cu2_mask : Z := 0x40000000.
Definition cp0_status_ie (c : r4k_cpu) : Z := Z.shiftr (Z.land (cp0r cp0_Status c) cp0_status_ie_mask) 0.
Definition cp0_status_exl (c : r4k_cpu) : Z := Z.shiftr (Z.land (cp0r cp0_Status c) cp0_status_exl_mask) 1.
Definition cp0_status_erl (c : r4k_cpu) : Z := Z.shiftr (Z.land (cp0r cp0_Status c) cp0_status_erl_mask) 2.
Definition cp0_status_ksu (c : r4k_cpu) : Z := Z.shiftr (Z.land (cp0r cp0_Status c) cp0_status_ksu_mask) 3.
Definition cp0_status_ux (c : r4k_cpu) : Z := Z.shiftr (Z.land (cp0r cp0_Status c) cp0_status_ux_mask) 5.
Definition cp0_status_sx (c : r4k_cpu) : Z := Z.shiftr (Z.land (cp0r cp0_Status c) cp0_status_sx_mask) 6.
Definition cp0_status_kx (c : r4k_cpu) : Z := Z.shiftr (Z.land (cp0r cp0_Status c) cp0_status_kx_mask) 7.
Definition cp0_status_ts (c : r4k_cpu) : Z := Z.shiftr (Z.land (cp0r cp0_Status c) cp0_status_ts_mask) 21.
Definition cp0_status_bev (c : r4k_cpu) : Z := Z.shiftr (Z.land (cp0r cp0_Status c) cp0_status_bev_mask) 22.
Definition cp0_status_cu0 (c : r4k_cpu) : Z := Z.shiftr (Z.land (cp0r cp0_Status c) cp0_status_cu0_mask) 28.
Definition cp0_status_cu1 (c : r4k_cpu) : Z := Z.shiftr (Z.land (cp0r cp0_Status c) cp0_status_cu1_mask) 29.
Definition cp0_status_cu2 (c : r4k_cpu) : Z := Z.shiftr (Z.land (cp0r cp0_Status c) cp0_status_cu2_mask) 30.

Definition cp0_entryhi_asid_mask : Z := 0x00000000000000ff.
Definition cp0_entryhi_vpn2_mask : Z := 0xc00000ffffffe000.
Definition cp0_entryhi_asid (c : r4k_cpu) : Z := Z.land (cp0r cp0_EntryHi c) cp0_entryhi_asid_mask.

(** The fields of EntryLo0 and EntryLo1, the register [r]. *)
Definition cp0_entrylo_g_mask : Z := 0x00000001.
Definition cp0_entrylo_v_mask : Z := 0x00000002.
Definition cp0_entrylo_d_mask : Z := 0x00000004.
Definition cp0_entrylo_c_mask : Z := 0x00000038.
Definition cp0_entrylo_pfn_mask : Z := 0x3fffffc0.
Definition cp0_entrylo_g (r : Z) (c : r4k_cpu) : Z := Z.shiftr (Z.land (cp0r r c) cp0_entrylo_g_mask) 0.
Definition cp0_entrylo_v (r : Z) (c : r4k_cpu) : Z := Z.shiftr (Z.land (cp0r r c) cp0_entrylo_v_mask) 1.
Definition cp0_entrylo_d (r : Z) (c : r4k_cpu) : Z := Z.shiftr (Z.land (cp0r r c) cp0_entrylo_d_mask) 2.
Definition cp0_entrylo_c (r : Z) (c : r4k_cpu) : Z := Z.shiftr (Z.land (cp0r r c) cp0_entrylo_c_mask) 3.
Definition cp0_entrylo_pfn (r : Z) (c : r4k_cpu) : Z := Z.shiftr (Z.land (cp0r r c) cp0_entrylo_pfn_mask) 6.

Definition cp0_context_res1_mask : Z := 0x000000000000000f.
Definition cp0_context_badvpn2_mask : Z := 0x00000000007ffff0.
Definition cp0_context_ptebase_mask : Z := 0xffffffffff800000.
Definition cp0_context_addr_shift : Z := 9.
Definition cp0_pagemask_mask_mask : Z := 0x01ffe000.
Definition cp0_cause_exccode_mask : Z := 0x0000007c.
Definition cp0_cause_exccode_shift : Z := 2.
Definition cp0_cause_ip0_mask : Z := 0x00000100.
Definition cp0_cause_ip1_mask : Z := 0x00000200.
Definition cp0_cause_ip_mask : Z := 0x0000ff00.
Definition cp0_cause_ip0_shift : Z := 8.
Definition cp0_cause_ip7_shift : Z := 15.
Definition cp0_cause_ce_mask : Z := 0x30000000.
Definition cp0_cause_ce_cu1 : Z := 0x10000000.
Definition cp0_cause_ce_cu2 : Z := 0x20000000.
Definition cp0_cause_bd_mask : Z := 0x80000000.
Definition cp0_watchlo_w_mask : Z := 0x00000001.
Definition cp0_watchlo_r_mask : Z := 0x00000002.
Definition cp0_watchlo_res_mask : Z := 0x00000004.
Definition cp0_watchlo_paddr0_mask : Z := 0xfffffff8.
Definition cp0_watchlo_paddr0_shift : Z := 3.
Definition cp0_watchlo_w (c : r4k_cpu) : Z := Z.land (cp0r cp0_WatchLo c) cp0_watchlo_w_mask.
Definition cp0_watchlo_r (c : r4k_cpu) : Z := Z.shiftr (Z.land (cp0r cp0_WatchLo c) cp0_watchlo_r_mask) 1.
Definition cp0_watchlo_paddr0 (c : r4k_cpu) : Z :=
  Z.shiftr (Z.land (cp0r cp0_WatchLo c) cp0_watchlo_paddr0_mask) cp0_watchlo_paddr0_shift.
Definition cp0_watchhi_paddr1_mask : Z := 0x0000000f.
Definition cp0_watchhi_res_mask : Z := 0xfffffff0.
Definition cp0_watchhi_paddr1 (c : r4k_cpu) : Z := Z.land (cp0r cp0_WatchHi c) cp0_watchhi_paddr1_mask.
Definition cp0_ecc_ecc_mask : Z := 0x000000ff.
Definition cp0_xcontext_res1_mask : Z := 0x000000000000000f.
Definition cp0_xcontext_badvpn2_mask : Z := 0x000000007ffffff8.
Definition cp0_xcontext_ptebase_mask : Z := 0xfffffffe00000000.
Definition cp0_xcontext_addr_shift : Z := 9.

(** ** Modes (cpu.c) *)
Definition CPU_TLB_SHUTDOWN (c : r4k_cpu) : bool := cp0_status_ts c =? 1.
Definition CPU_USER_MODE (c : r4k_cpu) : bool :=
  (cp0_status_ksu c =? 2) && negb (truthy (cp0_status_exl c)) && negb (truthy (cp0_status_erl c)).
Definition CPU_SUPERVISOR_MODE (c : r4k_cpu) : bool :=
  (cp0_status_ksu c =? 1) && negb (truthy (cp0_status_exl c)) && negb (truthy (cp0_status_erl c)).
Definition CPU_KERNEL_MODE (c : r4k_cpu) : bool :=
  (cp0_status_ksu c =? 0) || truthy (cp0_status_exl c) || truthy (cp0_status_erl c).
Definition CP0_USABLE (c : r4k_cpu) : bool := truthy (cp0_status_cu0 c) || CPU_KERNEL_MODE c.
Definition CPU_64BIT_MODE (c : r4k_cpu) : bool :=
  (CPU_KERNEL_MODE c && truthy (cp0_status_kx c)) ||
  (CPU_SUPERVISOR_MODE c && truthy (cp0_status_sx c)) ||
  (CPU_USER_MODE c && truthy (cp0_status_ux c)).
Definition CPU_64BIT_INSTRUCTION (c : r4k_cpu) : bool :=
  CPU_KERNEL_MODE c || (CPU_SUPERVISOR_MODE c && truthy (cp0_status_sx c)) ||
  (CPU_USER_MODE c && truthy (cp0_status_ux c)).

(** ** Sign extension (cpu.c) *)
Definition SBIT8 : Z := 0x80.
Definition SBIT16 : Z := 0x8000.
Definition SBIT32 : Z := 0x80000000.
Definition SBIT64 : Z := 0x8000000000000000.

Definition sign_extend_16_32 (val : Z) : Z :=
  if truthy (Z.land val SBIT16) then Z.lor val 0xffff0000 else Z.land val 0x0000ffff.
Definition sign_extend_8_64 (val : Z) : Z :=
  if truthy (Z.land val SBIT8) then Z.lor val 0xffffffffffffff00 else Z.land val 0x00000000000000ff.
Definition sign_extend_16_64 (val : Z) : Z :=
  if truthy (Z.land val SBIT16) then Z.lor val 0xffffffffffff0000 else Z.land val 0x000000000000ffff.
Definition sign_extend_32_64 (val : Z) : Z :=
  if truthy (Z.land val SBIT32) then Z.lor val 0xffffffff00000000 else Z.land val 0x00000000ffffffff.

(** ** Fields of an instruction ([r4k_instr_t], little-endian layout) *)
Definition f_imm (i : Z) : Z := ubits i 0 16.
Definition f_target (i : Z) : Z := ubits i 0 26.
Definition f_func (i : Z) : Z := ubits i 0 6.
Definition f_sa (i : Z) : Z := ubits i 6 5.
Definition f_rd (i : Z) : Z := ubits i 11 5.
Definition f_rt (i : Z) : Z := ubits i 16 5.
Definition f_rs (i : Z) : Z := ubits i 21 5.
Definition f_opcode (i : Z) : Z := ubits i 26 6.
Definition f_cop_func (i : Z) : Z := ubits i 0 8.

Definition TARGET_SHIFT : Z := 2.
Definition TARGET_COMB : Z := 0xfffffffff0000000.

(** [((int64_t) sign_extend_16_64(instr.i.imm)) << TARGET_SHIFT] *)
Definition branch_offset (i : Z) : Z := Z.shiftl (sgn 64 (sign_extend_16_64 (f_imm i))) TARGET_SHIFT.

(** ** Reservations (cpu.c: [r4k_sc_access]) *)
Definition r4k_sc_access (addr size : Z) (c : r4k_cpu) : bool * r4k_cpu :=
  let hit := lladdr c =? ALIGN_DOWN addr 64 in
  (hit, if hit then c <| llbit := false |> else c).

#[export] Instance r4k_core : Core r4k_cpu := {|
  core_number := procno;
  core_sc_access := r4k_sc_access
|}.

(** ** Creation and program counter *)
Definition r4k_set_pc (value : Z) (c : r4k_cpu) : r4k_cpu :=
  c <| pc := value |> <| pc_next := u64 (value + 4) |>.

Definition HARD_RESET_STATUS : Z := Z.lor cp0_status_erl_mask cp0_status_bev_mask.
Definition HARD_RESET_START_ADDRESS : Z := 0xffffffffbfc00000.
Definition HARD_RESET_PROC_ID : Z := 0x0000000000000400.
Definition HARD_RESET_CAUSE : Z := 0.
Definition HARD_RESET_WATCHLO : Z := 0.
Definition HARD_RESET_WATCHHI : Z := 0.
Definition HARD_RESET_CONFIG : Z := 0.
Definition HARD_RESET_RANDOM : Z := 47.
Definition HARD_RESET_WIRED : Z := 0.

(** The structure after [memset]. *)
Definition zero_cpu : r4k_cpu :=
  mk_r4k 0 false ∅ ∅ ∅ 0 0 0 0 ∅ 0 ∅ ∅ 0 0 0 BRANCH_NONE false 0 0 0 false 0 0 0 0 0 0 ∅.

Definition r4k_init (no : Z) : r4k_cpu :=
  let c := zero_cpu <| procno := no |> in
  let c := r4k_set_pc HARD_RESET_START_ADDRESS c in
  let c := set_cp0r cp0_Config HARD_RESET_CONFIG c in
  let c := set_cp0r cp0_Random HARD_RESET_RANDOM c in
  let c := set_cp0r cp0_Wired HARD_RESET_WIRED c in
  let c := set_cp0r cp0_PRId HARD_RESET_PROC_ID c in
  let c := set_cp0r cp0_Status HARD_RESET_STATUS c in
  let c := set_cp0r cp0_Cause HARD_RESET_CAUSE c in
  let c := set_cp0r cp0_WatchLo HARD_RESET_WATCHLO c in
  set_cp0r cp0_WatchHi HARD_RESET_WATCHHI c.

(** ** Interrupt lines *)
Definition r4k_interrupt_up (no : Z) : st r4k_cpu unit :=
  c_assert (no <? INTR_COUNT);;
  modify (λ c, upd_cp0 cp0_Cause (λ v, Z.lor v (Z.shiftl 1 (cp0_cause_ip0_shift + no))) c);;
  modify (λ c, c <| intr := <[no := u64 (default 0 (intr c !! no) + 1)]> (intr c) |>).

(** The mask is a negative [int], so the upper half of the register is kept. *)
Definition r4k_interrupt_down (no : Z) : st r4k_cpu unit :=
  c_assert (no <? INTR_COUNT);;
  modify (λ c, upd_cp0 cp0_Cause
    (λ v, Z.land v (c_not 64 (Z.shiftl 1 (cp0_cause_ip0_shift + no)))) c).
