(* ===== verification/R4kTlb.v ===== *)
(** * Address translation of the R4000 (mips_r4000/cpu.c)

    Translation yields an exception and the physical address, an output
    parameter in the source: [None] means that the function returned without
    writing it.  A caller that reads it then has no defined behaviour. *)

From S2P Require Import Prelude Machine R4kTypes.

Abbreviation C := r4k_cpu.

(** ** Segments *)
Definition USEG_MASK : Z := 0x80000000.
Definition USEG_BITS : Z := 0x00000000.
Definition XUSEG_MASK : Z := 0xffffff0000000000.
Definition XUSEG_BITS : Z := 0x0000000000000000.
Definition SSEG_MASK : Z := 0xe0000000.
Definition SSEG_BITS : Z := 0xc0000000.
Definition XSSEG_MASK : Z := 0xffffff0000000000.
Definition XSSEG_BITS : Z := 0xc000000000000000.
Definition CSSEG_MASK : Z := 0xffffffffe0000000.
Definition CSSEG_BITS : Z := 0xffffffffc0000000.
Definition KSEG0_MASK : Z := 0xe0000000.
Definition KSEG0_BITS : Z := 0x80000000.
Definition CKSEG0_MASK : Z := 0xffffffffe0000000.
Definition CKSEG0_BITS : Z := 0xffffffff80000000.
Definition KSEG1_MASK : Z := 0xe0000000.
Definition KSEG1_BITS : Z := 0xa0000000.
(** [UINT32_C] of a 64-bit constant does not narrow it. *)
Definition CKSEG1_MASK : Z := 0xffffffffe0000000.
Definition CKSEG1_BITS : Z := 0xffffffffa0000000.
Definition KSEG3_MASK : Z := 0xe0000000.
Definition KSEG3_BITS : Z := 0xe0000000.
Definition CKSEG3_MASK : Z := 0xffffffffe0000000.
Definition CKSEG3_BITS : Z := 0xffffffffe0000000.
Definition XKSSEG_MASK : Z := 0xffffff0000000000.
Definition XKSSEG_BITS : Z := 0x4000000000000000.
Definition XKPHYS_MASK : Z := 0xc000000000000000.
Definition XKPHYS_BITS : Z := 0x8000000000000000.
Definition XKSEG_MASK : Z := 0xffffff0080000000.
Definition XKSEG_BITS : Z := 0xc000000000000000.

Definition in_seg (addr mask bits : Z) : bool := Z.land addr mask =? bits.

(** ** The translation lookaside buffer *)
Inductive tlb_look_t := TLBL_OK | TLBL_REFILL | TLBL_INVALID | TLBL_MODIFIED.

(** Does the entry translate the address? *)
Definition tlb_matches (e : tlb_entry) (virt asid_now : Z) : bool :=
  (Z.land (lo virt) (mask e) =? vpn2 e) && (global e || (asid e =? asid_now)).

Definition tlb_smask (e : tlb_entry) : Z := Z.lor (Z.shiftr (mask e) 1) TLB_PHYSMASK.

(** The half of the pair that holds the address. *)
Definition tlb_subpage (e : tlb_entry) (virt : Z) : tlb_rec :=
  if Z.land (lo virt) (mask e) <? Z.land (lo virt) (tlb_smask e) then pg1 e else pg0 e.

(** The complement is taken at 64 bits, the width of [ptr36_t]. *)
Definition tlb_phys (e : tlb_entry) (virt : Z) : Z :=
  Z.lor (Z.land (lo virt) (c_not 64 (tlb_smask e))) (Z.land (pfn (tlb_subpage e virt)) (tlb_smask e)).

(** What a matching entry makes of the access. *)
Definition tlb_use (e : tlb_entry) (virt : Z) (wr : bool) : tlb_look_t * option Z :=
  let pg := tlb_subpage e virt in
  if negb (valid pg) then (TLBL_INVALID, None)
  else if wr && negb (dirty pg) then (TLBL_MODIFIED, None)
  else (TLBL_OK, Some (tlb_phys e virt)).

(** The search from round [i], [n] rounds to go; only a hit moves the hint. *)
Fixpoint tlb_search (n : nat) (i virt : Z) (wr : bool) : st C (tlb_look_t * option Z) :=
  match n with
  | O => mret (TLBL_REFILL, None)
  | S n' =>
      c ← get_st;
      let e := tlb_at ((i + tlb_hint c) mod TLB_ENTRIES) c in
      if tlb_matches e virt (cp0_entryhi_asid c)
      then
        match tlb_use e virt wr with
        | (TLBL_OK, phys) => modify (λ c, c <| tlb_hint := i |>);; mret (TLBL_OK, phys)
        | r => mret r
        end
      else tlb_search n' (i + 1) virt wr
  end.

Definition tlb_look (virt : Z) (wr : bool) : st C (tlb_look_t * option Z) :=
  c ← get_st;
  if CPU_TLB_SHUTDOWN c then mret (TLBL_OK, None)
  else tlb_search (Z.to_nat TLB_ENTRIES) 0 virt wr.

(** ** Exceptions of translation *)
Definition fill_tlb_error (addr : Z) : st C unit :=
  modify (set_cp0r cp0_BadVAddr addr);;
  modify (upd_cp0 cp0_Context (λ v, Z.lor (Z.land v cp0_context_ptebase_mask)
    (Z.land (Z.shiftr addr cp0_context_addr_shift) (c_not 64 cp0_context_res1_mask))));;
  modify (upd_cp0 cp0_XContext (λ v, Z.lor (Z.land v cp0_xcontext_ptebase_mask)
    (Z.land (Z.shiftr addr cp0_xcontext_addr_shift) (c_not 64 cp0_xcontext_res1_mask))));;
  modify (upd_cp0 cp0_EntryHi (λ v, Z.lor (Z.land v cp0_entryhi_asid_mask)
    (Z.land addr cp0_entryhi_vpn2_mask))).

Definition fill_addr_error (addr : Z) (noisy : bool) : st C unit :=
  if noisy then
    modify (set_cp0r cp0_BadVAddr addr);;
    modify (upd_cp0 cp0_Context (λ v, Z.land v (c_not 64 cp0_context_badvpn2_mask)));;
    modify (upd_cp0 cp0_XContext (λ v, Z.land v (c_not 64 cp0_xcontext_badvpn2_mask)));;
    modify (upd_cp0 cp0_EntryHi (λ v, Z.land v (c_not 64 cp0_entryhi_vpn2_mask)))
  else mret tt.

Definition tlb_hit32 (virt : Z) (wr noisy : bool) : st C (r4k_exc * option Z) :=
  r ← tlb_look virt wr;
  match r with
  | (TLBL_OK, phys) => mret (r4k_excNone, phys)
  | (TLBL_REFILL, phys) =>
      (if noisy then modify (λ c, c <| tlb_refill := u64 (tlb_refill c + 1) |>);; fill_tlb_error virt
       else mret tt);;
      mret (r4k_excTLBR, phys)
  | (TLBL_INVALID, phys) =>
      (if noisy then modify (λ c, c <| tlb_invalid := u64 (tlb_invalid c + 1) |>);; fill_tlb_error virt
       else mret tt);;
      mret (r4k_excTLB, phys)
  | (TLBL_MODIFIED, phys) =>
      (if noisy then modify (λ c, c <| tlb_modified := u64 (tlb_modified c + 1) |>);; fill_tlb_error virt
       else mret tt);;
      mret (r4k_excMod, phys)
  end.

Definition tlb_hit64 (virt : Z) (wr noisy : bool) : st C (r4k_exc * option Z) :=
  c_assert false;; mret (r4k_excNone, None).

Definition address_error (virt : Z) (noisy : bool) : st C (r4k_exc * option Z) :=
  fill_addr_error virt noisy;; mret (r4k_excAddrError, None).

Definition convert_addr_user32 (virt : Z) (wr noisy : bool) : st C (r4k_exc * option Z) :=
  c ← get_st;
  c_assert (CPU_USER_MODE c);;
  if in_seg (lo virt) USEG_MASK USEG_BITS then tlb_hit32 virt wr noisy
  else address_error virt noisy.

Definition convert_addr_user64 (virt : Z) (wr noisy : bool) : st C (r4k_exc * option Z) :=
  c ← get_st;
  c_assert (CPU_USER_MODE c);;
  if in_seg virt XUSEG_MASK XUSEG_BITS then tlb_hit64 virt wr noisy
  else address_error virt noisy.

Definition convert_addr_supervisor32 (virt : Z) (wr noisy : bool) : st C (r4k_exc * option Z) :=
  c ← get_st;
  c_assert (CPU_SUPERVISOR_MODE c);;
  if in_seg (lo virt) USEG_MASK USEG_BITS then tlb_hit32 virt wr noisy
  else if in_seg (lo virt) SSEG_MASK SSEG_BITS then tlb_hit32 virt wr noisy
  else address_error virt noisy.

Definition convert_addr_supervisor64 (virt : Z) (wr noisy : bool) : st C (r4k_exc * option Z) :=
  c ← get_st;
  c_assert (CPU_SUPERVISOR_MODE c);;
  if in_seg virt XUSEG_MASK XUSEG_BITS then tlb_hit64 virt wr noisy
  else if in_seg virt XSSEG_MASK XSSEG_BITS then tlb_hit64 virt wr noisy
  else if in_seg virt CSSEG_MASK CSSEG_BITS then tlb_hit64 virt wr noisy
  else address_error virt noisy.

Definition convert_addr_kernel32 (virt : Z) (wr noisy : bool) : st C (r4k_exc * option Z) :=
  c ← get_st;
  c_assert (CPU_KERNEL_MODE c);;
  if in_seg (lo virt) USEG_MASK USEG_BITS then
    if negb (truthy (cp0_status_erl c)) then tlb_hit32 virt wr noisy
    else mret (r4k_excNone, None)
  else if in_seg (lo virt) KSEG0_MASK KSEG0_BITS then mret (r4k_excNone, Some (lo virt - 0x80000000))
  else if in_seg (lo virt) KSEG1_MASK KSEG1_BITS then mret (r4k_excNone, Some (lo virt - 0xa0000000))
  else if in_seg (lo virt) SSEG_MASK SSEG_BITS then tlb_hit32 virt wr noisy
  else if in_seg (lo virt) KSEG3_MASK KSEG3_BITS then tlb_hit32 virt wr noisy
  else address_error virt noisy.

Definition convert_addr_kernel64 (virt : Z) (wr noisy : bool) : st C (r4k_exc * option Z) :=
  c ← get_st;
  c_assert (CPU_KERNEL_MODE c);;
  if in_seg virt XUSEG_MASK XUSEG_BITS then
    if negb (truthy (cp0_status_erl c)) then tlb_hit64 virt wr noisy
    else mret (r4k_excNone, None)
  else if in_seg virt XKSSEG_MASK XKSSEG_BITS then tlb_hit64 virt wr noisy
  else if in_seg virt XKPHYS_MASK XKPHYS_BITS then stop AssertFailed
  else if in_seg virt XKSEG_MASK XKSEG_BITS then tlb_hit64 virt wr noisy
  else if in_seg virt CKSEG0_MASK CKSEG0_BITS then mret (r4k_excNone, Some (u64 (virt - 0x80000000)))
  else if in_seg virt CKSEG1_MASK CKSEG1_BITS then mret (r4k_excNone, Some (u64 (virt - 0xa0000000)))
  else if in_seg (lo virt) CSSEG_MASK CSSEG_BITS then tlb_hit64 virt wr noisy
  else if in_seg (lo virt) CKSEG3_MASK CKSEG3_BITS then tlb_hit64 virt wr noisy
  else address_error virt noisy.

(** In 64-bit kernel mode the result of the conversion is dropped: what it wrote
    to [phys] stays, and an address error is reported in every case. *)
Definition r4k_convert_addr (virt : Z) (wr noisy : bool) : st C (r4k_exc * option Z) :=
  c ← get_st;
  if CPU_64BIT_MODE c then
    if CPU_USER_MODE c then convert_addr_user64 virt wr noisy
    else if CPU_SUPERVISOR_MODE c then convert_addr_supervisor64 virt wr noisy
    else if CPU_KERNEL_MODE c then
      '(_, phys) ← convert_addr_kernel64 virt wr noisy;
      fill_addr_error virt noisy;;
      mret (r4k_excAddrError, phys)
    else address_error virt noisy
  else
    if CPU_USER_MODE c then convert_addr_user32 virt wr noisy
    else if CPU_SUPERVISOR_MODE c then convert_addr_supervisor32 virt wr noisy
    else if CPU_KERNEL_MODE c then convert_addr_kernel32 virt wr noisy
    else address_error virt noisy.

(** ** The instructions on the buffer *)

(** [cp0_cause(cpu).val &= ~cp0_cause_ce_mask] clears the upper half as well: the
    complement of a 32-bit constant is widened with zeros. *)
Definition cop0_unusable : st C r4k_exc :=
  modify (upd_cp0 cp0_Cause (λ v, Z.land v (c_not 32 cp0_cause_ce_mask)));;
  mret r4k_excCpU.

(** The first entry from [i] that the probe finds. *)
Fixpoint tlb_probe (n : nat) (i xvpn2 xasid : Z) (c : C) : option Z :=
  match n with
  | O => None
  | S n' =>
      let e := tlb_at i c in
      if (vpn2 e =? Z.land xvpn2 (mask e)) && (global e || (asid e =? xasid)) then Some i
      else tlb_probe n' (i + 1) xvpn2 xasid c
  end.

Definition TLBP : st C r4k_exc :=
  c ← get_st;
  if CP0_USABLE c then
    modify (set_cp0r cp0_Index (u64 (sgn 32 (Z.shiftl 1 cp0_index_p_shift))));;
    c ← get_st;
    let xvpn2 := lo (Z.land (cp0r cp0_EntryHi c) cp0_entryhi_vpn2_mask) in
    let xasid := lo (Z.land (cp0r cp0_EntryHi c) cp0_entryhi_asid_mask) in
    (match tlb_probe (Z.to_nat TLB_ENTRIES) 0 xvpn2 xasid c with
     | Some i => modify (set_cp0r cp0_Index i)
     | None => mret tt
     end);;
    mret r4k_excNone
  else cop0_unusable.

Definition entrylo_of (pg : tlb_rec) (g : bool) : Z :=
  Z.lor (Z.lor (Z.lor (Z.lor (Z.shiftr (pfn pg) 6) (Z.shiftl (cohh pg) 3))
    (Z.shiftl (bool_to_Z (dirty pg)) 2)) (Z.shiftl (bool_to_Z (valid pg)) 1)) (bool_to_Z g).

Definition TLBR : st C r4k_exc :=
  c ← get_st;
  if CP0_USABLE c then
    let i := cp0_index_index c in
    (if 47 <? i then
       modify (set_cp0r cp0_PageMask 0);;
       modify (set_cp0r cp0_EntryHi 0);;
       modify (set_cp0r cp0_EntryLo0 0);;
       modify (set_cp0r cp0_EntryLo1 0)
     else
       let e := tlb_at i c in
       modify (set_cp0r cp0_PageMask (Z.land (c_not 32 (mask e)) 0x01ffe000));;
       modify (set_cp0r cp0_EntryHi (Z.lor (vpn2 e) (asid e)));;
       modify (set_cp0r cp0_EntryLo0 (entrylo_of (pg0 e) (global e)));;
       modify (set_cp0r cp0_EntryLo1 (entrylo_of (pg1 e) (global e))));;
    mret r4k_excNone
  else cop0_unusable.

Definition rec_of (r : Z) (c : C) : tlb_rec :=
  mk_tlb_rec (Z.shiftl (cp0_entrylo_pfn r c) 12) (cp0_entrylo_c r c)
    (truthy (cp0_entrylo_d r c)) (truthy (cp0_entrylo_v r c)).

(** The entry that the registers describe. *)
Definition entry_of (c : C) : tlb_entry :=
  let m := lo (Z.land cp0_entryhi_vpn2_mask (c_not 64 (cp0r cp0_PageMask c))) in
  mk_tlb_entry m (lo (Z.land (cp0r cp0_EntryHi c) m))
    (truthy (Z.land (cp0_entrylo_g cp0_EntryLo0 c) (cp0_entrylo_g cp0_EntryLo1 c)))
    (cp0_entryhi_asid c) (rec_of cp0_EntryLo0 c) (rec_of cp0_EntryLo1 c).

Definition TLBW (random : bool) : st C r4k_exc :=
  c ← get_st;
  if CP0_USABLE c then
    let index := if random then cp0_random_random c else cp0_index_index c in
    (if 47 <? index then mret tt
     else modify (λ c, c <| tlb := <[index := entry_of c]> (tlb c) |>));;
    mret r4k_excNone
  else cop0_unusable.
