(* ===== verification/R4kMem.v ===== *)
(** * Memory accesses of the R4000 (mips_r4000/cpu.c)

    An access checks the alignment, translates the address, looks at the watch
    registers and goes to physical memory.  A read yields the exception and, when
    it succeeds, the value, at the width of the variable that receives it. *)

From S2P Require Import Prelude PhysMem Machine R4kTypes R4kTlb.
Import PhysMem.

Inductive acc_mode := AM_FETCH | AM_READ | AM_WRITE.
#[export] Instance acc_mode_eq_dec : EqDecision acc_mode.
Proof. solve_decision. Defined.
Definition is_mode (m m' : acc_mode) : bool := bool_decide (m = m').

(** ** Alignment *)
Definition align_test (bits addr : Z) (noisy : bool) : st r4k_cpu r4k_exc :=
  if negb (Z.land addr bits =? 0) then fill_addr_error addr noisy;; mret r4k_excAddrError
  else mret r4k_excNone.
Definition align_test16 : Z → bool → st r4k_cpu r4k_exc := align_test 0x01.
Definition align_test32 : Z → bool → st r4k_cpu r4k_exc := align_test 0x03.
Definition align_test64 : Z → bool → st r4k_cpu r4k_exc := align_test 0x07.

(** A parameter that was not written has no value. *)
Definition written (phys : option Z) : st r4k_cpu Z :=
  match phys with Some p => mret p | None => stop UndefinedBehaviour end.

Definition access_mem (mode : acc_mode) (virt : Z) (noisy : bool) : st r4k_cpu (r4k_exc * option Z) :=
  '(res, phys) ← r4k_convert_addr virt (is_mode mode AM_WRITE) noisy;
  c ← get_st;
  if (truthy (cp0_watchlo_r c) && is_mode mode AM_READ) ||
     (truthy (cp0_watchlo_w c) && is_mode mode AM_WRITE)
  then
    p ← written phys;
    if waddr c =? Z.shiftr p 3 then
      if cp0_status_exl c =? 1
      then modify (λ c, c <| wpending := true |> <| wexcaddr := pc c |>);; mret (res, phys)
      else mret (r4k_excWATCH, phys)
    else mret (res, phys)
  else mret (res, phys).

(** The exception a failed translation raises on a load and on a store. *)
Definition load_exc (res : r4k_exc) : option r4k_exc :=
  match res with
  | r4k_excAddrError => Some r4k_excAdEL
  | r4k_excTLB => Some r4k_excTLBL
  | r4k_excTLBR => Some r4k_excTLBLR
  | _ => None
  end.

Definition store_exc (res : r4k_exc) : option r4k_exc :=
  match res with
  | r4k_excAddrError => Some r4k_excAdES
  | r4k_excTLB => Some r4k_excTLBS
  | r4k_excTLBR => Some r4k_excTLBSR
  | r4k_excMod => Some r4k_excMod
  | _ => None
  end.

Section Access.
Context {F D : Type} `{BoardOf r4k_cpu F D}.
Abbreviation W := (world r4k_cpu F D).

Definition cpu_read_mem (bits : Z) (test : Z → bool → st r4k_cpu r4k_exc) (read : Z → Z → bool → st W Z)
    (addr : Z) (noisy : bool) : st W (r4k_exc * option Z) :=
  res ← on_cpu (test addr noisy);
  match res with
  | r4k_excNone =>
      '(res, phys) ← on_cpu (access_mem AM_READ addr noisy);
      match res with
      | r4k_excNone =>
          p ← on_cpu (written phys);
          c ← cpu;
          v ← read (procno c) p true;
          mret (r4k_excNone, Some (wrap bits v))
      | _ => match load_exc res with
             | Some e => mret (e, None)
             | None => stop AssertFailed
             end
      end
  | r4k_excAddrError => mret (r4k_excAdEL, None)
  | _ => stop AssertFailed
  end.

(** Bytes need no alignment. *)
Definition no_test (addr : Z) (noisy : bool) : st r4k_cpu r4k_exc := mret r4k_excNone.

Definition cpu_read_mem8 : Z → bool → st W (r4k_exc * option Z) := cpu_read_mem 8 no_test physmem_read8.
Definition cpu_read_mem16 : Z → bool → st W (r4k_exc * option Z) := cpu_read_mem 16 align_test16 physmem_read16.
Definition r4k_read_mem32 : Z → bool → st W (r4k_exc * option Z) := cpu_read_mem 32 align_test32 physmem_read32.
Definition cpu_read_mem64 : Z → bool → st W (r4k_exc * option Z) := cpu_read_mem 64 align_test64 physmem_read64.

Definition cpu_write_mem (test : Z → bool → st r4k_cpu r4k_exc) (write : Z → Z → Z → bool → st W bool)
    (addr value : Z) (noisy : bool) : st W r4k_exc :=
  res ← on_cpu (test addr noisy);
  match res with
  | r4k_excNone =>
      '(res, phys) ← on_cpu (access_mem AM_WRITE addr noisy);
      match res with
      | r4k_excNone =>
          p ← on_cpu (written phys);
          c ← cpu;
          write (procno c) p value true;;
          mret r4k_excNone
      | _ => match store_exc res with
             | Some e => mret e
             | None => stop AssertFailed
             end
      end
  | r4k_excAddrError => mret r4k_excAdES
  | _ => stop AssertFailed
  end.

Definition cpu_write_mem8 : Z → Z → bool → st W r4k_exc := cpu_write_mem no_test physmem_write8.
Definition cpu_write_mem16 : Z → Z → bool → st W r4k_exc := cpu_write_mem align_test16 physmem_write16.
Definition cpu_write_mem32 : Z → Z → bool → st W r4k_exc := cpu_write_mem align_test32 physmem_write32.
Definition cpu_write_mem64 : Z → Z → bool → st W r4k_exc := cpu_write_mem align_test64 physmem_write64.
End Access.
