(* ===== verification/R4kComp.v ===== *)
(** * Computational instructions of the R4000 (mips_r4000/instr/*.c)

    One definition per instruction function.  Additions and subtractions that trap
    leave the destination register unchanged.  Results of 32-bit operations are
    sign-extended to the register width. *)

From S2P Require Import Prelude Machine R4kTypes.

Abbreviation C := r4k_cpu.

(** [regs[instr.r.rs]] and [regs[instr.r.rt]] *)
Definition rs_val (i : Z) (c : C) : Z := reg (f_rs i) c.
Definition rt_val (i : Z) (c : C) : Z := reg (f_rt i) c.

(** An assignment to [rd] or to [rt], and no exception. *)
Definition write_rd (i : Z) (v : C → Z) : st C r4k_exc :=
  modify (λ c, set_reg (f_rd i) (v c) c);; mret r4k_excNone.
Definition write_rt (i : Z) (v : C → Z) : st C r4k_exc :=
  modify (λ c, set_reg (f_rt i) (v c) c);; mret r4k_excNone.

(** The test for overflow: operands of equal sign, a result of the other. *)
Definition overflows (sbit x y res : Z) : bool :=
  negb (truthy (Z.land (Z.lxor x y) sbit)) && truthy (Z.land (Z.lxor x res) sbit).

(** Instructions on 64-bit operands are reserved in 32-bit user and supervisor
    mode. *)
Definition if_64bit (m : st C r4k_exc) : st C r4k_exc :=
  c ← get_st; if CPU_64BIT_INSTRUCTION c then m else mret r4k_excRI.

(** ** Addition and subtraction *)
Definition instr_add (i : Z) : st C r4k_exc :=
  c ← get_st;
  let rs := lo (rs_val i c) in let rt := lo (rt_val i c) in
  let sum := lo (rs + rt) in
  if overflows SBIT32 rs rt sum then mret r4k_excOv else write_rd i (λ _, sign_extend_32_64 sum).

Definition instr_addi (i : Z) : st C r4k_exc :=
  c ← get_st;
  let rs := lo (rs_val i c) in let imm := sign_extend_16_32 (f_imm i) in
  let sum := lo (rs + imm) in
  if overflows SBIT32 rs imm sum then mret r4k_excOv else write_rt i (λ _, sign_extend_32_64 sum).

Definition instr_addiu (i : Z) : st C r4k_exc :=
  write_rt i (λ c, sign_extend_32_64 (lo (lo (rs_val i c) + sign_extend_16_32 (f_imm i)))).

Definition instr_addu (i : Z) : st C r4k_exc :=
  write_rd i (λ c, sign_extend_32_64 (lo (lo (rs_val i c) + lo (rt_val i c)))).

Definition instr_sub (i : Z) : st C r4k_exc :=
  c ← get_st;
  let rs := lo (rs_val i c) in let rt := lo (rt_val i c) in
  let dif := lo (rs - rt) in
  if overflows SBIT32 rs rt dif then mret r4k_excOv else write_rd i (λ _, sign_extend_32_64 dif).

Definition instr_subu (i : Z) : st C r4k_exc :=
  write_rd i (λ c, sign_extend_32_64 (lo (lo (rs_val i c) - lo (rt_val i c)))).

Definition instr_dadd (i : Z) : st C r4k_exc :=
  if_64bit (c ← get_st;
    let sum := u64 (rs_val i c + rt_val i c) in
    if overflows SBIT64 (rs_val i c) (rt_val i c) sum then mret r4k_excOv else write_rd i (λ _, sum)).

Definition instr_daddi (i : Z) : st C r4k_exc :=
  if_64bit (c ← get_st;
    let imm := sign_extend_16_64 (f_imm i) in
    let sum := u64 (rs_val i c + imm) in
    if overflows SBIT64 (rs_val i c) imm sum then mret r4k_excOv else write_rt i (λ _, sum)).

Definition instr_daddiu (i : Z) : st C r4k_exc :=
  if_64bit (write_rt i (λ c, u64 (rs_val i c + sign_extend_16_64 (f_imm i)))).

Definition instr_daddu (i : Z) : st C r4k_exc :=
  if_64bit (write_rd i (λ c, u64 (rs_val i c + rt_val i c))).

Definition instr_dsub (i : Z) : st C r4k_exc :=
  if_64bit (c ← get_st;
    let dif := u64 (rs_val i c - rt_val i c) in
    if overflows SBIT64 (rs_val i c) (rt_val i c) dif then mret r4k_excOv else write_rd i (λ _, dif)).

Definition instr_dsubu (i : Z) : st C r4k_exc :=
  if_64bit (write_rd i (λ c, u64 (rs_val i c - rt_val i c))).

(** ** Bitwise operations *)
Definition instr_and (i : Z) : st C r4k_exc := write_rd i (λ c, Z.land (rs_val i c) (rt_val i c)).
Definition instr_andi (i : Z) : st C r4k_exc := write_rt i (λ c, Z.land (rs_val i c) (f_imm i)).
Definition instr_or (i : Z) : st C r4k_exc := write_rd i (λ c, Z.lor (rs_val i c) (rt_val i c)).
Definition instr_ori (i : Z) : st C r4k_exc := write_rt i (λ c, Z.lor (rs_val i c) (f_imm i)).
Definition instr_xor (i : Z) : st C r4k_exc := write_rd i (λ c, Z.lxor (rs_val i c) (rt_val i c)).
Definition instr_xori (i : Z) : st C r4k_exc := write_rt i (λ c, Z.lxor (rs_val i c) (f_imm i)).
Definition instr_nor (i : Z) : st C r4k_exc :=
  write_rd i (λ c, c_not 64 (Z.lor (rs_val i c) (rt_val i c))).
Definition instr_lui (i : Z) : st C r4k_exc :=
  write_rt i (λ c, sign_extend_32_64 (lo (Z.shiftl (f_imm i) 16))).

(** ** Shifts *)
Definition instr_sll (i : Z) : st C r4k_exc :=
  write_rd i (λ c, sign_extend_32_64 (lo (Z.shiftl (lo (rt_val i c)) (f_sa i)))).
Definition instr_sllv (i : Z) : st C r4k_exc :=
  write_rd i (λ c, sign_extend_32_64 (lo (Z.shiftl (lo (rt_val i c)) (Z.land (lo (rs_val i c)) 0x1f)))).
Definition instr_srl (i : Z) : st C r4k_exc :=
  write_rd i (λ c, sign_extend_32_64 (Z.shiftr (lo (rt_val i c)) (f_sa i))).
Definition instr_srlv (i : Z) : st C r4k_exc :=
  write_rd i (λ c, sign_extend_32_64 (Z.shiftr (lo (rt_val i c)) (Z.land (lo (rs_val i c)) 0x1f))).
Definition instr_sra (i : Z) : st C r4k_exc :=
  write_rd i (λ c, sign_extend_32_64 (lo (Z.shiftr (sgn 32 (rt_val i c)) (f_sa i)))).
Definition instr_srav (i : Z) : st C r4k_exc :=
  write_rd i (λ c, sign_extend_32_64 (lo (Z.shiftr (sgn 32 (rt_val i c)) (Z.land (lo (rs_val i c)) 0x1f)))).

Definition instr_dsll (i : Z) : st C r4k_exc :=
  if_64bit (write_rd i (λ c, u64 (Z.shiftl (rt_val i c) (f_sa i)))).
Definition instr_dsll32 (i : Z) : st C r4k_exc :=
  if_64bit (write_rd i (λ c, u64 (Z.shiftl (rt_val i c) (f_sa i + 32)))).
Definition instr_dsllv (i : Z) : st C r4k_exc :=
  if_64bit (write_rd i (λ c, u64 (Z.shiftl (rt_val i c) (Z.land (rs_val i c) 0x3f)))).
Definition instr_dsrl (i : Z) : st C r4k_exc :=
  if_64bit (write_rd i (λ c, Z.shiftr (rt_val i c) (f_sa i))).
Definition instr_dsrl32 (i : Z) : st C r4k_exc :=
  if_64bit (write_rd i (λ c, Z.shiftr (rt_val i c) (f_sa i + 32))).
Definition instr_dsrlv (i : Z) : st C r4k_exc :=
  if_64bit (write_rd i (λ c, Z.shiftr (rt_val i c) (Z.land (rs_val i c) 0x3f))).
Definition instr_dsra (i : Z) : st C r4k_exc :=
  if_64bit (write_rd i (λ c, u64 (Z.shiftr (sgn 64 (rt_val i c)) (f_sa i)))).
Definition instr_dsra32 (i : Z) : st C r4k_exc :=
  if_64bit (write_rd i (λ c, u64 (Z.shiftr (sgn 64 (rt_val i c)) (f_sa i + 32)))).
Definition instr_dsrav (i : Z) : st C r4k_exc :=
  if_64bit (write_rd i (λ c, u64 (Z.shiftr (sgn 64 (rt_val i c)) (Z.land (rs_val i c) 0x3f)))).

(** ** Comparisons *)
Definition instr_slt (i : Z) : st C r4k_exc :=
  write_rd i (λ c, bool_to_Z (if CPU_64BIT_MODE c then sgn 64 (rs_val i c) <? sgn 64 (rt_val i c)
                              else sgn 32 (rs_val i c) <? sgn 32 (rt_val i c))).
Definition instr_slti (i : Z) : st C r4k_exc :=
  write_rt i (λ c, bool_to_Z
    (if CPU_64BIT_MODE c then sgn 64 (rs_val i c) <? sgn 64 (sign_extend_16_64 (f_imm i))
     else sgn 32 (rs_val i c) <? sgn 32 (sign_extend_16_32 (f_imm i)))).
Definition instr_sltiu (i : Z) : st C r4k_exc :=
  write_rt i (λ c, bool_to_Z (if CPU_64BIT_MODE c then rs_val i c <? sign_extend_16_64 (f_imm i)
                              else lo (rs_val i c) <? sign_extend_16_32 (f_imm i))).
Definition instr_sltu (i : Z) : st C r4k_exc :=
  write_rd i (λ c, bool_to_Z (if CPU_64BIT_MODE c then rs_val i c <? rt_val i c
                              else lo (rs_val i c) <? lo (rt_val i c))).

(** ** Multiplication and division *)
Definition set_lohi (l h : Z) : st C r4k_exc :=
  modify (λ c, c <| loreg := l |>);; modify (λ c, c <| hireg := h |>);; mret r4k_excNone.

Definition instr_mult (i : Z) : st C r4k_exc :=
  c ← get_st;
  let rs := lo (rs_val i c) in let rt := lo (rt_val i c) in
  if (rs =? 0) || (rt =? 0) then set_lohi 0 0
  else
    let res := u64 (sgn 64 (sign_extend_32_64 rs) * sgn 64 (sign_extend_32_64 rt)) in
    set_lohi (sign_extend_32_64 (lo res)) (sign_extend_32_64 (lo (Z.shiftr res 32))).

Definition instr_multu (i : Z) : st C r4k_exc :=
  c ← get_st;
  let rs := lo (rs_val i c) in let rt := lo (rt_val i c) in
  if (rs =? 0) || (rt =? 0) then set_lohi 0 0
  else
    let res := u64 (rs * rt) in
    set_lohi (sign_extend_32_64 (lo res)) (sign_extend_32_64 (lo (Z.shiftr res 32))).

(** C's signed division at width [w], which has no meaning when it overflows. *)
Definition quotient_defined (w x y : Z) : bool := negb ((sgn w x =? - 2 ^ (w - 1)) && (sgn w y =? -1)).

Definition instr_div (i : Z) : st C r4k_exc :=
  c ← get_st;
  let rt := lo (rt_val i c) in
  if rt =? 0 then set_lohi 0 0
  else
    let rs := lo (rs_val i c) in
    c_defined (quotient_defined 32 rs rt);;
    set_lohi (sign_extend_32_64 (lo (Z.quot (sgn 32 rs) (sgn 32 rt))))
             (sign_extend_32_64 (lo (Z.rem (sgn 32 rs) (sgn 32 rt)))).

Definition instr_divu (i : Z) : st C r4k_exc :=
  c ← get_st;
  let rt := lo (rt_val i c) in
  if rt =? 0 then set_lohi 0 0
  else
    let rs := lo (rs_val i c) in
    set_lohi (sign_extend_32_64 (rs / rt)) (sign_extend_32_64 (rs mod rt)).

Definition instr_ddiv (i : Z) : st C r4k_exc :=
  if_64bit (c ← get_st;
    let rt := rt_val i c in
    if rt =? 0 then set_lohi 0 0
    else
      let rs := rs_val i c in
      c_defined (quotient_defined 64 rs rt);;
      set_lohi (u64 (Z.quot (sgn 64 rs) (sgn 64 rt))) (u64 (Z.rem (sgn 64 rs) (sgn 64 rt)))).

Definition instr_ddivu (i : Z) : st C r4k_exc :=
  if_64bit (c ← get_st;
    let rt := rt_val i c in
    if rt =? 0 then set_lohi 0 0
    else set_lohi (rs_val i c / rt) (rs_val i c mod rt)).

Definition instr_dmult (i : Z) : st C r4k_exc := if_64bit (stop AssertFailed).
Definition instr_dmultu (i : Z) : st C r4k_exc := if_64bit (stop AssertFailed).

Definition instr_mfhi (i : Z) : st C r4k_exc := write_rd i hireg.
Definition instr_mflo (i : Z) : st C r4k_exc := write_rd i loreg.
Definition instr_mthi (i : Z) : st C r4k_exc :=
  modify (λ c, c <| hireg := rs_val i c |>);; mret r4k_excNone.
Definition instr_mtlo (i : Z) : st C r4k_exc :=
  modify (λ c, c <| loreg := rs_val i c |>);; mret r4k_excNone.
