(* ===== verification/R4kCtl.v ===== *)
(** * Jumps, branches and traps of the R4000 (mips_r4000/instr/*.c)

    A jump leaves the target in [pc_next] and returns [r4k_excJump]: the step then
    executes the instruction in the delay slot.  A branch-likely that is not taken
    skips the delay slot. *)

From S2P Require Import Prelude Machine R4kTypes R4kComp.

Abbreviation C := r4k_cpu.

Definition skip_slot : st C unit := modify (λ c, c <| pc_next := u64 (pc_next c + 4) |>).

(** The jump relative to the delay slot. *)
Definition jump_rel (i : Z) : st C r4k_exc :=
  modify (λ c, c <| pc_next := u64 (pc_next c + branch_offset i) |>);;
  modify (λ c, c <| branch := BRANCH_COND |>);;
  mret r4k_excJump.

Definition branch_if (cond : bool) (i : Z) : st C r4k_exc :=
  if cond then jump_rel i else mret r4k_excNone.

Definition branch_likely_if (cond : bool) (i : Z) : st C r4k_exc :=
  if cond then jump_rel i else skip_slot;; mret r4k_excNone.

Definition link : st C unit := modify (λ c, set_reg 31 (u64 (pc c + 8)) c).

(** ** Conditions *)
Definition eq_cond (i : Z) (c : C) : bool :=
  if CPU_64BIT_MODE c then rs_val i c =? rt_val i c else lo (rs_val i c) =? lo (rt_val i c).
Definition gez_cond (i : Z) (c : C) : bool :=
  if CPU_64BIT_MODE c then Z.land (rs_val i c) SBIT64 =? 0 else Z.land (lo (rs_val i c)) SBIT32 =? 0.
Definition gtz_cond (i : Z) (c : C) : bool :=
  if CPU_64BIT_MODE c then 0 <? sgn 64 (rs_val i c) else 0 <? sgn 32 (rs_val i c).
Definition lez_cond (i : Z) (c : C) : bool :=
  if CPU_64BIT_MODE c then sgn 64 (rs_val i c) <=? 0 else sgn 32 (rs_val i c) <=? 0.
Definition ltz_cond (i : Z) (c : C) : bool :=
  if CPU_64BIT_MODE c then sgn 64 (rs_val i c) <? 0 else sgn 32 (rs_val i c) <? 0.

(** ** Branches *)
Definition instr_beq (i : Z) : st C r4k_exc := c ← get_st; branch_if (eq_cond i c) i.
Definition instr_beql (i : Z) : st C r4k_exc := c ← get_st; branch_likely_if (eq_cond i c) i.
Definition instr_bne (i : Z) : st C r4k_exc := c ← get_st; branch_if (negb (eq_cond i c)) i.
Definition instr_bnel (i : Z) : st C r4k_exc := c ← get_st; branch_likely_if (negb (eq_cond i c)) i.
Definition instr_bgez (i : Z) : st C r4k_exc := c ← get_st; branch_if (gez_cond i c) i.
Definition instr_bgezl (i : Z) : st C r4k_exc := c ← get_st; branch_likely_if (gez_cond i c) i.
Definition instr_bgezal (i : Z) : st C r4k_exc := c ← get_st; link;; branch_if (gez_cond i c) i.
Definition instr_bgezall (i : Z) : st C r4k_exc := c ← get_st; link;; branch_likely_if (gez_cond i c) i.
Definition instr_bgtz (i : Z) : st C r4k_exc := c ← get_st; branch_if (gtz_cond i c) i.
Definition instr_bgtzl (i : Z) : st C r4k_exc := c ← get_st; branch_likely_if (gtz_cond i c) i.
Definition instr_blez (i : Z) : st C r4k_exc := c ← get_st; branch_if (lez_cond i c) i.
Definition instr_blezl (i : Z) : st C r4k_exc := c ← get_st; branch_likely_if (lez_cond i c) i.
Definition instr_bltz (i : Z) : st C r4k_exc := c ← get_st; branch_if (ltz_cond i c) i.
Definition instr_bltzl (i : Z) : st C r4k_exc := c ← get_st; branch_likely_if (ltz_cond i c) i.
Definition instr_bltzal (i : Z) : st C r4k_exc := c ← get_st; link;; branch_if (ltz_cond i c) i.
Definition instr_bltzall (i : Z) : st C r4k_exc := c ← get_st; link;; branch_likely_if (ltz_cond i c) i.

(** ** Jumps *)
Definition jump_to (target : C → Z) : st C r4k_exc :=
  modify (λ c, c <| pc_next := target c |>);;
  modify (λ c, c <| branch := BRANCH_COND |>);;
  mret r4k_excJump.

(** The target replaces the low bits of the address of the delay slot. *)
Definition region_target (i : Z) (c : C) : Z :=
  Z.lor (Z.land (pc_next c) TARGET_COMB) (Z.shiftl (f_target i) TARGET_SHIFT).

Definition instr_j (i : Z) : st C r4k_exc := jump_to (region_target i).
Definition instr_jal (i : Z) : st C r4k_exc := link;; jump_to (region_target i).
Definition instr_jr (i : Z) : st C r4k_exc := jump_to (rs_val i).
(** The link goes to register 31 whatever [rd] is, before [rs] is read. *)
Definition instr_jalr (i : Z) : st C r4k_exc := link;; jump_to (rs_val i).

(** ** Traps *)
Definition trap_if (cond : bool) : st C r4k_exc := mret (if cond then r4k_excTr else r4k_excNone).

Definition ge_cond (i : Z) (c : C) : bool :=
  if CPU_64BIT_MODE c then sgn 64 (rt_val i c) <=? sgn 64 (rs_val i c)
  else sgn 32 (rt_val i c) <=? sgn 32 (rs_val i c).
Definition geu_cond (i : Z) (c : C) : bool :=
  if CPU_64BIT_MODE c then rt_val i c <=? rs_val i c else lo (rt_val i c) <=? lo (rs_val i c).
Definition gei_cond (i : Z) (c : C) : bool :=
  if CPU_64BIT_MODE c then sgn 64 (sign_extend_16_64 (f_imm i)) <=? sgn 64 (rs_val i c)
  else sgn 32 (sign_extend_16_32 (f_imm i)) <=? sgn 32 (rs_val i c).
Definition geiu_cond (i : Z) (c : C) : bool :=
  if CPU_64BIT_MODE c then sign_extend_16_64 (f_imm i) <=? rs_val i c
  else sign_extend_16_32 (f_imm i) <=? lo (rs_val i c).
Definition eqi_cond (i : Z) (c : C) : bool :=
  if CPU_64BIT_MODE c then rs_val i c =? sign_extend_16_64 (f_imm i)
  else lo (rs_val i c) =? sign_extend_16_32 (f_imm i).

Definition instr_teq (i : Z) : st C r4k_exc := c ← get_st; trap_if (eq_cond i c).
Definition instr_teqi (i : Z) : st C r4k_exc := c ← get_st; trap_if (eqi_cond i c).
Definition instr_tne (i : Z) : st C r4k_exc := c ← get_st; trap_if (negb (eq_cond i c)).
Definition instr_tnei (i : Z) : st C r4k_exc := c ← get_st; trap_if (negb (eqi_cond i c)).
Definition instr_tge (i : Z) : st C r4k_exc := c ← get_st; trap_if (ge_cond i c).
Definition instr_tgei (i : Z) : st C r4k_exc := c ← get_st; trap_if (gei_cond i c).
Definition instr_tgeu (i : Z) : st C r4k_exc := c ← get_st; trap_if (geu_cond i c).
Definition instr_tgeiu (i : Z) : st C r4k_exc := c ← get_st; trap_if (geiu_cond i c).
Definition instr_tlt (i : Z) : st C r4k_exc := c ← get_st; trap_if (negb (ge_cond i c)).
Definition instr_tlti (i : Z) : st C r4k_exc := c ← get_st; trap_if (negb (gei_cond i c)).
Definition instr_tltu (i : Z) : st C r4k_exc := c ← get_st; trap_if (negb (geu_cond i c)).
Definition instr_tltiu (i : Z) : st C r4k_exc := c ← get_st; trap_if (negb (geiu_cond i c)).

Definition instr_break (i : Z) : st C r4k_exc := mret r4k_excBp.
Definition instr_syscall (i : Z) : st C r4k_exc := mret r4k_excSys.
Definition instr_sync (i : Z) : st C r4k_exc := mret r4k_excNone.
Definition instr__reserved (i : Z) : st C r4k_exc := mret r4k_excRI.
(** CACHE, LDL, LDR, SDL and SDR stop the simulator. *)
Definition instr_cache (i : Z) : st C r4k_exc := stop AssertFailed.
Definition instr_ldl (i : Z) : st C r4k_exc := stop AssertFailed.
Definition instr_ldr (i : Z) : st C r4k_exc := stop AssertFailed.
Definition instr_sdl (i : Z) : st C r4k_exc := stop AssertFailed.
Definition instr_sdr (i : Z) : st C r4k_exc := stop AssertFailed.
