(* ===== verification/R4kSys.v ===== *)
(** * Coprocessor and machine instructions of the R4000 (mips_r4000/instr/*.c) *)

From S2P Require Import Prelude PhysMem Machine R4kTypes R4kTlb R4kComp R4kCtl.
Import PhysMem.

Abbreviation C := r4k_cpu.

(** ** Coprocessors 1 and 2: every operation is ignored or refused *)
Definition cop_unusable (ce : Z) : st C r4k_exc :=
  modify (upd_cp0 cp0_Cause (λ v, Z.land v (c_not 32 cp0_cause_ce_mask)));;
  modify (upd_cp0 cp0_Cause (λ v, Z.lor v ce));;
  mret r4k_excCpU.

Definition with_cop1 (m : st C r4k_exc) : st C r4k_exc :=
  c ← get_st; if truthy (cp0_status_cu1 c) then m else cop_unusable cp0_cause_ce_cu1.
Definition with_cop2 (m : st C r4k_exc) : st C r4k_exc :=
  c ← get_st; if truthy (cp0_status_cu2 c) then m else cop_unusable cp0_cause_ce_cu2.
Definition with_cop0 (m : st C r4k_exc) : st C r4k_exc :=
  c ← get_st; if CP0_USABLE c then m else cop0_unusable.
Definition ignored : st C r4k_exc := mret r4k_excNone.

Definition instr_cfc1 (i : Z) : st C r4k_exc := with_cop1 ignored.
Definition instr_ctc1 (i : Z) : st C r4k_exc := with_cop1 ignored.
Definition instr_mfc1 (i : Z) : st C r4k_exc := with_cop1 ignored.
Definition instr_mtc1 (i : Z) : st C r4k_exc := with_cop1 ignored.
Definition instr_dmfc1 (i : Z) : st C r4k_exc := if_64bit (with_cop1 ignored).
Definition instr_dmtc1 (i : Z) : st C r4k_exc := with_cop1 ignored.
Definition instr_lwc1 (i : Z) : st C r4k_exc := with_cop1 ignored.
Definition instr_ldc1 (i : Z) : st C r4k_exc := with_cop1 ignored.
Definition instr_swc1 (i : Z) : st C r4k_exc := with_cop1 ignored.
Definition instr_sdc1 (i : Z) : st C r4k_exc := with_cop1 ignored.
Definition instr_cfc2 (i : Z) : st C r4k_exc := with_cop2 ignored.
Definition instr_ctc2 (i : Z) : st C r4k_exc := with_cop2 ignored.
Definition instr_mfc2 (i : Z) : st C r4k_exc := with_cop2 ignored.
Definition instr_lwc2 (i : Z) : st C r4k_exc := with_cop2 ignored.
Definition instr_ldc2 (i : Z) : st C r4k_exc := with_cop2 ignored.
Definition instr_swc2 (i : Z) : st C r4k_exc := with_cop2 ignored.
Definition instr_sdc2 (i : Z) : st C r4k_exc := with_cop2 ignored.

(** The condition of a coprocessor counts as true: [T] branches, [F] does not. *)
Definition instr_bc0f (i : Z) : st C r4k_exc := with_cop0 ignored.
Definition instr_bc0fl (i : Z) : st C r4k_exc := with_cop0 (skip_slot;; mret r4k_excNone).
Definition instr_bc0t (i : Z) : st C r4k_exc := with_cop0 (jump_rel i).
Definition instr_bc0tl (i : Z) : st C r4k_exc := with_cop0 (jump_rel i).
Definition instr_bc1f (i : Z) : st C r4k_exc := with_cop1 ignored.
Definition instr_bc1fl (i : Z) : st C r4k_exc := with_cop1 (skip_slot;; mret r4k_excNone).
Definition instr_bc1t (i : Z) : st C r4k_exc := with_cop1 (jump_rel i).
Definition instr_bc1tl (i : Z) : st C r4k_exc := with_cop1 (jump_rel i).
Definition instr_bc2f (i : Z) : st C r4k_exc := with_cop2 ignored.
Definition instr_bc2fl (i : Z) : st C r4k_exc := with_cop2 (skip_slot;; mret r4k_excNone).
Definition instr_bc2t (i : Z) : st C r4k_exc := with_cop2 (jump_rel i).
Definition instr_bc2tl (i : Z) : st C r4k_exc := with_cop2 (jump_rel i).

(** ** Coprocessor 0 *)
Definition instr_mfc0 (i : Z) : st C r4k_exc :=
  with_cop0 (write_rt i (λ c, sign_extend_32_64 (lo (cp0r (f_rd i) c)))).
Definition instr_dmfc0 (i : Z) : st C r4k_exc :=
  if_64bit (with_cop0 (write_rt i (λ c, cp0r (f_rd i) c))).

(** The watched address, in units of eight bytes. *)
Definition update_waddr (c : C) : C :=
  c <| waddr := Z.lor (u64 (Z.shiftl (cp0_watchhi_paddr1 c) (32 - cp0_watchlo_paddr0_shift)))
                      (cp0_watchlo_paddr0 c) |>.

Definition pagemask_valid (v : Z) : bool :=
  let m := Z.land v cp0_pagemask_mask_mask in
  (m =? 0) || (m =? 0x6000) || (m =? 0x1e000) || (m =? 0x7e000) || (m =? 0x1fe000) ||
  (m =? 0x7fe000) || (m =? 0x1ffe000).

(** The assignment of MTC0 to register [r]. *)
Definition cp0_write (r v : Z) : st C unit :=
  if r =? cp0_Index then modify (set_cp0r cp0_Index (Z.land v 0x3f))
  else if r =? cp0_EntryLo0 then modify (set_cp0r cp0_EntryLo0 (Z.land v 0x3fffffff))
  else if r =? cp0_EntryLo1 then modify (set_cp0r cp0_EntryLo1 (Z.land v 0x3fffffff))
  else if r =? cp0_Context then modify (set_cp0r cp0_Context (Z.land v 0xfffffff0))
  else if r =? cp0_PageMask then
    modify (set_cp0r cp0_PageMask 0);;
    if pagemask_valid v then modify (set_cp0r cp0_PageMask (Z.land v cp0_pagemask_mask_mask))
    else mret tt
  else if r =? cp0_Wired then
    modify (set_cp0r cp0_Random 47);;
    modify (set_cp0r cp0_Wired (Z.land v 0x3f))
  else if r =? cp0_Count then modify (set_cp0r cp0_Count (lo v))
  else if r =? cp0_EntryHi then modify (set_cp0r cp0_EntryHi (Z.land v 0xfffff0ff))
  else if r =? cp0_Compare then
    modify (set_cp0r cp0_Compare (lo v));;
    modify (upd_cp0 cp0_Cause (λ x, Z.land x (c_not 64 (Z.shiftl 1 cp0_cause_ip7_shift))))
  else if r =? cp0_Status then modify (set_cp0r cp0_Status (Z.land v 0xff77ff1f))
  else if r =? cp0_Cause then
    modify (upd_cp0 cp0_Cause (λ x, Z.land x (c_not 32 (Z.lor cp0_cause_ip0_mask cp0_cause_ip1_mask))));;
    modify (upd_cp0 cp0_Cause (λ x, Z.lor x (Z.land v (Z.lor cp0_cause_ip0_mask cp0_cause_ip1_mask))))
  else if r =? cp0_EPC then modify (set_cp0r cp0_EPC v)
  else if r =? cp0_Config then modify (set_cp0r cp0_Config (Z.land v 0xffffefff))
  else if r =? cp0_LLAddr then modify (set_cp0r cp0_LLAddr v)
  else if r =? cp0_WatchLo then
    modify (set_cp0r cp0_WatchLo (Z.land v (c_not 32 cp0_watchlo_res_mask)));; modify update_waddr
  else if r =? cp0_WatchHi then
    modify (set_cp0r cp0_WatchHi (Z.land v (c_not 32 cp0_watchhi_res_mask)));; modify update_waddr
  else if r =? cp0_XContext then stop AssertFailed
  else if r =? cp0_ECC then modify (set_cp0r cp0_ECC (Z.land v cp0_ecc_ecc_mask))
  else if r =? cp0_TagLo then modify (set_cp0r cp0_TagLo v)
  else if r =? cp0_TagHi then modify (set_cp0r cp0_TagHi v)
  else if r =? cp0_ErrorEPC then modify (set_cp0r cp0_ErrorEPC v)
  else mret tt.

Definition instr_mtc0 (i : Z) : st C r4k_exc :=
  with_cop0 (c ← get_st; cp0_write (f_rd i) (rt_val i c);; mret r4k_excNone).
(** The code after the assertion is never reached. *)
Definition instr_dmtc0 (i : Z) : st C r4k_exc := stop AssertFailed.

Definition instr_tlbp (i : Z) : st C r4k_exc := TLBP.
Definition instr_tlbr (i : Z) : st C r4k_exc := TLBR.
Definition instr_tlbwi (i : Z) : st C r4k_exc := TLBW false.
Definition instr_tlbwr (i : Z) : st C r4k_exc := TLBW true.

(** ** Instructions on the whole machine *)
Section Machine.
Context {F D : Type} `{BoardOf r4k_cpu F D}.
Abbreviation W := (world r4k_cpu F D).

Definition instr_eret (i : Z) : st W r4k_exc :=
  c ← cpu;
  if CP0_USABLE c then
    cpu_modify (λ c, c <| llbit := false |>);;
    sc_unregister (procno c);;
    (if truthy (cp0_status_erl c) then
       cpu_modify (λ c, c <| pc_next := cp0r cp0_ErrorEPC c |>);;
       cpu_modify (upd_cp0 cp0_Status (λ v, Z.land v (c_not 32 cp0_status_erl_mask)))
     else
       cpu_modify (λ c, c <| pc_next := cp0r cp0_EPC c |>);;
       cpu_modify (upd_cp0 cp0_Status (λ v, Z.land v (c_not 32 cp0_status_exl_mask))));;
    mret r4k_excNone
  else on_cpu cop0_unusable.

Definition instr__warning (i : Z) : st W r4k_exc :=
  modify (λ w, w <| machine_undefined := true |>);; mret r4k_excNone.

(** The instructions of the simulator are reserved unless they are enabled. *)
Definition if_specific (m : st W unit) : st W r4k_exc :=
  w ← get_st;
  if negb (machine_specific_instructions w) then mret r4k_excRI else m;; mret r4k_excNone.

Definition instr__xcrd (i : Z) : st W r4k_exc := if_specific (mret tt).
Definition instr__xrd (i : Z) : st W r4k_exc := if_specific (mret tt).
Definition instr__xval (i : Z) : st W r4k_exc := if_specific (mret tt).
Definition instr__xhlt (i : Z) : st W r4k_exc := if_specific (modify (λ w, w <| machine_halt := true |>)).
Definition instr__xtr0 (i : Z) : st W r4k_exc := if_specific (modify (λ w, w <| machine_trace := false |>)).
Definition instr__xtrc (i : Z) : st W r4k_exc :=
  if_specific (
    cpu_modify (λ c, c <| old_regs := regs c |> <| old_cp0 := cp0 c |>
                       <| old_loreg := loreg c |> <| old_hireg := hireg c |>);;
    modify (λ w, w <| machine_trace := true |>)).

(** XINT alone is available without the switch. *)
Definition instr__xint (i : Z) : st W r4k_exc :=
  w ← get_st;
  (if interactive_allowed w then phys_modify (λ p, p <| machine_interactive := true |>)
   else modify (λ w, w <| machine_halt := true |>));;
  mret r4k_excNone.
End Machine.
