(* ===== verification/R4kMemOps.v ===== *)
(** * Loads and stores of the R4000 (mips_r4000/instr/*.c)

    The address is the sum of a register and the signed offset.  LWL, LWR, SWL
    and SWR access the word that contains the address and combine it with the
    register through the shift tables of cpu.c.  LL registers the processor for
    notifications of stores, SC and ERET end this. *)

From S2P Require Import Prelude PhysMem Machine R4kTypes R4kTlb R4kMem R4kComp.
Import PhysMem.

(** ** Tables for partial words, indexed by the low bits of the address *)
Definition shift_tab_left : list (Z * Z) :=
  [(0x00ffffff, 24); (0x0000ffff, 16); (0x000000ff, 8); (0x00000000, 0)].
Definition shift_tab_right : list (Z * Z) :=
  [(0x00000000, 0); (0xff000000, 8); (0xffff0000, 16); (0xffffff00, 24)].
Definition shift_tab_left_store : list (Z * Z) :=
  [(0xffffff00, 24); (0xffff0000, 16); (0xff000000, 8); (0x00000000, 0)].
Definition shift_tab_right_store : list (Z * Z) :=
  [(0x00000000, 0); (0x000000ff, 8); (0x0000ffff, 16); (0x00ffffff, 24)].

Definition tab_at (tab : list (Z * Z)) (index : Z) : Z * Z := default (0, 0) (tab !! Z.to_nat index).

(** The new register value of LWL and LWR, the new memory word of SWL and SWR. *)
Definition lwl_combine (index rt val : Z) : Z :=
  let '(m, s) := tab_at shift_tab_left index in
  Z.lor (Z.land (lo rt) m) (lo (Z.shiftl val s)).
Definition lwr_combine (index rt val : Z) : Z :=
  let '(m, s) := tab_at shift_tab_right index in
  Z.lor (Z.land (lo rt) m) (Z.land (Z.shiftr val s) (c_not 32 m)).
Definition swl_combine (index rt val : Z) : Z :=
  let '(m, s) := tab_at shift_tab_left_store index in
  Z.lor (Z.land val m) (Z.land (Z.shiftr (lo rt) s) (c_not 32 m)).
Definition swr_combine (index rt val : Z) : Z :=
  let '(m, s) := tab_at shift_tab_right_store index in
  Z.lor (Z.land val m) (lo (Z.shiftl (lo rt) s)).

(** [regs[rs] + sign_extend_16_64(imm)] *)
Definition effective_addr (i : Z) (c : r4k_cpu) : Z := u64 (rs_val i c + sign_extend_16_64 (f_imm i)).

(** The word that contains the address. *)
Definition word_base (addr : Z) : Z := Z.land addr (c_not 64 0x03).

Section MemOps.
Context {F D : Type} `{BoardOf r4k_cpu F D}.
Abbreviation W := (world r4k_cpu F D).

(** ** Loads *)
Definition load (read : Z → bool → st W (r4k_exc * option Z)) (ext : Z → Z) (i : Z) : st W r4k_exc :=
  c ← cpu;
  '(res, val) ← read (effective_addr i c) true;
  (match res, val with
   | r4k_excNone, Some v => cpu_modify (set_reg (f_rt i) (ext v))
   | _, _ => mret tt
   end);;
  mret res.

Definition w_if_64bit (m : st W r4k_exc) : st W r4k_exc :=
  c ← cpu; if CPU_64BIT_INSTRUCTION c then m else mret r4k_excRI.

Definition instr_lb : Z → st W r4k_exc := load cpu_read_mem8 sign_extend_8_64.
Definition instr_lbu : Z → st W r4k_exc := load cpu_read_mem8 (λ v, v).
Definition instr_lh : Z → st W r4k_exc := load cpu_read_mem16 sign_extend_16_64.
Definition instr_lhu : Z → st W r4k_exc := load cpu_read_mem16 (λ v, v).
Definition instr_lw : Z → st W r4k_exc := load r4k_read_mem32 sign_extend_32_64.
Definition instr_lwu (i : Z) : st W r4k_exc := w_if_64bit (load r4k_read_mem32 (λ v, v) i).
Definition instr_ld (i : Z) : st W r4k_exc := w_if_64bit (load cpu_read_mem64 (λ v, v) i).

Definition instr_lwl (i : Z) : st W r4k_exc :=
  c ← cpu;
  let base := effective_addr i c in
  '(res, val) ← r4k_read_mem32 (word_base base) true;
  (match res, val with
   | r4k_excNone, Some v =>
       cpu_modify (λ c, set_reg (f_rt i)
         (sign_extend_32_64 (lwl_combine (Z.land base 0x03) (rt_val i c) v)) c)
   | _, _ => mret tt
   end);;
  mret res.

(** The result is sign-extended only if the whole word was loaded. *)
Definition instr_lwr (i : Z) : st W r4k_exc :=
  c ← cpu;
  let base := effective_addr i c in
  '(res, val) ← r4k_read_mem32 (word_base base) true;
  (match res, val with
   | r4k_excNone, Some v =>
       let index := Z.land base 0x03 in
       cpu_modify (λ c,
         let comb := lwr_combine index (rt_val i c) v in
         set_reg (f_rt i) (if index =? 0 then sign_extend_32_64 comb else comb) c)
   | _, _ => mret tt
   end);;
  mret res.

(** ** Stores *)
Definition store (write : Z → Z → bool → st W r4k_exc) (val : Z → Z) (i : Z) : st W r4k_exc :=
  c ← cpu; write (effective_addr i c) (val (rt_val i c)) true.

Definition instr_sb : Z → st W r4k_exc := store cpu_write_mem8 (λ v, wrap 8 (lo v)).
Definition instr_sh : Z → st W r4k_exc := store cpu_write_mem16 (λ v, wrap 16 (lo v)).
Definition instr_sw : Z → st W r4k_exc := store cpu_write_mem32 lo.
Definition instr_sd (i : Z) : st W r4k_exc := w_if_64bit (store cpu_write_mem64 (λ v, v) i).

Definition store_partial (combine : Z → Z → Z → Z) (i : Z) : st W r4k_exc :=
  c ← cpu;
  let base := effective_addr i c in
  '(res, val) ← r4k_read_mem32 (word_base base) true;
  match res, val with
  | r4k_excNone, Some v =>
      c ← cpu;
      cpu_write_mem32 (word_base base) (combine (Z.land base 0x03) (rt_val i c) v) true
  | _, _ => mret res
  end.

Definition instr_swl : Z → st W r4k_exc := store_partial swl_combine.
Definition instr_swr : Z → st W r4k_exc := store_partial swr_combine.

(** ** Load linked and store conditional *)
Definition load_linked (read : Z → bool → st W (r4k_exc * option Z)) (ext : Z → Z) (i : Z) : st W r4k_exc :=
  c ← cpu;
  let addr := effective_addr i c in
  '(res, val) ← read addr true;
  (match res, val with
   | r4k_excNone, Some v =>
       cpu_modify (set_reg (f_rt i) (ext v));;
       '(_, phys) ← on_cpu (r4k_convert_addr addr false false);
       sc_register (procno c);;
       cpu_modify (λ c, c <| llbit := true |>);;
       p ← on_cpu (written phys);
       cpu_modify (λ c, c <| lladdr := p |>)
   | _, _ =>
       sc_unregister (procno c);;
       cpu_modify (λ c, c <| llbit := false |>)
   end);;
  mret res.

Definition instr_ll : Z → st W r4k_exc := load_linked r4k_read_mem32 sign_extend_32_64.
Definition instr_lld (i : Z) : st W r4k_exc := w_if_64bit (load_linked cpu_read_mem64 (λ v, v) i).

(** A difference between the two addresses is only reported. *)
Definition store_conditional (write : Z → Z → bool → st W r4k_exc) (val : Z → Z) (i : Z) : st W r4k_exc :=
  c ← cpu;
  if negb (llbit c) then cpu_modify (set_reg (f_rt i) 0);; mret r4k_excNone
  else
    let addr := effective_addr i c in
    res ← write addr (val (rt_val i c)) true;
    (match res with
     | r4k_excNone =>
         cpu_modify (set_reg (f_rt i) 1);;
         '(_, phys) ← on_cpu (r4k_convert_addr addr false false);
         on_cpu (written phys);; mret tt
     | _ => mret tt
     end);;
    sc_unregister (procno c);;
    cpu_modify (λ c, c <| llbit := false |>);;
    mret res.

Definition instr_sc : Z → st W r4k_exc := store_conditional cpu_write_mem32 lo.
Definition instr_scd (i : Z) : st W r4k_exc := w_if_64bit (store_conditional cpu_write_mem64 (λ v, v) i).
End MemOps.
