(* ===== verification/R4kDecode.v ===== *)
(** * Decoding R4000 instructions (mips_r4000/cpu.c)

    The tables of the source, entry by entry.  A function pointer is a value of
    [instr_fnc]; the call through it is [instr_exec] of [R4kCpu]. *)

From S2P Require Import Prelude R4kTypes.

Module Fnc.
(** [fnc_out_of_table] stands for what lies behind the end of a table. *)
Inductive instr_fnc :=
  | instr__reserved | instr_j | instr_jal | instr_beq | instr_bne | instr_blez | instr_bgtz
  | instr_addi | instr_addiu | instr_slti | instr_sltiu | instr_andi | instr_ori | instr_xori
  | instr_lui | instr_beql | instr_bnel | instr_blezl | instr_bgtzl | instr_daddi | instr_daddiu
  | instr_ldl | instr_ldr | instr_lb | instr_lh | instr_lwl | instr_lw | instr_lbu | instr_lhu
  | instr_lwr | instr_lwu | instr_sb | instr_sh | instr_swl | instr_sw | instr_sdl | instr_sdr
  | instr_swr | instr_cache | instr_ll | instr_lwc1 | instr_lwc2 | instr_lld | instr_ldc1
  | instr_ldc2 | instr_ld | instr_sc | instr_swc1 | instr_swc2 | instr_scd | instr_sdc1
  | instr_sdc2 | instr_sd | instr_sll | instr_srl | instr_sra | instr_sllv | instr_srlv
  | instr_srav | instr_jr | instr_jalr | instr_syscall | instr_break | instr__xcrd | instr_sync
  | instr_mfhi | instr_mthi | instr_mflo | instr_mtlo | instr_dsllv | instr_dsrlv | instr_dsrav
  | instr_mult | instr_multu | instr_div | instr_divu | instr_dmult | instr_dmultu | instr_ddiv
  | instr_ddivu | instr_add | instr_addu | instr_sub | instr_subu | instr_and | instr_or
  | instr_xor | instr_nor | instr__xhlt | instr__xint | instr_slt | instr_sltu | instr_dadd
  | instr_daddu | instr_dsub | instr_dsubu | instr_tge | instr_tgeu | instr_tlt | instr_tltu
  | instr_teq | instr__xval | instr_tne | instr__xrd | instr_dsll | instr__xtrc | instr_dsrl
  | instr_dsra | instr_dsll32 | instr__xtr0 | instr_dsrl32 | instr_dsra32 | instr_bltz | instr_bgez
  | instr_bltzl | instr_bgezl | instr_tgei | instr_tgeiu | instr_tlti | instr_tltiu | instr_teqi
  | instr_tnei | instr_bltzal | instr_bgezal | instr_bltzall | instr_bgezall | instr_mfc0
  | instr_dmfc0 | instr_mtc0 | instr_dmtc0 | instr_mfc1 | instr_dmfc1 | instr_cfc1 | instr_mtc1
  | instr_dmtc1 | instr_ctc1 | instr_mfc2 | instr_cfc2 | instr_ctc2 | instr_bc0f | instr_bc0t
  | instr_bc0fl | instr_bc0tl | instr_bc1f | instr_bc1t | instr_bc1fl | instr_bc1tl | instr_bc2f
  | instr_bc2t | instr_bc2fl | instr_bc2tl | instr__warning | instr_tlbr | instr_tlbwi
  | instr_tlbwr | instr_tlbp | instr_eret | fnc_out_of_table.
End Fnc.
Import Fnc.

Definition opcode_map : list instr_fnc :=
  [instr__reserved; instr__reserved; instr_j; instr_jal; instr_beq; instr_bne; instr_blez;
   instr_bgtz; instr_addi; instr_addiu; instr_slti; instr_sltiu; instr_andi; instr_ori; instr_xori;
   instr_lui; instr__reserved; instr__reserved; instr__reserved; instr__reserved; instr_beql;
   instr_bnel; instr_blezl; instr_bgtzl; instr_daddi; instr_daddiu; instr_ldl; instr_ldr;
   instr__reserved; instr__reserved; instr__reserved; instr__reserved; instr_lb; instr_lh;
   instr_lwl; instr_lw; instr_lbu; instr_lhu; instr_lwr; instr_lwu; instr_sb; instr_sh; instr_swl;
   instr_sw; instr_sdl; instr_sdr; instr_swr; instr_cache; instr_ll; instr_lwc1; instr_lwc2;
   instr__reserved; instr_lld; instr_ldc1; instr_ldc2; instr_ld; instr_sc; instr_swc1; instr_swc2;
   instr__reserved; instr_scd; instr_sdc1; instr_sdc2; instr_sd].

Definition func_map : list instr_fnc :=
  [instr_sll; instr__reserved; instr_srl; instr_sra; instr_sllv; instr__reserved; instr_srlv;
   instr_srav; instr_jr; instr_jalr; instr__reserved; instr__reserved; instr_syscall; instr_break;
   instr__xcrd; instr_sync; instr_mfhi; instr_mthi; instr_mflo; instr_mtlo; instr_dsllv;
   instr__reserved; instr_dsrlv; instr_dsrav; instr_mult; instr_multu; instr_div; instr_divu;
   instr_dmult; instr_dmultu; instr_ddiv; instr_ddivu; instr_add; instr_addu; instr_sub;
   instr_subu; instr_and; instr_or; instr_xor; instr_nor; instr__xhlt; instr__xint; instr_slt;
   instr_sltu; instr_dadd; instr_daddu; instr_dsub; instr_dsubu; instr_tge; instr_tgeu; instr_tlt;
   instr_tltu; instr_teq; instr__xval; instr_tne; instr__xrd; instr_dsll; instr__xtrc; instr_dsrl;
   instr_dsra; instr_dsll32; instr__xtr0; instr_dsrl32; instr_dsra32].

Definition rt_map : list instr_fnc :=
  [instr_bltz; instr_bgez; instr_bltzl; instr_bgezl; instr__reserved; instr__reserved;
   instr__reserved; instr__reserved; instr_tgei; instr_tgeiu; instr_tlti; instr_tltiu; instr_teqi;
   instr__reserved; instr_tnei; instr__reserved; instr_bltzal; instr_bgezal; instr_bltzall;
   instr_bgezall; instr__reserved; instr__reserved; instr__reserved; instr__reserved;
   instr__reserved; instr__reserved; instr__reserved; instr__reserved; instr__reserved;
   instr__reserved; instr__reserved; instr__reserved].

Definition cop0_rs_map : list instr_fnc :=
  [instr_mfc0; instr_dmfc0; instr__reserved; instr__reserved; instr_mtc0; instr_dmtc0;
   instr__reserved; instr__reserved; instr__reserved; instr__reserved; instr__reserved;
   instr__reserved; instr__reserved; instr__reserved; instr__reserved; instr__reserved;
   instr__reserved; instr__reserved; instr__reserved; instr__reserved; instr__reserved;
   instr__reserved; instr__reserved; instr__reserved; instr__reserved; instr__reserved;
   instr__reserved; instr__reserved; instr__reserved; instr__reserved; instr__reserved;
   instr__reserved].

Definition cop1_rs_map : list instr_fnc :=
  [instr_mfc1; instr_dmfc1; instr_cfc1; instr__reserved; instr_mtc1; instr_dmtc1; instr_ctc1;
   instr__reserved; instr__reserved; instr__reserved; instr__reserved; instr__reserved;
   instr__reserved; instr__reserved; instr__reserved; instr__reserved; instr__reserved;
   instr__reserved; instr__reserved; instr__reserved; instr__reserved; instr__reserved;
   instr__reserved; instr__reserved; instr__reserved; instr__reserved; instr__reserved;
   instr__reserved; instr__reserved; instr__reserved; instr__reserved; instr__reserved].

Definition cop2_rs_map : list instr_fnc :=
  [instr_mfc2; instr__reserved; instr_cfc2; instr__reserved; instr__reserved; instr__reserved;
   instr_ctc2; instr__reserved; instr__reserved; instr__reserved; instr__reserved; instr__reserved;
   instr__reserved; instr__reserved; instr__reserved; instr__reserved; instr__reserved;
   instr__reserved; instr__reserved; instr__reserved; instr__reserved; instr__reserved;
   instr__reserved; instr__reserved; instr__reserved; instr__reserved; instr__reserved;
   instr__reserved; instr__reserved; instr__reserved; instr__reserved; instr__reserved].

Definition cop0_rt_map : list instr_fnc :=
  [instr_bc0f; instr_bc0t; instr_bc0fl; instr_bc0tl; instr__reserved; instr__reserved;
   instr__reserved; instr__reserved; instr__reserved; instr__reserved; instr__reserved;
   instr__reserved; instr__reserved; instr__reserved; instr__reserved; instr__reserved;
   instr__reserved; instr__reserved; instr__reserved; instr__reserved; instr__reserved;
   instr__reserved; instr__reserved; instr__reserved; instr__reserved; instr__reserved;
   instr__reserved; instr__reserved; instr__reserved; instr__reserved; instr__reserved;
   instr__reserved].

Definition cop1_rt_map : list instr_fnc :=
  [instr_bc1f; instr_bc1t; instr_bc1fl; instr_bc1tl; instr__reserved; instr__reserved;
   instr__reserved; instr__reserved; instr__reserved; instr__reserved; instr__reserved;
   instr__reserved; instr__reserved; instr__reserved; instr__reserved; instr__reserved;
   instr__reserved; instr__reserved; instr__reserved; instr__reserved; instr__reserved;
   instr__reserved; instr__reserved; instr__reserved; instr__reserved; instr__reserved;
   instr__reserved; instr__reserved; instr__reserved; instr__reserved; instr__reserved;
   instr__reserved].

Definition cop2_rt_map : list instr_fnc :=
  [instr_bc2f; instr_bc2t; instr_bc2fl; instr_bc2tl; instr__reserved; instr__reserved;
   instr__reserved; instr__reserved; instr__reserved; instr__reserved; instr__reserved;
   instr__reserved; instr__reserved; instr__reserved; instr__reserved; instr__reserved;
   instr__reserved; instr__reserved; instr__reserved; instr__reserved; instr__reserved;
   instr__reserved; instr__reserved; instr__reserved; instr__reserved; instr__reserved;
   instr__reserved; instr__reserved; instr__reserved; instr__reserved; instr__reserved;
   instr__reserved].

Definition cop0_func_map : list instr_fnc :=
  [instr__warning; instr_tlbr; instr_tlbwi; instr__warning; instr__warning; instr__warning;
   instr_tlbwr; instr__warning; instr_tlbp; instr__warning; instr__warning; instr__warning;
   instr__warning; instr__warning; instr__warning; instr__warning; instr__reserved; instr__warning;
   instr__warning; instr__warning; instr__warning; instr__warning; instr__warning; instr__warning;
   instr_eret; instr__warning; instr__warning; instr__warning; instr__warning; instr__warning;
   instr__warning; instr__warning; instr__warning; instr__warning; instr__warning; instr__warning;
   instr__warning; instr__warning; instr__warning; instr__warning; instr__warning; instr__warning;
   instr__warning; instr__warning; instr__warning; instr__warning; instr__warning; instr__warning;
   instr__warning; instr__warning; instr__warning; instr__warning; instr__warning; instr__warning;
   instr__warning; instr__warning; instr__warning; instr__warning; instr__warning; instr__warning;
   instr__warning; instr__warning; instr__warning; instr__warning].

Definition table_at (t : list instr_fnc) (k : Z) : instr_fnc := default fnc_out_of_table (t !! Z.to_nat k).

Definition r4k_opcSPECIAL : Z := 0.
Definition r4k_opcREGIMM : Z := 1.
Definition r4k_opcCOP0 : Z := 16.
Definition r4k_opcCOP1 : Z := 17.
Definition r4k_opcCOP2 : Z := 18.
Definition cop0rsBC : Z := 8.
Definition cop0rsCO : Z := 16.
Definition cop1rsBC : Z := 8.
Definition cop2rsBC : Z := 8.

(** The 8-bit field indexes a table of 64 entries. *)
Definition decode (i : Z) : instr_fnc :=
  if f_opcode i =? r4k_opcSPECIAL then table_at func_map (f_func i)
  else if f_opcode i =? r4k_opcREGIMM then table_at rt_map (f_rt i)
  else if f_opcode i =? r4k_opcCOP0 then
    if f_rs i =? cop0rsBC then table_at cop0_rt_map (f_rt i)
    else if f_rs i =? cop0rsCO then table_at cop0_func_map (f_cop_func i)
    else table_at cop0_rs_map (f_rs i)
  else if f_opcode i =? r4k_opcCOP1 then
    if f_rs i =? cop1rsBC then table_at cop1_rt_map (f_rt i)
    else table_at cop1_rs_map (f_rs i)
  else if f_opcode i =? r4k_opcCOP2 then
    if f_rs i =? cop2rsBC then table_at cop2_rt_map (f_rt i)
    else table_at cop2_rs_map (f_rs i)
  else table_at opcode_map (f_opcode i).
