(* ===== verification/R4kCpu.v ===== *)
(** * The R4000 processor (mips_r4000/cpu.c)

    A step executes the instruction at [pc], takes an exception or an interrupt,
    advances Count and Random and accounts the cycle.  Jumps return [r4k_excJump]:
    the step then goes on to the delay slot at [pc + 4], with the target in
    [pc_next].  Trace output is not modelled. *)

From S2P Require Import Prelude PhysMem Machine ICache R4kTypes R4kTlb R4kMem R4kComp R4kCtl R4kSys R4kMemOps R4kDecode.
Import PhysMem.

Definition EXCEPTION_BOOT_BASE_ADDRESS : Z := 0xffffffffbfc00200.
Definition EXCEPTION_BOOT_RESET_ADDRESS : Z := HARD_RESET_START_ADDRESS.
Definition EXCEPTION_NORMAL_BASE_ADDRESS : Z := 0xffffffff80000000.
Definition EXCEPTION_NORMAL_RESET_ADDRESS : Z := HARD_RESET_START_ADDRESS.
Definition EXCEPTION_OFFSET : Z := 0x0180.

(** ** Exceptions *)

(** TLB refills become the plain TLB exceptions, with the flag set. *)
Definition refill_of (res : r4k_exc) : bool * r4k_exc :=
  match res with
  | r4k_excTLBLR => (true, r4k_excTLBL)
  | r4k_excTLBSR => (true, r4k_excTLBS)
  | _ => (false, res)
  end.

Definition exception_vector (tlb_refill : bool) (res : r4k_exc) (c : r4k_cpu) : Z :=
  let base :=
    if truthy (cp0_status_bev c) then
      if negb (is_exc res r4k_excReset) then EXCEPTION_BOOT_BASE_ADDRESS
      else EXCEPTION_BOOT_RESET_ADDRESS
    else
      if negb (is_exc res r4k_excReset) then EXCEPTION_NORMAL_BASE_ADDRESS
      else EXCEPTION_NORMAL_RESET_ADDRESS in
  if truthy (cp0_status_exl c) || negb tlb_refill then u64 (base + EXCEPTION_OFFSET) else base.

(** The exception code and the branch-delay bit of Cause. *)
Definition set_cause (res : r4k_exc) (c : r4k_cpu) : r4k_cpu :=
  let c := upd_cp0 cp0_Cause (λ v, Z.land v (c_not 32 cp0_cause_exccode_mask)) c in
  let c := upd_cp0 cp0_Cause (λ v, Z.lor v (Z.shiftl (exc_no res) cp0_cause_exccode_shift)) c in
  let c := upd_cp0 cp0_Cause (λ v, Z.land v (c_not 32 cp0_cause_bd_mask)) c in
  if branch_is (branch c) BRANCH_PASSED then upd_cp0 cp0_Cause (λ v, Z.lor v cp0_cause_bd_mask) c
  else c.

Definition set_epc (res : r4k_exc) (c : r4k_cpu) : r4k_cpu :=
  if negb (truthy (cp0_status_exl c)) then
    let c := set_cp0r cp0_EPC (excaddr c) c in
    if is_exc res r4k_excInt && negb (branch_is (branch c) BRANCH_COND)
    then set_cp0r cp0_EPC (pc c) c else c
  else c.

Definition handle_exception (exc : r4k_exc) : st r4k_cpu unit :=
  let '(tlb_refill, res) := refill_of exc in
  c_assert (exc_no res <=? exc_no r4k_excVCED);;
  modify (λ c, if stdby c then r4k_set_pc (pc_next c) c else c);;
  modify (λ c, c <| stdby := false |>);;
  modify (set_cause res);;
  modify (set_epc res);;
  modify (λ c, r4k_set_pc (exception_vector tlb_refill res c) c);;
  modify (upd_cp0 cp0_Status (λ v, Z.lor v cp0_status_exl_mask)).

(** ** Time *)
Definition interrupt_pending (c : r4k_cpu) : bool :=
  negb (truthy (cp0_status_exl c)) && negb (truthy (cp0_status_erl c)) && truthy (cp0_status_ie c) &&
  truthy (Z.land (Z.land (cp0r cp0_Cause c) (cp0r cp0_Status c)) cp0_cause_ip_mask).

(** Random counts down from 47 and starts again below Wired. *)
Definition tick_random (c : r4k_cpu) : r4k_cpu :=
  let c := if cp0r cp0_Random c =? 0 then set_cp0r cp0_Random 47 c
           else set_cp0r cp0_Random (cp0r cp0_Random c - 1) c in
  if cp0r cp0_Random c <? cp0r cp0_Wired c then set_cp0r cp0_Random 47 c else c.

Definition tick_timer (c : r4k_cpu) : r4k_cpu :=
  if lo (cp0r cp0_Count c) =? lo (cp0r cp0_Compare c)
  then upd_cp0 cp0_Cause (λ v, Z.lor v (Z.shiftl 1 cp0_cause_ip7_shift)) c else c.

Definition manage (exc : r4k_exc) : st r4k_cpu unit :=
  c ← get_st;
  let exc := if is_exc exc r4k_excNone && interrupt_pending c then r4k_excInt else exc in
  (if is_exc exc r4k_excNone then mret tt else handle_exception exc);;
  modify (upd_cp0 cp0_Count (λ v, u64 (v + 1)));;
  modify tick_random;;
  modify tick_timer;;
  modify (λ c, c <| branch := branch_pred (branch c) |>).

Definition account : st r4k_cpu unit :=
  modify (λ c,
    if stdby c then c <| w_cycles := u64 (w_cycles c + 1) |>
    else if CPU_KERNEL_MODE c then c <| k_cycles := u64 (k_cycles c + 1) |>
    else c <| u_cycles := u64 (u_cycles c + 1) |>).

(** ** Execution *)
Abbreviation F := Fnc.instr_fnc.

Section Cpu.
Context {D : Type} `{BoardOf r4k_cpu F D}.
Abbreviation W := (world r4k_cpu F D).

(** The call through the function pointer. *)
Definition instr_exec (f : F) (i : Z) : st W r4k_exc :=
  match f with
  | Fnc.instr__reserved => on_cpu (R4kCtl.instr__reserved i)
  | Fnc.instr_j => on_cpu (R4kCtl.instr_j i)
  | Fnc.instr_jal => on_cpu (R4kCtl.instr_jal i)
  | Fnc.instr_beq => on_cpu (R4kCtl.instr_beq i)
  | Fnc.instr_bne => on_cpu (R4kCtl.instr_bne i)
  | Fnc.instr_blez => on_cpu (R4kCtl.instr_blez i)
  | Fnc.instr_bgtz => on_cpu (R4kCtl.instr_bgtz i)
  | Fnc.instr_addi => on_cpu (R4kComp.instr_addi i)
  | Fnc.instr_addiu => on_cpu (R4kComp.instr_addiu i)
  | Fnc.instr_slti => on_cpu (R4kComp.instr_slti i)
  | Fnc.instr_sltiu => on_cpu (R4kComp.instr_sltiu i)
  | Fnc.instr_andi => on_cpu (R4kComp.instr_andi i)
  | Fnc.instr_ori => on_cpu (R4kComp.instr_ori i)
  | Fnc.instr_xori => on_cpu (R4kComp.instr_xori i)
  | Fnc.instr_lui => on_cpu (R4kComp.instr_lui i)
  | Fnc.instr_beql => on_cpu (R4kCtl.instr_beql i)
  | Fnc.instr_bnel => on_cpu (R4kCtl.instr_bnel i)
  | Fnc.instr_blezl => on_cpu (R4kCtl.instr_blezl i)
  | Fnc.instr_bgtzl => on_cpu (R4kCtl.instr_bgtzl i)
  | Fnc.instr_daddi => on_cpu (R4kComp.instr_daddi i)
  | Fnc.instr_daddiu => on_cpu (R4kComp.instr_daddiu i)
  | Fnc.instr_ldl => on_cpu (R4kCtl.instr_ldl i)
  | Fnc.instr_ldr => on_cpu (R4kCtl.instr_ldr i)
  | Fnc.instr_lb => R4kMemOps.instr_lb i
  | Fnc.instr_lh => R4kMemOps.instr_lh i
  | Fnc.instr_lwl => R4kMemOps.instr_lwl i
  | Fnc.instr_lw => R4kMemOps.instr_lw i
  | Fnc.instr_lbu => R4kMemOps.instr_lbu i
  | Fnc.instr_lhu => R4kMemOps.instr_lhu i
  | Fnc.instr_lwr => R4kMemOps.instr_lwr i
  | Fnc.instr_lwu => R4kMemOps.instr_lwu i
  | Fnc.instr_sb => R4kMemOps.instr_sb i
  | Fnc.instr_sh => R4kMemOps.instr_sh i
  | Fnc.instr_swl => R4kMemOps.instr_swl i
  | Fnc.instr_sw => R4kMemOps.instr_sw i
  | Fnc.instr_sdl => on_cpu (R4kCtl.instr_sdl i)
  | Fnc.instr_sdr => on_cpu (R4kCtl.instr_sdr i)
  | Fnc.instr_swr => R4kMemOps.instr_swr i
  | Fnc.instr_cache => on_cpu (R4kCtl.instr_cache i)
  | Fnc.instr_ll => R4kMemOps.instr_ll i
  | Fnc.instr_lwc1 => on_cpu (R4kSys.instr_lwc1 i)
  | Fnc.instr_lwc2 => on_cpu (R4kSys.instr_lwc2 i)
  | Fnc.instr_lld => R4kMemOps.instr_lld i
  | Fnc.instr_ldc1 => on_cpu (R4kSys.instr_ldc1 i)
  | Fnc.instr_ldc2 => on_cpu (R4kSys.instr_ldc2 i)
  | Fnc.instr_ld => R4kMemOps.instr_ld i
  | Fnc.instr_sc => R4kMemOps.instr_sc i
  | Fnc.instr_swc1 => on_cpu (R4kSys.instr_swc1 i)
  | Fnc.instr_swc2 => on_cpu (R4kSys.instr_swc2 i)
  | Fnc.instr_scd => R4kMemOps.instr_scd i
  | Fnc.instr_sdc1 => on_cpu (R4kSys.instr_sdc1 i)
  | Fnc.instr_sdc2 => on_cpu (R4kSys.instr_sdc2 i)
  | Fnc.instr_sd => R4kMemOps.instr_sd i
  | Fnc.instr_sll => on_cpu (R4kComp.instr_sll i)
  | Fnc.instr_srl => on_cpu (R4kComp.instr_srl i)
  | Fnc.instr_sra => on_cpu (R4kComp.instr_sra i)
  | Fnc.instr_sllv => on_cpu (R4kComp.instr_sllv i)
  | Fnc.instr_srlv => on_cpu (R4kComp.instr_srlv i)
  | Fnc.instr_srav => on_cpu (R4kComp.instr_srav i)
  | Fnc.instr_jr => on_cpu (R4kCtl.instr_jr i)
  | Fnc.instr_jalr => on_cpu (R4kCtl.instr_jalr i)
  | Fnc.instr_syscall => on_cpu (R4kCtl.instr_syscall i)
  | Fnc.instr_break => on_cpu (R4kCtl.instr_break i)
  | Fnc.instr__xcrd => R4kSys.instr__xcrd i
  | Fnc.instr_sync => on_cpu (R4kCtl.instr_sync i)
  | Fnc.instr_mfhi => on_cpu (R4kComp.instr_mfhi i)
  | Fnc.instr_mthi => on_cpu (R4kComp.instr_mthi i)
  | Fnc.instr_mflo => on_cpu (R4kComp.instr_mflo i)
  | Fnc.instr_mtlo => on_cpu (R4kComp.instr_mtlo i)
  | Fnc.instr_dsllv => on_cpu (R4kComp.instr_dsllv i)
  | Fnc.instr_dsrlv => on_cpu (R4kComp.instr_dsrlv i)
  | Fnc.instr_dsrav => on_cpu (R4kComp.instr_dsrav i)
  | Fnc.instr_mult => on_cpu (R4kComp.instr_mult i)
  | Fnc.instr_multu => on_cpu (R4kComp.instr_multu i)
  | Fnc.instr_div => on_cpu (R4kComp.instr_div i)
  | Fnc.instr_divu => on_cpu (R4kComp.instr_divu i)
  | Fnc.instr_dmult => on_cpu (R4kComp.instr_dmult i)
  | Fnc.instr_dmultu => on_cpu (R4kComp.instr_dmultu i)
  | Fnc.instr_ddiv => on_cpu (R4kComp.instr_ddiv i)
  | Fnc.instr_ddivu => on_cpu (R4kComp.instr_ddivu i)
  | Fnc.instr_add => on_cpu (R4kComp.instr_add i)
  | Fnc.instr_addu => on_cpu (R4kComp.instr_addu i)
  | Fnc.instr_sub => on_cpu (R4kComp.instr_sub i)
  | Fnc.instr_subu => on_cpu (R4kComp.instr_subu i)
  | Fnc.instr_and => on_cpu (R4kComp.instr_and i)
  | Fnc.instr_or => on_cpu (R4kComp.instr_or i)
  | Fnc.instr_xor => on_cpu (R4kComp.instr_xor i)
  | Fnc.instr_nor => on_cpu (R4kComp.instr_nor i)
  | Fnc.instr__xhlt => R4kSys.instr__xhlt i
  | Fnc.instr__xint => R4kSys.instr__xint i
  | Fnc.instr_slt => on_cpu (R4kComp.instr_slt i)
  | Fnc.instr_sltu => on_cpu (R4kComp.instr_sltu i)
  | Fnc.instr_dadd => on_cpu (R4kComp.instr_dadd i)
  | Fnc.instr_daddu => on_cpu (R4kComp.instr_daddu i)
  | Fnc.instr_dsub => on_cpu (R4kComp.instr_dsub i)
  | Fnc.instr_dsubu => on_cpu (R4kComp.instr_dsubu i)
  | Fnc.instr_tge => on_cpu (R4kCtl.instr_tge i)
  | Fnc.instr_tgeu => on_cpu (R4kCtl.instr_tgeu i)
  | Fnc.instr_tlt => on_cpu (R4kCtl.instr_tlt i)
  | Fnc.instr_tltu => on_cpu (R4kCtl.instr_tltu i)
  | Fnc.instr_teq => on_cpu (R4kCtl.instr_teq i)
  | Fnc.instr__xval => R4kSys.instr__xval i
  | Fnc.instr_tne => on_cpu (R4kCtl.instr_tne i)
  | Fnc.instr__xrd => R4kSys.instr__xrd i
  | Fnc.instr_dsll => on_cpu (R4kComp.instr_dsll i)
  | Fnc.instr__xtrc => R4kSys.instr__xtrc i
  | Fnc.instr_dsrl => on_cpu (R4kComp.instr_dsrl i)
  | Fnc.instr_dsra => on_cpu (R4kComp.instr_dsra i)
  | Fnc.instr_dsll32 => on_cpu (R4kComp.instr_dsll32 i)
  | Fnc.instr__xtr0 => R4kSys.instr__xtr0 i
  | Fnc.instr_dsrl32 => on_cpu (R4kComp.instr_dsrl32 i)
  | Fnc.instr_dsra32 => on_cpu (R4kComp.instr_dsra32 i)
  | Fnc.instr_bltz => on_cpu (R4kCtl.instr_bltz i)
  | Fnc.instr_bgez => on_cpu (R4kCtl.instr_bgez i)
  | Fnc.instr_bltzl => on_cpu (R4kCtl.instr_bltzl i)
  | Fnc.instr_bgezl => on_cpu (R4kCtl.instr_bgezl i)
  | Fnc.instr_tgei => on_cpu (R4kCtl.instr_tgei i)
  | Fnc.instr_tgeiu => on_cpu (R4kCtl.instr_tgeiu i)
  | Fnc.instr_tlti => on_cpu (R4kCtl.instr_tlti i)
  | Fnc.instr_tltiu => on_cpu (R4kCtl.instr_tltiu i)
  | Fnc.instr_teqi => on_cpu (R4kCtl.instr_teqi i)
  | Fnc.instr_tnei => on_cpu (R4kCtl.instr_tnei i)
  | Fnc.instr_bltzal => on_cpu (R4kCtl.instr_bltzal i)
  | Fnc.instr_bgezal => on_cpu (R4kCtl.instr_bgezal i)
  | Fnc.instr_bltzall => on_cpu (R4kCtl.instr_bltzall i)
  | Fnc.instr_bgezall => on_cpu (R4kCtl.instr_bgezall i)
  | Fnc.instr_mfc0 => on_cpu (R4kSys.instr_mfc0 i)
  | Fnc.instr_dmfc0 => on_cpu (R4kSys.instr_dmfc0 i)
  | Fnc.instr_mtc0 => on_cpu (R4kSys.instr_mtc0 i)
  | Fnc.instr_dmtc0 => on_cpu (R4kSys.instr_dmtc0 i)
  | Fnc.instr_mfc1 => on_cpu (R4kSys.instr_mfc1 i)
  | Fnc.instr_dmfc1 => on_cpu (R4kSys.instr_dmfc1 i)
  | Fnc.instr_cfc1 => on_cpu (R4kSys.instr_cfc1 i)
  | Fnc.instr_mtc1 => on_cpu (R4kSys.instr_mtc1 i)
  | Fnc.instr_dmtc1 => on_cpu (R4kSys.instr_dmtc1 i)
  | Fnc.instr_ctc1 => on_cpu (R4kSys.instr_ctc1 i)
  | Fnc.instr_mfc2 => on_cpu (R4kSys.instr_mfc2 i)
  | Fnc.instr_cfc2 => on_cpu (R4kSys.instr_cfc2 i)
  | Fnc.instr_ctc2 => on_cpu (R4kSys.instr_ctc2 i)
  | Fnc.instr_bc0f => on_cpu (R4kSys.instr_bc0f i)
  | Fnc.instr_bc0t => on_cpu (R4kSys.instr_bc0t i)
  | Fnc.instr_bc0fl => on_cpu (R4kSys.instr_bc0fl i)
  | Fnc.instr_bc0tl => on_cpu (R4kSys.instr_bc0tl i)
  | Fnc.instr_bc1f => on_cpu (R4kSys.instr_bc1f i)
  | Fnc.instr_bc1t => on_cpu (R4kSys.instr_bc1t i)
  | Fnc.instr_bc1fl => on_cpu (R4kSys.instr_bc1fl i)
  | Fnc.instr_bc1tl => on_cpu (R4kSys.instr_bc1tl i)
  | Fnc.instr_bc2f => on_cpu (R4kSys.instr_bc2f i)
  | Fnc.instr_bc2t => on_cpu (R4kSys.instr_bc2t i)
  | Fnc.instr_bc2fl => on_cpu (R4kSys.instr_bc2fl i)
  | Fnc.instr_bc2tl => on_cpu (R4kSys.instr_bc2tl i)
  | Fnc.instr__warning => R4kSys.instr__warning i
  | Fnc.instr_tlbr => on_cpu (R4kSys.instr_tlbr i)
  | Fnc.instr_tlbwi => on_cpu (R4kSys.instr_tlbwi i)
  | Fnc.instr_tlbwr => on_cpu (R4kSys.instr_tlbwr i)
  | Fnc.instr_tlbp => on_cpu (R4kSys.instr_tlbp i)
  | Fnc.instr_eret => R4kSys.instr_eret i
  | Fnc.fnc_out_of_table => stop UndefinedBehaviour
  end.

(** The decoder does not depend on the switch of the machine. *)
Definition r4k_decode (specific : bool) (i : Z) : F := decode i.

(** [None] stands for the null pointer: there is no memory at the address. *)
Definition fetch_instr (phys : Z) : st W (option F) := fetch_cached r4k_decode phys.

(** A failed fetch; the branch in whose delay slot it happened keeps [excaddr]. *)
Definition fetch_fault (e : r4k_exc) : st W r4k_exc :=
  cpu_modify (λ c, if branch_is (branch c) BRANCH_NONE then c <| excaddr := pc c |> else c);;
  mret e.

(** The end of an instruction: exception address, register 0, program counter. *)
Definition finish_instr (exc : r4k_exc) (c : r4k_cpu) : r4k_cpu :=
  let c := if branch_is (branch c) BRANCH_COND || branch_is (branch c) BRANCH_NONE
           then c <| excaddr := pc c |> else c in
  let c := set_reg 0 0 c in
  if is_exc exc r4k_excJump then c <| pc := u64 (pc c + 4) |>
  else c <| pc := pc_next c |> <| pc_next := u64 (pc_next c + 4) |>.

Definition execute : st W r4k_exc :=
  c ← cpu;
  '(res, phys) ← on_cpu (r4k_convert_addr (pc c) false true);
  match res with
  | r4k_excNone =>
      p ← on_cpu (written phys);
      f ← fetch_instr p;
      match f with
      | None => mret r4k_excAdEL
      | Some fnc =>
          instr ← physmem_read32 (procno c) p false;
          exc ← instr_exec fnc instr;
          cpu_modify (finish_instr exc);;
          mret (if is_exc exc r4k_excJump then r4k_excNone else exc)
      end
  | r4k_excAddrError => fetch_fault r4k_excAdEL
  | r4k_excTLB => fetch_fault r4k_excTLBL
  | r4k_excTLBR => fetch_fault r4k_excTLBLR
  | _ => stop AssertFailed
  end.

Definition r4k_step : st W unit :=
  c ← cpu;
  exc ← (if negb (stdby c) then execute else mret r4k_excNone);
  on_cpu (manage exc);;
  on_cpu account.

(** Removing a processor empties the whole cache. *)
Definition r4k_done : st W unit := cache_clear.
End Cpu.
