(* ===== verification/R4kDevice.v ===== *)
(** * The R4000 processor as a device (src/src/device/dr4kcpu.c) and code breakpoints

    The method table with which the processor is entered in the table of processors,
    so that the devices of an R4000 machine reach it through [CpuHostLaws]; the
    commands of the device; and the code breakpoints of debug/breakpoint.c.

    Every processor has a list of code breakpoints.  The commands of the R4000
    device set and remove them, so do the remote debugger (gdb.c) and the
    debug adapter (dap.c); before each machine cycle the main loop fires those at the
    program counters.  A list is a sequence in the order of its links; messages to
    the user and to the debugger are the events a computation returns. *)

From S2P Require Import Prelude PhysMem Machine GenCpu Device DevHost DDisk DDiskProps RvSample.
From S2P Require Import R4kTypes R4kTlb R4kDecode R4kCpu.
Import PhysMem GenCpu.

(** ** The processor in the table of processors *)
Inductive r4k_family := R4K.

Definition r4k_pending (c : r4k_cpu) (no : Z) : bool := Z.testbit (cp0r cp0_Cause c) (cp0_cause_ip0_shift + no).

Lemma upd_cp0_same r f c : cp0r r (upd_cp0 r f c) = f (cp0r r c).
Proof. unfold cp0r at 1, upd_cp0, set_cp0r. cbn. by rewrite lookup_insert_eq. Qed.

(** The processor has the eight interrupts of Cause. *)
#[export] Instance r4k_irq : IrqCore r4k_cpu.
Proof.
  refine {| core_up := r4k_interrupt_up; core_down := r4k_interrupt_down; core_pending := r4k_pending;
            core_accepts no := (0 <=? no) && (no <? INTR_COUNT) |}.
  - intros c no [H1 H2]%andb_true_iff. unfold r4k_interrupt_up. rewrite H2. eexists. split; [reflexivity|]. split; [done|].
    unfold r4k_pending. etrans; [apply (f_equal (λ z, Z.testbit z _)), upd_cp0_same|].
    by rewrite Z.lor_spec, testbit_bit, Z.eqb_refl, orb_true_r by (unfold cp0_cause_ip0_shift; lia).
  - intros c no [H1 H2]%andb_true_iff. unfold r4k_interrupt_down. rewrite H2. eexists. split; [reflexivity|]. split; [done|].
    unfold r4k_pending. etrans; [apply (f_equal (λ z, Z.testbit z _)), upd_cp0_same|]. unfold INTR_COUNT in H2.
    by rewrite Z.land_spec, testbit_c_not, testbit_bit, Z.eqb_refl, !andb_false_r by (unfold cp0_cause_ip0_shift; lia).
  - intros c no Hn Ha. unfold r4k_interrupt_up. by replace (no <? INTR_COUNT) with false by (unfold INTR_COUNT in *; lia).
Defined.

Section Table.
Context {D : Type}.
Abbreviation W := (world r4k_cpu Fnc.instr_fnc D).

Definition r4k_cpu_convert_addr (virt : Z) (write : bool) : st r4k_cpu (option Z) :=
  '(e, phys) ← r4k_convert_addr virt write false;
  if is_exc e r4k_excNone then mret phys else mret None.
Definition r4k_cpu_sc_access (addr size : Z) : st r4k_cpu bool := λ c, Done (r4k_sc_access addr size c).

(** The table leaves out the breakpoints. *)
Definition r4k_cpu_ops : cpu_ops W :=
  mk_cpu_ops
    (Some (λ d no, on_nth (Z.to_nat d) (on_cpu (r4k_interrupt_up no))))
    (Some (λ d no, on_nth (Z.to_nat d) (on_cpu (r4k_interrupt_down no))))
    None
    None
    (Some (λ d virt write, on_nth (Z.to_nat d) (on_cpu (r4k_cpu_convert_addr virt write))))
    (Some (λ d, mret tt))
    (Some (λ d addr, on_nth (Z.to_nat d) (cpu_modify (r4k_set_pc addr))))
    (Some (λ d addr size, on_nth (Z.to_nat d) (on_cpu (r4k_cpu_sc_access addr size)))).

#[export] Instance r4k_cpu_host : CpuHost W r4k_family := {| ch_cpus := family_cpus R4K; ch_ops _ := r4k_cpu_ops |}.
End Table.

#[export] Instance r4k_cpu_host_laws {D} : CpuHostLaws (world r4k_cpu Fnc.instr_fnc D) r4k_family.
Proof. by apply (family_laws R4K). Defined.

#[export] Instance r4k_slot_laws {D X} `{DevFieldLaws r4k_cpu Fnc.instr_fnc D X} :
  SlotLaws (world r4k_cpu Fnc.instr_fnc D) r4k_family X.
Proof. by apply field_slot_laws. Qed.

(** *** A disk with an interrupt the processor does not have

    [ddisk init] accepts interrupt numbers up to [MAX_INTRS] for any processor. *)
Module DiskBoard.
Import DDisk DDiskProps.
#[global] Instance field : DevField disk_data disk_data := {| df_get d := d; df_set x _ := x |}.
#[global] Instance board : BoardOf r4k_cpu Fnc.instr_fnc disk_data :=
  {| devices := [ddisk_mem]; debugger_event d := d |}.
#[global] Instance field_laws : DevFieldLaws r4k_cpu Fnc.instr_fnc disk_data disk_data.
Proof. by split. Qed.

(** The disk before the last word of a transfer to 0x200, with interrupt [no]. *)
Definition disk (no : Z) : disk_data :=
  mk_disk (Some DDiskProps.Board.image2) no 0 false DISKT_MEM 0x10000000 1024 0x200 0 0 0 ACTION_READ 0 127 false 0 0 0 0.
Definition machine (no : Z) : world r4k_cpu Fnc.instr_fnc disk_data :=
  mk_world (r4k_init 0) [] [] (Sample.memory ∅ []) [] (disk no) false false false true false.
End DiskBoard.

(** On line 7 the transfer completes and raises the interrupt; on line 9, which the
    configuration accepts as well, the simulator stops with a failed assertion. *)
Theorem r4k_disk_interrupts :
  (9 <=? MAX_INTRS) = true ∧
  DDisk.ddisk_step (DiskBoard.machine 9) = Stop AssertFailed ∧
  ∃ w, DDisk.ddisk_step (DiskBoard.machine 7) = Done (tt, w) ∧ r4k_pending (w_cpu w) 7 = true.
Proof. split; [done|]. split; [by vm_compute|]. eexists. split; [by vm_compute|]. by vm_compute. Qed.

(** ** Code breakpoints *)
Record breakpoint := mk_bp {
  bp_kind : breakpoint_kind;
  bp_pc : Z;
  bp_hits : Z
}.
#[export] Instance eta_breakpoint : Eta breakpoint := λ b, mk_bp (bp_kind b) (bp_pc b) (bp_hits b).
#[export] Instance set_bp_hits : SetField bp_hits := ltac:(derive_set_field).

Definition BREAKPOINT_FILTER_DEBUGGER : Z := kind_bits BREAKPOINT_KIND_DEBUGGER.
Definition BREAKPOINT_FILTER_SIMULATOR : Z := kind_bits BREAKPOINT_KIND_SIMULATOR.

(** The simulator becomes interactive, or the debugger is notified. *)
Inductive bp_event :=
  | Interactive (pc : Z)
  | GdbBreakpoint.

Definition breakpoint_init (address : Z) (kind : breakpoint_kind) : breakpoint := mk_bp kind address 0.

Definition breakpoint_hit (b : breakpoint) : breakpoint * bp_event :=
  (b <| bp_hits := wrap 64 (bp_hits b + 1) |>,
   match bp_kind b with
   | BREAKPOINT_KIND_SIMULATOR => Interactive (bp_pc b)
   | BREAKPOINT_KIND_DEBUGGER => GdbBreakpoint
   end).

Fixpoint breakpoint_hit_by_address (bps : list breakpoint) (address : Z)
    : bool * list breakpoint * list bp_event :=
  match bps with
  | [] => (false, [], [])
  | b :: bps' =>
      if bp_pc b =? address then
        let '(b', e) := breakpoint_hit b in
        let '(_, l, es) := breakpoint_hit_by_address bps' address in
        (true, b' :: l, e :: es)
      else
        let '(hit, l, es) := breakpoint_hit_by_address bps' address in (hit, b :: l, es)
  end.

Definition bp_matches (address flt : Z) (b : breakpoint) : bool :=
  (bp_pc b =? address) && truthy (Z.land (kind_bits (bp_kind b)) flt).
Fixpoint breakpoint_find_by_address (bps : list breakpoint) (address flt : Z) : option breakpoint :=
  match bps with
  | [] => None
  | b :: bps' => if bp_matches address flt b then Some b else breakpoint_find_by_address bps' address flt
  end.

(** The processors of one family, each with its breakpoints and its program counter. *)
Fixpoint check_processors (cpus : list (list breakpoint * Z)) : bool * list (list breakpoint * Z) * list bp_event :=
  match cpus with
  | [] => (false, [], [])
  | (bps, pc) :: cpus' =>
      let '(hit, bps', es) := breakpoint_hit_by_address bps pc in
      let '(hit', l, es') := check_processors cpus' in
      (hit || hit', (bps', pc) :: l, es ++ es')
  end.

(** The 32-bit RISC-V processors are looked at only when no R4000 was hit. *)
Definition breakpoint_check_for_code_breakpoints (r4k rv : list (list breakpoint * Z))
    : bool * (list (list breakpoint * Z) * list (list breakpoint * Z)) * list bp_event :=
  let '(hit, r4k', es) := check_processors r4k in
  if hit then (true, (r4k', rv), es)
  else let '(hit', rv', es') := check_processors rv in (hit', (r4k', rv'), es').

(** Taking an item, found by a search from the head, out of the list. *)
Fixpoint remove_first (P : breakpoint → bool) (bps : list breakpoint) : list breakpoint :=
  match bps with
  | [] => []
  | b :: bps' => if P b then bps' else b :: remove_first P bps'
  end.

(** ** The commands of the R4000 device *)
Definition dr4kcpu_init (id : Z) : option (r4k_cpu * list breakpoint) :=
  if id =? 32 then None else Some (r4k_init id, []).
Definition dr4kcpu_goto (addr : Z) (c : r4k_cpu) : r4k_cpu := r4k_set_pc (ALIGN_DOWN addr 4) c.
Definition dr4kcpu_break (addr : Z) (bps : list breakpoint) : list breakpoint :=
  bps ++ [breakpoint_init (Z.lor 0xffffffff00000000 (ALIGN_DOWN addr 4)) BREAKPOINT_KIND_SIMULATOR].
Definition dr4kcpu_br (addr : Z) (bps : list breakpoint) : bool * list breakpoint :=
  let at_addr b := bp_pc b =? ALIGN_DOWN addr 4 in
  if existsb at_addr bps then (true, remove_first at_addr bps) else (false, bps).

(** ** The debuggers *)
Definition gdb_insert_code_breakpoint (addr : Z) (bps : list breakpoint) : list breakpoint :=
  match breakpoint_find_by_address bps addr BREAKPOINT_FILTER_DEBUGGER with
  | Some _ => bps
  | None => bps ++ [breakpoint_init addr BREAKPOINT_KIND_DEBUGGER]
  end.
Definition gdb_remove_code_breakpoint (addr : Z) (bps : list breakpoint) : list breakpoint :=
  match breakpoint_find_by_address bps addr BREAKPOINT_FILTER_DEBUGGER with
  | Some _ => remove_first (bp_matches addr BREAKPOINT_FILTER_DEBUGGER) bps
  | None => bps
  end.
(** At the end of a session, with the memory breakpoints of the debugger. *)
Fixpoint gdb_remove_breakpoints (bps : list breakpoint) : list breakpoint :=
  match bps with [] => [] | _ :: bps' => gdb_remove_breakpoints bps' end.

Definition dap_breakpoint_add (addr : Z) : st (list breakpoint) unit :=
  modify (λ bps, match breakpoint_find_by_address bps addr BREAKPOINT_FILTER_SIMULATOR with
                 | Some _ => bps
                 | None => bps ++ [breakpoint_init addr BREAKPOINT_KIND_SIMULATOR]
                 end).
(** Without a result of the search the item of a null pointer is removed. *)
Definition dap_breakpoint_remove (addr : Z) : st (list breakpoint) unit :=
  bps ← gets id;
  match breakpoint_find_by_address bps (Z.lor 0xffffffff00000000 addr) BREAKPOINT_FILTER_SIMULATOR with
  | Some _ => mret tt
  | None => stop UndefinedBehaviour
  end.

(** ** Searching and firing *)
Lemma find_none bps addr flt :
  breakpoint_find_by_address bps addr flt = None ↔ Forall (λ b, bp_matches addr flt b = false) bps.
Proof.
  induction bps as [|b bps IH]; cbn; [done|]. rewrite Forall_cons, <- IH. destruct (bp_matches addr flt b); naive_solver.
Qed.

Lemma find_app_none bps addr flt b : breakpoint_find_by_address bps addr flt = None →
  breakpoint_find_by_address (bps ++ [b]) addr flt = if bp_matches addr flt b then Some b else None.
Proof. induction bps as [|b' bps IH]; cbn; [done|]. destruct (bp_matches addr flt b'); [done|]. apply IH. Qed.

Lemma remove_first_last P bps b : Forall (λ b, P b = false) bps → P b = true → remove_first P (bps ++ [b]) = bps.
Proof. intros Hn Hb. induction Hn as [|b' bps Hb' _ IH]; cbn; [by rewrite Hb|]. by rewrite Hb', IH. Qed.

(** The breakpoints at the address fire, in order, and count the hit; the others do
    not change. *)
Theorem breakpoints_fire bps address : let at_address b := bp_pc b =? address in
  breakpoint_hit_by_address bps address =
    (existsb at_address bps, map (λ b, if at_address b then (breakpoint_hit b).1 else b) bps,
     map (λ b, (breakpoint_hit b).2) (filter (λ b, at_address b = true) bps)).
Proof.
  cbv zeta. induction bps as [|b bps IH]; [done|]. cbn [breakpoint_hit_by_address existsb map]. rewrite IH, filter_cons.
  destruct (bp_pc b =? address); cbn; [by rewrite decide_True|by rewrite decide_False].
Qed.

(** ** Setting and removing *)

(** The breakpoints of the remote debugger: inserting twice is inserting once, removing
    undoes inserting, and the breakpoint fires at its address in between. *)
Theorem gdb_breakpoint_roundtrip addr bps :
  breakpoint_find_by_address bps addr BREAKPOINT_FILTER_DEBUGGER = None →
  let inserted := gdb_insert_code_breakpoint addr bps in
  gdb_insert_code_breakpoint addr inserted = inserted ∧ gdb_remove_code_breakpoint addr inserted = bps ∧
  GdbBreakpoint ∈ (breakpoint_hit_by_address inserted addr).2.
Proof.
  intros Hn inserted.
  assert (inserted = bps ++ [breakpoint_init addr BREAKPOINT_KIND_DEBUGGER]) as Ei
    by (unfold inserted, gdb_insert_code_breakpoint; by rewrite Hn).
  clearbody inserted. subst inserted.
  assert (bp_matches addr BREAKPOINT_FILTER_DEBUGGER (breakpoint_init addr BREAKPOINT_KIND_DEBUGGER) = true) as Hm
    by (unfold bp_matches; cbn; by rewrite Z.eqb_refl).
  unfold gdb_insert_code_breakpoint, gdb_remove_code_breakpoint. rewrite (find_app_none _ _ _ _ Hn), Hm. split_and!; [done| |].
  - apply remove_first_last; [by apply find_none|done].
  - rewrite breakpoints_fire. cbn. apply list_elem_of_fmap. exists (breakpoint_init addr BREAKPOINT_KIND_DEBUGGER).
    split; [done|]. apply list_elem_of_filter. cbn. rewrite Z.eqb_refl. split; [done|]. apply elem_of_app. right. by left.
Qed.

Lemma extended_differs a : in_width 32 a → Z.lor 0xffffffff00000000 (ALIGN_DOWN a 4) ≠ ALIGN_DOWN a 4.
Proof.
  intros Ha E. assert (∀ z, Z.testbit (Z.lor 0xffffffff00000000 z) 63 = true) as H1 by (intros z; by rewrite Z.lor_spec).
  specialize (H1 (ALIGN_DOWN a 4)). rewrite E in H1. unfold ALIGN_DOWN in H1. rewrite Z.land_spec in H1.
  assert (Z.testbit a 63 = false) as Hz by (destruct (decide (a = 0)) as [->|]; [done|]; apply Z.bits_above_log2;
    unfold in_width in Ha; [lia|]; apply Z.log2_lt_pow2; lia).
  by rewrite Hz in H1.
Qed.

(** The user cannot remove a breakpoint the way it was set: [break] extends the 32-bit
    address, [br] looks for the address as it was entered and reports it unknown. *)
Theorem break_not_removed a bps : in_width 32 a → Forall (λ b, bp_pc b ≠ ALIGN_DOWN a 4) bps →
  dr4kcpu_br a (dr4kcpu_break a bps) = (false, dr4kcpu_break a bps).
Proof.
  intros Ha Hn. unfold dr4kcpu_br, dr4kcpu_break. rewrite existsb_app. cbn. rewrite (proj2 (Z.eqb_neq _ _)) by by apply extended_differs.
  replace (existsb _ bps) with false; [done|]. symmetry. induction Hn as [|b bps Hb _ IH]; [done|]. cbn.
  by rewrite (proj2 (Z.eqb_neq _ _) Hb).
Qed.

(** The debug adapter never removes a breakpoint: its test of the search is inverted. *)
Theorem dap_remove_keeps addr bps bps' : dap_breakpoint_remove addr bps = Done (tt, bps') → bps' = bps.
Proof.
  unfold dap_breakpoint_remove. rewrite (bind_Done _ _ bps bps bps eq_refl). destruct (breakpoint_find_by_address bps _ _); intros E; by inversion E.
Qed.

(** The end of a debugger session removes the breakpoints of the user, too. *)
Theorem gdb_done_removes_all bps : gdb_remove_breakpoints bps = [].
Proof. by induction bps. Qed.
