(* ===== verification/R4kInv.v ===== *)
(** * The invariant of the R4000 processor

    Registers stay at their width, Status keeps the bits of the 64-bit modes
    clear, Random stays a valid index of the TLB and TLB entries hold what the
    fields of the coprocessor registers can express.  Every instruction, exception
    and step keeps this. *)

From S2P Require Import Prelude PhysMem Machine MachineProps ICache R4kTypes R4kTlb R4kMem R4kComp R4kCtl R4kSys.
From S2P Require Import R4kMemOps R4kDecode R4kCpu.
Import PhysMem.

(** The bits of Status that MTC0 can set. *)
Definition status_mask : Z := 0xff77ff1f.

Record rec_wf (pg : tlb_rec) : Prop := {
  rw_pfn : in_width 36 (pfn pg);
  rw_aligned : pfn pg mod 4096 = 0;
  rw_cohh : in_width 3 (cohh pg)
}.

Record entry_wf (e : tlb_entry) : Prop := {
  ew_mask : in_width 32 (mask e);
  ew_vpn2 : bits_in (vpn2 e) (mask e);
  ew_asid : in_width 8 (asid e);
  ew_pg0 : rec_wf (pg0 e);
  ew_pg1 : rec_wf (pg1 e)
}.

Record r4k_wf (c : r4k_cpu) : Prop := {
  wf_regs r : in_width 64 (reg r c);
  wf_cp0 r : in_width 64 (cp0r r c);
  wf_lo : in_width 64 (loreg c);
  wf_hi : in_width 64 (hireg c);
  wf_pc : in_width 64 (pc c);
  wf_next : in_width 64 (pc_next c);
  wf_excaddr : in_width 64 (excaddr c);
  wf_status : bits_in (cp0r cp0_Status c) status_mask;
  wf_random : 0 ≤ cp0r cp0_Random c ≤ 47;
  wf_pagemask : bits_in (cp0r cp0_PageMask c) cp0_pagemask_mask_mask;
  wf_tlb i : entry_wf (tlb_at i c);
  wf_awake : stdby c = false
}.

(** ** Widths *)
Lemma lo_width x : in_width 32 (lo x).
Proof. by apply wrap_range. Qed.
Lemma lo_width64 x : in_width 64 (lo x).
Proof. eapply in_width_mono; [..|apply lo_width]; lia. Qed.
Lemma u64_width x : in_width 64 (u64 x).
Proof. by apply wrap_range. Qed.

Lemma sext_width w n v hi : 0 ≤ w ≤ n → in_width w v → in_width n hi → ∀ b m, 
  in_width n (if truthy b then Z.lor v hi else Z.land v m).
Proof.
  intros Hw Hv Hh b m. assert (in_width n v) by (eapply in_width_mono; [..|exact Hv]; lia).
  destruct (truthy b); [apply lor_width|apply land_width_l]; done || lia.
Qed.

Lemma sext_32_64_width v : in_width 32 v → in_width 64 (sign_extend_32_64 v).
Proof. intros Hv. by apply (sext_width 32). Qed.
Lemma sext_16_64_width v : in_width 16 v → in_width 64 (sign_extend_16_64 v).
Proof. intros Hv. by apply (sext_width 16). Qed.
Lemma sext_8_64_width v : in_width 8 v → in_width 64 (sign_extend_8_64 v).
Proof. intros Hv. by apply (sext_width 8). Qed.
Lemma sext_16_32_width v : in_width 16 v → in_width 32 (sign_extend_16_32 v).
Proof. intros Hv. by apply (sext_width 16). Qed.
Lemma f_imm_width i : in_width 16 (f_imm i).
Proof. by apply ubits_range. Qed.
Lemma imm_width64 i : in_width 64 (f_imm i).
Proof. eapply in_width_mono; [..|apply f_imm_width]; lia. Qed.
Lemma bool_width64 b : in_width 64 (bool_to_Z b).
Proof. by apply in_width_bool. Qed.
Lemma r4k_div_width w x y : in_width w x → 0 ≤ y → in_width w (x / y).
Proof.
  unfold in_width. intros Hx Hy. destruct (Z.eq_dec y 0) as [->|]; [rewrite Z.div_0_r; lia|].
  split; [apply Z.div_pos; lia|]. apply Z.le_lt_trans with x; [|lia]. apply Z.div_le_upper_bound; nia.
Qed.
Lemma r4k_mod_width w x y : in_width w x → 0 ≤ y → in_width w (x mod y).
Proof.
  unfold in_width. intros Hx Hy. destruct (Z.eq_dec y 0) as [->|]; [rewrite Z.mod_0_r; lia|].
  pose proof (Z.mod_pos_bound x y ltac:(lia)). pose proof (Z.mod_le x y ltac:(lia) ltac:(lia)). lia.
Qed.
Lemma width_nonneg w x : in_width w x → 0 ≤ x.
Proof. unfold in_width. lia. Qed.
#[export] Hint Resolve lo_width lo_width64 u64_width sext_32_64_width sext_16_64_width sext_8_64_width
  sext_16_32_width f_imm_width imm_width64 bool_width64 : widths.

(** ** Updates of one field *)
Section Updates.
Context (c : r4k_cpu) (Hc : r4k_wf c).

Lemma r4k_reg_set_reg r v r' : reg r' (set_reg r v c) = if decide (r = r') then v else reg r' c.
Proof. unfold reg, set_reg. cbn. rewrite lookup_insert. by case_decide. Qed.

Lemma cp0_set_cp0 r v r' : cp0r r' (set_cp0r r v c) = if decide (r = r') then v else cp0r r' c.
Proof. unfold cp0r, set_cp0r. cbn. rewrite lookup_insert. by case_decide. Qed.

Lemma wf_set_reg r v : in_width 64 v → r4k_wf (set_reg r v c).
Proof.
  intros Hv. destruct Hc as [H1 H2 H3 H4 H5 H6 H7 H8 H9 H10 H11 H12]. split; try done.
  intros r'. rewrite r4k_reg_set_reg. by case_decide.
Qed.

(** The registers whose values are constrained have lemmas of their own. *)
Definition plain_cp0 (r : Z) : bool :=
  negb (r =? cp0_Status) && negb (r =? cp0_Random) && negb (r =? cp0_PageMask).

Lemma wf_set_cp0 r v : plain_cp0 r = true → in_width 64 v → r4k_wf (set_cp0r r v c).
Proof.
  unfold plain_cp0. intros [[Hs Hr]%andb_true_iff Hp]%andb_true_iff Hv.
  apply negb_true_iff, Z.eqb_neq in Hs, Hr, Hp.
  destruct Hc as [H1 H2 H3 H4 H5 H6 H7 H8 H9 H10 H11 H12]. split; try done.
  - intros r'. rewrite cp0_set_cp0. by case_decide.
  - rewrite cp0_set_cp0. by case_decide.
  - rewrite cp0_set_cp0. by case_decide.
  - rewrite cp0_set_cp0. by case_decide.
Qed.

Lemma wf_set_status v : bits_in v status_mask → r4k_wf (set_cp0r cp0_Status v c).
Proof.
  intros Hv. destruct Hc as [H1 H2 H3 H4 H5 H6 H7 H8 H9 H10 H11 H12]. split; try done.
  - intros r'. rewrite cp0_set_cp0. case_decide; [|done]. by eapply bits_in_width; [..|exact Hv].
  - by rewrite cp0_set_cp0.
  - by rewrite cp0_set_cp0.
  - by rewrite cp0_set_cp0.
Qed.

Lemma wf_set_random v : 0 ≤ v ≤ 47 → r4k_wf (set_cp0r cp0_Random v c).
Proof.
  intros Hv. destruct Hc as [H1 H2 H3 H4 H5 H6 H7 H8 H9 H10 H11 H12]. split; try done.
  - intros r'. rewrite cp0_set_cp0. case_decide; [|done]. unfold in_width. lia.
  - by rewrite cp0_set_cp0.
  - by rewrite cp0_set_cp0.
  - by rewrite cp0_set_cp0.
Qed.

Lemma wf_set_pagemask v : bits_in v cp0_pagemask_mask_mask → r4k_wf (set_cp0r cp0_PageMask v c).
Proof.
  intros Hv. destruct Hc as [H1 H2 H3 H4 H5 H6 H7 H8 H9 H10 H11 H12]. split; try done.
  - intros r'. rewrite cp0_set_cp0. case_decide; [|done]. by eapply bits_in_width; [..|exact Hv].
  - by rewrite cp0_set_cp0.
  - by rewrite cp0_set_cp0.
  - by rewrite cp0_set_cp0.
Qed.

Lemma wf_set_tlb i e : entry_wf e → r4k_wf (c <| tlb := <[i := e]> (tlb c) |>).
Proof.
  intros He. destruct Hc as [H1 H2 H3 H4 H5 H6 H7 H8 H9 H10 H11 H12]. split; try done.
  intros j. unfold tlb_at. cbn. rewrite lookup_insert. case_decide; [done|apply H11].
Qed.

Ltac wf_field := intros; destruct Hc; split; cbn in *; done.
Lemma wf_set_lo v : in_width 64 v → r4k_wf (c <| loreg := v |>).
Proof. wf_field. Qed.
Lemma wf_set_hi v : in_width 64 v → r4k_wf (c <| hireg := v |>).
Proof. wf_field. Qed.
Lemma wf_set_next v : in_width 64 v → r4k_wf (c <| pc_next := v |>).
Proof. wf_field. Qed.
Lemma wf_set_pc v : in_width 64 v → r4k_wf (r4k_set_pc v c).
Proof. intros Hv. pose proof (u64_width (v + 4)). wf_field. Qed.
Lemma wf_set_pcs v v' : in_width 64 v → in_width 64 v' → r4k_wf (c <| pc := v |> <| pc_next := v' |>).
Proof. wf_field. Qed.
Lemma wf_set_pc1 v : in_width 64 v → r4k_wf (c <| pc := v |>).
Proof. wf_field. Qed.
Lemma wf_set_excaddr v : in_width 64 v → r4k_wf (c <| excaddr := v |>).
Proof. wf_field. Qed.
Lemma wf_set_branch b : r4k_wf (c <| branch := b |>).
Proof. wf_field. Qed.
Lemma wf_set_hint v : r4k_wf (c <| tlb_hint := v |>).
Proof. wf_field. Qed.
Lemma wf_set_refill v : r4k_wf (c <| tlb_refill := v |>).
Proof. wf_field. Qed.
Lemma wf_set_invalid v : r4k_wf (c <| tlb_invalid := v |>).
Proof. wf_field. Qed.
Lemma wf_set_modified v : r4k_wf (c <| tlb_modified := v |>).
Proof. wf_field. Qed.
Lemma wf_set_llbit b : r4k_wf (c <| llbit := b |>).
Proof. wf_field. Qed.
Lemma wf_set_lladdr v : r4k_wf (c <| lladdr := v |>).
Proof. wf_field. Qed.
Lemma wf_set_waddr v : r4k_wf (c <| waddr := v |>).
Proof. wf_field. Qed.
Lemma wf_set_watch b v : r4k_wf (c <| wpending := b |> <| wexcaddr := v |>).
Proof. wf_field. Qed.
Lemma wf_set_intr m : r4k_wf (c <| intr := m |>).
Proof. wf_field. Qed.
Lemma wf_set_kcycles v : r4k_wf (c <| k_cycles := v |>).
Proof. wf_field. Qed.
Lemma wf_set_ucycles v : r4k_wf (c <| u_cycles := v |>).
Proof. wf_field. Qed.
Lemma wf_set_wcycles v : r4k_wf (c <| w_cycles := v |>).
Proof. wf_field. Qed.
Lemma wf_set_old a b d e : r4k_wf (c <| old_regs := a |> <| old_cp0 := b |> <| old_loreg := d |> <| old_hireg := e |>).
Proof. wf_field. Qed.
Lemma wf_set_stdby : r4k_wf (c <| stdby := false |>).
Proof. wf_field. Qed.
End Updates.

(** ** Automation *)
Create HintDb r4k discriminated.
#[export] Hint Constants Opaque : r4k.
#[export] Hint Resolve wf_set_reg wf_set_lo wf_set_hi wf_set_next wf_set_pc wf_set_pcs wf_set_pc1
  wf_set_excaddr wf_set_branch wf_set_hint wf_set_refill wf_set_invalid wf_set_modified wf_set_llbit
  wf_set_lladdr wf_set_waddr wf_set_watch wf_set_intr wf_set_kcycles wf_set_ucycles wf_set_wcycles
  wf_set_old wf_set_stdby : r4k.

Lemma rs_width i c : r4k_wf c → in_width 64 (rs_val i c).
Proof. intros Hc. apply Hc. Qed.
Lemma rt_width i c : r4k_wf c → in_width 64 (rt_val i c).
Proof. intros Hc. apply Hc. Qed.
#[export] Hint Resolve wf_regs wf_cp0 wf_lo wf_hi wf_pc wf_next wf_excaddr rs_width rt_width : widths.

Ltac nonneg_auto :=
  lazymatch goal with
  | |- 0 ≤ _ + _ => apply Z.add_nonneg_nonneg; nonneg_auto
  | |- 0 ≤ f_sa _ => apply ubits_range; lia
  | |- 0 ≤ Z.land _ _ => apply Z.land_nonneg; right; lia
  | |- _ => lia
  end.

Ltac width_auto_ wf_auto :=
  lazymatch goal with
  | |- in_width _ (Z.land _ _) => solve [apply land_width_l; [lia|width_auto_ wf_auto] | apply land_width_r; [lia|width_auto_ wf_auto]]
  | |- in_width _ (Z.lor _ _) => apply lor_width; [lia|width_auto_ wf_auto|width_auto_ wf_auto]
  | |- in_width _ (Z.lxor _ _) => apply lxor_width; [lia|width_auto_ wf_auto|width_auto_ wf_auto]
  | |- in_width _ (c_not _ _) => first [apply c_not_width; lia | eapply in_width_mono; [..|apply c_not_width]; lia]
  | |- in_width _ (if _ then _ else _) => case_match; width_auto_ wf_auto
  | |- in_width _ (Z.shiftr (sgn _ _) _) => fail
  | |- in_width _ (Z.shiftr _ _) =>
      apply shiftr_width; [lia|nonneg_auto|width_auto_ wf_auto]
  | |- in_width _ (sign_extend_32_64 _) => apply sext_32_64_width; width_auto_ wf_auto
  | |- in_width _ (cp0r _ _) => apply wf_cp0; wf_auto
  | |- in_width _ (reg _ _) => apply wf_regs; wf_auto
  | |- in_width _ (pc _) => apply wf_pc; wf_auto
  | |- in_width _ (pc_next _) => apply wf_next; wf_auto
  | |- in_width _ (excaddr _) => apply wf_excaddr; wf_auto
  | |- in_width _ (_ / _) => apply r4k_div_width; [width_auto_ wf_auto|eapply width_nonneg; width_auto_ wf_auto]
  | |- in_width _ (_ mod _) => apply r4k_mod_width; [width_auto_ wf_auto|eapply width_nonneg; width_auto_ wf_auto]
  | |- in_width _ ?v =>
      first [assumption | solve [eauto 3 with widths]
            | is_ground v; vm_compute; split; [discriminate|reflexivity]]
  end.

Ltac bits_auto wf_auto :=
  lazymatch goal with
  | |- bits_in (Z.lor _ _) _ => apply bits_in_lor; bits_auto wf_auto
  | |- bits_in (Z.land _ ?m) ?m => apply bits_in_land_mask
  | |- bits_in (Z.land _ _) status_mask => first [apply bits_in_land_mask | apply bits_in_land; bits_auto wf_auto]
  | |- bits_in (cp0r cp0_Status _) _ => apply wf_status; wf_auto
  | |- bits_in _ _ => reflexivity
  end.

Ltac wf_auto :=
  unfold upd_cp0; cbv beta zeta;
  repeat match goal with
  | |- r4k_wf (match ?x with _ => _ end) => destruct x eqn:?
  | |- r4k_wf (let '_ := ?x in _) => destruct x eqn:?
  end;
  lazymatch goal with
  | H : r4k_wf ?c |- r4k_wf ?c => exact H
  | |- r4k_wf (set_cp0r cp0_Status _ _) => apply wf_set_status; [wf_auto|bits_auto wf_auto]
  | |- r4k_wf (set_cp0r cp0_PageMask _ _) => apply wf_set_pagemask; [wf_auto|bits_auto wf_auto]
  | |- r4k_wf (set_cp0r cp0_Random _ _) => apply wf_set_random; [wf_auto|lia]
  | |- r4k_wf (set_cp0r _ _ _) => apply wf_set_cp0; [wf_auto|reflexivity|width_auto_ wf_auto]
  | |- r4k_wf (set_reg _ _ _) => apply wf_set_reg; [wf_auto|width_auto_ wf_auto]
  | |- r4k_wf (r4k_set_pc _ _) => apply wf_set_pc; [wf_auto|width_auto_ wf_auto]
  | |- r4k_wf _ => progress (eauto 3 with r4k widths)
  end.

Ltac width_auto := width_auto_ wf_auto.

Abbreviation keeps m Q := (triple r4k_wf m Q).

Ltac r4k_tr := tr_auto; try wf_auto.

(** ** Computational instructions *)
Lemma tr_write_rd i v : (∀ c, r4k_wf c → in_width 64 (v c)) → keeps (write_rd i v) any.
Proof. intros Hv. unfold write_rd. tr_auto. apply wf_set_reg; auto. Qed.
Lemma tr_write_rt i v : (∀ c, r4k_wf c → in_width 64 (v c)) → keeps (write_rt i v) any.
Proof. intros Hv. unfold write_rt. tr_auto. apply wf_set_reg; auto. Qed.
Lemma tr_if_64bit m : keeps m any → keeps (if_64bit m) any.
Proof. intros Hm. unfold if_64bit. tr_auto. Qed.
Lemma tr_set_lohi l h : in_width 64 l → in_width 64 h → keeps (set_lohi l h) any.
Proof. intros Hl Hh. unfold set_lohi. tr_auto; auto with r4k. Qed.

Definition comp_instrs : list (Z → st r4k_cpu r4k_exc) :=
  [instr_add; instr_addi; instr_addiu; instr_addu; instr_sub; instr_subu; instr_dadd; instr_daddi;
   instr_daddiu; instr_daddu; instr_dsub; instr_dsubu; instr_and; instr_andi; instr_or; instr_ori;
   instr_xor; instr_xori; instr_nor; instr_lui; instr_sll; instr_sllv; instr_srl; instr_srlv; instr_sra;
   instr_srav; instr_dsll; instr_dsll32; instr_dsllv; instr_dsrl; instr_dsrl32; instr_dsrlv; instr_dsra;
   instr_dsra32; instr_dsrav; instr_slt; instr_slti; instr_sltiu; instr_sltu; instr_mult; instr_multu;
   instr_div; instr_divu; instr_ddiv; instr_ddivu; instr_dmult; instr_dmultu; instr_mfhi; instr_mflo;
   instr_mthi; instr_mtlo].

Ltac comp_tr :=
  repeat first
  [ apply tr_if_64bit
  | apply tr_write_rd; intros; width_auto
  | apply tr_write_rt; intros; width_auto
  | apply tr_set_lohi; width_auto
  | cbv zeta; tr_step
  | wf_auto ].

Lemma tr_comp f i : f ∈ comp_instrs → keeps (f i) any.
Proof.
  unfold comp_instrs. rewrite !elem_of_cons, elem_of_nil. intros Hf.
  repeat destruct Hf as [->|Hf]; [..|done].
  all: match goal with |- triple _ (?f _) _ => unfold f end; comp_tr.
Qed.

(** ** Control transfer *)
Lemma region_width i c : r4k_wf c → in_width 64 (region_target i c).
Proof.
  intros Hc. unfold region_target. apply lor_width; [lia|width_auto|].
  apply (in_width_mono 28); [lia..|]. rewrite Z.shiftl_mul_pow2 by done.
  pose proof (ubits_range i 0 26 ltac:(lia)) as Ht. unfold in_width, f_target, TARGET_SHIFT in *. lia.
Qed.

Lemma tr_link : keeps link any.
Proof. unfold link. r4k_tr. Qed.
Lemma tr_skip_slot : keeps skip_slot any.
Proof. unfold skip_slot. r4k_tr. Qed.
Lemma tr_jump_rel i : keeps (jump_rel i) any.
Proof. unfold jump_rel. r4k_tr. Qed.
#[export] Hint Resolve tr_link tr_skip_slot tr_jump_rel : triples.
Lemma tr_branch_if b i : keeps (branch_if b i) any.
Proof. unfold branch_if. r4k_tr. Qed.
Lemma tr_branch_likely_if b i : keeps (branch_likely_if b i) any.
Proof. unfold branch_likely_if. r4k_tr. Qed.
Lemma tr_jump_to f : (∀ c, r4k_wf c → in_width 64 (f c)) → keeps (jump_to f) any.
Proof. intros Hf. unfold jump_to. tr_auto; eauto with r4k. Qed.
Lemma tr_trap_if b : keeps (trap_if b) any.
Proof. unfold trap_if. r4k_tr. Qed.
#[export] Hint Resolve tr_branch_if tr_branch_likely_if tr_trap_if : triples.

Definition ctl_instrs : list (Z → st r4k_cpu r4k_exc) :=
  [instr_beq; instr_beql; instr_bne; instr_bnel; instr_bgez; instr_bgezl; instr_bgezal; instr_bgezall;
   instr_bgtz; instr_bgtzl; instr_blez; instr_blezl; instr_bltz; instr_bltzl; instr_bltzal; instr_bltzall;
   instr_j; instr_jal; instr_jr; instr_jalr; instr_teq; instr_teqi; instr_tne; instr_tnei; instr_tge;
   instr_tgei; instr_tgeu; instr_tgeiu; instr_tlt; instr_tlti; instr_tltu; instr_tltiu; instr_break;
   instr_syscall; instr_sync; instr__reserved; instr_cache; instr_ldl; instr_ldr; instr_sdl; instr_sdr].

Lemma tr_ctl f i : f ∈ ctl_instrs → keeps (f i) any.
Proof.
  unfold ctl_instrs. rewrite !elem_of_cons, elem_of_nil. intros Hf.
  repeat destruct Hf as [->|Hf]; [..|done].
  all: match goal with |- triple _ (?f _) _ => unfold f end; tr_auto;
    apply tr_jump_to; intros; eauto using region_width with widths.
Qed.

(** ** Address translation *)
Lemma tr_fill_tlb_error addr : in_width 64 addr → keeps (fill_tlb_error addr) any.
Proof. intros Ha. unfold fill_tlb_error. r4k_tr. Qed.
Lemma tr_fill_addr_error addr noisy : in_width 64 addr → keeps (fill_addr_error addr noisy) any.
Proof. intros Ha. unfold fill_addr_error. r4k_tr. Qed.
#[export] Hint Resolve tr_fill_tlb_error tr_fill_addr_error : triples.

Lemma tr_tlb_search n i virt wr : keeps (tlb_search n i virt wr) any.
Proof. revert i. induction n as [|n IH]; intros i; cbn [tlb_search]; r4k_tr. Qed.
#[export] Hint Resolve tr_tlb_search : triples.
Lemma tr_tlb_look virt wr : keeps (tlb_look virt wr) any.
Proof. unfold tlb_look. r4k_tr. Qed.
#[export] Hint Resolve tr_tlb_look : triples.

Section Convert.
Context (virt : Z) (Hv : in_width 64 virt) (wr noisy : bool).
#[local] Hint Resolve Hv : triples.

Lemma tr_tlb_hit32 : keeps (tlb_hit32 virt wr noisy) any.
Proof using Hv. unfold tlb_hit32. r4k_tr. Qed.
Lemma tr_tlb_hit64 : keeps (tlb_hit64 virt wr noisy) any.
Proof. unfold tlb_hit64. r4k_tr. Qed.
Lemma tr_address_error : keeps (address_error virt noisy) any.
Proof using Hv. unfold address_error. r4k_tr. Qed.
#[local] Hint Resolve tr_tlb_hit32 tr_tlb_hit64 tr_address_error : triples.
Lemma tr_kernel64 : keeps (convert_addr_kernel64 virt wr noisy) any.
Proof using Hv. unfold convert_addr_kernel64. r4k_tr. Qed.
#[local] Hint Resolve tr_kernel64 : triples.

Lemma tr_convert : keeps (r4k_convert_addr virt wr noisy) any.
Proof using Hv.
  unfold r4k_convert_addr, convert_addr_user64, convert_addr_supervisor64, convert_addr_user32,
    convert_addr_supervisor32, convert_addr_kernel32. r4k_tr.
Qed.
End Convert.
#[export] Hint Resolve tr_convert : triples.

(** ** The instructions of coprocessor 0 *)
Lemma tr_cop0_unusable : keeps cop0_unusable any.
Proof. unfold cop0_unusable. r4k_tr. Qed.
#[export] Hint Resolve tr_cop0_unusable : triples.

Lemma field_width x m k w : 0 ≤ k → 0 ≤ w → in_width (w + k) m → in_width w (Z.shiftr (Z.land x m) k).
Proof.
  intros Hk Hw Hm. pose proof (land_width_r (w + k) x m ltac:(lia) Hm) as Hl. unfold in_width in *.
  rewrite Z.shiftr_div_pow2 by done. pose proof (pow2_pos k Hk).
  rewrite Z.pow_add_r in Hl by done. split; [apply Z.div_pos; lia|]. apply Z.div_lt_upper_bound; lia.
Qed.

Lemma rec_of_wf r c : rec_wf (rec_of r c).
Proof.
  split; cbn [rec_of pfn cohh].
  - rewrite Z.shiftl_mul_pow2 by done.
    assert (in_width 24 (cp0_entrylo_pfn r c)) as H by (apply field_width; done || lia).
    unfold in_width in *. lia.
  - rewrite Z.shiftl_mul_pow2 by done. by apply Z.mod_mul.
  - apply field_width; done || lia.
Qed.

Lemma lo_land x m : in_width 32 m → lo (Z.land x m) = Z.land x m.
Proof. intros Hm. apply wrap_small, land_width_r; done. Qed.

Lemma entry_of_wf c : r4k_wf c → entry_wf (entry_of c).
Proof.
  intros Hc. split; cbn [entry_of mask vpn2 asid pg0 pg1]; [apply lo_width| | |apply rec_of_wf..].
  - rewrite lo_land by apply lo_width. apply bits_in_land_mask.
  - apply (land_width_r 8); done.
Qed.

Lemma entrylo_width pg g : rec_wf pg → in_width 64 (entrylo_of pg g).
Proof.
  intros [Hp _ Hh]. unfold entrylo_of. assert (in_width 64 (Z.shiftr (pfn pg) 6)).
  { apply shiftr_width; [lia..|]. by apply (in_width_mono 36). }
  assert (in_width 64 (Z.shiftl (cohh pg) 3)).
  { rewrite Z.shiftl_mul_pow2 by done. unfold in_width in *. lia. }
  repeat apply lor_width; try done; try lia; destruct (dirty pg), (valid pg), g; done.
Qed.

Lemma tlb_probe_range n i xv xa c v :
  0 ≤ i → tlb_probe n i xv xa c = Some v → i ≤ v < i + Z.of_nat n.
Proof.
  revert i. induction n as [|n IH]; intros i Hi; cbn [tlb_probe]; [done|]. case_match.
  - intros [= <-]. lia.
  - intros E. apply IH in E; lia.
Qed.

Lemma tr_set_index r : (∀ v, r = Some v → in_width 64 v) →
  keeps (match r with Some i => modify (set_cp0r cp0_Index i) | None => mret tt end) any.
Proof. intros Hr. destruct r as [v|]; tr_auto. apply wf_set_cp0; [done|done|]. by apply Hr. Qed.

Lemma tr_TLBP : keeps TLBP any.
Proof.
  unfold TLBP. tr_step. destruct (CP0_USABLE a); [|apply tr_cop0_unusable].
  tr_step; [tr_step; wf_auto|]. tr_step. cbv zeta. tr_step; [|tr_auto].
  apply tr_set_index. intros v E. apply tlb_probe_range in E; [|done].
  unfold in_width, TLB_ENTRIES in *. lia.
Qed.

Lemma pagemask_of_wf m : bits_in (Z.land (c_not 32 m) 0x01ffe000) cp0_pagemask_mask_mask.
Proof. apply bits_in_land_r. reflexivity. Qed.

Lemma vpn2_width e : entry_wf e → in_width 64 (Z.lor (vpn2 e) (asid e)).
Proof.
  intros He. apply lor_width; [lia| |].
  - eapply bits_in_width; [lia| |apply He]. by apply (in_width_mono 32); [lia..|apply He].
  - by apply (in_width_mono 8); [lia..|apply He].
Qed.

Lemma tr_TLBR : keeps TLBR any.
Proof.
  unfold TLBR. tr_step. destruct (CP0_USABLE a); [|apply tr_cop0_unusable].
  cbv zeta. tr_step; [|tr_auto]. destruct (47 <? _); [r4k_tr|]. tr_auto.
  - apply wf_set_pagemask; [done|]. apply pagemask_of_wf.
  - apply wf_set_cp0; [done|done|]. by apply vpn2_width, wf_tlb.
  - apply wf_set_cp0; [done|done|]. by apply entrylo_width, ew_pg0, wf_tlb.
  - apply wf_set_cp0; [done|done|]. by apply entrylo_width, ew_pg1, wf_tlb.
Qed.

Lemma tr_TLBW random : keeps (TLBW random) any.
Proof. unfold TLBW. tr_auto; apply wf_set_tlb; auto using entry_of_wf. Qed.
#[export] Hint Resolve tr_TLBP tr_TLBR tr_TLBW : triples.
