(* ===== verification/R4kStepInv.v ===== *)
(** * Every step of the R4000 keeps its invariant

    The invariant of [R4kInv] for all processors of the machine, kept by the
    accesses to memory (given that the devices keep it), by every instruction
    function and by the step. *)

From S2P Require Import Prelude PhysMem Machine RvSample R4kTypes R4kTlb R4kMem R4kDecode R4kCpu MachineProps ICache R4kComp.
From S2P Require Import R4kCtl R4kSys R4kMemOps R4kInv.
Import PhysMem.

Module R4kSample.
#[global] Instance board : BoardOf r4k_cpu Fnc.instr_fnc unit := {| devices := []; debugger_event d := d |}.
Abbreviation W := (world r4k_cpu Fnc.instr_fnc unit).

Definition machine (c : r4k_cpu) (prog : list Z) : W :=
  mk_world c [] [] (Sample.memory (Sample.words_at 0 prog ∅) []) [] tt false false false true false.

(** The processor after reset, about to run the program. *)
Definition cpu0 : r4k_cpu := r4k_set_pc 0xffffffff80000000 (r4k_init 0).

(** The same processor after its boot code: exceptions go to kseg0. *)
Definition kernel_cpu : r4k_cpu := set_cp0r cp0_Status 0 cpu0.

Fixpoint run (n : nat) : st W unit :=
  match n with O => mret tt | S n' => r4k_step;; run n' end.

Lemma machine_wf c prog : phys_wf (w_phys (machine c prog)).
Proof. apply Sample.memory_wf, Sample.words_at_ok, Sample.empty_ok. Qed.
End R4kSample.

Abbreviation keeps m Q := (triple r4k_wf m Q).

(** ** Coprocessor instructions *)
Lemma tr_cop_unusable ce : in_width 64 ce → keeps (cop_unusable ce) any.
Proof. intros Hce. unfold cop_unusable. r4k_tr. Qed.
Lemma tr_with_cop1 m : keeps m any → keeps (with_cop1 m) any.
Proof. intros Hm. unfold with_cop1. tr_auto. by apply tr_cop_unusable. Qed.
Lemma tr_with_cop2 m : keeps m any → keeps (with_cop2 m) any.
Proof. intros Hm. unfold with_cop2. tr_auto. by apply tr_cop_unusable. Qed.
Lemma tr_with_cop0 m : keeps m any → keeps (with_cop0 m) any.
Proof. intros Hm. unfold with_cop0. tr_auto. Qed.

Lemma wf_update_waddr c : r4k_wf c → r4k_wf (update_waddr c).
Proof. intros Hc. unfold update_waddr. eauto with r4k. Qed.

Lemma tr_cp0_write r v : in_width 64 v → keeps (cp0_write r v) any.
Proof. intros Hv. unfold cp0_write. r4k_tr; try by apply wf_update_waddr. Qed.

Definition sys_instrs : list (Z → st r4k_cpu r4k_exc) :=
  [instr_cfc1; instr_ctc1; instr_mfc1; instr_mtc1; instr_dmfc1; instr_dmtc1; instr_lwc1; instr_ldc1;
   instr_swc1; instr_sdc1; instr_cfc2; instr_ctc2; instr_mfc2; instr_lwc2; instr_ldc2; instr_swc2;
   instr_sdc2; instr_bc0f; instr_bc0fl; instr_bc0t; instr_bc0tl; instr_bc1f; instr_bc1fl; instr_bc1t;
   instr_bc1tl; instr_bc2f; instr_bc2fl; instr_bc2t; instr_bc2tl; instr_mfc0; instr_dmfc0; instr_mtc0;
   instr_dmtc0; instr_tlbp; instr_tlbr; instr_tlbwi; instr_tlbwr].

Lemma tr_sys f i : f ∈ sys_instrs → keeps (f i) any.
Proof.
  unfold sys_instrs. rewrite !elem_of_cons, elem_of_nil. intros Hf.
  repeat destruct Hf as [->|Hf]; [..|done].
  all: match goal with |- triple _ (?f _) _ => unfold f end; unfold ignored;
    try solve [eauto 1 with triples]; repeat first [apply tr_if_64bit | apply tr_with_cop0 | apply tr_with_cop1 | apply tr_with_cop2];
    tr_auto; first [apply tr_cp0_write | apply tr_write_rt]; intros; width_auto.
Qed.

(** ** Exceptions and time *)
Lemma wf_set_cause e c : r4k_wf c → r4k_wf (set_cause e c).
Proof.
  intros Hc. unfold set_cause, upd_cp0. cbv zeta.
  assert (in_width 64 (Z.shiftl (exc_no e) cp0_cause_exccode_shift)) by (by destruct e).
  case_match; wf_auto.
Qed.

Lemma wf_set_epc e c : r4k_wf c → r4k_wf (set_epc e c).
Proof. intros Hc. unfold set_epc. cbv zeta. repeat case_match; wf_auto. Qed.

#[export] Hint Resolve wf_set_cause wf_set_epc : r4k.

Lemma vector_width b e c : in_width 64 (exception_vector b e c).
Proof. unfold exception_vector. cbv zeta. repeat case_match; first [apply u64_width|done]. Qed.

Lemma tr_handle_exception e : keeps (handle_exception e) any.
Proof.
  unfold handle_exception. tr_auto; try (apply wf_set_pc; [done|apply vector_width]); wf_auto.
Qed.
#[export] Hint Resolve tr_handle_exception : triples.

Lemma wf_tick_random c : r4k_wf c → r4k_wf (tick_random c).
Proof.
  intros Hc. pose proof (wf_random c Hc). unfold tick_random. cbv zeta.
  destruct (Z.eqb_spec (cp0r cp0_Random c) 0); case_match; repeat (apply wf_set_random; [|lia]); done.
Qed.

Lemma tr_manage e : keeps (manage e) any.
Proof. unfold manage, tick_timer. r4k_tr. by apply wf_tick_random. Qed.

Lemma tr_account : keeps account any.
Proof. unfold account. r4k_tr. Qed.
#[export] Hint Resolve tr_manage tr_account : triples.

Lemma wf_finish_instr e c : r4k_wf c → r4k_wf (finish_instr e c).
Proof.
  intros Hc. unfold finish_instr. cbv zeta.
  assert (r4k_wf (if branch_is (branch c) BRANCH_COND || branch_is (branch c) BRANCH_NONE
                  then c <| excaddr := pc c |> else c)) as Hc' by (case_match; eauto with r4k widths).
  revert Hc'. generalize (if branch_is (branch c) BRANCH_COND || branch_is (branch c) BRANCH_NONE
                  then c <| excaddr := pc c |> else c). intros c' Hc'.
  assert (r4k_wf (set_reg 0 0 c')) as H0 by (by apply wf_set_reg).
  case_match; [by apply wf_set_pc1, u64_width|]. apply wf_set_pcs; [done|apply H0|apply u64_width].
Qed.

Lemma wf_r4k_init no : r4k_wf (r4k_init no).
Proof.
  unfold r4k_init. cbv zeta. repeat (apply wf_set_cp0; [|done|done]). apply wf_set_status; [|done].
  apply wf_set_cp0; [|done|done]. apply wf_set_cp0; [|done|done]. apply wf_set_random; [|done].
  apply wf_set_cp0; [|done|done]. apply wf_set_pc; [|done].
  split; intros; cbn; rewrite ?lookup_empty; done || (repeat split; done).
Qed.

(** ** The machine *)
Section Machine.
Context {D : Type} `{BoardOf r4k_cpu Fnc.instr_fnc D}.
Abbreviation W := (world r4k_cpu Fnc.instr_fnc D).

Definition machine_wf (w : W) : Prop :=
  r4k_wf (w_cpu w) ∧ Forall r4k_wf (w_before w) ∧ Forall r4k_wf (w_after w).

(** The devices of the configuration keep the processors well formed. *)
Definition devices_keep : Prop := Forall (device_keeps machine_wf) devices.
Hypothesis Hdev : devices_keep.

Abbreviation wkeeps m Q := (triple machine_wf m Q).

Lemma tr_on_cpu {A} (m : st r4k_cpu A) Q : keeps m Q → wkeeps (on_cpu m) Q.
Proof.
  intros Hm w a w' (Hc & Hb & Ha). unfold on_cpu, zoom. destruct (m (w_cpu w)) as [[b c]|] eqn:E; [|done].
  intros [= <- <-]. destruct (Hm _ _ _ Hc E) as [Hc' HQ]. split; [|done]. split; [done|by split].
Qed.

Lemma tr_cpu : wkeeps cpu r4k_wf.
Proof. apply tr_gets. by intros w [? _]. Qed.

Lemma tr_cpu_modify f : (∀ c, r4k_wf c → r4k_wf (f c)) → wkeeps (cpu_modify f) any.
Proof. intros Hf. by apply tr_on_cpu, tr_modify. Qed.

Lemma tr_sc_access procno addr size : wkeeps (cpu_sc_access procno addr size) any.
Proof.
  assert (∀ c, r4k_wf c → r4k_wf (snd (r4k_sc_access addr size c))) as Hs.
  { intros c Hc. unfold r4k_sc_access. cbv zeta. cbn [snd]. case_match; [by apply wf_set_llbit|done]. }
  assert (∀ p l b l', Forall r4k_wf l → update_first p (r4k_sc_access addr size) l = Some (b, l') → Forall r4k_wf l') as Hu.
  { intros p l. induction l as [|c l IH]; intros b l' Hl; cbn [update_first]; [done|].
    apply Forall_cons in Hl as [Hc Hl]. destruct (p c).
    - specialize (Hs c Hc). destruct (r4k_sc_access addr size c) as [b1 c1]. intros [= <- <-].
      apply Forall_cons. by split.
    - destruct (update_first p _ l) as [[b1 l1]|]; [|done]. intros [= <- <-].
      apply Forall_cons. split; [done|by eapply IH]. }
  assert (∀ p w b w', machine_wf w → with_first_cpu p (core_sc_access addr size) w = Some (b, w') → machine_wf w') as Hw.
  { intros p w b w' (Hc & Hb & Ha). unfold with_first_cpu.
    change (core_sc_access addr size) with (r4k_sc_access addr size).
    destruct (update_first p _ (w_before w)) as [[b1 l1]|] eqn:E1; [intros [= <- <-]; split; [done|split; [exact (Hu _ _ _ _ Hb E1)|done]]|].
    destruct (p (w_cpu w)).
    { specialize (Hs _ Hc). destruct (r4k_sc_access addr size (w_cpu w)). intros [= <- <-]. split; [done|by split]. }
    destruct (update_first p _ (w_after w)) as [[b1 l1]|] eqn:E2; [|done]. intros [= <- <-]. split; [done|split; [done|exact (Hu _ _ _ _ Ha E2)]]. }
  intros w b w' Hwf. unfold cpu_sc_access. repeat case_match; intros; simplify_eq; split; try done; by eapply Hw.
Qed.

Lemma wf_set_phys p w : machine_wf w → machine_wf (ph_set p w).
Proof. done. Qed.
Lemma tr_gdb : wkeeps ph_gdb_event any.
Proof. by apply tr_modify. Qed.
Lemma wf_devices (w : W) : machine_wf w → Forall (device_keeps machine_wf) (ph_devices w).
Proof using Hdev. intros _. exact Hdev. Qed.

#[local] Hint Resolve tr_cpu tr_sc_access wf_set_phys tr_gdb wf_devices : triples.

Lemma tr_icache_modify f : wkeeps (icache_modify f) any.
Proof. by apply tr_modify. Qed.

Lemma tr_validate addr f : wkeeps (validate_frame addr f) any.
Proof.
  unfold validate_frame. eapply tr_bind; [apply tr_ftl1_of; eauto with triples|intros ? _].
  apply tr_set_frame; eauto with triples.
Qed.

Lemma tr_mem_read32 procno addr p : wkeeps (physmem_read32 procno addr p) any.
Proof using Hdev. apply tr_read32; eauto with triples. Qed.
Lemma tr_mem_find addr : wkeeps (physmem_find_frame addr) any.
Proof. apply tr_find_frame; eauto with triples. Qed.
#[local] Hint Resolve tr_icache_modify tr_validate tr_mem_read32 tr_mem_find : triples.

Lemma tr_page_decode decode n addr i acc : wkeeps (page_decode_loop decode n addr i acc) any.
Proof using Hdev.
  revert i acc. induction n as [|n IH]; intros i acc; cbn [page_decode_loop]; tr_auto.
Qed.

Lemma tr_page decode addr : wkeeps (cache_item_page_decode decode addr) any.
Proof using Hdev. apply tr_page_decode. Qed.
#[local] Hint Resolve tr_page : triples.

Lemma tr_update decode ci : wkeeps (update_cache_item decode ci) any.
Proof using Hdev. unfold update_cache_item. tr_auto. Qed.
Lemma tr_try_add decode phys : wkeeps (cache_try_add decode phys) any.
Proof using Hdev. unfold cache_try_add. tr_auto. Qed.
Lemma tr_cached ci phys : wkeeps (cached_instr ci phys) any.
Proof. unfold cached_instr. tr_auto. Qed.
Lemma tr_hit phys : wkeeps (cache_hit phys) any.
Proof. by apply tr_gets. Qed.
#[local] Hint Resolve tr_update tr_try_add tr_cached tr_hit : triples.
Lemma tr_fetch decode phys : wkeeps (fetch_cached decode phys) any.
Proof using Hdev. unfold fetch_cached. tr_auto. Qed.
#[local] Hint Resolve tr_fetch : triples.

(** *** Accesses to memory *)
Lemma tr_align bits addr noisy : in_width 64 addr → keeps (align_test bits addr noisy) any.
Proof. intros Ha. unfold align_test. r4k_tr. Qed.
Lemma tr_written p : keeps (written p) any.
Proof. unfold written. tr_auto. Qed.
#[local] Hint Resolve tr_align tr_written tr_on_cpu : triples.

Lemma tr_access mode addr noisy : in_width 64 addr → keeps (access_mem mode addr noisy) any.
Proof. intros Ha. unfold access_mem. r4k_tr. Qed.
#[local] Hint Resolve tr_access : triples.

(** A value of at most [bits] bits, if there is one. *)
Definition opt_width (bits : Z) (r : r4k_exc * option Z) : Prop := ∀ v, snd r = Some v → in_width bits v.

Lemma tr_cpu_read bits test read addr noisy :
  0 ≤ bits → in_width 64 addr → (∀ a b, in_width 64 a → keeps (test a b) any) →
  (∀ no a p, wkeeps (read no a p) any) → wkeeps (cpu_read_mem bits test read addr noisy) (opt_width bits).
Proof.
  intros Hb Ha Ht Hr. unfold cpu_read_mem. eapply tr_bind; [by apply tr_on_cpu, Ht|intros res _].
  destruct res; try apply tr_stop; [|apply tr_ret; by intros v [= ]].
  eapply tr_bind; [by apply tr_on_cpu, tr_access|intros [res phys] _].
  assert (∀ r : r4k_exc, wkeeps (match load_exc r with Some e => mret (e, None) | None => stop AssertFailed end) (opt_width bits)) as Hx.
  { intros r. destruct (load_exc r); [apply tr_ret; by intros v [= ]|apply tr_stop]. }
  destruct res; try apply Hx. eapply tr_bind; [apply tr_on_cpu, tr_written|intros p _].
  eapply tr_bind; [apply tr_cpu|intros c Hc]. eapply tr_bind; [apply Hr|intros v _].
  apply tr_ret. intros x [= <-]. by apply wrap_range.
Qed.

Lemma tr_cpu_write test write addr v noisy :
  in_width 64 addr → (∀ a b, in_width 64 a → keeps (test a b) any) →
  (∀ no a x p, wkeeps (write no a x p) any) → wkeeps (cpu_write_mem test write addr v noisy) any.
Proof.
  intros Ha Ht Hw. unfold cpu_write_mem. eapply tr_bind; [by apply tr_on_cpu, Ht|intros res _].
  destruct res; try apply tr_stop; [|by apply tr_ret].
  eapply tr_bind; [by apply tr_on_cpu, tr_access|intros [res phys] _].
  assert (∀ r : r4k_exc, wkeeps (match store_exc r with Some e => mret e | None => stop AssertFailed end) any) as Hx.
  { intros r. destruct (store_exc r); [by apply tr_ret|apply tr_stop]. }
  destruct res; try apply Hx. eapply tr_bind; [apply tr_on_cpu, tr_written|intros p _].
  eapply tr_bind; [apply tr_cpu|intros c Hc]. eapply tr_bind; [apply Hw|intros b _]. by apply tr_ret.
Qed.

Section Widths.
Context (addr : Z) (Ha : in_width 64 addr) (noisy : bool).
Lemma tr_cpu_read8 : wkeeps (cpu_read_mem8 addr noisy) (opt_width 8).
Proof using Hdev Ha. apply tr_cpu_read; [done|done|by intros; apply tr_ret|intros; apply tr_read8; eauto with triples]. Qed.
Lemma tr_cpu_read16 : wkeeps (cpu_read_mem16 addr noisy) (opt_width 16).
Proof using Hdev Ha. apply tr_cpu_read; [done|done|intros; by apply tr_align|intros; apply tr_read16; eauto with triples]. Qed.
Lemma tr_cpu_read32 : wkeeps (r4k_read_mem32 addr noisy) (opt_width 32).
Proof using Hdev Ha. apply tr_cpu_read; [done|done|intros; by apply tr_align|intros; apply tr_read32; eauto with triples]. Qed.
Lemma tr_cpu_read64 : wkeeps (cpu_read_mem64 addr noisy) (opt_width 64).
Proof using Hdev Ha. apply tr_cpu_read; [done|done|intros; by apply tr_align|intros; apply tr_read64; eauto with triples]. Qed.
Lemma tr_cpu_write8 v : wkeeps (cpu_write_mem8 addr v noisy) any.
Proof using Hdev Ha. apply tr_cpu_write; [done|by intros; apply tr_ret|intros; apply tr_write8; eauto with triples]. Qed.
Lemma tr_cpu_write16 v : wkeeps (cpu_write_mem16 addr v noisy) any.
Proof using Hdev Ha. apply tr_cpu_write; [done|intros; by apply tr_align|intros; apply tr_write16; eauto with triples]. Qed.
Lemma tr_cpu_write32 v : wkeeps (cpu_write_mem32 addr v noisy) any.
Proof using Hdev Ha. apply tr_cpu_write; [done|intros; by apply tr_align|intros; apply tr_write32; eauto with triples]. Qed.
Lemma tr_cpu_write64 v : wkeeps (cpu_write_mem64 addr v noisy) any.
Proof using Hdev Ha. apply tr_cpu_write; [done|intros; by apply tr_align|intros; apply tr_write64; eauto with triples]. Qed.
End Widths.
#[local] Hint Resolve tr_cpu_read8 tr_cpu_read16 tr_cpu_read32 tr_cpu_read64 tr_cpu_write8 tr_cpu_write16
  tr_cpu_write32 tr_cpu_write64 : triples.

(** *** Loads and stores *)
Lemma ea_width i c : in_width 64 (effective_addr i c).
Proof. apply u64_width. Qed.
Lemma base_width a : in_width 64 a → in_width 64 (word_base a).
Proof. intros Ha. unfold word_base. width_auto. Qed.
#[local] Hint Resolve ea_width base_width : triples.

Lemma tr_w_if_64bit m : wkeeps m any → wkeeps (w_if_64bit m) any.
Proof. intros Hm. unfold w_if_64bit. tr_auto. Qed.

(** What follows a read uses the value only if there is one. *)
Lemma tr_result (bits : Z) (res : r4k_exc) (val : option Z) (k : Z → st W unit) (k' : st W unit) :
  opt_width bits (res, val) → (∀ v, in_width bits v → wkeeps (k v) any) → wkeeps k' any →
  wkeeps (match res, val with r4k_excNone, Some v => k v | _, _ => k' end) any.
Proof. intros Hv Hk Hk'. destruct res, val; auto. Qed.

Lemma tr_load read ext i bits :
  (∀ a, in_width 64 a → wkeeps (read a true) (opt_width bits)) →
  (∀ v, in_width bits v → in_width 64 (ext v)) → wkeeps (load read ext i) any.
Proof.
  intros Hr He. unfold load. tr_step. eapply tr_bind; [apply Hr, ea_width|intros [res val] Hv]. tr_step; [|tr_auto].
  eapply tr_result; [exact Hv| |by apply tr_ret]. intros v Hw. apply tr_cpu_modify. intros c' Hc.
  apply wf_set_reg; auto.
Qed.

Lemma tr_store write val i :
  (∀ a v, in_width 64 a → wkeeps (write a v true) any) → wkeeps (store write val i) any.
Proof. intros Hw. unfold store. tr_step. apply Hw, ea_width. Qed.

Lemma lwl_width index rt v : in_width 32 (lwl_combine index rt v).
Proof.
  unfold lwl_combine. destruct (tab_at _ _) as [m s]. apply lor_width; [lia| |apply lo_width].
  apply land_width_l; [lia|apply lo_width].
Qed.

Lemma tab_shift_nonneg index m s : tab_at shift_tab_right index = (m, s) → 0 ≤ s.
Proof.
  unfold tab_at. destruct (Z.to_nat index) as [|[|[|[|n]]]]; cbn; intros [= <- <-]; lia.
Qed.

Lemma lwr_instr_width index rt v : in_width 32 v → in_width 32 (lwr_combine index rt v).
Proof.
  intros Hv. unfold lwr_combine. destruct (tab_at _ _) as [m s] eqn:E. apply tab_shift_nonneg in E.
  apply lor_width; [lia|apply land_width_l; [lia|apply lo_width]|]. apply land_width_l; [lia|].
  by apply shiftr_width.
Qed.

Lemma tr_lwl i : wkeeps (instr_lwl i) any.
Proof using Hdev.
  unfold instr_lwl. tr_step. cbv zeta. eapply tr_bind; [eauto with triples|intros [res val] Hv].
  tr_step; [|tr_auto]. eapply tr_result; [exact Hv| |by apply tr_ret]. intros v Hw. apply tr_cpu_modify.
  intros c' Hc. apply wf_set_reg; [done|]. apply sext_32_64_width, lwl_width.
Qed.

Lemma tr_lwr i : wkeeps (instr_lwr i) any.
Proof using Hdev.
  unfold instr_lwr. tr_step. cbv zeta. eapply tr_bind; [eauto with triples|intros [res val] Hv].
  tr_step; [|tr_auto]. eapply tr_result; [exact Hv| |by apply tr_ret]. intros v Hw. apply tr_cpu_modify.
  intros c' Hc. apply wf_set_reg; [done|]. pose proof (lwr_instr_width (Z.land (effective_addr i a) 3) (rt_val i c') v Hw).
  case_match; [by apply sext_32_64_width|by apply (in_width_mono 32)].
Qed.

Lemma tr_store_partial f i : wkeeps (store_partial f i) any.
Proof using Hdev.
  unfold store_partial. tr_step. cbv zeta. eapply tr_bind; [eauto with triples|intros [res val] _].
  assert (wkeeps (mret res) any) as Hr by (by apply tr_ret).
  destruct res; try exact Hr. destruct val; [|exact Hr]. tr_step. eauto with triples.
Qed.

Lemma tr_sc_reg no : wkeeps (sc_register no) any.
Proof. apply tr_sc_register; eauto with triples. Qed.
Lemma tr_sc_unreg no : wkeeps (sc_unregister no) any.
Proof. apply tr_sc_unregister; eauto with triples. Qed.

Lemma tr_load_linked read ext i bits :
  (∀ a, in_width 64 a → wkeeps (read a true) (opt_width bits)) →
  (∀ v, in_width bits v → in_width 64 (ext v)) → wkeeps (load_linked read ext i) any.
Proof.
  intros Hr He. unfold load_linked. tr_step. eapply tr_bind; [apply Hr, ea_width|intros [res val] Hv].
  tr_step; [|tr_auto]. eapply tr_result; [exact Hv| |].
  - intros v Hw. tr_step; [apply tr_cpu_modify; intros c' Hc; apply wf_set_reg; auto|].
    eapply tr_bind; [by apply tr_on_cpu, tr_convert, ea_width|intros [e p] _].
    tr_step; [apply tr_sc_reg|]. tr_step; [apply tr_cpu_modify; auto with r4k|].
    eapply tr_bind; [apply tr_on_cpu, tr_written|intros pv _]. apply tr_cpu_modify. auto with r4k.
  - tr_step; [apply tr_sc_unreg|]. apply tr_cpu_modify. auto with r4k.
Qed.

Lemma tr_store_conditional write val i :
  (∀ a v, in_width 64 a → wkeeps (write a v true) any) → wkeeps (store_conditional write val i) any.
Proof.
  intros Hw. unfold store_conditional. tr_step. destruct (negb _).
  { tr_step; [|tr_auto]. apply tr_cpu_modify. intros c' Hc. by apply wf_set_reg. }
  cbv zeta. eapply tr_bind; [apply Hw, ea_width|intros res _]. tr_step.
  - assert (wkeeps (mret tt) any) as Hm by (by apply tr_ret). destruct res; try exact Hm.
    tr_step; [apply tr_cpu_modify; intros c' Hc; by apply wf_set_reg|].
    eapply tr_bind; [by apply tr_on_cpu, tr_convert, ea_width|intros [e p] _].
    eapply tr_bind; [apply tr_on_cpu, tr_written|intros pv _]. exact Hm.
  - tr_step; [apply tr_sc_unreg|]. tr_step; [apply tr_cpu_modify; auto with r4k|]. by apply tr_ret.
Qed.

Definition mem_instrs : list (Z → st W r4k_exc) :=
  [instr_lb; instr_lbu; instr_lh; instr_lhu; instr_lw; instr_lwu; instr_ld; instr_lwl; instr_lwr; instr_sb;
   instr_sh; instr_sw; instr_sd; instr_swl; instr_swr; instr_ll; instr_lld; instr_sc; instr_scd].

Lemma ext_id bits v : 0 ≤ bits ≤ 64 → in_width bits v → in_width 64 v.
Proof. intros Hb Hv. apply (in_width_mono bits); lia || done. Qed.

Lemma tr_mem f i : f ∈ mem_instrs → wkeeps (f i) any.
Proof using Hdev.
  unfold mem_instrs. rewrite !elem_of_cons, elem_of_nil. intros Hf.
  repeat destruct Hf as [->|Hf]; [..|done].
  all: unfold instr_lb, instr_lbu, instr_lh, instr_lhu, instr_lw, instr_lwu, instr_ld, instr_sb, instr_sh,
    instr_sw, instr_sd, instr_swl, instr_swr, instr_ll, instr_lld, instr_sc, instr_scd.
  all: lazymatch goal with |- triple _ (w_if_64bit _) _ => apply tr_w_if_64bit | _ => idtac end.
  all: lazymatch goal with
    | |- triple _ (load _ _ _) _ => eapply tr_load
    | |- triple _ (store _ _ _) _ => eapply tr_store
    | |- triple _ (load_linked _ _ _) _ => eapply tr_load_linked
    | |- triple _ (store_conditional _ _ _) _ => eapply tr_store_conditional
    | |- triple _ (store_partial _ _) _ => apply tr_store_partial
    | |- triple _ (instr_lwl _) _ => apply tr_lwl
    | |- triple _ (instr_lwr _) _ => apply tr_lwr
    end.
  all: lazymatch goal with
    | |- ∀ a, in_width 64 a → triple _ _ _ => eauto 2 with triples
    | |- ∀ a v, in_width 64 a → triple _ _ _ => eauto 2 with triples
    | _ =>
        first [exact sext_8_64_width | exact sext_16_64_width | exact sext_32_64_width | idtac]
    end.
  all: intros v Hv; eapply ext_id, Hv; lia.
Qed.

(** *** Instructions of the machine *)
Lemma tr_world_modify (f : W → W) : (∀ w, machine_wf w → machine_wf (f w)) → wkeeps (modify f) any.
Proof. intros Hf. by apply tr_modify. Qed.

Lemma tr_if_specific m : wkeeps m any → wkeeps (if_specific m) any.
Proof. intros Hm. unfold if_specific. tr_auto. Qed.

Lemma tr_eret i : wkeeps (instr_eret i) any.
Proof.
  unfold instr_eret. tr_step. destruct (CP0_USABLE _); [|apply tr_on_cpu, tr_cop0_unusable].
  tr_step; [apply tr_cpu_modify; auto with r4k|]. tr_step; [apply tr_sc_unreg|].
  tr_step; [|by apply tr_ret]. destruct (truthy _); (tr_step; apply tr_cpu_modify; intros c' Hc); wf_auto.
Qed.

Definition world_instrs : list (Z → st W r4k_exc) :=
  [instr_eret; instr__warning; instr__xcrd; instr__xrd; instr__xval; instr__xhlt; instr__xtr0; instr__xtrc;
   instr__xint].

Lemma tr_world f i : f ∈ world_instrs → wkeeps (f i) any.
Proof.
  unfold world_instrs. rewrite !elem_of_cons, elem_of_nil. intros Hf.
  repeat destruct Hf as [->|Hf]; [..|done]; [apply tr_eret|..].
  - unfold instr__warning. tr_auto.
  - apply tr_if_specific. by apply tr_ret.
  - apply tr_if_specific. by apply tr_ret.
  - apply tr_if_specific. by apply tr_ret.
  - apply tr_if_specific. by apply tr_world_modify.
  - apply tr_if_specific. by apply tr_world_modify.
  - apply tr_if_specific. tr_step; [apply tr_cpu_modify; auto with r4k|by apply tr_world_modify].
  - unfold instr__xint. tr_step. tr_step; [|by apply tr_ret].
    destruct (interactive_allowed _); by apply tr_world_modify.
Qed.

(** *** The step *)
Ltac find_elem :=
  lazymatch goal with
  | |- ?x ∈ ?x :: _ => apply list_elem_of_here
  | |- _ ∈ _ :: _ => apply list_elem_of_further; find_elem
  end.

Lemma tr_instr_exec f i : wkeeps (instr_exec f i) any.
Proof using Hdev.
  destruct f; cbn [instr_exec]; try apply tr_stop.
  all: lazymatch goal with
    | |- triple _ (on_cpu _) _ =>
        apply tr_on_cpu; first [apply tr_comp; unfold comp_instrs; find_elem
                               |apply tr_ctl; unfold ctl_instrs; find_elem
                               |apply tr_sys; unfold sys_instrs; find_elem]
    | _ => first [apply tr_mem; unfold mem_instrs; find_elem
                 |apply tr_world; unfold world_instrs; find_elem]
    end.
Qed.
#[local] Hint Resolve tr_instr_exec : triples.

Lemma tr_fetch_fault e : wkeeps (fetch_fault e) any.
Proof.
  unfold fetch_fault. tr_step; [|by apply tr_ret]. apply tr_cpu_modify. intros c' Hc.
  case_match; [|done]. apply wf_set_excaddr; [done|apply Hc].
Qed.

Lemma tr_execute : wkeeps execute any.
Proof using Hdev.
  unfold execute. tr_step. eapply tr_bind; [by apply tr_on_cpu, tr_convert, wf_pc|intros [res phys] _].
  destruct res; try apply tr_stop; try apply tr_fetch_fault.
  eapply tr_bind; [apply tr_on_cpu, tr_written|intros p _]. eapply tr_bind; [apply tr_fetch|intros [f|] _]; [|by apply tr_ret].
  eapply tr_bind; [apply tr_mem_read32|intros i _]. eapply tr_bind; [apply tr_instr_exec|intros e _].
  tr_step; [|by apply tr_ret]. apply tr_cpu_modify, wf_finish_instr.
Qed.

Lemma tr_step_all : wkeeps r4k_step any.
Proof using Hdev.
  unfold r4k_step. tr_step. eapply tr_bind.
  { destruct (negb _); [apply tr_execute|apply tr_ret; exact Logic.I]. }
  intros e _. tr_step; [apply tr_on_cpu, tr_manage|apply tr_on_cpu, tr_account].
Qed.
End Machine.

(** ** Reachable states *)
Lemma status_bit_clear c k : r4k_wf c → 0 ≤ k → Z.testbit status_mask k = false →
  Z.land (cp0r cp0_Status c) (Z.shiftl 1 k) = 0.
Proof.
  intros Hc Hk Hm. apply Z.bits_inj'. intros i Hi. rewrite Z.land_spec, testbit_bit, Z.testbit_0_l by done.
  destruct (Z.eqb_spec i k) as [->|]; [|by rewrite andb_false_r]. rewrite andb_true_r.
  destruct (Z.testbit (cp0r cp0_Status c) k) eqn:E; [|done].
  pose proof (proj1 (bits_in_spec _ _) (wf_status c Hc) k Hk E). congruence.
Qed.

Lemma never_64bit c : r4k_wf c → CPU_64BIT_MODE c = false.
Proof.
  intros Hc. unfold CPU_64BIT_MODE, cp0_status_kx, cp0_status_sx, cp0_status_ux.
  change cp0_status_kx_mask with (Z.shiftl 1 7). change cp0_status_sx_mask with (Z.shiftl 1 6).
  change cp0_status_ux_mask with (Z.shiftl 1 5). rewrite !status_bit_clear by done.
  cbn. by rewrite !andb_false_r.
Qed.

Lemma random_index c : r4k_wf c → cp0_random_random c = cp0r cp0_Random c.
Proof.
  intros Hc. unfold cp0_random_random. change cp0_random_random_mask with (Z.ones 6).
  pose proof (wf_random c Hc). rewrite Z.land_ones by done. apply Z.mod_small. lia.
Qed.

Fixpoint r4k_run {D} `{BoardOf r4k_cpu Fnc.instr_fnc D} (n : nat) : st (world r4k_cpu Fnc.instr_fnc D) unit :=
  match n with O => mret tt | S n' => r4k_step;; r4k_run n' end.

Lemma tr_run {D} `{BoardOf r4k_cpu Fnc.instr_fnc D} n : devices_keep → triple machine_wf (r4k_run n) any.
Proof.
  intros Hd. induction n as [|n IH]; cbn [r4k_run]; [by apply tr_ret|].
  eapply tr_bind; [by apply tr_step_all|intros ? _; apply IH].
Qed.

(** C5: whatever program runs, with devices that respect it, every processor of the
    machine keeps its registers at their width, the bits of Status that select
    64-bit addressing clear, and well-formed TLB entries; so the processor is never
    in a 64-bit mode (whose translation is unfinished) and the index that TLBWR
    takes from Random is one of the 48 entries. *)
Theorem r4k_reachable_wf {D} `{BoardOf r4k_cpu Fnc.instr_fnc D} n (w w' : world r4k_cpu Fnc.instr_fnc D) :
  devices_keep → machine_wf w → r4k_run n w = Done (tt, w') →
  machine_wf w' ∧ CPU_64BIT_MODE (w_cpu w') = false ∧ 0 ≤ cp0_random_random (w_cpu w') < TLB_ENTRIES.
Proof.
  intros Hd Hw Hrun. destruct (tr_run n Hd _ _ _ Hw Hrun) as [Hw' _]. pose proof Hw' as [Hc _].
  split_and!; [exact Hw'|by apply never_64bit| |]; rewrite random_index by done;
    pose proof (wf_random _ Hc); unfold TLB_ENTRIES; lia.
Qed.

Lemma sample_devices : devices_keep (D:=unit).
Proof. constructor. Qed.

Lemma wf_cpu0 : r4k_wf R4kSample.cpu0.
Proof. apply (wf_set_pc (r4k_init 0) (wf_r4k_init 0)). unfold in_width. lia. Qed.

(** MTC0 to Status tries to set the bits of the 64-bit modes, TLBWR follows. *)
Definition mode_prog : list Z := [0x240100e0; 0x40816000; 0x42000006].

Lemma r4k_reachable_wf_witness : ∃ w', r4k_run 3 (R4kSample.machine R4kSample.cpu0 mode_prog) = Done (tt, w') ∧
  machine_wf w' ∧ CPU_64BIT_MODE (w_cpu w') = false ∧ cp0r cp0_Random (w_cpu w') = 44.
Proof.
  assert (match r4k_run 3 (R4kSample.machine R4kSample.cpu0 mode_prog) with
          | Done (_, w') => cp0r cp0_Random (w_cpu w') =? 44 | Stop _ => false end = true) as E
    by (vm_compute; reflexivity).
  assert (machine_wf (R4kSample.machine R4kSample.cpu0 mode_prog)) as Hwf.
  { split; [exact wf_cpu0|split; constructor]. }
  revert E Hwf. generalize (R4kSample.machine R4kSample.cpu0 mode_prog). intros w E Hwf.
  destruct (r4k_run 3 w) as [[[] w']|] eqn:Hrun; [|done]. exists w'. split; [done|].
  destruct (r4k_reachable_wf 3 w w' sample_devices Hwf Hrun) as (Hw & H64 & _).
  split_and!; [done|done|by apply Z.eqb_eq].
Defined.
