(* ===== verification/R4kTlbProps.v ===== *)
(** * The TLB of the R4000: properties

    The search with its hint finds what a search from the first entry finds when,
    as the architecture demands, no address matches two entries.  An entry written
    by TLBWI translates the pages its registers describe, and TLBR reads it back. *)

From S2P Require Import Prelude PhysMem Machine MachineProps R4kTypes R4kTlb R4kDecode R4kCpu R4kInv R4kStepInv.

Abbreviation C := r4k_cpu.

(** ** The search *)

(** The entries that match the address, from the first one on. *)
Definition tlb_hits (c : C) (virt : Z) : list tlb_entry :=
  filter (λ e, tlb_matches e virt (cp0_entryhi_asid c) = true) ((λ i, tlb_at i c) <$> seqZ 0 TLB_ENTRIES).

(** The architectural lookup: the hint plays no part. *)
Definition tlb_spec (c : C) (virt : Z) (wr : bool) : tlb_look_t * option Z :=
  match tlb_hits c virt with
  | [] => (TLBL_REFILL, None)
  | e :: _ => tlb_use e virt wr
  end.

(** No two entries match the address. *)
Definition tlb_unique (c : C) (virt : Z) : Prop := ∀ i j,
  0 ≤ i < TLB_ENTRIES → 0 ≤ j < TLB_ENTRIES →
  tlb_matches (tlb_at i c) virt (cp0_entryhi_asid c) = true →
  tlb_matches (tlb_at j c) virt (cp0_entryhi_asid c) = true → i = j.

(** The entry a search from round [i] meets first. *)
Fixpoint first_hit (n : nat) (i virt : Z) (c : C) : option (Z * tlb_entry) :=
  match n with
  | O => None
  | S n' =>
      let e := tlb_at ((i + tlb_hint c) mod TLB_ENTRIES) c in
      if tlb_matches e virt (cp0_entryhi_asid c) then Some (i, e) else first_hit n' (i + 1) virt c
  end.

Definition set_hint (r : tlb_look_t * option Z) (i : Z) (c : C) : C :=
  match fst r with TLBL_OK => c <| tlb_hint := i |> | _ => c end.

Lemma tlb_search_run n i virt wr c :
  tlb_search n i virt wr c =
  match first_hit n i virt c with
  | Some (k, e) => Done (tlb_use e virt wr, set_hint (tlb_use e virt wr) k c)
  | None => Done ((TLBL_REFILL, None), c)
  end.
Proof.
  revert i. induction n as [|n IH]; intros i; cbn [tlb_search first_hit]; [done|].
  rewrite (bind_Done _ _ _ _ _ eq_refl). cbv zeta. destruct (tlb_matches _ _ _); [|apply IH].
  destruct (tlb_use _ virt wr) as [[] p]; by destruct c.
Qed.

Lemma first_hit_some n i virt c k e : first_hit n i virt c = Some (k, e) →
  e = tlb_at ((k + tlb_hint c) mod TLB_ENTRIES) c ∧ tlb_matches e virt (cp0_entryhi_asid c) = true.
Proof.
  revert i. induction n as [|n IH]; intros i; cbn [first_hit]; [done|].
  cbv zeta. destruct (tlb_matches (tlb_at ((i + _) mod _) _) _ _) eqn:E; [|apply IH]. by intros [= <- <-].
Qed.

Lemma first_hit_none n i virt c : first_hit n i virt c = None → ∀ k, i ≤ k < i + Z.of_nat n →
  tlb_matches (tlb_at ((k + tlb_hint c) mod TLB_ENTRIES) c) virt (cp0_entryhi_asid c) = false.
Proof.
  revert i. induction n as [|n IH]; intros i; cbn [first_hit]; [lia|].
  cbv zeta. destruct (tlb_matches (tlb_at ((i + _) mod _) _) _ _) eqn:E; [done|]. intros Hn k Hk.
  destruct (Z.eq_dec k i) as [->|]; [done|]. apply (IH _ Hn). lia.
Qed.

Lemma tlb_hits_elem c virt e : e ∈ tlb_hits c virt ↔
  tlb_matches e virt (cp0_entryhi_asid c) = true ∧ ∃ i, 0 ≤ i < TLB_ENTRIES ∧ e = tlb_at i c.
Proof.
  unfold tlb_hits. rewrite list_elem_of_filter, list_elem_of_fmap. split.
  - intros (Hm & i & -> & Hi%elem_of_seqZ). split; [done|]. exists i. split; [lia|done].
  - intros (Hm & i & Hi & ->). split; [done|]. exists i. split; [done|]. apply elem_of_seqZ. lia.
Qed.

(** Every index is met in some round, whatever the hint. *)
Lemma round_of (h i : Z) : 0 ≤ i < TLB_ENTRIES → ∃ k, 0 ≤ k < TLB_ENTRIES ∧ (k + h) mod TLB_ENTRIES = i.
Proof.
  intros Hi. exists ((i - h) mod TLB_ENTRIES). split; [by apply Z.mod_pos_bound|].
  rewrite Zplus_mod_idemp_l. replace (i - h + h) with i by lia. by apply Z.mod_small.
Qed.

Lemma spec_hit c virt wr i : tlb_unique c virt → 0 ≤ i < TLB_ENTRIES →
  tlb_matches (tlb_at i c) virt (cp0_entryhi_asid c) = true →
  tlb_spec c virt wr = tlb_use (tlb_at i c) virt wr.
Proof.
  intros Hu Hi Hm. unfold tlb_spec.
  assert (tlb_at i c ∈ tlb_hits c virt) as Hin by (apply tlb_hits_elem; eauto).
  destruct (tlb_hits c virt) as [|e l] eqn:E; [by apply not_elem_of_nil in Hin|].
  assert (e ∈ tlb_hits c virt) as He by (rewrite E; by left).
  apply tlb_hits_elem in He as (Hme & j & Hj & ->). by rewrite (Hu i j Hi Hj Hm Hme).
Qed.

Lemma spec_miss c virt wr :
  (∀ i, 0 ≤ i < TLB_ENTRIES → tlb_matches (tlb_at i c) virt (cp0_entryhi_asid c) = false) →
  tlb_spec c virt wr = (TLBL_REFILL, None).
Proof.
  intros Hno. unfold tlb_spec. destruct (tlb_hits c virt) as [|e l] eqn:E; [done|].
  assert (e ∈ tlb_hits c virt) as He by (rewrite E; by left).
  apply tlb_hits_elem in He as (Hm & i & Hi & ->). rewrite Hno in Hm by done. done.
Qed.

(** As long as no address matches two entries, the search that starts at the
    optimisation hint gives the architectural answer, whatever the hint, and
    changes nothing but the hint. *)
Lemma tlb_look_refines c virt wr :
  CPU_TLB_SHUTDOWN c = false → tlb_unique c virt →
  ∃ h, tlb_look virt wr c = Done (tlb_spec c virt wr, c <| tlb_hint := h |>).
Proof.
  intros Hs Hu. unfold tlb_look. rewrite (bind_Done _ _ _ _ _ eq_refl), Hs, tlb_search_run.
  destruct (first_hit _ 0 virt c) as [[k e]|] eqn:E.
  - apply first_hit_some in E as [-> Hm].
    rewrite (spec_hit c virt wr _ Hu (Z.mod_pos_bound (k + tlb_hint c) TLB_ENTRIES ltac:(done)) Hm).
    unfold set_hint. destruct (fst _); [by eexists| | |]; exists (tlb_hint c); by destruct c.
  - rewrite spec_miss; [exists (tlb_hint c); by destruct c|]. intros i Hi.
    destruct (round_of (tlb_hint c) i Hi) as (k & Hk & <-). apply (first_hit_none _ _ _ _ E).
    unfold TLB_ENTRIES in *. lia.
Qed.

(** ** Pages *)

(** The page sizes 4K to 16M, as a number of address bits. *)
Definition page_bits : list Z := [12; 14; 16; 18; 20; 22; 24].

(** The value of PageMask for pages of [p] bits. *)
Definition pagemask_of (p : Z) : Z := 2 ^ (p + 1) - 2 ^ 13.

Lemma entry_mask p c : p ∈ page_bits → cp0r cp0_PageMask c = pagemask_of p →
  mask (entry_of c) = Z.shiftl (Z.ones (32 - (p + 1))) (p + 1).
Proof.
  intros Hp E. cbn [entry_of mask]. rewrite E. unfold page_bits in Hp.
  rewrite !elem_of_cons, elem_of_nil in Hp. by repeat destruct Hp as [->|Hp].
Qed.

Lemma entry_smask p c : p ∈ page_bits → cp0r cp0_PageMask c = pagemask_of p →
  tlb_smask (entry_of c) = Z.shiftl (Z.ones (35 - p)) p.
Proof.
  intros Hp E. unfold tlb_smask. rewrite (entry_mask p c Hp E). clear E. unfold page_bits in Hp.
  rewrite !elem_of_cons, elem_of_nil in Hp. by repeat destruct Hp as [->|Hp].
Qed.

Lemma page_bits_range p : p ∈ page_bits → 12 ≤ p ≤ 24.
Proof.
  unfold page_bits. rewrite !elem_of_cons, elem_of_nil. intros Hp. by repeat destruct Hp as [->|Hp].
Qed.

(** The part of a 32-bit value above bit [k]. *)
Lemma land_high x k w : 0 ≤ k ≤ w → in_width w x → Z.land x (Z.shiftl (Z.ones (w - k)) k) = x / 2 ^ k * 2 ^ k.
Proof.
  intros Hk Hx. rewrite land_field, Z.shiftl_mul_pow2 by lia. f_equal. unfold in_width in Hx.
  apply Z.mod_small. pose proof (pow2_pos k). split; [apply Z.div_pos; lia|].
  apply Z.div_lt_upper_bound; [lia|]. rewrite <- Z.pow_add_r by lia. replace (k + (w - k)) with w by lia. lia.
Qed.

Lemma land_low x k w : 0 ≤ k ≤ w → in_width w x → w ≤ 64 →
  Z.land x (c_not 64 (Z.shiftl (Z.ones (w - k)) k)) = x mod 2 ^ k.
Proof.
  intros Hk Hx Hw. rewrite <- (Z.land_ones x k) by lia. apply Z.bits_inj'. intros i Hi.
  rewrite !Z.land_spec, testbit_c_not, testbit_shiftl', (testbit_ones k i) by lia.
  destruct (Z.leb_spec k i); cbn [andb negb].
  - destruct (Z.ltb_spec i w).
    + rewrite testbit_ones by lia. destruct (Z.ltb_spec (i - k) (w - k)); [|lia].
      destruct (Z.ltb_spec i k); [lia|]. by rewrite !andb_false_r.
    + rewrite (testbit_high w x i) by (lia || done). done.
  - destruct (Z.ltb_spec i k); [|lia]. destruct (Z.ltb_spec i 64); [|lia]. by rewrite !andb_true_r.
Qed.

Lemma land_lo x m : in_width 32 m → Z.land (lo x) m = Z.land x m.
Proof.
  intros Hm. unfold lo. rewrite wrap_land, <- Z.land_assoc by done. f_equal.
  rewrite Z.land_comm, <- wrap_land by done. by apply wrap_small.
Qed.

Lemma mod_div_pow f w p : 0 ≤ p ≤ w → (f mod 2 ^ w) / 2 ^ p = (f / 2 ^ p) mod 2 ^ (w - p).
Proof.
  intros Hp. rewrite <- !Z.shiftr_div_pow2 by lia. apply Z.bits_inj'. intros i Hi. rewrite Z.shiftr_spec by done.
  destruct (Z.lt_ge_cases i (w - p)).
  - rewrite !Z.mod_pow2_bits_low by lia. by rewrite Z.shiftr_spec.
  - by rewrite !Z.mod_pow2_bits_high by lia.
Qed.

Lemma entry_tag p c : p ∈ page_bits → cp0r cp0_PageMask c = pagemask_of p →
  vpn2 (entry_of c) = lo (cp0r cp0_EntryHi c) / 2 ^ (p + 1) * 2 ^ (p + 1).
Proof.
  intros Hp E. pose proof (page_bits_range p Hp). pose proof (entry_mask p c Hp E) as Em.
  rewrite <- (land_high _ (p + 1) 32) by (lia || apply lo_width). rewrite <- Em. unfold entry_of, vpn2, mask.
  rewrite lo_land by apply lo_width. symmetry. apply land_lo, lo_width.
Qed.

(** The address space bits of a 36-bit frame number that reach the bus: bit 35 is
    cut off by [TLB_PHYSMASK]. *)
Definition frame_base (p f : Z) : Z := (f mod 2 ^ 35) / 2 ^ p * 2 ^ p.

(** The entry that TLBW builds for pages of [2^p] bytes matches exactly the
    addresses of its pair of pages (in its address space or any if global) and
    maps each to the frame of the even or odd page, at the same offset. *)
Lemma tlb_entry_translates p c virt asid_now :
  p ∈ page_bits → r4k_wf c → cp0r cp0_PageMask c = pagemask_of p →
  let e := entry_of c in
  let pg := rec_of (if Z.odd (lo virt / 2 ^ p) then cp0_EntryLo1 else cp0_EntryLo0) c in
  (tlb_matches e virt asid_now = true ↔
     lo virt / 2 ^ (p + 1) = lo (cp0r cp0_EntryHi c) / 2 ^ (p + 1) ∧
     (global e = true ∨ asid_now = cp0_entryhi_asid c)) ∧
  tlb_subpage e virt = pg ∧ tlb_phys e virt = frame_base p (pfn pg) + lo virt mod 2 ^ p.
Proof.
  intros Hp Hc E e pg. pose proof (page_bits_range p Hp) as Hr.
  pose proof (entry_mask p c Hp E) as Em. pose proof (entry_smask p c Hp E) as Es. fold e in Em, Es.
  pose proof (lo_width virt) as Hv.
  assert (vpn2 e = lo (cp0r cp0_EntryHi c) / 2 ^ (p + 1) * 2 ^ (p + 1)) as Ev
    by (by apply entry_tag).
  assert (Z.land (lo virt) (mask e) = lo virt / 2 ^ (p + 1) * 2 ^ (p + 1)) as Eh
    by (rewrite Em; apply land_high; done || lia).
  assert (in_width 35 (lo virt)) as Hv35 by (apply (in_width_mono 32); done || lia).
  assert (tlb_subpage e virt = pg) as Epg.
  { unfold tlb_subpage, pg. rewrite Eh, Es, (land_high _ p 35) by (done || lia).
    rewrite Z.pow_add_r, <- Z.div_div, Z.pow_1_r by lia. pose proof (pow2_pos p ltac:(lia)).
    set (q := lo virt / 2 ^ p). pose proof (Z.div_mod q 2 ltac:(lia)) as Eq. rewrite Zmod_odd in Eq.
    destruct (Z.odd q); destruct (Z.ltb_spec (q / 2 * (2 ^ p * 2)) (q * 2 ^ p)); done || nia. }
  split_and!; [|done|].
  - unfold tlb_matches. rewrite andb_true_iff, orb_true_iff, Z.eqb_eq, Z.eqb_eq, Eh, Ev.
    assert (asid e = cp0_entryhi_asid c) as -> by done. pose proof (pow2_pos (p + 1)). split.
    + intros [Hm Ha]. split; [nia|]. destruct Ha as [?| ->]; auto.
    + intros [-> Ha]. split; [done|]. destruct Ha as [?| ->]; auto.
  - unfold tlb_phys. rewrite Epg, Es, (land_low _ p 35), land_field, Z.lor_comm by (done || lia).
    rewrite lor_disjoint by (lia || apply (wrap_range p); lia). unfold frame_base. by rewrite mod_div_pow by lia.
Qed.

(** ** Writing, using and reading back an entry *)

(** A mode in which the user segment is translated through the TLB. *)
Definition useg_mapped (c : C) : bool :=
  CPU_USER_MODE c || CPU_SUPERVISOR_MODE c || (CPU_KERNEL_MODE c && negb (truthy (cp0_status_erl c))).

Lemma convert_useg c virt wr noisy : r4k_wf c → useg_mapped c = true → lo virt < 2 ^ 31 →
  r4k_convert_addr virt wr noisy c = tlb_hit32 virt wr noisy c.
Proof.
  intros Hc Hm Hv. unfold r4k_convert_addr. rewrite (bind_Done _ _ _ _ _ eq_refl), never_64bit by done.
  assert (in_seg (lo virt) USEG_MASK USEG_BITS = true) as Hs.
  { apply Z.eqb_eq. change USEG_MASK with (Z.shiftl (Z.ones (32 - 31)) 31).
    pose proof (lo_width virt) as Hw. rewrite land_high by (done || lia). unfold in_width in Hw.
    rewrite Z.div_small by lia. done. }
  unfold useg_mapped in Hm.
  destruct (CPU_USER_MODE c) eqn:Eu; [|destruct (CPU_SUPERVISOR_MODE c) eqn:Esu;
    [|destruct (CPU_KERNEL_MODE c) eqn:Ek; [|done]]].
  - unfold convert_addr_user32. rewrite (bind_Done _ _ _ _ _ eq_refl). rewrite Eu, (bind_Done _ _ _ _ _ eq_refl). by rewrite Hs.
  - unfold convert_addr_supervisor32. rewrite (bind_Done _ _ _ _ _ eq_refl), Esu, (bind_Done _ _ _ _ _ eq_refl). by rewrite Hs.
  - unfold convert_addr_kernel32. rewrite (bind_Done _ _ _ _ _ eq_refl), Ek, (bind_Done _ _ _ _ _ eq_refl), Hs.
    cbn in Hm. by rewrite Hm.
Qed.

Lemma TLBW_run c : CP0_USABLE c = true → cp0_index_index c < TLB_ENTRIES →
  TLBW false c = Done (r4k_excNone, c <| tlb := <[cp0_index_index c := entry_of c]> (tlb c) |>).
Proof.
  intros Hu Hi. unfold TLBW. rewrite (bind_Done _ _ _ _ _ eq_refl), Hu. cbv zeta.
  unfold TLB_ENTRIES in Hi. destruct (Z.ltb_spec 47 (cp0_index_index c)); [lia|]. done.
Qed.

Lemma index_nonneg c : 0 ≤ cp0_index_index c.
Proof. apply Z.land_nonneg. right. done. Qed.

(** C16: after TLBWI has written an entry for pages of [2^p] bytes, an access to the
    user segment inside the pair reaches the frame of its page at the same offset,
    if the page is valid, dirty for a store, and no other entry claims the address. *)
Theorem tlb_write_maps p c virt wr noisy :
  p ∈ page_bits → r4k_wf c → cp0r cp0_PageMask c = pagemask_of p →
  CP0_USABLE c = true → cp0_index_index c < TLB_ENTRIES → CPU_TLB_SHUTDOWN c = false →
  useg_mapped c = true → lo virt < 2 ^ 31 →
  lo virt / 2 ^ (p + 1) = lo (cp0r cp0_EntryHi c) / 2 ^ (p + 1) →
  (∀ j, 0 ≤ j < TLB_ENTRIES → j ≠ cp0_index_index c →
     tlb_matches (tlb_at j c) virt (cp0_entryhi_asid c) = false) →
  let pg := rec_of (if Z.odd (lo virt / 2 ^ p) then cp0_EntryLo1 else cp0_EntryLo0) c in
  valid pg = true → (wr = true → dirty pg = true) →
  ∃ c' h, TLBW false c = Done (r4k_excNone, c') ∧
    r4k_convert_addr virt wr noisy c' =
      Done ((r4k_excNone, Some (frame_base p (pfn pg) + lo virt mod 2 ^ p)), c' <| tlb_hint := h |>).
Proof.
  intros Hp Hc E Hu Hi Hs Hm Hv Hpair Hother pg Hval Hd.
  pose (c' := c <| tlb := <[cp0_index_index c := entry_of c]> (tlb c) |>).
  assert (r4k_wf c') as Hc' by (apply wf_set_tlb; [done|by apply entry_of_wf]).
  destruct (tlb_entry_translates p c virt (cp0_entryhi_asid c) Hp Hc E) as (Hmatch & Hsub & Hphys).
  assert (tlb_at (cp0_index_index c) c' = entry_of c) as Eat by (unfold tlb_at, c'; cbn; by rewrite lookup_insert_eq).
  assert (∀ j, j ≠ cp0_index_index c → tlb_at j c' = tlb_at j c) as Ene
    by (intros j Hj; unfold tlb_at, c'; cbn; by rewrite lookup_insert_ne).
  assert (tlb_matches (entry_of c) virt (cp0_entryhi_asid c') = true) as Hme by (apply Hmatch; auto).
  assert (tlb_unique c' virt) as Huq.
  { assert (∀ j, 0 ≤ j < TLB_ENTRIES → tlb_matches (tlb_at j c') virt (cp0_entryhi_asid c') = true →
      j = cp0_index_index c) as Hone.
    { intros j Hj Hmj. destruct (Z.eq_dec j (cp0_index_index c)) as [|Hne]; [done|].
      rewrite Ene in Hmj by done. unfold c' in Hmj. cbn in Hmj. by rewrite Hother in Hmj. }
    intros i j Hi' Hj Hmi Hmj. by rewrite (Hone i), (Hone j). }
  destruct (tlb_look_refines c' virt wr Hs Huq) as [h Hlook].
  exists c', h. split; [by apply TLBW_run|]. rewrite convert_useg by done.
  unfold tlb_hit32. rewrite (bind_Done _ _ _ _ _ Hlook).
  rewrite (spec_hit c' virt wr (cp0_index_index c)); [|done|pose proof (index_nonneg c); lia|by rewrite Eat].
  rewrite Eat. unfold tlb_use. cbv zeta. rewrite Hsub, Hphys. fold pg. rewrite Hval. cbn [negb].
  destruct wr; [rewrite (Hd eq_refl)|]; done.
Qed.

(** What an entry keeps of EntryLo: the global bit is common to both pages. *)
Definition entrylo_kept (v : Z) (g : bool) : Z := Z.lor (Z.land v 0x3ffffffe) (bool_to_Z g).

Lemma field_back v n k : 0 ≤ n → 0 ≤ k →
  Z.shiftl (Z.shiftr (Z.land v (Z.shiftl (Z.ones n) k)) k) k = Z.land v (Z.shiftl (Z.ones n) k).
Proof. intros Hn Hk. by rewrite field_shiftr, land_field by lia. Qed.

Lemma bit_back v k : 0 ≤ k →
  Z.shiftl (bool_to_Z (truthy (Z.shiftr (Z.land v (Z.shiftl (Z.ones 1) k)) k))) k = Z.land v (Z.shiftl (Z.ones 1) k).
Proof.
  intros Hk. rewrite <- field_back at 2 by lia. f_equal. rewrite field_shiftr by lia.
  change (2 ^ 1) with 2. rewrite Zmod_odd. by destruct (Z.odd _).
Qed.

Lemma entrylo_of_rec r c g : entrylo_of (rec_of r c) g = entrylo_kept (cp0r r c) g.
Proof.
  unfold entrylo_of, entrylo_kept, rec_of, cp0_entrylo_pfn, cp0_entrylo_c, cp0_entrylo_d, cp0_entrylo_v.
  cbn [pfn cohh dirty valid]. generalize (cp0r r c) as v. intros v. f_equal.
  change cp0_entrylo_d_mask with (Z.shiftl (Z.ones 1) 2). change cp0_entrylo_v_mask with (Z.shiftl (Z.ones 1) 1).
  change cp0_entrylo_pfn_mask with (Z.shiftl (Z.ones 24) 6). change cp0_entrylo_c_mask with (Z.shiftl (Z.ones 3) 3).
  change 12 with (6 + 6). rewrite <- Z.shiftl_shiftl, Z.shiftr_shiftl_l by lia. change (6 - 6) with 0. rewrite Z.shiftl_0_r.
  rewrite !bit_back, !field_back by lia. by rewrite <- !Z.land_lor_distr_r.
Qed.

(** ** Reading an entry back *)

Lemma pagemask_back p c : p ∈ page_bits → cp0r cp0_PageMask c = pagemask_of p →
  Z.land (c_not 32 (mask (entry_of c))) 0x01ffe000 = pagemask_of p.
Proof.
  intros Hp E. rewrite (entry_mask p c Hp E). clear E. unfold page_bits in Hp.
  rewrite !elem_of_cons, elem_of_nil in Hp. by repeat destruct Hp as [->|Hp].
Qed.

(** Both words of EntryLo are global when the entry is. *)
Definition both_global (c : C) : bool :=
  truthy (Z.land (cp0_entrylo_g cp0_EntryLo0 c) (cp0_entrylo_g cp0_EntryLo1 c)).

(** TLBWI followed by TLBR restores PageMask, the address tag down to the page
    pair with the ASID, and both words of EntryLo with the common global bit; no
    other register and no other entry changes. *)
Theorem tlb_write_read p c :
  p ∈ page_bits → cp0r cp0_PageMask c = pagemask_of p →
  CP0_USABLE c = true → cp0_index_index c < TLB_ENTRIES →
  ∃ c', (TLBW false;; TLBR) c = Done (r4k_excNone, c') ∧
    cp0r cp0_PageMask c' = cp0r cp0_PageMask c ∧
    cp0r cp0_EntryHi c' =
      lo (cp0r cp0_EntryHi c) / 2 ^ (p + 1) * 2 ^ (p + 1) + cp0r cp0_EntryHi c mod 2 ^ 8 ∧
    cp0r cp0_EntryLo0 c' = entrylo_kept (cp0r cp0_EntryLo0 c) (both_global c) ∧
    cp0r cp0_EntryLo1 c' = entrylo_kept (cp0r cp0_EntryLo1 c) (both_global c) ∧
    (∀ r, r ∉ [cp0_PageMask; cp0_EntryHi; cp0_EntryLo0; cp0_EntryLo1] → cp0r r c' = cp0r r c) ∧
    (∀ j, j ≠ cp0_index_index c → tlb_at j c' = tlb_at j c).
Proof.
  intros Hp E Hu Hi. pose proof (page_bits_range p Hp). rewrite (bind_Done _ _ _ _ _ (TLBW_run c Hu Hi)).
  set (c1 := c <| tlb := _ |>). unfold TLBR. rewrite (bind_Done _ _ _ _ _ eq_refl).
  change (CP0_USABLE c1) with (CP0_USABLE c). rewrite Hu. cbv zeta. change (cp0_index_index c1) with (cp0_index_index c).
  unfold TLB_ENTRIES in Hi. destruct (Z.ltb_spec 47 (cp0_index_index c)); [lia|].
  assert (tlb_at (cp0_index_index c) c1 = entry_of c) as Eat by (unfold tlb_at, c1; cbn; by rewrite lookup_insert_eq).
  rewrite !Eat. eexists. split; [reflexivity|]. rewrite !cp0_set_cp0. split_and!.
  - rewrite E. exact (pagemask_back p c Hp E).
  - change (Z.lor (vpn2 (entry_of c)) (asid (entry_of c)) =
      lo (cp0r cp0_EntryHi c) / 2 ^ (p + 1) * 2 ^ (p + 1) + cp0r cp0_EntryHi c mod 2 ^ 8). rewrite (entry_tag p c) by done.
    assert (asid (entry_of c) = cp0r cp0_EntryHi c mod 2 ^ 8) as ->
      by (exact (Z.land_ones (cp0r cp0_EntryHi c) 8 ltac:(lia))).
    pose proof (Z.mod_pos_bound (cp0r cp0_EntryHi c) (2 ^ 8) ltac:(lia)).
    rewrite <- Z.shiftl_mul_pow2 by lia. rewrite lor_disjoint; [by rewrite Z.shiftl_mul_pow2 by lia|lia|].
    pose proof (Z.pow_lt_mono_r 2 8 (p + 1)). unfold in_width. lia.
  - exact (entrylo_of_rec cp0_EntryLo0 c _).
  - exact (entrylo_of_rec cp0_EntryLo1 c _).
  - intros r Hr. rewrite !not_elem_of_cons in Hr. rewrite !cp0_set_cp0. repeat case_decide; naive_solver.
  - intros j Hj. unfold tlb_at, c1. cbn. by rewrite lookup_insert_ne.
Qed.

(** A processor set up to map the pages of user addresses 0x4000 and 0x5000 for
    address space 5 as entry 3. *)
Definition mapping_cpu : C :=
  set_cp0r cp0_Index 3 (set_cp0r cp0_EntryHi 0x4005
    (set_cp0r cp0_EntryLo0 0x80 (set_cp0r cp0_EntryLo1 0x1c7 (set_cp0r cp0_PageMask 0 R4kSample.kernel_cpu)))).

Lemma mapping_cpu_wf : r4k_wf mapping_cpu.
Proof.
  unfold mapping_cpu. repeat (apply wf_set_cp0; [|done|unfold in_width; lia]).
  apply wf_set_pagemask; [|done]. apply wf_set_status; [exact wf_cpu0|done].
Qed.

Lemma tlb_write_maps_witness : ∃ c' h, TLBW false mapping_cpu = Done (r4k_excNone, c') ∧
  r4k_convert_addr 0x5010 true true c' = Done ((r4k_excNone, Some 0x7010), c' <| tlb_hint := h |>).
Proof.
  apply (tlb_write_maps 12 mapping_cpu 0x5010 true true);
    [by left|exact mapping_cpu_wf|vm_compute; reflexivity..].
Defined.

Lemma tlb_write_read_witness : ∃ c', (TLBW false;; TLBR) mapping_cpu = Done (r4k_excNone, c') ∧
  cp0r cp0_EntryHi c' = 0x4005 ∧ cp0r cp0_EntryLo1 c' = 0x1c6.
Proof.
  destruct (tlb_write_read 12 mapping_cpu) as (c' & Hrun & _ & Ehi & _ & Elo & _);
    [by left|vm_compute; reflexivity..|].
  exists c'. split_and!; [done| |]; [rewrite Ehi|rewrite Elo]; vm_compute; reflexivity.
Defined.
