(* ===== verification/R4kExec.v ===== *)
(** * A 32-bit MIPS instruction set, executed by the R4000

    The set has the arithmetic, shift, multiply and divide, branch, jump, trap and
    exception-return instructions on 32-bit registers, and the moves to and from EPC.
    It leaves out loads and stores (their unaligned forms and the reservations are in
    [R4kMemProps]), SUB, whose overflow test is wrong ([R4kMemProps]), JALR with a link
    register other than 31 or with rs = 31, which the code links to register 31
    before it reads rs, and the other coprocessor, TLB and 64-bit instructions.

    Instructions as data, their encoding and their effect on a processor of 32-bit
    registers: arithmetic modulo [2 ^ 32], jumps that take effect after the
    instruction in the delay slot, precise exceptions and the return from them.  The
    decoder selects the function of every encoded instruction, and on the low halves
    of the 64-bit registers the function has the effect specified here. *)

From S2P Require Import Prelude PhysMem Machine R4kTypes R4kTlb R4kComp R4kCtl R4kSys R4kDecode R4kCpu R4kInv R4kTlbProps.
From S2P Require Import MachineProps R4kStepInv.
Import PhysMem.

Abbreviation C := r4k_cpu.

(** ** Instructions

    [Jalr] links to register 31; there is no SUB and no load or store. *)
Inductive alu_op := ADDU | SUBU | AND | OR | XOR | NOR | SLT | SLTU | SLLV | SRLV | SRAV.
Inductive shift_op := SLL | SRL | SRA.
Inductive imm_op := ADDIU | SLTI | SLTIU.
Inductive logic_op := ANDI | ORI | XORI.
Inductive muldiv_op := MULT | MULTU | DIV | DIVU.
Inductive zero_cond := LEZ | GTZ | LTZ | GEZ.
Inductive trap_cond := TGE | TGEU | TLT | TLTU | TEQ | TNE.

Inductive mips :=
  | Alu (op : alu_op) (rd rs rt : Z)
  | AddOv (rd rs rt : Z)
  | AddImmOv (rt rs imm : Z)
  | Shift (op : shift_op) (rd rt sa : Z)
  | AluImm (op : imm_op) (rt rs imm : Z)
  | Logic (op : logic_op) (rt rs imm : Z)
  | Lui (rt imm : Z)
  | MulDiv (op : muldiv_op) (rs rt : Z)
  | MfHi (rd : Z) | MfLo (rd : Z) | MtHi (rs : Z) | MtLo (rs : Z)
  | Branch (ne likely : bool) (rs rt off : Z)
  | BranchZ (cond : zero_cond) (likely : bool) (rs off : Z)
  | BranchLink (ge likely : bool) (rs off : Z)
  | J (target : Z) | Jal (target : Z) | Jr (rs : Z) | Jalr (rs : Z)
  | Syscall | Break
  | Trap (cond : trap_cond) (rs rt : Z)
  | TrapImm (cond : trap_cond) (rs imm : Z)
  | MfEpc (rt : Z) | MtEpc (rt : Z)
  | Eret.

Definition is_reg (r : Z) : bool := (0 <=? r) && (r <? 32).
Definition signed16 (x : Z) : bool := (- 2 ^ 15 <=? x) && (x <? 2 ^ 15).
Definition unsigned (n x : Z) : bool := (0 <=? x) && (x <? 2 ^ n).

Definition mips_wf (i : mips) : bool :=
  match i with
  | Alu _ a b d | AddOv a b d => is_reg a && is_reg b && is_reg d
  | Shift _ a b sa => is_reg a && is_reg b && unsigned 5 sa
  | AddImmOv a b imm | AluImm _ a b imm | Branch _ _ a b imm => is_reg a && is_reg b && signed16 imm
  | Logic _ a b imm => is_reg a && is_reg b && unsigned 16 imm
  | Lui a imm => is_reg a && unsigned 16 imm
  | MulDiv _ a b | Trap _ a b => is_reg a && is_reg b
  | MfHi a | MfLo a | MtHi a | MtLo a | Jr a | MfEpc a | MtEpc a => is_reg a
  | Jalr a => is_reg a && negb (a =? 31)
  | BranchZ _ _ a imm | BranchLink _ _ a imm | TrapImm _ a imm => is_reg a && signed16 imm
  | J t | Jal t => unsigned 26 t
  | Syscall | Break | Eret => true
  end.

(** ** Encoding *)
Definition mk_r (op func rs rt rd sa : Z) : Z :=
  func + 2 ^ 6 * (sa + 2 ^ 5 * (rd + 2 ^ 5 * (rt + 2 ^ 5 * (rs + 2 ^ 5 * op)))).
Definition mk_i (op rs rt imm : Z) : Z := imm mod 2 ^ 16 + 2 ^ 16 * (rt + 2 ^ 5 * (rs + 2 ^ 5 * op)).
Definition mk_j (op target : Z) : Z := target + 2 ^ 26 * op.

Definition alu_func (op : alu_op) : Z :=
  match op with
  | ADDU => 33 | SUBU => 35 | AND => 36 | OR => 37 | XOR => 38 | NOR => 39 | SLT => 42 | SLTU => 43
  | SLLV => 4 | SRLV => 6 | SRAV => 7
  end.
Definition shift_func (op : shift_op) : Z := match op with SLL => 0 | SRL => 2 | SRA => 3 end.
Definition imm_opcode (op : imm_op) : Z := match op with ADDIU => 9 | SLTI => 10 | SLTIU => 11 end.
Definition logic_opcode (op : logic_op) : Z := match op with ANDI => 12 | ORI => 13 | XORI => 14 end.
Definition muldiv_func (op : muldiv_op) : Z := match op with MULT => 24 | MULTU => 25 | DIV => 26 | DIVU => 27 end.
Definition trap_func (c : trap_cond) : Z :=
  match c with TGE => 48 | TGEU => 49 | TLT => 50 | TLTU => 51 | TEQ => 52 | TNE => 54 end.
Definition trap_rt (c : trap_cond) : Z :=
  match c with TGE => 8 | TGEU => 9 | TLT => 10 | TLTU => 11 | TEQ => 12 | TNE => 14 end.
Definition likely_bit (likely : bool) (v : Z) : Z := if likely then v else 0.

Definition encode (i : mips) : Z :=
  match i with
  | Alu op rd rs rt => mk_r 0 (alu_func op) rs rt rd 0
  | AddOv rd rs rt => mk_r 0 32 rs rt rd 0
  | AddImmOv rt rs imm => mk_i 8 rs rt imm
  | Shift op rd rt sa => mk_r 0 (shift_func op) 0 rt rd sa
  | AluImm op rt rs imm => mk_i (imm_opcode op) rs rt imm
  | Logic op rt rs imm => mk_i (logic_opcode op) rs rt imm
  | Lui rt imm => mk_i 15 0 rt imm
  | MulDiv op rs rt => mk_r 0 (muldiv_func op) rs rt 0 0
  | MfHi rd => mk_r 0 16 0 0 rd 0
  | MtHi rs => mk_r 0 17 rs 0 0 0
  | MfLo rd => mk_r 0 18 0 0 rd 0
  | MtLo rs => mk_r 0 19 rs 0 0 0
  | Branch ne likely rs rt off => mk_i ((if ne then 5 else 4) + likely_bit likely 16) rs rt off
  | BranchZ LEZ likely rs off => mk_i (6 + likely_bit likely 16) rs 0 off
  | BranchZ GTZ likely rs off => mk_i (7 + likely_bit likely 16) rs 0 off
  | BranchZ LTZ likely rs off => mk_i 1 rs (likely_bit likely 2) off
  | BranchZ GEZ likely rs off => mk_i 1 rs (1 + likely_bit likely 2) off
  | BranchLink ge likely rs off => mk_i 1 rs ((if ge then 17 else 16) + likely_bit likely 2) off
  | J t => mk_j 2 t
  | Jal t => mk_j 3 t
  | Jr rs => mk_r 0 8 rs 0 0 0
  | Jalr rs => mk_r 0 9 rs 0 31 0
  | Syscall => mk_r 0 12 0 0 0 0
  | Break => mk_r 0 13 0 0 0 0
  | Trap c rs rt => mk_r 0 (trap_func c) rs rt 0 0
  | TrapImm c rs imm => mk_i 1 rs (trap_rt c) imm
  | MfEpc rt => mk_r 16 0 0 rt 14 0
  | MtEpc rt => mk_r 16 0 4 rt 14 0
  | Eret => mk_r 16 24 16 0 0 0
  end.

(** ** Effects *)
Definition M32 : Z := 2 ^ 32.

Definition alu (op : alu_op) (a b : Z) : Z :=
  match op with
  | ADDU => (a + b) mod M32
  | SUBU => (a - b) mod M32
  | AND => Z.land a b
  | OR => Z.lor a b
  | XOR => Z.lxor a b
  | NOR => M32 - 1 - Z.lor a b
  | SLT => bool_to_Z (sgn 32 a <? sgn 32 b)
  | SLTU => bool_to_Z (a <? b)
  | SLLV => (b * 2 ^ (a mod 32)) mod M32
  | SRLV => b / 2 ^ (a mod 32)
  | SRAV => (sgn 32 b / 2 ^ (a mod 32)) mod M32
  end.
Definition shift (op : shift_op) (sa b : Z) : Z := alu (match op with SLL => SLLV | SRL => SRLV | SRA => SRAV end) sa b.
Definition imm_alu (op : imm_op) : Z → Z → Z := alu (match op with ADDIU => ADDU | SLTI => SLT | SLTIU => SLTU end).
Definition logic (op : logic_op) : Z → Z → Z := alu (match op with ANDI => AND | ORI => OR | XORI => XOR end).

(** LO and HI.  The quotient of the smallest number and -1 has no value; a
    division by zero clears both. *)
Definition muldiv (op : muldiv_op) (a b : Z) : option (Z * Z) :=
  let wide p := Some (p mod M32, (p / M32) mod M32) in
  match op with
  | MULT => wide (sgn 32 a * sgn 32 b)
  | MULTU => wide (a * b)
  | DIV =>
      if b =? 0 then Some (0, 0)
      else if (sgn 32 a =? - 2 ^ 31) && (sgn 32 b =? -1) then None
      else Some (Z.quot (sgn 32 a) (sgn 32 b) mod M32, Z.rem (sgn 32 a) (sgn 32 b) mod M32)
  | DIVU => Some (if b =? 0 then (0, 0) else (a / b, a mod b))
  end.

Definition zero_holds (c : zero_cond) (a : Z) : bool :=
  match c with
  | LEZ => sgn 32 a <=? 0 | GTZ => 0 <? sgn 32 a | LTZ => sgn 32 a <? 0 | GEZ => 0 <=? sgn 32 a
  end.
Definition trap_holds (c : trap_cond) (a b : Z) : bool :=
  match c with
  | TGE => sgn 32 b <=? sgn 32 a | TGEU => b <=? a | TLT => sgn 32 a <? sgn 32 b | TLTU => a <? b
  | TEQ => a =? b | TNE => negb (a =? b)
  end.

(** Where the instruction leads: to the next one, past the delay slot, to a target
    after the delay slot, or back from an exception. *)
Inductive flow := Next | Skip | Goto (target : Z) | Return.

Record eff := mk_eff {
  e_wr : option (Z * Z);
  e_lo : option Z;
  e_hi : option Z;
  e_epc : option Z;
  e_flow : flow
}.

(** What an instruction may look at. *)
Record view := mk_view { v_regs : Z → Z; v_lo : Z; v_hi : Z; v_epc : Z; v_pc : Z }.

Definition write (r v : Z) : option (r4k_exc + eff) := Some (inr (mk_eff (Some (r, v)) None None None Next)).
Definition lohi (l h : option Z) : option (r4k_exc + eff) := Some (inr (mk_eff None l h None Next)).
Definition go (link : option (Z * Z)) (f : flow) : option (r4k_exc + eff) := Some (inr (mk_eff link None None None f)).
Definition trap_when (b : bool) (e : r4k_exc) : option (r4k_exc + eff) :=
  Some (if b then inl e else inr (mk_eff None None None None Next)).

(** [None] stands for what C does not define. *)
Definition effect (i : mips) (s : view) : option (r4k_exc + eff) :=
  let rf := v_regs s in
  let pc := v_pc s in
  let link := Some (31, (pc + 8) mod M32) in
  let add r a b := let sum := sgn 32 a + sgn 32 b in
    if (sum <? - 2 ^ 31) || (2 ^ 31 <=? sum) then Some (inl r4k_excOv) else write r (sum mod M32) in
  let branch link (b likely : bool) off :=
    go link (if b then Goto ((pc + 4 + 4 * off) mod M32) else if likely then Skip else Next) in
  let region t := (pc + 4) mod M32 / 2 ^ 28 * 2 ^ 28 + 4 * t in
  match i with
  | Alu op rd rs rt => write rd (alu op (rf rs) (rf rt))
  | AddOv rd rs rt => add rd (rf rs) (rf rt)
  | AddImmOv rt rs imm => add rt (rf rs) imm
  | Shift op rd rt sa => write rd (shift op sa (rf rt))
  | AluImm op rt rs imm => write rt (imm_alu op (rf rs) (imm mod M32))
  | Logic op rt rs imm => write rt (logic op (rf rs) imm)
  | Lui rt imm => write rt (imm * 2 ^ 16)
  | MulDiv op rs rt => match muldiv op (rf rs) (rf rt) with Some (l, h) => lohi (Some l) (Some h) | None => None end
  | MfHi rd => write rd (v_hi s)
  | MfLo rd => write rd (v_lo s)
  | MtHi rs => lohi None (Some (rf rs))
  | MtLo rs => lohi (Some (rf rs)) None
  | Branch ne likely rs rt off => branch None (xorb ne (rf rs =? rf rt)) likely off
  | BranchZ c likely rs off => branch None (zero_holds c (rf rs)) likely off
  | BranchLink ge likely rs off => branch link (zero_holds (if ge then GEZ else LTZ) (rf rs)) likely off
  | J t => go None (Goto (region t))
  | Jal t => go link (Goto (region t))
  | Jr rs => go None (Goto (rf rs))
  | Jalr rs => go link (Goto (rf rs))
  | Syscall => Some (inl r4k_excSys)
  | Break => Some (inl r4k_excBp)
  | Trap c rs rt => trap_when (trap_holds c (rf rs) (rf rt)) r4k_excTr
  | TrapImm c rs imm => trap_when (trap_holds c (rf rs) (imm mod M32)) r4k_excTr
  | MfEpc rt => write rt (v_epc s)
  | MtEpc rt => Some (inr (mk_eff None None None (Some (rf rt)) Next))
  | Eret => go None Return
  end.

(** ** Fields of an encoding *)
Lemma ubits_here a b n : 0 ≤ n → in_width n a → ubits (a + 2 ^ n * b) 0 n = a.
Proof.
  intros Hn Ha. unfold ubits. rewrite Z.shiftr_0_r, Z.land_ones, (Z.mul_comm (2 ^ n)), Z.mod_add by lia.
  by apply Z.mod_small.
Qed.

Lemma ubits_skip a b n k m : 0 ≤ n ≤ k → 0 ≤ m → in_width n a → ubits (a + 2 ^ n * b) k m = ubits b (k - n) m.
Proof.
  intros Hn Hm Ha. unfold ubits. f_equal. replace k with (n + (k - n)) at 1 by lia.
  rewrite <- Z.shiftr_shiftr by lia. f_equal. unfold in_width in Ha.
  rewrite Z.shiftr_div_pow2, (Z.mul_comm (2 ^ n)), Z.div_add, Z.div_small by lia. lia.
Qed.

Lemma ubits_all a n : in_width n a → 0 ≤ n → ubits a 0 n = a.
Proof. intros Ha Hn. rewrite <- (ubits_here a 0 n) at 2 by done. by rewrite Z.mul_0_r, Z.add_0_r. Qed.

(** Skips and takes fields of constant width. *)
Ltac field_step :=
  match goal with
  | |- context [ubits (?a + 2 ^ ?n * ?b) 0 ?m] => rewrite (ubits_here a b n) by (done || lia)
  | |- context [ubits (?a + 2 ^ ?n * ?b) ?k ?m] =>
      rewrite (ubits_skip a b n k m) by (done || lia);
      let k' := eval vm_compute in (k - n) in change (k - n) with k'
  end.

Section RFields.
Context (op func rs rt rd sa : Z) (Hop : in_width 6 op) (Hf : in_width 6 func) (Hrs : in_width 5 rs)
  (Hrt : in_width 5 rt) (Hrd : in_width 5 rd) (Hsa : in_width 5 sa).
Abbreviation word := (mk_r op func rs rt rd sa).

Lemma r_opcode : f_opcode word = op.
Proof. unfold f_opcode, mk_r. repeat field_step. by apply ubits_all. Qed.
Lemma r_func : f_func word = func.
Proof. unfold f_func, mk_r. repeat field_step. done. Qed.
Lemma r_rs : f_rs word = rs.
Proof. unfold f_rs, mk_r. repeat field_step. done. Qed.
Lemma r_rt : f_rt word = rt.
Proof. unfold f_rt, mk_r. repeat field_step. done. Qed.
Lemma r_rd : f_rd word = rd.
Proof. unfold f_rd, mk_r. repeat field_step. done. Qed.
Lemma r_sa : f_sa word = sa.
Proof. unfold f_sa, mk_r. repeat field_step. done. Qed.
End RFields.

Section IFields.
Context (op rs rt imm : Z) (Hop : in_width 6 op) (Hrs : in_width 5 rs) (Hrt : in_width 5 rt).
Abbreviation word := (mk_i op rs rt imm).

Lemma imm_mod_width : in_width 16 (imm mod 2 ^ 16).
Proof. by apply (wrap_range 16). Qed.
Local Hint Resolve imm_mod_width : core.

Lemma i_opcode : f_opcode word = op.
Proof. unfold f_opcode, mk_i. repeat field_step. by apply ubits_all. Qed.
Lemma i_rs : f_rs word = rs.
Proof. unfold f_rs, mk_i. repeat field_step. done. Qed.
Lemma i_rt : f_rt word = rt.
Proof. unfold f_rt, mk_i. repeat field_step. done. Qed.
Lemma i_imm : f_imm word = imm mod 2 ^ 16.
Proof. unfold f_imm, mk_i. repeat field_step. done. Qed.
End IFields.

Lemma j_opcode op t : in_width 6 op → in_width 26 t → f_opcode (mk_j op t) = op.
Proof. intros. unfold f_opcode, mk_j. repeat field_step. by apply ubits_all. Qed.
Lemma j_target op t : in_width 26 t → f_target (mk_j op t) = t.
Proof. intros. unfold f_target, mk_j. repeat field_step. done. Qed.

(** ** Decoding *)
Definition fnc_of (i : mips) : Fnc.instr_fnc :=
  match i with
  | Alu ADDU _ _ _ => Fnc.instr_addu | Alu SUBU _ _ _ => Fnc.instr_subu | Alu AND _ _ _ => Fnc.instr_and
  | Alu OR _ _ _ => Fnc.instr_or | Alu XOR _ _ _ => Fnc.instr_xor | Alu NOR _ _ _ => Fnc.instr_nor
  | Alu SLT _ _ _ => Fnc.instr_slt | Alu SLTU _ _ _ => Fnc.instr_sltu | Alu SLLV _ _ _ => Fnc.instr_sllv
  | Alu SRLV _ _ _ => Fnc.instr_srlv | Alu SRAV _ _ _ => Fnc.instr_srav
  | AddOv _ _ _ => Fnc.instr_add | AddImmOv _ _ _ => Fnc.instr_addi
  | Shift SLL _ _ _ => Fnc.instr_sll | Shift SRL _ _ _ => Fnc.instr_srl | Shift SRA _ _ _ => Fnc.instr_sra
  | AluImm ADDIU _ _ _ => Fnc.instr_addiu | AluImm SLTI _ _ _ => Fnc.instr_slti
  | AluImm SLTIU _ _ _ => Fnc.instr_sltiu
  | Logic ANDI _ _ _ => Fnc.instr_andi | Logic ORI _ _ _ => Fnc.instr_ori | Logic XORI _ _ _ => Fnc.instr_xori
  | Lui _ _ => Fnc.instr_lui
  | MulDiv MULT _ _ => Fnc.instr_mult | MulDiv MULTU _ _ => Fnc.instr_multu
  | MulDiv DIV _ _ => Fnc.instr_div | MulDiv DIVU _ _ => Fnc.instr_divu
  | MfHi _ => Fnc.instr_mfhi | MfLo _ => Fnc.instr_mflo | MtHi _ => Fnc.instr_mthi | MtLo _ => Fnc.instr_mtlo
  | Branch false false _ _ _ => Fnc.instr_beq | Branch true false _ _ _ => Fnc.instr_bne
  | Branch false true _ _ _ => Fnc.instr_beql | Branch true true _ _ _ => Fnc.instr_bnel
  | BranchZ LEZ false _ _ => Fnc.instr_blez | BranchZ LEZ true _ _ => Fnc.instr_blezl
  | BranchZ GTZ false _ _ => Fnc.instr_bgtz | BranchZ GTZ true _ _ => Fnc.instr_bgtzl
  | BranchZ LTZ false _ _ => Fnc.instr_bltz | BranchZ LTZ true _ _ => Fnc.instr_bltzl
  | BranchZ GEZ false _ _ => Fnc.instr_bgez | BranchZ GEZ true _ _ => Fnc.instr_bgezl
  | BranchLink false false _ _ => Fnc.instr_bltzal | BranchLink false true _ _ => Fnc.instr_bltzall
  | BranchLink true false _ _ => Fnc.instr_bgezal | BranchLink true true _ _ => Fnc.instr_bgezall
  | J _ => Fnc.instr_j | Jal _ => Fnc.instr_jal | Jr _ => Fnc.instr_jr | Jalr _ => Fnc.instr_jalr
  | Syscall => Fnc.instr_syscall | Break => Fnc.instr_break
  | Trap TGE _ _ => Fnc.instr_tge | Trap TGEU _ _ => Fnc.instr_tgeu | Trap TLT _ _ => Fnc.instr_tlt
  | Trap TLTU _ _ => Fnc.instr_tltu | Trap TEQ _ _ => Fnc.instr_teq | Trap TNE _ _ => Fnc.instr_tne
  | TrapImm TGE _ _ => Fnc.instr_tgei | TrapImm TGEU _ _ => Fnc.instr_tgeiu
  | TrapImm TLT _ _ => Fnc.instr_tlti | TrapImm TLTU _ _ => Fnc.instr_tltiu
  | TrapImm TEQ _ _ => Fnc.instr_teqi | TrapImm TNE _ _ => Fnc.instr_tnei
  | MfEpc _ => Fnc.instr_mfc0 | MtEpc _ => Fnc.instr_mtc0 | Eret => Fnc.instr_eret
  end.

Lemma is_reg_width r : is_reg r = true → in_width 5 r.
Proof. unfold is_reg. rewrite andb_true_iff, Z.leb_le, Z.ltb_lt. done. Qed.
Lemma unsigned_width n x : unsigned n x = true → in_width n x.
Proof. unfold unsigned. rewrite andb_true_iff, Z.leb_le, Z.ltb_lt. done. Qed.

(** Splits [mips_wf] of an instruction into the ranges of its operands. *)
Ltac wf_ranges H :=
  cbn [mips_wf] in H; rewrite ?andb_true_iff in H; destruct_and?;
  repeat match goal with
  | H : is_reg _ = true |- _ => apply is_reg_width in H
  | H : unsigned _ _ = true |- _ => apply unsigned_width in H
  end.

(** A number of an encoding fits its field. *)
Ltac narrow := solve [assumption | unfold in_width; cbn; lia].

Lemma decode_r op func rs rt rd sa : in_width 6 op → in_width 6 func → in_width 5 rs → in_width 5 rt →
  in_width 5 rd → in_width 5 sa → op = 0 → decode (mk_r op func rs rt rd sa) = table_at func_map func.
Proof. intros. subst op. unfold decode. by rewrite r_opcode, r_func. Qed.

Lemma decode_regimm rs rt imm : in_width 5 rs → in_width 5 rt →
  decode (mk_i 1 rs rt imm) = table_at rt_map rt.
Proof. intros. unfold decode. by rewrite i_opcode, i_rt. Qed.

Lemma decode_i op rs rt imm : in_width 6 op → in_width 5 rs → in_width 5 rt →
  2 ≤ op < 16 ∨ 19 ≤ op < 64 → decode (mk_i op rs rt imm) = table_at opcode_map op.
Proof.
  intros Ho Hrs Hrt Hr. unfold decode. rewrite i_opcode by done.
  unfold r4k_opcSPECIAL, r4k_opcREGIMM, r4k_opcCOP0, r4k_opcCOP1, r4k_opcCOP2.
  repeat match goal with |- context [op =? ?k] => destruct (Z.eqb_spec op k); [lia|] end.
  done.
Qed.

Lemma decode_encode i : mips_wf i = true → decode (encode i) = fnc_of i.
Proof.
  intros Hwf. destruct i; wf_ranges Hwf;
    repeat match goal with
    | op : alu_op |- _ => destruct op | op : shift_op |- _ => destruct op | op : imm_op |- _ => destruct op
    | op : logic_op |- _ => destruct op | op : muldiv_op |- _ => destruct op | c : zero_cond |- _ => destruct c
    | c : trap_cond |- _ => destruct c | b : bool |- _ => destruct b
    end; cbn [encode fnc_of];
    try (rewrite decode_r by narrow; reflexivity);
    try (rewrite decode_regimm by narrow; reflexivity);
    try (rewrite decode_i by (narrow || (cbn; lia)); reflexivity);
    try (unfold decode; rewrite j_opcode by narrow; reflexivity);
    try (unfold decode; rewrite r_opcode, r_rs by narrow; reflexivity).
Qed.

(** ** The low half of a register *)
Lemma lo_mod x : lo x = x mod M32.
Proof. done. Qed.

Lemma lo_u64 x : lo (u64 x) = lo x.
Proof.
  unfold lo, u64. rewrite !wrap_land by lia. rewrite <- Z.land_assoc. f_equal.
Qed.

Lemma lo_lo x : lo (lo x) = lo x.
Proof. by apply wrap_idemp. Qed.

Lemma lo_small x : in_width 32 x → lo x = x.
Proof. apply wrap_small. Qed.

Lemma lo_bits_land x y : lo (Z.land x y) = Z.land (lo x) (lo y).
Proof.
  unfold lo. rewrite !wrap_land by lia. apply Z.bits_inj'. intros n Hn. rewrite !Z.land_spec.
  by destruct (Z.testbit (Z.ones 32) n); rewrite ?andb_false_r, ?andb_true_r.
Qed.

Lemma lo_bits_lor x y : lo (Z.lor x y) = Z.lor (lo x) (lo y).
Proof. unfold lo. rewrite !wrap_land by lia. apply Z.land_lor_distr_l. Qed.

Lemma lo_bits_lxor x y : lo (Z.lxor x y) = Z.lxor (lo x) (lo y).
Proof.
  unfold lo. rewrite !wrap_land by lia. apply Z.bits_inj'. intros n Hn. rewrite !Z.lxor_spec, !Z.land_spec, Z.lxor_spec.
  by destruct (Z.testbit (Z.ones 32) n); rewrite ?andb_false_r, ?andb_true_r.
Qed.

Lemma lo_not x : lo (c_not 64 x) = M32 - 1 - lo x.
Proof.
  replace (M32 - 1 - lo x) with (Z.ones 32 - lo x) by (unfold M32; rewrite Z.ones_equiv; lia).
  pose proof (lo_width x) as Hw.
  assert (lo (c_not 64 x) = Z.ldiff (Z.ones 32) (lo x)) as ->.
  { unfold lo. apply Z.bits_inj'. intros n Hn.
    rewrite Z.ldiff_spec, !testbit_wrap, testbit_c_not, testbit_ones by lia.
    destruct (Z.ltb_spec n 32), (Z.ltb_spec n 64); try lia; cbn; by rewrite ?andb_false_r. }
  symmetry. apply Z.sub_nocarry_ldiff. apply Z.bits_inj'. intros n Hn.
  rewrite Z.ldiff_spec, testbit_ones, Z.bits_0 by lia. destruct (Z.ltb_spec n 32); [by rewrite andb_false_r|].
  by rewrite (testbit_high 32 (lo x)) by done.
Qed.

Lemma lo_sext x : lo (sign_extend_32_64 x) = lo x.
Proof.
  unfold sign_extend_32_64. destruct (truthy _).
  - rewrite lo_bits_lor. change (lo 0xffffffff00000000) with 0. apply Z.lor_0_r.
  - rewrite lo_bits_land. change (lo 0xffffffff) with (Z.ones 32).
    unfold lo at 1. rewrite <- wrap_land by lia. by apply wrap_idemp.
Qed.

Lemma sgn_lo x : sgn 32 (lo x) = sgn 32 x.
Proof. by apply sgn_wrap. Qed.

(** Extending a 16-bit immediate. *)
Lemma sext_imm w hi imm : 16 ≤ w → hi = 2 ^ w - 2 ^ 16 → signed16 imm = true →
  (if truthy (Z.land (imm mod 2 ^ 16) SBIT16) then Z.lor (imm mod 2 ^ 16) hi
   else Z.land (imm mod 2 ^ 16) (2 ^ 16 - 1)) = imm mod 2 ^ w.
Proof.
  intros Hw -> Hs. unfold signed16 in Hs. rewrite andb_true_iff, Z.leb_le, Z.ltb_lt in Hs.
  set (x := imm mod 2 ^ 16). pose proof (Z.mod_pos_bound imm (2 ^ 16) ltac:(lia)) as Hx. fold x in Hx.
  pose proof (Z.pow_le_mono_r 2 16 w ltac:(lia) Hw). change SBIT16 with (Z.shiftl 1 15).
  rewrite truthy_mask by lia.
  assert (Z.testbit x 15 = (2 ^ 15 <=? x)) as ->.
  { destruct (Z.leb_spec (2 ^ 15) x).
    - apply Z.testbit_true; [lia|]. Z.to_euclidean_division_equations. lia.
    - apply Z.testbit_false; [lia|]. rewrite Z.div_small by lia. done. }
  assert (2 ^ w = 2 ^ (w - 16) * 2 ^ 16) as Ew by (rewrite <- Z.pow_add_r by lia; f_equal; lia).
  destruct (Z.leb_spec (2 ^ 15) x).
  - rewrite Z.lor_comm. replace (2 ^ w - 2 ^ 16) with (Z.shiftl (2 ^ (w - 16) - 1) 16)
      by (rewrite Z.shiftl_mul_pow2 by lia; lia).
    rewrite lor_disjoint by (done || lia). apply (Z.mod_unique _ _ (-1)); [lia|].
    unfold x in *. Z.to_euclidean_division_equations. lia.
  - change (2 ^ 16 - 1) with (Z.ones 16). rewrite Z.land_ones, Z.mod_small by lia.
    assert (x = imm) as -> by (unfold x in *; Z.to_euclidean_division_equations; lia).
    symmetry. apply Z.mod_small. lia.
Qed.

Lemma sext_imm32 imm : signed16 imm = true → sign_extend_16_32 (imm mod 2 ^ 16) = imm mod M32.
Proof. by apply (sext_imm 32 0xffff0000). Qed.
Lemma sext_imm64 imm : signed16 imm = true → sign_extend_16_64 (imm mod 2 ^ 16) = imm mod 2 ^ 64.
Proof. by apply (sext_imm 64 0xffffffffffff0000). Qed.

(** ** What the functions do *)
Definition view_of (c : C) : view :=
  mk_view (λ r, lo (reg r c)) (lo (loreg c)) (lo (hireg c)) (lo (cp0r cp0_EPC c)) (lo (pc c)).

Definition upd (wr : option (Z * Z)) (rf : Z → Z) (r : Z) : Z :=
  match wr with Some (rd, v) => if r =? rd then v else rf r | None => rf r end.

(** The processor [c'] is [c] after the effect; the step has still to move on. *)
Record implements (e : eff) (c c' : C) : Prop := {
  im_regs r : lo (reg r c') = upd (e_wr e) (λ r, lo (reg r c)) r;
  im_lo : lo (loreg c') = default (lo (loreg c)) (e_lo e);
  im_hi : lo (hireg c') = default (lo (hireg c)) (e_hi e);
  im_epc : lo (cp0r cp0_EPC c') = default (lo (cp0r cp0_EPC c)) (e_epc e);
  im_cause : cp0r cp0_Cause c' = cp0r cp0_Cause c;
  im_status : cp0r cp0_Status c' =
    match e_flow e with Return => Z.land (cp0r cp0_Status c) (c_not 32 cp0_status_exl_mask) | _ => cp0r cp0_Status c end;
  im_pc : pc c' = pc c;
  im_excaddr : excaddr c' = excaddr c;
  im_stdby : stdby c' = stdby c;
  im_branch : branch c' = match e_flow e with Goto _ => BRANCH_COND | _ => branch c end;
  im_next : match e_flow e with
    | Next => pc_next c' = pc_next c
    | Skip => pc_next c' = u64 (pc_next c + 4)
    | Goto t => lo (pc_next c') = t
    | Return => pc_next c' = cp0r cp0_EPC c
    end
}.

Definition exit (e : eff) : r4k_exc := match e_flow e with Goto _ => r4k_excJump | _ => r4k_excNone end.
Definition does (m : st C r4k_exc) (e : eff) (c : C) : Prop := ∃ c', m c = Done (exit e, c') ∧ implements e c c'.

Lemma upd_set_reg r v c r' : lo (reg r' (set_reg r v c)) = upd (Some (r, lo v)) (λ r, lo (reg r c)) r'.
Proof.
  rewrite r4k_reg_set_reg. cbn. destruct (Z.eqb_spec r' r) as [->|]; [by rewrite decide_True|by rewrite decide_False].
Qed.

Lemma does_write_rd i v rd x c : f_rd i = rd → lo (v c) = x →
  does (write_rd i v) (mk_eff (Some (rd, x)) None None None Next) c.
Proof. intros <- <-. eexists. split; [done|]. split; try done. intros r. apply upd_set_reg. Qed.

Lemma does_write_rt i v rt x c : f_rt i = rt → lo (v c) = x →
  does (write_rt i v) (mk_eff (Some (rt, x)) None None None Next) c.
Proof. intros <- <-. eexists. split; [done|]. split; try done. intros r. apply upd_set_reg. Qed.

Lemma does_lohi l h l' h' c : lo l = l' → lo h = h' →
  does (set_lohi l h) (mk_eff None (Some l') (Some h') None Next) c.
Proof. intros <- <-. eexists. split; [done|]. by split. Qed.

Lemma does_nothing c : does (mret r4k_excNone) (mk_eff None None None None Next) c.
Proof. eexists. split; [done|]. by split. Qed.

(** ** Arithmetic *)
Lemma amount_mod x : Z.land x 0x1f = x mod 32.
Proof. by apply (Z.land_ones x 5). Qed.

Lemma lo_bool b : lo (bool_to_Z b) = bool_to_Z b.
Proof. by destruct b. Qed.

Lemma shiftr_lo x k : 0 ≤ k → lo (Z.shiftr (lo x) k) = lo x / 2 ^ k.
Proof.
  intros Hk. rewrite Z.shiftr_div_pow2 by done. apply lo_small, r4k_div_width; [apply lo_width|].
  pose proof (pow2_pos k Hk). lia.
Qed.

Lemma shiftl_lo x k : 0 ≤ k → lo (lo (Z.shiftl (lo x) k)) = (lo x * 2 ^ k) mod M32.
Proof. intros Hk. by rewrite lo_lo, Z.shiftl_mul_pow2. Qed.

Lemma sra_lo x k : 0 ≤ k → lo (lo (Z.shiftr (sgn 32 x) k)) = (sgn 32 (lo x) / 2 ^ k) mod M32.
Proof. intros Hk. by rewrite lo_lo, Z.shiftr_div_pow2, sgn_lo. Qed.

Lemma sign_bit x : in_width 32 x → truthy (Z.land x SBIT32) = (2 ^ 31 <=? x).
Proof.
  intros Hx. unfold in_width in Hx. change SBIT32 with (Z.shiftl 1 31). rewrite truthy_mask by lia.
  destruct (Z.leb_spec (2 ^ 31) x).
  - apply Z.testbit_true; [lia|]. Z.to_euclidean_division_equations. lia.
  - apply Z.testbit_false; [lia|]. rewrite Z.div_small by lia. done.
Qed.

Lemma sgn32 x : in_width 32 x → sgn 32 x = if 2 ^ 31 <=? x then x - 2 ^ 32 else x.
Proof.
  intros Hx. unfold sgn. cbv zeta. rewrite wrap_small by done. change (32 - 1) with 31.
  destruct (Z.ltb_spec x (2 ^ 31)), (Z.leb_spec (2 ^ 31) x); lia.
Qed.

Lemma sign_xor x y : in_width 32 x → in_width 32 y →
  truthy (Z.land (Z.lxor x y) SBIT32) = xorb (2 ^ 31 <=? x) (2 ^ 31 <=? y).
Proof.
  intros Hx Hy. rewrite <- !sign_bit by done. change SBIT32 with (Z.shiftl 1 31).
  by rewrite !truthy_mask, Z.lxor_spec by lia.
Qed.

(** The test for overflow of an addition is right. *)
Lemma add_overflows x y : in_width 32 x → in_width 32 y →
  overflows SBIT32 x y (lo (x + y)) =
  ((sgn 32 x + sgn 32 y <? - 2 ^ 31) || (2 ^ 31 <=? sgn 32 x + sgn 32 y)).
Proof.
  intros Hx Hy. unfold overflows. rewrite !sign_xor by (done || apply lo_width). rewrite !sgn32 by done.
  unfold in_width in *. assert (lo (x + y) = if x + y <? 2 ^ 32 then x + y else x + y - 2 ^ 32) as ->.
  { unfold lo, wrap. destruct (Z.ltb_spec (x + y) (2 ^ 32)); [apply Z.mod_small; lia|].
    symmetry. apply (Z.mod_unique _ _ 1); lia. }
  destruct (Z.leb_spec (2 ^ 31) x), (Z.leb_spec (2 ^ 31) y), (Z.ltb_spec (x + y) (2 ^ 32));
    repeat match goal with |- context [?a <=? ?b] => destruct (Z.leb_spec a b)
      | |- context [?a <? ?b] => destruct (Z.ltb_spec a b) end; cbn; lia || done.
Qed.

Lemma sgn_mod x : - 2 ^ 31 ≤ x < 2 ^ 31 → sgn 32 (x mod M32) = x.
Proof.
  intros Hx. change (x mod M32) with (lo x). rewrite sgn32 by apply lo_width. unfold lo, wrap.
  destruct (Z.leb_spec (2 ^ 31) (x mod 2 ^ 32)); Z.to_euclidean_division_equations; lia.
Qed.

Lemma sgn_sum x y : (sgn 32 x + sgn 32 y) mod M32 = (x + y) mod M32.
Proof.
  destruct (sgn_congr 32 x ltac:(lia)) as [k ->], (sgn_congr 32 y ltac:(lia)) as [l ->].
  apply (wrap_eq_add 32 _ _ (k + l)); lia.
Qed.

Lemma sgn64_sext x : in_width 32 x → sgn 64 (sign_extend_32_64 x) = sgn 32 x.
Proof.
  intros Hx. rewrite sgn32 by done. unfold sign_extend_32_64. rewrite sign_bit by done. unfold in_width in Hx.
  assert (sgn 64 (if 2 ^ 31 <=? x then x + (2 ^ 64 - 2 ^ 32) else x) = if 2 ^ 31 <=? x then x - 2 ^ 32 else x) as E.
  { unfold sgn, wrap. cbv zeta. change (64 - 1) with 63. destruct (Z.leb_spec (2 ^ 31) x); rewrite Z.mod_small by lia.
    - destruct (Z.ltb_spec (x + (2 ^ 64 - 2 ^ 32)) (2 ^ 63)); lia.
    - destruct (Z.ltb_spec x (2 ^ 63)); lia. }
  rewrite <- E. f_equal. destruct (2 ^ 31 <=? x).
  - rewrite Z.lor_comm. change 0xffffffff00000000 with (Z.shiftl (2 ^ 32 - 1) 32). rewrite lor_disjoint by (done || lia). lia.
  - change 0xffffffff with (Z.ones 32). rewrite Z.land_ones by lia. by apply Z.mod_small.
Qed.

Lemma wide_lo p : lo (lo (u64 p)) = p mod M32.
Proof. by rewrite lo_lo, lo_u64. Qed.
Lemma wide_hi p : lo (lo (Z.shiftr (u64 p) 32)) = (p / M32) mod M32.
Proof.
  rewrite lo_lo, Z.shiftr_div_pow2 by lia. unfold u64, wrap. rewrite mod_div_pow by lia.
  unfold lo, wrap, M32. by rewrite Z.mod_mod.
Qed.

(** ** Instructions *)
Section Meaning.
Context {D : Type} `{BoardOf r4k_cpu Fnc.instr_fnc D}.
Abbreviation W := (world r4k_cpu Fnc.instr_fnc D).

(** The selected function has the effect [o], or raises the exception [o]. *)
Definition performs (i : mips) (o : r4k_exc + eff) (w : W) : Prop :=
  match o with
  | inr e => ∃ c', instr_exec (fnc_of i) (encode i) w = Done (exit e, w <| w_cpu := c' |>) ∧ implements e (w_cpu w) c'
  | inl x => instr_exec (fnc_of i) (encode i) w = Done (x, w)
  end.

Lemma performs_does i e (w : W) m :
  instr_exec (fnc_of i) (encode i) = on_cpu m → does m e (w_cpu w) → performs i (inr e) w.
Proof. intros E (c' & Hrun & Him). exists c'. split; [|done]. rewrite E. by apply on_cpu_run. Qed.

Lemma performs_raises i x (w : W) m :
  instr_exec (fnc_of i) (encode i) = on_cpu m → m (w_cpu w) = Done (x, w_cpu w) → performs i (inl x) w.
Proof. intros E Hm. cbn. rewrite E, (on_cpu_run _ _ _ _ Hm). by destruct w. Qed.

Context (w : W) (H64 : CPU_64BIT_MODE (w_cpu w) = false).
Abbreviation c := (w_cpu w).

(** Reads the operands out of the encoding. *)
Ltac operands :=
  unfold rs_val, rt_val; cbn [encode];
  rewrite ?r_rs, ?r_rt, ?r_rd, ?r_sa, ?i_rs, ?i_rt, ?i_imm by narrow.
Ltac select_fnc := eapply performs_does; [reflexivity|]; cbv delta
  [R4kComp.instr_addu R4kComp.instr_subu R4kComp.instr_and R4kComp.instr_or R4kComp.instr_xor R4kComp.instr_nor
   R4kComp.instr_slt R4kComp.instr_sltu R4kComp.instr_sllv R4kComp.instr_srlv R4kComp.instr_srav
   R4kComp.instr_sll R4kComp.instr_srl R4kComp.instr_sra R4kComp.instr_addiu R4kComp.instr_slti
   R4kComp.instr_sltiu R4kComp.instr_andi R4kComp.instr_ori R4kComp.instr_xori R4kComp.instr_lui
   R4kComp.instr_mfhi R4kComp.instr_mflo]; cbv beta.

Lemma performs_alu op rd rs rt : is_reg rd && is_reg rs && is_reg rt = true →
  performs (Alu op rd rs rt) (inr (mk_eff (Some (rd, alu op (lo (reg rs c)) (lo (reg rt c)))) None None None Next)) w.
Proof.
  intros Hwf. wf_ranges Hwf. destruct op; select_fnc;
    (apply does_write_rd; [by cbn [encode]; rewrite r_rd by narrow|]); operands; cbn [alu alu_func];
    rewrite ?H64, ?lo_sext, ?lo_lo, ?lo_bool, ?sgn_lo, ?lo_bits_land, ?lo_bits_lor, ?lo_bits_lxor, ?lo_not, ?amount_mod;
    try done.
  - by rewrite lo_bits_lor.
  - pose proof (Z.mod_pos_bound (lo (reg rs c)) 32). rewrite Z.shiftl_mul_pow2 by lia. done.
  - pose proof (Z.mod_pos_bound (lo (reg rs c)) 32). rewrite shiftr_lo by lia. done.
  - pose proof (Z.mod_pos_bound (lo (reg rs c)) 32). rewrite Z.shiftr_div_pow2 by lia. done.
Qed.

Lemma performs_shift op rd rt sa : is_reg rd && is_reg rt && unsigned 5 sa = true →
  performs (Shift op rd rt sa) (inr (mk_eff (Some (rd, shift op sa (lo (reg rt c)))) None None None Next)) w.
Proof.
  intros Hwf. wf_ranges Hwf. assert (sa mod 32 = sa) as Es by (apply Z.mod_small; done).
  assert (0 ≤ sa) as H0 by (eapply width_nonneg; done). destruct op; select_fnc;
    (apply does_write_rd; [by cbn [encode]; rewrite r_rd by narrow|]); operands; unfold shift; cbn [alu shift_func];
    rewrite Es, lo_sext.
  - by rewrite shiftl_lo.
  - by rewrite shiftr_lo.
  - by rewrite sra_lo.
Qed.

Lemma performs_imm op rt rs imm : is_reg rt && is_reg rs && signed16 imm = true →
  performs (AluImm op rt rs imm)
    (inr (mk_eff (Some (rt, imm_alu op (lo (reg rs c)) (imm mod M32))) None None None Next)) w.
Proof.
  intros Hwf. wf_ranges Hwf. destruct op; select_fnc;
    (apply does_write_rt; [by cbn [encode]; rewrite i_rt by narrow|]); operands;
    unfold imm_alu; cbn [alu imm_opcode]; rewrite ?H64, ?sext_imm32, ?lo_sext, ?lo_lo, ?lo_bool, ?sgn_lo by done; done.
Qed.

Lemma performs_logic op rt rs imm : is_reg rt && is_reg rs && unsigned 16 imm = true →
  performs (Logic op rt rs imm) (inr (mk_eff (Some (rt, logic op (lo (reg rs c)) imm)) None None None Next)) w.
Proof.
  intros Hwf. wf_ranges Hwf. assert (imm mod 2 ^ 16 = imm) as Ei by (apply Z.mod_small; done).
  assert (lo imm = imm) as El by (apply lo_small, (in_width_mono 16); done || lia).
  destruct op; select_fnc; (apply does_write_rt; [by cbn [encode]; rewrite i_rt by narrow|]); operands;
    unfold logic; cbn [alu logic_opcode]; by rewrite Ei, ?lo_bits_land, ?lo_bits_lor, ?lo_bits_lxor, El.
Qed.

Lemma performs_lui rt imm : is_reg rt && unsigned 16 imm = true →
  performs (Lui rt imm) (inr (mk_eff (Some (rt, imm * 2 ^ 16)) None None None Next)) w.
Proof.
  intros Hwf. wf_ranges Hwf. select_fnc. apply does_write_rt; [by cbn [encode]; rewrite i_rt by narrow|]. operands.
  rewrite lo_sext, lo_lo, Z.mod_small, Z.shiftl_mul_pow2 by (done || lia). apply lo_small.
  unfold in_width in *. lia.
Qed.

(** An addition that traps on overflow. *)
Definition add_effect (r a b : Z) : r4k_exc + eff :=
  let sum := sgn 32 a + sgn 32 b in
  if (sum <? - 2 ^ 31) || (2 ^ 31 <=? sum) then inl r4k_excOv
  else inr (mk_eff (Some (r, sum mod M32)) None None None Next).

Lemma performs_add rd rs rt : is_reg rd && is_reg rs && is_reg rt = true →
  performs (AddOv rd rs rt) (add_effect rd (lo (reg rs c)) (lo (reg rt c))) w.
Proof.
  intros Hwf. wf_ranges Hwf. unfold add_effect. cbv zeta. rewrite <- add_overflows, sgn_sum by apply lo_width.
  destruct (overflows _ _ _ _) eqn:E;
    [eapply performs_raises|eapply performs_does]; [reflexivity| |reflexivity|];
    unfold R4kComp.instr_add; [|unfold does]; rewrite (bind_Done _ _ _ _ _ eq_refl); operands; rewrite E; [done|].
  apply does_write_rd; [by cbn [encode]; rewrite r_rd by narrow|]. by rewrite lo_sext, lo_lo.
Qed.

Lemma performs_addi rt rs imm : is_reg rt && is_reg rs && signed16 imm = true →
  performs (AddImmOv rt rs imm) (add_effect rt (lo (reg rs c)) imm) w.
Proof.
  intros Hwf. wf_ranges Hwf. unfold add_effect. cbv zeta.
  assert (- 2 ^ 31 ≤ imm < 2 ^ 31) as Hi
    by (unfold signed16 in *; rewrite andb_true_iff, Z.leb_le, Z.ltb_lt in *; lia).
  rewrite <- (sgn_lo imm). change (lo imm) with (imm mod M32).
  rewrite <- add_overflows, sgn_sum by apply lo_width.
  destruct (overflows _ _ _ _) eqn:E;
    [eapply performs_raises|eapply performs_does]; [reflexivity| |reflexivity|];
    unfold R4kComp.instr_addi; [|unfold does]; rewrite (bind_Done _ _ _ _ _ eq_refl); operands;
    rewrite sext_imm32, E by done; [done|].
  apply does_write_rt; [by cbn [encode]; rewrite i_rt by narrow|]. by rewrite lo_sext, lo_lo.
Qed.

Lemma performs_muldiv op rs rt l h : is_reg rs && is_reg rt = true →
  muldiv op (lo (reg rs c)) (lo (reg rt c)) = Some (l, h) →
  performs (MulDiv op rs rt) (inr (mk_eff None (Some l) (Some h) None Next)) w.
Proof.
  intros Hwf Hm. wf_ranges Hwf. set (a := lo (reg rs c)) in *. set (b := lo (reg rt c)) in *.
  assert (in_width 32 a ∧ in_width 32 b) as [Ha Hb] by (split; apply lo_width).
  destruct op; (eapply performs_does; [reflexivity|]);
    unfold R4kComp.instr_mult, R4kComp.instr_multu, R4kComp.instr_div, R4kComp.instr_divu, does;
    rewrite (bind_Done _ _ _ _ _ eq_refl); operands; fold a; fold b; cbn [muldiv] in Hm.
  - injection Hm as <- <-. cbv zeta. destruct ((a =? 0) || (b =? 0)) eqn:E0.
    + apply does_lohi; apply orb_true_iff in E0 as [->%Z.eqb_eq| ->%Z.eqb_eq]; by rewrite ?Z.mul_0_r.
    + rewrite !sgn64_sext by done. apply does_lohi; rewrite lo_sext; [apply wide_lo|apply wide_hi].
  - injection Hm as <- <-. cbv zeta. destruct ((a =? 0) || (b =? 0)) eqn:E0.
    + apply does_lohi; apply orb_true_iff in E0 as [->%Z.eqb_eq| ->%Z.eqb_eq]; by rewrite ?Z.mul_0_r.
    + apply does_lohi; rewrite lo_sext; [apply wide_lo|apply wide_hi].
  - destruct (b =? 0); [injection Hm as <- <-; by apply does_lohi|].
    unfold quotient_defined. change (2 ^ (32 - 1)) with (2 ^ 31).
    destruct ((sgn 32 a =? - 2 ^ 31) && (sgn 32 b =? -1)); [done|]. injection Hm as <- <-.
    apply does_lohi; by rewrite lo_sext, lo_lo.
  - destruct (Z.eqb_spec b 0); injection Hm as <- <-; [by apply does_lohi|].
    assert (0 ≤ b) by (eapply width_nonneg; done).
    apply does_lohi; rewrite lo_sext; apply lo_small; by (apply r4k_div_width || apply r4k_mod_width).
Qed.

Lemma performs_mf rd : is_reg rd = true →
  performs (MfHi rd) (inr (mk_eff (Some (rd, lo (hireg c))) None None None Next)) w ∧
  performs (MfLo rd) (inr (mk_eff (Some (rd, lo (loreg c))) None None None Next)) w.
Proof. intros Hwf. wf_ranges Hwf. split; select_fnc; (apply does_write_rd; [cbn [encode]; by rewrite r_rd by narrow|done]). Qed.

Lemma performs_mt rs : is_reg rs = true →
  performs (MtHi rs) (inr (mk_eff None None (Some (lo (reg rs c))) None Next)) w ∧
  performs (MtLo rs) (inr (mk_eff None (Some (lo (reg rs c))) None None Next)) w.
Proof.
  intros Hwf. wf_ranges Hwf. split; (eapply performs_does; [reflexivity|]); unfold R4kComp.instr_mthi, R4kComp.instr_mtlo;
    (eexists; split; [reflexivity|]); split; try done; cbn [hireg loreg modify default]; operands; done.
Qed.

(** ** Jumps, outside delay slots *)
Definition branch_effect (link : option (Z * Z)) (b likely : bool) (target : Z) : eff :=
  mk_eff link None None None (if b then Goto target else if likely then Skip else Next).

Lemma offset_of rs rt op off : in_width 6 op → in_width 5 rs → in_width 5 rt → signed16 off = true →
  branch_offset (mk_i op rs rt off) = 4 * off.
Proof.
  intros Ho Hs Ht Hoff. unfold branch_offset. rewrite i_imm, sext_imm64, Z.shiftl_mul_pow2 by done.
  change (off mod 2 ^ 64) with (wrap 64 off). rewrite (sgn_wrap 64 off) by lia. unfold sgn, wrap. cbv zeta. change (64 - 1) with 63.
  unfold signed16 in Hoff. rewrite andb_true_iff, Z.leb_le, Z.ltb_lt in Hoff. change (2 ^ TARGET_SHIFT) with 4.
  destruct (Z.ltb_spec (off mod 2 ^ 64) (2 ^ 63)); Z.to_euclidean_division_equations; lia.
Qed.

(** The processor is not in a delay slot. *)
Definition sequential (c : C) : Prop := lo (pc_next c) = (lo (pc c) + 4) mod M32.

Lemma target_lo c0 off : sequential c0 → lo (u64 (pc_next c0 + 4 * off)) = (lo (pc c0) + 4 + 4 * off) mod M32.
Proof.
  intros Hs. rewrite lo_u64. unfold sequential, lo in *. rewrite <- wrap_add_l, Hs by lia. apply Zplus_mod_idemp_l.
Qed.

Lemma does_branch (likely b : bool) i off c0 : branch_offset i = 4 * off → sequential c0 →
  does (if likely then branch_likely_if b i else branch_if b i)
    (branch_effect None b likely ((lo (pc c0) + 4 + 4 * off) mod M32)) c0.
Proof.
  intros Ho Hs. unfold branch_likely_if, branch_if, branch_effect, jump_rel, skip_slot.
  destruct likely, b; (eexists; split; [reflexivity|]; split; try done); cbn [e_flow];
    rewrite <- target_lo, <- Ho by done; reflexivity.
Qed.

Lemma link_lo x : lo (u64 (x + 8)) = (lo x + 8) mod M32.
Proof. rewrite lo_u64. unfold lo. by rewrite <- wrap_add_l. Qed.

(** Linking first. *)
Lemma does_link m e c0 : (∀ c', pc_next c' = pc_next c0 → pc c' = pc c0 → does m e c') → e_wr e = None →
  does (link;; m) (mk_eff (Some (31, (lo (pc c0) + 8) mod M32)) (e_lo e) (e_hi e) (e_epc e) (e_flow e)) c0.
Proof.
  intros Hm He. destruct (Hm (set_reg 31 (u64 (pc c0 + 8)) c0)) as (c' & Hrun & []); [done..|].
  exists c'. split; [exact Hrun|]. split; try done. intros r. rewrite im_regs0, He, <- link_lo. apply upd_set_reg.
Qed.

Context (Hseq : sequential c).

Lemma performs_branch ne likely rs rt off : is_reg rs && is_reg rt && signed16 off = true →
  performs (Branch ne likely rs rt off)
    (inr (branch_effect None (xorb ne (lo (reg rs c) =? lo (reg rt c))) likely ((lo (pc c) + 4 + 4 * off) mod M32))) w.
Proof.
  intros Hwf. wf_ranges Hwf. set (i := encode (Branch ne likely rs rt off)).
  assert (eq_cond i c = (lo (reg rs c) =? lo (reg rt c))) as E.
  { unfold eq_cond, i. rewrite H64. operands; [done|destruct ne, likely; narrow..]. }
  rewrite <- E. apply (performs_does _ _ _ (c0 ← get_st; let b := xorb ne (eq_cond i c0) in
    if likely then branch_likely_if b i else branch_if b i)); [by destruct ne, likely|].
  apply (does_branch likely _ i); [|done]. apply offset_of; try done. destruct ne, likely; narrow.
Qed.

Lemma ge_zero x : (Z.land (lo x) SBIT32 =? 0) = (0 <=? sgn 32 (lo x)).
Proof.
  pose proof (sign_bit (lo x) (lo_width x)) as E. pose proof (sgn32 (lo x) (lo_width x)) as ->.
  unfold truthy in E. pose proof (lo_width x) as Hw. unfold in_width in Hw.
  destruct (Z.eqb_spec (Z.land (lo x) SBIT32) 0), (Z.leb_spec (2 ^ 31) (lo x)); try done; symmetry;
    apply Z.leb_le || apply Z.leb_gt; lia.
Qed.

Definition zero_test (z : zero_cond) : Z → C → bool :=
  match z with LEZ => lez_cond | GTZ => gtz_cond | LTZ => ltz_cond | GEZ => gez_cond end.

Lemma zero_test_holds z i rs : f_rs i = rs → zero_test z i c = zero_holds z (lo (reg rs c)).
Proof.
  intros <-. destruct z; cbn [zero_test zero_holds]; unfold lez_cond, gtz_cond, ltz_cond, gez_cond, rs_val;
    rewrite H64, ?ge_zero, ?sgn_lo; done.
Qed.

Lemma performs_branchz z likely rs off : is_reg rs && signed16 off = true →
  performs (BranchZ z likely rs off)
    (inr (branch_effect None (zero_holds z (lo (reg rs c))) likely ((lo (pc c) + 4 + 4 * off) mod M32))) w.
Proof.
  intros Hwf. wf_ranges Hwf. set (i := encode (BranchZ z likely rs off)).
  rewrite <- (zero_test_holds z i) by (unfold i; destruct z, likely; cbn [encode likely_bit]; by rewrite i_rs by narrow).
  apply (performs_does _ _ _ (c0 ← get_st; let b := zero_test z i c0 in
    if likely then branch_likely_if b i else branch_if b i)); [by destruct z, likely|].
  apply (does_branch likely _ i); [|done]. unfold i. destruct z, likely; apply offset_of; narrow.
Qed.

Lemma performs_branchlink ge likely rs off : is_reg rs && signed16 off = true →
  performs (BranchLink ge likely rs off)
    (inr (branch_effect (Some (31, (lo (pc c) + 8) mod M32)) (zero_holds (if ge then GEZ else LTZ) (lo (reg rs c)))
      likely ((lo (pc c) + 4 + 4 * off) mod M32))) w.
Proof.
  intros Hwf. wf_ranges Hwf. set (i := encode (BranchLink ge likely rs off)).
  rewrite <- (zero_test_holds _ i) by (unfold i; destruct ge, likely; cbn [encode likely_bit]; by rewrite i_rs by narrow).
  set (b := zero_test _ i c).
  assert (does (link;; if likely then branch_likely_if b i else branch_if b i)
    (branch_effect (Some (31, (lo (pc c) + 8) mod M32)) b likely ((lo (pc c) + 4 + 4 * off) mod M32)) c) as Hd.
  { apply (does_link _ (branch_effect None b likely ((lo (pc c) + 4 + 4 * off) mod M32))); [|done].
    intros c' En Ep. rewrite <- Ep. apply does_branch; [|unfold sequential; by rewrite En, Ep].
    unfold i. destruct ge, likely; apply offset_of; narrow. }
  apply (performs_does _ _ _ (c0 ← get_st; let b := zero_test (if ge then GEZ else LTZ) i c0 in
    link;; if likely then branch_likely_if b i else branch_if b i)); [by destruct ge, likely|exact Hd].
Qed.

(** The target in the region of the delay slot. *)
Lemma region_lo op t c0 : in_width 26 t → sequential c0 →
  lo (region_target (mk_j op t) c0) = (lo (pc c0) + 4) mod M32 / 2 ^ 28 * 2 ^ 28 + 4 * t.
Proof.
  intros Ht Hs. unfold region_target. rewrite j_target, lo_bits_lor, lo_bits_land, Hs by done.
  change (lo TARGET_COMB) with (Z.shiftl (Z.ones (32 - 28)) 28).
  rewrite land_high by (lia || apply (lo_width (lo (pc c0) + 4))).
  unfold in_width in Ht. set (q := _ / 2 ^ 28). rewrite (Z.shiftl_mul_pow2 t) by done. change (2 ^ TARGET_SHIFT) with 4.
  rewrite (lo_small (t * 4)) by (unfold in_width; lia).
  rewrite <- Z.shiftl_mul_pow2, lor_disjoint, Z.shiftl_mul_pow2 by (unfold in_width; lia). lia.
Qed.

Lemma does_jump f t c0 : lo (f c0) = t → does (jump_to f) (mk_eff None None None None (Goto t)) c0.
Proof. intros <-. eexists. split; [reflexivity|]. by split. Qed.

Lemma performs_j t : unsigned 26 t = true →
  let target := (lo (pc c) + 4) mod M32 / 2 ^ 28 * 2 ^ 28 + 4 * t in
  performs (J t) (inr (mk_eff None None None None (Goto target))) w ∧
  performs (Jal t) (inr (mk_eff (Some (31, (lo (pc c) + 8) mod M32)) None None None (Goto target))) w.
Proof.
  intros Hwf target. wf_ranges Hwf. split; (eapply performs_does; [reflexivity|]); unfold R4kCtl.instr_j, R4kCtl.instr_jal.
  - apply does_jump, region_lo; done.
  - apply (does_link _ (mk_eff None None None None (Goto target))); [|done]. intros c' En Ep.
    apply does_jump. unfold target. rewrite <- Ep. apply region_lo; [done|]. unfold sequential. by rewrite En, Ep.
Qed.

Lemma performs_jr rs : is_reg rs = true →
  performs (Jr rs) (inr (mk_eff None None None None (Goto (lo (reg rs c))))) w ∧
  (rs ≠ 31 → performs (Jalr rs) (inr (mk_eff (Some (31, (lo (pc c) + 8) mod M32)) None None None (Goto (lo (reg rs c))))) w).
Proof.
  intros Hwf. wf_ranges Hwf. split; [|intros Hne]; (eapply performs_does; [reflexivity|]);
    unfold R4kCtl.instr_jr, R4kCtl.instr_jalr.
  - apply does_jump. by operands.
  - eexists. split; [reflexivity|]. split; try done; cbn [e_wr e_flow]; [intros r; rewrite <- link_lo; apply upd_set_reg|].
    change (lo (rs_val (encode (Jalr rs)) (set_reg 31 (u64 (pc c + 8)) c)) = lo (reg rs c)). operands.
    by rewrite r4k_reg_set_reg, decide_False by done.
Qed.

(** ** Exceptions and coprocessor 0 *)
Definition trap_test (t : trap_cond) (imm : bool) (i : Z) (c : C) : bool :=
  match t, imm with
  | TGE, false => ge_cond i c | TGE, true => gei_cond i c
  | TGEU, false => geu_cond i c | TGEU, true => geiu_cond i c
  | TLT, false => negb (ge_cond i c) | TLT, true => negb (gei_cond i c)
  | TLTU, false => negb (geu_cond i c) | TLTU, true => negb (geiu_cond i c)
  | TEQ, false => eq_cond i c | TEQ, true => eqi_cond i c
  | TNE, false => negb (eq_cond i c) | TNE, true => negb (eqi_cond i c)
  end.

Definition trap_outcome (b : bool) : r4k_exc + eff :=
  if b then inl r4k_excTr else inr (mk_eff None None None None Next).

Lemma performs_trap_if i m b : instr_exec (D:=D) (fnc_of i) (encode i) = on_cpu m →
  m c = trap_if b c → performs i (trap_outcome b) w.
Proof.
  intros E Hm. unfold trap_outcome. destruct b.
  - by eapply performs_raises.
  - eapply performs_does; [exact E|]. unfold does. rewrite Hm. apply does_nothing.
Qed.

Lemma performs_trap t rs rt : is_reg rs && is_reg rt = true →
  performs (Trap t rs rt) (trap_outcome (trap_holds t (lo (reg rs c)) (lo (reg rt c)))) w.
Proof.
  intros Hwf. wf_ranges Hwf.
  assert (trap_test t false (encode (Trap t rs rt)) c = trap_holds t (lo (reg rs c)) (lo (reg rt c))) as <-.
  { destruct t; cbn [trap_test trap_holds]; unfold ge_cond, geu_cond, eq_cond; rewrite H64; operands;
      rewrite ?sgn_lo, ?Z.leb_antisym, ?negb_involutive; done. }
  destruct t; (eapply performs_trap_if; [reflexivity|]); reflexivity.
Qed.

Lemma performs_trapimm t rs imm : is_reg rs && signed16 imm = true →
  performs (TrapImm t rs imm) (trap_outcome (trap_holds t (lo (reg rs c)) (imm mod M32))) w.
Proof.
  intros Hwf. wf_ranges Hwf.
  assert (trap_test t true (encode (TrapImm t rs imm)) c = trap_holds t (lo (reg rs c)) (imm mod M32)) as <-.
  { destruct t; cbn [trap_test trap_holds]; unfold gei_cond, geiu_cond, eqi_cond; rewrite H64; operands;
      rewrite ?sext_imm32, ?sgn_lo, ?Z.leb_antisym, ?negb_involutive by done; done. }
  destruct t; (eapply performs_trap_if; [reflexivity|]); reflexivity.
Qed.

Context (Hcop : CP0_USABLE c = true).

Lemma does_cop0 m e : does m e c → does (with_cop0 m) e c.
Proof. unfold does, with_cop0. by rewrite (bind_Done _ _ _ _ _ eq_refl), Hcop. Qed.

Lemma performs_epc rt : is_reg rt = true →
  performs (MfEpc rt) (inr (mk_eff (Some (rt, lo (cp0r cp0_EPC c))) None None None Next)) w ∧
  performs (MtEpc rt) (inr (mk_eff None None None (Some (lo (reg rt c))) Next)) w.
Proof.
  intros Hwf. wf_ranges Hwf. split; (eapply performs_does; [reflexivity|]); apply does_cop0.
  - apply does_write_rt; operands; [done|]. by rewrite lo_sext, lo_lo.
  - assert (f_rd (encode (MtEpc rt)) = cp0_EPC) as Ed by (cbn [encode]; by rewrite r_rd by narrow).
    unfold does. rewrite (bind_Done _ _ _ _ _ eq_refl), Ed. 
    exists (set_cp0r cp0_EPC (rt_val (encode (MtEpc rt)) c) c). split; [reflexivity|].
    split; try done; rewrite cp0_set_cp0; [|done..]. rewrite decide_True by done. by operands.
Qed.

(** ERET also drops the reservation, which is registered with the memory. *)
Definition sc_only (w w' : W) : Prop :=
  w' = w <| w_cpu := w_cpu w' |> <| w_phys := w_phys w' |> ∧ same_store (w_phys w) (w_phys w').

Lemma eret_run : truthy (cp0_status_erl c) = false →
  ∃ w', instr_exec Fnc.instr_eret (encode Eret) w = Done (r4k_excNone, w') ∧
    implements (mk_eff None None None None Return) c (w_cpu w') ∧ sc_only w w'.
Proof.
  intros Herl. cbn [instr_exec]. unfold R4kSys.instr_eret. rewrite (bind_Done _ _ _ _ _ eq_refl), Hcop.
  do 2 rewrite (bind_Done _ _ _ _ _ eq_refl). rewrite Herl. eexists. split; [reflexivity|]. split.
  { set (c1 := c <| llbit := false |> <| pc_next := cp0r cp0_EPC c |>).
    change (implements (mk_eff None None None None Return) c
      (set_cp0r cp0_Status (Z.land (cp0r cp0_Status c) (c_not 32 cp0_status_exl_mask)) c1)).
    split; try done; by rewrite cp0_set_cp0. }
  split; [reflexivity|]. split; [done|]. split; [done|]. apply remove_first_sublist.
Qed.
End Meaning.

(** Instructions that a delay slot must not hold. *)
Definition is_jump (i : mips) : bool :=
  match i with
  | Branch _ _ _ _ _ | BranchZ _ _ _ _ | BranchLink _ _ _ _ | J _ | Jal _ | Jr _ | Jalr _ | Eret => true
  | _ => false
  end.

Section Refinement.
Context {D : Type} `{BoardOf r4k_cpu Fnc.instr_fnc D}.
Abbreviation W := (world r4k_cpu Fnc.instr_fnc D).

(** The outcome of running a function on the machine. *)
Definition realises (r : outcome (r4k_exc * W)) (o : r4k_exc + eff) (w : W) : Prop :=
  match o with
  | inl x => r = Done (x, w)
  | inr e => ∃ w', r = Done (exit e, w') ∧ implements e (w_cpu w) (w_cpu w') ∧ sc_only w w'
  end.

Lemma realises_performs i o (w : W) : performs i o w → realises (instr_exec (fnc_of i) (encode i) w) o w.
Proof.
  destruct o as [x|e]; [done|]. intros (c' & Hrun & Him). eexists. split; [exact Hrun|]. split; [done|].
  split; [by destruct w|reflexivity].
Qed.

Lemma instr_realises i o (w : W) : let c := w_cpu w in
  mips_wf i = true → CPU_64BIT_MODE c = false → CP0_USABLE c = true → truthy (cp0_status_erl c) = false →
  (is_jump i = true → sequential c) → effect i (view_of c) = Some o →
  realises (instr_exec (decode (encode i)) (encode i) w) o w.
Proof.
  intros c Hwf H64 Hcop Herl Hjump He. rewrite decode_encode by done. unfold c in *.
  destruct i; cbn [effect view_of v_regs v_lo v_hi v_epc v_pc mips_wf is_jump] in *;
    unfold write, lohi, go, trap_when in He;
    try (apply realises_performs; injection He as <-; auto using performs_alu, performs_shift, performs_imm,
      performs_logic, performs_lui, performs_branch, performs_branchz, performs_branchlink, performs_trap, performs_trapimm; fail).
  - pose proof (performs_add w rd rs rt Hwf) as Hp. unfold add_effect in Hp. cbv zeta in Hp.
    apply realises_performs. destruct (_ || _); injection He as <-; exact Hp.
  - pose proof (performs_addi w rt rs imm Hwf) as Hp. unfold add_effect in Hp. cbv zeta in Hp.
    apply realises_performs. destruct (_ || _); injection He as <-; exact Hp.
  - destruct (muldiv _ _ _) as [[l h]|] eqn:Hm; [|done]. injection He as <-.
    by apply realises_performs, performs_muldiv.
  - apply realises_performs. injection He as <-. exact (proj1 (performs_mf w rd Hwf)).
  - apply realises_performs. injection He as <-. exact (proj2 (performs_mf w rd Hwf)).
  - apply realises_performs. injection He as <-. exact (proj1 (performs_mt w rs Hwf)).
  - apply realises_performs. injection He as <-. exact (proj2 (performs_mt w rs Hwf)).
  - apply realises_performs. injection He as <-. exact (performs_branch w H64 (Hjump eq_refl) ne likely rs rt off Hwf).
  - apply realises_performs. injection He as <-. exact (performs_branchz w H64 (Hjump eq_refl) cond likely rs off Hwf).
  - apply realises_performs. injection He as <-. exact (performs_branchlink w H64 (Hjump eq_refl) ge likely rs off Hwf).
  - apply realises_performs. injection He as <-. exact (proj1 (performs_j w (Hjump eq_refl) target Hwf)).
  - apply realises_performs. injection He as <-. exact (proj2 (performs_j w (Hjump eq_refl) target Hwf)).
  - apply realises_performs. injection He as <-. exact (proj1 (performs_jr w rs Hwf)).
  - apply andb_true_iff in Hwf as [Hwf Hne%negb_true_iff%Z.eqb_neq].
    apply realises_performs. injection He as <-. exact (proj2 (performs_jr w rs Hwf) Hne).
  - apply realises_performs. injection He as <-. by eapply performs_raises.
  - apply realises_performs. injection He as <-. by eapply performs_raises.
  - apply realises_performs. injection He as <-. exact (performs_trap w H64 cond rs rt Hwf).
  - apply realises_performs. injection He as <-. exact (performs_trapimm w H64 cond rs imm Hwf).
  - apply realises_performs. injection He as <-. exact (proj1 (performs_epc w Hcop rt Hwf)).
  - apply realises_performs. injection He as <-. exact (proj2 (performs_epc w Hcop rt Hwf)).
  - injection He as <-. exact (eret_run w Hcop Herl).
Qed.

(** C7: for every well-formed encoding of an instruction of [mips] (the 32-bit
    instructions listed there: no loads and stores, no SUB, JALR only with link
    register 31 and rs other than 31), in 32-bit kernel mode with the error level
    clear, except for the quotient of the smallest number and -1, which C leaves
    undefined, the decoder selects a function that, on the low halves of the registers, has
    exactly the effect of the instruction set: the written register, LO and HI, EPC,
    the branch target behind the delay slot, or the exception raised with nothing
    changed.  Branches, jumps and ERET are considered outside delay slots only. *)
Theorem r4k_instr_meaning i o (w : W) : let c := w_cpu w in
  mips_wf i = true → CPU_64BIT_MODE c = false → CP0_USABLE c = true → truthy (cp0_status_erl c) = false →
  (is_jump i = true → sequential c) → effect i (view_of c) = Some o →
  realises (instr_exec (decode (encode i)) (encode i) w) o w.
Proof. apply instr_realises. Qed.
End Refinement.

(** A sum that overflows, and a jump that links. *)
Lemma r4k_instr_meaning_witness :
  let w := R4kSample.machine (set_reg 1 0x7fffffff (set_reg 2 1 R4kSample.kernel_cpu)) [] in
  instr_exec (decode (encode (AddOv 3 1 2))) (encode (AddOv 3 1 2)) w = Done (r4k_excOv, w) ∧
  ∃ w', instr_exec (decode (encode (Jal 0x40))) (encode (Jal 0x40)) w = Done (r4k_excJump, w') ∧
    lo (pc_next (w_cpu w')) = 0x80000100 ∧ lo (reg 31 (w_cpu w')) = 0x80000008.
Proof.
  intros w. split.
  - apply (r4k_instr_meaning (AddOv 3 1 2) (inl r4k_excOv) w); by vm_compute.
  - destruct (r4k_instr_meaning (Jal 0x40) (inr (mk_eff (Some (31, 0x80000008)) None None None (Goto 0x80000100))) w)
      as (w' & Hrun & Him & _); [by vm_compute..|].
    exists w'. split; [exact Hrun|]. split; [exact (im_next _ _ _ Him)|]. exact (im_regs _ _ _ Him 31).
Defined.
