(* ===== verification/R4kRun.v ===== *)
(** * Running MIPS programs: the simulator refines the instruction set

    The abstract machine has 32-bit registers, a program counter, the pending
    target while it is in a delay slot, and the state of exceptions: EPC, the
    exception level, the cause and its branch-delay bit.  The simulated processor
    in kernel mode, with interrupts disabled and its program in one of the unmapped
    segments, follows it step by step, through the instruction cache and the
    delay slots and into and out of exception handlers. *)

From S2P Require Import Prelude PhysMem Machine MachineProps ICache ICacheProps R4kTypes R4kTlb R4kMem R4kComp R4kCtl R4kSys.
From S2P Require Import R4kDecode R4kCpu R4kInv R4kStepInv R4kTlbProps R4kExec RvSample.
Import PhysMem.

(** ** The abstract machine *)
Record mips_state := mk_mips {
  m_pc : Z;
  m_slot : option Z;
  m_regs : Z → Z;
  m_lo : Z;
  m_hi : Z;
  m_epc : Z;
  m_exl : bool;
  m_code : Z;
  m_bd : bool
}.

Definition view_at (s : mips_state) : view := mk_view (m_regs s) (m_lo s) (m_hi s) (m_epc s) (m_pc s).
Definition in_slot (s : mips_state) : bool := bool_decide (is_Some (m_slot s)).

(** The entry into the handler: EPC is the instruction, or the jump before it when
    the instruction is in a delay slot. *)
Definition trap (x : r4k_exc) (s : mips_state) : mips_state :=
  mk_mips 0x80000180 None (λ r, if r =? 0 then 0 else m_regs s r) (m_lo s) (m_hi s)
    (if m_exl s then m_epc s else if in_slot s then (m_pc s - 4) mod M32 else m_pc s)
    true (exc_no x) (in_slot s).

Definition advance (e : eff) (s : mips_state) : mips_state :=
  let next := (m_pc s + 4) mod M32 in
  let '(pc', slot', exl') :=
    match e_flow e with
    | Next => (default next (m_slot s), None, m_exl s)
    | Skip => ((m_pc s + 8) mod M32, None, m_exl s)
    | Goto t => (next, Some t, m_exl s)
    | Return => (m_epc s, None, false)
    end in
  mk_mips pc' slot' (λ r, if r =? 0 then 0 else upd (e_wr e) (m_regs s) r)
    (default (m_lo s) (e_lo e)) (default (m_hi s) (e_hi e)) (default (m_epc s) (e_epc e)) exl' (m_code s) (m_bd s).

(** A jump in a delay slot has no meaning. *)
Definition mips_step (prog : gmap Z mips) (s : mips_state) : option mips_state :=
  i ← prog !! m_pc s;
  if is_jump i && in_slot s then None
  else o ← effect i (view_at s); Some (match o with inl x => trap x s | inr e => advance e s end).

Fixpoint mips_run (prog : gmap Z mips) (n : nat) (s : mips_state) : option mips_state :=
  match n with
  | O => Some s
  | S n' => s' ← mips_step prog s; mips_run prog n' s'
  end.

(** ** Reservations *)
Definition r4k_weaker (c c' : r4k_cpu) : Prop := c' = c ∨ c' = c <| llbit := false |>.

#[export] Instance r4k_weaker_preorder : PreOrder r4k_weaker.
Proof. split; [by left|]. intros c1 c2 c3 [->| ->] [->| ->]; unfold r4k_weaker; auto. Qed.

Lemma r4k_sc_access_weaker addr size c : r4k_weaker c (snd (r4k_sc_access addr size c)).
Proof. unfold r4k_sc_access. cbn. destruct (_ =? _); [by right|by left]. Qed.

#[export] Instance r4k_core_laws : CoreLaws r4k_cpu := {|
  core_weaker := r4k_weaker;
  core_sc_access_weaker := r4k_sc_access_weaker
|}.

(** ** Modes *)

(** Kernel mode with 32-bit addresses, interrupts disabled, handlers in kseg0. *)
Record quiet (c : C) : Prop := {
  q_ie : truthy (cp0_status_ie c) = false;
  q_erl : truthy (cp0_status_erl c) = false;
  q_ksu : cp0_status_ksu c = 0;
  q_kx : truthy (cp0_status_kx c) = false;
  q_bev : truthy (cp0_status_bev c) = false
}.

Lemma quiet_modes c : quiet c → CPU_KERNEL_MODE c = true ∧ CPU_USER_MODE c = false ∧
  CPU_SUPERVISOR_MODE c = false ∧ CPU_64BIT_MODE c = false ∧ CP0_USABLE c = true ∧ interrupt_pending c = false.
Proof.
  intros [Hi He Hk Hx _]. unfold CPU_64BIT_MODE, CP0_USABLE, interrupt_pending, CPU_USER_MODE, CPU_SUPERVISOR_MODE, CPU_KERNEL_MODE.
  rewrite Hi, Hk, Hx. cbn. by rewrite !andb_false_r, orb_true_r.
Qed.

(** Setting or clearing EXL keeps the other fields. *)
Lemma quiet_status c v : quiet c →
  (∀ m, Z.land m cp0_status_exl_mask = 0 → in_width 32 m → Z.land v m = Z.land (cp0r cp0_Status c) m) →
  ∀ c', cp0r cp0_Status c' = v → quiet c'.
Proof.
  intros [Hi He Hk Hx Hb] Hv c' E.
  split; unfold cp0_status_ie, cp0_status_erl, cp0_status_ksu, cp0_status_kx, cp0_status_bev; rewrite E, Hv by done; done.
Qed.

Lemma set_exl_field v m : Z.land m cp0_status_exl_mask = 0 → Z.land (Z.lor v cp0_status_exl_mask) m = Z.land v m.
Proof. intros E. rewrite Z.land_lor_distr_l, (Z.land_comm cp0_status_exl_mask), E. apply Z.lor_0_r. Qed.

Lemma clear_exl_field v m : Z.land m cp0_status_exl_mask = 0 → in_width 32 m →
  Z.land (Z.land v (c_not 32 cp0_status_exl_mask)) m = Z.land v m.
Proof.
  intros E Hm. rewrite <- Z.land_assoc. f_equal. apply Z.bits_inj'. intros n Hn.
  rewrite Z.land_spec, testbit_c_not by lia. destruct (Z.ltb_spec n 32); [|by rewrite (testbit_high 32 m) by done].
  assert (Z.testbit (Z.land m cp0_status_exl_mask) n = false) as Hb by (rewrite E; apply Z.bits_0).
  rewrite Z.land_spec in Hb. by destruct (Z.testbit m n), (Z.testbit cp0_status_exl_mask n).
Qed.

Lemma exl_set v : truthy (Z.shiftr (Z.land (Z.lor v cp0_status_exl_mask) cp0_status_exl_mask) 1) = true.
Proof. rewrite Z.land_lor_distr_l, Z.land_diag, Z.lor_comm. change cp0_status_exl_mask with (Z.shiftl 1 1).
  rewrite Z.shiftr_lor. unfold truthy. apply negb_true_iff, Z.eqb_neq. change (Z.shiftr (Z.shiftl 1 1) 1) with 1.
  intros E%Z.lor_eq_0_iff. by destruct E.
Qed.

Lemma exl_cleared v : truthy (Z.shiftr (Z.land (Z.land v (c_not 32 cp0_status_exl_mask)) cp0_status_exl_mask) 1) = false.
Proof. rewrite <- Z.land_assoc. change (Z.land (c_not 32 _) _) with 0. by rewrite Z.land_0_r. Qed.

(** ** Unmapped segments *)
Lemma convert_unmapped c virt wr noisy : quiet c → 2 ^ 31 ≤ lo virt < 3 * 2 ^ 30 →
  r4k_convert_addr virt wr noisy c = Done ((r4k_excNone, Some (lo virt mod 2 ^ 29)), c).
Proof.
  intros Hq Hv. destruct (quiet_modes c Hq) as (Hk & Hu & Hs & H64 & _ & _).
  unfold r4k_convert_addr. rewrite (bind_Done _ _ _ _ _ eq_refl), H64, Hu, Hs, Hk.
  unfold convert_addr_kernel32. rewrite (bind_Done _ _ _ _ _ eq_refl), Hk, (bind_Done _ _ _ _ _ eq_refl).
  unfold in_seg. change USEG_MASK with (Z.shiftl (Z.ones (32 - 31)) 31).
  change KSEG0_MASK with (Z.shiftl (Z.ones (32 - 29)) 29). change KSEG1_MASK with (Z.shiftl (Z.ones (32 - 29)) 29).
  rewrite !land_high by (lia || apply lo_width). unfold USEG_BITS, KSEG0_BITS, KSEG1_BITS.
  set (x := lo virt) in *.
  assert (x / 2 ^ 31 = 1) as -> by (Z.to_euclidean_division_equations; lia). cbn [Z.eqb].
  destruct (Z.lt_ge_cases x (5 * 2 ^ 29)).
  - assert (x / 2 ^ 29 = 4) as -> by (Z.to_euclidean_division_equations; lia).
    assert (x mod 2 ^ 29 = x - 0x80000000) as -> by (Z.to_euclidean_division_equations; lia). done.
  - assert (x / 2 ^ 29 = 5) as -> by (Z.to_euclidean_division_equations; lia).
    assert (x mod 2 ^ 29 = x - 0xa0000000) as -> by (Z.to_euclidean_division_equations; lia). done.
Qed.

(** ** The end of a step *)
Definition cause_mask : Z := 0x8000007c.
Definition cause_fields (c : C) : Z := Z.land (cp0r cp0_Cause c) cause_mask.

(** What the clock, the timer and the accounting leave alone. *)
Record ticks (b : branch_state) (c c' : C) : Prop := {
  tk_stdby : stdby c' = stdby c;
  tk_regs : regs c' = regs c;
  tk_lo : loreg c' = loreg c;
  tk_hi : hireg c' = hireg c;
  tk_pc : pc c' = pc c;
  tk_next : pc_next c' = pc_next c;
  tk_excaddr : excaddr c' = excaddr c;
  tk_status : cp0r cp0_Status c' = cp0r cp0_Status c;
  tk_epc : cp0r cp0_EPC c' = cp0r cp0_EPC c;
  tk_cause : cause_fields c' = cause_fields c;
  tk_branch : branch c' = b
}.

Lemma ticks_trans b b' c1 c2 c3 : ticks b c1 c2 → ticks b' c2 c3 → ticks b' c1 c3.
Proof. intros [] []. split; by etrans. Qed.

Lemma ticks_cp0 r v c : r ∉ [cp0_Status; cp0_EPC; cp0_Cause] → ticks (branch c) c (set_cp0r r v c).
Proof.
  rewrite !not_elem_of_cons. intros (? & ? & ? & _).
  split; try done; unfold cause_fields; rewrite cp0_set_cp0; by rewrite decide_False.
Qed.

Lemma timer_fields v : Z.land (Z.lor v (Z.shiftl 1 cp0_cause_ip7_shift)) cause_mask = Z.land v cause_mask.
Proof. rewrite Z.land_lor_distr_l. change (Z.land (Z.shiftl 1 _) _) with 0. apply Z.lor_0_r. Qed.

Lemma ticks_timer c : ticks (branch c) c (tick_timer c).
Proof.
  unfold tick_timer. destruct (_ =? _); [|done]. split; try done; unfold upd_cp0, cause_fields; rewrite !cp0_set_cp0; try done.
  rewrite decide_True by done. apply timer_fields.
Qed.

Lemma ticks_random c : ticks (branch c) c (tick_random c).
Proof.
  unfold tick_random. set (c1 := if cp0r cp0_Random c =? 0 then _ else _).
  assert (ticks (branch c) c c1 ∧ branch c1 = branch c) as [H1 Eb]
    by (unfold c1; destruct (_ =? 0); (split; [by apply ticks_cp0; vm_compute; set_solver|done])).
  cbv zeta. destruct (_ <? _); [|done]. eapply ticks_trans; [done|]. rewrite <- Eb. apply ticks_cp0. vm_compute. set_solver.
Qed.

Definition clock (c : C) : C :=
  let c := tick_timer (tick_random (upd_cp0 cp0_Count (λ v, u64 (v + 1)) c)) in
  c <| branch := branch_pred (branch c) |>.

Definition accounted (c : C) : C :=
  if stdby c then c <| w_cycles := u64 (w_cycles c + 1) |>
  else if CPU_KERNEL_MODE c then c <| k_cycles := u64 (k_cycles c + 1) |>
  else c <| u_cycles := u64 (u_cycles c + 1) |>.

Lemma clock_ticks c : ticks (branch_pred (branch c)) c (accounted (clock c)).
Proof.
  set (c1 := upd_cp0 cp0_Count (λ v, u64 (v + 1)) c).
  assert (ticks (branch c) c c1) as H1 by (apply ticks_cp0; vm_compute; set_solver).
  pose proof (ticks_random c1) as H2. pose proof (ticks_timer (tick_random c1)) as H3.
  pose proof (ticks_trans _ _ _ _ _ (ticks_trans _ _ _ _ _ H1 H2) H3) as H4.
  rewrite (tk_branch _ _ _ H2) in H4. change (branch c1) with (branch c) in H4.
  assert (ticks (branch_pred (branch c)) c (clock c)) as H5
    by (destruct H4 as [? ? ? ? ? ? ? ? ? ? Eb]; unfold clock; fold c1; cbv zeta; rewrite Eb; by split).
  unfold accounted. generalize dependent (clock c). intros c2 []. destruct (stdby c2) eqn:E;
    [|destruct (CPU_KERNEL_MODE c2)]; by split; cbn; rewrite ?E.
Qed.

(** ** The simulation relation: the processor *)
Definition cause_word (code : Z) (bd : bool) : Z := Z.lor (Z.shiftl code 2) (if bd then cp0_cause_bd_mask else 0).

Record csim (s : mips_state) (c : C) : Prop := {
  cs_awake : stdby c = false;
  cs_quiet : quiet c;
  cs_exl : truthy (cp0_status_exl c) = m_exl s;
  cs_pc : lo (pc c) = m_pc s;
  cs_flow : match m_slot s with
    | None => sequential c ∧ branch c = BRANCH_NONE
    | Some t => lo (pc_next c) = t ∧ branch c = BRANCH_PASSED ∧ lo (excaddr c) = (m_pc s - 4) mod M32
    end;
  cs_regs r : lo (reg r c) = m_regs s r;
  cs_lo : lo (loreg c) = m_lo s;
  cs_hi : lo (hireg c) = m_hi s;
  cs_epc : lo (cp0r cp0_EPC c) = m_epc s;
  cs_cause : cause_fields c = cause_word (m_code s) (m_bd s)
}.

Lemma lo_add x k : lo (x + k) = (lo x + k) mod M32.
Proof. unfold lo, wrap, M32. by rewrite Zplus_mod_idemp_l. Qed.

Lemma lo_next x k : lo (u64 (x + k)) = (lo x + k) mod M32.
Proof. by rewrite lo_u64, lo_add. Qed.

(** The view of the processor is that of the abstract machine. *)
Lemma effect_sim i s c : csim s c → effect i (view_of c) = effect i (view_at s).
Proof.
  intros [_ _ _ Hpc _ Hr Hl Hh He _].
  destruct i; unfold view_of, view_at; cbn [effect v_regs v_lo v_hi v_epc v_pc]; rewrite ?Hr, ?Hl, ?Hh, ?He, ?Hpc; done.
Qed.

Lemma regs_finish s wr c : (∀ r, lo (reg r c) = upd wr (m_regs s) r) →
  ∀ r, lo (reg r (set_reg 0 0 c)) = if r =? 0 then 0 else upd wr (m_regs s) r.
Proof.
  intros Hr r. rewrite r4k_reg_set_reg. destruct (Z.eqb_spec r 0) as [->|]; [by rewrite decide_True|].
  by rewrite decide_False.
Qed.

Lemma effect_flow i v e : effect i v = Some (inr e) → is_jump i = false → e_flow e = Next.
Proof.
  destruct i; cbn [effect is_jump]; try discriminate; unfold write, lohi, trap_when; intros He _;
    repeat match type of He with context [if ?b then _ else _] => destruct b end;
    repeat match type of He with context [match ?b with Some _ => _ | None => _ end] => destruct b as [[]|] end;
    try discriminate He; by injection He as <-.
Qed.

Lemma quiet_same c c' : cp0r cp0_Status c' = cp0r cp0_Status c → quiet c → quiet c'.
Proof. intros E Hq. by apply (quiet_status c (cp0r cp0_Status c)). Qed.

(** What [finish_instr] leaves alone, and where it goes. *)
Lemma r4k_finish_run x c : let c' := finish_instr x c in
  loreg c' = loreg c ∧ hireg c' = hireg c ∧ cp0 c' = cp0 c ∧ branch c' = branch c ∧ stdby c' = stdby c ∧
  (∀ r, reg r c' = reg r (set_reg 0 0 c)) ∧
  excaddr c' = (if branch_is (branch c) BRANCH_COND || branch_is (branch c) BRANCH_NONE then pc c else excaddr c) ∧
  pc c' = (if is_exc x r4k_excJump then u64 (pc c + 4) else pc_next c) ∧
  pc_next c' = (if is_exc x r4k_excJump then pc_next c else u64 (pc_next c + 4)).
Proof.
  cbv zeta. unfold finish_instr. destruct (branch_is (branch c) BRANCH_COND || branch_is (branch c) BRANCH_NONE), (is_exc x r4k_excJump);
    split_and!; done.
Qed.

Lemma back_four x : ((lo x + 4) mod M32 - 4) mod M32 = lo x.
Proof. unfold lo, wrap, M32. Z.to_euclidean_division_equations. lia. Qed.

(** The end of an instruction that raises nothing. *)
Lemma advance_sim s e i c c' : csim s c → implements e c c' →
  is_jump i && in_slot s = false → effect i (view_at s) = Some (inr e) →
  csim (advance e s) (accounted (clock (finish_instr (exit e) c'))).
Proof.
  intros [Haw Hq Hexl Hpc Hfl Hr Hl Hh Hepc Hc] [Ir Il Ih Ie Ic Is Ip Ix Iw Ib In] Hslot He.
  destruct (r4k_finish_run (exit e) c') as (F1 & F2 & F3 & F4 & F5 & F6 & F7 & F8 & F9).
  destruct (clock_ticks (finish_instr (exit e) c')) as [T1 T2 T3 T4 T5 T6 T7 T8 T9 T10 T11].
  set (c2 := finish_instr (exit e) c') in *. set (c3 := accounted (clock c2)) in *.
  assert (∀ r, cp0r r c2 = cp0r r c') as Fc by (intros r; unfold cp0r; by rewrite F3).
  rewrite Fc in T8, T9.
  assert (∀ r, lo (reg r c3) = if r =? 0 then 0 else upd (e_wr e) (m_regs s) r) as Hregs.
  { intros r. assert (reg r c3 = reg r c2) as -> by (unfold reg; by rewrite T2). rewrite F6.
    apply (regs_finish s). intros r'. rewrite Ir. unfold upd. destruct (e_wr e) as [[rd v]|]; [|by rewrite Hr].
    by destruct (r' =? rd). }
  assert (m_slot s = None ∨ e_flow e = Next) as Hcase.
  { destruct (is_jump i) eqn:Ej; [left|right; by eapply effect_flow]. cbn in Hslot. unfold in_slot in Hslot.
    case_bool_decide as Hs; [done|]. destruct (m_slot s); [|done]. destruct Hs. by eexists. }
  assert (stdby c3 = false) as Hst by congruence.
  assert (lo (loreg c3) = default (m_lo s) (e_lo e)) as Hlo by (by rewrite T3, F1, Il, Hl).
  assert (lo (hireg c3) = default (m_hi s) (e_hi e)) as Hhi by (by rewrite T4, F2, Ih, Hh).
  assert (lo (cp0r cp0_EPC c3) = default (m_epc s) (e_epc e)) as Hep by (by rewrite T9, Ie, Hepc).
  assert (cause_fields c3 = cause_word (m_code s) (m_bd s)) as Hca
    by (rewrite T10, <- Hc; unfold cause_fields; by rewrite Fc, Ic).
  rewrite F4, Ib in T11. unfold exit in F8, F9. unfold advance. destruct (e_flow e) as [| |t|] eqn:Ef;
    set (b := is_exc _ _) in F8, F9; vm_compute in b; subst b; cbv iota in F8, F9.
  - assert (quiet c3) as Hq3 by (apply (quiet_same c); [congruence|done]).
    assert (lo (pc c3) = default ((m_pc s + 4) mod M32) (m_slot s)) as Hpc3.
    { rewrite T5, F8, In. destruct (m_slot s); cbn; [apply Hfl|]. rewrite <- Hpc. apply Hfl. }
    split; try done.
    + unfold cp0_status_exl in *. by rewrite T8, Is.
    + split; [unfold sequential; rewrite T5, T6, F8, F9; apply lo_next|]. rewrite T11.
      destruct (m_slot s); destruct_and!; by rewrite ?H1, ?H0.
  - assert (quiet c3) as Hq3 by (apply (quiet_same c); [congruence|done]).
    destruct Hcase as [Hn|]; [|done]. rewrite Hn in Hfl. destruct Hfl as [Hseq Hbr]. split; try done.
    + unfold cp0_status_exl in *. by rewrite T8, Is.
    + cbn [m_pc]. rewrite T5, F8, In, lo_next, Hseq, Hpc. unfold M32. rewrite Zplus_mod_idemp_l. f_equal. lia.
    + split; [unfold sequential; rewrite T5, T6, F8, F9; apply lo_next|]. by rewrite T11, Hbr.
  - assert (quiet c3) as Hq3 by (apply (quiet_same c); [congruence|done]).
    destruct Hcase as [Hn|]; [|done]. split; try done.
    + unfold cp0_status_exl in *. by rewrite T8, Is.
    + cbn [m_pc]. rewrite T5, F8, Ip, lo_next, Hpc. done.
    + cbn [m_slot m_pc]. split_and!; [by rewrite T6, F9|done|]. rewrite T7, F7, Ib, Ip. cbn.
      by rewrite <- Hpc, back_four.
  - assert (quiet c3) as Hq3.
    { apply (quiet_status c (cp0r cp0_Status c3)); [done| |done]. intros m Hm Hw. rewrite T8, Is. by apply clear_exl_field. }
    destruct Hcase as [Hn|]; [|done]. rewrite Hn in Hfl. destruct Hfl as [Hseq Hbr]. split; try done.
    + unfold cp0_status_exl in *. rewrite T8, Is. apply exl_cleared.
    + cbn [m_pc]. by rewrite T5, F8, In.
    + split; [unfold sequential; rewrite T5, T6, F8, F9; apply lo_next|]. by rewrite T11, Hbr.
Qed.

(** ** Exceptions *)
Definition trap_codes : list r4k_exc := [r4k_excOv; r4k_excSys; r4k_excBp; r4k_excTr].

Lemma effect_traps i v x : effect i v = Some (inl x) → x ∈ trap_codes.
Proof.
  unfold trap_codes.
  destruct i; cbn [effect]; unfold write, lohi, go, trap_when; try discriminate; intros He;
    repeat match type of He with context [if ?b then _ else _] => destruct b end;
    repeat match type of He with context [match ?b with Some _ => _ | None => _ end] => destruct b as [[]|] end;
    try discriminate He; injection He as <-; set_solver.
Qed.

Lemma cause_code v x : x ∈ trap_codes →
  Z.land (Z.land (Z.lor (Z.land v (c_not 32 cp0_cause_exccode_mask)) (Z.shiftl (exc_no x) cp0_cause_exccode_shift))
    (c_not 32 cp0_cause_bd_mask)) cause_mask = Z.shiftl (exc_no x) 2.
Proof.
  intros Hx. rewrite <- Z.land_assoc, Z.land_lor_distr_l, <- Z.land_assoc.
  change (Z.land (c_not 32 cp0_cause_exccode_mask) _) with 0. rewrite Z.land_0_r, Z.lor_0_l.
  unfold trap_codes in Hx. rewrite !elem_of_cons, elem_of_nil in Hx. by repeat destruct Hx as [->|Hx].
Qed.

Lemma set_cause_fields x c : x ∈ trap_codes →
  cause_fields (set_cause x c) = cause_word (exc_no x) (branch_is (branch c) BRANCH_PASSED).
Proof.
  intros Hx. unfold set_cause, cause_word. set (c1 := upd_cp0 cp0_Cause _ c). set (c2 := upd_cp0 cp0_Cause _ c1).
  set (c3 := upd_cp0 cp0_Cause _ c2).
  assert (cause_fields c3 = Z.shiftl (exc_no x) 2) as E.
  { unfold cause_fields, c3, c2, c1, upd_cp0. rewrite !cp0_set_cp0, !decide_True by done. by apply cause_code. }
  change (branch c3) with (branch c). destruct (branch_is _ _); [|by rewrite Z.lor_0_r].
  unfold cause_fields, upd_cp0 in *. rewrite cp0_set_cp0, decide_True by done.
  rewrite Z.land_lor_distr_l, E. done.
Qed.

(** [set_cause] changes Cause only, [set_epc] EPC only. *)
Lemma set_cause_run x c : ∃ v, set_cause x c = set_cp0r cp0_Cause v c.
Proof.
  unfold set_cause, upd_cp0, set_cp0r. cbn. destruct (branch_is _ _); eexists; cbn; rewrite ?insert_insert_eq; reflexivity.
Qed.

Lemma set_epc_run x c : is_exc x r4k_excInt = false →
  set_epc x c = if truthy (cp0_status_exl c) then c else set_cp0r cp0_EPC (excaddr c) c.
Proof. intros E. unfold set_epc. rewrite E. by destruct (truthy _). Qed.

Definition entered (x : r4k_exc) (c : C) : C :=
  let c := set_epc x (set_cause x (c <| stdby := false |>)) in
  upd_cp0 cp0_Status (λ v, Z.lor v cp0_status_exl_mask) (r4k_set_pc (exception_vector false x c) c).

Lemma handle_trap_run x c : x ∈ trap_codes → stdby c = false → handle_exception x c = Done (tt, entered x c).
Proof.
  intros Hx Hs. unfold handle_exception.
  assert (refill_of x = (false, x) ∧ (exc_no x <=? exc_no r4k_excVCED) = true) as [-> ->]
    by (unfold trap_codes in Hx; rewrite !elem_of_cons, elem_of_nil in Hx; by repeat destruct Hx as [->|Hx]).
  do 2 rewrite (bind_Done _ _ _ _ _ eq_refl). by rewrite Hs.
Qed.

Lemma entered_run x c : x ∈ trap_codes → quiet c → let c' := entered x c in
  stdby c' = false ∧ regs c' = regs c ∧ loreg c' = loreg c ∧ hireg c' = hireg c ∧ branch c' = branch c ∧
  lo (pc c') = 0x80000180 ∧ sequential c' ∧
  cp0r cp0_Status c' = Z.lor (cp0r cp0_Status c) cp0_status_exl_mask ∧
  cp0r cp0_EPC c' = (if truthy (cp0_status_exl c) then cp0r cp0_EPC c else excaddr c) ∧
  cause_fields c' = cause_word (exc_no x) (branch_is (branch c) BRANCH_PASSED).
Proof.
  intros Hx Hq c'. assert (is_exc x r4k_excInt = false ∧ is_exc x r4k_excReset = false) as [Hi Hre]
    by (unfold trap_codes in Hx; rewrite !elem_of_cons, elem_of_nil in Hx; by repeat destruct Hx as [->|Hx]).
  pose proof (set_cause_fields x (c <| stdby := false |>) Hx) as Hca.
  destruct (set_cause_run x (c <| stdby := false |>)) as [v Ev].
  unfold c', entered. rewrite Ev in *. rewrite set_epc_run by done. set (c1 := set_cp0r cp0_Cause v _) in *.
  assert (cp0_status_exl c1 = cp0_status_exl c) as Ex by (unfold cp0_status_exl, c1; by rewrite cp0_set_cp0).
  set (c2 := if truthy (cp0_status_exl c1) then c1 else _).
  assert (∀ r, r ≠ cp0_EPC → cp0r r c2 = cp0r r c1) as Hr2.
  { intros r Hr. unfold c2. destruct (truthy _); [done|]. rewrite cp0_set_cp0. by rewrite decide_False. }
  assert (stdby c2 = false ∧ regs c2 = regs c ∧ loreg c2 = loreg c ∧ hireg c2 = hireg c ∧ branch c2 = branch c)
    as (? & ? & ? & ? & ?) by (unfold c2; by destruct (truthy _)).
  assert (exception_vector false x c2 = 0xffffffff80000180) as Evec.
  { unfold exception_vector. rewrite orb_true_r, Hre. pose proof (q_bev c Hq) as Hb. unfold cp0_status_bev in *.
    rewrite Hr2 by done. unfold c1. rewrite cp0_set_cp0, decide_False by done.
    change (cp0r cp0_Status (c <| stdby := false |>)) with (cp0r cp0_Status c). by rewrite Hb. }
  rewrite Evec. unfold upd_cp0, cause_fields, r4k_set_pc in *. split_and!; try done; rewrite cp0_set_cp0.
  - rewrite decide_True by done. f_equal. change (cp0r cp0_Status c2 = cp0r cp0_Status c). rewrite Hr2 by done.
    unfold c1. by rewrite cp0_set_cp0.
  - rewrite decide_False by done. change (cp0r cp0_EPC c2 = if truthy (cp0_status_exl c) then cp0r cp0_EPC c else excaddr c).
    rewrite <- Ex. unfold c2. destruct (truthy _); [unfold c1; by rewrite cp0_set_cp0|]. by rewrite cp0_set_cp0.
  - rewrite decide_False by done. change (Z.land (cp0r cp0_Cause c2) cause_mask = cause_word (exc_no x) (branch_is (branch c) BRANCH_PASSED)).
    by rewrite Hr2.
Qed.

(** The end of an instruction that raises an exception. *)
Lemma trap_sim s x c : csim s c → x ∈ trap_codes →
  csim (trap x s) (accounted (clock (entered x (finish_instr x c)))).
Proof.
  intros [Haw Hq Hexl Hpc Hfl Hr Hl Hh Hepc Hc] Hx.
  destruct (r4k_finish_run x c) as (F1 & F2 & F3 & F4 & F5 & F6 & F7 & _). set (c2 := finish_instr x c) in *.
  assert (∀ r, cp0r r c2 = cp0r r c) as Fc by (intros r; unfold cp0r; by rewrite F3).
  destruct (entered_run x c2 Hx (quiet_same c c2 (Fc _) Hq)) as (E1 & E2 & E3 & E4 & E5 & E6 & E7 & E8 & E9 & E10).
  destruct (clock_ticks (entered x c2)) as [T1 T2 T3 T4 T5 T6 T7 T8 T9 T10 T11].
  set (c3 := entered x c2) in *. set (c4 := accounted (clock c3)) in *.
  assert (branch_is (branch c2) BRANCH_PASSED = in_slot s ∧ branch_pred (branch c2) = BRANCH_NONE ∧
    lo (excaddr c2) = if in_slot s then (m_pc s - 4) mod M32 else m_pc s) as (B1 & B2 & B3).
  { unfold in_slot. rewrite F7, F4. destruct (m_slot s); [destruct Hfl as (_ & -> & ?)|destruct Hfl as (_ & ->)]; by split_and!. }
  assert (truthy (cp0_status_exl c2) = m_exl s) as Ex by (rewrite <- Hexl; unfold cp0_status_exl; by rewrite Fc).
  split; cbn [trap m_pc m_slot m_regs m_lo m_hi m_epc m_exl m_code m_bd].
  - congruence.
  - apply (quiet_status c (cp0r cp0_Status c4)); [done| |done]. intros m Hm Hw. rewrite T8, E8, Fc. by apply set_exl_field.
  - unfold cp0_status_exl. rewrite T8, E8. apply exl_set.
  - by rewrite T5.
  - split; [unfold sequential; by rewrite T5, T6|]. by rewrite T11, E5.
  - intros r. assert (reg r c4 = reg r c2) as -> by (unfold reg; by rewrite T2, E2). rewrite F6.
    exact (regs_finish s None c Hr r).
  - by rewrite T3, E3, F1.
  - by rewrite T4, E4, F2.
  - rewrite T9, E9, Ex. by destruct (m_exl s); [rewrite Fc|].
  - by rewrite T10, E10, B1.
Qed.

(** ** The machine *)
Section Run.
Context {D : Type} `{BoardOf r4k_cpu Fnc.instr_fnc D}.
Abbreviation W := (world r4k_cpu Fnc.instr_fnc D).
Abbreviation icache_ok := (ICacheProps.icache_ok (D:=D) r4k_decode).
Implicit Types w : W.

(** The program lies in the unmapped segments; its bytes are in physical memory. *)
Definition loaded (prog : gmap Z mips) (p : physmem) : Prop := ∀ a i, prog !! a = Some i →
  mips_wf i = true ∧ 2 ^ 31 ≤ a < 3 * 2 ^ 30 ∧ slot_ok (a mod 2 ^ 29) ∧
  is_Some (byte_at p (a mod 2 ^ 29)) ∧ word_at p (a mod 2 ^ 29) = encode i.

Lemma r4k_loaded_same prog p p' : same_bytes p p' → loaded prog p → loaded prog p'.
Proof.
  intros Hb Hl a i Hi. destruct (Hl a i Hi) as (Hw & Hr & Hs & Hba & Ha). split_and!; [done|lia|lia|done| |].
  - by rewrite (Hb _ (proj1 Hs)).
  - by rewrite (same_bytes_word _ _ _ Hb Hs).
Qed.

Record sim (prog : gmap Z mips) (s : mips_state) w : Prop := {
  sim_cpu : csim s (w_cpu w);
  sim_phys : phys_wf (w_phys w);
  sim_icache : icache_ok w;
  sim_loaded : loaded prog (w_phys w)
}.

Lemma on_cpu_same {A} (m : st C A) w a : m (w_cpu w) = Done (a, w_cpu w) → on_cpu m w = Done (a, w).
Proof. intros E. rewrite (on_cpu_run _ _ _ _ E). by destruct w. Qed.

(** What an executed instruction may change besides the processor. *)
Definition background w w' : Prop :=
  phys_wf (w_phys w') ∧ icache_ok w' ∧ same_bytes (w_phys w) (w_phys w').

Lemma background_cpu w w' c : background w w' → background w (w' <| w_cpu := c |>).
Proof.
  intros (Hp & [Hn Hi] & Hb). split_and!; [done| |done]. split; [done|]. intros ci Hci. by destruct (Hi ci Hci).
Qed.

Lemma background_sc w w1 w2 : background w w1 → sc_only w1 w2 → background w w2.
Proof.
  intros (Hp & Hi & Hb) [E S]. split_and!.
  - by eapply same_store_wf.
  - set (w1' := w1 <| w_cpu := w_cpu w2 |>). apply (icache_same_store r4k_decode w1').
    + unfold read_rel. rewrite E at 1. unfold w1'. assert (w_dev w2 = w_dev w1) as -> by (rewrite E; reflexivity). by destruct w1.
    + exact S.
    + destruct (background_cpu w w1 (w_cpu w2) (conj Hp (conj Hi Hb))) as (_ & ? & _). done.
  - intros x Hx. by rewrite (same_store_bytes _ _ _ S), Hb.
Qed.

(** The outcome of [execute], before the exception is handled. *)
Definition executed (o : r4k_exc + eff) (c c' : C) (x : r4k_exc) : Prop :=
  match o with
  | inl y => x = y ∧ c' = finish_instr y c
  | inr e => x = r4k_excNone ∧ ∃ c1, implements e c c1 ∧ c' = finish_instr (exit e) c1
  end.

Lemma r4k_execute_run prog s i o w : sim prog s w → prog !! m_pc s = Some i →
  is_jump i && in_slot s = false → effect i (view_at s) = Some o →
  ∃ x w', execute w = Done (x, w') ∧ executed o (w_cpu w) (w_cpu w') x ∧ background w w'.
Proof.
  intros [Hc Hph Hic Hl] Hi Hj He. destruct (Hl _ _ Hi) as (Hwf & Hr & Hs & Hb & Hw).
  pose proof Hc as [_ Hq _ Hpc Hfl _ _ _ _ _]. destruct (quiet_modes _ Hq) as (_ & _ & _ & H64 & Hcop & _).
  pose proof (convert_unmapped (w_cpu w) (pc (w_cpu w)) false true Hq) as Hconv. rewrite Hpc in Hconv.
  destruct (fetch_word r4k_decode (procno (w_cpu w)) false (m_pc s mod 2 ^ 29) w Hph Hic Hs Hb)
    as (w1 & w2 & Hf & Hrd & Ec1 & Hrel & Hic2).
  assert (w_cpu w2 = w_cpu w) as Ec2 by by rewrite (proj1 Hrel).
  assert (background w w2) as Hbg by (split_and!; [apply Hrel|done|apply Hrel]).
  assert (realises (instr_exec (decode (encode i)) (encode i) w2) o w2) as Hex.
  { apply instr_realises; rewrite ?Ec2; try done; [apply Hq| |by rewrite (effect_sim i s)].
    intros Hji. rewrite Hji in Hj. cbn in Hj. unfold in_slot in Hj. case_bool_decide as Hn; [done|].
    destruct (m_slot s); [destruct Hn; by eexists|apply Hfl]. }
  assert (∀ x w3, instr_exec (decode (encode i)) (encode i) w2 = Done (x, w3) →
    execute w = Done (if is_exc x r4k_excJump then r4k_excNone else x, w3 <| w_cpu := finish_instr x (w_cpu w3) |>)) as Hrun.
  { intros x w3 E. unfold execute. rewrite (bind_Done _ _ _ _ _ eq_refl).
    rewrite (bind_Done _ _ _ _ _ (on_cpu_same _ w _ (Hconv Hr))). cbv beta iota.
    rewrite (bind_Done _ _ _ _ _ (on_cpu_same (written (Some (m_pc s mod 2 ^ 29))) w _ eq_refl)). unfold fetch_instr. rewrite (bind_Done _ _ _ _ _ Hf). cbv beta iota. rewrite (bind_Done _ _ _ _ _ Hrd).
    unfold ICacheProps.decoded, r4k_decode. rewrite Hw, (bind_Done _ _ _ _ _ E). done. }
  destruct o as [x|e].
  - cbn in Hex. exists x, (w2 <| w_cpu := finish_instr x (w_cpu w2) |>).
    split; [rewrite (Hrun _ _ Hex)|split; [|by apply background_cpu]].
    + apply effect_traps in He. unfold trap_codes in He. rewrite !elem_of_cons, elem_of_nil in He.
      by repeat destruct He as [->|He].
    + cbn. by rewrite Ec2.
  - destruct Hex as (w3 & Hex & Him & Hsc). exists r4k_excNone, (w3 <| w_cpu := finish_instr (exit e) (w_cpu w3) |>).
    split; [|split].
    + rewrite (Hrun _ _ Hex). unfold exit. by destruct (e_flow e).
    + cbn. split; [done|]. exists (w_cpu w3). by rewrite <- Ec2.
    + by apply background_cpu, (background_sc w w2).
Qed.

Lemma r4k_step_sim prog s s' w : sim prog s w → mips_step prog s = Some s' →
  ∃ w', r4k_step w = Done (tt, w') ∧ sim prog s' w' ∧ same_bytes (w_phys w) (w_phys w').
Proof.
  intros Hsim Hstep. unfold mips_step in Hstep. destruct (prog !! m_pc s) as [i|] eqn:Hi; [|done]. cbn in Hstep.
  destruct (is_jump i && in_slot s) eqn:Hj; [done|].
  destruct (effect i (view_at s)) as [o|] eqn:He; [|done]. injection Hstep as <-.
  destruct (r4k_execute_run prog s i o w Hsim Hi Hj He) as (x & w1 & Hex & Ho & Hbg).
  pose proof Hsim as [Hc _ _ Hl]. pose proof (cs_awake _ _ Hc) as Haw.
  set (s' := match o with inl x => trap x s | inr e => advance e s end).
  assert (∃ c2, manage x (w_cpu w1) = Done (tt, c2) ∧ csim s' (accounted c2)) as (c2 & Hman & Hc2).
  { destruct o as [y|e].
    - destruct Ho as [-> Ec]. rewrite Ec. apply effect_traps in He as Hy. set (c1 := finish_instr y (w_cpu w)).
      assert (is_exc y r4k_excNone = false) as Hne
        by (unfold trap_codes in Hy; rewrite !elem_of_cons, elem_of_nil in Hy; by repeat destruct Hy as [->|Hy]).
      exists (clock (entered y c1)). split; [|by apply trap_sim].
      unfold manage. rewrite (bind_Done _ _ _ _ _ eq_refl), Hne. cbn [andb]. rewrite Hne.
      assert (stdby c1 = false) as Hs1 by (destruct (r4k_finish_run y (w_cpu w)) as (_ & _ & _ & _ & Es & _); by rewrite <- Haw, <- Es).
      rewrite (bind_Done _ _ _ _ _ (handle_trap_run y c1 Hy Hs1)). done.
    - destruct Ho as (-> & c1 & Him & Ec). rewrite Ec. exists (clock (finish_instr (exit e) c1)).
      pose proof (advance_sim s e i (w_cpu w) c1 Hc Him Hj He) as Hadv. split; [|exact Hadv].
      assert (quiet (finish_instr (exit e) c1)) as Hq.
      { eapply quiet_same; [|exact (cs_quiet _ _ Hadv)]. symmetry. apply (tk_status _ _ _ (clock_ticks _)). }
      unfold manage. rewrite (bind_Done _ _ _ _ _ eq_refl). destruct (quiet_modes _ Hq) as (_ & _ & _ & _ & _ & ->). done. }
  exists (w1 <| w_cpu := accounted c2 |>). split_and!.
  - unfold r4k_step. rewrite (bind_Done _ _ _ _ _ eq_refl), Haw. cbn [negb]. rewrite (bind_Done _ _ _ _ _ Hex).
    rewrite (bind_Done _ _ _ _ _ (on_cpu_run _ _ _ _ Hman)). done.
  - destruct (background_cpu w w1 (accounted c2) Hbg) as (? & ? & ?). split; try done. by eapply r4k_loaded_same.
  - apply Hbg.
Qed.

Fixpoint steps (n : nat) : st W unit :=
  match n with O => mret tt | S n' => r4k_step;; steps n' end.

(** C2: a processor in kernel mode with interrupts disabled, whose program lies in
    the unmapped segments, refines the abstract machine: as many simulator steps as
    the abstract machine takes end in a state with the abstract registers, program
    counter, pending jump and exception state, through delay slots, into exception
    handlers (EPC and the branch-delay bit as specified) and back; the bytes of
    memory are unchanged and the relation is re-established, for runs of every
    length. *)
Theorem r4k_run_refines prog n s s' w : sim prog s w → mips_run prog n s = Some s' →
  ∃ w', steps n w = Done (tt, w') ∧ sim prog s' w' ∧ same_bytes (w_phys w) (w_phys w').
Proof.
  revert s w. induction n as [|n IH]; intros s w Hsim Hrun; cbn in Hrun; [injection Hrun as <-; by exists w|].
  destruct (mips_step prog s) as [s1|] eqn:E1; [|done]. cbn in Hrun.
  destruct (r4k_step_sim prog s s1 w Hsim E1) as (w1 & Hstep & Hsim1 & Hb1).
  destruct (IH s1 w1 Hsim1 Hrun) as (w' & Hsteps & Hsim' & Hb').
  exists w'. cbn [steps]. rewrite (bind_Done _ _ _ _ _ Hstep). split_and!; [done|done|].
  intros a Ha. by rewrite Hb', Hb1.
Qed.
End Run.

(** ** A loop, and a system call in a delay slot *)
Definition main_code : list mips :=
  [AluImm ADDIU 1 0 5; AluImm ADDIU 2 0 0; AluImm ADDIU 1 1 (-1); Branch true false 1 0 (-2); Alu ADDU 2 2 1;
   Branch false false 0 0 1; Syscall; AluImm ADDIU 4 0 7].
(** The handler returns behind the jump whose delay slot made the call. *)
Definition handler_code : list mips := [MfEpc 3; AluImm ADDIU 3 3 8; MtEpc 3; Eret].

Definition nop : mips := Shift SLL 0 0 0.
Definition demo_words : list Z := encode <$> main_code ++ replicate 88 nop ++ handler_code.

Definition at_addr (base : Z) (l : list mips) : list (Z * mips) := zip ((λ k, base + 4 * k) <$> seqZ 0 (Z.of_nat (length l))) l.
Definition demo_list : list (Z * mips) := at_addr 0x80000000 main_code ++ at_addr 0x80000180 handler_code.
Definition demo_prog : gmap Z mips := list_to_map demo_list.

Definition demo_machine : R4kSample.W := R4kSample.machine R4kSample.kernel_cpu demo_words.
Definition demo_state : mips_state := mk_mips 0x80000000 None (λ _, 0) 0 0 0 false 0 false.

Lemma demo_loaded : loaded demo_prog (w_phys demo_machine).
Proof.
  intros a i Hi%elem_of_list_to_map_2. let l := eval vm_compute in demo_list in change demo_list with l in Hi.
  rewrite !elem_of_cons, elem_of_nil in Hi.
  repeat destruct Hi as [[= -> ->]|Hi]; try done;
    (split; [by vm_compute|split; [by vm_compute|split; [by vm_compute|split; [vm_compute; by eexists|by vm_compute]]]]).
Qed.

Lemma demo_sim : sim demo_prog demo_state demo_machine.
Proof.
  split; [|apply R4kSample.machine_wf|split; [constructor|by intros ci ?%not_elem_of_nil]|exact demo_loaded].
  split; try done.
Qed.

Lemma r4k_run_refines_witness : ∃ w', steps 24 demo_machine = Done (tt, w') ∧
  lo (reg 2 (w_cpu w')) = 10 ∧ lo (reg 3 (w_cpu w')) = 0x8000001c ∧ lo (reg 4 (w_cpu w')) = 7 ∧
  lo (pc (w_cpu w')) = 0x80000020.
Proof.
  assert ((λ s, (m_regs s 2, m_regs s 3, m_regs s 4, m_pc s)) <$> mips_run demo_prog 24 demo_state =
    Some (10, 0x8000001c, 7, 0x80000020)) as Hs by (vm_compute; reflexivity).
  destruct (mips_run demo_prog 24 demo_state) as [s'|] eqn:E; [|discriminate Hs].
  destruct (r4k_run_refines demo_prog 24 demo_state s' demo_machine demo_sim E) as (w' & Hrun & Hsim & _).
  exists w'. split; [exact Hrun|]. destruct (sim_cpu _ _ _ Hsim) as [_ _ _ Hpc _ Hr _ _ _ _].
  rewrite !Hr, Hpc. cbn in Hs. injection Hs as -> -> -> ->. split_and!; reflexivity.
Defined.
