(* ===== verification/R4kMemProps.v ===== *)
(** * Loads and stores of the R4000; departures from the architecture

    The pairs LWR/LWL and SWR/SWL access a word at any address through the two
    aligned words that contain it.  The overflow test of SUB is that of ADD; the
    reservation of LL compares an exact address with the start of a 64-byte line, so
    that most foreign stores go unnoticed by SC. *)

From S2P Require Import Prelude PhysMem Machine MachineProps R4kTypes R4kTlb R4kMem R4kComp R4kMemOps R4kDecode R4kCpu.
From S2P Require Import R4kInv R4kTlbProps R4kExec R4kRun RvSample R4kStepInv.
Import PhysMem.

(** ** The value of an unaligned word *)
Lemma word_join p a k : phys_wf p → 0 ≤ k < 4 →
  word_at p (a + k) = wrap 32 (Z.shiftr (Z.lor (word_at p a) (Z.shiftl (word_at p (a + 4)) 32)) (8 * k)).
Proof.
  intros Hwf Hk. set (g := λ x, default 0 (byte_at p x)).
  assert (∀ x, in_width 8 (g x)) as Hg by (intros x; by apply byte_at_width).
  assert (∀ b n, le_join g b (4 + n) = Z.lor (le_join g b 4) (Z.shiftl (le_join g (b + 4) n) 32)) as Hsplit.
  { intros b n. cbn [le_join Nat.add]. rewrite !Z.shiftl_lor, !Z.shiftl_shiftl by lia.
    replace (b + 1 + 1 + 1 + 1) with (b + 4) by lia. rewrite !Z.shiftl_0_l, Z.lor_0_r, <- !Z.lor_assoc. done. }
  change (Z.lor _ _) with (Z.lor (le_join g a 4) (Z.shiftl (le_join g (a + 4) 4) 32)). rewrite <- (Hsplit a 4%nat).
  change (word_at p (a + k)) with (le_join g (a + k) 4).
  rewrite <- (wrap_small 32 (le_join g (a + k) 4)) by (apply (le_join_width g (a + k) 4 Hg)).
  change 32 with (8 * Z.of_nat 4). rewrite <- (le_join_bytes (le_join g (a + k) 4) 0 4), <- (le_join_bytes _ 0 4).
  apply le_join_ext. intros j Hj. rewrite !Z.add_0_l, Z.sub_0_r, (le_byte_join g) by done.
  unfold le_byte. rewrite Z.shiftr_shiftr by lia. replace (8 * k + 8 * j) with (8 * (k + j)) by lia.
  change (wrap 8 (Z.shiftr ?v (8 * ?m))) with (le_byte v m). rewrite (le_byte_join g) by (done || lia).
  f_equal. lia.
Qed.

(** ** Combining the parts *)

(** Decides an equation between words bit by bit. *)
Ltac by_bits :=
  apply Z.bits_inj'; let n := fresh "n" in let Hn := fresh "Hn" in intros n Hn;
  repeat (rewrite ?Z.lor_spec, ?Z.land_spec, ?testbit_wrap, ?testbit_shiftl', ?testbit_c_not, ?testbit_ones, ?Z.shiftr_spec by lia);
  repeat match goal with
  | |- context [?a <? ?b] => destruct (Z.ltb_spec a b); try lia
  | |- context [?a <=? ?b] => destruct (Z.leb_spec a b); try lia
  end; cbn [andb orb negb]; rewrite ?andb_true_r, ?andb_false_r, ?orb_false_r; cbn [andb orb negb].

Ltac same_bit v := rewrite ?(testbit_high 32 v) by (done || lia); cbn [orb]; f_equal; lia.

(** LWR and LWL at the parts of a word [j] bytes behind an aligned address. *)
Lemma lwr_lwl j rt v0 v1 x : 0 < j < 4 → in_width 32 v0 → lo x = lwr_combine j rt v0 →
  lwl_combine (j - 1) x v1 = wrap 32 (Z.shiftr (Z.lor v0 (Z.shiftl v1 32)) (8 * j)).
Proof.
  intros Hj H0 Hx. unfold lwl_combine. assert (j = 1 ∨ j = 2 ∨ j = 3) as [->|[->| ->]] by lia;
    [change (tab_at shift_tab_left _) with (Z.ones 24, 24)|change (tab_at shift_tab_left _) with (Z.ones 16, 16)
    |change (tab_at shift_tab_left _) with (Z.ones 8, 8)];
    rewrite Hx; unfold lwr_combine, lo;
    [change (tab_at shift_tab_right _) with (Z.shiftl (Z.ones 8) 24, 8)
    |change (tab_at shift_tab_right _) with (Z.shiftl (Z.ones 16) 16, 16)
    |change (tab_at shift_tab_right _) with (Z.shiftl (Z.ones 24) 8, 24)];
    by_bits; try (f_equal; lia); same_bit v0.
Qed.

Lemma lwr_whole rt v : in_width 32 v → lwr_combine 0 rt v = v.
Proof.
  intros Hv. unfold lwr_combine. change (tab_at shift_tab_right 0) with (0, 0). cbv beta iota. rewrite Z.land_0_r, Z.shiftr_0_r, Z.lor_0_l.
  change (c_not 32 0) with (Z.ones 32). rewrite Z.land_ones by lia. by apply Z.mod_small.
Qed.

Lemma lwl_whole rt v : in_width 32 v → lwl_combine 3 rt v = v.
Proof.
  intros Hv. unfold lwl_combine. change (tab_at shift_tab_left 3) with (0, 0). cbv beta iota. rewrite Z.land_0_r, Z.shiftl_0_r, Z.lor_0_l.
  by apply lo_small.
Qed.

(** The bytes that SWR and SWL put into an aligned word. *)
Lemma swr_bytes j rt v k : 0 ≤ j < 4 → 0 ≤ k < 4 → in_width 32 v →
  le_byte (swr_combine j rt v) k = if k <? j then le_byte v k else le_byte rt (k - j).
Proof.
  intros Hj Hk Hv. unfold swr_combine, le_byte, lo.
  assert (tab_at shift_tab_right_store j = (Z.ones (8 * j), 8 * j)) as ->
    by (assert (j = 0 ∨ j = 1 ∨ j = 2 ∨ j = 3) as [->|[->|[->| ->]]] by lia; done).
  destruct (Z.ltb_spec k j); by_bits; try (f_equal; lia).
Qed.

Lemma swl_bytes j rt v k : 0 ≤ j < 4 → 0 ≤ k < 4 → in_width 32 v →
  le_byte (swl_combine j rt v) k = if k <=? j then le_byte rt (k + 3 - j) else le_byte v k.
Proof.
  intros Hj Hk Hv. unfold swl_combine, le_byte, lo.
  assert (tab_at shift_tab_left_store j = (Z.shiftl (Z.ones (8 * (3 - j))) (8 * (j + 1)), 8 * (3 - j))) as ->
    by (assert (j = 0 ∨ j = 1 ∨ j = 2 ∨ j = 3) as [->|[->|[->| ->]]] by lia; done).
  destruct (Z.leb_spec k j); by_bits; try (f_equal; lia).
Qed.

(** ** Words in the unmapped segments *)
Section Unmapped.
Context {D : Type} `{BoardOf r4k_cpu Fnc.instr_fnc D}.
Abbreviation W := (world r4k_cpu Fnc.instr_fnc D).
Implicit Types w : W.

(** Where the unmapped segments lie in physical memory. *)
Definition phys_of (virt : Z) : Z := lo virt mod 2 ^ 29.

(** Kernel mode with the watch registers off. *)
Record calm (c : C) : Prop := {
  ca_quiet : quiet c;
  ca_watch_r : truthy (cp0_watchlo_r c) = false;
  ca_watch_w : truthy (cp0_watchlo_w c) = false
}.

Lemma calm_same c c' : cp0 c' = cp0 c → calm c → calm c'.
Proof.
  intros E [Hq Hr Hw]. assert (∀ r, cp0r r c' = cp0r r c) as Ec by (intros r; unfold cp0r; by rewrite E).
  split; [by apply (quiet_same c)|unfold cp0_watchlo_r in *; by rewrite Ec|unfold cp0_watchlo_w in *; by rewrite Ec].
Qed.

Record unmapped_word w (virt : Z) : Prop := {
  um_calm : calm (w_cpu w);
  um_range : 2 ^ 31 ≤ lo virt < 3 * 2 ^ 30;
  um_aligned : virt mod 4 = 0;
  um_phys : phys_wf (w_phys w);
  um_rw : rw_word (w_phys w) (phys_of virt)
}.

Lemma phys_of_slot virt : virt mod 4 = 0 → slot_ok (phys_of virt).
Proof.
  intros Ha. unfold slot, phys_of, PHYS_LIMIT, lo, wrap. change (Z.of_nat 4) with 4.
  Z.to_euclidean_division_equations. lia.
Qed.

Lemma aligned_test virt (c : C) : virt mod 4 = 0 → align_test32 virt true c = Done (r4k_excNone, c).
Proof.
  intros Ha. unfold align_test32, align_test. change 0x03 with (Z.ones 2). rewrite Z.land_ones by lia.
  change (2 ^ 2) with 4. by rewrite Ha.
Qed.

Lemma access_unmapped mode virt (c : C) : calm c → 2 ^ 31 ≤ lo virt < 3 * 2 ^ 30 →
  access_mem mode virt true c = Done ((r4k_excNone, Some (phys_of virt)), c).
Proof.
  intros [Hq Hr Hw] Hv. unfold access_mem. rewrite (bind_Done _ _ _ _ _ (convert_unmapped c virt _ true Hq Hv)).
  rewrite (bind_Done _ _ _ _ _ eq_refl), Hr, Hw. done.
Qed.

Lemma unmapped_read_run virt w : unmapped_word w virt →
  ∃ w', r4k_read_mem32 virt true w = Done ((r4k_excNone, Some (word_at (w_phys w) (phys_of virt))), w') ∧
    same_store (w_phys w) (w_phys w') ∧ read_rel w w'.
Proof.
  intros [Hc Hv Ha Hp Hrw].
  destruct (read_slot 4 devmem_read32 (procno (w_cpu w)) (phys_of virt) true w) as (w' & Hrun & S & R); try done;
    [unfold access_size; tauto|by apply phys_of_slot|].
  exists w'. split; [|done]. unfold r4k_read_mem32, cpu_read_mem.
  rewrite (bind_Done _ _ _ _ _ (on_cpu_same _ w _ (aligned_test virt _ Ha))).
  rewrite (bind_Done _ _ _ _ _ (on_cpu_same _ w _ (access_unmapped AM_READ virt _ Hc Hv))). cbv beta iota.
  rewrite (bind_Done _ _ _ _ _ (on_cpu_same (written (Some (phys_of virt))) w _ eq_refl)), (bind_Done _ _ _ _ _ eq_refl).
  rewrite (bind_Done _ _ _ _ _ Hrun). change (value_at _ _ 4) with (word_at (w_phys w) (phys_of virt)).
  by rewrite wrap_small by (by apply word_at_width).
Qed.

Lemma unmapped_write_run virt v w : unmapped_word w virt →
  ∃ w', cpu_write_mem32 virt v true w = Done (r4k_excNone, w') ∧ phys_wf (w_phys w') ∧ write_rel w w' ∧
    (∀ a, 0 ≤ a < PHYS_LIMIT → rw_word (w_phys w) a → rw_word (w_phys w') a) ∧
    ∀ x, 0 ≤ x < PHYS_LIMIT → byte_at (w_phys w') x =
      if decide (phys_of virt ≤ x < phys_of virt + 4) then Some (le_byte v (x - phys_of virt)) else byte_at (w_phys w) x.
Proof.
  intros [Hc Hv Ha Hp (f & ar & Hf & Har & Hw)]. pose proof (phys_of_slot virt Ha) as Hs.
  destruct (world_write devmem_write32 4 (procno (w_cpu w)) (phys_of virt) v true f ar w Hp (proj1 Hs))
    as (w' & Hrun & Hp' & Hrel & Hl & Hb); [apply slot_no_cross; [unfold access_size; tauto|done]|done|done|by rewrite Hw|].
  exists w'. split_and!; [|done|done| |done].
  - unfold cpu_write_mem32, cpu_write_mem.
    rewrite (bind_Done _ _ _ _ _ (on_cpu_same _ w _ (aligned_test virt _ Ha))).
    rewrite (bind_Done _ _ _ _ _ (on_cpu_same _ w _ (access_unmapped AM_WRITE virt _ Hc Hv))). cbv beta iota.
    rewrite (bind_Done _ _ _ _ _ (on_cpu_same (written (Some (phys_of virt))) w _ eq_refl)), (bind_Done _ _ _ _ _ eq_refl).
    by rewrite (bind_Done _ _ _ _ _ Hrun).
  - intros a Ha' Hrw. eapply write_keeps_rw; [|exact Hp|exact Hs| |exact Hrun|done|done];
      [unfold access_size; tauto|by exists f, ar].
Qed.

(** ** Unaligned words *)

(** The word at [a], in writable memory and in one segment. *)
Record unmapped_bytes w (a : Z) : Prop := {
  ub_calm : calm (w_cpu w);
  ub_width : in_width 64 a;
  ub_low : 2 ^ 31 ≤ lo a;
  ub_high : lo a + 3 < 3 * 2 ^ 30;
  ub_segment : phys_of a + 3 < 2 ^ 29;
  ub_phys : phys_wf (w_phys w);
  ub_first : rw_word (w_phys w) (phys_of a);
  ub_last : rw_word (w_phys w) (phys_of a + 3)
}.

Lemma rw_word_page p x y : x / 4096 = y / 4096 → rw_word p x → rw_word p y.
Proof.
  intros E (f & ar & Hf & Har). exists f, ar. split; [|done]. rewrite <- Hf. by apply lookup_frame_same.
Qed.

Lemma word_base_mod a : in_width 64 a → word_base a = a - a mod 4 ∧ Z.land a 0x03 = a mod 4.
Proof.
  intros Ha. split; [|by apply (Z.land_ones a 2)]. unfold word_base. change 0x03 with (Z.ones 2).
  assert (Z.land a (c_not 64 (Z.ones 2)) = Z.ldiff a (Z.ones 2)) as ->.
  { apply Z.bits_inj'. intros n Hn. rewrite Z.land_spec, Z.ldiff_spec, testbit_c_not by lia.
    destruct (Z.ltb_spec n 64); [done|]. by rewrite (testbit_high 64 a). }
  rewrite Z.ldiff_ones_r, Z.shiftl_mul_pow2, Z.shiftr_div_pow2 by lia. change (2 ^ 2) with 4.
  pose proof (Z.div_mod a 4). lia.
Qed.

Lemma phys_of_mod a : phys_of a = a mod 2 ^ 29.
Proof.
  unfold phys_of, lo, wrap. change (2 ^ 32) with (2 ^ 29 * 8). rewrite Z.rem_mul_r by lia.
  rewrite (Z.mul_comm (2 ^ 29)), Z.mod_add, Z.mod_mod by lia. done.
Qed.

(** The part of the word that begins [k] bytes behind it lies in the aligned word
    [a + k - (a + k) mod 4]. *)
Lemma part_word w a k : unmapped_bytes w a → k = 0 ∨ k = 3 →
  let x := a + k in let b := x - x mod 4 in
  unmapped_word w b ∧ phys_of b = phys_of a + k - (a + k) mod 4 ∧ word_base (u64 x) = b ∧ Z.land (u64 x) 0x03 = x mod 4.
Proof.
  intros [Hc Hw Hl Hh Hs Hp H1 H2] Hk x b.
  assert (0 ≤ k ≤ 3) as Hk3 by lia.
  assert (in_width 64 x) as Hx.
  { unfold in_width, x, lo, wrap in *. change (2 ^ 64) with (2 ^ 32 * 2 ^ 32) in *. Z.to_euclidean_division_equations; lia. }
  assert (u64 x = x) as -> by (by apply wrap_small). destruct (word_base_mod x Hx) as [Eb Ei].
  assert (phys_of b = phys_of a + k - x mod 4) as Epb.
  { rewrite !phys_of_mod in *. unfold b, x in *. Z.to_euclidean_division_equations; lia. }
  split_and!; [|done|done|done]. split; try done.
  - unfold b, x, lo, wrap in *. Z.to_euclidean_division_equations; lia.
  - unfold b. rewrite Zminus_mod_idemp_r. by rewrite Z.sub_diag.
  - rewrite Epb. assert (0 ≤ phys_of a ∧ (phys_of a + k) mod 4 = x mod 4) as [H0 E4].
    { rewrite phys_of_mod. unfold x. Z.to_euclidean_division_equations; lia. }
    apply (rw_word_page _ (phys_of a + k)); [|destruct Hk as [->| ->]; by rewrite ?Z.add_0_r].
    rewrite <- E4. Z.to_euclidean_division_equations; lia.
Qed.

Lemma unmapped_bytes_same w w' a : same_store (w_phys w) (w_phys w') → cp0 (w_cpu w') = cp0 (w_cpu w) →
  unmapped_bytes w a → unmapped_bytes w' a.
Proof.
  intros S Ec []. split; try done; [by apply (calm_same (w_cpu w))|by eapply same_store_wf|by eapply rw_word_same..].
Qed.

(** The value that a partial load gives the register, from the word that contains
    the address [x]. *)
Definition lwl_value (x rt v : Z) : Z := sign_extend_32_64 (lwl_combine (x mod 4) rt v).
Definition lwr_value (x rt v : Z) : Z :=
  let comb := lwr_combine (x mod 4) rt v in if x mod 4 =? 0 then sign_extend_32_64 comb else comb.

Lemma partial_load_run (f : st W r4k_exc) value i w a k :
  (f = instr_lwl i ∧ value = lwl_value) ∨ (f = instr_lwr i ∧ value = lwr_value) →
  effective_addr i (w_cpu w) = u64 (a + k) → unmapped_bytes w a → k = 0 ∨ k = 3 →
  ∃ w1, f w = Done (r4k_excNone, w1) ∧ same_store (w_phys w) (w_phys w1) ∧
    w_cpu w1 = set_reg (f_rt i) (value (a + k) (reg (f_rt i) (w_cpu w))
      (word_at (w_phys w) (phys_of a + k - (a + k) mod 4))) (w_cpu w).
Proof.
  intros Hf He Hb Hk. destruct (part_word w a k Hb Hk) as (Hword & Ep & Ebase & Eidx).
  destruct (unmapped_read_run _ w Hword) as (w1 & Hrd & S & R). rewrite Ep, <- Ebase, <- He in Hrd.
  assert (w_cpu w1 = w_cpu w) as Ec by by apply read_rel_cpu.
  destruct Hf as [[-> ->]|[-> ->]]; eexists;
    (split; [unfold instr_lwl, instr_lwr; rewrite (bind_Done _ _ _ _ _ eq_refl), (bind_Done _ _ _ _ _ Hrd); reflexivity|]);
    (split; [done|]); cbn; rewrite Ec; unfold rt_val, lwl_value, lwr_value; rewrite He, Eidx; done.
Qed.

(** The encodings of the partial accesses. *)
Definition LWL rt off rs : Z := mk_i 34 rs rt off.
Definition LWR rt off rs : Z := mk_i 38 rs rt off.
Definition SWL rt off rs : Z := mk_i 42 rs rt off.
Definition SWR rt off rs : Z := mk_i 46 rs rt off.

Lemma effective_of op rs rt off (c : C) : in_width 6 op → is_reg rs = true → is_reg rt = true → signed16 off = true →
  effective_addr (mk_i op rs rt off) c = u64 (reg rs c + off).
Proof.
  intros Ho Hs%is_reg_width Ht%is_reg_width Hoff. unfold effective_addr, rs_val.
  rewrite i_rs, i_imm, sext_imm64 by done. unfold u64. by rewrite <- (wrap_add_r 64 _ off).
Qed.

Lemma set_reg_twice r v v' (c : C) : set_reg r v' (set_reg r v c) = set_reg r v' c.
Proof. unfold set_reg. cbn. by rewrite insert_insert_eq. Qed.

Lemma lwr_combine_width j rt v : in_width 32 (lwr_combine j rt v).
Proof.
  unfold lwr_combine. destruct (tab_at _ _) as [m s]. apply lor_width; [lia|apply land_width_l; [lia|apply lo_width]|].
  apply land_width_r; [lia|]. by apply c_not_width.
Qed.

Lemma pair_value p a rt : phys_wf p →
  lwl_value (a + 3) (lwr_value (a + 0) rt (word_at p (phys_of a + 0 - (a + 0) mod 4)))
    (word_at p (phys_of a + 3 - (a + 3) mod 4)) = sign_extend_32_64 (word_at p (phys_of a)).
Proof.
  intros Hp. rewrite !Z.add_0_r. set (P := phys_of a). unfold lwl_value, lwr_value. set (j := a mod 4).
  pose proof (Z.mod_pos_bound a 4 ltac:(lia)) as Hj. fold j in Hj. f_equal. destruct (Z.eqb_spec j 0) as [Ej|Ej].
  - assert ((a + 3) mod 4 = 3) as -> by (unfold j in *; Z.to_euclidean_division_equations; lia).
    rewrite lwl_whole by (by apply word_at_width). f_equal. lia.
  - assert ((a + 3) mod 4 = j - 1) as -> by (unfold j in *; Z.to_euclidean_division_equations; lia).
    rewrite (lwr_lwl j rt (word_at p (P - j))); [|lia|by apply word_at_width|apply lo_small, lwr_combine_width].
    replace (P + 3 - (j - 1)) with (P - j + 4) by lia. rewrite <- word_join by (done || lia). f_equal. lia.
Qed.

(** C29: in kernel mode, LWR at an address and LWL three bytes further load the word
    at that address, aligned or not, sign-extended, into the register; nothing else
    of the processor and no byte of memory changes. *)
Theorem unaligned_load rs rt off w : let c := w_cpu w in let a := u64 (reg rs c + off) in
  is_reg rs = true → is_reg rt = true → rs ≠ rt → signed16 off = true → signed16 (off + 3) = true →
  unmapped_bytes w a →
  ∃ w1 w2, instr_exec (decode (LWR rt off rs)) (LWR rt off rs) w = Done (r4k_excNone, w1) ∧
    instr_exec (decode (LWL rt (off + 3) rs)) (LWL rt (off + 3) rs) w1 = Done (r4k_excNone, w2) ∧
    w_cpu w2 = set_reg rt (sign_extend_32_64 (word_at (w_phys w) (phys_of a))) c ∧
    same_store (w_phys w) (w_phys w2).
Proof.
  intros c a Hs Ht Hne Ho Ho3 Hb. pose proof (is_reg_width _ Hs) as Hs5. pose proof (is_reg_width _ Ht) as Ht5.
  assert (decode (LWR rt off rs) = Fnc.instr_lwr ∧ decode (LWL rt (off + 3) rs) = Fnc.instr_lwl) as [-> ->]
    by (unfold LWR, LWL; rewrite !decode_i by (done || lia); done).
  assert (f_rt (LWR rt off rs) = rt ∧ f_rt (LWL rt (off + 3) rs) = rt) as [Er El] by (unfold LWR, LWL; by rewrite !i_rt).
  destruct (partial_load_run (instr_lwr (LWR rt off rs)) lwr_value (LWR rt off rs) w a 0) as (w1 & H1 & S1 & C1); auto.
  { unfold LWR. rewrite effective_of by done. unfold a, u64. by rewrite Z.add_0_r, wrap_idemp. }
  rewrite Er in C1.
  destruct (partial_load_run (instr_lwl (LWL rt (off + 3) rs)) lwl_value (LWL rt (off + 3) rs) w1 a 3)
    as (w2 & H2 & S2 & C2); auto.
  { unfold LWL. rewrite effective_of by done. rewrite C1, r4k_reg_set_reg, decide_False by done.
    unfold a, c, u64. rewrite wrap_add_l by lia. f_equal. lia. }
  { by eapply unmapped_bytes_same; [|rewrite C1|]. }
  rewrite El, C1, r4k_reg_set_reg, decide_True, set_reg_twice in C2 by done. exists w1, w2.
  split_and!; [done|done| |by etrans]. rewrite C2. f_equal. rewrite (word_at_same _ _ _ S1). apply pair_value, Hb.
Qed.

(** ** Unaligned stores *)
Lemma rw_byte p x : phys_wf p → 0 ≤ x < PHYS_LIMIT → rw_word p x → byte_at p x = Some (default 0 (byte_at p x)).
Proof.
  intros Hp Hx (f & ar & Hf & Har & _). destruct (lookup_frame_wf p x f Hp Hx Hf) as (_ & a & d & _ & _ & Ha & Hd & _).
  unfold byte_at. rewrite Hf. cbn. by rewrite Ha; cbn; rewrite Hd.
Qed.

Lemma word_byte p b k : phys_wf p → 0 ≤ k < 4 → le_byte (word_at p b) k = default 0 (byte_at p (b + k)).
Proof.
  intros Hp Hk. unfold word_at. rewrite (le_byte_join (λ x, default 0 (byte_at p x))); [done| |done].
  intros x. by apply byte_at_width.
Qed.

Lemma weaker_kept (c c' : C) : r4k_weaker c c' → cp0 c' = cp0 c ∧ regs c' = regs c.
Proof. by intros [->| ->]. Qed.

Lemma partial_store_run combine i w a k : effective_addr i (w_cpu w) = u64 (a + k) → unmapped_bytes w a → k = 0 ∨ k = 3 →
  let b := phys_of a + k - (a + k) mod 4 in
  ∃ w1, store_partial combine i w = Done (r4k_excNone, w1) ∧ phys_wf (w_phys w1) ∧ r4k_weaker (w_cpu w) (w_cpu w1) ∧
    (∀ x, 0 ≤ x < PHYS_LIMIT → rw_word (w_phys w) x → rw_word (w_phys w1) x) ∧
    ∀ x, 0 ≤ x < PHYS_LIMIT → byte_at (w_phys w1) x = if decide (b ≤ x < b + 4)
      then Some (le_byte (combine ((a + k) mod 4) (reg (f_rt i) (w_cpu w)) (word_at (w_phys w) b)) (x - b))
      else byte_at (w_phys w) x.
Proof.
  intros He Hb Hk b. destruct (part_word w a k Hb Hk) as (Hword & Ep & Ebase & Eidx).
  destruct (unmapped_read_run _ w Hword) as (w1 & Hrd & S & R).
  assert (w_cpu w1 = w_cpu w) as Ec by by apply read_rel_cpu.
  assert (unmapped_word w1 (a + k - (a + k) mod 4)) as Hword1.
  { destruct Hword as [? ? ? Hp Hrw]. split; [by rewrite Ec|done|done|by eapply same_store_wf|by eapply rw_word_same]. }
  set (v := combine ((a + k) mod 4) (reg (f_rt i) (w_cpu w)) (word_at (w_phys w) b)).
  destruct (unmapped_write_run _ v w1 Hword1) as (w2 & Hwr & Hp2 & Hrel & Hrw & Hby). rewrite Ep in Hby, Hrd.
  exists w2. split_and!; [|done| | |].
  - unfold store_partial. rewrite (bind_Done _ _ _ _ _ eq_refl). rewrite He, Ebase.
    rewrite (bind_Done _ _ _ _ _ Hrd). cbv beta iota. rewrite (bind_Done _ _ _ _ _ eq_refl), Ec, Eidx. exact Hwr.
  - rewrite <- Ec. apply (wr_cpu _ _ Hrel).
  - intros x Hx Hw. apply Hrw; [done|]. by eapply rw_word_same.
  - intros x Hx. rewrite Hby, (same_store_bytes _ _ _ S) by done. done.
Qed.

(** A byte of a word that the partial store leaves alone. *)
Lemma kept_byte p b k y : phys_wf p → 0 ≤ b → b mod 4 = 0 → b + 4 ≤ 2 ^ 29 → 0 ≤ k < 4 → b ≤ y < b + 4 → rw_word p y →
  Some (le_byte (word_at p b) k) = byte_at p (b + k).
Proof.
  intros Hp Hb Ha Hl Hk Hy Hrw. rewrite word_byte by done. symmetry. apply rw_byte; [done|unfold PHYS_LIMIT; lia|].
  apply (rw_word_page p y); [|done]. Z.to_euclidean_division_equations; lia.
Qed.

(** Both partial stores together. *)
Lemma pair_stored p p1 p2 a v : let q := phys_of a in
  phys_wf p → phys_wf p1 → q + 3 < 2 ^ 29 → rw_word p q → rw_word p1 (q + 3) →
  (∀ x, 0 ≤ x < PHYS_LIMIT → byte_at p1 x = if decide (q - a mod 4 ≤ x < q - a mod 4 + 4)
     then Some (le_byte (swr_combine (a mod 4) v (word_at p (q - a mod 4))) (x - (q - a mod 4))) else byte_at p x) →
  (∀ x, 0 ≤ x < PHYS_LIMIT → byte_at p2 x = if decide (q + 3 - (a + 3) mod 4 ≤ x < q + 3 - (a + 3) mod 4 + 4)
     then Some (le_byte (swl_combine ((a + 3) mod 4) v (word_at p1 (q + 3 - (a + 3) mod 4))) (x - (q + 3 - (a + 3) mod 4)))
     else byte_at p1 x) →
  ∀ x, 0 ≤ x < PHYS_LIMIT → byte_at p2 x = if decide (q ≤ x < q + 4) then Some (le_byte v (x - q)) else byte_at p x.
Proof.
  intros q Hp Hp1 Hq Hrw Hrw1 B1 B2 x Hx. rewrite B2 by done.
  assert (0 ≤ q ∧ q mod 4 = a mod 4) as [Hq0 Eq4]
    by (unfold q; rewrite phys_of_mod; Z.to_euclidean_division_equations; lia).
  set (j := a mod 4) in *. pose proof (Z.mod_pos_bound a 4 ltac:(lia)) as Hj. fold j in Hj.
  assert ((a + 3) mod 4 = if decide (j = 0) then 3 else j - 1) as ->
    by (case_decide; unfold j in *; Z.to_euclidean_division_equations; lia).
  assert ((q - j) mod 4 = 0 ∧ 0 ≤ q - j) as [Hm0 Hb0] by (Z.to_euclidean_division_equations; lia).
  destruct (decide (j = 0)) as [E|E].
  - rewrite (B1 x Hx), E. replace (q + 3 - 3) with q by lia. rewrite Z.sub_0_r. case_decide; [|done].
    rewrite swl_bytes by (lia || by apply word_at_width). destruct (Z.leb_spec (x - q) 3); [|lia]. do 2 f_equal. lia.
  - replace (q + 3 - (j - 1)) with (q - j + 4) by lia. case_decide as H1.
    + rewrite swl_bytes by (lia || by apply word_at_width). destruct (Z.leb_spec (x - (q - j + 4)) (j - 1)).
      * rewrite decide_True by lia. do 2 f_equal. lia.
      * rewrite decide_False by lia. rewrite (kept_byte p1 (q - j + 4) _ (q + 3)) by (done || lia || (Z.to_euclidean_division_equations; lia)).
        replace (q - j + 4 + (x - (q - j + 4))) with x by lia. rewrite (B1 x Hx). by rewrite decide_False by lia.
    + rewrite (B1 x Hx). case_decide as H2; [|by rewrite decide_False by lia].
      rewrite swr_bytes by (lia || by apply word_at_width). destruct (Z.ltb_spec (x - (q - j)) j).
      * rewrite decide_False by lia. rewrite (kept_byte p (q - j) _ q) by (done || lia). f_equal. lia.
      * rewrite decide_True by lia. do 2 f_equal. lia.
Qed.

(** In kernel mode, SWR at an address and SWL three bytes further store the four
    bytes of the register at that address, aligned or not; every other byte of
    memory keeps its value, and of the processor only a reservation can be lost. *)
Theorem unaligned_store rs rt off w : let c := w_cpu w in let a := u64 (reg rs c + off) in
  is_reg rs = true → is_reg rt = true → signed16 off = true → signed16 (off + 3) = true → unmapped_bytes w a →
  ∃ w1 w2, instr_exec (decode (SWR rt off rs)) (SWR rt off rs) w = Done (r4k_excNone, w1) ∧
    instr_exec (decode (SWL rt (off + 3) rs)) (SWL rt (off + 3) rs) w1 = Done (r4k_excNone, w2) ∧
    r4k_weaker c (w_cpu w2) ∧
    ∀ x, 0 ≤ x < PHYS_LIMIT → byte_at (w_phys w2) x =
      if decide (phys_of a ≤ x < phys_of a + 4) then Some (le_byte (reg rt c) (x - phys_of a)) else byte_at (w_phys w) x.
Proof.
  intros c a Hs Ht Ho Ho3 Hb. pose proof (is_reg_width _ Hs) as Hs5. pose proof (is_reg_width _ Ht) as Ht5.
  assert (decode (SWR rt off rs) = Fnc.instr_swr ∧ decode (SWL rt (off + 3) rs) = Fnc.instr_swl) as [-> ->]
    by (unfold SWR, SWL; rewrite !decode_i by (done || lia); done).
  assert (f_rt (SWR rt off rs) = rt ∧ f_rt (SWL rt (off + 3) rs) = rt) as [Er El] by (unfold SWR, SWL; by rewrite !i_rt).
  destruct (partial_store_run swr_combine (SWR rt off rs) w a 0) as (w1 & H1 & P1 & C1 & W1 & B1); auto.
  { unfold SWR. rewrite effective_of by done. unfold a, u64. by rewrite Z.add_0_r, wrap_idemp. }
  destruct (weaker_kept _ _ C1) as [K1 K2]. assert (∀ r, reg r (w_cpu w1) = reg r c) as Kr by (intros r; unfold reg; by rewrite K2).
  pose proof Hb as [Hc Hw Hl Hh Hsg Hp Hf Hla].
  assert (0 ≤ phys_of a) as HP by (rewrite phys_of_mod; apply Z.mod_pos_bound; lia).
  destruct (partial_store_run swl_combine (SWL rt (off + 3) rs) w1 a 3) as (w2 & H2 & P2 & C2 & W2 & B2); auto.
  { unfold SWL. rewrite effective_of, Kr by done. unfold a, u64. rewrite wrap_add_l by lia. f_equal. lia. }
  { split; try done; [by apply (calm_same (w_cpu w))|apply W1|apply W1]; unfold PHYS_LIMIT; done || lia. }
  exists w1, w2. split_and!; [exact H1|exact H2|by etrans|]. intros x Hx.
  rewrite Er in B1. rewrite El, Kr in B2. rewrite !Z.add_0_r in B1.
  apply (pair_stored (w_phys w) (w_phys w1) (w_phys w2) a (reg rt c) Hp P1 Hsg Hf); [|exact B1|exact B2|exact Hx].
  apply W1; [unfold PHYS_LIMIT; lia|done].
Qed.
End Unmapped.

(** A word that straddles two aligned ones. *)
Definition straddle_cpu : C := set_reg 1 0xffffffff80000101 (set_reg 2 0x12345678 R4kSample.kernel_cpu).
Definition straddle_machine : R4kSample.W := R4kSample.machine straddle_cpu (replicate 64 0 ++ [0xaabbccdd; 0x00000099]).

Lemma straddle_rw a f : lookup_frame (w_phys straddle_machine) a = Some f → frame_area f = 1 →
  rw_word (w_phys straddle_machine) a.
Proof. intros Hf Ha. eexists f, _. split; [exact Hf|]. rewrite Ha. split; reflexivity. Qed.

Lemma straddle_bytes : unmapped_bytes straddle_machine 0xffffffff80000101.
Proof.
  split; [split; [split; vm_compute; reflexivity|vm_compute; reflexivity..]|unfold in_width; lia|vm_compute; congruence..
    |apply R4kSample.machine_wf|eapply straddle_rw; vm_compute; reflexivity|eapply straddle_rw; vm_compute; reflexivity].
Qed.

Lemma unaligned_load_witness : ∃ w1 w2,
  instr_exec (decode (LWR 2 0 1)) (LWR 2 0 1) straddle_machine = Done (r4k_excNone, w1) ∧
  instr_exec (decode (LWL 2 3 1)) (LWL 2 3 1) w1 = Done (r4k_excNone, w2) ∧ reg 2 (w_cpu w2) = 0xffffffff99aabbcc.
Proof.
  destruct (unaligned_load 1 2 0 straddle_machine) as (w1 & w2 & H1 & H2 & Hc & _); [done..|exact straddle_bytes|].
  exists w1, w2. split; [exact H1|]. split; [exact H2|]. rewrite Hc, r4k_reg_set_reg. vm_compute. reflexivity.
Defined.

Lemma unaligned_store_witness : ∃ w1 w2,
  instr_exec (decode (SWR 2 0 1)) (SWR 2 0 1) straddle_machine = Done (r4k_excNone, w1) ∧
  instr_exec (decode (SWL 2 3 1)) (SWL 2 3 1) w1 = Done (r4k_excNone, w2) ∧
  byte_at (w_phys w2) 0x101 = Some 0x78 ∧ byte_at (w_phys w2) 0x104 = Some 0x12 ∧
  byte_at (w_phys w2) 0x100 = Some 0xdd.
Proof.
  destruct (unaligned_store 1 2 0 straddle_machine) as (w1 & w2 & H1 & H2 & _ & Hb); [done..|exact straddle_bytes|].
  exists w1, w2. split; [exact H1|]. split; [exact H2|].
  split_and!; rewrite Hb by (unfold PHYS_LIMIT; lia); vm_compute; reflexivity.
Defined.

(** ** Subtraction *)
Lemma sub_test x y : in_width 32 x → in_width 32 y →
  overflows SBIT32 x y (lo (x - y)) =
  ((0 <=? sgn 32 x) && (sgn 32 x <? sgn 32 y)) || ((sgn 32 y <=? sgn 32 x) && (sgn 32 x <? 0)).
Proof.
  intros Hx Hy. unfold overflows. rewrite !sign_xor by (done || apply lo_width). rewrite !sgn32 by done.
  unfold in_width in *. assert (lo (x - y) = if y <=? x then x - y else x - y + 2 ^ 32) as ->.
  { unfold lo, wrap. destruct (Z.leb_spec y x); [apply Z.mod_small; lia|]. symmetry. apply (Z.mod_unique _ _ (-1)); lia. }
  destruct (Z.leb_spec (2 ^ 31) x), (Z.leb_spec (2 ^ 31) y), (Z.leb_spec y x);
    repeat match goal with |- context [?a <=? ?b] => destruct (Z.leb_spec a b)
      | |- context [?a <? ?b] => destruct (Z.ltb_spec a b) end; cbn; lia || done.
Qed.

(** The encoding of SUB. *)
Definition SUB rd rs rt : Z := mk_r 0 34 rs rt rd 0.

Section Sub.
Context {D : Type} `{BoardOf r4k_cpu Fnc.instr_fnc D}.
Abbreviation W := (world r4k_cpu Fnc.instr_fnc D).

(** C32: SUB raises the overflow exception for a smaller number minus a larger one of
    the same non-negative sign, and for negative numbers with a non-negative
    difference, where nothing overflows; where the difference does overflow it
    writes the wrapped result and raises nothing. *)
Theorem sub_overflow_inverted rd rs rt (w : W) :
  let x := sgn 32 (reg rs (w_cpu w)) in let y := sgn 32 (reg rt (w_cpu w)) in
  is_reg rd = true → is_reg rs = true → is_reg rt = true →
  (0 ≤ x < y ∨ y ≤ x < 0 → instr_exec (decode (SUB rd rs rt)) (SUB rd rs rt) w = Done (r4k_excOv, w)) ∧
  (x - y < - 2 ^ 31 ∨ 2 ^ 31 ≤ x - y → ∃ c', instr_exec (decode (SUB rd rs rt)) (SUB rd rs rt) w =
     Done (r4k_excNone, w <| w_cpu := c' |>) ∧ lo (reg rd c') = (x - y) mod M32).
Proof.
  intros x y Hd%is_reg_width Hs%is_reg_width Ht%is_reg_width.
  assert (decode (SUB rd rs rt) = Fnc.instr_sub) as -> by (unfold SUB; rewrite decode_r by narrow; done).
  assert (R4kComp.instr_sub (SUB rd rs rt) (w_cpu w) =
    (if ((0 <=? x) && (x <? y)) || ((y <=? x) && (x <? 0)) then mret r4k_excOv
     else write_rd (SUB rd rs rt) (λ _, sign_extend_32_64 (lo (lo (reg rs (w_cpu w)) - lo (reg rt (w_cpu w)))))) (w_cpu w)) as E.
  { unfold R4kComp.instr_sub. rewrite (bind_Done _ _ _ _ _ eq_refl). unfold rs_val, rt_val, SUB.
    rewrite r_rs, r_rt, sub_test, !sgn_lo by (narrow || apply lo_width). done. }
  pose proof (sgn_range 32 (reg rs (w_cpu w)) ltac:(lia)) as Rx. pose proof (sgn_range 32 (reg rt (w_cpu w)) ltac:(lia)) as Ry.
  fold x in Rx. fold y in Ry. change (2 ^ (32 - 1)) with (2 ^ 31) in *. split; intros Hc; cbn [instr_exec].
  - rewrite (on_cpu_run _ w r4k_excOv (w_cpu w)); [by destruct w|]. rewrite E.
    destruct (Z.leb_spec 0 x), (Z.ltb_spec x y), (Z.leb_spec y x), (Z.ltb_spec x 0); cbn; done || lia.
  - exists (set_reg rd (sign_extend_32_64 (lo (lo (reg rs (w_cpu w)) - lo (reg rt (w_cpu w))))) (w_cpu w)). split.
    + apply on_cpu_run. rewrite E. unfold write_rd, SUB. rewrite r_rd by narrow.
      destruct (Z.leb_spec 0 x), (Z.ltb_spec x y), (Z.leb_spec y x), (Z.ltb_spec x 0); cbn; done || lia.
    + rewrite r4k_reg_set_reg, decide_True, lo_sext, lo_lo by done. unfold x, y.
      destruct (sgn_congr 32 (reg rs (w_cpu w)) ltac:(lia)) as [k ->], (sgn_congr 32 (reg rt (w_cpu w)) ltac:(lia)) as [l ->].
      unfold lo, wrap, M32. rewrite <- Zminus_mod. apply (wrap_eq_add 32 _ _ (l - k)); lia.
Qed.
End Sub.

(** One minus two, and the smallest number minus one. *)
Lemma sub_overflow_inverted_witness :
  (let w := R4kSample.machine (set_reg 1 1 (set_reg 2 2 R4kSample.kernel_cpu)) [] in
   instr_exec (decode (SUB 3 1 2)) (SUB 3 1 2) w = Done (r4k_excOv, w)) ∧
  (let w := R4kSample.machine (set_reg 1 0x80000000 (set_reg 2 1 R4kSample.kernel_cpu)) [] in
   ∃ c', instr_exec (decode (SUB 3 1 2)) (SUB 3 1 2) w = Done (r4k_excNone, w <| w_cpu := c' |>) ∧ lo (reg 3 c') = 0x7fffffff).
Proof.
  split; intros w.
  - apply (sub_overflow_inverted 3 1 2 w); [reflexivity..|]. left. vm_compute. split; congruence.
  - apply (sub_overflow_inverted 3 1 2 w); [reflexivity..|]. left. vm_compute. congruence.
Defined.

(** ** Reservations *)
Section Reservation.
Context {D : Type} `{BoardOf r4k_cpu Fnc.instr_fnc D}.
Abbreviation W := (world r4k_cpu Fnc.instr_fnc D).
Implicit Types w : W.

(** The current processor is untouched if it reserved an address inside a line. *)
Definition untouched w w' : Prop := lladdr (w_cpu w) mod 64 ≠ 0 → w_cpu w' = w_cpu w.

#[local] Instance untouched_preorder : PreOrder untouched.
Proof. split; [by intros w _|]. intros w1 w2 w3 E1 E2 Hn. rewrite E2, E1; [done..|]. by rewrite E1. Qed.

Lemma align_64 addr : ALIGN_DOWN addr 64 mod 64 = 0.
Proof.
  unfold ALIGN_DOWN. change (64 - 1) with (Z.ones 6). rewrite <- Z.ldiff_land, Z.ldiff_ones_r, Z.shiftl_mul_pow2 by lia.
  by apply Z.mod_mul.
Qed.

Lemma sc_access_misses addr size c : lladdr c mod 64 ≠ 0 → r4k_sc_access addr size c = (false, c).
Proof.
  intros Hn. unfold r4k_sc_access. destruct (Z.eqb_spec (lladdr c) (ALIGN_DOWN addr 64)) as [E|]; [|done].
  destruct Hn. rewrite E. apply align_64.
Qed.

Lemma with_first_untouched p addr size w b w' :
  with_first_cpu p (core_sc_access addr size) w = Some (b, w') → untouched w w'.
Proof.
  unfold with_first_cpu. intros E Hn. destruct (update_first p _ (w_before w)) as [[]|]; [by injection E as <- <-|].
  destruct (p (w_cpu w)).
  - cbn [core_sc_access r4k_core] in E. rewrite sc_access_misses in E by done. by injection E as <- <-.
  - destruct (update_first p _ (w_after w)) as [[]|]; [by injection E as <- <-|done].
Qed.

Lemma store_untouched devmem n procno addr val protected f w b w' :
  phys_wf (w_phys w) → lookup_frame (w_phys w) addr = Some f →
  physmem_write devmem n procno addr val protected w = Done (b, w') → untouched w w'.
Proof.
  intros Hwf Hf Hrun. eapply (steps_write untouched); [..|exact Hrun].
  - intros p w1 _. done.
  - intros w1 a w2. cbn. unfold modify. by intros [= _ <-] _.
  - intros h x size w1 b' w2. cbn. unfold cpu_sc_access.
    repeat (destruct (with_first_cpu _ _ _) as [[? ?]|] eqn:E; [intros [= <- <-]; by eapply with_first_untouched|clear E]). done.
  - by eapply mapped_frame.
Qed.

(** The encoding of SC. *)
Definition SC rt off rs : Z := mk_i 56 rs rt off.

Lemma sc_run rs rt off w : let a := u64 (reg rs (w_cpu w) + off) in
  is_reg rs = true → is_reg rt = true → signed16 off = true → unmapped_word w a → llbit (w_cpu w) = true →
  ∃ w', instr_exec (decode (SC rt off rs)) (SC rt off rs) w = Done (r4k_excNone, w') ∧ reg rt (w_cpu w') = 1 ∧
    word_at (w_phys w') (phys_of a) = lo (reg rt (w_cpu w)).
Proof.
  intros a Hs Ht Ho Hw Hll. pose proof (is_reg_width _ Hs). pose proof (is_reg_width _ Ht).
  assert (decode (SC rt off rs) = Fnc.instr_sc) as -> by (unfold SC; by rewrite decode_i by (done || lia)).
  cbn [instr_exec]. unfold instr_sc, store_conditional. rewrite (bind_Done _ _ _ _ _ eq_refl), Hll. cbn [negb].
  assert (effective_addr (SC rt off rs) (w_cpu w) = a) as -> by (by apply effective_of).
  unfold rt_val. assert (f_rt (SC rt off rs) = rt) as -> by (by apply i_rt).
  destruct (unmapped_write_run a (lo (reg rt (w_cpu w))) w Hw) as (w1 & Hwr & Hp1 & Hrel & _ & Hb).
  destruct (weaker_kept _ _ (wr_cpu _ _ Hrel)) as [K1 K2]. destruct Hw as [Hc Hr Ha Hp _].
  rewrite (bind_Done _ _ _ _ _ Hwr). cbv beta iota.
  set (w2 := w1 <| w_cpu := set_reg rt 1 (w_cpu w1) |>).
  assert (quiet (w_cpu w2)) as Hq by (apply (calm_same (w_cpu w) (w_cpu w2) K1 Hc)).
  assert ((cpu_modify (set_reg rt 1);; '(_, phys) ← on_cpu (r4k_convert_addr a false false); on_cpu (written phys);; mret tt) w1
    = Done (tt, w2)) as Hmid.
  { rewrite (bind_Done _ _ _ _ _ (on_cpu_run (modify (set_reg rt 1)) w1 tt _ eq_refl)). fold w2.
    rewrite (bind_Done _ _ _ _ _ (on_cpu_same _ w2 _ (convert_unmapped (w_cpu w2) a false false Hq Hr))). cbv beta iota.
    by rewrite (bind_Done _ _ _ _ _ (on_cpu_same (written (Some (lo a mod 2 ^ 29))) w2 _ eq_refl)). }
  rewrite (bind_Done _ _ _ _ _ Hmid). eexists. split; [reflexivity|]. split.
  - cbn. unfold reg. cbn. by rewrite lookup_insert_eq.
  - change (word_at (w_phys w1) (phys_of a) = lo (reg rt (w_cpu w))). pose proof (phys_of_slot a Ha) as Hslot.
    pose proof (value_at_stored 4 (w_phys w) (w_phys w1) (phys_of a) (lo (reg rt (w_cpu w)))
      ltac:(unfold access_size; tauto) Hslot (lo_width _) Hb (phys_of a) Hslot) as Hv.
    by rewrite decide_True in Hv.
Qed.

(** The encoding of LL. *)
Definition LL rt off rs : Z := mk_i 48 rs rt off.

(** LL of a word in memory loads it and reserves its address. *)
Lemma ll_run rs rl off w : let a := u64 (reg rs (w_cpu w) + off) in
  is_reg rs = true → is_reg rl = true → signed16 off = true → unmapped_word w a →
  ∃ w', instr_exec (decode (LL rl off rs)) (LL rl off rs) w = Done (r4k_excNone, w') ∧
    phys_wf (w_phys w') ∧ same_tables (w_phys w) (w_phys w') ∧
    w_cpu w' = set_reg rl (sign_extend_32_64 (word_at (w_phys w) (phys_of a))) (w_cpu w)
      <| llbit := true |> <| lladdr := phys_of a |>.
Proof.
  intros a Hs Hl Ho Hw. pose proof (is_reg_width _ Hs). pose proof (is_reg_width _ Hl).
  assert (decode (LL rl off rs) = Fnc.instr_ll) as -> by (unfold LL; by rewrite decode_i by (done || lia)).
  cbn [instr_exec]. unfold instr_ll, load_linked. rewrite (bind_Done _ _ _ _ _ eq_refl).
  assert (effective_addr (LL rl off rs) (w_cpu w) = a) as -> by (by apply effective_of).
  assert (f_rt (LL rl off rs) = rl) as -> by (by apply i_rt).
  destruct (unmapped_read_run a w Hw) as (w1 & Hrd & S & R). pose proof (read_rel_cpu _ _ R) as Ec.
  destruct Hw as [[Hq _ _] Hr Ha Hp _]. pose proof (same_store_wf _ _ S Hp) as Hp1.
  rewrite (bind_Done _ _ _ _ _ Hrd). cbv beta iota. set (v := sign_extend_32_64 _).
  set (w2 := w1 <| w_cpu := set_reg rl v (w_cpu w1) |>).
  destruct (sc_register_run (procno (w_cpu w)) w2 (wf_sc_list _ Hp1)) as (p' & Hreg & St & _ & Hnd).
  assert (quiet (w_cpu w2)) as Hq2 by (apply (quiet_same (w_cpu w)); cbn; by rewrite ?Ec).
  set (w3 := w2 <| w_phys := p' |>). eexists. split.
  - etrans; [apply (bind_Done _ _ _ tt)|reflexivity].
    rewrite (bind_Done _ _ _ _ _ (on_cpu_run (modify (set_reg rl v)) w1 tt _ eq_refl)). fold w2.
    rewrite (bind_Done _ _ _ _ _ (on_cpu_same _ w2 _ (convert_unmapped (w_cpu w2) a false false Hq2 Hr))). cbv beta iota.
    rewrite (bind_Done _ _ _ _ _ Hreg). fold w3. reflexivity.
  - cbn. split_and!; [by eapply same_tables_wf; [exact St|done|]| |by rewrite Ec].
    destruct S as (E1 & E2 & _). destruct St as [F1 F2]. split; cbn in *; congruence.
Qed.

(** C31: in kernel mode, after LL of a word that is not at the start of a 64-byte
    line, a store by any processor to any address of memory, the reserved word
    included, leaves the reservation; SC then succeeds and overwrites what was
    stored. *)
Theorem sc_misses_foreign_store devmem n procno addr val rs rl rt off w :
  let c := w_cpu w in let a := u64 (reg rs c + off) in
  is_reg rs = true → is_reg rl = true → is_reg rt = true → rl ≠ rs → rl ≠ rt → signed16 off = true →
  unmapped_word w a → phys_of a mod 64 ≠ 0 → access_size n → slot n addr → rw_word (w_phys w) addr →
  ∃ w1 w2 w3, instr_exec (decode (LL rl off rs)) (LL rl off rs) w = Done (r4k_excNone, w1) ∧
    reg rl (w_cpu w1) = sign_extend_32_64 (word_at (w_phys w) (phys_of a)) ∧
    physmem_write devmem n procno addr val true w1 = Done (true, w2) ∧
    instr_exec (decode (SC rt off rs)) (SC rt off rs) w2 = Done (r4k_excNone, w3) ∧ reg rt (w_cpu w3) = 1 ∧
    word_at (w_phys w3) (phys_of a) = lo (reg rt c).
Proof.
  intros c a Hs Hl Ht Hn1 Hn2 Ho Hw Hline Hn Hslot Hrw.
  destruct (ll_run rs rl off w Hs Hl Ho Hw) as (w1 & Hll & Hp1 & St & Ec). fold c a in Ec.
  assert (∀ r, r ≠ rl → reg r (w_cpu w1) = reg r c) as Er.
  { intros r Hr. rewrite Ec. unfold reg. cbn. by rewrite lookup_insert_ne. }
  pose proof Hw as [Hc Hr Ha Hp Hrwa]. pose proof (same_tables_rw _ _ _ St Hrw) as Hrw1.
  pose proof Hrw1 as (f & ar & Hf & Har & Hwr).
  destruct (world_write devmem n procno addr val true f ar w1 Hp1 (proj1 Hslot) (slot_no_cross _ _ Hn Hslot) Hf Har)
    as (w2 & Hrun & Hp2 & _); [by rewrite Hwr|].
  assert (w_cpu w2 = w_cpu w1) as Ec2.
  { apply (store_untouched _ _ _ _ _ _ f w1 true w2 Hp1 Hf Hrun). by rewrite Ec. }
  assert (u64 (reg rs (w_cpu w2) + off) = a) as Ea by (by rewrite Ec2, Er).
  destruct (sc_run rs rt off w2) as (w3 & Hsc & Hone & Hword); try done; rewrite ?Ea in *; try done.
  { split; try done; [rewrite Ec2, Ec; by apply (calm_same c)|].
    eapply write_keeps_rw; [exact Hn|exact Hp1|exact Hslot|exact Hrw1|exact Hrun|apply phys_of_slot, Ha|].
    by eapply same_tables_rw. }
  { by rewrite Ec2, Ec. }
  rewrite Ec2, Er in Hword by done. exists w1, w2, w3. split_and!; try done.
  rewrite Ec. unfold reg. cbn. by rewrite lookup_insert_eq.
Qed.
End Reservation.

(** A foreign store to the reserved word itself. *)
Definition reserving_machine : R4kSample.W :=
  R4kSample.machine (set_reg 1 0xffffffff80000104 (set_reg 2 7 R4kSample.kernel_cpu)) [].

Lemma reserving_rw a f : lookup_frame (w_phys reserving_machine) a = Some f → frame_area f = 1 →
  rw_word (w_phys reserving_machine) a.
Proof. intros Hf Ha. eexists f, _. split; [exact Hf|]. rewrite Ha. split; reflexivity. Qed.

Lemma reserving_word : unmapped_word reserving_machine 0xffffffff80000104.
Proof.
  split; [split; [split; vm_compute; reflexivity|vm_compute; reflexivity..]|vm_compute; split; congruence|reflexivity
    |apply R4kSample.machine_wf|eapply reserving_rw; vm_compute; reflexivity].
Qed.

Lemma sc_misses_foreign_store_witness : ∃ w1 w2 w3,
  instr_exec (decode (LL 3 0 1)) (LL 3 0 1) reserving_machine = Done (r4k_excNone, w1) ∧
  reg 3 (w_cpu w1) = 0 ∧
  physmem_write devmem_write32 4 1 0x104 42 true w1 = Done (true, w2) ∧
  instr_exec (decode (SC 2 0 1)) (SC 2 0 1) w2 = Done (r4k_excNone, w3) ∧ reg 2 (w_cpu w3) = 1 ∧
  word_at (w_phys w3) 0x104 = 7.
Proof.
  apply (sc_misses_foreign_store devmem_write32 4 1 0x104 42 1 3 2 0 reserving_machine); try reflexivity; try done;
    [exact reserving_word|unfold access_size; tauto|eapply reserving_rw; vm_compute; reflexivity].
Defined.
