(* ===== verification/ShTypes.v ===== *)
(** * Data of the SuperH SH-2E (superh_sh2e/cpu.h, insn.h, bitops.h)

    The processor's registers and execution state, the fields of its 16-bit
    instructions and the bit operations.  Bit-fields have the layout of a
    little-endian host.  Registers in arrays are finite maps whose absent entries
    are zero, the value [sh2e_cpu_init] gives them; every index is a 4-bit field.
    The floating-point registers hold the 32 bits of their values.

    The processor refers to its interrupt controller by the controller's number and
    to its on-chip peripherals by their positions among the devices, in place of
    pointers. *)

From S2P Require Import Prelude Machine.

(** ** Bit operations (bitops.h) *)
Definition u32 (v : Z) : Z := wrap 32 v.
Definition sign_extend_8_32 (v : Z) : Z := wrap 32 (sgn 8 v).
Definition sign_extend_12_32 (v : Z) : Z := wrap 32 (sgn 12 v).
Definition sign_extend_16_32 (v : Z) : Z := wrap 32 (sgn 16 v).
Definition sign_extend_32_32 (v : Z) : Z := wrap 32 (sgn 32 v).
Definition zero_extend_4_32 (v : Z) : Z := wrap 4 v.
Definition zero_extend_8_32 (v : Z) : Z := wrap 8 v.
Definition zero_extend_16_32 (v : Z) : Z := wrap 16 v.

Definition bit_value_msb (v : Z) : Z := Z.shiftr v 31.
Definition bit_value_lsb (v : Z) : Z := Z.land v 1.

(** For amounts between 1 and 31. *)
Definition rotate_left (v amount : Z) : Z := Z.lor (u32 (Z.shiftl v amount)) (Z.shiftr v (32 - amount)).
Definition rotate_right (v amount : Z) : Z := Z.lor (u32 (Z.shiftl v (32 - amount))) (Z.shiftr v amount).

Definition get_upper_32_bits_from_64 (v : Z) : Z := wrap 32 (Z.shiftr (wrap 64 v) 32).
Definition get_lower_32_bits_from_64 (v : Z) : Z := Z.land (wrap 64 v) 0xFFFFFFFF.
Definition get_lower_48_bits_from_64 (v : Z) : Z := Z.land (wrap 64 v) 0x0000FFFFFFFFFFFF.

(** An assignment to the bit-field of [n] bits at [lo] of a [w]-bit union. *)
Definition put_bits (w lo n x v : Z) : Z :=
  Z.lor (Z.land v (c_not w (Z.shiftl (Z.ones n) lo))) (Z.shiftl (wrap n x) lo).

(** ** Instruction fields (insn.h) *)

(** [rn] of the n, nm, nmd, nd8 and ni formats, and [rm] of the m format. *)
Definition f_rn (i : Z) : Z := ubits i 8 4.
(** [rm] of the nm, md and nmd formats, and [rn] of the nd4 format. *)
Definition f_rm (i : Z) : Z := ubits i 4 4.
Definition f_d4 (i : Z) : Z := ubits i 0 4.
Definition f_d8 (i : Z) : Z := ubits i 0 8.
Definition f_d12 (i : Z) : Z := ubits i 0 12.
Definition f_i8 (i : Z) : Z := ubits i 0 8.

(** [ic_h] with [ic_l] in the n and m formats, [ic_l] in the nm format, and [ic] in
    the formats of eight bits. *)
Definition f_ic_h (i : Z) : Z := ubits i 12 4.
Definition f_ic_l8 (i : Z) : Z := ubits i 0 8.
Definition f_ic_l4 (i : Z) : Z := ubits i 0 4.
Definition f_ic8 (i : Z) : Z := ubits i 8 8.

(** ** States and exceptions (cpu.h) *)
Inductive sh2e_branch_state :=
  | SH2E_BRANCH_STATE_NONE
  | SH2E_BRANCH_STATE_DELAY_NEXT
  | SH2E_BRANCH_STATE_DELAY
  | SH2E_BRANCH_STATE_EXECUTE.

Inductive sh2e_processing_state :=
  | SH2E_PSTATE_RESET
  | SH2E_PSTATE_EXCEPTION_PROCESSING
  | SH2E_PSTATE_BUS_RELEASE
  | SH2E_PSTATE_PROGRAM_EXECUTION
  | SH2E_PSTATE_POWER_DOWN.

Inductive sh2e_exception :=
  | SH2E_EXCEPTION_CPU_ADDRESS_ERROR
  | SH2E_EXCEPTION_DMAC_ADDRESS_ERROR
  | SH2E_EXCEPTION_ILLEGAL_INSTRUCTION
  | SH2E_EXCEPTION_ILLEGAL_SLOT_INSTRUCTION
  | SH2E_EXCEPTION_FPU_OPERATION
  | SH2E_EXCEPTION_NONE.

Inductive sh2e_reset_req :=
  | SH2E_RESET_REQ_NONE
  | SH2E_POWER_ON_RESET_INITIAL
  | SH2E_POWER_ON_RESET_REQ_INTERNAL
  | SH2E_POWER_ON_RESET_REQ_EXTERNAL
  | SH2E_MANUAL_RESET_REQ.

#[export] Instance branch_state_eq_dec : EqDecision sh2e_branch_state.
Proof. solve_decision. Defined.
#[export] Instance pstate_eq_dec : EqDecision sh2e_processing_state.
Proof. solve_decision. Defined.
#[export] Instance exception_eq_dec : EqDecision sh2e_exception.
Proof. solve_decision. Defined.
#[export] Instance reset_req_eq_dec : EqDecision sh2e_reset_req.
Proof. solve_decision. Defined.

Definition br_is (b b' : sh2e_branch_state) : bool := bool_decide (b = b').
Definition ps_is (s s' : sh2e_processing_state) : bool := bool_decide (s = s').
Definition ex_is (e e' : sh2e_exception) : bool := bool_decide (e = e').
Definition req_is (r r' : sh2e_reset_req) : bool := bool_decide (r = r').

(** ** The processor *)
Record sh2e_cpu := mk_sh2e {
  general : gmap Z Z;
  sr : Z;
  gbr : Z;
  vbr : Z;
  mach : Z;
  macl : Z;
  pr : Z;
  pc : Z;
  fgeneral : gmap Z Z;
  fpul : Z;
  fpscr : Z;
  pc_target : Z;
  pr_state : sh2e_processing_state;
  br_state : sh2e_branch_state;
  id : Z;
  program_execution_cycles : Z;
  power_down_cycles : Z;
  intc : option Z;
  disable_interrupts : bool;
  disable_address_errors : bool;
  insn_exception : sh2e_exception;
  pending_interrupt : Z;
  pending_address_error : sh2e_exception;
  reset_req : sh2e_reset_req;
  on_chip_peripherals : list Z
}.

#[export] Instance eta_sh2e_cpu : Eta sh2e_cpu := λ c,
  mk_sh2e (general c) (sr c) (gbr c) (vbr c) (mach c) (macl c) (pr c) (pc c) (fgeneral c) (fpul c)
    (fpscr c) (pc_target c) (pr_state c) (br_state c) (id c) (program_execution_cycles c)
    (power_down_cycles c) (intc c) (disable_interrupts c) (disable_address_errors c)
    (insn_exception c) (pending_interrupt c) (pending_address_error c) (reset_req c)
    (on_chip_peripherals c).
#[export] Instance set_general : SetField general := ltac:(derive_set_field).
#[export] Instance set_sr : SetField sr := ltac:(derive_set_field).
#[export] Instance set_gbr : SetField gbr := ltac:(derive_set_field).
#[export] Instance set_vbr : SetField vbr := ltac:(derive_set_field).
#[export] Instance set_mach : SetField mach := ltac:(derive_set_field).
#[export] Instance set_macl : SetField macl := ltac:(derive_set_field).
#[export] Instance set_pr : SetField pr := ltac:(derive_set_field).
#[export] Instance set_pc : SetField pc := ltac:(derive_set_field).
#[export] Instance set_fgeneral : SetField fgeneral := ltac:(derive_set_field).
#[export] Instance set_fpul : SetField fpul := ltac:(derive_set_field).
#[export] Instance set_fpscr : SetField fpscr := ltac:(derive_set_field).
#[export] Instance set_pc_target : SetField pc_target := ltac:(derive_set_field).
#[export] Instance set_pr_state : SetField pr_state := ltac:(derive_set_field).
#[export] Instance set_br_state : SetField br_state := ltac:(derive_set_field).
#[export] Instance set_id : SetField id := ltac:(derive_set_field).
#[export] Instance set_program_execution_cycles : SetField program_execution_cycles := ltac:(derive_set_field).
#[export] Instance set_power_down_cycles : SetField power_down_cycles := ltac:(derive_set_field).
#[export] Instance set_intc : SetField intc := ltac:(derive_set_field).
#[export] Instance set_disable_interrupts : SetField disable_interrupts := ltac:(derive_set_field).
#[export] Instance set_disable_address_errors : SetField disable_address_errors := ltac:(derive_set_field).
#[export] Instance set_insn_exception : SetField insn_exception := ltac:(derive_set_field).
#[export] Instance set_pending_interrupt : SetField pending_interrupt := ltac:(derive_set_field).
#[export] Instance set_pending_address_error : SetField pending_address_error := ltac:(derive_set_field).
#[export] Instance set_reset_req : SetField reset_req := ltac:(derive_set_field).
#[export] Instance set_on_chip_peripherals : SetField on_chip_peripherals := ltac:(derive_set_field).

(** [cpu_regs.general[n]], [fpu_regs.general[n]]; [r0] and [sp] are registers 0 and
    15. *)
Definition reg (n : Z) (c : sh2e_cpu) : Z := default 0 (general c !! n).
Definition set_reg (n v : Z) (c : sh2e_cpu) : sh2e_cpu := c <| general := <[n := v]> (general c) |>.
Definition freg (n : Z) (c : sh2e_cpu) : Z := default 0 (fgeneral c !! n).
Definition set_freg (n v : Z) (c : sh2e_cpu) : sh2e_cpu := c <| fgeneral := <[n := v]> (fgeneral c) |>.
Definition r0 (c : sh2e_cpu) : Z := reg 0 c.
Definition sp (c : sh2e_cpu) : Z := reg 15 c.
Definition set_sp (v : Z) (c : sh2e_cpu) : sh2e_cpu := set_reg 15 v c.

(** The bit-fields of the status register. *)
Definition sr_t (c : sh2e_cpu) : Z := ubits (sr c) 0 1.
Definition sr_s (c : sh2e_cpu) : Z := ubits (sr c) 1 1.
Definition sr_im (c : sh2e_cpu) : Z := ubits (sr c) 4 4.
Definition sr_q (c : sh2e_cpu) : Z := ubits (sr c) 8 1.
Definition sr_m (c : sh2e_cpu) : Z := ubits (sr c) 9 1.
Definition set_t (v : Z) (c : sh2e_cpu) : sh2e_cpu := c <| sr := put_bits 32 0 1 v (sr c) |>.
Definition set_im (v : Z) (c : sh2e_cpu) : sh2e_cpu := c <| sr := put_bits 32 4 4 v (sr c) |>.
Definition set_q (v : Z) (c : sh2e_cpu) : sh2e_cpu := c <| sr := put_bits 32 8 1 v (sr c) |>.
Definition set_m (v : Z) (c : sh2e_cpu) : sh2e_cpu := c <| sr := put_bits 32 9 1 v (sr c) |>.

(** The bit-fields of the floating-point status register that are not wired. *)
Definition fpscr_ev (c : sh2e_cpu) : Z := ubits (fpscr c) 11 1.
Definition fpscr_ez (c : sh2e_cpu) : Z := ubits (fpscr c) 10 1.
Definition set_fpscr_field (lo n v : Z) (c : sh2e_cpu) : sh2e_cpu :=
  c <| fpscr := put_bits 32 lo n v (fpscr c) |>.
Definition set_fz : Z → sh2e_cpu → sh2e_cpu := set_fpscr_field 5 1.
Definition set_fv : Z → sh2e_cpu → sh2e_cpu := set_fpscr_field 6 1.
Definition set_cz : Z → sh2e_cpu → sh2e_cpu := set_fpscr_field 15 1.
Definition set_cv : Z → sh2e_cpu → sh2e_cpu := set_fpscr_field 16 1.

(** The arrays [control] and [system] that alias the named registers. *)
Definition control (n : Z) (c : sh2e_cpu) : option Z :=
  match n with 0 => Some (sr c) | 1 => Some (gbr c) | 2 => Some (vbr c) | _ => None end.
Definition system (n : Z) (c : sh2e_cpu) : option Z :=
  match n with
  | 0 => Some (mach c) | 1 => Some (macl c) | 2 => Some (pr c) | 3 => Some (pc c) | _ => None
  end.
Definition fpu_system (n : Z) (c : sh2e_cpu) : option Z :=
  match n with 0 => Some 0 | 1 => Some (fpul c) | 2 => Some (fpscr c) | 3 => Some 0 | _ => None end.

(** [sh2e_cpu_init]: zeroed memory, whose first enumerator is the CPU address error. *)
Definition sh2e_cpu_init (no : Z) : sh2e_cpu := {|
  general := ∅; sr := 0; gbr := 0; vbr := 0; mach := 0; macl := 0; pr := 0; pc := 0;
  fgeneral := ∅; fpul := 0; fpscr := 0; pc_target := 0;
  pr_state := SH2E_PSTATE_RESET; br_state := SH2E_BRANCH_STATE_NONE; id := no;
  program_execution_cycles := 0; power_down_cycles := 0; intc := None;
  disable_interrupts := false; disable_address_errors := false;
  insn_exception := SH2E_EXCEPTION_CPU_ADDRESS_ERROR; pending_interrupt := 0;
  pending_address_error := SH2E_EXCEPTION_NONE; reset_req := SH2E_POWER_ON_RESET_INITIAL;
  on_chip_peripherals := []
|}.

(** The processor registers no address with physical memory, which therefore never
    asks it about a store. *)
#[export] Instance sh2e_core : Core sh2e_cpu := {|
  core_number := id;
  core_sc_access _ _ c := (false, c)
|}.

(** ** Exception vectors

    [sh2e_eva_t]: the vectors are words at [vbr]. *)
Definition eva_vector (n : Z) (c : sh2e_cpu) : Z := u32 (vbr c + 4 * n).
Definition EVA_power_on_reset_pc : Z := 0.
Definition EVA_power_on_reset_sp : Z := 1.
Definition EVA_manual_reset_pc : Z := 2.
Definition EVA_manual_reset_sp : Z := 3.
Definition EVA_general_illegal_insn : Z := 4.
Definition EVA_slot_illegal_insn : Z := 6.
Definition EVA_cpu_address_error : Z := 9.
Definition EVA_dmac_address_error : Z := 10.
Definition EVA_fpu_exception : Z := 13.

(** A decoded instruction (decode.h), without the texts of the disassembler. *)
Record insn_desc (F : Type) := mk_desc {
  d_exec : F;
  d_cycles : Z;
  d_disable_interrupts : bool;
  d_disable_address_errors : bool
}.
Arguments mk_desc {F} _ _ _ _.
Arguments d_exec {F} _.
Arguments d_cycles {F} _.
Arguments d_disable_interrupts {F} _.
Arguments d_disable_address_errors {F} _.
