(* ===== verification/ShFloat.v ===== *)
(** * Single-precision arithmetic of the host (superh_sh2e/exec.c)

    The simulator computes with the [float] of C, which is IEEE 754 binary32 with
    rounding to nearest.  Registers hold the 32 bits of a value; the arithmetic is
    that of [SpecFloat] with 24 bits of precision.  What the standards leave to the
    host is the class [HostFloat]: the bits of a NaN result and the value of a
    conversion that is out of range. *)

From Stdlib Require Import SpecFloat.
From S2P Require Import Prelude ShTypes.

Definition f32_prec : Z := 24.
Definition f32_emax : Z := 128.

(** The members of the union [float32_bits_t]. *)
Definition f32_sign (b : Z) : Z := ubits b 31 1.
Definition f32_exponent (b : Z) : Z := ubits b 23 8.
Definition f32_mantissa (b : Z) : Z := ubits b 0 23.
Definition f32_make (sign exponent mantissa : Z) : Z :=
  Z.lor (Z.shiftl (wrap 1 sign) 31) (Z.lor (Z.shiftl (wrap 8 exponent) 23) (wrap 23 mantissa)).

(** The value of 32 bits, and the bits of a value other than NaN. *)
Definition finite_of (s : bool) (m e : Z) : spec_float :=
  match m with Zpos p => S754_finite s p e | _ => S754_zero s end.

Definition f32_decode (b : Z) : spec_float :=
  let s := truthy (f32_sign b) in
  let e := f32_exponent b in
  let m := f32_mantissa b in
  if e =? 255 then (if m =? 0 then S754_infinity s else S754_nan)
  else if e =? 0 then finite_of s m (-149)
  else finite_of s (m + 2 ^ 23) (e - 150).

Definition f32_encode (f : spec_float) : Z :=
  match f with
  | S754_zero s => f32_make (bool_to_Z s) 0 0
  | S754_infinity s => f32_make (bool_to_Z s) 255 0
  | S754_nan => f32_make 0 255 (2 ^ 22)
  | S754_finite s m e =>
      if Zpos m <? 2 ^ 23 then f32_make (bool_to_Z s) 0 (Zpos m)
      else f32_make (bool_to_Z s) (e + 150) (Zpos m - 2 ^ 23)
  end.

(** ** Classification (math.h) *)
Definition isnan (b : Z) : bool := (f32_exponent b =? 255) && negb (f32_mantissa b =? 0).
Definition isinf (b : Z) : bool := (f32_exponent b =? 255) && (f32_mantissa b =? 0).
Definition isfinite (b : Z) : bool := negb (f32_exponent b =? 255).
Definition is_zero (b : Z) : bool := (f32_exponent b =? 0) && (f32_mantissa b =? 0).

(** The value of [isinf] with the supported compilers: 1, -1 or 0. *)
Definition isinf_sign (b : Z) : Z := if isinf b then (if truthy (f32_sign b) then -1 else 1) else 0.

(** ** The host *)
Class HostFloat := {
  nan_result : Z → Z → Z;
  conversion_out_of_range : Z → Z
}.

Section Arith.
Context `{HostFloat}.

Definition f32_result (a b : Z) (f : spec_float) : Z :=
  match f with S754_nan => nan_result a b | _ => f32_encode f end.

Definition f32_add (a b : Z) : Z :=
  f32_result a b (SFadd f32_prec f32_emax (f32_decode a) (f32_decode b)).
Definition f32_sub (a b : Z) : Z :=
  f32_result a b (SFsub f32_prec f32_emax (f32_decode a) (f32_decode b)).
Definition f32_mul (a b : Z) : Z :=
  f32_result a b (SFmul f32_prec f32_emax (f32_decode a) (f32_decode b)).
Definition f32_div (a b : Z) : Z :=
  f32_result a b (SFdiv f32_prec f32_emax (f32_decode a) (f32_decode b)).

(** [(int64_t) truncf(x)] *)
Definition f32_truncated (s : bool) (m : positive) (e : Z) : Z :=
  let v := if 0 <=? e then Zpos m * 2 ^ e else Zpos m / 2 ^ (- e) in
  if s then - v else v.

Definition f32_to_int64 (b : Z) : Z :=
  match f32_decode b with
  | S754_zero _ => 0
  | S754_finite s m e =>
      let v := f32_truncated s m e in
      if (- 2 ^ 63 <=? v) && (v <? 2 ^ 63) then v else conversion_out_of_range b
  | _ => conversion_out_of_range b
  end.
End Arith.

(** [fabsf] and negation act on the sign bit only. *)
Definition f32_abs (b : Z) : Z := Z.land b 0x7fffffff.
Definition f32_neg (b : Z) : Z := Z.lxor b 0x80000000.

(** [(float) n] for an integer [n]. *)
Definition f32_of_int (n : Z) : Z := f32_encode (binary_normalize f32_prec f32_emax n 0 false).

(** The comparisons [==], [isgreater] and [isunordered]. *)
Definition f32_eq (a b : Z) : bool := SFeqb (f32_decode a) (f32_decode b).
Definition isgreater (a b : Z) : bool := SFltb (f32_decode b) (f32_decode a).
Definition isunordered (a b : Z) : bool := isnan a || isnan b.

(** ** The processor's classification of NaNs (exec.c) *)
Definition is_snan (b : Z) : bool :=
  (f32_exponent b =? 0xff) && truthy (Z.land (f32_mantissa b) (Z.shiftl 1 22)).
Definition qnan (bits : Z) : Z := f32_make 0 0xff (Z.lor (Z.shiftl 1 22) (wrap 16 bits)).
Definition is_qnan (b : Z) : bool :=
  (f32_exponent b =? 0xff) && negb (f32_mantissa b =? 0) &&
  (Z.land (Z.shiftr (f32_mantissa b) 22) 1 =? 0).
Definition is_pos_inf (b : Z) : bool := (f32_sign b =? 0) && (f32_exponent b =? 0xff) && (f32_mantissa b =? 0).
Definition is_neg_inf (b : Z) : bool := (f32_sign b =? 1) && (f32_exponent b =? 0xff) && (f32_mantissa b =? 0).

(** A host that gives the NaN of its left operand if there is one, with the bits of
    the x86 processor otherwise. *)
Definition x86_nan (a b : Z) : Z :=
  if isnan a then f32_make (f32_sign a) 255 (Z.lor (f32_mantissa a) (Z.shiftl 1 22))
  else if isnan b then f32_make (f32_sign b) 255 (Z.lor (f32_mantissa b) (Z.shiftl 1 22))
  else 0xffc00000.
Definition x86_float : HostFloat := {| nan_result := x86_nan; conversion_out_of_range _ := - 2 ^ 63 |}.
