(* ===== verification/ShExec.v ===== *)
(** * Instructions of the SH-2E (superh_sh2e/memops.h and exec.c)

    One definition per function, with the source's name.  A read of memory yields
    the exception or the value; a register that a failed read would have received
    keeps its value.  The flag [machine_unit_testing], which the unit tests set, is
    off.  Messages for the user are not modelled. *)

From S2P Require Import Prelude PhysMem Machine ShTypes ShFloat.
Import PhysMem.

Abbreviation C := sh2e_cpu.
Abbreviation exc := sh2e_exception.
Abbreviation NONE := SH2E_EXCEPTION_NONE.

(** A change of the processor and no exception. *)
Definition upd (f : C → C) : st C exc := modify f;; mret NONE.

(** An instruction that is illegal in a delay slot. *)
Definition not_in_slot {W} (br : W → sh2e_branch_state) (m : st W exc) : st W exc :=
  w ← get_st;
  if br_is (br w) SH2E_BRANCH_STATE_DELAY then mret SH2E_EXCEPTION_ILLEGAL_SLOT_INSTRUCTION else m.

(** The operands of the nm format. *)
Definition rn (i : Z) (c : C) : Z := reg (f_rn i) c.
Definition rm (i : Z) (c : C) : Z := reg (f_rm i) c.
Definition frn (i : Z) (c : C) : Z := freg (f_rn i) c.
Definition frm (i : Z) (c : C) : Z := freg (f_rm i) c.

(** ** Addresses *)
Definition sh2e_addr_pc_relative_insn (c : C) (insn_offset disp : Z) : Z :=
  u32 (pc c + (insn_offset + sgn 32 disp) * 2).
Definition sh2e_addr_pc_relative_data (pc_addr disp scale : Z) : Z :=
  u32 (Z.land pc_addr (c_not 32 (scale - 1)) + disp * scale).
Definition sh2e_addr_gbr_relative_data (c : C) (disp scale : Z) : Z := u32 (gbr c + disp * scale).

(** The program counter of the execution stage. *)
Definition ex_stage_pc (c : C) : Z :=
  if negb (br_is (br_state c) SH2E_BRANCH_STATE_DELAY) then u32 (pc c + 4) else u32 (pc_target c + 2).

(** ** Instructions on registers *)

(** Branches on T. *)
Definition sh2e_insn_branch_t_eq (i t_expected : Z) (delayed : bool) : st C exc :=
  not_in_slot br_state (upd (λ c,
    let target := sh2e_addr_pc_relative_insn c 2 (sign_extend_8_32 (f_d8 i)) in
    if sr_t c =? t_expected then
      c <| program_execution_cycles := wrap 64 (program_execution_cycles c + if delayed then 1 else 2) |>
        <| pc_target := target |>
        <| br_state := if delayed then SH2E_BRANCH_STATE_DELAY_NEXT else SH2E_BRANCH_STATE_EXECUTE |>
    else c <| pc_target := u32 (pc c + 4) |>)).

Definition sh2e_insn_exec_bf (i : Z) : st C exc := sh2e_insn_branch_t_eq i 0 false.
Definition sh2e_insn_exec_bfs (i : Z) : st C exc := sh2e_insn_branch_t_eq i 0 true.
Definition sh2e_insn_exec_bt (i : Z) : st C exc := sh2e_insn_branch_t_eq i 1 false.
Definition sh2e_insn_exec_bts (i : Z) : st C exc := sh2e_insn_branch_t_eq i 1 true.

(** A jump with a delay slot: [f] sets its target. *)
Definition delayed_jump (f : C → C) : st C exc :=
  not_in_slot br_state (upd (λ c, (f c) <| br_state := SH2E_BRANCH_STATE_DELAY_NEXT |>)).
Definition link (c : C) : C := c <| pr := sh2e_addr_pc_relative_insn c 2 0 |>.

Definition sh2e_insn_exec_bra (i : Z) : st C exc :=
  delayed_jump (λ c, c <| pc_target := sh2e_addr_pc_relative_insn c 2 (sign_extend_12_32 (f_d12 i)) |>).
Definition sh2e_insn_exec_braf (i : Z) : st C exc :=
  delayed_jump (λ c, c <| pc_target := u32 (sh2e_addr_pc_relative_insn c 2 0 + reg (f_rn i) c) |>).
Definition sh2e_insn_exec_bsr (i : Z) : st C exc :=
  delayed_jump (λ c, let c := link c in
    c <| pc_target := sh2e_addr_pc_relative_insn c 2 (sign_extend_12_32 (f_d12 i)) |>).
Definition sh2e_insn_exec_bsrf (i : Z) : st C exc :=
  delayed_jump (λ c, let c := link c in
    c <| pc_target := u32 (sh2e_addr_pc_relative_insn c 2 0 + reg (f_rn i) c) |>).
Definition sh2e_insn_exec_jmp (i : Z) : st C exc :=
  delayed_jump (λ c, c <| pc_target := reg (f_rn i) c |>).
Definition sh2e_insn_exec_jsr (i : Z) : st C exc :=
  delayed_jump (λ c, let c := link c in c <| pc_target := reg (f_rn i) c |>).
Definition sh2e_insn_exec_rts (i : Z) : st C exc := delayed_jump (λ c, c <| pc_target := pr c |>).

(** Addition and subtraction. *)
Definition set_rn (i : Z) (v : C → Z) (c : C) : C := set_reg (f_rn i) (v c) c.
Definition assign_rn (i : Z) (v : C → Z) : st C exc := upd (set_rn i v).
Definition assign_t (v : C → bool) : st C exc := upd (λ c, set_t (bool_to_Z (v c)) c).

Definition sh2e_insn_exec_add (i : Z) : st C exc := assign_rn i (λ c, u32 (rn i c + rm i c)).
Definition sh2e_insn_exec_addi (i : Z) : st C exc :=
  assign_rn i (λ c, u32 (rn i c + sign_extend_8_32 (f_i8 i))).
Definition sh2e_insn_exec_addc (i : Z) : st C exc :=
  upd (λ c,
    let sum := u32 (rn i c + rm i c) in
    let sum_with_carry := u32 (sum + sr_t c) in
    set_t (bool_to_Z ((rn i c >? sum) || (sum >? sum_with_carry))) (set_reg (f_rn i) sum_with_carry c)).
Definition sh2e_insn_exec_addv (i : Z) : st C exc :=
  upd (λ c,
    let result := u32 (rn i c + rm i c) in
    let rn_sign := bit_value_msb (rn i c) in
    let rm_sign := bit_value_msb (rm i c) in
    let result_sign := bit_value_msb result in
    set_t (bool_to_Z ((rn_sign =? rm_sign) && negb (rm_sign =? result_sign))) (set_reg (f_rn i) result c)).
Definition sh2e_insn_exec_sub (i : Z) : st C exc := assign_rn i (λ c, u32 (rn i c - rm i c)).
Definition sh2e_insn_exec_subc (i : Z) : st C exc :=
  upd (λ c,
    let result := u32 (rn i c - rm i c) in
    let result_with_borrow := u32 (result - sr_t c) in
    set_t (bool_to_Z ((rn i c <? result) || (result <? result_with_borrow)))
      (set_reg (f_rn i) result_with_borrow c)).
Definition sh2e_insn_exec_subv (i : Z) : st C exc :=
  upd (λ c,
    let result := u32 (rn i c - rm i c) in
    let rn_sign := bit_value_msb (rn i c) in
    let rm_sign := bit_value_msb (rm i c) in
    let result_sign := bit_value_msb result in
    set_t (bool_to_Z (negb (rn_sign =? rm_sign) && negb (rn_sign =? result_sign)))
      (set_reg (f_rn i) result c)).
Definition sh2e_insn_exec_neg (i : Z) : st C exc := assign_rn i (λ c, u32 (0 - rm i c)).
Definition sh2e_insn_exec_negc (i : Z) : st C exc :=
  upd (λ c,
    let neg_rm := u32 (0 - rm i c) in
    let neg_rm_with_carry := u32 (neg_rm - sr_t c) in
    set_t (bool_to_Z ((0 <? neg_rm) || (neg_rm <? neg_rm_with_carry)))
      (set_reg (f_rn i) neg_rm_with_carry c)).
Definition sh2e_insn_exec_dt (i : Z) : st C exc :=
  upd (λ c,
    let rn_dec := u32 (rn i c - 1) in
    set_t (bool_to_Z (rn_dec =? 0)) (set_reg (f_rn i) rn_dec c)).

(** Logic. *)
Definition assign_r0 (v : C → Z) : st C exc := upd (λ c, set_reg 0 (v c) c).
Definition sh2e_insn_exec_and (i : Z) : st C exc := assign_rn i (λ c, Z.land (rn i c) (rm i c)).
Definition sh2e_insn_exec_andi (i : Z) : st C exc := assign_r0 (λ c, Z.land (r0 c) (zero_extend_8_32 (f_i8 i))).
Definition sh2e_insn_exec_not (i : Z) : st C exc := assign_rn i (λ c, c_not 32 (rm i c)).
Definition sh2e_insn_exec_or (i : Z) : st C exc := assign_rn i (λ c, Z.lor (rn i c) (rm i c)).
Definition sh2e_insn_exec_ori (i : Z) : st C exc := assign_r0 (λ c, Z.lor (r0 c) (zero_extend_8_32 (f_i8 i))).
Definition sh2e_insn_exec_xor (i : Z) : st C exc := assign_rn i (λ c, Z.lxor (rn i c) (rm i c)).
Definition sh2e_insn_exec_xori (i : Z) : st C exc := assign_r0 (λ c, Z.lxor (r0 c) (zero_extend_8_32 (f_i8 i))).
Definition sh2e_insn_exec_tst (i : Z) : st C exc := assign_t (λ c, Z.land (rn i c) (rm i c) =? 0).
Definition sh2e_insn_exec_tsti (i : Z) : st C exc :=
  assign_t (λ c, Z.land (r0 c) (zero_extend_8_32 (f_i8 i)) =? 0).

(** Comparisons. *)
Definition sh2e_insn_exec_cmpeq (i : Z) : st C exc := assign_t (λ c, rn i c =? rm i c).
Definition sh2e_insn_exec_cmpge (i : Z) : st C exc := assign_t (λ c, sgn 32 (rn i c) >=? sgn 32 (rm i c)).
Definition sh2e_insn_exec_cmpgt (i : Z) : st C exc := assign_t (λ c, sgn 32 (rn i c) >? sgn 32 (rm i c)).
Definition sh2e_insn_exec_cmphi (i : Z) : st C exc := assign_t (λ c, rn i c >? rm i c).
Definition sh2e_insn_exec_cmphs (i : Z) : st C exc := assign_t (λ c, rn i c >=? rm i c).
Definition sh2e_insn_exec_cmpim (i : Z) : st C exc := assign_t (λ c, r0 c =? sign_extend_8_32 (f_i8 i)).
Definition sh2e_insn_exec_cmppl (i : Z) : st C exc := assign_t (λ c, sgn 32 (rn i c) >? 0).
Definition sh2e_insn_exec_cmppz (i : Z) : st C exc := assign_t (λ c, sgn 32 (rn i c) >=? 0).
Definition cmpstr_sign (x y : Z) : Z :=
  let rn_xor_rm := Z.lxor x y in
  let sub_val := u32 (rn_xor_rm - 0x01010101) in
  let andc_val := Z.land sub_val (c_not 32 rn_xor_rm) in
  Z.land andc_val 0x80808080.
Definition sh2e_insn_exec_cmpstr (i : Z) : st C exc := assign_t (λ c, negb (cmpstr_sign (rn i c) (rm i c) =? 0)).

(** Division steps. *)
Definition sh2e_insn_exec_div0s (i : Z) : st C exc :=
  upd (λ c,
    let c := set_q (bit_value_msb (rn i c)) c in
    let c := set_m (bit_value_msb (rm i c)) c in
    set_t (Z.lxor (sr_q c) (sr_m c)) c).
Definition sh2e_insn_exec_div0u (i : Z) : st C exc := upd (λ c, set_t 0 (set_q 0 (set_m 0 c))).
Definition sh2e_insn_exec_div1 (i : Z) : st C exc :=
  upd (λ c,
    let rn_sign_xor_m := Z.lxor (bit_value_msb (rn i c)) (sr_m c) in
    let shifted_rn := Z.lor (u32 (Z.shiftl (rn i c) 1)) (sr_t c) in
    let q_xor_m := Z.lxor (sr_q c) (sr_m c) in
    let rm := rm i c in
    let next_rn := u32 (shifted_rn + if q_xor_m =? 0 then u32 (- rm) else rm) in
    let c := set_reg (f_rn i) next_rn c in
    let carry := bool_to_Z (if q_xor_m =? 0 then next_rn >? shifted_rn else next_rn <? shifted_rn) in
    let c := set_q (Z.lxor carry rn_sign_xor_m) c in
    set_t (bool_to_Z (sr_q c =? sr_m c)) c).

(** Multiplication. *)
Definition set_mac (result : Z) (c : C) : C :=
  c <| mach := get_upper_32_bits_from_64 result |> <| macl := get_lower_32_bits_from_64 result |>.
Definition sh2e_insn_exec_dmulsl (i : Z) : st C exc :=
  upd (λ c, set_mac (sgn 32 (rn i c) * sgn 32 (rm i c)) c).
Definition sh2e_insn_exec_dmulul (i : Z) : st C exc := upd (λ c, set_mac (rn i c * rm i c) c).
Definition sh2e_insn_exec_mull (i : Z) : st C exc := upd (λ c, c <| macl := u32 (rn i c * rm i c) |>).
Definition sh2e_insn_exec_mulsw (i : Z) : st C exc :=
  upd (λ c, c <| macl := u32 (sgn 16 (rn i c) * sgn 16 (rm i c)) |>).
Definition sh2e_insn_exec_muluw (i : Z) : st C exc :=
  upd (λ c, c <| macl := u32 (wrap 16 (rn i c) * wrap 16 (rm i c)) |>).
Definition sh2e_insn_exec_clrmac (i : Z) : st C exc := upd (λ c, c <| mach := 0 |> <| macl := 0 |>).

(** Moves between registers and extensions. *)
Definition sh2e_insn_ext (i : Z) (extend : Z → Z) : st C exc := assign_rn i (λ c, extend (rm i c)).
Definition sh2e_insn_exec_extsb (i : Z) : st C exc := sh2e_insn_ext i sign_extend_8_32.
Definition sh2e_insn_exec_extsw (i : Z) : st C exc := sh2e_insn_ext i sign_extend_16_32.
Definition sh2e_insn_exec_extub (i : Z) : st C exc := sh2e_insn_ext i zero_extend_8_32.
Definition sh2e_insn_exec_extuw (i : Z) : st C exc := sh2e_insn_ext i zero_extend_16_32.
Definition sh2e_insn_exec_mov (i : Z) : st C exc := assign_rn i (rm i).
Definition sh2e_insn_exec_movi (i : Z) : st C exc := assign_rn i (λ _, sign_extend_8_32 (f_i8 i)).
Definition sh2e_insn_exec_mova (i : Z) : st C exc :=
  assign_r0 (λ c, sh2e_addr_pc_relative_data (ex_stage_pc c) (zero_extend_8_32 (f_d8 i)) 4).
Definition sh2e_insn_exec_movt (i : Z) : st C exc := assign_rn i sr_t.
Definition sh2e_insn_exec_swapb (i : Z) : st C exc :=
  assign_rn i (λ c, let rm := rm i c in
    Z.lor (Z.lor (Z.land rm 0xFFFF0000) (Z.shiftl (Z.land rm 0xFF) 8)) (Z.land (Z.shiftr rm 8) 0xFF)).
Definition sh2e_insn_exec_swapw (i : Z) : st C exc := assign_rn i (λ c, rotate_left (rm i c) 16).
Definition sh2e_insn_exec_xtrct (i : Z) : st C exc :=
  assign_rn i (λ c, Z.lor (u32 (Z.shiftl (rm i c) 16)) (Z.shiftr (rn i c) 16)).

(** Shifts; [t] is the bit shifted out. *)
Definition shift_rn (i : Z) (v t : C → Z) : st C exc := upd (λ c, set_t (t c) (set_reg (f_rn i) (v c) c)).
Definition msb_rn (i : Z) (c : C) : Z := bit_value_msb (rn i c).
Definition lsb_rn (i : Z) (c : C) : Z := bit_value_lsb (rn i c).
Definition sh2e_insn_exec_rotcl (i : Z) : st C exc :=
  shift_rn i (λ c, Z.lor (u32 (Z.shiftl (rn i c) 1)) (sr_t c)) (msb_rn i).
Definition sh2e_insn_exec_rotcr (i : Z) : st C exc :=
  shift_rn i (λ c, Z.lor (u32 (Z.shiftl (sr_t c) 31)) (Z.shiftr (rn i c) 1)) (lsb_rn i).
Definition sh2e_insn_exec_rotl (i : Z) : st C exc := shift_rn i (λ c, rotate_left (rn i c) 1) (msb_rn i).
Definition sh2e_insn_exec_rotr (i : Z) : st C exc := shift_rn i (λ c, rotate_right (rn i c) 1) (lsb_rn i).
Definition sh2e_insn_exec_shal (i : Z) : st C exc := shift_rn i (λ c, u32 (Z.shiftl (rn i c) 1)) (msb_rn i).
Definition sh2e_insn_exec_shar (i : Z) : st C exc :=
  shift_rn i (λ c, u32 (Z.shiftr (sgn 32 (rn i c)) 1)) (lsb_rn i).
Definition sh2e_insn_exec_shll (i : Z) : st C exc := shift_rn i (λ c, u32 (Z.shiftl (rn i c) 1)) (msb_rn i).
Definition sh2e_insn_exec_shlr (i : Z) : st C exc := shift_rn i (λ c, Z.shiftr (rn i c) 1) (lsb_rn i).
Definition sh2e_insn_shlln (i amount : Z) : st C exc := assign_rn i (λ c, u32 (Z.shiftl (rn i c) amount)).
Definition sh2e_insn_exec_shll2 (i : Z) : st C exc := sh2e_insn_shlln i 2.
Definition sh2e_insn_exec_shll8 (i : Z) : st C exc := sh2e_insn_shlln i 8.
Definition sh2e_insn_exec_shll16 (i : Z) : st C exc := sh2e_insn_shlln i 16.
Definition sh2e_insn_shlrn (i amount : Z) : st C exc := assign_rn i (λ c, Z.shiftr (rn i c) amount).
Definition sh2e_insn_exec_shlr2 (i : Z) : st C exc := sh2e_insn_shlrn i 2.
Definition sh2e_insn_exec_shlr8 (i : Z) : st C exc := sh2e_insn_shlrn i 8.
Definition sh2e_insn_exec_shlr16 (i : Z) : st C exc := sh2e_insn_shlrn i 16.

(** Control and system registers. *)
Definition LDC_SR_MASK : Z := 0x0FFF0FFF.
Definition LDS_FPSCR_MASK : Z := 0x00018C60.
Definition sh2e_insn_set_t (value : bool) : st C exc := assign_t (λ _, value).
Definition sh2e_insn_exec_clrt (i : Z) : st C exc := sh2e_insn_set_t false.
Definition sh2e_insn_exec_sett (i : Z) : st C exc := sh2e_insn_set_t true.
Definition sh2e_insn_exec_nop (i : Z) : st C exc := mret NONE.
Definition sh2e_insn_exec_sleep (i : Z) : st C exc := upd (λ c, c <| pr_state := SH2E_PSTATE_POWER_DOWN |>).

Definition set_sr (v : Z) (c : C) : C := c <| sr := Z.land v LDC_SR_MASK |>.
Definition set_gbr (v : Z) (c : C) : C := c <| gbr := v |>.
Definition set_vbr (v : Z) (c : C) : C := c <| vbr := v |>.
Definition set_mach (v : Z) (c : C) : C := c <| mach := v |>.
Definition set_macl (v : Z) (c : C) : C := c <| macl := v |>.
Definition set_pr (v : Z) (c : C) : C := c <| pr := v |>.
Definition set_fpscr (v : Z) (c : C) : C := c <| fpscr := Z.land v LDS_FPSCR_MASK |>.
Definition set_fpul (v : Z) (c : C) : C := c <| fpul := v |>.

(** The m format has its register where the others have [rn]. *)
Definition load_reg (i : Z) (set : Z → C → C) : st C exc := upd (λ c, set (reg (f_rn i) c) c).
Definition sh2e_insn_exec_ldc_sr (i : Z) : st C exc := load_reg i set_sr.
Definition sh2e_insn_exec_ldc_gbr (i : Z) : st C exc := load_reg i set_gbr.
Definition sh2e_insn_exec_ldc_vbr (i : Z) : st C exc := load_reg i set_vbr.
Definition sh2e_insn_exec_lds_mach (i : Z) : st C exc := load_reg i set_mach.
Definition sh2e_insn_exec_lds_macl (i : Z) : st C exc := load_reg i set_macl.
Definition sh2e_insn_exec_lds_pr (i : Z) : st C exc := load_reg i set_pr.
Definition sh2e_insn_exec_lds_fpscr (i : Z) : st C exc := load_reg i set_fpscr.
Definition sh2e_insn_exec_lds_fpul (i : Z) : st C exc := load_reg i set_fpul.

(** The index into the array of registers; past its end C gives no meaning. *)
Definition csr_index (i : Z) : Z := Z.land (Z.shiftr (f_ic_l8 i) 4) 3.
Definition csr_value (i : Z) (csrs : Z → C → option Z) : st C Z :=
  c ← get_st;
  match csrs (csr_index i) c with Some v => mret v | None => stop UndefinedBehaviour end.
Definition sh2e_insn_stcsr (i : Z) (csrs : Z → C → option Z) : st C exc :=
  v ← csr_value i csrs; assign_rn i (λ _, v).
Definition sh2e_insn_exec_stc_cpu (i : Z) : st C exc := sh2e_insn_stcsr i control.
Definition sh2e_insn_exec_sts_cpu (i : Z) : st C exc := sh2e_insn_stcsr i system.
Definition sh2e_insn_exec_sts_fpu (i : Z) : st C exc := sh2e_insn_stcsr i fpu_system.

(** Undefined instructions. *)
Definition sh2e_insn_exec_illegal (i : Z) : st C exc :=
  not_in_slot br_state (mret SH2E_EXCEPTION_ILLEGAL_INSTRUCTION).
Definition sh2e_insn_exec_not_implemented (i : Z) : st C exc := mret SH2E_EXCEPTION_ILLEGAL_INSTRUCTION.

(** ** Memory accesses (memops.h) *)
Section Mem.
Context {F D : Type} `{BoardOf C F D}.
Abbreviation W := (world C F D).

Definition sh2e_physmem_read8 (cpu_id addr : Z) (protected : bool) : st W Z :=
  physmem_read8 cpu_id addr protected.
Definition sh2e_physmem_read16 (cpu_id addr : Z) (protected : bool) : st W Z :=
  v ← physmem_read16 cpu_id addr protected; mret (be16toh v).
Definition sh2e_physmem_read32 (cpu_id addr : Z) (protected : bool) : st W Z :=
  v ← physmem_read32 cpu_id addr protected; mret (be32toh v).

(** A read after the test of the address against the alignment mask. *)
Definition read_aligned (mask : Z) (read : Z → Z → bool → st W Z) (extend : Z → Z) (addr : Z)
    : st W (exc + Z) :=
  if truthy (Z.land addr mask) then mret (inl SH2E_EXCEPTION_CPU_ADDRESS_ERROR)
  else c ← cpu; v ← read (id c) addr true; mret (inr (extend v)).

Definition sh2e_cpu_readz_byte (addr : Z) : st W (exc + Z) :=
  c ← cpu; v ← sh2e_physmem_read8 (id c) addr true; mret (inr v).
Definition sh2e_cpu_reads_byte (addr : Z) : st W (exc + Z) :=
  c ← cpu; v ← sh2e_physmem_read8 (id c) addr true; mret (inr (sign_extend_8_32 v)).
Definition sh2e_cpu_readz_word : Z → st W (exc + Z) := read_aligned 1 sh2e_physmem_read16 (λ v, v).
Definition sh2e_cpu_reads_word : Z → st W (exc + Z) := read_aligned 1 sh2e_physmem_read16 sign_extend_16_32.
Definition sh2e_cpu_read_long : Z → st W (exc + Z) := read_aligned 3 sh2e_physmem_read32 (λ v, v).
Definition sh2e_cpu_read_float : Z → st W (exc + Z) := read_aligned 3 sh2e_physmem_read32 (λ v, v).

(** The exception of a write to physical memory. *)
Definition write_exc (success : bool) : exc := if success then NONE else SH2E_EXCEPTION_CPU_ADDRESS_ERROR.
Definition write_aligned (mask : Z) (write : Z → Z → Z → bool → st W bool) (value : Z → Z) (addr v : Z)
    : st W exc :=
  if truthy (Z.land addr mask) then mret SH2E_EXCEPTION_CPU_ADDRESS_ERROR
  else c ← cpu; success ← write (id c) addr (value v) true; mret (write_exc success).

Definition sh2e_cpu_write_byte (addr v : Z) : st W exc :=
  c ← cpu; success ← physmem_write8 (id c) addr (wrap 8 v) true; mret (write_exc success).
Definition sh2e_cpu_write_word : Z → Z → st W exc := write_aligned 1 physmem_write16 (λ v, be16toh (wrap 16 v)).
Definition sh2e_cpu_write_long : Z → Z → st W exc := write_aligned 3 physmem_write32 be32toh.
Definition sh2e_cpu_write_float : Z → Z → st W exc := write_aligned 3 physmem_write32 be32toh.

(** Going on after a successful read, and after a successful write. *)
Definition on_value (r : exc + Z) (k : Z → st W exc) : st W exc :=
  match r with inl e => mret e | inr v => k v end.
Definition on_success (e : exc) (k : st W exc) : st W exc := if ex_is e NONE then k else mret e.
Definition w_upd (f : C → C) : st W exc := on_cpu (upd f).

(** ** Moves between memory and registers *)
Definition sh2e_insn_movi (i scale : Z) (read : Z → st W (exc + Z)) (extend : Z → Z) : st W exc :=
  c ← cpu;
  r ← read (sh2e_addr_pc_relative_data (ex_stage_pc c) (zero_extend_8_32 (f_d8 i)) scale);
  on_value r (λ v, w_upd (set_reg (f_rn i) (extend v))).
Definition sh2e_insn_exec_movwi (i : Z) : st W exc := sh2e_insn_movi i 2 sh2e_cpu_readz_word sign_extend_16_32.
Definition sh2e_insn_exec_movli (i : Z) : st W exc := sh2e_insn_movi i 4 sh2e_cpu_read_long sign_extend_32_32.

(** A load into register [n] from [addr], and a store of register [n]. *)
Definition load_to (n : Z) (addr : C → Z) (read : Z → st W (exc + Z)) : st W exc :=
  c ← cpu; r ← read (addr c); on_value r (λ v, w_upd (set_reg n v)).
Definition store_from (n : Z) (addr : C → Z) (write : Z → Z → st W exc) : st W exc :=
  c ← cpu; write (addr c) (reg n c).

Definition sh2e_insn_movl (i : Z) (read : Z → st W (exc + Z)) : st W exc := load_to (f_rn i) (rm i) read.
Definition sh2e_insn_movs (i : Z) (write : Z → Z → st W exc) : st W exc := store_from (f_rm i) (rn i) write.
Definition sh2e_insn_movp (i scale : Z) (read : Z → st W (exc + Z)) : st W exc :=
  c ← cpu;
  r ← read (rm i c);
  on_value r (λ v,
    w_upd (set_reg (f_rn i) v);;
    if negb (f_rn i =? f_rm i) then w_upd (set_reg (f_rm i) (u32 (rm i c + scale))) else mret NONE).
Definition sh2e_insn_movm (i scale : Z) (write : Z → Z → st W exc) : st W exc :=
  c ← cpu;
  let addr := u32 (rn i c - scale) in
  e ← write addr (rm i c);
  on_success e (w_upd (set_reg (f_rn i) addr)).
Definition sh2e_insn_movl0 (i : Z) (read : Z → st W (exc + Z)) : st W exc :=
  load_to (f_rn i) (λ c, u32 (r0 c + rm i c)) read.
Definition sh2e_insn_movs0 (i : Z) (write : Z → Z → st W exc) : st W exc :=
  store_from (f_rm i) (λ c, u32 (r0 c + rn i c)) write.
Definition sh2e_insn_movl4 (i scale : Z) (read : Z → st W (exc + Z)) : st W exc :=
  load_to 0 (λ c, u32 (rm i c + zero_extend_4_32 (f_d4 i) * scale)) read.
(** The nd4 format has its [rn] where the others have [rm]. *)
Definition sh2e_insn_movs4 (i scale : Z) (write : Z → Z → st W exc) : st W exc :=
  store_from 0 (λ c, u32 (reg (f_rm i) c + zero_extend_4_32 (f_d4 i) * scale)) write.
Definition sh2e_insn_movlg (i scale : Z) (read : Z → st W (exc + Z)) : st W exc :=
  load_to 0 (λ c, sh2e_addr_gbr_relative_data c (zero_extend_8_32 (f_d8 i)) scale) read.
Definition sh2e_insn_movsg (i scale : Z) (write : Z → Z → st W exc) : st W exc :=
  store_from 0 (λ c, sh2e_addr_gbr_relative_data c (zero_extend_8_32 (f_d8 i)) scale) write.

Definition sh2e_insn_exec_movbs (i : Z) : st W exc := sh2e_insn_movs i sh2e_cpu_write_byte.
Definition sh2e_insn_exec_movws (i : Z) : st W exc := sh2e_insn_movs i sh2e_cpu_write_word.
Definition sh2e_insn_exec_movls (i : Z) : st W exc := sh2e_insn_movs i sh2e_cpu_write_long.
Definition sh2e_insn_exec_movbl (i : Z) : st W exc := sh2e_insn_movl i sh2e_cpu_reads_byte.
Definition sh2e_insn_exec_movwl (i : Z) : st W exc := sh2e_insn_movl i sh2e_cpu_reads_word.
Definition sh2e_insn_exec_movll (i : Z) : st W exc := sh2e_insn_movl i sh2e_cpu_read_long.
Definition sh2e_insn_exec_movbm (i : Z) : st W exc := sh2e_insn_movm i 1 sh2e_cpu_write_byte.
Definition sh2e_insn_exec_movwm (i : Z) : st W exc := sh2e_insn_movm i 2 sh2e_cpu_write_word.
Definition sh2e_insn_exec_movlm (i : Z) : st W exc := sh2e_insn_movm i 4 sh2e_cpu_write_long.
Definition sh2e_insn_exec_movbp (i : Z) : st W exc := sh2e_insn_movp i 1 sh2e_cpu_reads_byte.
Definition sh2e_insn_exec_movwp (i : Z) : st W exc := sh2e_insn_movp i 2 sh2e_cpu_reads_word.
Definition sh2e_insn_exec_movlp (i : Z) : st W exc := sh2e_insn_movp i 4 sh2e_cpu_read_long.
Definition sh2e_insn_exec_movbs0 (i : Z) : st W exc := sh2e_insn_movs0 i sh2e_cpu_write_byte.
Definition sh2e_insn_exec_movws0 (i : Z) : st W exc := sh2e_insn_movs0 i sh2e_cpu_write_word.
Definition sh2e_insn_exec_movls0 (i : Z) : st W exc := sh2e_insn_movs0 i sh2e_cpu_write_long.
Definition sh2e_insn_exec_movbl0 (i : Z) : st W exc := sh2e_insn_movl0 i sh2e_cpu_reads_byte.
Definition sh2e_insn_exec_movwl0 (i : Z) : st W exc := sh2e_insn_movl0 i sh2e_cpu_reads_word.
Definition sh2e_insn_exec_movll0 (i : Z) : st W exc := sh2e_insn_movl0 i sh2e_cpu_read_long.
Definition sh2e_insn_exec_movblg (i : Z) : st W exc := sh2e_insn_movlg i 1 sh2e_cpu_reads_byte.
Definition sh2e_insn_exec_movwlg (i : Z) : st W exc := sh2e_insn_movlg i 2 sh2e_cpu_reads_word.
Definition sh2e_insn_exec_movllg (i : Z) : st W exc := sh2e_insn_movlg i 4 sh2e_cpu_read_long.
Definition sh2e_insn_exec_movbsg (i : Z) : st W exc := sh2e_insn_movsg i 1 sh2e_cpu_write_byte.
Definition sh2e_insn_exec_movwsg (i : Z) : st W exc := sh2e_insn_movsg i 2 sh2e_cpu_write_word.
Definition sh2e_insn_exec_movlsg (i : Z) : st W exc := sh2e_insn_movsg i 4 sh2e_cpu_write_long.
Definition sh2e_insn_exec_movbl4 (i : Z) : st W exc := sh2e_insn_movl4 i 1 sh2e_cpu_reads_byte.
Definition sh2e_insn_exec_movwl4 (i : Z) : st W exc := sh2e_insn_movl4 i 2 sh2e_cpu_reads_word.
Definition sh2e_insn_exec_movbs4 (i : Z) : st W exc := sh2e_insn_movs4 i 1 sh2e_cpu_write_byte.
Definition sh2e_insn_exec_movws4 (i : Z) : st W exc := sh2e_insn_movs4 i 2 sh2e_cpu_write_word.
Definition sh2e_insn_exec_movll4 (i : Z) : st W exc :=
  load_to (f_rn i) (λ c, u32 (rm i c + zero_extend_4_32 (f_d4 i) * 4)) sh2e_cpu_read_long.
Definition sh2e_insn_exec_movls4 (i : Z) : st W exc :=
  store_from (f_rm i) (λ c, u32 (rn i c + zero_extend_4_32 (f_d4 i) * 4)) sh2e_cpu_write_long.

(** Loads of control and system registers from memory. *)
Definition load_reg_inc (i : Z) (set : Z → C → C) : st W exc :=
  c ← cpu;
  r ← sh2e_cpu_read_long (reg (f_rn i) c);
  on_value r (λ v, w_upd (λ c, set v (set_reg (f_rn i) (u32 (reg (f_rn i) c + 4)) c))).
Definition sh2e_insn_exec_ldcl_sr (i : Z) : st W exc := load_reg_inc i set_sr.
Definition sh2e_insn_exec_ldcl_gbr (i : Z) : st W exc := load_reg_inc i set_gbr.
Definition sh2e_insn_exec_ldcl_vbr (i : Z) : st W exc := load_reg_inc i set_vbr.
Definition sh2e_insn_exec_ldsl_mach (i : Z) : st W exc := load_reg_inc i set_mach.
Definition sh2e_insn_exec_ldsl_macl (i : Z) : st W exc := load_reg_inc i set_macl.
Definition sh2e_insn_exec_ldsl_pr (i : Z) : st W exc := load_reg_inc i set_pr.
Definition sh2e_insn_exec_ldsl_fpscr (i : Z) : st W exc := load_reg_inc i set_fpscr.
Definition sh2e_insn_exec_ldsl_fpul (i : Z) : st W exc := load_reg_inc i set_fpul.

Definition sh2e_insn_stcsrm (i : Z) (csrs : Z → C → option Z) : st W exc :=
  c ← cpu;
  let addr := u32 (rn i c - 4) in
  v ← on_cpu (csr_value i csrs);
  e ← sh2e_cpu_write_long addr v;
  on_success e (w_upd (set_reg (f_rn i) addr)).
Definition sh2e_insn_exec_stcm_cpu (i : Z) : st W exc := sh2e_insn_stcsrm i control.
Definition sh2e_insn_exec_stsm_cpu (i : Z) : st W exc := sh2e_insn_stcsrm i system.
Definition sh2e_insn_exec_stsm_fpu (i : Z) : st W exc := sh2e_insn_stcsrm i fpu_system.

(** Read-modify-write of the byte at [gbr + r0]. *)
Definition gbr_r0 (c : C) : Z := u32 (gbr c + r0 c).
Definition modify_byte (op : Z → Z) : st W exc :=
  c ← cpu;
  r ← sh2e_cpu_readz_byte (gbr_r0 c);
  on_value r (λ v, sh2e_cpu_write_byte (gbr_r0 c) (op v)).
Definition sh2e_insn_exec_andm (i : Z) : st W exc := modify_byte (λ v, Z.land v (zero_extend_8_32 (f_i8 i))).
Definition sh2e_insn_exec_orm (i : Z) : st W exc := modify_byte (λ v, Z.lor v (zero_extend_8_32 (f_i8 i))).
Definition sh2e_insn_exec_xorm (i : Z) : st W exc := modify_byte (λ v, Z.lxor v (zero_extend_8_32 (f_i8 i))).
Definition sh2e_insn_exec_tstm (i : Z) : st W exc :=
  c ← cpu;
  r ← sh2e_cpu_readz_byte (gbr_r0 c);
  on_value r (λ v, w_upd (set_t (bool_to_Z (Z.land v (zero_extend_8_32 (f_i8 i)) =? 0)))).
Definition sh2e_insn_exec_tas (i : Z) : st W exc :=
  c ← cpu;
  r ← sh2e_cpu_reads_byte (rn i c);
  on_value r (λ v,
    e ← sh2e_cpu_write_byte (rn i c) (Z.lor v 0x80);
    on_success e (w_upd (set_t (bool_to_Z (v =? 0))))).

(** Multiply and accumulate.  A sum outside 64 bits has no meaning in C. *)
Definition mac_value (c : C) : Z := sgn 64 (Z.lor (Z.shiftl (mach c) 32) (macl c)).
Definition mac_add (c : C) (product : Z) : st W Z :=
  let mac := mac_value c + product in
  c_defined ((- 2 ^ 63 <=? mac) && (mac <? 2 ^ 63));; mret mac.

(** What MAC.L does to the sum when S is set. *)
Definition mac_saturate (mac : Z) : Z :=
  let lower_48 := get_lower_48_bits_from_64 mac in
  if truthy (Z.land lower_48 (Z.shiftl 1 47)) then Z.lor lower_48 0xFFFF000000000000
  else Z.land lower_48 0x0000FFFFFFFFFFFF.

Definition sh2e_insn_exec_macl (i : Z) : st W exc :=
  c ← cpu;
  r ← sh2e_cpu_read_long (rn i c);
  on_value r (λ value_rn,
    r ← sh2e_cpu_read_long (rm i c);
    on_value r (λ value_rm,
      w_upd (λ c, set_reg (f_rn i) (u32 (reg (f_rn i) c + 4)) c);;
      w_upd (λ c, set_reg (f_rm i) (u32 (reg (f_rm i) c + 4)) c);;
      c ← cpu;
      mac ← mac_add c (sgn 32 value_rn * sgn 32 value_rm);
      let mac := if truthy (sr_s c) then mac_saturate mac else mac in
      w_upd (set_mac mac))).

(** What MAC.W does to MACL when S is set; the second bound is the positive number
    [0x80000000]. *)
Definition macw_clamp (val : Z) : Z * bool :=
  if val >? 0x7FFFFFFF then (0x7FFFFFFF, true)
  else if val <? 0x80000000 then (0x80000000, true)
  else (val, false).

Definition macw_saturate (product : Z) (c : C) : C :=
  let '(val, overflow) := macw_clamp (sgn 32 (macl c) + product) in
  let c := if overflow then c <| mach := Z.lor (mach c) 1 |> else c in
  c <| macl := u32 val |>.

Definition sh2e_insn_exec_macw (i : Z) : st W exc :=
  c ← cpu;
  r ← sh2e_cpu_reads_word (rn i c);
  on_value r (λ value_rn,
    r ← sh2e_cpu_reads_word (rm i c);
    on_value r (λ value_rm,
      w_upd (λ c, set_reg (f_rn i) (u32 (reg (f_rn i) c + 2)) c);;
      w_upd (λ c, set_reg (f_rm i) (u32 (reg (f_rm i) c + 2)) c);;
      let product := sgn 32 value_rn * sgn 32 value_rm in
      c ← cpu;
      if truthy (sr_s c) then w_upd (macw_saturate product)
      else mac ← mac_add c product; w_upd (set_mac mac))).

(** Exceptions by software. *)
Definition sh2e_insn_exec_rte (i : Z) : st W exc :=
  not_in_slot (λ w, br_state (w_cpu w)) (
    c ← cpu;
    r ← sh2e_cpu_read_long (sp c);
    on_value r (λ stack_pc,
      let stack_sr_addr := u32 (sp c + 4) in
      r ← sh2e_cpu_read_long stack_sr_addr;
      on_value r (λ stack_sr,
        w_upd (λ c, (set_sp (u32 (stack_sr_addr + 4)) c)
          <| sr := Z.land stack_sr 0x0FFF0FFF |> <| pc_target := stack_pc |>
          <| br_state := SH2E_BRANCH_STATE_DELAY_NEXT |>)))).

Definition sh2e_insn_exec_trapa (i : Z) : st W exc :=
  c ← cpu;
  let stack_sr_addr := u32 (sp c - 4) in
  e ← sh2e_cpu_write_long stack_sr_addr (sr c);
  on_success e (
    let stack_pc_addr := u32 (stack_sr_addr - 4) in
    e ← sh2e_cpu_write_long stack_pc_addr (sh2e_addr_pc_relative_insn c 1 0);
    on_success e (
      r ← sh2e_cpu_read_long (u32 (vbr c + u32 (Z.shiftl (zero_extend_8_32 (f_i8 i)) 2)));
      on_value r (λ vbr_pc,
        w_upd (λ c, (set_sp stack_pc_addr c) <| pc_target := vbr_pc |>
          <| br_state := SH2E_BRANCH_STATE_EXECUTE |>)))).

(** Moves between memory and the floating-point registers. *)
Definition sh2e_insn_exec_fmov (i : Z) : st C exc := upd (λ c, set_freg (f_rn i) (frm i c) c).
Definition sh2e_insn_fmovl (i : Z) (base : C → Z) : st W exc :=
  c ← cpu;
  r ← sh2e_cpu_read_float (u32 (base c + rm i c));
  on_value r (λ v, w_upd (set_freg (f_rn i) v)).
Definition sh2e_insn_exec_fmovl (i : Z) : st W exc := sh2e_insn_fmovl i (λ _, 0).
Definition sh2e_insn_exec_fmovli (i : Z) : st W exc := sh2e_insn_fmovl i r0.
Definition sh2e_insn_exec_fmovlr (i : Z) : st W exc :=
  c ← cpu;
  r ← sh2e_cpu_read_float (rm i c);
  on_value r (λ v, w_upd (λ c', set_reg (f_rm i) (u32 (rm i c + 4)) (set_freg (f_rn i) v c'))).
Definition sh2e_insn_fmovs (i : Z) (base : C → Z) : st W exc :=
  c ← cpu; sh2e_cpu_write_float (u32 (base c + rn i c)) (frm i c).
Definition sh2e_insn_exec_fmovs (i : Z) : st W exc := sh2e_insn_fmovs i (λ _, 0).
Definition sh2e_insn_exec_fmovsi (i : Z) : st W exc := sh2e_insn_fmovs i r0.
Definition sh2e_insn_exec_fmovss (i : Z) : st W exc :=
  c ← cpu;
  let addr := u32 (rn i c - 4) in
  e ← sh2e_cpu_write_float addr (frm i c);
  on_success e (w_upd (set_reg (f_rn i) addr)).

(** Instructions of the simulator: stopping it, and printing registers. *)
Definition sh2e_insn_exec_halt (i : Z) : st W exc := modify (λ w, w <| machine_halt := true |>);; mret NONE.
Definition sh2e_insn_exec_cpu_reg_dump (i : Z) : st W exc := mret NONE.
Definition sh2e_insn_exec_fpu_reg_dump (i : Z) : st W exc := mret NONE.
End Mem.

(** ** Floating-point arithmetic *)
Section Fpu.
Context `{HostFloat}.

Definition sh2e_cpu_clear_cv_cz (c : C) : C := set_cz 0 (set_cv 0 c).
Definition sh2e_cpu_set_cv_fv (c : C) : C := set_fv 1 (set_cv 1 c).
Definition sh2e_cpu_set_cz_fz (c : C) : C := set_fz 1 (set_cz 1 c).

(** An invalid operation raises the exception if it is enabled; otherwise the
    instruction goes on with the result [k] is applied to. *)
Definition if_invalid (b : bool) (result other : Z) (k : Z → st C exc) : st C exc :=
  if b then
    modify sh2e_cpu_set_cv_fv;;
    c ← get_st;
    if truthy (fpscr_ev c) then mret SH2E_EXCEPTION_FPU_OPERATION else k other
  else k result.

Definition put_frn (i : Z) (v : Z) : st C exc := upd (set_freg (f_rn i) v).

Definition sh2e_insn_exec_fabs (i : Z) : st C exc :=
  modify sh2e_cpu_clear_cv_cz;;
  c ← get_st;
  let result := f32_abs (frn i c) in
  if_invalid (isnan result && is_snan (frn i c)) result (qnan i) (put_frn i).

Definition sh2e_insn_exec_fneg (i : Z) : st C exc :=
  modify sh2e_cpu_clear_cv_cz;;
  c ← get_st;
  let result := f32_neg (frn i c) in
  if_invalid (isnan result && is_snan (frn i c)) result (qnan i) (put_frn i).

(** The invalid cases of an addition, a multiplication and a subtraction. *)
Definition add_invalid (a b : Z) : bool :=
  is_snan a || is_snan b || (is_neg_inf a && is_pos_inf b) || (is_pos_inf a && is_neg_inf b).
Definition mul_invalid (a b : Z) : bool :=
  is_snan a || is_snan b || (isinf a && is_zero b) || (is_zero a && isinf b).
Definition sub_invalid (a b : Z) : bool := is_snan a || is_snan b || (isinf_sign a * isinf_sign b =? 1).

Definition sh2e_insn_exec_fadd (i : Z) : st C exc :=
  modify sh2e_cpu_clear_cv_cz;;
  c ← get_st;
  let result := f32_add (frn i c) (frm i c) in
  if_invalid (isnan result && add_invalid (frn i c) (frm i c)) result (qnan i) (put_frn i).

Definition sh2e_insn_exec_fsub (i : Z) : st C exc :=
  modify sh2e_cpu_clear_cv_cz;;
  c ← get_st;
  let result := f32_sub (frn i c) (frm i c) in
  if_invalid (isnan result && sub_invalid (frn i c) (frm i c)) result (qnan i) (put_frn i).

Definition sh2e_insn_exec_fmul (i : Z) : st C exc :=
  modify sh2e_cpu_clear_cv_cz;;
  c ← get_st;
  let result := f32_mul (frn i c) (frm i c) in
  if_invalid (isnan result && mul_invalid (frn i c) (frm i c)) result (qnan i) (put_frn i).

Definition sh2e_insn_exec_fdiv (i : Z) : st C exc :=
  modify sh2e_cpu_clear_cv_cz;;
  c ← get_st;
  let n := frn i c in
  let m := frm i c in
  if is_snan n || is_snan m || (isinf n && isinf m) || (is_zero n && is_zero m) then
    if_invalid true 0 (qnan i) (put_frn i)
  else if is_zero m && negb (is_qnan n) && negb (isinf n) then
    modify sh2e_cpu_set_cz_fz;;
    c ← get_st;
    if truthy (fpscr_ez c) then mret SH2E_EXCEPTION_FPU_OPERATION
    else put_frn i (f32_make (Z.lxor (f32_sign n) (f32_sign m)) 0xff 0)
  else put_frn i (f32_div n m).

(** [fr0 * frm + frn], rounded twice; the cause and flag bits of the two steps are
    united at the end. *)
Definition sh2e_insn_exec_fmac (i : Z) : st C exc :=
  modify sh2e_cpu_clear_cv_cz;;
  c ← get_st;
  let fr0 := freg 0 c in
  let result_of_fmul := f32_mul fr0 (frm i c) in
  if_invalid (isnan result_of_fmul && mul_invalid fr0 (frm i c)) result_of_fmul (qnan i)
    (λ result_of_fmul,
      tmp ← get_st;
      modify sh2e_cpu_clear_cv_cz;;
      c ← get_st;
      let result_of_fadd := f32_add result_of_fmul (frn i c) in
      if_invalid (isnan result_of_fadd && add_invalid (frn i c) result_of_fmul) result_of_fadd (qnan i)
        (λ result_of_fadd,
          put_frn i result_of_fadd;;
          upd (λ c, c <| fpscr := Z.lor (fpscr c) (fpscr tmp) |>))).

(** Comparisons. *)
Definition put_t (result : Z) : st C exc := upd (set_t result).
Definition sh2e_insn_exec_fcmpeq (i : Z) : st C exc :=
  modify sh2e_cpu_clear_cv_cz;;
  c ← get_st;
  let result := bool_to_Z (f32_eq (frn i c) (frm i c)) in
  if_invalid (negb (f32_eq (frn i c) (frm i c)) && (is_snan (frn i c) || is_snan (frm i c)))
    result result put_t.
Definition sh2e_insn_exec_fcmpgt (i : Z) : st C exc :=
  modify sh2e_cpu_clear_cv_cz;;
  c ← get_st;
  let result := bool_to_Z (isgreater (frn i c) (frm i c)) in
  if_invalid (negb (isgreater (frn i c) (frm i c)) && isunordered (frn i c) (frm i c)) result result put_t.

(** Constants, conversions and the communication register. *)
Definition sh2e_insn_exec_fldi0 (i : Z) : st C exc := put_frn i 0.
Definition sh2e_insn_exec_fldi1 (i : Z) : st C exc := put_frn i 0x3f800000.
Definition sh2e_insn_exec_flds (i : Z) : st C exc := upd (λ c, c <| fpul := freg (f_rn i) c |>).
Definition sh2e_insn_exec_fsts (i : Z) : st C exc := upd (λ c, set_freg (f_rn i) (fpul c) c).
Definition sh2e_insn_exec_float (i : Z) : st C exc :=
  modify sh2e_cpu_clear_cv_cz;; upd (λ c, set_freg (f_rn i) (f32_of_int (sgn 32 (fpul c))) c).

Definition INT32_MIN : Z := - 2 ^ 31.
Definition INT32_MAX : Z := 2 ^ 31 - 1.
Definition sh2e_insn_exec_ftrc (i : Z) : st C exc :=
  modify sh2e_cpu_clear_cv_cz;;
  c ← get_st;
  let m := freg (f_rn i) c in
  let result := u32 (Z.min (Z.max INT32_MIN (f32_to_int64 m)) INT32_MAX) in
  if_invalid (negb (isfinite m)) result
    (u32 (if isinf_sign m >? 0 then INT32_MAX else INT32_MIN)) (λ result, upd (set_fpul result)).
End Fpu.
