(* ===== verification/ShDecode.v ===== *)
(** * Decoder of the SH-2E (superh_sh2e/decode.c)

    One definition per format.  A format yields the descriptor of an instruction, or
    nothing if the word is not of the format; the codes are those of insn.h.  The
    constructors of [insn_fn] stand for the functions of exec.c. *)

From S2P Require Import Prelude ShTypes.

Module Fn.
Inductive insn_fn :=
  | clrt | nop | rts | sett | div0u | sleep | clrmac | rte | cmppl | cmppz | dt | movt | rotl | rotr
  | rotcl | rotcr | shal | shar | shll | shlr | shll2 | shll8 | shll16 | shlr2 | shlr8 | shlr16 | stc_cpu
  | sts_fpu | sts_cpu | tas | stcm_cpu | stsm_fpu | stsm_cpu | fsts | float | fneg | fabs | fldi0 | fldi1
  | ldc_sr | ldc_gbr | ldc_vbr | lds_fpul | lds_fpscr | lds_mach | lds_macl | lds_pr | jmp | jsr | ldcl_sr
  | ldcl_gbr | ldcl_vbr | ldsl_fpul | ldsl_fpscr | ldsl_mach | ldsl_macl | ldsl_pr | braf | bsrf | flds
  | ftrc | add | addc | addv | and | cmpeq | cmphs | cmpge | cmphi | cmpgt | cmpstr | div1 | div0s | dmulsl
  | dmulul | extsb | extsw | extub | extuw | mov | mull | mulsw | muluw | neg | negc | not | or | sub
  | subc | subv | swapb | swapw | tst | xor | xtrct | movbs | movws | movls | movbl | movwl | movll | macl
  | macw | movbp | movwp | movlp | movbm | movwm | movlm | movbs0 | movws0 | movls0 | movbl0 | movwl0
  | movll0 | fadd | fcmpeq | fcmpgt | fdiv | fmac | fmov | fmovli | fmovlr | fmovl | fmovsi | fmovss
  | fmovs | fmul | fsub | movbl4 | movwl4 | movbs4 | movws4 | movls4 | movll4 | movblg | movwlg | movllg
  | movbsg | movwsg | movlsg | mova | bf | bfs | bt | bts | bra | bsr | movwi | movli | tstm | andm | xorm
  | orm | cmpim | tsti | andi | xori | ori | trapa | addi | movi | halt | cpu_reg_dump | fpu_reg_dump
  | illegal | not_implemented.
End Fn.

Abbreviation desc := (insn_desc Fn.insn_fn).
Definition ic12 (ic4 ic8 : Z) : Z := Z.lor (Z.shiftl ic4 8) ic8.
Definition ic8 (ic8 ic4 : Z) : Z := Z.lor (Z.shiftl ic8 4) ic4.

Definition illegal : desc := mk_desc Fn.illegal 1 false false.

(** A descriptor whose instruction accepts interrupts and address errors, one that
    defers interrupts, and one that defers both. *)
Definition plain (f : Fn.insn_fn) (cycles : Z) : option desc := Some (mk_desc f cycles false false).
Definition no_int (f : Fn.insn_fn) (cycles : Z) : option desc := Some (mk_desc f cycles true false).
Definition deferring (f : Fn.insn_fn) (cycles : Z) : option desc := Some (mk_desc f cycles true true).

Definition sh2e_insn_decode_z_format (i : Z) : option desc :=
  match i with
  | 0x8 => plain Fn.clrt 1
  | 0x9 => plain Fn.nop 1
  | 0xb => deferring Fn.rts 2
  | 0x18 => plain Fn.sett 1
  | 0x19 => plain Fn.div0u 1
  | 0x1b => plain Fn.sleep 3
  | 0x28 => plain Fn.clrmac 1
  | 0x2b => deferring Fn.rte 4
  | _ => None
  end.

Definition sh2e_insn_decode_n_format (i : Z) : option desc :=
  match ic12 (f_ic_h i) (f_ic_l8 i) with
  | 0x415 => plain Fn.cmppl 1
  | 0x411 => plain Fn.cmppz 1
  | 0x410 => plain Fn.dt 1
  | 0x29 => plain Fn.movt 1
  | 0x404 => plain Fn.rotl 1
  | 0x405 => plain Fn.rotr 1
  | 0x424 => plain Fn.rotcl 1
  | 0x425 => plain Fn.rotcr 1
  | 0x420 => plain Fn.shal 1
  | 0x421 => plain Fn.shar 1
  | 0x400 => plain Fn.shll 1
  | 0x401 => plain Fn.shlr 1
  | 0x408 => plain Fn.shll2 1
  | 0x418 => plain Fn.shll8 1
  | 0x428 => plain Fn.shll16 1
  | 0x409 => plain Fn.shlr2 1
  | 0x419 => plain Fn.shlr8 1
  | 0x429 => plain Fn.shlr16 1
  | 0x2 => no_int Fn.stc_cpu 1
  | 0x12 => no_int Fn.stc_cpu 1
  | 0x22 => no_int Fn.stc_cpu 1
  | 0x5a => plain Fn.sts_fpu 1
  | 0x6a => plain Fn.sts_fpu 1
  | 0xa => no_int Fn.sts_cpu 1
  | 0x1a => no_int Fn.sts_cpu 1
  | 0x2a => no_int Fn.sts_cpu 1
  | 0x41b => plain Fn.tas 1
  | 0x403 => no_int Fn.stcm_cpu 1
  | 0x413 => no_int Fn.stcm_cpu 1
  | 0x423 => no_int Fn.stcm_cpu 1
  | 0x452 => plain Fn.stsm_fpu 1
  | 0x462 => plain Fn.stsm_fpu 1
  | 0x402 => no_int Fn.stsm_cpu 1
  | 0x412 => no_int Fn.stsm_cpu 1
  | 0x422 => no_int Fn.stsm_cpu 1
  | _ => None
  end.

Definition sh2e_insn_decode_n_format_fpu (i : Z) : option desc :=
  match f_ic_l8 i with
  | 0xd => plain Fn.fsts 1
  | 0x2d => plain Fn.float 1
  | 0x4d => plain Fn.fneg 1
  | 0x5d => plain Fn.fabs 1
  | 0x8d => plain Fn.fldi0 1
  | 0x9d => plain Fn.fldi1 1
  | _ => None
  end.

Definition sh2e_insn_decode_m_format (i : Z) : option desc :=
  match ic12 (f_ic_h i) (f_ic_l8 i) with
  | 0x40e => no_int Fn.ldc_sr 1
  | 0x41e => no_int Fn.ldc_gbr 1
  | 0x42e => no_int Fn.ldc_vbr 1
  | 0x45a => plain Fn.lds_fpul 1
  | 0x46a => plain Fn.lds_fpscr 1
  | 0x40a => no_int Fn.lds_mach 1
  | 0x41a => no_int Fn.lds_macl 1
  | 0x42a => no_int Fn.lds_pr 1
  | 0x42b => deferring Fn.jmp 2
  | 0x40b => deferring Fn.jsr 2
  | 0x407 => no_int Fn.ldcl_sr 3
  | 0x417 => no_int Fn.ldcl_gbr 3
  | 0x427 => no_int Fn.ldcl_vbr 3
  | 0x456 => plain Fn.ldsl_fpul 1
  | 0x466 => plain Fn.ldsl_fpscr 1
  | 0x406 => no_int Fn.ldsl_mach 1
  | 0x416 => no_int Fn.ldsl_macl 1
  | 0x426 => no_int Fn.ldsl_pr 1
  | 0x23 => deferring Fn.braf 2
  | 0x3 => deferring Fn.bsrf 2
  | _ => None
  end.

Definition sh2e_insn_decode_m_format_fpu (i : Z) : option desc :=
  match f_ic_l8 i with
  | 0x1d => plain Fn.flds 1
  | 0x3d => plain Fn.ftrc 1
  | _ => None
  end.

Definition sh2e_insn_decode_nm_format (i : Z) : option desc :=
  match ic8 (f_ic_h i) (f_ic_l4 i) with
  | 0x3c => plain Fn.add 1
  | 0x3e => plain Fn.addc 1
  | 0x3f => plain Fn.addv 1
  | 0x29 => plain Fn.and 1
  | 0x30 => plain Fn.cmpeq 1
  | 0x32 => plain Fn.cmphs 1
  | 0x33 => plain Fn.cmpge 1
  | 0x36 => plain Fn.cmphi 1
  | 0x37 => plain Fn.cmpgt 1
  | 0x2c => plain Fn.cmpstr 1
  | 0x34 => plain Fn.div1 1
  | 0x27 => plain Fn.div0s 1
  | 0x3d => plain Fn.dmulsl 2
  | 0x35 => plain Fn.dmulul 2
  | 0x6e => plain Fn.extsb 1
  | 0x6f => plain Fn.extsw 1
  | 0x6c => plain Fn.extub 1
  | 0x6d => plain Fn.extuw 1
  | 0x63 => plain Fn.mov 1
  | 0x7 => plain Fn.mull 2
  | 0x2f => plain Fn.mulsw 1
  | 0x2e => plain Fn.muluw 1
  | 0x6b => plain Fn.neg 1
  | 0x6a => plain Fn.negc 1
  | 0x67 => plain Fn.not 1
  | 0x2b => plain Fn.or 1
  | 0x38 => plain Fn.sub 1
  | 0x3a => plain Fn.subc 1
  | 0x3b => plain Fn.subv 1
  | 0x68 => plain Fn.swapb 1
  | 0x69 => plain Fn.swapw 1
  | 0x28 => plain Fn.tst 1
  | 0x2a => plain Fn.xor 1
  | 0x2d => plain Fn.xtrct 1
  | 0x20 => plain Fn.movbs 1
  | 0x21 => plain Fn.movws 1
  | 0x22 => plain Fn.movls 1
  | 0x60 => plain Fn.movbl 1
  | 0x61 => plain Fn.movwl 1
  | 0x62 => plain Fn.movll 1
  | 0xf => plain Fn.macl 3
  | 0x4f => plain Fn.macw 3
  | 0x64 => plain Fn.movbp 1
  | 0x65 => plain Fn.movwp 1
  | 0x66 => plain Fn.movlp 1
  | 0x24 => plain Fn.movbm 1
  | 0x25 => plain Fn.movwm 1
  | 0x26 => plain Fn.movlm 1
  | 0x4 => plain Fn.movbs0 1
  | 0x5 => plain Fn.movws0 1
  | 0x6 => plain Fn.movls0 1
  | 0xc => plain Fn.movbl0 1
  | 0xd => plain Fn.movwl0 1
  | 0xe => plain Fn.movll0 1
  | _ => None
  end.

Definition sh2e_insn_decode_nm_format_fpu (i : Z) : option desc :=
  match f_ic_l4 i with
  | 0x0 => plain Fn.fadd 1
  | 0x4 => plain Fn.fcmpeq 1
  | 0x5 => plain Fn.fcmpgt 1
  | 0x3 => plain Fn.fdiv 13
  | 0xe => plain Fn.fmac 1
  | 0xc => plain Fn.fmov 1
  | 0x6 => plain Fn.fmovli 1
  | 0x9 => plain Fn.fmovlr 1
  | 0x8 => plain Fn.fmovl 1
  | 0x7 => plain Fn.fmovsi 1
  | 0xb => plain Fn.fmovss 1
  | 0xa => plain Fn.fmovs 1
  | 0x2 => plain Fn.fmul 1
  | 0x1 => plain Fn.fsub 1
  | _ => None
  end.

Definition sh2e_insn_decode_md_format (i : Z) : option desc :=
  match f_ic8 i with
  | 0x84 => plain Fn.movbl4 1
  | 0x85 => plain Fn.movwl4 1
  | _ => None
  end.

Definition sh2e_insn_decode_nd4_format (i : Z) : option desc :=
  match f_ic8 i with
  | 0x80 => plain Fn.movbs4 1
  | 0x81 => plain Fn.movws4 1
  | _ => None
  end.

Definition sh2e_insn_decode_nmd_format (i : Z) : option desc :=
  match f_ic_h i with
  | 0x1 => plain Fn.movls4 1
  | 0x5 => plain Fn.movll4 1
  | _ => None
  end.

Definition sh2e_insn_decode_d_format (i : Z) : option desc :=
  match f_ic8 i with
  | 0xc4 => plain Fn.movblg 1
  | 0xc5 => plain Fn.movwlg 1
  | 0xc6 => plain Fn.movllg 1
  | 0xc0 => plain Fn.movbsg 1
  | 0xc1 => plain Fn.movwsg 1
  | 0xc2 => plain Fn.movlsg 1
  | 0xc7 => plain Fn.mova 1
  | 0x8b => plain Fn.bf 1
  | 0x8f => deferring Fn.bfs 1
  | 0x89 => plain Fn.bt 1
  | 0x8d => deferring Fn.bts 1
  | _ => None
  end.

Definition sh2e_insn_decode_d12_format (i : Z) : option desc :=
  match f_ic_h i with
  | 0xa => deferring Fn.bra 2
  | 0xb => deferring Fn.bsr 2
  | _ => None
  end.

Definition sh2e_insn_decode_nd8_format (i : Z) : option desc :=
  match f_ic_h i with
  | 0x9 => plain Fn.movwi 1
  | 0xd => plain Fn.movli 1
  | _ => None
  end.

Definition sh2e_insn_decode_i_format (i : Z) : option desc :=
  match f_ic8 i with
  | 0xcc => plain Fn.tstm 3
  | 0xcd => plain Fn.andm 3
  | 0xce => plain Fn.xorm 3
  | 0xcf => plain Fn.orm 3
  | 0x88 => plain Fn.cmpim 1
  | 0xc8 => plain Fn.tsti 1
  | 0xc9 => plain Fn.andi 1
  | 0xca => plain Fn.xori 1
  | 0xcb => plain Fn.ori 1
  | 0xc3 => plain Fn.trapa 8
  | _ => None
  end.

Definition sh2e_insn_decode_ni_format (i : Z) : option desc :=
  match f_ic_h i with
  | 0x7 => plain Fn.addi 1
  | 0xe => plain Fn.movi 1
  | _ => None
  end.

Definition sh2e_insn_decode_msim_format (machine_specific_instructions : bool) (i : Z) : option desc :=
  match i with
  | 0x8200 => if machine_specific_instructions then plain Fn.halt 1 else Some illegal
  | 0x8201 => if machine_specific_instructions then plain Fn.cpu_reg_dump 1 else Some illegal
  | 0x8202 => if machine_specific_instructions then plain Fn.fpu_reg_dump 1 else Some illegal
  | _ => None
  end.

(** The first format that knows the word. *)
Definition orelse (d d' : option desc) : option desc := match d with Some _ => d | None => d' end.

Definition sh2e_insn_decode_group (machine_specific_instructions : bool) (i : Z) : option desc :=
  match Z.shiftr i 12 with
  | 0 =>
      orelse (sh2e_insn_decode_z_format i) (orelse (sh2e_insn_decode_n_format i)
        (orelse (sh2e_insn_decode_m_format i) (sh2e_insn_decode_nm_format i)))
  | 1 | 5 => sh2e_insn_decode_nmd_format i
  | 2 | 3 | 6 => sh2e_insn_decode_nm_format i
  | 4 =>
      orelse (sh2e_insn_decode_n_format i)
        (orelse (sh2e_insn_decode_m_format i) (sh2e_insn_decode_nm_format i))
  | 7 | 14 => sh2e_insn_decode_ni_format i
  | 8 =>
      orelse (sh2e_insn_decode_md_format i) (orelse (sh2e_insn_decode_nd4_format i)
        (orelse (sh2e_insn_decode_d_format i) (orelse (sh2e_insn_decode_i_format i)
          (sh2e_insn_decode_msim_format machine_specific_instructions i))))
  | 9 | 13 => sh2e_insn_decode_nd8_format i
  | 10 | 11 => sh2e_insn_decode_d12_format i
  | 12 => orelse (sh2e_insn_decode_d_format i) (sh2e_insn_decode_i_format i)
  | 15 =>
      orelse (sh2e_insn_decode_n_format_fpu i) (orelse (sh2e_insn_decode_m_format_fpu i)
        (sh2e_insn_decode_nm_format_fpu i))
  | _ => None
  end.

Definition sh2e_insn_decode (machine_specific_instructions : bool) (i : Z) : desc :=
  default illegal (sh2e_insn_decode_group machine_specific_instructions i).
