(* ===== verification/ShIntc.v ===== *)
(** * Interrupt controllers (device/intc, device/dsh2eintc.c)

    The interrupt controller of the SH-2E (intc/superh_sh2e/intc.c), the table of
    controllers through which a processor reaches its own (intc/general_intc.c) and
    the device with its memory-mapped registers.  An output parameter is an optional
    result: [None] when the function leaves it alone.  Arguments of the commands are
    the values of their parameters. *)

From S2P Require Import Prelude DevHost ShTypes.

Definition SH2E_INTC_REGISTERS_START_ADDRESS : Z := 0xFFFFED00.
Definition SH2E_INTC_IPR_REGISTERS_COUNT : Z := 12.
Definition SH2E_INTC_SYSTEM_REGISTERS_COUNT : Z := 2.
Definition SH2E_INTC_PRIORITY_MAX_VALUE : Z := 15.
Definition SH2E_INTC_SOURCE_MAX_VALUE : Z := 255.
Definition SH2E_INTC_IPR_HALF_BYTES_LENGTH : Z := SH2E_INTC_IPR_REGISTERS_COUNT * 4.
Definition SH2E_INTC_IRQ_NUMBER_OF_SOURCES : Z := 8.
Definition SH2E_INTC_POWER_ON_RESET_EXTERNAL_OFFSET : Z := 0.
Definition SH2E_INTC_POWER_ON_RESET_INTERNAL_OFFSET : Z := 1.
Definition SH2E_INTC_MANUAL_RESET_OFFSET : Z := 2.
Definition SH2E_INTC_NMI_VECTOR_ADDRESS_OFFSET : Z := 11.
Definition SH2E_INTC_UBC_VECTOR_ADDRESS_OFFSET : Z := 12.
Definition SH2E_INTC_DMAC_VECTOR_ADDRESS_OFFSET : Z := 10.
Definition SH2E_INTC_HUDI_VECTOR_ADDRESS_OFFSET : Z := 14.
Definition SH2E_INTC_IRQ_VECTOR_ADDRESS_OFFSET : Z := 64.
Definition SH2E_INTC_SLEEP_MODE_OFFSET : Z := 5.
Definition SH2E_INTC_HARDWARE_STANBY_MODE_OFFSET : Z := 7.
Definition SH2E_INTC_SOFTWARE_STANBY_MODE_OFFSET : Z := 8.

Definition SH2E_INTC_VALID_RESET_ID (n : Z) : bool := n <=? SH2E_INTC_MANUAL_RESET_OFFSET.
Definition SH2E_INTC_VALID_IRQ_SOURCE_ID (n : Z) : bool :=
  (n >=? SH2E_INTC_IRQ_VECTOR_ADDRESS_OFFSET) &&
  (n <? SH2E_INTC_IRQ_VECTOR_ADDRESS_OFFSET + SH2E_INTC_IRQ_NUMBER_OF_SOURCES).
Definition SH2E_INTC_VALID_OTHER_SOURCE_ID (n : Z) : bool :=
  (n >=? SH2E_INTC_IRQ_VECTOR_ADDRESS_OFFSET + SH2E_INTC_IRQ_NUMBER_OF_SOURCES) &&
  (n <=? SH2E_INTC_SOURCE_MAX_VALUE).
Definition SH2E_INTC_VALID_SOURCE_ID (n : Z) : bool :=
  SH2E_INTC_VALID_RESET_ID n || (n =? SH2E_INTC_HUDI_VECTOR_ADDRESS_OFFSET) ||
  (n =? SH2E_INTC_UBC_VECTOR_ADDRESS_OFFSET) || SH2E_INTC_VALID_IRQ_SOURCE_ID n ||
  SH2E_INTC_VALID_OTHER_SOURCE_ID n.

(** ** State *)
Record sh2e_intc_source := mk_source {
  priority_pool_index : Z;
  registered : bool;
  pending : bool
}.
Definition zero_source : sh2e_intc_source := mk_source 0 false false.

#[export] Instance eta_source : Eta sh2e_intc_source := λ s,
  mk_source (priority_pool_index s) (registered s) (pending s).
#[export] Instance set_priority_pool_index : SetField priority_pool_index := ltac:(derive_set_field).
#[export] Instance set_registered : SetField registered := ltac:(derive_set_field).
#[export] Instance set_pending : SetField pending := ltac:(derive_set_field).

(** Absent entries of the arrays are zero. *)
Record sh2e_intc := mk_intc {
  regs_addr : Z;
  priority : gmap Z Z;
  icr : Z;
  isr : Z;
  nmi_prev_value : Z;
  sources : gmap Z sh2e_intc_source;
  interrupt_out : Z;
  priority_out : Z;
  accepted_interrupts : Z;
  accepted_resets : Z;
  intc_id : Z
}.

#[export] Instance eta_intc : Eta sh2e_intc := λ c,
  mk_intc (regs_addr c) (priority c) (icr c) (isr c) (nmi_prev_value c) (sources c) (interrupt_out c)
    (priority_out c) (accepted_interrupts c) (accepted_resets c) (intc_id c).
#[export] Instance set_priority : SetField priority := ltac:(derive_set_field).
#[export] Instance set_icr : SetField icr := ltac:(derive_set_field).
#[export] Instance set_isr : SetField isr := ltac:(derive_set_field).
#[export] Instance set_nmi_prev_value : SetField nmi_prev_value := ltac:(derive_set_field).
#[export] Instance set_sources : SetField sources := ltac:(derive_set_field).
#[export] Instance set_interrupt_out : SetField interrupt_out := ltac:(derive_set_field).
#[export] Instance set_priority_out : SetField priority_out := ltac:(derive_set_field).
#[export] Instance set_accepted_interrupts : SetField accepted_interrupts := ltac:(derive_set_field).
#[export] Instance set_accepted_resets : SetField accepted_resets := ltac:(derive_set_field).

Definition source (n : Z) (c : sh2e_intc) : sh2e_intc_source := default zero_source (sources c !! n).
Definition set_source (n : Z) (s : sh2e_intc_source) (c : sh2e_intc) : sh2e_intc :=
  c <| sources := <[n := s]> (sources c) |>.
Definition prio_reg (n : Z) (c : sh2e_intc) : Z := default 0 (priority c !! n).
Definition set_prio_reg (n v : Z) (c : sh2e_intc) : sh2e_intc := c <| priority := <[n := v]> (priority c) |>.
Definition set_source_pending (n : Z) (b : bool) (c : sh2e_intc) : sh2e_intc :=
  set_source n ((source n c) <| pending := b |>) c.

(** The members of ICR: a reserved field of four bits puts NMIL at bit 13. *)
Definition icr_nmie (c : sh2e_intc) : Z := ubits (icr c) 8 1.
Definition icr_nmil (c : sh2e_intc) : Z := ubits (icr c) 13 1.

(** ** Registers *)
Abbreviation I := sh2e_intc.

Definition sh2e_intc_icr_reg_write (v : Z) (c : I) : I := c <| icr := v |>.
Definition sh2e_intc_isr_reg_write (v : Z) (c : I) : I := c <| isr := v |>.
Definition sh2e_intc_priority_register_read (index : Z) : st I Z :=
  c_assert (index <? SH2E_INTC_IPR_REGISTERS_COUNT);; gets (prio_reg index).
Definition sh2e_intc_priority_register_write (index v : Z) : st I unit :=
  c_assert (index <? SH2E_INTC_IPR_REGISTERS_COUNT);; modify (set_prio_reg index v).

Definition sh2e_intc_init_regs (c : I) : I := c <| priority := ∅ |> <| icr := 0 |> <| isr := 0 |>.
Definition sh2e_intc_init (no addr : Z) : I :=
  sh2e_intc_init_regs (mk_intc addr ∅ 0 0 0 ∅ 0 0 0 0 no).

(** ** Sources *)

(** The place of a half byte in its register. *)
Definition prio_shift (pool_index : Z) : Z := (3 - pool_index mod 4) * 4.

Definition sh2e_intc_add_interrupt_source (source_id pool_index prio : Z) : st I unit :=
  c_assert (SH2E_INTC_VALID_SOURCE_ID source_id);;
  c_assert (pool_index <? SH2E_INTC_IPR_HALF_BYTES_LENGTH);;
  c_assert (prio <=? SH2E_INTC_PRIORITY_MAX_VALUE);;
  c ← get_st;
  if registered (source source_id c) then stop AssertFailed
  else
    modify (set_source source_id (mk_source pool_index true false));;
    if negb (SH2E_INTC_VALID_RESET_ID source_id) then
      let shift := prio_shift pool_index in
      let n := pool_index / 4 in
      modify (λ c, set_prio_reg n (Z.land (prio_reg n c) (c_not 16 (Z.shiftl 0xF shift))) c);;
      modify (λ c, set_prio_reg n (Z.lor (prio_reg n c) (Z.shiftl (Z.land prio 0xF) shift)) c)
    else mret tt.

(** ** Requests *)
Definition sh2e_check_nmi_interrupt (c : I) : bool :=
  if truthy (icr_nmie c) then (nmi_prev_value c =? 0) && truthy (icr_nmil c)
  else negb (nmi_prev_value c =? 0) && negb (truthy (icr_nmil c)).

Definition sh2e_check_nmi_and_update_nmi_prev_value : st I bool :=
  detected ← gets sh2e_check_nmi_interrupt;
  modify (λ c, c <| nmi_prev_value := icr_nmil c |>);;
  mret detected.

Definition irq_shift (irq_index : Z) : Z := 7 - irq_index.
Definition sh2e_check_irq_interrupt (irq_index : Z) (c : I) : bool :=
  truthy (Z.land (Z.shiftr (isr c) (irq_shift irq_index)) 1).
Definition sh2e_assert_irq_interrupt (irq_index : Z) (c : I) : I :=
  c <| isr := Z.lor (isr c) (Z.shiftl 1 (irq_shift irq_index)) |>.
Definition sh2e_clear_irq_interrupt (irq_index : Z) (c : I) : I :=
  let irq_sense := Z.land (Z.shiftr (icr c) (irq_shift irq_index)) 1 in
  if truthy irq_sense then c <| isr := Z.land (isr c) (c_not 16 (Z.shiftl 1 (irq_shift irq_index))) |> else c.

Definition sh2e_get_priority (s : sh2e_intc_source) (c : I) : Z :=
  Z.land (Z.shiftr (prio_reg (priority_pool_index s / 4) c) (prio_shift (priority_pool_index s))) 0x0F.

(** One turn of the loop over the sources; [best] is the source with its priority. *)
Definition source_pending (n : Z) (c : I) : bool :=
  if SH2E_INTC_VALID_IRQ_SOURCE_ID n then sh2e_check_irq_interrupt (n - SH2E_INTC_IRQ_VECTOR_ADDRESS_OFFSET) c
  else pending (source n c).
Definition check_source (mask : Z) (c : I) (best : Z * Z) (n : Z) : Z * Z :=
  let '(interrupt_source, interrupt_priority) := best in
  if SH2E_INTC_VALID_SOURCE_ID n && registered (source n c) && source_pending n c then
    let curr_priority := sh2e_get_priority (source n c) c in
    if ((curr_priority >? interrupt_priority) || (interrupt_source =? 0)) && (curr_priority >? mask)
    then (n, curr_priority) else best
  else best.

(** The loop runs from one past the first IRQ source to one before the last source. *)
Definition checked_sources : list Z := seqZ (SH2E_INTC_IRQ_VECTOR_ADDRESS_OFFSET + 1)
  (SH2E_INTC_SOURCE_MAX_VALUE - (SH2E_INTC_IRQ_VECTOR_ADDRESS_OFFSET + 1)).
Definition check_sources (mask : Z) (c : I) : Z * Z := foldl (check_source mask c) (0, 0) checked_sources.

Definition sh2e_check_pending_interrupts (mask : Z) : st I (bool * option Z) :=
  nmi ← sh2e_check_nmi_and_update_nmi_prev_value;
  if (nmi : bool) then
    modify (λ c, c <| interrupt_out := SH2E_INTC_NMI_VECTOR_ADDRESS_OFFSET |>
      <| priority_out := SH2E_INTC_PRIORITY_MAX_VALUE |>);;
    mret (truthy SH2E_INTC_NMI_VECTOR_ADDRESS_OFFSET, None)
  else
    '(interrupt_source, interrupt_priority) ← gets (check_sources mask);
    modify (λ c, c <| priority_out := interrupt_priority |> <| interrupt_out := interrupt_source |>);;
    if truthy interrupt_source then mret (true, Some interrupt_source) else mret (false, None).

Definition reset_pending (n : Z) (c : I) : bool := registered (source n c) && pending (source n c).
Definition sh2e_check_pending_resets : st I (bool * option Z) :=
  c ← get_st;
  mret
    (if reset_pending SH2E_INTC_POWER_ON_RESET_EXTERNAL_OFFSET c
     then (true, Some SH2E_INTC_POWER_ON_RESET_EXTERNAL_OFFSET)
     else if reset_pending SH2E_INTC_POWER_ON_RESET_INTERNAL_OFFSET c
     then (true, Some SH2E_INTC_POWER_ON_RESET_INTERNAL_OFFSET)
     else if reset_pending SH2E_INTC_MANUAL_RESET_OFFSET c
     then (true, Some SH2E_INTC_MANUAL_RESET_OFFSET)
     else (false, None)).

Definition sh2e_accept_interrupt : st I Z :=
  new_mask ← gets priority_out;
  modify (λ c, c <| priority_out := 0 |>);;
  modify (λ c,
    if SH2E_INTC_VALID_IRQ_SOURCE_ID (interrupt_out c)
    then sh2e_clear_irq_interrupt (interrupt_out c - SH2E_INTC_IRQ_VECTOR_ADDRESS_OFFSET) c
    else (set_source_pending (interrupt_out c) false c) <| interrupt_out := 0 |>);;
  modify (λ c, c <| accepted_interrupts := u32 (accepted_interrupts c + 1) |>);;
  mret new_mask.

Definition sh2e_accept_reset (c : I) : I :=
  let c := set_source_pending SH2E_INTC_POWER_ON_RESET_EXTERNAL_OFFSET false c in
  let c := set_source_pending SH2E_INTC_POWER_ON_RESET_INTERNAL_OFFSET false c in
  let c := set_source_pending SH2E_INTC_MANUAL_RESET_OFFSET false c in
  c <| accepted_resets := u32 (accepted_resets c + 1) |>.

Definition on_source (num : Z) (irq other : I → I) : st I unit :=
  c_assert (SH2E_INTC_VALID_SOURCE_ID num);;
  c ← get_st;
  c_assert (registered (source num c));;
  modify (if SH2E_INTC_VALID_IRQ_SOURCE_ID num then irq else other).
Definition sh2e_intc_assert_interrupt (num : Z) : st I unit :=
  on_source num (sh2e_assert_irq_interrupt (num - SH2E_INTC_IRQ_VECTOR_ADDRESS_OFFSET))
    (set_source_pending num true).
Definition sh2e_intc_deassert_interrupt (num : Z) : st I unit :=
  on_source num (sh2e_clear_irq_interrupt (num - SH2E_INTC_IRQ_VECTOR_ADDRESS_OFFSET))
    (set_source_pending num false).

(** ** The table of controllers (general_intc.c) *)
Record general_intc := mk_general_intc {
  intcno : Z;
  intc_data : sh2e_intc
}.
#[export] Instance eta_general_intc : Eta general_intc := λ g, mk_general_intc (intcno g) (intc_data g).
#[export] Instance set_intc_data : SetField intc_data := ltac:(derive_set_field).

Definition MAX_INTCS : Z := 32.
Abbreviation intcs := (list general_intc).

Definition get_intc (no : Z) (l : intcs) : option general_intc :=
  head (filter (λ g, intcno g = no) l).

(** The set of numbers in use is a 32-bit mask; a number above 31 has no meaning. *)
Definition intc_id_mask (l : intcs) : Z := foldl (λ m g, Z.lor m (wrap 32 (Z.shiftl 1 (intcno g)))) 0 l.
Fixpoint free_intcno_loop (n : nat) (c id_mask : Z) : Z :=
  match n with
  | O => MAX_INTCS
  | S n' => if negb (truthy (Z.land id_mask 1)) then c else free_intcno_loop n' (c + 1) (Z.shiftr id_mask 1)
  end.
Definition get_free_intcno (l : intcs) : Z := free_intcno_loop 32 0 (intc_id_mask l).
Definition add_intc (g : general_intc) (l : intcs) : intcs := l ++ [g].
Definition remove_intc (no : Z) (l : intcs) : intcs := filter (λ g, intcno g ≠ no) l.

Definition get_fallback_intc (l : intcs) : option general_intc :=
  match get_intc 0 l with Some g => Some g | None => head l end.

(** The controller a pointer stands for: the null pointer stands for the fallback. *)
Definition intc_of (p : option Z) : st intcs general_intc :=
  l ← get_st;
  match p with
  | Some no => match get_intc no l with Some g => mret g | None => stop UndefinedBehaviour end
  | None => match get_fallback_intc l with Some g => mret g | None => stop AssertFailed end
  end.

Definition put_intc (g : general_intc) (l : intcs) : intcs :=
  map (λ g', if intcno g' =? intcno g then g else g') l.

(** A call of an operation of the controller. *)
Definition on_intc {A} (p : option Z) (m : st sh2e_intc A) : st intcs A :=
  g ← intc_of p;
  match m (intc_data g) with
  | Done (a, d) => modify (put_intc (g <| intc_data := d |>));; mret a
  | Stop e => stop e
  end.

Definition intc_interrupt_up (p : option Z) (no : Z) : st intcs unit := on_intc p (sh2e_intc_assert_interrupt no).
Definition intc_interrupt_down (p : option Z) (no : Z) : st intcs unit := on_intc p (sh2e_intc_deassert_interrupt no).
Definition intc_check_interrupts (p : option Z) (mask : Z) : st intcs (bool * option Z) :=
  on_intc p (sh2e_check_pending_interrupts mask).
Definition intc_accept_interrupt (p : option Z) : st intcs Z := on_intc p sh2e_accept_interrupt.
Definition intc_check_resets (p : option Z) : st intcs (bool * option Z) := on_intc p sh2e_check_pending_resets.
Definition intc_accept_reset (p : option Z) : st intcs unit := on_intc p (modify sh2e_accept_reset).
Definition intc_init (p : option Z) : st intcs unit := on_intc p (modify sh2e_intc_init_regs).

(** ** The device (dsh2eintc.c) *)
Definition dsh2eintc_cmd_init (addr : option Z) : st intcs (option Z) :=
  let a := default SH2E_INTC_REGISTERS_START_ADDRESS addr in
  l ← get_st;
  let no := get_free_intcno l in
  if no =? MAX_INTCS then mret None
  else if negb (register_block_ok a ((SH2E_INTC_IPR_REGISTERS_COUNT + SH2E_INTC_SYSTEM_REGISTERS_COUNT) * 2))
  then mret None
  else modify (add_intc (mk_general_intc no (sh2e_intc_init no a)));; mret (Some no).

(** Source and priority are narrowed to eight bits on the way. *)
Definition dsh2eintc_cmd_add_interrupt_source (source_id pool_index prio : Z) : st I unit :=
  sh2e_intc_add_interrupt_source (wrap 8 source_id) (wrap 8 pool_index) (wrap 8 prio).

(** The register at an offset: a priority register, ICR or ISR. *)
Definition intc_offset (addr : Z) (c : I) : Z := wrap 64 (addr - regs_addr c).
Definition is_ipr_offset (off : Z) : bool := (off <=? 0x16) && (off mod 2 =? 0).

Definition dsh2eintc_read16 (addr : Z) : st I (option Z) :=
  c ← get_st;
  let off := intc_offset addr c in
  if is_ipr_offset off then v ← sh2e_intc_priority_register_read (off / 2); mret (Some (be16toh v))
  else if off =? 0x18 then mret (Some (be16toh (icr c)))
  else if off =? 0x1A then mret (Some (be16toh (isr c)))
  else mret None.

Definition dsh2eintc_write16 (addr val : Z) : st I unit :=
  c ← get_st;
  let off := intc_offset addr c in
  let be_val := be16toh val in
  if is_ipr_offset off then sh2e_intc_priority_register_write (off / 2) be_val
  else if off =? 0x18 then modify (sh2e_intc_icr_reg_write be_val)
  else if off =? 0x1A then modify (sh2e_intc_isr_reg_write be_val)
  else mret tt.

(** ** Which request is chosen *)

(** A request that the controller may deliver above the processor's mask. *)
Definition requests (c : I) (n : Z) : bool :=
  SH2E_INTC_VALID_SOURCE_ID n && registered (source n c) && source_pending n c.
Definition prio_of (c : I) (n : Z) : Z := sh2e_get_priority (source n c) c.
Definition deliverable (mask : Z) (c : I) (n : Z) : Prop := requests c n = true ∧ mask < prio_of c n.

(** [best] is the choice among [l]: a source with the greatest priority, the first of
    them in the list. *)
Definition chosen (mask : Z) (c : I) (l : list Z) (best : Z * Z) : Prop :=
  (best = (0, 0) ∧ ∀ m, m ∈ l → ¬ deliverable mask c m) ∨
  (best.1 ∈ l ∧ best.1 ≠ 0 ∧ best.2 = prio_of c best.1 ∧ deliverable mask c best.1 ∧
   ∃ l1 l2, l = l1 ++ best.1 :: l2 ∧
     (∀ m, m ∈ l1 → deliverable mask c m → prio_of c m < best.2) ∧
     (∀ m, m ∈ l2 → deliverable mask c m → prio_of c m ≤ best.2)).

Lemma chosen_skip mask c l best n : ¬ deliverable mask c n → chosen mask c l best → chosen mask c (l ++ [n]) best.
Proof.
  intros Hn [[-> H]|(Hin & H0 & Hp & Hd & l1 & l2 & -> & H1 & H2)]; [left|right].
  - split; [done|]. intros m [Hm| ->%list_elem_of_singleton]%elem_of_app; auto.
  - split_and!; [by apply elem_of_app; left|done..|]. exists l1, (l2 ++ [n]).
    split_and!; [by rewrite <- app_assoc|done|].
    intros m [Hm| ->%list_elem_of_singleton]%elem_of_app; [by apply H2|done].
Qed.

Lemma chosen_keep mask c l best n : prio_of c n ≤ best.2 → best.1 ≠ 0 → chosen mask c l best → chosen mask c (l ++ [n]) best.
Proof.
  intros Hn Hb [[-> H]|(Hin & H0 & Hp & Hd & l1 & l2 & -> & H1 & H2)]; [done|right].
  split_and!; [by apply elem_of_app; left|done..|]. exists l1, (l2 ++ [n]).
  split_and!; [by rewrite <- app_assoc|done|].
  intros m [Hm| ->%list_elem_of_singleton]%elem_of_app; [by apply H2|done].
Qed.

Lemma chosen_new mask c l best n : deliverable mask c n → n ≠ 0 → best.2 < prio_of c n ∨ best.1 = 0 →
  chosen mask c l best → chosen mask c (l ++ [n]) (n, prio_of c n).
Proof.
  intros Hd Hn Hgt Hc. right. cbn. split_and!; [apply elem_of_app; right; by apply list_elem_of_singleton|done..|].
  exists l, []. split_and!; [done| |by intros m ?%not_elem_of_nil].
  destruct Hc as [[-> H]|(Hin & H0 & Hp & _ & l1 & l2 & -> & H1 & H2)]; [intros m Hm Hdm; by destruct (H m Hm)|].
  assert (best.2 < prio_of c n) as Hlt by tauto.
  intros m [Hm|[->|Hm]%elem_of_cons]%elem_of_app Hdm;
    [specialize (H1 m Hm Hdm)| |specialize (H2 m Hm Hdm)]; lia.
Qed.

Lemma check_source_chosen mask c l best n : n ≠ 0 → chosen mask c l best →
  chosen mask c (l ++ [n]) (check_source mask c best n).
Proof.
  intros Hn Hc. destruct best as [s p]. unfold check_source. fold (requests c n) (prio_of c n).
  destruct (requests c n) eqn:Hr; [|apply chosen_skip; [by intros [? ?]; congruence|done]].
  destruct (Z.gtb_spec (prio_of c n) mask) as [Hm|Hm].
  2: { rewrite andb_false_r. apply chosen_skip; [intros [? ?]; lia|done]. }
  rewrite andb_true_r. destruct (Z.gtb_spec (prio_of c n) p), (Z.eqb_spec s 0); cbn [orb];
    try (eapply chosen_new; [by split|done| |exact Hc]; cbn; tauto).
  by apply chosen_keep.
Qed.

Lemma checked_chosen mask c : chosen mask c checked_sources (check_sources mask c).
Proof.
  unfold check_sources. assert (∀ l l0 best, (∀ n, n ∈ l → n ≠ 0) → chosen mask c l0 best →
    chosen mask c (l0 ++ l) (foldl (check_source mask c) best l)) as Hf.
  { induction l as [|n l IH]; intros l0 best Hl Hc; cbn [foldl]; [by rewrite app_nil_r|].
    replace (l0 ++ n :: l) with ((l0 ++ [n]) ++ l) by by rewrite <- app_assoc.
    apply IH; [intros m Hm; apply Hl; by right|]. apply check_source_chosen; [apply Hl; by left|done]. }
  apply (Hf checked_sources []).
  - intros n Hn. apply elem_of_seqZ in Hn. unfold SH2E_INTC_IRQ_VECTOR_ADDRESS_OFFSET in Hn. lia.
  - left. split; [done|]. by intros m ?%not_elem_of_nil.
Qed.

Lemma seqZ_after a k l1 n l2 m : seqZ a k = l1 ++ n :: l2 → m ∈ l2 → n < m.
Proof.
  intros E Hm. apply list_elem_of_lookup in Hm as [j Hj].
  assert (seqZ a k !! length l1 = Some n) as Hn by (rewrite E; by apply list_lookup_middle).
  assert (seqZ a k !! (length l1 + S j)%nat = Some m) as Hm
    by (rewrite E, lookup_app_r by lia; by replace (length l1 + S j - length l1)%nat with (S j) by lia).
  apply lookup_seqZ in Hn, Hm. lia.
Qed.

Lemma check_sources_nmi mask v c : check_sources mask (c <| nmi_prev_value := v |>) = check_sources mask c.
Proof.
  unfold check_sources. generalize (0, 0) as best, checked_sources as l. intros best l. revert best.
  induction l as [|n l IH]; intros best; [done|]. apply IH.
Qed.

(** C13: the interrupt the SH-2E is offered.  Without an edge on NMI the controller
    answers with a registered and pending request above the mask that has the greatest
    priority, the lowest number among equals, and latches it; it answers none exactly
    when there is no such request.  Only the sources from 65 to 254 take part: the
    request on IRQ0 and the one of source 255 are never delivered. *)
Theorem interrupt_arbitration mask c : sh2e_check_nmi_interrupt c = false →
  ∃ answer c', sh2e_check_pending_interrupts mask c = Done (answer, c') ∧
    match answer with
    | (true, Some n) =>
        65 ≤ n ≤ 254 ∧ deliverable mask c n ∧ interrupt_out c' = n ∧ priority_out c' = prio_of c n ∧
        ∀ m, 65 ≤ m ≤ 254 → deliverable mask c m → prio_of c m < prio_of c n ∨ (prio_of c m = prio_of c n ∧ n ≤ m)
    | (false, None) => ∀ m, 65 ≤ m ≤ 254 → ¬ deliverable mask c m
    | _ => False
    end.
Proof.
  intros Hnmi. pose proof (checked_chosen mask c) as Hc.
  unfold sh2e_check_pending_interrupts, sh2e_check_nmi_and_update_nmi_prev_value. msimpl. rewrite Hnmi.
  rewrite check_sources_nmi.
  assert (∀ m, 65 ≤ m ≤ 254 → m ∈ checked_sources) as Hall 
    by (intros m Hm; apply elem_of_seqZ; unfold SH2E_INTC_IRQ_VECTOR_ADDRESS_OFFSET, SH2E_INTC_SOURCE_MAX_VALUE; lia).
  destruct Hc as [[-> H]|(Hin & H0 & Hp & Hd & l1 & l2 & El & H1 & H2)].
  - eexists _, _. split; [reflexivity|]. cbn. auto.
  - destruct (check_sources mask c) as [n p]. cbn in *. unfold truthy. rewrite (proj2 (Z.eqb_neq _ _) H0). cbn.
    eexists _, _. split; [reflexivity|]. cbn. apply elem_of_seqZ in Hin.
    unfold SH2E_INTC_IRQ_VECTOR_ADDRESS_OFFSET, SH2E_INTC_SOURCE_MAX_VALUE in Hin.
    split; [lia|]. split; [exact Hd|]. split_and!; [done|done|].
    intros m Hm Hdm. specialize (Hall m Hm). rewrite El in Hall. subst p.
    apply elem_of_app in Hall as [Hm1|[->|Hm2]%elem_of_cons].
    + left. by apply H1.
    + right. lia.
    + pose proof (seqZ_after _ _ _ _ _ m El Hm2). specialize (H2 m Hm2 Hdm). lia.
Qed.

(** Two requests of equal priority and a weaker one. *)
Lemma interrupt_arbitration_witness :
  let c := set_prio_reg 0 0x5530 (foldr (λ n c, set_source n (mk_source (n - 72) true true) c)
             (sh2e_intc_init 0 SH2E_INTC_REGISTERS_START_ADDRESS) [72; 73; 74]) in
  ∃ answer c', sh2e_check_pending_interrupts 4 c = Done (answer, c') ∧ answer = (true, Some 72) ∧ interrupt_out c' = 72.
Proof.
  intros c. destruct (interrupt_arbitration 4 c) as (answer & c' & E & Ha); [by vm_compute|].
  exists answer, c'. split; [exact E|]. assert (answer = (true, Some 72)) as Hr.
  { enough (fst <$> (match sh2e_check_pending_interrupts 4 c with Done r => Some r | Stop _ => None end) = Some (true, Some 72)) as Hx
      by (rewrite E in Hx; by injection Hx). by vm_compute. }
  split; [exact Hr|]. rewrite Hr in Ha. apply Ha.
Defined.
