(* ===== verification/ShPeri.v ===== *)
(** * On-chip peripherals of the SH-2E: state and registers

    The compare match timer (dsh2ecmt.c), the watchdog timer (dsh2ewdt.c) and the
    direct memory access controller (dsh2edmac.c): their data, what a reset or a
    change of the processor's state does to them ([interrupt_up_from_cpu]), the
    accounting of cycles and the accesses to their registers.  Their steps, which
    involve the processor, are in [ShDev].

    A device that was allocated but not initialised has unspecified contents, which
    the [init] commands receive as an argument.  A pointer to a processor is the
    processor's number.  Registers are in network byte order on the bus. *)

From S2P Require Import Prelude DevHost ShTypes ShIntc.

(** [uint_fast16_t] of the supported hosts. *)
Definition fast16 (v : Z) : Z := wrap 64 v.

(** A byte of a 16-bit register, and the register with a byte replaced. *)
Definition read_byte_from_register (reg : Z) (upper_byte : bool) : Z :=
  if upper_byte then Z.land (Z.shiftr reg 8) 0xFF else Z.land reg 0xFF.
Definition write_byte_to_register (reg : Z) (upper_byte : bool) (val : Z) : Z :=
  if upper_byte then Z.lor (Z.land reg 0x00FF) (Z.shiftl val 8) else Z.lor (Z.land reg 0xFF00) val.

(** ** Compare match timer *)
Module Cmt.
Record channel := mk_channel { cmcsr : Z; cmcnt : Z; cmcor : Z }.
#[export] Instance eta_channel : Eta channel := λ c, mk_channel (cmcsr c) (cmcnt c) (cmcor c).
#[export] Instance set_cmcsr : SetField cmcsr := ltac:(derive_set_field).
#[export] Instance set_cmcnt : SetField cmcnt := ltac:(derive_set_field).
#[export] Instance set_cmcor : SetField cmcor := ltac:(derive_set_field).

Record sh2e_cmt := mk_cmt {
  cpu : option Z;
  regs_addr : Z;
  cmstr : Z;
  channel0 : channel;
  channel1 : channel;
  cpu_cycles : Z;
  counter0 : Z;
  counter1 : Z;
  int_no_first_channel : Z;
  int_no_second_channel : Z;
  interrupts_channel_0_count : Z;
  interrupts_channel_1_count : Z
}.
#[export] Instance eta_cmt : Eta sh2e_cmt := λ c,
  mk_cmt (cpu c) (regs_addr c) (cmstr c) (channel0 c) (channel1 c) (cpu_cycles c) (counter0 c) (counter1 c)
    (int_no_first_channel c) (int_no_second_channel c) (interrupts_channel_0_count c)
    (interrupts_channel_1_count c).
#[export] Instance set_cpu : SetField cpu := ltac:(derive_set_field).
#[export] Instance set_cmstr : SetField cmstr := ltac:(derive_set_field).
#[export] Instance set_channel0 : SetField channel0 := ltac:(derive_set_field).
#[export] Instance set_channel1 : SetField channel1 := ltac:(derive_set_field).
#[export] Instance set_cpu_cycles : SetField cpu_cycles := ltac:(derive_set_field).
#[export] Instance set_counter0 : SetField counter0 := ltac:(derive_set_field).
#[export] Instance set_counter1 : SetField counter1 := ltac:(derive_set_field).
#[export] Instance set_interrupts0 : SetField interrupts_channel_0_count := ltac:(derive_set_field).
#[export] Instance set_interrupts1 : SetField interrupts_channel_1_count := ltac:(derive_set_field).

(** [channels[n]], for one of the two channels. *)
Definition chan (n : Z) (c : sh2e_cmt) : channel := if n =? 0 then channel0 c else channel1 c.
Definition upd_chan (n : Z) (f : channel → channel) (c : sh2e_cmt) : sh2e_cmt :=
  if n =? 0 then c <| channel0 := f (channel0 c) |> else c <| channel1 := f (channel1 c) |>.

(** The members of CMCSR. *)
Definition cks (ch : channel) : Z := ubits (cmcsr ch) 0 2.
Definition cmie (ch : channel) : Z := ubits (cmcsr ch) 6 1.
Definition cmf (ch : channel) : Z := ubits (cmcsr ch) 7 1.
Definition set_cmf (v : Z) (ch : channel) : channel := ch <| cmcsr := put_bits 16 7 1 v (cmcsr ch) |>.

Definition sh2e_cmt_cmstr_reg_write (value : Z) (c : sh2e_cmt) : sh2e_cmt := c <| cmstr := Z.land value 0x3 |>.
Definition sh2e_cmt_cmcsr_reg_write (value : Z) (ch : channel) : channel :=
  let ch := ch <| cmcsr := put_bits 16 0 2 value (cmcsr ch) |> in
  let ch := ch <| cmcsr := put_bits 16 6 1 (ubits value 6 1) (cmcsr ch) |> in
  if negb (truthy (ubits value 7 1)) then set_cmf 0 ch else ch.

Definition SH2E_CMT_CMCOR_INITIAL_VALUE : Z := 0xFFFF.
Definition sh2e_cmt_reset (c : sh2e_cmt) : sh2e_cmt :=
  c <| counter0 := 0 |> <| counter1 := 0 |> <| cmstr := 0 |>
    <| channel0 := mk_channel 0 0 SH2E_CMT_CMCOR_INITIAL_VALUE |>
    <| channel1 := mk_channel 0 0 SH2E_CMT_CMCOR_INITIAL_VALUE |>.

Definition sh2e_cmt_cpu_cycles_update (cycles : Z) (c : sh2e_cmt) : sh2e_cmt := c <| cpu_cycles := cycles |>.
Definition sh2e_cmt_interrupt_up (int_no : Z) (c : sh2e_cmt) : sh2e_cmt :=
  if (int_no =? SH2E_INTC_POWER_ON_RESET_EXTERNAL_OFFSET) ||
     (int_no =? SH2E_INTC_POWER_ON_RESET_INTERNAL_OFFSET) || (int_no =? SH2E_INTC_SLEEP_MODE_OFFSET)
  then sh2e_cmt_reset c else c.

Definition SH2E_CMT_REGISTERS_START_ADDRESS : Z := 0xFFFFF710.
Definition dsh2ecmt_init (fresh : sh2e_cmt) (int1 int2 : Z) (addr : option Z) : option sh2e_cmt :=
  let a := default SH2E_CMT_REGISTERS_START_ADDRESS addr in
  if register_block_ok a (2 * 6 + 2) then
    Some (sh2e_cmt_reset (mk_cmt (cpu fresh) a (cmstr fresh) (channel0 fresh) (channel1 fresh) 0
      (counter0 fresh) (counter1 fresh) (wrap 32 int1) (wrap 32 int2) 0 0))
  else None.
Definition dsh2ecmt_add_cpu (no : Z) (c : sh2e_cmt) : sh2e_cmt := c <| cpu := Some no |>.

(** The 16-bit registers by offset, and the channel an offset belongs to. *)
Inductive reg16 := CMSTR | CMCSR | CMCNT | CMCOR.
Definition reg_at (off : Z) : option reg16 :=
  match off with
  | 0x0 => Some CMSTR
  | 0x2 | 0x8 => Some CMCSR
  | 0x4 | 0xA => Some CMCNT
  | 0x6 | 0xC => Some CMCOR
  | _ => None
  end.
Definition offset (addr : Z) (c : sh2e_cmt) : Z := wrap 64 (addr - regs_addr c).
Definition channel_num (off : Z) : Z := if off >=? 0x8 then 1 else 0.
Definition reg_value (r : reg16) (n : Z) (c : sh2e_cmt) : Z :=
  match r with
  | CMSTR => cmstr c
  | CMCSR => cmcsr (chan n c)
  | CMCNT => cmcnt (chan n c)
  | CMCOR => cmcor (chan n c)
  end.
Definition reg_write (r : reg16) (n v : Z) (c : sh2e_cmt) : sh2e_cmt :=
  match r with
  | CMSTR => sh2e_cmt_cmstr_reg_write v c
  | CMCSR => upd_chan n (sh2e_cmt_cmcsr_reg_write v) c
  | CMCNT => upd_chan n (λ ch, ch <| cmcnt := v |>) c
  | CMCOR => upd_chan n (λ ch, ch <| cmcor := v |>) c
  end.

Definition dsh2ecmt_read8 (addr : Z) (c : sh2e_cmt) : option Z :=
  let off := offset addr c in
  r ← reg_at (off - off mod 2);
  Some (read_byte_from_register (reg_value r (channel_num off) c) (off mod 2 =? 0)).
Definition dsh2ecmt_read16 (addr : Z) (c : sh2e_cmt) : option Z :=
  let off := offset addr c in
  r ← reg_at off; Some (be16toh (reg_value r (channel_num off) c)).
Definition dsh2ecmt_read32 (addr : Z) (c : sh2e_cmt) : option Z :=
  match offset addr c with
  | 0x0 => Some (be32toh (Z.lor (Z.shiftl (cmstr c) 16) (cmcsr (channel0 c))))
  | 0x4 => Some (be32toh (Z.lor (Z.shiftl (cmcnt (channel0 c)) 16) (cmcor (channel0 c))))
  | 0x8 => Some (be32toh (Z.lor (Z.shiftl (cmcsr (channel1 c)) 16) (cmcnt (channel1 c))))
  | 0xC => Some (be32toh (Z.shiftl (cmcor (channel1 c)) 16))
  | _ => None
  end.

Definition dsh2ecmt_write8 (addr val : Z) (c : sh2e_cmt) : sh2e_cmt :=
  let off := offset addr c in
  match reg_at (off - off mod 2) with
  | Some r => let n := channel_num off in
              reg_write r n (write_byte_to_register (reg_value r n c) (off mod 2 =? 0) val) c
  | None => c
  end.
Definition dsh2ecmt_write16 (addr val : Z) (c : sh2e_cmt) : sh2e_cmt :=
  let off := offset addr c in
  match reg_at off with Some r => reg_write r (channel_num off) (be16toh val) c | None => c end.
Definition dsh2ecmt_write32 (addr val : Z) (c : sh2e_cmt) : sh2e_cmt :=
  let be_value := be32toh val in
  let upper := Z.shiftr be_value 16 in
  let lower := wrap 16 be_value in
  match offset addr c with
  | 0x0 => reg_write CMCSR 0 lower (reg_write CMSTR 0 upper c)
  | 0x4 => reg_write CMCOR 0 lower (reg_write CMCNT 0 upper c)
  | 0x8 => reg_write CMCNT 1 lower (reg_write CMCSR 1 upper c)
  | 0xC => reg_write CMCOR 1 upper c
  | _ => c
  end.
End Cmt.

(** ** Watchdog timer *)
Module Wdt.
Record sh2e_wdt := mk_wdt {
  cpu : option Z;
  regs_addr : Z;
  tcsr : Z;
  tcnt : Z;
  rstcsr : Z;
  cpu_cycles : Z;
  counter : Z;
  int_no : Z;
  int_count : Z;
  manual_resets_count : Z;
  power_on_resets_count : Z
}.
#[export] Instance eta_wdt : Eta sh2e_wdt := λ w,
  mk_wdt (cpu w) (regs_addr w) (tcsr w) (tcnt w) (rstcsr w) (cpu_cycles w) (counter w) (int_no w)
    (int_count w) (manual_resets_count w) (power_on_resets_count w).
#[export] Instance set_cpu : SetField cpu := ltac:(derive_set_field).
#[export] Instance set_tcsr : SetField tcsr := ltac:(derive_set_field).
#[export] Instance set_tcnt : SetField tcnt := ltac:(derive_set_field).
#[export] Instance set_rstcsr : SetField rstcsr := ltac:(derive_set_field).
#[export] Instance set_cpu_cycles : SetField cpu_cycles := ltac:(derive_set_field).
#[export] Instance set_counter : SetField counter := ltac:(derive_set_field).
#[export] Instance set_int_count : SetField int_count := ltac:(derive_set_field).
#[export] Instance set_manual_resets : SetField manual_resets_count := ltac:(derive_set_field).
#[export] Instance set_power_on_resets : SetField power_on_resets_count := ltac:(derive_set_field).

(** The members of TCSR and RSTCSR. *)
Definition cks (w : sh2e_wdt) : Z := ubits (tcsr w) 0 3.
Definition tme (w : sh2e_wdt) : Z := ubits (tcsr w) 5 1.
Definition tms (w : sh2e_wdt) : Z := ubits (tcsr w) 6 1.
Definition set_ovf (v : Z) (w : sh2e_wdt) : sh2e_wdt := w <| tcsr := put_bits 8 7 1 v (tcsr w) |>.
Definition rsts (w : sh2e_wdt) : Z := ubits (rstcsr w) 5 1.
Definition rste (w : sh2e_wdt) : Z := ubits (rstcsr w) 6 1.
Definition set_wovf (v : Z) (w : sh2e_wdt) : sh2e_wdt := w <| rstcsr := put_bits 8 7 1 v (rstcsr w) |>.

Definition sh2e_wdt_tcsr_reg_write (value : Z) (w : sh2e_wdt) : sh2e_wdt :=
  let w := w <| tcsr := put_bits 8 0 3 value (tcsr w) |> in
  let w := w <| tcsr := put_bits 8 5 1 (ubits value 5 1) (tcsr w) |> in
  let w := w <| tcsr := put_bits 8 6 1 (ubits value 6 1) (tcsr w) |> in
  if negb (truthy (ubits value 7 1)) then set_ovf 0 w else w.

Definition sh2e_wdt_tcsr_reset (w : sh2e_wdt) : sh2e_wdt := w <| tcsr := put_bits 8 3 2 0x3 0 |>.
Definition sh2e_wdt_tcnt_reset (w : sh2e_wdt) : sh2e_wdt := w <| tcnt := 0 |>.
Definition sh2e_wdt_rstcsr_reset (w : sh2e_wdt) : sh2e_wdt := w <| rstcsr := put_bits 8 0 5 0x1F 0 |>.

Definition sh2e_wdt_cpu_cycles_update (cycles : Z) (w : sh2e_wdt) : sh2e_wdt := w <| cpu_cycles := cycles |>.
Definition sh2e_wdt_interrupt_up (no : Z) (w : sh2e_wdt) : sh2e_wdt :=
  if (no =? SH2E_INTC_POWER_ON_RESET_EXTERNAL_OFFSET) || (no =? SH2E_INTC_SLEEP_MODE_OFFSET)
  then sh2e_wdt_rstcsr_reset (sh2e_wdt_tcnt_reset (sh2e_wdt_tcsr_reset w))
  else if no =? SH2E_INTC_POWER_ON_RESET_INTERNAL_OFFSET
  then sh2e_wdt_tcnt_reset (sh2e_wdt_tcsr_reset w)
  else w.

Definition SH2E_WDT_REGISTERS_START_ADDRESS : Z := 0xFFFFEC10.
Definition dsh2ewdt_init (fresh : sh2e_wdt) (no : Z) (addr : option Z) : option sh2e_wdt :=
  let a := default SH2E_WDT_REGISTERS_START_ADDRESS addr in
  if register_block_ok a 3 then
    Some (sh2e_wdt_rstcsr_reset (sh2e_wdt_tcnt_reset (sh2e_wdt_tcsr_reset
      (mk_wdt (cpu fresh) a (tcsr fresh) (tcnt fresh) (rstcsr fresh) 0 (counter fresh) (wrap 32 no) 0
        (manual_resets_count fresh) (power_on_resets_count fresh)))))
  else None.
Definition dsh2e_wdt_add_cpu (no : Z) (w : sh2e_wdt) : sh2e_wdt := w <| cpu := Some no |>.

Definition offset (addr : Z) (w : sh2e_wdt) : Z := wrap 64 (addr - regs_addr w).
Definition dsh2ewdt_read8 (addr : Z) (w : sh2e_wdt) : option Z :=
  match offset addr w with
  | 0x0 => Some (tcsr w)
  | 0x1 => Some (tcnt w)
  | 0x3 => Some (rstcsr w)
  | _ => None
  end.

(** Other accesses than these two only report an error. *)
Definition dsh2ewdt_write16 (addr val : Z) (w : sh2e_wdt) : sh2e_wdt :=
  let be_value := be16toh val in
  let upper := Z.land (Z.shiftr be_value 8) 0xFF in
  let lower := Z.land be_value 0xFF in
  match offset addr w with
  | 0x0 =>
      if upper =? 0xA5 then sh2e_wdt_tcsr_reg_write lower w
      else if upper =? 0x5A then w <| tcnt := lower |>
      else w
  | 0x2 =>
      if upper =? 0xA5 then (if lower =? 0 then set_wovf 0 w else w)
      else if upper =? 0x5A then
        let w := w <| rstcsr := put_bits 8 6 1 (ubits lower 6 1) (rstcsr w) |> in
        w <| rstcsr := put_bits 8 5 1 (ubits lower 5 1) (rstcsr w) |>
      else w
  | _ => w
  end.
End Wdt.

(** ** Direct memory access controller *)
Module Dmac.
Inductive sh2e_dmac_transfer_state :=
  | SH2E_DMAC_TRANSFER_STATE_INITIAL
  | SH2E_DMAC_TRANSFER_STATE_WAITING_FOR_REQUEST
  | SH2E_DMAC_TRANSFER_STATE_TRANSFERRING.
#[export] Instance transfer_state_eq_dec : EqDecision sh2e_dmac_transfer_state.
Proof. solve_decision. Defined.

Inductive request_type := RECEIVE | TRANSMIT | DO_NOT_CARE.

Record request_entry := mk_request {
  index : Z;
  pending : bool;
  registered : bool;
  type : request_type;
  peripheral_request_address : Z
}.
#[export] Instance eta_request : Eta request_entry := λ e,
  mk_request (index e) (pending e) (registered e) (type e) (peripheral_request_address e).
#[export] Instance set_pending : SetField pending := ltac:(derive_set_field).

Record channel := mk_channel { sar : Z; dar : Z; tcr : Z; chcr : Z }.
#[export] Instance eta_channel : Eta channel := λ c, mk_channel (sar c) (dar c) (tcr c) (chcr c).
#[export] Instance set_sar : SetField sar := ltac:(derive_set_field).
#[export] Instance set_dar : SetField dar := ltac:(derive_set_field).
#[export] Instance set_tcr : SetField tcr := ltac:(derive_set_field).
#[export] Instance set_chcr : SetField chcr := ltac:(derive_set_field).
Definition zero_channel : channel := mk_channel 0 0 0 0.

Record sh2e_dmac := mk_dmac {
  cpu : option Z;
  regs_addr : Z;
  dmaor : Z;
  channels : gmap Z channel;
  reload_counter : Z;
  interrupt_number : gmap Z Z;
  cpu_cycles : Z;
  transfer_state : sh2e_dmac_transfer_state;
  picked_channel : Z;
  initial_sar2 : Z;
  peripheral_request_table : gmap Z request_entry;
  successful_transfers_count : Z;
  interrupts_count : Z
}.
#[export] Instance eta_dmac : Eta sh2e_dmac := λ d,
  mk_dmac (cpu d) (regs_addr d) (dmaor d) (channels d) (reload_counter d) (interrupt_number d)
    (cpu_cycles d) (transfer_state d) (picked_channel d) (initial_sar2 d) (peripheral_request_table d)
    (successful_transfers_count d) (interrupts_count d).
#[export] Instance set_cpu : SetField cpu := ltac:(derive_set_field).
#[export] Instance set_dmaor : SetField dmaor := ltac:(derive_set_field).
#[export] Instance set_channels : SetField channels := ltac:(derive_set_field).
#[export] Instance set_reload_counter : SetField reload_counter := ltac:(derive_set_field).
#[export] Instance set_cpu_cycles : SetField cpu_cycles := ltac:(derive_set_field).
#[export] Instance set_transfer_state : SetField transfer_state := ltac:(derive_set_field).
#[export] Instance set_picked_channel : SetField picked_channel := ltac:(derive_set_field).
#[export] Instance set_initial_sar2 : SetField initial_sar2 := ltac:(derive_set_field).
#[export] Instance set_request_table : SetField peripheral_request_table := ltac:(derive_set_field).
#[export] Instance set_transfers_count : SetField successful_transfers_count := ltac:(derive_set_field).
#[export] Instance set_interrupts_count : SetField interrupts_count := ltac:(derive_set_field).

(** Absent entries of the arrays are zero. *)
Definition chan (n : Z) (d : sh2e_dmac) : channel := default zero_channel (channels d !! n).
Definition upd_chan (n : Z) (f : channel → channel) (d : sh2e_dmac) : sh2e_dmac :=
  d <| channels := <[n := f (chan n d)]> (channels d) |>.
Definition request (n : Z) (d : sh2e_dmac) : request_entry :=
  default (mk_request 0 false false RECEIVE 0) (peripheral_request_table d !! n).
Definition set_request (n : Z) (e : request_entry) (d : sh2e_dmac) : sh2e_dmac :=
  d <| peripheral_request_table := <[n := e]> (peripheral_request_table d) |>.

(** The members of CHCR and DMAOR. *)
Definition de (c : channel) : Z := ubits (chcr c) 0 1.
Definition te (c : channel) : Z := ubits (chcr c) 1 1.
Definition ie (c : channel) : Z := ubits (chcr c) 2 1.
Definition tm (c : channel) : Z := ubits (chcr c) 3 1.
Definition ts (c : channel) : Z := ubits (chcr c) 4 2.
Definition dm (c : channel) : Z := ubits (chcr c) 8 2.
Definition sm (c : channel) : Z := ubits (chcr c) 12 2.
Definition rs (c : channel) : Z := ubits (chcr c) 16 5.
Definition di (c : channel) : Z := ubits (chcr c) 28 1.
Definition set_chcr_bits (lo n v : Z) (c : channel) : channel := c <| chcr := put_bits 32 lo n v (chcr c) |>.
Definition set_te (v : Z) : channel → channel := set_chcr_bits 1 1 v.
Definition dme (d : sh2e_dmac) : Z := ubits (dmaor d) 0 1.
Definition nmif (d : sh2e_dmac) : Z := ubits (dmaor d) 1 1.
Definition ae (d : sh2e_dmac) : Z := ubits (dmaor d) 2 1.
Definition set_nmif (v : Z) (d : sh2e_dmac) : sh2e_dmac := d <| dmaor := put_bits 16 1 1 v (dmaor d) |>.
Definition set_ae (v : Z) (d : sh2e_dmac) : sh2e_dmac := d <| dmaor := put_bits 16 2 1 v (dmaor d) |>.

Definition SH2E_DMAC_RESOURCE_AUTO_REQUEST : Z := 31.
Definition is_no_request (n : Z) : bool := (n =? 0) || (n =? 14) || (n =? 16) || (n =? 29) || (n =? 30).
Definition SH2E_DMAC_VALID_PERIPHERAL_REQUEST (n : Z) : bool :=
  (n <? 32) && negb (n =? SH2E_DMAC_RESOURCE_AUTO_REQUEST) && negb (is_no_request n).
Definition SH2E_DMAC_RELOAD_COUNTER_INITIAL_VALUE : Z := 4.

(** Halves of 32-bit registers. *)
Definition merge_u16 (current value : Z) (upper : bool) : Z :=
  if upper then Z.lor (Z.land current 0x0000FFFF) (Z.shiftl value 16)
  else Z.lor (Z.land current 0xFFFF0000) value.
Definition extract_u16 (value : Z) (upper : bool) : Z :=
  if upper then Z.land (Z.shiftr value 16) 0xFFFF else Z.land value 0xFFFF.

Definition channel_reg (c : channel) (reg_no : Z) : option Z :=
  match reg_no with
  | 0x0 => Some (sar c) | 0x4 => Some (dar c) | 0x8 => Some (tcr c) | 0xC => Some (chcr c) | _ => None
  end.

(** The bits of CHCR that a write sets, in the order of the source. *)
Definition chcr_write_bits (c_no val : Z) (c : channel) : channel :=
  let v := mk_channel 0 0 0 val in
  let c := set_chcr_bits 28 1 (if c_no =? 3 then di v else 0) c in
  let c := set_chcr_bits 24 1 (if c_no =? 2 then ubits val 24 1 else 0) c in
  let c := set_chcr_bits 16 5 (rs v) c in
  let c := set_chcr_bits 12 2 (sm v) c in
  let c := set_chcr_bits 8 2 (dm v) c in
  let c := set_chcr_bits 4 2 (ts v) c in
  let c := set_chcr_bits 3 1 (tm v) c in
  let c := set_chcr_bits 2 1 (ie v) c in
  let c := set_te (if negb (truthy (te v)) then 0 else te c) c in
  if negb (truthy (de v)) ||
     ((SH2E_DMAC_VALID_PERIPHERAL_REQUEST (rs v) || (rs v =? SH2E_DMAC_RESOURCE_AUTO_REQUEST)) && truthy (de v))
  then set_chcr_bits 0 1 (de v) c else c.

Definition sh2e_dmac_chcr_write (c_no val : Z) (d : sh2e_dmac) : sh2e_dmac :=
  let d := upd_chan c_no (chcr_write_bits c_no val) d in
  if negb (truthy (de (chan c_no d))) && (c_no =? 2)
  then d <| reload_counter := SH2E_DMAC_RELOAD_COUNTER_INITIAL_VALUE |> else d.

Definition sh2e_dmac_reset (d : sh2e_dmac) : sh2e_dmac :=
  d <| dmaor := 0 |> <| channels := ∅ |> <| transfer_state := SH2E_DMAC_TRANSFER_STATE_INITIAL |>
    <| picked_channel := -1 |> <| reload_counter := SH2E_DMAC_RELOAD_COUNTER_INITIAL_VALUE |>.

Definition sh2e_dmac_interrupt_up_from_cpu (no : Z) (d : sh2e_dmac) : sh2e_dmac :=
  if (no =? SH2E_INTC_POWER_ON_RESET_EXTERNAL_OFFSET) || (no =? SH2E_INTC_POWER_ON_RESET_INTERNAL_OFFSET) ||
     (no =? SH2E_INTC_SLEEP_MODE_OFFSET) || (no =? SH2E_INTC_HARDWARE_STANBY_MODE_OFFSET) ||
     (no =? SH2E_INTC_SOFTWARE_STANBY_MODE_OFFSET)
  then sh2e_dmac_reset d
  else if no =? SH2E_INTC_NMI_VECTOR_ADDRESS_OFFSET then set_nmif 1 d else d.

Definition sh2e_dmac_interrupt_up_from_peripheral (no : Z) (d : sh2e_dmac) : sh2e_dmac :=
  if SH2E_DMAC_VALID_PERIPHERAL_REQUEST no then
    if registered (request no d) then set_request no ((request no d) <| pending := true |>) d else d
  else d.

Definition sh2e_dmac_cpu_cycles_update (cycles : Z) (d : sh2e_dmac) : sh2e_dmac := d <| cpu_cycles := cycles |>.

Definition SH2E_DMAC_REGISTERS_START_ADDRESS : Z := 0xFFFFECB0.
Definition SH2E_DMAC_REGISTERS_SIZE : Z := 0x50.
Definition dsh2edmac_init (fresh : sh2e_dmac) (int0 int1 int2 int3 : Z) (addr : option Z) : option sh2e_dmac :=
  let a := default SH2E_DMAC_REGISTERS_START_ADDRESS addr in
  if register_block_ok a SH2E_DMAC_REGISTERS_SIZE then
    Some (sh2e_dmac_reset (mk_dmac (cpu fresh) a (dmaor fresh) (channels fresh) (reload_counter fresh)
      (<[0 := wrap 32 int0]> (<[1 := wrap 32 int1]> (<[2 := wrap 32 int2]> {[3 := wrap 32 int3]})))
      (cpu_cycles fresh) (transfer_state fresh) (picked_channel fresh) (initial_sar2 fresh) ∅ 0 0))
  else None.
Definition dsh2edmac_cmd_add_cpu (no : Z) (d : sh2e_dmac) : sh2e_dmac := d <| cpu := Some no |>.

Definition request_type_of (n : Z) : option request_type :=
  match n with 0 => Some RECEIVE | 1 => Some TRANSMIT | 2 => Some DO_NOT_CARE | _ => None end.
Definition needs_addr (t : request_type) : bool := match t with DO_NOT_CARE => false | _ => true end.
Definition dsh2edmac_cmd_add_source (n t : Z) (addr : option Z) (d : sh2e_dmac) : option sh2e_dmac :=
  if negb (SH2E_DMAC_VALID_PERIPHERAL_REQUEST n) then None
  else ty ← request_type_of t;
    match addr with
    | None => if needs_addr ty then None else Some (set_request n (mk_request n false true ty 0) d)
    | Some a => Some (set_request n (mk_request n false true ty (wrap 32 a)) d)
    end.

(** Byte accesses only report an error. *)
Definition offset (addr : Z) (d : sh2e_dmac) : Z := wrap 64 (addr - regs_addr d).
Definition in_channels (off : Z) : bool := (0x10 <=? off) && (off <? SH2E_DMAC_REGISTERS_SIZE).
Definition channel_no (off : Z) : Z := (off - 0x10) / 16.
Definition reg_no (off : Z) : Z := (off - 0x10) mod 16.
Definition word_reg (off : Z) : Z := Z.land (reg_no off) (Z.lnot 0x2).
Definition upper_word (off : Z) : bool := reg_no off mod 4 =? 0.

Definition dsh2edmac_read16 (addr : Z) (d : sh2e_dmac) : option Z :=
  let off := offset addr d in
  if off =? 0 then Some (be16toh (dmaor d))
  else if in_channels off then
    v ← channel_reg (chan (channel_no off) d) (word_reg off); Some (be16toh (extract_u16 v (upper_word off)))
  else None.
Definition dsh2edmac_read32 (addr : Z) (d : sh2e_dmac) : option Z :=
  let off := offset addr d in
  if in_channels off then v ← channel_reg (chan (channel_no off) d) (reg_no off); Some (be32toh v)
  else None.

Definition SH2E_DMAC_TCR_WRITE_MASK : Z := 0xFFFFFF.
Definition SH2E_DMAC_DMAOR_WRITE_MASK : Z := 0x0007.
Definition channel_write (n reg v : Z) (d : sh2e_dmac) : sh2e_dmac :=
  match reg with
  | 0x0 => upd_chan n (λ c, c <| sar := v |>) d
  | 0x4 => upd_chan n (λ c, c <| dar := v |>) d
  | 0x8 => upd_chan n (λ c, c <| tcr := Z.land v SH2E_DMAC_TCR_WRITE_MASK |>) d
  | 0xC => sh2e_dmac_chcr_write n v d
  | _ => d
  end.
Definition dsh2edmac_write16 (addr val : Z) (d : sh2e_dmac) : sh2e_dmac :=
  let off := offset addr d in
  let be_value := be16toh val in
  if off =? 0 then d <| dmaor := Z.land be_value SH2E_DMAC_DMAOR_WRITE_MASK |>
  else if in_channels off then
    let n := channel_no off in
    match channel_reg (chan n d) (word_reg off) with
    | Some v => channel_write n (word_reg off) (merge_u16 v be_value (upper_word off)) d
    | None => d
    end
  else d.
Definition dsh2edmac_write32 (addr val : Z) (d : sh2e_dmac) : sh2e_dmac :=
  let off := offset addr d in
  if in_channels off then channel_write (channel_no off) (reg_no off) (be32toh val) d else d.
End Dmac.

(** ** The peripherals of a machine *)
Inductive peripheral :=
  | PCmt (d : Cmt.sh2e_cmt)
  | PWdt (d : Wdt.sh2e_wdt)
  | PDmac (d : Dmac.sh2e_dmac).

(** The calls through [peripheral_ops_t]. *)
Definition interrupt_up_from_cpu (int_no : Z) (p : peripheral) : peripheral :=
  match p with
  | PCmt d => PCmt (Cmt.sh2e_cmt_interrupt_up int_no d)
  | PWdt d => PWdt (Wdt.sh2e_wdt_interrupt_up int_no d)
  | PDmac d => PDmac (Dmac.sh2e_dmac_interrupt_up_from_cpu int_no d)
  end.
Definition update_cycles (cycles : Z) (p : peripheral) : peripheral :=
  match p with
  | PCmt d => PCmt (Cmt.sh2e_cmt_cpu_cycles_update cycles d)
  | PWdt d => PWdt (Wdt.sh2e_wdt_cpu_cycles_update cycles d)
  | PDmac d => PDmac (Dmac.sh2e_dmac_cpu_cycles_update cycles d)
  end.

(** The interrupt controllers and the peripherals, by their positions among the
    devices; [OnChip] finds them in the state of all devices. *)
Record onchip := mk_onchip {
  oc_intcs : list general_intc;
  oc_peripherals : gmap Z peripheral
}.
#[export] Instance eta_onchip : Eta onchip := λ o, mk_onchip (oc_intcs o) (oc_peripherals o).
#[export] Instance set_oc_intcs : SetField oc_intcs := ltac:(derive_set_field).
#[export] Instance set_oc_peripherals : SetField oc_peripherals := ltac:(derive_set_field).

Class OnChip (D : Type) := {
  oc_get : D → onchip;
  oc_set : onchip → D → D
}.
Class OnChipLaws (D : Type) `{OnChip D} := {
  oc_get_set : ∀ o d, oc_get (oc_set o d) = o;
  oc_set_get : ∀ d, oc_set (oc_get d) d = d;
  oc_set_set : ∀ o o' d, oc_set o (oc_set o' d) = oc_set o d
}.
#[export] Instance onchip_self : OnChip onchip := {| oc_get o := o; oc_set o _ := o |}.
#[export] Instance onchip_self_laws : OnChipLaws onchip.
Proof. by split. Qed.
