(* ===== verification/ShCpu.v ===== *)
(** * The SH-2E processor (superh_sh2e/cpu.c)

    The cache of decoded instructions, execution with delay slots, exceptions,
    interrupts, resets and the step of every processing state.  Trace output is not
    modelled. *)

From S2P Require Import Prelude PhysMem Machine ICache ShTypes ShFloat ShExec ShDecode ShIntc ShPeri.
Import PhysMem.

Section Cpu.
Context {D : Type} `{BoardOf sh2e_cpu desc D} `{OnChip D} `{HostFloat}.
Abbreviation W := (world sh2e_cpu desc D).

(** ** Interrupt controller and peripherals *)
Definition on_onchip {A} (m : st onchip A) : st W A :=
  zoom (λ w, oc_get (w_dev w)) (λ o w, w <| w_dev := oc_set o (w_dev w) |>) m.
Definition on_intcs {A} (m : st intcs A) : st W A :=
  on_onchip (zoom oc_intcs (λ l o, o <| oc_intcs := l |>) m).

(** A call of one of the operations of the peripheral at position [n]. *)
Definition call_peripheral (f : peripheral → peripheral) (n : Z) : st onchip unit := λ o,
  match oc_peripherals o !! n with
  | Some p => Done (tt, o <| oc_peripherals := <[n := f p]> (oc_peripherals o) |>)
  | None => Stop UndefinedBehaviour
  end.
Fixpoint for_each_peripheral (f : peripheral → peripheral) (l : list Z) : st onchip unit :=
  match l with
  | [] => mret tt
  | n :: l' => call_peripheral f n;; for_each_peripheral f l'
  end.

(** The loops over the peripherals of the processor. *)
Definition notify_peripherals (int_no : Z) : st W unit :=
  c ← cpu; on_onchip (for_each_peripheral (interrupt_up_from_cpu int_no) (on_chip_peripherals c)).
Definition account_peripherals (cycles : Z) : st W unit :=
  c ← cpu; on_onchip (for_each_peripheral (update_cycles cycles) (on_chip_peripherals c)).

(** ** The cache of decoded instructions

    The list operations are those of the other families; a page holds 2048
    instructions of two bytes. *)
Definition sh2e_PHYS2CACHEINSTR (phys : Z) : Z := Z.land phys FRAME_MASK / 2.

Fixpoint sh2e_decode_page_loop (n : nat) (addr i : Z) (acc : gmap Z desc) : st W (gmap Z desc) :=
  match n with
  | O => mret acc
  | S n' =>
      w ← get_st;
      insn ← sh2e_physmem_read16 (id (w_cpu w)) (wrap 32 (addr + i * 2)) false;
      sh2e_decode_page_loop n' addr (i + 1)
        (<[i := sh2e_insn_decode (machine_specific_instructions w) insn]> acc)
  end.
Definition sh2e_cpu_insn_cache_decode_page (addr : Z) : st W (gmap Z desc) :=
  sh2e_decode_page_loop (Z.to_nat (FRAME_SIZE / 2)) addr 0 ∅.

Definition sh2e_cpu_insn_cache_get (phys : Z) : st W (option (cache_item desc)) := cache_hit phys.

Definition sh2e_cpu_insn_cache_update (ci : cache_item desc) : st W (cache_item desc) :=
  f ← physmem_find_frame (ci_addr ci);
  match f with
  | None => stop AssertFailed
  | Some f =>
      if frame_valid f then mret ci
      else
        page ← sh2e_cpu_insn_cache_decode_page (ci_addr ci);
        icache_modify (rewrite_page (ci_addr ci) page);;
        validate_frame (ci_addr ci) f;;
        mret (mk_cache_item (ci_addr ci) page)
  end.

Definition sh2e_cpu_insn_cache_try_add (phys : Z) : st W (option (cache_item desc)) :=
  f ← physmem_find_frame phys;
  match f with
  | None => mret None
  | Some f =>
      let addr := ALIGN_DOWN phys FRAME_SIZE in
      page ← sh2e_cpu_insn_cache_decode_page addr;
      icache_modify (λ l, mk_cache_item addr page :: l);;
      validate_frame phys f;;
      mret (Some (mk_cache_item addr page))
  end.

(** The entry of the instruction: the two flags go to the processor, the number of
    cycles and the function to the caller. *)
Definition use_entry (ci : cache_item desc) (phys : Z) : st W desc :=
  match ci_instrs ci !! sh2e_PHYS2CACHEINSTR phys with
  | Some d =>
      cpu_modify (λ c, c <| disable_interrupts := d_disable_interrupts d |>
        <| disable_address_errors := d_disable_address_errors d |>);;
      mret d
  | None => stop UndefinedBehaviour
  end.

(** [None] is the null pointer. *)
Definition sh2e_cpu_fetch_insn_func (phys : Z) : st W (option desc) :=
  hit ← sh2e_cpu_insn_cache_get phys;
  match hit with
  | Some ci =>
      ci ← sh2e_cpu_insn_cache_update ci;
      icache_modify (λ l,
        match l with
        | ci' :: _ => if ci_addr ci' =? ci_addr ci then l else ci :: remove_page (ci_addr ci) l
        | [] => l
        end);;
      d ← use_entry ci phys; mret (Some d)
  | None =>
      added ← sh2e_cpu_insn_cache_try_add phys;
      match added with
      | Some ci => d ← use_entry ci phys; mret (Some d)
      | None => mret None
      end
  end.

(** ** Execution *)
Definition sh2e_cpu_convert_addr (virt : Z) : Z := virt.

Definition sh2e_cpu_fetch_insn (addr : Z) : st W (exc + Z) :=
  if truthy (Z.land addr 1) then mret (inl SH2E_EXCEPTION_CPU_ADDRESS_ERROR)
  else c ← cpu; v ← sh2e_physmem_read16 (id c) addr true; mret (inr v).

(** The call through the function pointer. *)
Definition insn_exec (f : Fn.insn_fn) (i : Z) : st W exc :=
  match f with
  | Fn.clrt => on_cpu (sh2e_insn_exec_clrt i)
  | Fn.nop => on_cpu (sh2e_insn_exec_nop i)
  | Fn.rts => on_cpu (sh2e_insn_exec_rts i)
  | Fn.sett => on_cpu (sh2e_insn_exec_sett i)
  | Fn.div0u => on_cpu (sh2e_insn_exec_div0u i)
  | Fn.sleep => on_cpu (sh2e_insn_exec_sleep i)
  | Fn.clrmac => on_cpu (sh2e_insn_exec_clrmac i)
  | Fn.rte => sh2e_insn_exec_rte i
  | Fn.cmppl => on_cpu (sh2e_insn_exec_cmppl i)
  | Fn.cmppz => on_cpu (sh2e_insn_exec_cmppz i)
  | Fn.dt => on_cpu (sh2e_insn_exec_dt i)
  | Fn.movt => on_cpu (sh2e_insn_exec_movt i)
  | Fn.rotl => on_cpu (sh2e_insn_exec_rotl i)
  | Fn.rotr => on_cpu (sh2e_insn_exec_rotr i)
  | Fn.rotcl => on_cpu (sh2e_insn_exec_rotcl i)
  | Fn.rotcr => on_cpu (sh2e_insn_exec_rotcr i)
  | Fn.shal => on_cpu (sh2e_insn_exec_shal i)
  | Fn.shar => on_cpu (sh2e_insn_exec_shar i)
  | Fn.shll => on_cpu (sh2e_insn_exec_shll i)
  | Fn.shlr => on_cpu (sh2e_insn_exec_shlr i)
  | Fn.shll2 => on_cpu (sh2e_insn_exec_shll2 i)
  | Fn.shll8 => on_cpu (sh2e_insn_exec_shll8 i)
  | Fn.shll16 => on_cpu (sh2e_insn_exec_shll16 i)
  | Fn.shlr2 => on_cpu (sh2e_insn_exec_shlr2 i)
  | Fn.shlr8 => on_cpu (sh2e_insn_exec_shlr8 i)
  | Fn.shlr16 => on_cpu (sh2e_insn_exec_shlr16 i)
  | Fn.stc_cpu => on_cpu (sh2e_insn_exec_stc_cpu i)
  | Fn.sts_fpu => on_cpu (sh2e_insn_exec_sts_fpu i)
  | Fn.sts_cpu => on_cpu (sh2e_insn_exec_sts_cpu i)
  | Fn.tas => sh2e_insn_exec_tas i
  | Fn.stcm_cpu => sh2e_insn_exec_stcm_cpu i
  | Fn.stsm_fpu => sh2e_insn_exec_stsm_fpu i
  | Fn.stsm_cpu => sh2e_insn_exec_stsm_cpu i
  | Fn.fsts => on_cpu (sh2e_insn_exec_fsts i)
  | Fn.float => on_cpu (sh2e_insn_exec_float i)
  | Fn.fneg => on_cpu (sh2e_insn_exec_fneg i)
  | Fn.fabs => on_cpu (sh2e_insn_exec_fabs i)
  | Fn.fldi0 => on_cpu (sh2e_insn_exec_fldi0 i)
  | Fn.fldi1 => on_cpu (sh2e_insn_exec_fldi1 i)
  | Fn.ldc_sr => on_cpu (sh2e_insn_exec_ldc_sr i)
  | Fn.ldc_gbr => on_cpu (sh2e_insn_exec_ldc_gbr i)
  | Fn.ldc_vbr => on_cpu (sh2e_insn_exec_ldc_vbr i)
  | Fn.lds_fpul => on_cpu (sh2e_insn_exec_lds_fpul i)
  | Fn.lds_fpscr => on_cpu (sh2e_insn_exec_lds_fpscr i)
  | Fn.lds_mach => on_cpu (sh2e_insn_exec_lds_mach i)
  | Fn.lds_macl => on_cpu (sh2e_insn_exec_lds_macl i)
  | Fn.lds_pr => on_cpu (sh2e_insn_exec_lds_pr i)
  | Fn.jmp => on_cpu (sh2e_insn_exec_jmp i)
  | Fn.jsr => on_cpu (sh2e_insn_exec_jsr i)
  | Fn.ldcl_sr => sh2e_insn_exec_ldcl_sr i
  | Fn.ldcl_gbr => sh2e_insn_exec_ldcl_gbr i
  | Fn.ldcl_vbr => sh2e_insn_exec_ldcl_vbr i
  | Fn.ldsl_fpul => sh2e_insn_exec_ldsl_fpul i
  | Fn.ldsl_fpscr => sh2e_insn_exec_ldsl_fpscr i
  | Fn.ldsl_mach => sh2e_insn_exec_ldsl_mach i
  | Fn.ldsl_macl => sh2e_insn_exec_ldsl_macl i
  | Fn.ldsl_pr => sh2e_insn_exec_ldsl_pr i
  | Fn.braf => on_cpu (sh2e_insn_exec_braf i)
  | Fn.bsrf => on_cpu (sh2e_insn_exec_bsrf i)
  | Fn.flds => on_cpu (sh2e_insn_exec_flds i)
  | Fn.ftrc => on_cpu (sh2e_insn_exec_ftrc i)
  | Fn.add => on_cpu (sh2e_insn_exec_add i)
  | Fn.addc => on_cpu (sh2e_insn_exec_addc i)
  | Fn.addv => on_cpu (sh2e_insn_exec_addv i)
  | Fn.and => on_cpu (sh2e_insn_exec_and i)
  | Fn.cmpeq => on_cpu (sh2e_insn_exec_cmpeq i)
  | Fn.cmphs => on_cpu (sh2e_insn_exec_cmphs i)
  | Fn.cmpge => on_cpu (sh2e_insn_exec_cmpge i)
  | Fn.cmphi => on_cpu (sh2e_insn_exec_cmphi i)
  | Fn.cmpgt => on_cpu (sh2e_insn_exec_cmpgt i)
  | Fn.cmpstr => on_cpu (sh2e_insn_exec_cmpstr i)
  | Fn.div1 => on_cpu (sh2e_insn_exec_div1 i)
  | Fn.div0s => on_cpu (sh2e_insn_exec_div0s i)
  | Fn.dmulsl => on_cpu (sh2e_insn_exec_dmulsl i)
  | Fn.dmulul => on_cpu (sh2e_insn_exec_dmulul i)
  | Fn.extsb => on_cpu (sh2e_insn_exec_extsb i)
  | Fn.extsw => on_cpu (sh2e_insn_exec_extsw i)
  | Fn.extub => on_cpu (sh2e_insn_exec_extub i)
  | Fn.extuw => on_cpu (sh2e_insn_exec_extuw i)
  | Fn.mov => on_cpu (sh2e_insn_exec_mov i)
  | Fn.mull => on_cpu (sh2e_insn_exec_mull i)
  | Fn.mulsw => on_cpu (sh2e_insn_exec_mulsw i)
  | Fn.muluw => on_cpu (sh2e_insn_exec_muluw i)
  | Fn.neg => on_cpu (sh2e_insn_exec_neg i)
  | Fn.negc => on_cpu (sh2e_insn_exec_negc i)
  | Fn.not => on_cpu (sh2e_insn_exec_not i)
  | Fn.or => on_cpu (sh2e_insn_exec_or i)
  | Fn.sub => on_cpu (sh2e_insn_exec_sub i)
  | Fn.subc => on_cpu (sh2e_insn_exec_subc i)
  | Fn.subv => on_cpu (sh2e_insn_exec_subv i)
  | Fn.swapb => on_cpu (sh2e_insn_exec_swapb i)
  | Fn.swapw => on_cpu (sh2e_insn_exec_swapw i)
  | Fn.tst => on_cpu (sh2e_insn_exec_tst i)
  | Fn.xor => on_cpu (sh2e_insn_exec_xor i)
  | Fn.xtrct => on_cpu (sh2e_insn_exec_xtrct i)
  | Fn.movbs => sh2e_insn_exec_movbs i
  | Fn.movws => sh2e_insn_exec_movws i
  | Fn.movls => sh2e_insn_exec_movls i
  | Fn.movbl => sh2e_insn_exec_movbl i
  | Fn.movwl => sh2e_insn_exec_movwl i
  | Fn.movll => sh2e_insn_exec_movll i
  | Fn.macl => sh2e_insn_exec_macl i
  | Fn.macw => sh2e_insn_exec_macw i
  | Fn.movbp => sh2e_insn_exec_movbp i
  | Fn.movwp => sh2e_insn_exec_movwp i
  | Fn.movlp => sh2e_insn_exec_movlp i
  | Fn.movbm => sh2e_insn_exec_movbm i
  | Fn.movwm => sh2e_insn_exec_movwm i
  | Fn.movlm => sh2e_insn_exec_movlm i
  | Fn.movbs0 => sh2e_insn_exec_movbs0 i
  | Fn.movws0 => sh2e_insn_exec_movws0 i
  | Fn.movls0 => sh2e_insn_exec_movls0 i
  | Fn.movbl0 => sh2e_insn_exec_movbl0 i
  | Fn.movwl0 => sh2e_insn_exec_movwl0 i
  | Fn.movll0 => sh2e_insn_exec_movll0 i
  | Fn.fadd => on_cpu (sh2e_insn_exec_fadd i)
  | Fn.fcmpeq => on_cpu (sh2e_insn_exec_fcmpeq i)
  | Fn.fcmpgt => on_cpu (sh2e_insn_exec_fcmpgt i)
  | Fn.fdiv => on_cpu (sh2e_insn_exec_fdiv i)
  | Fn.fmac => on_cpu (sh2e_insn_exec_fmac i)
  | Fn.fmov => on_cpu (sh2e_insn_exec_fmov i)
  | Fn.fmovli => sh2e_insn_exec_fmovli i
  | Fn.fmovlr => sh2e_insn_exec_fmovlr i
  | Fn.fmovl => sh2e_insn_exec_fmovl i
  | Fn.fmovsi => sh2e_insn_exec_fmovsi i
  | Fn.fmovss => sh2e_insn_exec_fmovss i
  | Fn.fmovs => sh2e_insn_exec_fmovs i
  | Fn.fmul => on_cpu (sh2e_insn_exec_fmul i)
  | Fn.fsub => on_cpu (sh2e_insn_exec_fsub i)
  | Fn.movbl4 => sh2e_insn_exec_movbl4 i
  | Fn.movwl4 => sh2e_insn_exec_movwl4 i
  | Fn.movbs4 => sh2e_insn_exec_movbs4 i
  | Fn.movws4 => sh2e_insn_exec_movws4 i
  | Fn.movls4 => sh2e_insn_exec_movls4 i
  | Fn.movll4 => sh2e_insn_exec_movll4 i
  | Fn.movblg => sh2e_insn_exec_movblg i
  | Fn.movwlg => sh2e_insn_exec_movwlg i
  | Fn.movllg => sh2e_insn_exec_movllg i
  | Fn.movbsg => sh2e_insn_exec_movbsg i
  | Fn.movwsg => sh2e_insn_exec_movwsg i
  | Fn.movlsg => sh2e_insn_exec_movlsg i
  | Fn.mova => on_cpu (sh2e_insn_exec_mova i)
  | Fn.bf => on_cpu (sh2e_insn_exec_bf i)
  | Fn.bfs => on_cpu (sh2e_insn_exec_bfs i)
  | Fn.bt => on_cpu (sh2e_insn_exec_bt i)
  | Fn.bts => on_cpu (sh2e_insn_exec_bts i)
  | Fn.bra => on_cpu (sh2e_insn_exec_bra i)
  | Fn.bsr => on_cpu (sh2e_insn_exec_bsr i)
  | Fn.movwi => sh2e_insn_exec_movwi i
  | Fn.movli => sh2e_insn_exec_movli i
  | Fn.tstm => sh2e_insn_exec_tstm i
  | Fn.andm => sh2e_insn_exec_andm i
  | Fn.xorm => sh2e_insn_exec_xorm i
  | Fn.orm => sh2e_insn_exec_orm i
  | Fn.cmpim => on_cpu (sh2e_insn_exec_cmpim i)
  | Fn.tsti => on_cpu (sh2e_insn_exec_tsti i)
  | Fn.andi => on_cpu (sh2e_insn_exec_andi i)
  | Fn.xori => on_cpu (sh2e_insn_exec_xori i)
  | Fn.ori => on_cpu (sh2e_insn_exec_ori i)
  | Fn.trapa => sh2e_insn_exec_trapa i
  | Fn.addi => on_cpu (sh2e_insn_exec_addi i)
  | Fn.movi => on_cpu (sh2e_insn_exec_movi i)
  | Fn.halt => sh2e_insn_exec_halt i
  | Fn.cpu_reg_dump => sh2e_insn_exec_cpu_reg_dump i
  | Fn.fpu_reg_dump => sh2e_insn_exec_fpu_reg_dump i
  | Fn.illegal => on_cpu (sh2e_insn_exec_illegal i)
  | Fn.not_implemented => on_cpu (sh2e_insn_exec_not_implemented i)
  end.

(** The exception, and the number of cycles if the instruction was found. *)
Definition sh2e_cpu_execute_insn : st W (exc * Z) :=
  c ← cpu;
  insn ← sh2e_cpu_fetch_insn (pc c);
  match insn with
  | inl e => mret (e, 0)
  | inr insn =>
      f ← sh2e_cpu_fetch_insn_func (pc c);
      match f with
      | None => stop UndefinedBehaviour
      | Some d => e ← insn_exec (d_exec d) insn; mret (e, d_cycles d)
      end
  end.

(** ** Exceptions *)
Definition vector_of (ex : exc) : option Z :=
  match ex with
  | SH2E_EXCEPTION_ILLEGAL_INSTRUCTION => Some EVA_general_illegal_insn
  | SH2E_EXCEPTION_ILLEGAL_SLOT_INSTRUCTION => Some EVA_slot_illegal_insn
  | SH2E_EXCEPTION_CPU_ADDRESS_ERROR => Some EVA_cpu_address_error
  | SH2E_EXCEPTION_DMAC_ADDRESS_ERROR => Some EVA_dmac_address_error
  | SH2E_EXCEPTION_FPU_OPERATION => Some EVA_fpu_exception
  | SH2E_EXCEPTION_NONE => None
  end.

(** The program counter to be saved. *)
Definition stacked_pc (ex : exc) (c : sh2e_cpu) : Z :=
  match ex with
  | SH2E_EXCEPTION_ILLEGAL_INSTRUCTION => pc c
  | SH2E_EXCEPTION_ILLEGAL_SLOT_INSTRUCTION => pc_target c
  | SH2E_EXCEPTION_NONE => 0
  | _ => u32 (pc c + 2)
  end.

(** Pushing SR and PC; whether one of the writes failed. *)
Definition push_sr_pc (stack_sr stack_pc stack_sr_addr stack_pc_addr : Z) : st W bool :=
  e1 ← sh2e_cpu_write_long stack_sr_addr stack_sr;
  e2 ← sh2e_cpu_write_long stack_pc_addr stack_pc;
  mret (negb (ex_is e1 NONE) || negb (ex_is e2 NONE)).

(** The exception sequence up to the new program counter. *)
Definition enter_exception (ex : exc) : st W bool :=
  cpu_modify (λ c, c <| pr_state := SH2E_PSTATE_EXCEPTION_PROCESSING |>);;
  c ← cpu;
  match vector_of ex with
  | None => stop AssertFailed
  | Some n =>
      cpu_modify (λ c, if ex_is ex SH2E_EXCEPTION_ILLEGAL_SLOT_INSTRUCTION
                       then c <| br_state := SH2E_BRANCH_STATE_NONE |> else c);;
      let stack_sr_addr := u32 (sp c - 4) in
      let stack_pc_addr := u32 (stack_sr_addr - 4) in
      stack_ex ← push_sr_pc (sr c) (stacked_pc ex c) stack_sr_addr stack_pc_addr;
      cpu_modify (set_sp stack_pc_addr);;
      new_pc ← sh2e_physmem_read32 (id c) (eva_vector n c) false;
      cpu_modify (λ c, c <| pc := new_pc |>);;
      mret stack_ex
  end.
Definition leave_exception : st W unit :=
  cpu_modify (λ c, c <| insn_exception := NONE |> <| pr_state := SH2E_PSTATE_PROGRAM_EXECUTION |>).

(** With stacking exceptions disabled the function does not call itself. *)
Definition sh2e_cpu_handle_exception (ex : exc) (disable_stacking_exception : bool) : st W unit :=
  stack_ex ← enter_exception ex;
  (if (stack_ex : bool) && negb disable_stacking_exception then
     enter_exception SH2E_EXCEPTION_CPU_ADDRESS_ERROR;; leave_exception
   else mret tt);;
  leave_exception.

(** ** Interrupts *)
Definition interrupt_stacked_pc (c : sh2e_cpu) : Z :=
  if br_is (br_state c) SH2E_BRANCH_STATE_EXECUTE || br_is (br_state c) SH2E_BRANCH_STATE_DELAY
  then pc_target c else u32 (pc c + 2).

Definition sh2e_cpu_handle_interrupt : st W unit :=
  cpu_modify (λ c, c <| pr_state := SH2E_PSTATE_EXCEPTION_PROCESSING |>);;
  c ← cpu;
  notify_peripherals (pending_interrupt c);;
  let stack_sr_addr := u32 (sp c - 4) in
  let stack_pc_addr := u32 (stack_sr_addr - 4) in
  stack_ex ← push_sr_pc (sr c) (interrupt_stacked_pc c) stack_sr_addr stack_pc_addr;
  cpu_modify (set_sp stack_pc_addr);;
  new_pc ← sh2e_physmem_read32 (id c) (eva_vector (pending_interrupt c) c) false;
  cpu_modify (λ c, c <| pc := new_pc |>);;
  new_mask ← on_intcs (intc_accept_interrupt (intc c));
  cpu_modify (set_im new_mask);;
  (if (stack_ex : bool) then sh2e_cpu_handle_exception SH2E_EXCEPTION_CPU_ADDRESS_ERROR true else mret tt);;
  cpu_modify (λ c, c <| br_state := SH2E_BRANCH_STATE_NONE |> <| pending_interrupt := 0 |>
    <| pr_state := SH2E_PSTATE_PROGRAM_EXECUTION |>).

(** ** Resets *)
Definition sh2e_cpu_check_reset_req : st W bool :=
  c ← cpu;
  '(reset_pending, reset) ← on_intcs (intc_check_resets (intc c));
  if negb reset_pending then mret false
  else
    let req :=
      match default 0 reset with
      | 0 => Some SH2E_POWER_ON_RESET_REQ_EXTERNAL
      | 1 => Some SH2E_POWER_ON_RESET_REQ_INTERNAL
      | 2 => Some SH2E_MANUAL_RESET_REQ
      | _ => None
      end in
    cpu_modify (λ c, match req with Some r => c <| reset_req := r |> | None => c end);;
    cpu_modify (λ c, c <| pr_state := SH2E_PSTATE_RESET |>);;
    mret true.

(** The vectors of the program counter and of the stack pointer; both addresses stay
    zero for an unknown request. *)
Definition reset_vectors (r : sh2e_reset_req) (c : sh2e_cpu) : Z * Z :=
  match r with
  | SH2E_POWER_ON_RESET_REQ_INTERNAL | SH2E_POWER_ON_RESET_REQ_EXTERNAL | SH2E_POWER_ON_RESET_INITIAL =>
      (eva_vector EVA_power_on_reset_pc c, eva_vector EVA_power_on_reset_sp c)
  | SH2E_MANUAL_RESET_REQ => (eva_vector EVA_manual_reset_pc c, eva_vector EVA_manual_reset_sp c)
  | SH2E_RESET_REQ_NONE => (0, 0)
  end.

Definition sh2e_cpu_reset : st W unit :=
  cpu_modify (λ c, set_im 15 (c <| vbr := 0 |> <| sr := 0 |>));;
  cpu_modify (λ c, c <| fpscr := put_bits 32 0 2 1 (put_bits 32 18 1 1 0) |>);;
  c ← cpu;
  let '(eva_pc_addr, eva_sp_addr) := reset_vectors (reset_req c) c in
  new_sp ← sh2e_physmem_read32 (id c) eva_sp_addr false;
  cpu_modify (set_sp new_sp);;
  new_pc ← sh2e_physmem_read32 (id c) eva_pc_addr false;
  cpu_modify (λ c, c <| pc := new_pc |>);;
  if negb (req_is (reset_req c) SH2E_POWER_ON_RESET_INITIAL) then on_intcs (intc_init (intc c)) else mret tt.

(** ** The step of each processing state *)

(** The controller's answer; the variable that receives the source starts as zero. *)
Definition check_interrupts : st W (bool * Z) :=
  c ← cpu;
  '(interrupt_pending, interrupt_source) ← on_intcs (intc_check_interrupts (intc c) (sr_im c));
  mret (interrupt_pending, default 0 interrupt_source).

Definition sh2e_standby_state_step : st W unit :=
  reset ← sh2e_cpu_check_reset_req;
  if (reset : bool) then mret tt
  else
    '(interrupt_pending, interrupt_source) ← check_interrupts;
    cpu_modify (λ c, if (interrupt_pending : bool)
      then c <| pending_interrupt := interrupt_source |> <| pr_state := SH2E_PSTATE_EXCEPTION_PROCESSING |>
      else c);;
    cpu_modify (λ c, c <| power_down_cycles := wrap 64 (power_down_cycles c + 1) |>).

Definition sh2e_reset_state_step : st W unit :=
  c ← cpu;
  on_intcs (intc_accept_reset (intc c));;
  sh2e_cpu_reset;;
  (match reset_req c with
   | SH2E_POWER_ON_RESET_REQ_INTERNAL => notify_peripherals SH2E_INTC_POWER_ON_RESET_INTERNAL_OFFSET
   | SH2E_POWER_ON_RESET_REQ_EXTERNAL => notify_peripherals SH2E_INTC_POWER_ON_RESET_EXTERNAL_OFFSET
   | SH2E_MANUAL_RESET_REQ => notify_peripherals SH2E_INTC_MANUAL_RESET_OFFSET
   | _ => mret tt
   end);;
  cpu_modify (λ c, c <| reset_req := SH2E_RESET_REQ_NONE |> <| pr_state := SH2E_PSTATE_PROGRAM_EXECUTION |>).

(** The address errors that wait, and what is pending after one of kind [kind] was
    accepted. *)
Definition defer_address_error (c : sh2e_cpu) : sh2e_cpu :=
  if disable_address_errors c &&
     (ex_is (insn_exception c) SH2E_EXCEPTION_CPU_ADDRESS_ERROR ||
      ex_is (insn_exception c) SH2E_EXCEPTION_DMAC_ADDRESS_ERROR)
  then c <| pending_address_error := insn_exception c |> <| insn_exception := NONE |> else c.
Definition address_error_due (kind : exc) (c : sh2e_cpu) : bool :=
  (ex_is (pending_address_error c) kind || ex_is (insn_exception c) kind) && negb (disable_address_errors c).
Definition accept_address_error (kind : exc) : st W unit :=
  c ← cpu;
  let accepted := if negb (ex_is (pending_address_error c) NONE) then pending_address_error c
                  else insn_exception c in
  cpu_modify (λ c, c <| pending_address_error :=
    if ex_is (pending_address_error c) kind then insn_exception c else NONE |>);;
  sh2e_cpu_handle_exception accepted false.

Definition sh2e_exception_state_step : st W unit :=
  cpu_modify defer_address_error;;
  c ← cpu;
  if address_error_due SH2E_EXCEPTION_CPU_ADDRESS_ERROR c
  then accept_address_error SH2E_EXCEPTION_CPU_ADDRESS_ERROR
  else if address_error_due SH2E_EXCEPTION_DMAC_ADDRESS_ERROR c
  then accept_address_error SH2E_EXCEPTION_DMAC_ADDRESS_ERROR
  else if ex_is (insn_exception c) SH2E_EXCEPTION_FPU_OPERATION
  then sh2e_cpu_handle_exception (insn_exception c) false
  else if truthy (pending_interrupt c) then sh2e_cpu_handle_interrupt
  else if negb (ex_is (insn_exception c) NONE) then sh2e_cpu_handle_exception (insn_exception c) false
  else mret tt.

(** The program counter of the next instruction. *)
Definition advance_pc (c : sh2e_cpu) : sh2e_cpu :=
  match br_state c with
  | SH2E_BRANCH_STATE_DELAY_NEXT => c <| br_state := SH2E_BRANCH_STATE_DELAY |> <| pc := u32 (pc c + 2) |>
  | SH2E_BRANCH_STATE_NONE => c <| pc := u32 (pc c + 2) |>
  | SH2E_BRANCH_STATE_DELAY | SH2E_BRANCH_STATE_EXECUTE =>
      c <| pc := pc_target c |> <| br_state := SH2E_BRANCH_STATE_NONE |>
  end.

(** Whether the step goes on to exception processing. *)
Definition exception_due (c : sh2e_cpu) : bool :=
  negb (ex_is (insn_exception c) NONE) || negb (ex_is (pending_address_error c) NONE) ||
  truthy (pending_interrupt c).

Definition sh2e_program_execution_state_step : st W unit :=
  reset ← sh2e_cpu_check_reset_req;
  if (reset : bool) then mret tt
  else
    c ← cpu;
    cycles ← (if negb (ps_is (pr_state c) SH2E_PSTATE_POWER_DOWN) then
                '(e, cycles) ← sh2e_cpu_execute_insn;
                cpu_modify (λ c, c <| insn_exception := e |>);;
                mret cycles
              else mret 0);
    c ← cpu;
    (if ps_is (pr_state c) SH2E_PSTATE_POWER_DOWN then notify_peripherals SH2E_INTC_SLEEP_MODE_OFFSET
     else mret tt);;
    (if negb (disable_interrupts c) then
       '(interrupt_pending, interrupt_source) ← check_interrupts;
       cpu_modify (λ c, if (interrupt_pending : bool) then c <| pending_interrupt := interrupt_source |> else c)
     else mret tt);;
    cpu_modify (λ c, if exception_due c then c <| pr_state := SH2E_PSTATE_EXCEPTION_PROCESSING |> else c);;
    cpu_modify (λ c, c <| program_execution_cycles := wrap 64 (program_execution_cycles c + cycles) |>);;
    account_peripherals cycles;;
    cpu_modify (λ c, if ps_is (pr_state c) SH2E_PSTATE_PROGRAM_EXECUTION then advance_pc c else c).

Definition sh2e_cpu_step : st W unit :=
  c ← cpu;
  match pr_state c with
  | SH2E_PSTATE_RESET => sh2e_reset_state_step
  | SH2E_PSTATE_EXCEPTION_PROCESSING => sh2e_exception_state_step
  | SH2E_PSTATE_PROGRAM_EXECUTION => sh2e_program_execution_state_step
  | SH2E_PSTATE_POWER_DOWN => sh2e_standby_state_step
  | SH2E_PSTATE_BUS_RELEASE => mret tt
  end.

(** ** Operations from outside *)
Definition sh2e_set_pc (addr : Z) (c : sh2e_cpu) : sh2e_cpu := c <| pc := addr |>.
Definition sh2e_cpu_goto (addr : Z) : st W unit :=
  if IS_ALIGNED (wrap 32 addr) 2 then cpu_modify (sh2e_set_pc (wrap 32 addr)) else stop AssertFailed.

(** Removing a processor empties the whole cache. *)
Definition sh2e_cpu_done : st W unit := cache_clear.

(** [num] is signalled to the processor with the given number; [None] for a pointer
    that was never set. *)
Definition dmac_address_error (c : sh2e_cpu) : sh2e_cpu :=
  c <| pending_address_error := SH2E_EXCEPTION_DMAC_ADDRESS_ERROR |>
    <| pr_state := SH2E_PSTATE_EXCEPTION_PROCESSING |>.
Definition sh2e_cpu_assert_interrupt (no num : Z) : st W unit := λ w,
  if num =? SH2E_INTC_DMAC_VECTOR_ADDRESS_OFFSET then
    match with_first_cpu (has_number no) (λ c, (tt, dmac_address_error c)) w with
    | Some r => Done r
    | None => Stop UndefinedBehaviour
    end
  else
    match with_first_cpu (has_number no) (λ c, (intc c, c)) w with
    | Some (p, _) => on_intcs (intc_interrupt_up p num) w
    | None => Stop UndefinedBehaviour
    end.
Definition sh2e_cpu_deassert_interrupt (no num : Z) : st W unit := λ w,
  match with_first_cpu (has_number no) (λ c, (intc c, c)) w with
  | Some (p, _) => on_intcs (intc_interrupt_down p num) w
  | None => Stop UndefinedBehaviour
  end.
End Cpu.
