(* ===== verification/ShDev.v ===== *)
(** * The steps of the SH-2E devices

    What the machine calls once per turn: the compare match timer (dsh2ecmt.c), the
    watchdog timer (dsh2ewdt.c) and the direct memory access controller
    (dsh2edmac.c), with the interrupts they raise and the memory they access; their
    register blocks as devices on the bus; and the commands of the processor device
    (dsh2ecpu.c).

    A device is the position of its data among the peripherals.  A loop of the
    source runs with as many turns as its counter allows: every turn takes a whole
    period (or a cycle) off the counter, so none is left when the turns are used up
    ([ShProps.cmt_keeps_time] states it of the timer). *)

From S2P Require Import Prelude PhysMem Machine ShTypes ShFloat ShExec ShDecode ShIntc ShPeri ShCpu.
Import PhysMem.

(** ** One turn of the timers' loops

    The turns change the device only; the result says which interrupt they raise. *)
Module CmtTurn.
Import Cmt.
Definition cmt_period (ch : channel) : Z :=
  match cks ch with 0 => 8 | 1 => 32 | 2 => 128 | _ => 512 end.
Definition counter (i : Z) (c : sh2e_cmt) : Z := if i =? 0 then counter0 c else counter1 c.
Definition set_counter (i v : Z) (c : sh2e_cmt) : sh2e_cmt :=
  if i =? 0 then c <| counter0 := v |> else c <| counter1 := v |>.
Definition int_no (i : Z) (c : sh2e_cmt) : Z := if i =? 0 then int_no_first_channel c else int_no_second_channel c.
Definition count_interrupt (i : Z) (c : sh2e_cmt) : sh2e_cmt :=
  if i =? 0 then c <| interrupts_channel_0_count := wrap 64 (interrupts_channel_0_count c + 1) |>
  else c <| interrupts_channel_1_count := wrap 64 (interrupts_channel_1_count c + 1) |>.

Definition channel_turn (ch : channel) : channel * bool :=
  let ch := ch <| cmcnt := wrap 16 (cmcnt ch + 1) |> in
  if cmcnt ch =? cmcor ch then
    let ch := (set_cmf 1 ch) <| cmcnt := 0 |> in (ch, truthy (cmie ch))
  else (ch, false).
Definition cmt_turn (i p : Z) (c : sh2e_cmt) : sh2e_cmt * option Z :=
  let c := set_counter i (fast16 (counter i c - p)) c in
  let '(ch, raise) := channel_turn (chan i c) in
  let c := upd_chan i (λ _, ch) c in
  if (raise : bool) then (count_interrupt i c, Some (int_no i c)) else (c, None).
Definition enabled (i : Z) (c : sh2e_cmt) : bool := truthy (ubits (cmstr c) i 1).
End CmtTurn.

Module WdtTurn.
Import Wdt.
Definition wdt_period (w : sh2e_wdt) : Z :=
  match cks w with
  | 0 => 2 | 1 => 64 | 2 => 128 | 3 => 256 | 4 => 512 | 5 => 1024 | 6 => 4096 | _ => 8192
  end.

(** An overflow in watchdog mode and in interval mode. *)
Definition watchdog_overflow (w : sh2e_wdt) : sh2e_wdt * option Z :=
  let w := set_wovf 1 w in
  if truthy (rste w) then
    if truthy (rsts w)
    then (w <| manual_resets_count := wrap 64 (manual_resets_count w + 1) |>, Some SH2E_INTC_MANUAL_RESET_OFFSET)
    else (w <| power_on_resets_count := wrap 64 (power_on_resets_count w + 1) |>,
          Some SH2E_INTC_POWER_ON_RESET_INTERNAL_OFFSET)
  else (sh2e_wdt_tcnt_reset (sh2e_wdt_tcsr_reset w), None).
Definition interval_overflow (w : sh2e_wdt) : sh2e_wdt * option Z :=
  let w := set_ovf 1 w in (w <| int_count := wrap 64 (int_count w + 1) |>, Some (int_no w)).
Definition wdt_turn (p : Z) (w : sh2e_wdt) : sh2e_wdt * option Z :=
  let w := w <| counter := fast16 (counter w - p) |> <| tcnt := wrap 8 (tcnt w + 1) |> in
  if tcnt w =? 0 then (if truthy (tms w) then watchdog_overflow w else interval_overflow w)
  else (w, None).
End WdtTurn.

(** ** Transfers of the DMAC that do not access memory *)
Module DmacRegs.
Import Dmac.
Definition transfer_size_bytes (c : channel) : Z := Z.shiftl 1 (ts c).
Definition regs_update_after_transfer (c : channel) : channel :=
  let s := if truthy (di c) then 4 else transfer_size_bytes c in
  let c := if sm c =? 1 then c <| sar := u32 (sar c + s) |>
           else if sm c =? 2 then c <| sar := u32 (sar c - s) |> else c in
  if dm c =? 1 then c <| dar := u32 (dar c + transfer_size_bytes c) |>
  else if dm c =? 2 then c <| dar := u32 (dar c - transfer_size_bytes c) |> else c.

Definition check_abort_conditions (d : sh2e_dmac) : bool :=
  truthy (nmif d) || truthy (ae d) || negb (truthy (dme d)) || negb (truthy (de (chan (picked_channel d) d))).

Definition reload_reset (d : sh2e_dmac) : sh2e_dmac :=
  if picked_channel d =? 2 then d <| reload_counter := SH2E_DMAC_RELOAD_COUNTER_INITIAL_VALUE |> else d.
Definition abort_transfer (d : sh2e_dmac) : sh2e_dmac :=
  reload_reset (d <| transfer_state := SH2E_DMAC_TRANSFER_STATE_INITIAL |>).

(** The count-down of channel 2. *)
Definition reload (d : sh2e_dmac) : sh2e_dmac :=
  if picked_channel d =? 2 then
    let d := d <| reload_counter := u32 (reload_counter d - 1) |> in
    if reload_counter d =? 0
    then (upd_chan 2 (λ c, c <| sar := initial_sar2 d |>) d)
           <| reload_counter := SH2E_DMAC_RELOAD_COUNTER_INITIAL_VALUE |>
    else d
  else d.

(** What [transfer_and_update_regs] does once the data were moved; the result is the
    interrupt of a finished transfer. *)
Definition after_transfer (d : sh2e_dmac) : sh2e_dmac * option Z :=
  let d := reload d in
  if check_abort_conditions d then (abort_transfer d, None)
  else
    let d := d <| successful_transfers_count := wrap 64 (successful_transfers_count d + 1) |> in
    let p := picked_channel d in
    if tcr (chan p d) =? 0 then
      let d := reload_reset (upd_chan p (set_te 1) d) in
      if truthy (ie (chan p d)) then (d, Some (default 0 (interrupt_number d !! p)))
      else (d <| transfer_state := SH2E_DMAC_TRANSFER_STATE_INITIAL |>, None)
    else
      (d <| transfer_state := if truthy (tm (chan p d)) then SH2E_DMAC_TRANSFER_STATE_TRANSFERRING
                              else SH2E_DMAC_TRANSFER_STATE_WAITING_FOR_REQUEST |>, None).

(** The channel with the lowest number that is enabled and not finished. *)
Definition ready (c : channel) : bool := truthy (de c) && negb (truthy (te c)).
Definition pick_channel (d : sh2e_dmac) : option Z :=
  head (filter (λ i, ready (chan i d) = true) [0; 1; 2; 3]).
Definition operational (d : sh2e_dmac) : bool := truthy (dme d) && negb (truthy (nmif d)) && negb (truthy (ae d)).

(** The address a peripheral request fixes. *)
Definition address_matches (e : request_entry) (c : channel) : bool :=
  match type e with
  | DO_NOT_CARE => true
  | RECEIVE => sar c =? peripheral_request_address e
  | TRANSMIT => dar c =? peripheral_request_address e
  end.
End DmacRegs.

(** ** Steps *)
Section Dev.
Context {D : Type} `{BoardOf sh2e_cpu desc D} `{OnChip D}.
Abbreviation W := (world sh2e_cpu desc D).

(** The data of the device at position [n], seen through [get] and [put]. *)
Section Data.
Context {X : Type} (get : peripheral → option X) (put : X → peripheral) (n : Z).
Definition peri : st W X := λ w,
  match oc_peripherals (oc_get (w_dev w)) !! n ≫= get with
  | Some x => Done (x, w)
  | None => Stop UndefinedBehaviour
  end.
Definition put_peri (x : X) : st W unit :=
  on_onchip (modify (λ o, o <| oc_peripherals := <[n := put x]> (oc_peripherals o) |>)).
Definition peri_modify (f : X → X) : st W unit := x ← peri; put_peri (f x).
End Data.

(** [cpu_interrupt_up] with a processor pointer. *)
Definition cpu_interrupt_up (p : option Z) (no : Z) : st W unit :=
  match p with Some cpu_no => sh2e_cpu_assert_interrupt cpu_no no | None => stop UndefinedBehaviour end.
Definition raise (p : option Z) (no : option Z) : st W unit :=
  match no with Some no => cpu_interrupt_up p no | None => mret tt end.

(** *** Compare match timer *)
Section CmtStep.
Import Cmt.
Context (n : Z).
Definition get_cmt (p : peripheral) : option sh2e_cmt := match p with PCmt d => Some d | _ => None end.
Definition cmt : st W sh2e_cmt := peri get_cmt n.
Definition put_cmt : sh2e_cmt → st W unit := put_peri PCmt n.

Fixpoint channel_loop (turns : nat) (i period : Z) : st W unit :=
  match turns with
  | O => mret tt
  | S turns' =>
      c ← cmt;
      if CmtTurn.counter i c >=? period then
        let '(c', no) := CmtTurn.cmt_turn i period c in
        put_cmt c';; raise (cpu c') no;; channel_loop turns' i period
      else mret tt
  end.
Definition update_channel_counter (i : Z) : st W unit :=
  c ← cmt;
  let c := CmtTurn.set_counter i (fast16 (CmtTurn.counter i c + cpu_cycles c)) c in
  put_cmt c;;
  let period := CmtTurn.cmt_period (chan i c) in
  channel_loop (Z.to_nat (CmtTurn.counter i c / period)) i period.
Definition update_if_enabled (i : Z) : st W unit :=
  c ← cmt; if CmtTurn.enabled i c then update_channel_counter i else mret tt.
Definition dsh2ecmt_step : st W unit :=
  update_if_enabled 0;; update_if_enabled 1;;
  c ← cmt; put_cmt (c <| cpu_cycles := 0 |>).
End CmtStep.

(** *** Watchdog timer *)
Section WdtStep.
Import Wdt.
Context (n : Z).
Definition get_wdt (p : peripheral) : option sh2e_wdt := match p with PWdt d => Some d | _ => None end.
Definition wdt : st W sh2e_wdt := peri get_wdt n.
Definition put_wdt : sh2e_wdt → st W unit := put_peri PWdt n.

Fixpoint wdt_loop (turns : nat) (period : Z) : st W unit :=
  match turns with
  | O => mret tt
  | S turns' =>
      w ← wdt;
      if counter w >=? period then
        let '(w', no) := WdtTurn.wdt_turn period w in
        put_wdt w';; raise (cpu w') no;; wdt_loop turns' period
      else mret tt
  end.
Definition dsh2ewdt_step : st W unit :=
  w ← wdt;
  (if truthy (tme w) then
     let w := w <| counter := fast16 (counter w + cpu_cycles w) |> in
     put_wdt w;; wdt_loop (Z.to_nat (counter w / WdtTurn.wdt_period w)) (WdtTurn.wdt_period w)
   else mret tt);;
  w ← wdt; put_wdt (w <| cpu_cycles := 0 |>).
End WdtStep.

(** *** Direct memory access controller *)
Section DmacStep.
Import Dmac.
Context (n : Z).
Definition get_dmac (p : peripheral) : option sh2e_dmac := match p with PDmac d => Some d | _ => None end.
Definition dmac : st W sh2e_dmac := peri get_dmac n.
Definition put_dmac : sh2e_dmac → st W unit := put_peri PDmac n.
Definition dmac_modify : (sh2e_dmac → sh2e_dmac) → st W unit := peri_modify get_dmac PDmac n.

(** The processor number [-1] as an unsigned integer. *)
Definition no_processor : Z := 0xFFFFFFFF.

Definition dmac_address_fault : st W unit :=
  dmac_modify (set_ae 1);; d ← dmac; cpu_interrupt_up (cpu d) SH2E_INTC_DMAC_VECTOR_ADDRESS_OFFSET.

Definition byte_transfer (s_addr d_addr : Z) : st W unit :=
  v ← physmem_read8 no_processor s_addr true;
  physmem_write8 no_processor d_addr v true;; mret tt.
Definition word_transfer (s_addr d_addr : Z) : st W unit :=
  if truthy (Z.land s_addr 1) then dmac_address_fault
  else
    v ← physmem_read16 no_processor s_addr true;
    physmem_write16 no_processor d_addr v true;; mret tt.
Definition longword_transfer (s_addr d_addr : Z) : st W unit :=
  if truthy (Z.land s_addr 3) then dmac_address_fault
  else
    v ← physmem_read32 no_processor s_addr true;
    physmem_write32 no_processor d_addr v true;; mret tt.

Definition perform_transfer (c_no : Z) : st W unit :=
  d ← dmac;
  let d_addr := dar (chan c_no d) in
  s_addr ← (if di (chan c_no d) =? 0 then mret (sar (chan c_no d))
            else physmem_read32 no_processor (sar (chan c_no d)) true);
  d ← dmac;
  match ts (chan c_no d) with
  | 0 => byte_transfer s_addr d_addr
  | 1 => word_transfer s_addr d_addr
  | 2 => longword_transfer s_addr d_addr
  | _ => stop AssertFailed
  end;;
  dmac_modify (upd_chan c_no DmacRegs.regs_update_after_transfer);;
  dmac_modify (upd_chan c_no (λ c, c <| tcr := u32 (tcr c - 1) |>)).

Definition transfer_and_update_regs : st W unit :=
  d ← dmac;
  c_assert (negb (picked_channel d =? -1));;
  perform_transfer (picked_channel d);;
  d ← dmac;
  let '(d, no) := DmacRegs.after_transfer d in
  put_dmac d;;
  match no with
  | Some no =>
      cpu_interrupt_up (cpu d) no;;
      dmac_modify (λ d, d <| interrupts_count := wrap 64 (interrupts_count d + 1) |>
                          <| transfer_state := SH2E_DMAC_TRANSFER_STATE_INITIAL |>)
  | None => mret tt
  end.

Definition step_transferring : st W unit :=
  d ← dmac;
  c_assert (negb (picked_channel d =? -1));;
  if DmacRegs.check_abort_conditions d then put_dmac (DmacRegs.abort_transfer d)
  else
    transfer_and_update_regs;;
    d ← dmac;
    if bool_decide (transfer_state d = SH2E_DMAC_TRANSFER_STATE_TRANSFERRING) then
      transfer_and_update_regs;;
      dmac_modify (λ d, d <| transfer_state := SH2E_DMAC_TRANSFER_STATE_WAITING_FOR_REQUEST |>)
    else mret tt.

Definition start_transfer : st W unit :=
  dmac_modify (λ d, d <| transfer_state := SH2E_DMAC_TRANSFER_STATE_TRANSFERRING |>);; step_transferring.
Definition give_up_request : st W unit :=
  dmac_modify (λ d, d <| transfer_state := SH2E_DMAC_TRANSFER_STATE_INITIAL |>).

Definition step_waiting : st W unit :=
  d ← dmac;
  c_assert (negb (picked_channel d =? -1));;
  let c := chan (picked_channel d) d in
  let resource := rs c in
  if resource =? SH2E_DMAC_RESOURCE_AUTO_REQUEST then start_transfer
  else if is_no_request resource then stop AssertFailed
  else
    let entry := request resource d in
    if negb (registered entry) then give_up_request
    else if pending entry then
      dmac_modify (set_request resource (entry <| pending := false |>));;
      if DmacRegs.address_matches entry c then start_transfer else give_up_request
    else mret tt.

Definition step_initial : st W unit :=
  dmac_modify (λ d, d <| picked_channel := -1 |>);;
  d ← dmac;
  if DmacRegs.operational d then
    match DmacRegs.pick_channel d with
    | None => mret tt
    | Some i =>
        dmac_modify (λ d, d <| picked_channel := i |>);;
        dmac_modify (λ d, if i =? 2 then d <| initial_sar2 := sar (chan 2 d) |> else d);;
        dmac_modify (λ d, d <| transfer_state := SH2E_DMAC_TRANSFER_STATE_WAITING_FOR_REQUEST |>);;
        step_waiting
    end
  else mret tt.

Definition dmac_turn : st W unit :=
  d ← dmac;
  match transfer_state d with
  | SH2E_DMAC_TRANSFER_STATE_INITIAL => step_initial
  | SH2E_DMAC_TRANSFER_STATE_WAITING_FOR_REQUEST => step_waiting
  | SH2E_DMAC_TRANSFER_STATE_TRANSFERRING => step_transferring
  end.
Fixpoint dmac_loop (turns : nat) : st W unit :=
  match turns with
  | O => mret tt
  | S turns' =>
      d ← dmac;
      if cpu_cycles d >? 0 then
        dmac_turn;; dmac_modify (λ d, d <| cpu_cycles := u32 (cpu_cycles d - 1) |>);; dmac_loop turns'
      else mret tt
  end.
Definition dsh2edmac_step : st W unit :=
  d ← dmac; dmac_loop (Z.to_nat (cpu_cycles d)).
End DmacStep.

(** *** The register blocks on the bus *)
Section Ops.
Context (n : Z).
Definition reads {X} (get : peripheral → option X) (f : Z → X → option Z) : Z → Z → st W (option Z) :=
  λ _ addr, x ← peri get n; mret (f addr x).
Definition writes {X} (get : peripheral → option X) (put : X → peripheral) (f : Z → Z → X → X) :
    Z → Z → Z → st W unit :=
  λ _ addr val, peri_modify get put n (f addr val).
Definition ignored_read : Z → Z → st W (option Z) := λ _ _, mret None.
Definition ignored_write : Z → Z → Z → st W unit := λ _ _ _, mret tt.

Definition dsh2ecmt_ops : device_ops W := {|
  dev_read8 := Some (reads get_cmt Cmt.dsh2ecmt_read8);
  dev_read16 := Some (reads get_cmt Cmt.dsh2ecmt_read16);
  dev_read32 := Some (reads get_cmt Cmt.dsh2ecmt_read32);
  dev_read64 := None;
  dev_write8 := Some (writes get_cmt PCmt Cmt.dsh2ecmt_write8);
  dev_write16 := Some (writes get_cmt PCmt Cmt.dsh2ecmt_write16);
  dev_write32 := Some (writes get_cmt PCmt Cmt.dsh2ecmt_write32);
  dev_write64 := None |}.
Definition dsh2ewdt_ops : device_ops W := {|
  dev_read8 := Some (reads get_wdt Wdt.dsh2ewdt_read8);
  dev_read16 := Some ignored_read;
  dev_read32 := Some ignored_read;
  dev_read64 := None;
  dev_write8 := Some ignored_write;
  dev_write16 := Some (writes get_wdt PWdt Wdt.dsh2ewdt_write16);
  dev_write32 := Some ignored_write;
  dev_write64 := None |}.
Definition dsh2edmac_ops : device_ops W := {|
  dev_read8 := Some ignored_read;
  dev_read16 := Some (reads get_dmac Dmac.dsh2edmac_read16);
  dev_read32 := Some (reads get_dmac Dmac.dsh2edmac_read32);
  dev_read64 := None;
  dev_write8 := Some ignored_write;
  dev_write16 := Some (writes get_dmac PDmac Dmac.dsh2edmac_write16);
  dev_write32 := Some (writes get_dmac PDmac Dmac.dsh2edmac_write32);
  dev_write64 := None |}.
End Ops.
End Dev.

(** ** The processor device (dsh2ecpu.c)

    The number of the new processor is the first free one of the table of
    processors. *)
Definition dsh2ecpu_cmd_init (id : Z) : option sh2e_cpu := if id =? 32 then None else Some (sh2e_cpu_init id).
Definition dsh2ecpu_cmd_set_intc (no : Z) (c : sh2e_cpu) : sh2e_cpu := c <| intc := Some no |>.
Definition dsh2ecpu_cmd_add_peripheral (n : Z) (c : sh2e_cpu) : sh2e_cpu :=
  c <| on_chip_peripherals := on_chip_peripherals c ++ [n] |>.
Section Commands.
Context {D : Type} `{BoardOf sh2e_cpu desc D} `{OnChip D}.
Abbreviation W := (world sh2e_cpu desc D).
Definition dsh2ecpu_cmd_goto (addr : Z) : st W unit := sh2e_cpu_goto (ALIGN_DOWN addr 2).
Definition dsh2ecpu_cmd_assert_interrupt (no num : Z) : st W unit := sh2e_cpu_assert_interrupt no (wrap 16 num).
End Commands.
