(* ===== verification/ShIsa.v ===== *)
(** * The encodings of the SH-2E

    The instruction set as the manuals list it: patterns of sixteen bits in which
    letters stand for operands.  No word matches two patterns, and the decoder of
    decode.c agrees with the table on every word. *)

From Stdlib Require Import Ascii.
From stdpp Require Import strings.
From S2P Require Import Prelude ShTypes ShDecode.

(** ** Patterns *)

(** The bits a pattern fixes, and their values; [v] is the prefix read so far. *)
Fixpoint pattern_bits (fixed : ascii → Z) (s : string) (v : Z) : Z :=
  match s with
  | EmptyString => v
  | String a s' => pattern_bits fixed s' (2 * v + fixed a)
  end.
Definition is_digit (a : ascii) : Z :=
  if bool_decide (a = "0"%char) || bool_decide (a = "1"%char) then 1 else 0.
Definition is_one (a : ascii) : Z := if bool_decide (a = "1"%char) then 1 else 0.
Definition pattern_mask (s : string) : Z := pattern_bits is_digit s 0.
Definition pattern_value (s : string) : Z := pattern_bits is_one s 0.
Definition matches (s : string) (w : Z) : bool := Z.land w (pattern_mask s) =? pattern_value s.

Definition sh2e_isa : list (string * Fn.insn_fn) := [
  ("0000000000001000", Fn.clrt); ("0000000000001001", Fn.nop); ("0000000000001011", Fn.rts);
  ("0000000000011000", Fn.sett); ("0000000000011001", Fn.div0u); ("0000000000011011", Fn.sleep);
  ("0000000000101000", Fn.clrmac); ("0000000000101011", Fn.rte); ("0000nnnn00000010", Fn.stc_cpu);
  ("0000nnnn00010010", Fn.stc_cpu); ("0000nnnn00100010", Fn.stc_cpu); ("0000mmmm00000011", Fn.bsrf);
  ("0000mmmm00100011", Fn.braf); ("0000nnnnmmmm0100", Fn.movbs0); ("0000nnnnmmmm0101", Fn.movws0);
  ("0000nnnnmmmm0110", Fn.movls0); ("0000nnnnmmmm0111", Fn.mull); ("0000nnnn00001010", Fn.sts_cpu);
  ("0000nnnn00011010", Fn.sts_cpu); ("0000nnnn00101010", Fn.sts_cpu); ("0000nnnn01011010", Fn.sts_fpu);
  ("0000nnnn01101010", Fn.sts_fpu); ("0000nnnn00101001", Fn.movt); ("0000nnnnmmmm1100", Fn.movbl0);
  ("0000nnnnmmmm1101", Fn.movwl0); ("0000nnnnmmmm1110", Fn.movll0); ("0000nnnnmmmm1111", Fn.macl);
  ("0001nnnnmmmmdddd", Fn.movls4); ("0010nnnnmmmm0000", Fn.movbs); ("0010nnnnmmmm0001", Fn.movws);
  ("0010nnnnmmmm0010", Fn.movls); ("0010nnnnmmmm0100", Fn.movbm); ("0010nnnnmmmm0101", Fn.movwm);
  ("0010nnnnmmmm0110", Fn.movlm); ("0010nnnnmmmm0111", Fn.div0s); ("0010nnnnmmmm1000", Fn.tst);
  ("0010nnnnmmmm1001", Fn.and); ("0010nnnnmmmm1010", Fn.xor); ("0010nnnnmmmm1011", Fn.or);
  ("0010nnnnmmmm1100", Fn.cmpstr); ("0010nnnnmmmm1101", Fn.xtrct); ("0010nnnnmmmm1110", Fn.muluw);
  ("0010nnnnmmmm1111", Fn.mulsw); ("0011nnnnmmmm0000", Fn.cmpeq); ("0011nnnnmmmm0010", Fn.cmphs);
  ("0011nnnnmmmm0011", Fn.cmpge); ("0011nnnnmmmm0100", Fn.div1); ("0011nnnnmmmm0101", Fn.dmulul);
  ("0011nnnnmmmm0110", Fn.cmphi); ("0011nnnnmmmm0111", Fn.cmpgt); ("0011nnnnmmmm1000", Fn.sub);
  ("0011nnnnmmmm1010", Fn.subc); ("0011nnnnmmmm1011", Fn.subv); ("0011nnnnmmmm1100", Fn.add);
  ("0011nnnnmmmm1101", Fn.dmulsl); ("0011nnnnmmmm1110", Fn.addc); ("0011nnnnmmmm1111", Fn.addv);
  ("0100nnnn00000000", Fn.shll); ("0100nnnn00010000", Fn.dt); ("0100nnnn00100000", Fn.shal);
  ("0100nnnn00000001", Fn.shlr); ("0100nnnn00010001", Fn.cmppz); ("0100nnnn00100001", Fn.shar);
  ("0100nnnn00000010", Fn.stsm_cpu); ("0100nnnn00010010", Fn.stsm_cpu); ("0100nnnn00100010", Fn.stsm_cpu);
  ("0100nnnn01010010", Fn.stsm_fpu); ("0100nnnn01100010", Fn.stsm_fpu); ("0100nnnn00000011", Fn.stcm_cpu);
  ("0100nnnn00010011", Fn.stcm_cpu); ("0100nnnn00100011", Fn.stcm_cpu); ("0100nnnn00000100", Fn.rotl);
  ("0100nnnn00100100", Fn.rotcl); ("0100nnnn00000101", Fn.rotr); ("0100nnnn00010101", Fn.cmppl);
  ("0100nnnn00100101", Fn.rotcr); ("0100mmmm00000110", Fn.ldsl_mach); ("0100mmmm00010110", Fn.ldsl_macl);
  ("0100mmmm00100110", Fn.ldsl_pr); ("0100mmmm01010110", Fn.ldsl_fpul); ("0100mmmm01100110", Fn.ldsl_fpscr);
  ("0100mmmm00000111", Fn.ldcl_sr); ("0100mmmm00010111", Fn.ldcl_gbr); ("0100mmmm00100111", Fn.ldcl_vbr);
  ("0100nnnn00001000", Fn.shll2); ("0100nnnn00011000", Fn.shll8); ("0100nnnn00101000", Fn.shll16);
  ("0100nnnn00001001", Fn.shlr2); ("0100nnnn00011001", Fn.shlr8); ("0100nnnn00101001", Fn.shlr16);
  ("0100mmmm00001010", Fn.lds_mach); ("0100mmmm00011010", Fn.lds_macl); ("0100mmmm00101010", Fn.lds_pr);
  ("0100mmmm01011010", Fn.lds_fpul); ("0100mmmm01101010", Fn.lds_fpscr); ("0100mmmm00001011", Fn.jsr);
  ("0100nnnn00011011", Fn.tas); ("0100mmmm00101011", Fn.jmp); ("0100mmmm00001110", Fn.ldc_sr);
  ("0100mmmm00011110", Fn.ldc_gbr); ("0100mmmm00101110", Fn.ldc_vbr); ("0100nnnnmmmm1111", Fn.macw);
  ("0101nnnnmmmmdddd", Fn.movll4); ("0110nnnnmmmm0000", Fn.movbl); ("0110nnnnmmmm0001", Fn.movwl);
  ("0110nnnnmmmm0010", Fn.movll); ("0110nnnnmmmm0011", Fn.mov); ("0110nnnnmmmm0100", Fn.movbp);
  ("0110nnnnmmmm0101", Fn.movwp); ("0110nnnnmmmm0110", Fn.movlp); ("0110nnnnmmmm0111", Fn.not);
  ("0110nnnnmmmm1000", Fn.swapb); ("0110nnnnmmmm1001", Fn.swapw); ("0110nnnnmmmm1010", Fn.negc);
  ("0110nnnnmmmm1011", Fn.neg); ("0110nnnnmmmm1100", Fn.extub); ("0110nnnnmmmm1101", Fn.extuw);
  ("0110nnnnmmmm1110", Fn.extsb); ("0110nnnnmmmm1111", Fn.extsw); ("0111nnnniiiiiiii", Fn.addi);
  ("10000000nnnndddd", Fn.movbs4); ("10000001nnnndddd", Fn.movws4); ("10000100mmmmdddd", Fn.movbl4);
  ("10000101mmmmdddd", Fn.movwl4); ("10001000iiiiiiii", Fn.cmpim); ("10001001dddddddd", Fn.bt);
  ("10001011dddddddd", Fn.bf); ("10001101dddddddd", Fn.bts); ("10001111dddddddd", Fn.bfs);
  ("1001nnnndddddddd", Fn.movwi); ("1010dddddddddddd", Fn.bra); ("1011dddddddddddd", Fn.bsr);
  ("11000000dddddddd", Fn.movbsg); ("11000001dddddddd", Fn.movwsg); ("11000010dddddddd", Fn.movlsg);
  ("11000011iiiiiiii", Fn.trapa); ("11000100dddddddd", Fn.movblg); ("11000101dddddddd", Fn.movwlg);
  ("11000110dddddddd", Fn.movllg); ("11000111dddddddd", Fn.mova); ("11001000iiiiiiii", Fn.tsti);
  ("11001001iiiiiiii", Fn.andi); ("11001010iiiiiiii", Fn.xori); ("11001011iiiiiiii", Fn.ori);
  ("11001100iiiiiiii", Fn.tstm); ("11001101iiiiiiii", Fn.andm); ("11001110iiiiiiii", Fn.xorm);
  ("11001111iiiiiiii", Fn.orm); ("1101nnnndddddddd", Fn.movli); ("1110nnnniiiiiiii", Fn.movi);
  ("1111nnnnmmmm0000", Fn.fadd); ("1111nnnnmmmm0001", Fn.fsub); ("1111nnnnmmmm0010", Fn.fmul);
  ("1111nnnnmmmm0011", Fn.fdiv); ("1111nnnnmmmm0100", Fn.fcmpeq); ("1111nnnnmmmm0101", Fn.fcmpgt);
  ("1111nnnnmmmm0110", Fn.fmovli); ("1111nnnnmmmm0111", Fn.fmovsi); ("1111nnnnmmmm1000", Fn.fmovl);
  ("1111nnnnmmmm1001", Fn.fmovlr); ("1111nnnnmmmm1010", Fn.fmovs); ("1111nnnnmmmm1011", Fn.fmovss);
  ("1111nnnnmmmm1100", Fn.fmov); ("1111nnnn00001101", Fn.fsts); ("1111nnnn00011101", Fn.flds);
  ("1111nnnn00101101", Fn.float); ("1111nnnn00111101", Fn.ftrc); ("1111nnnn01001101", Fn.fneg);
  ("1111nnnn01011101", Fn.fabs); ("1111nnnn10001101", Fn.fldi0); ("1111nnnn10011101", Fn.fldi1);
  ("1111nnnnmmmm1110", Fn.fmac)].

(** Instructions of the simulator, when they are allowed. *)
Definition msim_isa : list (string * Fn.insn_fn) := [
  ("1000001000000000", Fn.halt); ("1000001000000001", Fn.cpu_reg_dump); ("1000001000000010", Fn.fpu_reg_dump)].
Definition isa (machine_specific_instructions : bool) : list (string * Fn.insn_fn) :=
  sh2e_isa ++ if machine_specific_instructions then msim_isa else [].

(** ** The table as numbers, by the leading hexadecimal digit *)
Definition entry_bits (e : string * Fn.insn_fn) : Z * Z * Fn.insn_fn :=
  (pattern_mask e.1, pattern_value e.1, e.2).
Definition in_major (a : Z) (e : Z * Z * Fn.insn_fn) : bool :=
  let '(_, v, _) := e in Z.shiftr v 12 =? a.
Definition group (sp : bool) (a : Z) : list (Z * Z * Fn.insn_fn) :=
  List.filter (in_major a) (map entry_bits (isa sp)).

Definition hit (w : Z) (e : Z * Z * Fn.insn_fn) : bool := let '(m, v, _) := e in Z.land w m =? v.
Definition found (tbl : list (Z * Z * Fn.insn_fn)) (w : Z) : list Fn.insn_fn :=
  map snd (List.filter (hit w) tbl).
Definition is_illegal (f : Fn.insn_fn) : bool := match f with Fn.illegal => true | _ => false end.
Definition expected (sp : bool) (w : Z) : list Fn.insn_fn :=
  let f := d_exec (sh2e_insn_decode sp w) in if is_illegal f then [] else [f].

(** Neither the decoder nor the patterns look at all bits: a representative of the
    words they treat alike, and the representatives with leading digit [a]. *)
Definition rep (w : Z) : Z :=
  match Z.shiftr w 12 with
  | 0 => if w <? 256 then w else 256 + ubits w 0 8
  | 8 => if Z.shiftr w 8 =? 0x82 then w else Z.land w 0xFF00
  | 12 => Z.land w 0xFF00
  | _ => Z.land w 0xF0FF
  end.
Definition reps (a : Z) : list Z :=
  match a with
  | 0 => seqZ 0 512
  | 8 => seqZ 0x8200 256 ++ map (λ k, 0x8000 + 256 * k) (seqZ 0 16)
  | 12 => map (λ k, 0xC000 + 256 * k) (seqZ 0 16)
  | _ => map (λ k, 4096 * a + k) (seqZ 0 256)
  end.

Definition digits : list Z := [0; 1; 2; 3; 4; 5; 6; 7; 8; 9; 10; 11; 12; 13; 14; 15].
Lemma elem_digits a : 0 ≤ a < 16 → a ∈ digits.
Proof. intros H. unfold digits. rewrite !elem_of_cons. lia. Qed.

Lemma groups_agree sp :
  map (λ a, map (found (group sp a)) (reps a)) digits = map (λ a, map (expected sp) (reps a)) digits.
Proof. destruct sp; vm_compute; reflexivity. Qed.

Lemma map_eq_elem {A B} (f g : A → B) (l : list A) x : map f l = map g l → x ∈ l → f x = g x.
Proof.
  induction l as [|y l IH]; [intros _ H; by apply not_elem_of_nil in H|].
  cbn. intros [= E1 E2] [->|H]%elem_of_cons; auto.
Qed.

Lemma rep_agrees sp a w : 0 ≤ a < 16 → w ∈ reps a → found (group sp a) w = expected sp w.
Proof.
  intros Ha Hw. apply elem_digits in Ha.
  eapply map_eq_elem; [|exact Hw]. exact (map_eq_elem _ _ _ a (groups_agree sp) Ha).
Qed.

(** ** Representatives *)
Lemma by_digit (P : Z → Prop) w : 0 ≤ w < 65536 →
  (∀ a b, w = 4096 * a + b → 0 ≤ b < 4096 → Z.shiftr w 12 = a → a ∈ digits → P w) → P w.
Proof.
  intros Hw H. assert (Z.shiftr w 12 = w / 4096) as E by by rewrite Z.shiftr_div_pow2 by lia.
  apply (H (w / 4096) (w mod 4096)); [apply Z.div_mod; lia|apply Z.mod_pos_bound; lia|done|].
  apply elem_digits. split; [apply Z.div_pos; lia|apply Z.div_lt_upper_bound; lia].
Qed.

(** The fields of a word as quotients and remainders. *)
Lemma field_div w lo n : 0 ≤ lo → 0 ≤ n → ubits w lo n = (w / 2 ^ lo) mod 2 ^ n.
Proof. intros. unfold ubits. by rewrite Z.land_ones, Z.shiftr_div_pow2. Qed.
Lemma land_high_byte w : 0 ≤ w < 65536 → Z.land w 0xFF00 = w - w mod 256.
Proof.
  intros Hw. change 0xFF00 with (Z.shiftl (Z.ones 8) 8). rewrite land_field, Z.shiftl_mul_pow2 by lia.
  change (2 ^ 8) with 256. rewrite (Z.mod_small (w / 256)); [|split; [apply Z.div_pos|apply Z.div_lt_upper_bound]; lia].
  pose proof (Z.div_mod w 256). lia.
Qed.
Lemma land_outer w : 0 ≤ w < 65536 → Z.land w 0xF0FF = 4096 * (w / 4096) + w mod 256.
Proof.
  intros Hw. change 0xF0FF with (Z.lor (Z.shiftl (Z.ones 4) 12) (Z.ones 8)).
  rewrite Z.land_lor_distr_r, land_field, Z.land_ones by lia.
  change (2 ^ 12) with 4096. rewrite (Z.mod_small (w / 4096)); [|split; [apply Z.div_pos|apply Z.div_lt_upper_bound]; lia].
  replace (Z.shiftl (w / 4096) 12) with (Z.shiftl (16 * (w / 4096)) 8)
    by (rewrite !Z.shiftl_mul_pow2 by lia; lia).
  rewrite lor_disjoint; [change (2 ^ 8) with 256; lia|lia|]. apply Z.mod_pos_bound. lia.
Qed.

Lemma elem_map {A B} (f : A → B) l x y : y = f x → x ∈ l → y ∈ map f l.
Proof. intros ->. rewrite !list_elem_of_In. apply in_map. Qed.

Lemma rep_in_reps w : 0 ≤ w < 65536 → rep w ∈ reps (Z.shiftr w 12).
Proof.
  intros Hw. apply (by_digit (λ w, rep w ∈ reps (Z.shiftr w 12)) w Hw). intros a b -> Hb E Ha.
  assert (0 ≤ 4096 * a + b < 65536) as Hw' by lia. assert (0 ≤ (4096 * a + b) mod 256 < 256) as Hm by (apply Z.mod_pos_bound; lia).
  assert ((4096 * a + b) / 4096 = a) as Ed by (rewrite Z.mul_comm, Z.div_add_l, Z.div_small; lia).
  unfold rep. rewrite E. rewrite (land_high_byte _ Hw'), (land_outer _ Hw'), Ed, field_div, Z.div_1_r, (Z.shiftr_div_pow2 _ 8) by lia.
  change (2 ^ 8) with 256. pose proof (Z.div_mod (4096 * a + b) 256) as Ew. set (w' := 4096 * a + b) in *.
  assert (0 ≤ w' / 256 - 16 * a < 16) as Hh by (pose proof (Z.div_mod w' 256); subst w'; lia).
  repeat (apply elem_of_cons in Ha as [->|Ha]; [cbn [reps]|]); [..|by apply not_elem_of_nil in Ha];
    try (apply (elem_map _ _ (w' mod 256)); [lia|apply elem_of_seqZ; lia]).
  - apply elem_of_seqZ. destruct (Z.ltb_spec w' 256); lia.
  - apply elem_of_app.
    destruct (Z.eqb_spec (w' / 256) 0x82).
    + left. apply elem_of_seqZ. lia.
    + right. apply (elem_map _ _ (w' / 256 - 128)); [lia|apply elem_of_seqZ; lia].
  - apply (elem_map _ _ (w' / 256 - 192)); [lia|apply elem_of_seqZ; lia].
Qed.

(** The decoder sees words with the same outer digits, or with the same leading
    byte, alike. *)
Lemma same_outer w v : w mod 256 = v mod 256 → w / 4096 = v / 4096 →
  Z.shiftr w 12 = Z.shiftr v 12 ∧ f_ic_h w = f_ic_h v ∧ f_ic_l8 w = f_ic_l8 v ∧ f_ic_l4 w = f_ic_l4 v.
Proof.
  intros El Eh. unfold f_ic_h, f_ic_l8, f_ic_l4. rewrite !field_div, !Z.shiftr_div_pow2 by lia.
  change (2 ^ 12) with 4096. change (2 ^ 8) with 256. change (2 ^ 0) with 1. rewrite !Z.div_1_r. repeat split; try congruence.
  change (2 ^ 4) with 16. rewrite <- (Z.mod_mod_divide w 256 16), <- (Z.mod_mod_divide v 256 16) by (by exists 16).
  by rewrite El.
Qed.
Lemma same_byte w v : w / 256 = v / 256 →
  Z.shiftr w 12 = Z.shiftr v 12 ∧ f_ic_h w = f_ic_h v ∧ f_ic8 w = f_ic8 v.
Proof.
  intros E. unfold f_ic_h, f_ic8. rewrite !field_div, !Z.shiftr_div_pow2 by lia.
  change (2 ^ 12) with (256 * 16). rewrite <- !Z.div_div by lia. change (2 ^ 8) with 256. by rewrite E.
Qed.
Lemma z_format_short w : 256 ≤ w → sh2e_insn_decode_z_format w = None.
Proof. intros H. unfold sh2e_insn_decode_z_format. repeat case_match; done || lia. Qed.
Lemma msim_format_page sp w : w / 256 ≠ 0x82 → sh2e_insn_decode_msim_format sp w = None.
Proof. intros H. unfold sh2e_insn_decode_msim_format. repeat case_match; subst; done. Qed.

Lemma decode_rep sp w : 0 ≤ w < 65536 → sh2e_insn_decode sp (rep w) = sh2e_insn_decode sp w.
Proof.
  intros Hw. unfold sh2e_insn_decode. f_equal. unfold rep. rewrite land_high_byte, land_outer by done.
  assert (w mod 256 < 256 ∧ 0 ≤ w mod 256) as [Hm1 Hm2] by (split; apply Z.mod_pos_bound; lia).
  destruct (same_outer (4096 * (w / 4096) + w mod 256) w) as (E1 & E2 & E3 & E4).
  { replace (4096 * (w / 4096)) with (16 * (w / 4096) * 256) by lia.
    by rewrite Z.add_comm, Z.mod_add, Z.mod_mod by lia. }
  { rewrite (Z.mul_comm 4096), Z.div_add_l, (Z.div_small (w mod 256)) by lia. lia. }
  destruct (same_byte (w - w mod 256) w) as (F1 & F2 & F3).
  { pose proof (Z.div_mod w 256). replace (w - w mod 256) with (w / 256 * 256) by lia. by apply Z.div_mul. }
  assert (0 ≤ Z.shiftr w 12 < 16) as Ha.
  { rewrite Z.shiftr_div_pow2 by lia. split; [apply Z.div_pos|apply Z.div_lt_upper_bound]; lia. }
  apply elem_digits in Ha. remember (Z.shiftr w 12) as a eqn:Ed. symmetry in Ed.
  repeat (apply elem_of_cons in Ha as [->|Ha]; [cbv iota beta|]); [..|by apply not_elem_of_nil in Ha];
    try (unfold sh2e_insn_decode_group; rewrite Ed, E1; cbn [Z.eqb Pos.eqb];
         unfold sh2e_insn_decode_nmd_format, sh2e_insn_decode_nm_format, sh2e_insn_decode_n_format,
           sh2e_insn_decode_m_format, sh2e_insn_decode_ni_format, sh2e_insn_decode_nd8_format,
           sh2e_insn_decode_d12_format, sh2e_insn_decode_n_format_fpu, sh2e_insn_decode_m_format_fpu,
           sh2e_insn_decode_nm_format_fpu; by rewrite ?E2, ?E3, ?E4).
  - destruct (Z.ltb_spec w 256) as [|Hge]; [done|]. rewrite field_div, Z.div_1_r by lia. change (2 ^ 8) with 256.
    assert (w / 4096 = 0) as E0 by (rewrite Z.shiftr_div_pow2 in Ed by lia; exact Ed).
    destruct (same_outer (256 + w mod 256) w) as (G1 & G2 & G3 & G4).
    { replace (256 + w mod 256) with (w mod 256 + 1 * 256) by lia. by rewrite Z.mod_add, Z.mod_mod by lia. }
    { rewrite E0. apply Z.div_small. lia. }
    unfold sh2e_insn_decode_group. rewrite G1, Ed, !z_format_short by lia.
    unfold sh2e_insn_decode_nm_format, sh2e_insn_decode_n_format, sh2e_insn_decode_m_format.
    by rewrite G2, G3, G4.
  - rewrite Z.shiftr_div_pow2 by lia. change (2 ^ 8) with 256.
    destruct (Z.eqb_spec (w / 256) 0x82) as [|Hne]; [done|].
    unfold sh2e_insn_decode_group. rewrite F1, Ed, !msim_format_page; [|done|].
    2: { pose proof (Z.div_mod w 256). replace (w - w mod 256) with (w / 256 * 256) by lia. by rewrite Z.div_mul. }
    unfold sh2e_insn_decode_md_format, sh2e_insn_decode_nd4_format, sh2e_insn_decode_d_format,
      sh2e_insn_decode_i_format. by rewrite F3.
  - unfold sh2e_insn_decode_group. rewrite F1, Ed.
    unfold sh2e_insn_decode_d_format, sh2e_insn_decode_i_format. by rewrite F3.
Qed.

(** So do the patterns of each group. *)
Definition narrow (a : Z) (e : Z * Z * Fn.insn_fn) : bool :=
  let '(m, v, _) := e in
  match a with
  | 0 => (Z.land m 0xF0FF =? m) || ((m =? 0xFFFF) && (v <? 256))
  | 8 => (Z.land m 0xFF00 =? m) || ((m =? 0xFFFF) && (Z.shiftr v 8 =? 0x82))
  | 12 => Z.land m 0xFF00 =? m
  | _ => Z.land m 0xF0FF =? m
  end.
Lemma groups_narrow sp : forallb (λ a, forallb (narrow a) (group sp a)) digits = true.
Proof. by destruct sp; vm_compute. Qed.

Lemma land_via m M w w' : Z.land m M = m → Z.land w M = Z.land w' M → Z.land w m = Z.land w' m.
Proof. intros <- E. by rewrite (Z.land_comm m), !Z.land_assoc, E. Qed.
Lemma land_full w : 0 ≤ w < 65536 → Z.land w 0xFFFF = w.
Proof. intros H. change 0xFFFF with (Z.ones 16). rewrite Z.land_ones by lia. by apply Z.mod_small. Qed.

Lemma hit_rep w e : 0 ≤ w < 65536 → narrow (Z.shiftr w 12) e = true → hit (rep w) e = hit w e.
Proof.
  intros Hw. destruct e as [[m v] f]. unfold narrow, hit, rep. cbn [Z.eqb].
  assert (∀ M, (Z.land m M =? m) = true → (Z.land (Z.land w M) m =? v) = (Z.land w m =? v)) as Hland.
  { intros M E%Z.eqb_eq. f_equal. apply (land_via _ M); [done|]. by rewrite <- Z.land_assoc, Z.land_diag. }
  assert (0 ≤ Z.shiftr w 12 < 16) as Ha.
  { rewrite Z.shiftr_div_pow2 by lia. split; [apply Z.div_pos|apply Z.div_lt_upper_bound]; lia. }
  pose proof (Z.div_mod w 256) as Ew. assert (0 ≤ w mod 256 < 256) as Hm by (apply Z.mod_pos_bound; lia).
  apply elem_digits in Ha. remember (Z.shiftr w 12) as a eqn:Ed.
  assert (m = 0xFFFF → w ≠ v → (w =? v) = (Z.land w m =? v)) as Hfull.
  { intros -> Hne. by rewrite land_full. }
  repeat (apply elem_of_cons in Ha as [->|Ha]; [cbv iota; try apply Hland|]); [..|by apply not_elem_of_nil in Ha].
  - destruct (Z.ltb_spec w 256) as [|Hge]; [done|]. rewrite field_div, Z.div_1_r by lia. change (2 ^ 8) with 256.
    rewrite Z.shiftr_div_pow2 in Ed by lia. change (2 ^ 12) with 4096 in Ed.
    intros [E%Z.eqb_eq|[E1%Z.eqb_eq E2%Z.ltb_lt]%andb_prop]%orb_prop.
    + f_equal. apply (land_via _ 0xF0FF); [done|]. rewrite !land_outer, <- Ed, Z.div_small by lia.
      replace (256 + w mod 256) with (w mod 256 + 1 * 256) by lia. by rewrite Z.mod_add, Z.mod_mod by lia.
    + subst m. rewrite !land_full by lia. rewrite !(proj2 (Z.eqb_neq _ _)); lia.
  - destruct (Z.eqb_spec (Z.shiftr w 8) 0x82) as [|Hne]; [done|].
    intros [E|[E1%Z.eqb_eq E2%Z.eqb_eq]%andb_prop]%orb_prop; [by apply Hland|].
    subst m. rewrite land_high_byte by done. rewrite !land_full by lia.
    rewrite Z.shiftr_div_pow2 in Hne, E2 by lia. change (2 ^ 8) with 256 in *.
    rewrite !(proj2 (Z.eqb_neq _ _)); [done|by intros <-|].
    intros <-. apply Hne. rewrite <- E2. replace (w - w mod 256) with (w / 256 * 256) by lia. by rewrite Z.div_mul.
Qed.

Lemma found_rep sp w : 0 ≤ w < 65536 → found (group sp (Z.shiftr w 12)) (rep w) = found (group sp (Z.shiftr w 12)) w.
Proof.
  intros Hw. unfold found. f_equal.
  assert (forallb (narrow (Z.shiftr w 12)) (group sp (Z.shiftr w 12)) = true) as H.
  { apply (proj1 (forallb_forall _ _) (groups_narrow sp)). apply list_elem_of_In, elem_digits.
    rewrite Z.shiftr_div_pow2 by lia. split; [apply Z.div_pos|apply Z.div_lt_upper_bound]; lia. }
  induction (group sp (Z.shiftr w 12)) as [|e l IH]; [done|]. cbn in H |- *.
  apply andb_prop in H as [He Hl]. by rewrite hit_rep, IH.
Qed.

Lemma found_expected sp w : 0 ≤ w < 65536 → found (group sp (Z.shiftr w 12)) w = expected sp w.
Proof.
  intros Hw. rewrite <- found_rep by done. unfold expected. rewrite <- (decode_rep sp w) by done.
  apply rep_agrees; [|by apply rep_in_reps].
  rewrite Z.shiftr_div_pow2 by lia. split; [apply Z.div_pos|apply Z.div_lt_upper_bound]; lia.
Qed.

(** A pattern that matches fixes the leading digit. *)
Definition fixes_major (e : Z * Z * Fn.insn_fn) : bool := let '(m, _, _) := e in Z.land m 0xF000 =? 0xF000.
Lemma isa_fixes_major sp : forallb fixes_major (map entry_bits (isa sp)) = true.
Proof. by destruct sp; vm_compute. Qed.

Lemma hit_entry w e : hit w (entry_bits e) = matches e.1 w.
Proof. reflexivity. Qed.
Lemma snd_entry e : (entry_bits e).2 = e.2.
Proof. reflexivity. Qed.

Lemma match_in_group sp p f w : 0 ≤ w < 65536 → (p, f) ∈ isa sp → matches p w = true →
  f ∈ found (group sp (Z.shiftr w 12)) w.
Proof.
  intros Hw Hin Hm. apply list_elem_of_In in Hin. apply (in_map entry_bits) in Hin.
  pose proof (proj1 (forallb_forall _ _) (isa_fixes_major sp) _ Hin) as Hf.
  apply list_elem_of_In, (in_map snd (List.filter _ _) (entry_bits (p, f))), filter_In. split; [|exact Hm].
  apply filter_In. split; [done|].
  unfold fixes_major, in_major, entry_bits in *. cbn [fst snd] in *. apply Z.eqb_eq in Hf. unfold matches in Hm.
  apply Z.eqb_eq in Hm. rewrite <- Hm. apply Z.eqb_eq. rewrite Z.shiftr_land.
  assert (Z.shiftr w 12 = Z.land (Z.shiftr w 12) 15) as ->.
  { change 15 with (Z.ones 4). rewrite Z.land_ones, Z.shiftr_div_pow2 by lia. rewrite Z.mod_small; [done|].
    split; [apply Z.div_pos|apply Z.div_lt_upper_bound]; lia. }
  rewrite <- Z.land_assoc. f_equal. rewrite Z.land_comm.
  change 15 with (Z.shiftr 0xF000 12). rewrite <- Z.shiftr_land. by rewrite Hf.
Qed.
Lemma found_in_table (tbl : list (string * Fn.insn_fn)) sel f w :
  f ∈ found (List.filter sel (map entry_bits tbl)) w → ∃ p, (p, f) ∈ tbl ∧ matches p w = true.
Proof.
  intros Hf. apply list_elem_of_In, in_map_iff in Hf as (e & Ef & Hin).
  apply filter_In in Hin as [Hin Hh]. apply filter_In in Hin as [Hin _].
  apply in_map_iff in Hin as (x & Ex & Hin). subst e f. exists x.1. rewrite hit_entry in Hh.
  split; [|exact Hh]. apply list_elem_of_In. by rewrite snd_entry, <- surjective_pairing.
Qed.
Lemma found_in_isa sp a f w : f ∈ found (group sp a) w → ∃ p, (p, f) ∈ isa sp ∧ matches p w = true.
Proof. apply found_in_table. Qed.

Lemma is_illegal_spec f : is_illegal f = true → f = Fn.illegal.
Proof. destruct f; intros H; (reflexivity || discriminate H). Qed.

(** C9: the decoder of the SH-2E implements the instruction set.  For every word, a
    pattern of the table that matches it names the function the decoder selects, so
    no word matches patterns of different functions; a word that matches none
    decodes to the illegal instruction. *)
Theorem sh2e_decode_table sp w : 0 ≤ w < 65536 →
  (∀ p f, (p, f) ∈ isa sp → matches p w = true → d_exec (sh2e_insn_decode sp w) = f) ∧
  ((∀ p f, (p, f) ∈ isa sp → matches p w = false) → d_exec (sh2e_insn_decode sp w) = Fn.illegal).
Proof.
  intros Hw. pose proof (found_expected sp w Hw) as E. unfold expected in E. split.
  - intros p f Hin Hm. pose proof (match_in_group sp p f w Hw Hin Hm) as Hf. rewrite E in Hf.
    destruct (is_illegal _); [by apply not_elem_of_nil in Hf|]. by apply list_elem_of_singleton in Hf.
  - intros Hno. destruct (is_illegal _) eqn:Ei in E; [by apply is_illegal_spec|].
    destruct (found_in_isa sp (Z.shiftr w 12) (d_exec (sh2e_insn_decode sp w)) w) as (p & Hin & Hm);
      [rewrite E; by apply list_elem_of_singleton|].
    by rewrite (Hno _ _ Hin) in Hm.
Qed.

(** [ADDC R3, R7] and a word that is no instruction. *)
Lemma sh2e_decode_table_witness :
  d_exec (sh2e_insn_decode false 0x373E) = Fn.addc ∧ d_exec (sh2e_insn_decode false 0xFFFF) = Fn.illegal.
Proof.
  split.
  - apply (proj1 (sh2e_decode_table false 0x373E ltac:(lia)) "0011nnnnmmmm1110"); [|reflexivity].
    apply list_elem_of_In. vm_compute. repeat (first [by left | right]).
  - apply (proj2 (sh2e_decode_table false 0xFFFF ltac:(lia))). intros p f Hin. apply list_elem_of_In in Hin.
    assert (forallb (λ e, negb (matches e.1 0xFFFF)) (isa false) = true) as H by by vm_compute.
    pose proof (proj1 (forallb_forall _ _) H _ Hin) as Hp. by apply negb_true_iff in Hp.
Defined.
