(* ===== verification/ShArith.v ===== *)
(** * Arithmetic of the SH-2E

    What the instructions on registers compute, in terms of integers: the carries
    and borrows, the comparison of bytes, and the division that programs assemble
    from DIV0U, ROTCL and DIV1.  The saturating multiplication departs from the
    manual. *)

From S2P Require Import Prelude PhysMem Machine ShTypes ShFloat ShExec ShDecode ShIsa ShIntc ShPeri ShCpu RvSample.

(** ** Bit-fields of the status register *)
Lemma testbit_put_bits w lo n x v i : 0 ≤ lo → 0 ≤ n → lo + n ≤ w → 0 ≤ i < w →
  Z.testbit (put_bits w lo n x v) i =
  if (lo <=? i) && (i <? lo + n) then Z.testbit x (i - lo) else Z.testbit v i.
Proof.
  intros. unfold put_bits. autorewrite with zbits.
  destruct (Z.leb_spec lo i), (Z.ltb_spec i (lo + n)); cbn [andb].
  - rewrite testbit_wrap, testbit_ones by lia. rewrite (proj2 (Z.ltb_lt i w)), (proj2 (Z.ltb_lt (i - lo) n)) by lia.
    cbn. by rewrite andb_false_r.
  - rewrite testbit_wrap, testbit_ones by lia. rewrite (proj2 (Z.ltb_lt i w)), (proj2 (Z.ltb_ge (i - lo) n)) by lia.
    cbn. by rewrite andb_true_r, orb_false_r.
  - rewrite (proj2 (Z.ltb_lt i w)) by lia. cbn. by rewrite andb_true_r, orb_false_r.
  - rewrite (proj2 (Z.ltb_lt i w)) by lia. cbn. by rewrite andb_true_r, orb_false_r.
Qed.

Lemma ubits_put_same w lo n x v : 0 ≤ lo → 0 ≤ n → lo + n ≤ w → ubits (put_bits w lo n x v) lo n = wrap n x.
Proof.
  intros. apply Z.bits_inj'. intros i Hi. rewrite testbit_ubits, testbit_wrap by lia.
  destruct (Z.ltb_spec i n); [|done]. cbn. rewrite testbit_put_bits by lia.
  rewrite (proj2 (Z.leb_le lo _)), (proj2 (Z.ltb_lt _ (lo + n))) by lia. cbn. f_equal. lia.
Qed.
Lemma ubits_put_other w lo n x v lo' n' : 0 ≤ lo → 0 ≤ n → lo + n ≤ w → 0 ≤ lo' → 0 ≤ n' → lo' + n' ≤ w →
  lo' + n' ≤ lo ∨ lo + n ≤ lo' → ubits (put_bits w lo n x v) lo' n' = ubits v lo' n'.
Proof.
  intros. apply Z.bits_inj'. intros i Hi. rewrite !testbit_ubits by lia.
  destruct (Z.ltb_spec i n'); [|done]. cbn. rewrite testbit_put_bits by lia.
  destruct (Z.leb_spec lo (i + lo')), (Z.ltb_spec (i + lo') (lo + n)); done || lia.
Qed.

Lemma wrap_bit b : wrap 1 (bool_to_Z b) = bool_to_Z b.
Proof. by destruct b. Qed.

(** Reading a field after an assignment to one. *)
Lemma sr_t_set_t v c : sr_t (set_t v c) = wrap 1 v.
Proof. by apply ubits_put_same. Qed.
Lemma sr_q_set_t v c : sr_q (set_t v c) = sr_q c.
Proof. apply ubits_put_other; lia. Qed.
Lemma sr_m_set_t v c : sr_m (set_t v c) = sr_m c.
Proof. apply ubits_put_other; lia. Qed.
Lemma sr_q_set_q v c : sr_q (set_q v c) = wrap 1 v.
Proof. by apply ubits_put_same. Qed.
Lemma sr_m_set_q v c : sr_m (set_q v c) = sr_m c.
Proof. apply ubits_put_other; lia. Qed.
Lemma sr_m_set_m v c : sr_m (set_m v c) = wrap 1 v.
Proof. by apply ubits_put_same. Qed.
Lemma sr_t_set_reg n v c : sr_t (set_reg n v c) = sr_t c. Proof. done. Qed.
Lemma sr_q_set_reg n v c : sr_q (set_reg n v c) = sr_q c. Proof. done. Qed.
Lemma sr_m_set_reg n v c : sr_m (set_reg n v c) = sr_m c. Proof. done. Qed.
Lemma reg_set_same n v c : reg n (set_reg n v c) = v.
Proof. unfold reg, set_reg. cbn. by rewrite lookup_insert_eq. Qed.
Lemma reg_set_other n m v c : n ≠ m → reg n (set_reg m v c) = reg n c.
Proof. intros. unfold reg, set_reg. cbn. by rewrite lookup_insert_ne. Qed.
Lemma reg_set_t n v c : reg n (set_t v c) = reg n c. Proof. done. Qed.
Lemma reg_set_q n v c : reg n (set_q v c) = reg n c. Proof. done. Qed.
Lemma reg_set_m n v c : reg n (set_m v c) = reg n c. Proof. done. Qed.

Create Rewrite HintDb sh_regs.
#[export] Hint Rewrite sr_t_set_t sr_q_set_t sr_m_set_t sr_q_set_q sr_m_set_q sr_m_set_m sr_t_set_reg
  sr_q_set_reg sr_m_set_reg reg_set_same reg_set_t reg_set_q reg_set_m : sh_regs.
#[export] Hint Rewrite reg_set_other using lia : sh_regs.

(** ** Words as integers *)
Lemma sr_t_bit c : sr_t c = 0 ∨ sr_t c = 1.
Proof. pose proof (ubits_range (sr c) 0 1 ltac:(lia)) as H. unfold in_width in H. unfold sr_t. lia. Qed.

(** Shifting a bit in from the right. *)
Lemma shift_in h t : 0 ≤ t < 2 → Z.lor (u32 (Z.shiftl h 1)) t = (2 * h) mod 2 ^ 32 + t.
Proof.
  intros Ht. unfold u32, wrap. rewrite Z.shiftl_mul_pow2 by lia. change (2 ^ 1) with 2.
  rewrite (Z.mul_comm h). replace ((2 * h) mod 2 ^ 32) with (h mod 2 ^ 31 * 2).
  - change (h mod 2 ^ 31 * 2) with (h mod 2 ^ 31 * 2 ^ 1). rewrite <- Z.shiftl_mul_pow2 at 1 by lia.
    by rewrite lor_disjoint by (unfold in_width; lia).
  - change (2 ^ 32) with (2 * 2 ^ 31). rewrite Z.mul_mod_distr_l by lia. lia.
Qed.
Lemma double_split h : 0 ≤ h < 2 ^ 32 →
  2 * h = 2 ^ 32 * bit_value_msb h + (2 * h) mod 2 ^ 32 ∧ 0 ≤ bit_value_msb h < 2.
Proof.
  intros H. unfold bit_value_msb. rewrite Z.shiftr_div_pow2 by lia. split.
  - rewrite (Z.div_mod (2 * h) (2 ^ 32)) at 1 by lia. f_equal. f_equal. change (2 ^ 32) with (2 * 2 ^ 31).
    by rewrite Z.div_mul_cancel_l by lia.
  - split; [apply Z.div_pos; lia|]. apply Z.div_lt_upper_bound; lia.
Qed.

Lemma double_bit a b : (2 * a + bool_to_Z b) / 2 = a ∧ (2 * a + bool_to_Z b) mod 2 = bool_to_Z b.
Proof.
  rewrite (Z.mul_comm 2), Z.div_add_l, (Z.add_comm (a * 2)), Z.mod_add by lia.
  destruct b; cbn [bool_to_Z]; split; (reflexivity || (change (1 / 2) with 0; lia) || (change (0 / 2) with 0; lia)).
Qed.

(** ** Division

    [R] is the partial remainder: its low 32 bits are in a register, its sign is in Q. *)
Definition partial (h q R : Z) : Prop := h = u32 R ∧ q = bool_to_Z (R <? 0).

Lemma div1_partial h q t d R : 0 < d < 2 ^ 32 → - d ≤ R < d → 0 ≤ t < 2 → partial h q R →
  let shifted := Z.lor (u32 (Z.shiftl h 1)) t in
  let next := u32 (shifted + if q =? 0 then u32 (- d) else d) in
  let carry := bool_to_Z (if q =? 0 then next >? shifted else next <? shifted) in
  partial next (Z.lxor carry (bit_value_msb h)) (2 * R + t + if R <? 0 then d else - d).
Proof.
  intros Hd HR Ht [Eh Eq] s next carry. pose proof (shift_in h t Ht) as Es. fold s in Es.
  assert (0 ≤ h < 2 ^ 32) as Hh by (subst h; apply wrap_range; lia).
  destruct (double_split h Hh) as [E2 Hb].
  assert (0 ≤ s < 2 ^ 32) as Hs.
  { assert ((2 * h) mod 2 ^ 32 = 2 * (h mod 2 ^ 31)) as E
      by (change (2 ^ 32) with (2 * 2 ^ 31); by rewrite Z.mul_mod_distr_l by lia).
    pose proof (Z.mod_pos_bound h (2 ^ 31)). lia. }
  clearbody s. set (b := bit_value_msb h) in *. unfold partial.
  destruct (Z.ltb_spec R 0) as [Hneg|Hpos]; subst q; cbn [bool_to_Z Z.eqb] in *.
  - assert (h = R + 2 ^ 32) as EhR by (subst h; unfold u32; symmetry; apply (Z.mod_unique _ _ (-1)); lia).
    destruct (Z.ltb_spec (s + d) (2 ^ 32)) as [Hlt|Hge].
    + assert (next = s + d) as En by (subst next; apply wrap_small; unfold in_width; lia).
      assert (carry = 0) as -> by (subst carry; rewrite En, (proj2 (Z.ltb_ge _ _)); [done|lia]).
      split; [rewrite En; unfold u32, wrap; apply (Z.mod_unique _ _ (b - 2)); lia|].
      assert (b = 0 ∨ b = 1) as [E|E] by lia; rewrite E; cbn; [rewrite (proj2 (Z.ltb_ge _ _))|rewrite (proj2 (Z.ltb_lt _ _))]; done || lia.
    + assert (next = s + d - 2 ^ 32) as En by (subst next; unfold u32, wrap; symmetry; apply (Z.mod_unique _ _ 1); lia).
      assert (carry = 1) as -> by (subst carry; rewrite En, (proj2 (Z.ltb_lt _ _)); [done|lia]).
      split; [rewrite En; unfold u32, wrap; apply (Z.mod_unique _ _ (b - 1)); lia|].
      assert (b = 0 ∨ b = 1) as [E|E] by lia; rewrite E; cbn; [rewrite (proj2 (Z.ltb_lt _ _))|rewrite (proj2 (Z.ltb_ge _ _))]; done || lia.
  - assert (h = R) as EhR by (subst h; apply wrap_small; unfold in_width; lia).
    assert (u32 (- d) = 2 ^ 32 - d) as Ed by (unfold u32, wrap; symmetry; apply (Z.mod_unique _ _ (-1)); lia).
    destruct (Z.ltb_spec s d) as [Hlt|Hge].
    + assert (next = s + (2 ^ 32 - d)) as En by (subst next; rewrite Ed; apply wrap_small; unfold in_width; lia).
      assert (carry = 1) as -> by (subst carry; rewrite En, Z.gtb_ltb, (proj2 (Z.ltb_lt _ _)); [done|lia]).
      split; [rewrite En; unfold u32, wrap; apply (Z.mod_unique _ _ (b - 1)); lia|].
      assert (b = 0 ∨ b = 1) as [E|E] by lia; rewrite E; cbn; [rewrite (proj2 (Z.ltb_lt _ _))|rewrite (proj2 (Z.ltb_ge _ _))]; done || lia.
    + assert (next = s - d) as En
        by (subst next; rewrite Ed; unfold u32, wrap; symmetry; apply (Z.mod_unique _ _ 1); lia).
      assert (carry = 0) as -> by (subst carry; rewrite En, Z.gtb_ltb, (proj2 (Z.ltb_ge _ _)); [done|lia]).
      split; [rewrite En; unfold u32, wrap; apply (Z.mod_unique _ _ b); lia|].
      assert (b = 0 ∨ b = 1) as [E|E] by lia; rewrite E; cbn; [rewrite (proj2 (Z.ltb_ge _ _))|rewrite (proj2 (Z.ltb_lt _ _))]; done || lia.
Qed.

(** The state between the steps of dividing [N], which has 64 bits, by [d]: [k] bits
    of the low half were brought down. *)
Section Division.
Context (rl rd rh N d : Z).

Definition brought_down (k : Z) : Z := N / 2 ^ (32 - k).

Record div_inv (k : Z) (c : sh2e_cpu) : Prop := {
  di_m : sr_m c = 0;
  di_d : reg rd c = d;
  di_t : sr_t c = (brought_down k / d) mod 2;
  di_l : reg rl c = 2 ^ k * (N mod 2 ^ (32 - k)) + brought_down k / d / 2;
  di_h : ∃ R, partial (reg rh c) (sr_q c) R ∧
    (R = brought_down k mod d ∨ R = brought_down k mod d - d) ∧
    (0 < k → R = brought_down k mod d - if Z.even (brought_down k / d) then d else 0)
}.

Hypothesis Hd : 0 < d < 2 ^ 32.
Hypothesis HN : 0 ≤ N < d * 2 ^ 32.

Lemma brought_down_next k : 0 ≤ k < 32 →
  ∃ b, 0 ≤ b < 2 ∧ brought_down (k + 1) = 2 * brought_down k + b ∧
       N mod 2 ^ (32 - k) = b * 2 ^ (31 - k) + N mod 2 ^ (31 - k).
Proof.
  intros Hk. unfold brought_down. replace (32 - (k + 1)) with (31 - k) by lia.
  assert (2 ^ (32 - k) = 2 ^ (31 - k) * 2) as E.
  { replace (32 - k) with (31 - k + 1) by lia. by rewrite Z.pow_add_r by lia. }
  pose proof (pow2_pos (31 - k) ltac:(lia)) as Hp. exists ((N / 2 ^ (31 - k)) mod 2).
  pose proof (Z.mod_pos_bound (N / 2 ^ (31 - k)) 2 ltac:(lia)). rewrite E. split_and!; [lia|lia| |].
  - rewrite <- Z.div_div by lia. apply Z.div_mod. lia.
  - rewrite Z.rem_mul_r by lia. lia.
Qed.

Lemma quotient_bound k : 0 ≤ k ≤ 32 → 0 ≤ brought_down k / d < 2 ^ k.
Proof.
  intros Hk. unfold brought_down. pose proof (pow2_pos (32 - k) ltac:(lia)). pose proof (pow2_pos k ltac:(lia)).
  rewrite Z.div_div by lia. split; [apply Z.div_pos; nia|]. apply Z.div_lt_upper_bound; [nia|].
  replace (2 ^ (32 - k) * d * 2 ^ k) with (d * (2 ^ (32 - k) * 2 ^ k)) by lia.
  rewrite <- Z.pow_add_r by lia. replace (32 - k + k) with 32 by lia. lia.
Qed.

(** One more bit of the quotient. *)
Lemma quotient_next H b : 0 ≤ b < 2 →
  let x := 2 * (H mod d) + b in
  (2 * H + b) / d = 2 * (H / d) + bool_to_Z (d <=? x) ∧
  (2 * H + b) mod d = x - (if d <=? x then d else 0).
Proof.
  intros Hb x. pose proof (Z.div_mod H d ltac:(lia)) as E. pose proof (Z.mod_pos_bound H d ltac:(lia)) as Hr.
  assert (0 ≤ x < 2 * d) as Hx by (subst x; lia).
  assert (2 * H + b = 2 * (H / d) * d + x) as -> by (subst x; lia).
  rewrite Z.div_add_l, (Z.add_comm _ x), Z.mod_add by lia.
  destruct (Z.leb_spec d x); cbn [bool_to_Z].
  - rewrite <- (Z.mod_unique x d 1 (x - d)), <- (Z.div_unique x d 1 (x - d)) by lia. lia.
  - rewrite (Z.mod_small x d), (Z.div_small x d) by lia. lia.
Qed.

Hypothesis Hrl : 0 ≤ rl < 16.
Hypothesis Hrd : 0 ≤ rd < 16.
Hypothesis Hrh : 0 ≤ rh < 16.
Hypothesis Hne : rl ≠ rd ∧ rl ≠ rh ∧ rd ≠ rh.

(** ROTCL and DIV1 with these registers. *)
Definition rotcl_word (n : Z) : Z := 0x4024 + 256 * n.
Definition div1_word (m n : Z) : Z := 0x3004 + 256 * n + 16 * m.

Definition after_rotcl (c : sh2e_cpu) : sh2e_cpu :=
  set_t (bit_value_msb (reg rl c)) (set_reg rl (Z.lor (u32 (Z.shiftl (reg rl c) 1)) (sr_t c)) c).
Definition after_div1 (c : sh2e_cpu) : sh2e_cpu :=
  let shifted := Z.lor (u32 (Z.shiftl (reg rh c) 1)) (sr_t c) in
  let next := u32 (shifted + if sr_q c =? 0 then u32 (- reg rd c) else reg rd c) in
  let carry := bool_to_Z (if sr_q c =? 0 then next >? shifted else next <? shifted) in
  let q := Z.lxor carry (bit_value_msb (reg rh c)) in
  set_t (bool_to_Z (wrap 1 q =? 0)) (set_q q (set_reg rh next c)).

Lemma rotcl_run c : sh2e_insn_exec_rotcl (rotcl_word rl) c = Done (NONE, after_rotcl c).
Proof using Hrl.
  clear - Hrl.
  assert (f_rn (rotcl_word rl) = rl) as E.
  { unfold f_rn, rotcl_word, ubits. rewrite Z.land_ones, Z.shiftr_div_pow2 by lia. change (2 ^ 8) with 256. change (2 ^ 4) with 16.
    Z.to_euclidean_division_equations; lia. }
  unfold sh2e_insn_exec_rotcl, shift_rn, upd, after_rotcl, rn, msb_rn, rn. rewrite E. done.
Qed.
Lemma div1_run c : sr_m c = 0 → sh2e_insn_exec_div1 (div1_word rd rh) c = Done (NONE, after_div1 c).
Proof using Hrd Hrh.
  clear - Hrd Hrh.
  assert (f_rn (div1_word rd rh) = rh ∧ f_rm (div1_word rd rh) = rd) as [E1 E2].
  { unfold f_rn, f_rm, div1_word, ubits. rewrite !Z.land_ones, !Z.shiftr_div_pow2 by lia. change (2 ^ 8) with 256. change (2 ^ 4) with 16.
    Z.to_euclidean_division_equations; lia. }
  intros Hm. unfold sh2e_insn_exec_div1, upd, after_div1, rn, rm. rewrite E1, E2. msimpl.
  rewrite !sr_m_set_q, !sr_m_set_reg, Hm, !Z.lxor_0_r, sr_q_set_q. done.
Qed.

(** ROTCL brings down the next bit and stores the last bit of the quotient. *)
Lemma rotcl_step k c b : 0 ≤ k < 32 → div_inv k c → 0 ≤ b < 2 →
  N mod 2 ^ (32 - k) = b * 2 ^ (31 - k) + N mod 2 ^ (31 - k) →
  reg rl (after_rotcl c) = 2 ^ (k + 1) * (N mod 2 ^ (31 - k)) + brought_down k / d ∧ sr_t (after_rotcl c) = b.
Proof.
  intros Hk [_ _ Ht Hl _] Hb Em. unfold after_rotcl. autorewrite with sh_regs.
  pose proof (quotient_bound k ltac:(lia)) as Hq. set (q := brought_down k / d) in *.
  assert (0 ≤ q mod 2 < 2) as Hq2 by (apply Z.mod_pos_bound; lia).
  assert (q = 2 * (q / 2) + q mod 2) as Eq by (apply Z.div_mod; lia).
  assert (0 ≤ q / 2) as Hq3 by (apply Z.div_pos; lia).
  rewrite Ht, shift_in by done.
  pose proof (Z.mod_pos_bound N (2 ^ (31 - k)) (pow2_pos (31 - k) ltac:(lia))) as Hm. set (m := N mod 2 ^ (31 - k)) in *.
  assert (2 ^ k * 2 ^ (31 - k) = 2 ^ 31) as Ep by (rewrite <- Z.pow_add_r by lia; f_equal; lia).
  assert (2 ^ (k + 1) = 2 * 2 ^ k) as Ek by (rewrite Z.pow_add_r by lia; change (2 ^ 1) with 2; lia).
  pose proof (pow2_pos k ltac:(lia)) as Hpk.
  assert (reg rl c = 2 ^ 31 * b + (2 ^ k * m + q / 2)) as El
    by (rewrite Hl, Em, Z.mul_add_distr_l, (Z.mul_comm b), Z.mul_assoc, Ep; lia).
  assert (2 ^ k * (m + 1) ≤ 2 ^ 31) as Hkm by (rewrite <- Ep; apply Z.mul_le_mono_nonneg_l; lia).
  assert (0 ≤ 2 ^ k * m) as Hkm0 by (apply Z.mul_nonneg_nonneg; lia).
  assert (0 ≤ 2 ^ k * m + q / 2 < 2 ^ 31) as Hlow by lia.
  split.
  - rewrite El, <- (Z.mod_unique _ (2 ^ 32) b (2 * (2 ^ k * m + q / 2))) by lia. rewrite Ek. lia.
  - rewrite El. unfold bit_value_msb. rewrite Z.shiftr_div_pow2, (Z.mul_comm (2 ^ 31)), Z.div_add_l by lia.
    rewrite (Z.div_small (2 ^ k * m + q / 2)) by lia. rewrite Z.add_0_r. apply wrap_small. unfold in_width. lia.
Qed.

Lemma div_step k c : 0 ≤ k < 32 → div_inv k c → div_inv (k + 1) (after_div1 (after_rotcl c)).
Proof.
  intros Hk I. destruct (brought_down_next k Hk) as (b & Hb & EH & Em).
  destruct (rotcl_step k c b Hk I Hb Em) as [El Et]. destruct I as [Im Id _ _ (R & HR & Rcase & _)].
  pose proof (Z.mod_pos_bound (brought_down k) d ltac:(lia)) as Hr.
  assert (reg rd (after_rotcl c) = d) as Ed by (unfold after_rotcl; by autorewrite with sh_regs).
  assert (reg rh (after_rotcl c) = reg rh c) as Eh by (unfold after_rotcl; by autorewrite with sh_regs).
  assert (sr_q (after_rotcl c) = sr_q c) as Eq by (unfold after_rotcl; by autorewrite with sh_regs).
  assert (- d ≤ R < d) as HRb by lia.
  pose proof (div1_partial _ _ b d R Hd HRb Hb HR) as HP. cbv zeta in HP. rewrite <- Eh, <- Eq, <- Ed, <- Et in HP.
  destruct (quotient_next (brought_down k) b Hb) as [Qn Rn]. cbv zeta in Qn, Rn. rewrite <- EH in Qn, Rn.
  assert (2 * R + sr_t (after_rotcl c) + (if R <? 0 then reg rd (after_rotcl c) else - reg rd (after_rotcl c)) =
    2 * (brought_down k mod d) + b - d) as ER by (rewrite Et, Ed; destruct (Z.ltb_spec R 0); lia).
  rewrite ER in HP. destruct HP as [HP1 HP2].
  set (x := 2 * (brought_down k mod d) + b) in *.
  assert (brought_down (k + 1) / d / 2 = brought_down k / d ∧
          (brought_down (k + 1) / d) mod 2 = bool_to_Z (d <=? x)) as [E1 E2].
  { rewrite Qn. apply double_bit. }
  unfold after_div1. cbv zeta. rewrite HP2. split.
  - autorewrite with sh_regs. unfold after_rotcl. by autorewrite with sh_regs.
  - by autorewrite with sh_regs.
  - autorewrite with sh_regs. rewrite E2, !wrap_bit.
    destruct (Z.leb_spec d x), (Z.ltb_spec (x - d) 0); done || lia.
  - autorewrite with sh_regs. rewrite El, E1. by replace (32 - (k + 1)) with (31 - k) by lia.
  - exists (x - d). autorewrite with sh_regs. rewrite wrap_bit. split; [done|]. rewrite Rn.
    rewrite Qn, Z.even_add, Z.even_mul. destruct (d <=? x); cbn; lia.
Qed.

(** The pair of instructions repeated. *)
Fixpoint div_steps (n : nat) (c : sh2e_cpu) : sh2e_cpu :=
  match n with O => c | S n' => div_steps n' (after_div1 (after_rotcl c)) end.

Lemma div_steps_inv n k c : 0 ≤ k → k + Z.of_nat n ≤ 32 → div_inv k c → div_inv (k + Z.of_nat n) (div_steps n c).
Proof.
  revert k c. induction n as [|n IH]; intros k c Hk Hn I; cbn [div_steps]; [by rewrite Z.add_0_r|].
  replace (k + Z.of_nat (S n)) with (k + 1 + Z.of_nat n) by lia. apply IH; [lia|lia|]. apply div_step; [lia|done].
Qed.

Lemma div_steps_others n c r : r ≠ rl → r ≠ rh → reg r (div_steps n c) = reg r c.
Proof.
  intros H1 H2. revert c. induction n as [|n IH]; intros c; [done|]. cbn [div_steps]. rewrite IH.
  unfold after_div1, after_rotcl. cbv zeta. by autorewrite with sh_regs.
Qed.

(** After DIV0U the first remainder is the high half. *)
Lemma div0u_inv c : reg rl c = N mod 2 ^ 32 → reg rh c = N / 2 ^ 32 → reg rd c = d →
  div_inv 0 (set_t 0 (set_q 0 (set_m 0 c))).
Proof.
  intros El Eh Ed. assert (0 ≤ N / 2 ^ 32 < d) as HH
    by (split; [apply Z.div_pos; lia|apply Z.div_lt_upper_bound; lia]).
  split; unfold brought_down; autorewrite with sh_regs; rewrite ?El, ?Eh, ?Ed; change (32 - 0) with 32; try done.
  - by rewrite (Z.div_small (N / 2 ^ 32)) by lia.
  - rewrite (Z.div_small (N / 2 ^ 32)) by lia. change (2 ^ 0) with 1. change (0 / 2) with 0. lia.
  - exists (N / 2 ^ 32). rewrite Z.mod_small by lia. split; [|split; [by left|lia]]. unfold partial.
    rewrite (proj2 (Z.ltb_ge _ _)) by lia. split; [|done]. symmetry. apply wrap_small. unfold in_width. lia.
Qed.

Lemma div_result c : div_inv 32 c → reg rl (after_rotcl c) = N / d ∧
  reg rh (after_rotcl c) = u32 (N mod d - if Z.even (N / d) then d else 0).
Proof.
  intros [_ _ Ht El (R & [HR _] & _ & Rcase)]. specialize (Rcase ltac:(lia)).
  pose proof (quotient_bound 32 ltac:(lia)) as Hq. unfold brought_down in *. change (32 - 32) with 0 in *.
  change (2 ^ 0) with 1 in *. rewrite Z.div_1_r in *. rewrite Z.mod_1_r, Z.mul_0_r, Z.add_0_l in El.
  unfold after_rotcl. autorewrite with sh_regs. split; [|by rewrite HR, Rcase].
  pose proof (Z.mod_pos_bound (N / d) 2 ltac:(lia)). pose proof (Z.div_mod (N / d) 2 ltac:(lia)).
  rewrite Ht, El, shift_in, Z.mod_small by lia. lia.
Qed.
End Division.

(** ** Programs without jumps *)
Section Words.
Context {D : Type} `{BoardOf sh2e_cpu desc D} `{OnChip D} `{HostFloat}.
Abbreviation W := (world sh2e_cpu desc D).

(** The words are decoded and executed one after the other until an exception. *)
Fixpoint exec_words (ws : list Z) : st W exc :=
  match ws with
  | [] => mret NONE
  | w :: ws' =>
      sp ← gets machine_specific_instructions;
      e ← insn_exec (d_exec (sh2e_insn_decode sp w)) w;
      if ex_is e NONE then exec_words ws' else mret e
  end.

Lemma exec_word_cpu f w ws (m : st sh2e_cpu exc) c' (s : W) :
  (∀ sp, d_exec (sh2e_insn_decode sp w) = f) → insn_exec f w = on_cpu m → m (w_cpu s) = Done (NONE, c') →
  exec_words (w :: ws) s = exec_words ws (s <| w_cpu := c' |>).
Proof.
  intros Hf Hx Hm. cbn [exec_words]. msimpl. rewrite Hf, Hx. unfold on_cpu, zoom. cbn. by rewrite Hm.
Qed.

(** DIV0U; 32 times ROTCL Rl, DIV1 Rd,Rh; ROTCL Rl. *)
Definition div_program (rl rd rh : Z) : list Z :=
  0x0019 :: concat (repeat [rotcl_word rl; div1_word rd rh] 32) ++ [rotcl_word rl].

Lemma decode_rotcl sp n : 0 ≤ n < 16 → d_exec (sh2e_insn_decode sp (rotcl_word n)) = Fn.rotcl.
Proof.
  intros Hn. apply elem_digits in Hn.
  repeat (apply elem_of_cons in Hn as [->|Hn]; [by destruct sp|]). by apply not_elem_of_nil in Hn.
Qed.
Lemma decode_div1 sp m n : 0 ≤ m < 16 → 0 ≤ n < 16 → d_exec (sh2e_insn_decode sp (div1_word m n)) = Fn.div1.
Proof.
  intros Hm Hn. apply elem_digits in Hn, Hm.
  repeat (apply elem_of_cons in Hn as [->|Hn];
    [repeat (apply elem_of_cons in Hm as [->|Hm]; [by destruct sp|]); by apply not_elem_of_nil in Hm|]).
  by apply not_elem_of_nil in Hn.
Qed.

Lemma div_steps_m rl rd rh n c : sr_m c = 0 → sr_m (div_steps rl rd rh n c) = 0.
Proof.
  revert c. induction n as [|n IH]; intros c Hm; [done|]. cbn [div_steps]. apply IH.
  unfold after_div1, after_rotcl. cbv zeta. by autorewrite with sh_regs.
Qed.

Lemma exec_div_steps rl rd rh n ws (s : W) : 0 ≤ rl < 16 → 0 ≤ rd < 16 → 0 ≤ rh < 16 → sr_m (w_cpu s) = 0 →
  exec_words (concat (repeat [rotcl_word rl; div1_word rd rh] n) ++ ws) s =
  exec_words ws (s <| w_cpu := div_steps rl rd rh n (w_cpu s) |>).
Proof.
  intros Hl Hd Hh. revert s. induction n as [|n IH]; intros s Hm.
  - cbn. by destruct s.
  - cbn [repeat concat app div_steps].
    erewrite exec_word_cpu; [|intros; by apply decode_rotcl|reflexivity|by apply rotcl_run].
    erewrite exec_word_cpu; [|intros; by apply decode_div1|reflexivity|apply div1_run; [done..|]].
    + cbn. by rewrite IH by (cbn; unfold after_div1, after_rotcl; cbv zeta; by autorewrite with sh_regs).
    + cbn. unfold after_rotcl. by autorewrite with sh_regs.
Qed.

(** C10: the division that programs assemble from DIV0U, ROTCL and DIV1.  Executing
    the decoded words divides the 64-bit number in Rh and Rl by Rd, all unsigned, when
    the quotient fits in 32 bits: Rl receives the quotient, Rh the remainder or, if
    the quotient is even, the remainder less the divisor, and the other registers keep
    their values. *)
Theorem div_unsigned rl rd rh (s : W) :
  0 ≤ rl < 16 → 0 ≤ rd < 16 → 0 ≤ rh < 16 → rl ≠ rd ∧ rl ≠ rh ∧ rd ≠ rh →
  in_width 32 (reg rl (w_cpu s)) → in_width 32 (reg rd (w_cpu s)) →
  0 ≤ reg rh (w_cpu s) < reg rd (w_cpu s) →
  let n := reg rh (w_cpu s) * 2 ^ 32 + reg rl (w_cpu s) in
  let d := reg rd (w_cpu s) in
  ∃ c, exec_words (div_program rl rd rh) s = Done (NONE, s <| w_cpu := c |>) ∧
       reg rl c = n / d ∧
       reg rh c = u32 (n mod d - if Z.even (n / d) then d else 0) ∧
       (∀ r, r ≠ rl → r ≠ rh → reg r c = reg r (w_cpu s)).
Proof.
  intros Hl Hd Hh Hne Wl Wd Hlt n d. unfold in_width in Wl, Wd.
  assert (0 < d < 2 ^ 32) as Hd0 by (subst d; lia). assert (0 ≤ n < d * 2 ^ 32) as Hn by (subst n d; nia).
  assert (n / 2 ^ 32 = reg rh (w_cpu s) ∧ n mod 2 ^ 32 = reg rl (w_cpu s)) as [En1 En2].
  { subst n. rewrite Z.div_add_l, (Z.div_small (reg rl _)) by lia.
    rewrite (Z.add_comm _ (reg rl _)), Z.mod_add, Z.mod_small by lia. lia. }
  set (c0 := set_t 0 (set_q 0 (set_m 0 (w_cpu s)))).
  pose proof (div0u_inv rl rd rh n d Hd0 Hn (w_cpu s) (eq_sym En2) (eq_sym En1) eq_refl) as I0.
  assert (div_inv rl rd rh n d 32 (div_steps rl rd rh 32 c0)) as I.
  { change 32 with (0 + Z.of_nat 32) at 1. by apply div_steps_inv. }
  exists (after_rotcl rl (div_steps rl rd rh 32 c0)).
  destruct (div_result rl rd rh n d Hd0 Hn Hne _ I) as [E1 E2]. split_and!; [|done..|].
  - unfold div_program. erewrite exec_word_cpu; [|by intros []|reflexivity|reflexivity].
    rewrite exec_div_steps; [|done..|]. 2: { cbn. by autorewrite with sh_regs. }
    erewrite exec_word_cpu; [|intros; by apply decode_rotcl|reflexivity|by apply rotcl_run]. by destruct s.
  - intros r Hr1 Hr2. unfold after_rotcl. autorewrite with sh_regs. rewrite div_steps_others by done. done.
Qed.
End Words.

(** ** A concrete machine: two pages of memory, no devices *)
Module ShSample.
#[global] Instance board : BoardOf sh2e_cpu desc onchip := {| devices := []; debugger_event d := d |}.
#[global] Existing Instance x86_float.
Abbreviation W := (world sh2e_cpu desc onchip).

Definition machine (c : sh2e_cpu) (low : gmap Z Z) (o : onchip) : W :=
  mk_world c [] [] (Sample.memory low []) [] o false false false true false.

(** 32-bit words in the byte order of the processor. *)
Definition be_words (ws : list Z) : gmap Z Z := Sample.words_at 0 (map be32toh ws) ∅.
Definition no_chip : onchip := mk_onchip [] ∅.
Definition with_regs (rs : list (Z * Z)) : sh2e_cpu := foldr (λ r c, set_reg r.1 r.2 c) (sh2e_cpu_init 0) rs.
End ShSample.

(** 0x500000007 / 10 *)
Lemma div_unsigned_witness :
  ∃ c, exec_words (div_program 0 1 2) (ShSample.machine (ShSample.with_regs [(0, 7); (1, 10); (2, 5)]) ∅ ShSample.no_chip) =
         Done (NONE, ShSample.machine c ∅ ShSample.no_chip) ∧
       reg 0 c = 0x80000000 ∧ reg 2 c = 0xFFFFFFFD.
Proof.
  destruct (div_unsigned 0 1 2 (ShSample.machine (ShSample.with_regs [(0, 7); (1, 10); (2, 5)]) ∅ ShSample.no_chip))
    as (c & E & E1 & E2 & _); [lia|lia|lia|lia|by vm_compute|by vm_compute|by vm_compute|].
  exists c. split_and!; [exact E|rewrite E1; reflexivity|rewrite E2; reflexivity].
Defined.

(** ** Carries, borrows and overflow *)
Lemma u32_cases x : - 2 ^ 32 ≤ x < 2 ^ 33 →
  (u32 x = x + 2 ^ 32 ∧ x < 0) ∨ (u32 x = x ∧ 0 ≤ x < 2 ^ 32) ∨ (u32 x = x - 2 ^ 32 ∧ 2 ^ 32 ≤ x).
Proof.
  intros Hx. unfold u32, wrap. destruct (Z.ltb_spec x 0); [left|right].
  - split; [symmetry; apply (Z.mod_unique _ _ (-1)); lia|done].
  - destruct (Z.ltb_spec x (2 ^ 32)); [left|right].
    + split; [by apply Z.mod_small|lia].
    + split; [symmetry; apply (Z.mod_unique _ _ 1); lia|lia].
Qed.
Lemma sgn_msb x : in_width 32 x → sgn 32 x = x - 2 ^ 32 * bit_value_msb x ∧ (bit_value_msb x = 0 ∨ bit_value_msb x = 1).
Proof.
  intros Hx. unfold sgn, bit_value_msb. cbv zeta. rewrite wrap_small by done. unfold in_width in Hx.
  rewrite Z.shiftr_div_pow2 by lia. change (32 - 1) with 31. destruct (Z.ltb_spec x (2 ^ 31)).
  - rewrite Z.div_small by lia. lia.
  - rewrite <- (Z.div_unique x (2 ^ 31) 1 (x - 2 ^ 31)) by lia. lia.
Qed.

(** The result of an instruction that writes Rn and T. *)
Lemma rn_set_t i v t c : rn i (set_t t (set_reg (f_rn i) v c)) = v.
Proof. unfold rn. by autorewrite with sh_regs. Qed.
Lemma t_set_t i v b c : sr_t (set_t (bool_to_Z b) (set_reg (f_rn i) v c)) = bool_to_Z b.
Proof. rewrite sr_t_set_t. apply wrap_bit. Qed.

(** Decides the comparisons of a goal with [lia]. *)
Ltac decide_bools :=
  repeat match goal with
  | |- context [?a >? ?b] => rewrite (Z.gtb_ltb a b)
  | |- context [?a <? ?b] => destruct (Z.ltb_spec a b)
  | |- context [?a =? ?b] => destruct (Z.eqb_spec a b)
  | |- context [?a <=? ?b] => destruct (Z.leb_spec a b)
  end; cbn [bool_to_Z orb andb negb]; try lia.

Definition writes_rn_t (i : Z) (m : st sh2e_cpu exc) (c : sh2e_cpu) (P : Z → Z → Prop) : Prop :=
  ∃ c', m c = Done (NONE, c') ∧ in_width 32 (rn i c') ∧ P (rn i c') (sr_t c').
Definition overflows (x : Z) : bool := (x <? - 2 ^ 31) || (2 ^ 31 - 1 <? x).

(** C27: the instructions for numbers longer than a register and for signed overflow.
    ADDC, SUBC and NEGC compute the sum and the differences with the incoming carry
    exactly: the result in Rn and the new T together are the integer result.  ADDV and
    SUBV set T exactly when the signed result does not fit in 32 bits. *)
Theorem carry_arithmetic i c : in_width 32 (rn i c) → in_width 32 (rm i c) →
  writes_rn_t i (sh2e_insn_exec_addc i) c (λ v t, v + 2 ^ 32 * t = rn i c + rm i c + sr_t c) ∧
  writes_rn_t i (sh2e_insn_exec_subc i) c (λ v t, v - 2 ^ 32 * t = rn i c - rm i c - sr_t c) ∧
  writes_rn_t i (sh2e_insn_exec_negc i) c (λ v t, v - 2 ^ 32 * t = - rm i c - sr_t c) ∧
  writes_rn_t i (sh2e_insn_exec_addv i) c (λ v t,
    v = u32 (rn i c + rm i c) ∧ t = bool_to_Z (overflows (sgn 32 (rn i c) + sgn 32 (rm i c)))) ∧
  writes_rn_t i (sh2e_insn_exec_subv i) c (λ v t,
    v = u32 (rn i c - rm i c) ∧ t = bool_to_Z (overflows (sgn 32 (rn i c) - sgn 32 (rm i c)))).
Proof.
  intros Hn Hm. pose proof (sr_t_bit c) as Ht. unfold in_width in Hn, Hm.
  destruct (sgn_msb _ Hn) as [Sn Bn], (sgn_msb _ Hm) as [Sm Bm].
  assert (∀ x, 0 ≤ u32 x < 2 ^ 32) as Hu by (intros; by apply wrap_range).
  split_and!; (eexists; split; [reflexivity|]; rewrite rn_set_t, t_set_t; split; [apply Hu|]).
  - pose proof (Hu (rn i c + rm i c)). destruct (u32_cases (rn i c + rm i c)), (u32_cases (u32 (rn i c + rm i c) + sr_t c));
      decide_bools.
  - pose proof (Hu (rn i c - rm i c)). destruct (u32_cases (rn i c - rm i c)), (u32_cases (u32 (rn i c - rm i c) - sr_t c));
      decide_bools.
  - pose proof (Hu (0 - rm i c)). destruct (u32_cases (0 - rm i c)), (u32_cases (u32 (0 - rm i c) - sr_t c));
      decide_bools.
  - split; [done|]. destruct (sgn_msb _ (Hu (rn i c + rm i c))) as [S B].
    pose proof (sgn_range 32 (u32 (rn i c + rm i c))). pose proof (sgn_range 32 (rn i c)). pose proof (sgn_range 32 (rm i c)).
    unfold overflows. destruct (u32_cases (rn i c + rm i c)); decide_bools.
  - split; [done|]. destruct (sgn_msb _ (Hu (rn i c - rm i c))) as [S B].
    pose proof (sgn_range 32 (u32 (rn i c - rm i c))). pose proof (sgn_range 32 (rn i c)). pose proof (sgn_range 32 (rm i c)).
    unfold overflows. destruct (u32_cases (rn i c - rm i c)); decide_bools.
Qed.

(** [ADDC R1, R0] with a carry in and out. *)
Lemma carry_arithmetic_witness :
  ∃ c', sh2e_insn_exec_addc 0x301E (set_t 1 (ShSample.with_regs [(0, 0xFFFFFFFF); (1, 1)])) = Done (NONE, c') ∧
        in_width 32 (rn 0x301E c') ∧ rn 0x301E c' + 2 ^ 32 * sr_t c' = 2 ^ 32 + 1.
Proof.
  destruct (carry_arithmetic 0x301E (set_t 1 (ShSample.with_regs [(0, 0xFFFFFFFF); (1, 1)])))
    as [(c' & E & Hw & Hs) _]; [by vm_compute|by vm_compute|].
  exists c'. split_and!; [exact E|exact Hw|exact Hs].
Defined.

(** The comment in the code of SUBV compares the sign of the result with that of the
    subtrahend Rm.  When the signs of the operands differ, this test gives the opposite
    of T, which is the overflow of the difference. *)
Theorem subv_comment_differs i c : in_width 32 (rn i c) → in_width 32 (rm i c) →
  bit_value_msb (rn i c) ≠ bit_value_msb (rm i c) →
  ∃ c', sh2e_insn_exec_subv i c = Done (NONE, c') ∧
    sr_t c' = 1 - bool_to_Z (negb (bit_value_msb (u32 (rn i c - rm i c)) =? bit_value_msb (rm i c))).
Proof.
  intros Hn Hm Hne. eexists. split; [reflexivity|]. rewrite t_set_t.
  destruct (sgn_msb _ Hn) as [_ Bn], (sgn_msb _ Hm) as [_ Bm].
  destruct (sgn_msb (u32 (rn i c - rm i c))) as [_ Br]; [by apply wrap_range|]. decide_bools.
Qed.

Lemma subv_comment_differs_witness :
  ∃ c', sh2e_insn_exec_subv 0x301B (ShSample.with_regs [(0, 0); (1, 0xFFFFFFFF)]) = Done (NONE, c') ∧ sr_t c' = 0.
Proof.
  destruct (subv_comment_differs 0x301B (ShSample.with_regs [(0, 0); (1, 0xFFFFFFFF)])) as (c' & E & Ht);
    [by vm_compute..|]. exists c'. split; [exact E|exact Ht].
Defined.

(** ** The saturating accumulation of words *)
Section Saturation.
Context {D : Type} `{BoardOf sh2e_cpu desc D}.
Abbreviation W := (world sh2e_cpu desc D).

Lemma macw_clamp_extremes val : (macw_clamp val).1 = 0x7FFFFFFF ∨ (macw_clamp val).1 = 0x80000000.
Proof. unfold macw_clamp. destruct (Z.gtb_spec val 0x7FFFFFFF), (Z.ltb_spec val 0x80000000); cbn; lia. Qed.
Lemma macw_clamp_overflow val : (macw_clamp val).2 = true.
Proof. unfold macw_clamp. destruct (Z.gtb_spec val 0x7FFFFFFF), (Z.ltb_spec val 0x80000000); cbn; done || lia. Qed.

Lemma reads_word_fault addr e (w w' : W) :
  sh2e_cpu_reads_word addr w = Done (inl e, w') → e = SH2E_EXCEPTION_CPU_ADDRESS_ERROR.
Proof.
  unfold sh2e_cpu_reads_word, read_aligned. destruct (truthy _); [by intros [= <- <-]|].
  intros E. apply bind_inv_Done in E as (c & w1 & _ & E). by apply bind_inv_Done in E as (v & w2 & _ & [= ]).
Qed.

(** C34: MAC.W with S set saturates always.  Whatever the operands, when it completes
    MACL is one of the two extreme values and the overflow bit of MACH is set, because
    the lower bound is compared as the positive number [0x80000000]; the manual keeps
    the sum when it fits. *)
Theorem macw_saturates_always i (w w' : W) :
  sh2e_insn_exec_macw i w = Done (NONE, w') → sr_s (w_cpu w') = 1 →
  (macl (w_cpu w') = 0x7FFFFFFF ∨ macl (w_cpu w') = 0x80000000) ∧ Z.testbit (mach (w_cpu w')) 0 = true.
Proof.
  unfold sh2e_insn_exec_macw. intros E Hs.
  apply bind_inv_Done in E as (c & w1 & _ & E). apply bind_inv_Done in E as (r & w2 & E1 & E).
  destruct r as [e|vn]; [injection E as -> ->; by apply reads_word_fault in E1|].
  apply bind_inv_Done in E as (r & w3 & E2 & E).
  destruct r as [e|vm]; [injection E as -> ->; by apply reads_word_fault in E2|].
  apply bind_inv_Done in E as (e1 & w4 & _ & E). apply bind_inv_Done in E as (e2 & w5 & _ & E).
  apply bind_inv_Done in E as (c' & w6 & [= <- <-] & E). destruct (truthy _) eqn:Et in E.
  - injection E as <-. cbn. unfold macw_saturate. pose proof (macw_clamp_overflow (sgn 32 (macl (w_cpu w5)) + sgn 32 vn * sgn 32 vm)) as Ho.
    pose proof (macw_clamp_extremes (sgn 32 (macl (w_cpu w5)) + sgn 32 vn * sgn 32 vm)) as Hx.
    destruct (macw_clamp _) as [v o]. cbn in *. subst o. cbn. split; [by destruct Hx as [-> | ->]; [left|right]|].
    change (Z.testbit (Z.lor (mach (w_cpu w5)) 1) 0 = true). by rewrite Z.lor_spec, orb_true_r.
  - exfalso. apply bind_inv_Done in E as (mac & w6 & E3 & [= <-]). unfold mac_add in E3.
    apply bind_inv_Done in E3 as ([] & w7 & E3 & [= <- <-]). unfold c_defined in E3. destruct (_ && _) in E3; [|done].
    injection E3 as <-. change (sr_s (w_cpu w5) = 1) in Hs. by rewrite Hs in Et.
Qed.
End Saturation.

(** [1 * 1 + 0], from memory. *)
Lemma macw_saturates_always_witness :
  let c := (ShSample.with_regs [(1, 2)]) <| sr := 2 |> in
  let w := ShSample.machine c (ShSample.be_words [0x00010001]) ShSample.no_chip in
  ∃ w', sh2e_insn_exec_macw 0x401F w = Done (NONE, w') ∧ sr_s (w_cpu w') = 1 ∧
    (macl (w_cpu w') = 0x7FFFFFFF ∨ macl (w_cpu w') = 0x80000000) ∧ Z.testbit (mach (w_cpu w')) 0 = true.
Proof.
  intros c w.
  assert (match sh2e_insn_exec_macw 0x401F w with
          | Done (e, w') => ex_is e NONE && (sr_s (w_cpu w') =? 1) | Stop _ => false end = true) as Hr
    by by vm_compute.
  destruct (sh2e_insn_exec_macw 0x401F w) as [[e w']|] eqn:E; [|done].
  apply andb_prop in Hr as [->%bool_decide_eq_true Hs%Z.eqb_eq]. exists w'.
  split; [done|]. split; [done|]. by apply (macw_saturates_always 0x401F w).
Defined.
