(* ===== verification/ShProps.v ===== *)
(** * The SH-2E processor with its controller and peripherals

    Interrupts that are lost, the timing of the compare match timer, and the
    transfers of the DMAC. *)

From S2P Require Import Prelude PhysMem DevHost Machine ShTypes ShFloat ShExec ShDecode ShIsa ShIntc ShPeri ShCpu ShDev RvSample ShArith.
Import PhysMem.

(** ** Byte order *)
Lemma be16toh_arith v : be16toh v = 256 * (v mod 256) + (v / 256) mod 256.
Proof.
  unfold be16toh. change 0xff with (Z.ones 8). rewrite !Z.land_ones, Z.shiftr_div_pow2 by lia. change (2 ^ 8) with 256.
  rewrite lor_disjoint; [change (2 ^ 8) with 256; lia|lia|]. apply Z.mod_pos_bound. lia.
Qed.
Lemma be32toh_bytes a b c d : 0 ≤ a < 256 → 0 ≤ b < 256 → 0 ≤ c < 256 → 0 ≤ d < 256 →
  be32toh (a + 256 * b + 65536 * c + 16777216 * d) = d + 256 * c + 65536 * b + 16777216 * a.
Proof.
  intros Ha Hb Hc Hd. unfold be32toh, wrap. change (2 ^ 16) with 65536. rewrite Z.shiftr_div_pow2 by lia. change (2 ^ 16) with 65536.
  assert ((a + 256 * b + 65536 * c + 16777216 * d) mod 65536 = a + 256 * b) as ->
    by (symmetry; apply (Z.mod_unique _ _ (c + 256 * d)); lia).
  assert ((a + 256 * b + 65536 * c + 16777216 * d) / 65536 = c + 256 * d) as ->
    by (symmetry; apply (Z.div_unique _ _ _ (a + 256 * b)); lia).
  rewrite !be16toh_arith.
  rewrite <- (Z.mod_unique (a + 256 * b) 256 b a), <- (Z.div_unique (a + 256 * b) 256 b a) by lia.
  rewrite <- (Z.mod_unique (c + 256 * d) 256 d c), <- (Z.div_unique (c + 256 * d) 256 d c) by lia.
  rewrite !Z.mod_small by lia. rewrite lor_disjoint; [change (2 ^ 16) with 65536; lia|lia|].
  unfold in_width. change (2 ^ 16) with 65536. lia.
Qed.
Lemma bytes_of v : in_width 32 v → ∃ a b c d, 0 ≤ a < 256 ∧ 0 ≤ b < 256 ∧ 0 ≤ c < 256 ∧ 0 ≤ d < 256 ∧
  v = a + 256 * b + 65536 * c + 16777216 * d.
Proof.
  unfold in_width. intros Hv.
  exists (v mod 256), (v / 256 mod 256), (v / 65536 mod 256), (v / 16777216).
  Z.to_euclidean_division_equations. lia.
Qed.
Lemma be32toh_twice v : in_width 32 v → be32toh (be32toh v) = v.
Proof.
  intros Hv. destruct (bytes_of v Hv) as (a & b & c & d & Ha & Hb & Hc & Hd & ->).
  by rewrite !be32toh_bytes.
Qed.
Lemma be32toh_width v : in_width 32 v → in_width 32 (be32toh v).
Proof.
  intros Hv. destruct (bytes_of v Hv) as (a & b & c & d & Ha & Hb & Hc & Hd & ->).
  rewrite be32toh_bytes by done. unfold in_width. lia.
Qed.

(** ** Accesses of the processor to aligned words of memory *)
Lemma word_at_ext p p' a : (∀ x, a ≤ x < a + 4 → byte_at p' x = byte_at p x) → word_at p' a = word_at p a.
Proof. intros Hx. unfold word_at. apply le_join_ext. intros k Hk. by rewrite Hx by lia. Qed.

Section Access.
Context {D : Type} `{BoardOf sh2e_cpu desc D}.
Abbreviation W := (world sh2e_cpu desc D).

Lemma cpu_obs_sc procno addr size (w : W) b w' : ph_sc_access procno addr size w = Done (b, w') → w_cpu w' = w_cpu w.
Proof.
  assert (∀ p (w1 : W) b1 w1', with_first_cpu p (λ c, (false, c)) w1 = Some (b1, w1') → w_cpu w1' = w_cpu w1) as Hf.
  { intros p w1 b1 w1'. unfold with_first_cpu. destruct (update_first _ _ (w_before w1)) as [[? ?]|]; [by intros [= _ <-]|].
    destruct (p _); [by intros [= _ <-]|]. destruct (update_first _ _ (w_after w1)) as [[? ?]|]; by intros [= _ <-]. }
  cbn. unfold cpu_sc_access. change (core_sc_access addr size) with (λ c : sh2e_cpu, (false, c)).
  destruct (with_first_cpu (has_number procno) _ w) as [r|] eqn:E1; [intros [= ->]; by eapply Hf|].
  destruct (with_first_cpu (has_number 0) _ w) as [r|] eqn:E2; [intros [= ->]; by eapply Hf|].
  destruct (with_first_cpu (λ _, true) _ w) as [r|] eqn:E3; [intros [= ->]; by eapply Hf|done].
Qed.
Lemma cpu_obs_event (w w' : W) : ph_gdb_event w = Done (tt, w') → w_cpu w' = w_cpu w.
Proof. by intros [= <-]. Qed.

Lemma aligned_mask addr : addr mod 4 = 0 → truthy (Z.land addr 3) = false.
Proof. intros Hm. change 3 with (Z.ones 2). rewrite Z.land_ones by lia. change (2 ^ 2) with 4. by rewrite Hm. Qed.

Lemma read_long_run addr (w : W) : phys_wf (w_phys w) → mapped_at (w_phys w) addr →
  ∃ w', sh2e_cpu_read_long addr w = Done (inr (be32toh (word_at (w_phys w) addr)), w') ∧
    same_store (w_phys w) (w_phys w') ∧ w_cpu w' = w_cpu w.
Proof.
  intros Hwf Hm. destruct (read32_run (W:=W) (id (w_cpu w)) addr true w) as (w' & E & Hs); [exact Hwf|exact Hm|].
  exists w'. destruct Hm as (_ & Ha & [f Hf]). split_and!; [|done|].
  - unfold sh2e_cpu_read_long, read_aligned. rewrite (aligned_mask _ Ha). rewrite (bind_Done _ _ w (w_cpu w) w eq_refl).
    unfold sh2e_physmem_read32. erewrite bind_Done; [|rewrite (bind_Done _ _ _ _ _ E); reflexivity]. done.
  - exact (physmem_read_obs w_cpu (λ _ _, eq_refl) cpu_obs_event devmem_read32 4 _ addr true f w _ w' Hwf Hf E).
Qed.

Lemma write_long_run addr v (w : W) : phys_wf (w_phys w) → writable_at (w_phys w) addr → in_width 32 v →
  ∃ w', sh2e_cpu_write_long addr v w = Done (NONE, w') ∧ phys_wf (w_phys w') ∧
    word_at (w_phys w') addr = be32toh v ∧
    (∀ x, 0 ≤ x < PHYS_LIMIT → ¬ (addr ≤ x < addr + 4) → byte_at (w_phys w') x = byte_at (w_phys w) x) ∧
    (∀ x, writable_at (w_phys w) x → writable_at (w_phys w') x) ∧
    (∀ x, mapped_at (w_phys w) x → mapped_at (w_phys w') x) ∧ w_cpu w' = w_cpu w.
Proof.
  intros Hwf Hm Hv. destruct (write32_run (W:=W) (id (w_cpu w)) addr (be32toh v) true w) as (w' & E & H3 & H4 & H5 & H6 & H7);
    [exact Hwf|exact Hm|by apply be32toh_width|].
  exists w'. destruct Hm as [(_ & Ha & [f Hf]) _]. split_and!; [|done..|].
  - unfold sh2e_cpu_write_long, write_aligned. rewrite (aligned_mask _ Ha), (bind_Done _ _ w (w_cpu w) w eq_refl).
    by rewrite (bind_Done _ _ _ _ _ E).
  - exact (physmem_write_obs w_cpu (λ _ _, eq_refl) cpu_obs_sc cpu_obs_event devmem_write32 4 _ addr _ true f w _ w' Hwf Hf E).
Qed.

(** ** Software exceptions

    The handler of a TRAPA may do as it likes, as long as it gives back the stack
    pointer and the two words on the stack. *)
Definition same_stack (w1 w2 : W) : Prop :=
  phys_wf (w_phys w2) ∧ sp (w_cpu w2) = sp (w_cpu w1) ∧ br_state (w_cpu w2) ≠ SH2E_BRANCH_STATE_DELAY ∧
  ∀ k, k = 0 ∨ k = 4 → mapped_at (w_phys w2) (sp (w_cpu w1) + k) ∧
    word_at (w_phys w2) (sp (w_cpu w1) + k) = word_at (w_phys w1) (sp (w_cpu w1) + k).

Definition trap_vector (i : Z) (c : sh2e_cpu) : Z := u32 (vbr c + u32 (Z.shiftl (zero_extend_8_32 (f_i8 i)) 2)).

Lemma on_success_none (k : st W exc) : on_success NONE k = k.
Proof. done. Qed.
Lemma sp_set v c : sp (set_sp v c) = v.
Proof. apply reg_set_same. Qed.

Lemma trapa_run i (w : W) : let c := w_cpu w in
  phys_wf (w_phys w) → in_width 32 (sr c) → 8 ≤ sp c < 2 ^ 32 →
  writable_at (w_phys w) (sp c - 4) → writable_at (w_phys w) (sp c - 8) → mapped_at (w_phys w) (trap_vector i c) →
  ∃ w1, sh2e_insn_exec_trapa i w = Done (NONE, w1) ∧ sp (w_cpu w1) = sp c - 8 ∧
    word_at (w_phys w1) (sp c - 8) = be32toh (u32 (pc c + 2)) ∧ word_at (w_phys w1) (sp c - 4) = be32toh (sr c) ∧
    br_state (w_cpu w1) = SH2E_BRANCH_STATE_EXECUTE ∧ same_stack w1 w1 ∧
    (trap_vector i c + 4 ≤ sp c - 8 ∨ sp c ≤ trap_vector i c →
     pc_target (w_cpu w1) = be32toh (word_at (w_phys w) (trap_vector i c))).
Proof.
  intros c Hwf Hsr Hsp Hw4 Hw8 Hvec.
  assert (u32 (sp c - 4) = sp c - 4) as E4 by (apply wrap_small; unfold in_width; lia).
  assert (u32 (sp c - 4 - 4) = sp c - 8) as E8 by (unfold u32; rewrite wrap_small; unfold in_width; lia).
  assert (sh2e_addr_pc_relative_insn c 1 0 = u32 (pc c + 2)) as Epc by (unfold sh2e_addr_pc_relative_insn; f_equal; cbn; lia).
  assert (in_width 32 (u32 (pc c + 2))) as Hpc by by apply wrap_range.
  assert (∀ x, 0 ≤ x < 2 ^ 32 → 0 ≤ x < PHYS_LIMIT) as Hlim by (unfold PHYS_LIMIT; lia).
  unfold sh2e_insn_exec_trapa. rewrite (bind_Done _ _ w c w eq_refl), E4.
  destruct (write_long_run (sp c - 4) (sr c) w Hwf Hw4 Hsr) as (w1 & R1 & A1 & A2 & A3 & A4 & A5 & A6).
  rewrite (bind_Done _ _ _ _ _ R1). cbv zeta. rewrite on_success_none, E8, Epc.
  destruct (write_long_run (sp c - 8) (u32 (pc c + 2)) w1 A1 (A4 _ Hw8) Hpc) as (w2 & R2 & B1 & B2 & B3 & B4 & B5 & B6).
  rewrite (bind_Done _ _ _ _ _ R2), on_success_none. fold (trap_vector i c).
  destruct (read_long_run (trap_vector i c) w2 B1 (B5 _ (A5 _ Hvec))) as (w3 & R3 & S3 & C3).
  rewrite (bind_Done _ _ _ _ _ R3). eexists. split; [reflexivity|]. cbn.
  assert (w_cpu w3 = c) as -> by (by rewrite C3, B6, A6).
  split; [apply sp_set|]. split_and!; [| |done| |].
  - rewrite <- B2. apply word_at_ext. intros x Hx. by apply same_store_bytes.
  - rewrite <- A2. apply word_at_ext. intros x Hx. rewrite (same_store_bytes _ _ _ S3). apply B3; [apply Hlim|]; lia.
  - split_and!; [by eapply same_store_wf|done|done|].
    intros k Hk. split; [|done]. eapply (same_store_mapped _ _ _ S3). apply B5, A5.
    match goal with |- context [sp (w_cpu ?v)] => replace (sp (w_cpu v)) with (sp c - 8) by (symmetry; apply sp_set) end.
    destruct Hk as [-> | ->]; [rewrite Z.add_0_r; apply Hw8|]. replace (sp c - 8 + 4) with (sp c - 4) by lia. apply Hw4.
  - intros Hap. f_equal. apply word_at_ext. intros x Hx.
    assert (0 ≤ trap_vector i c < 2 ^ 32) as Hv by by apply wrap_range.
    rewrite B3, A3; [done|..]; try (unfold PHYS_LIMIT; lia); lia.
Qed.

(** C14: a software exception is transparent.  TRAPA pushes SR and the address of the
    next instruction and continues at the vector; after a handler that gives back the
    stack, RTE continues, after its delay slot, at the instruction behind TRAPA, with
    the status register (its implemented bits) and the stack pointer as before. *)
Theorem trapa_rte_roundtrip i (w : W) : let c := w_cpu w in
  phys_wf (w_phys w) → in_width 32 (sr c) → 8 ≤ sp c < 2 ^ 32 →
  writable_at (w_phys w) (sp c - 4) → writable_at (w_phys w) (sp c - 8) → mapped_at (w_phys w) (trap_vector i c) →
  trap_vector i c + 4 ≤ sp c - 8 ∨ sp c ≤ trap_vector i c →
  ∃ w1, sh2e_insn_exec_trapa i w = Done (NONE, w1) ∧ br_state (w_cpu w1) = SH2E_BRANCH_STATE_EXECUTE ∧
    pc_target (w_cpu w1) = be32toh (word_at (w_phys w) (trap_vector i c)) ∧ same_stack w1 w1 ∧
    ∀ w2, same_stack w1 w2 →
      ∃ w3, sh2e_insn_exec_rte 0x002B w2 = Done (NONE, w3) ∧
        br_state (w_cpu w3) = SH2E_BRANCH_STATE_DELAY_NEXT ∧ pc_target (w_cpu w3) = u32 (pc c + 2) ∧
        sr (w_cpu w3) = Z.land (sr c) LDC_SR_MASK ∧ sp (w_cpu w3) = sp c.
Proof.
  intros c Hwf Hsr Hsp Hw4 Hw8 Hvec Hap.
  destruct (trapa_run i w Hwf Hsr Hsp Hw4 Hw8 Hvec) as (w1 & R1 & S1 & P1 & P2 & Hbr & Hst & Ht). fold c in S1, P1, P2, Ht.
  exists w1. split; [done|]. split; [done|]. split; [by apply Ht|]. split; [done|]. intros w2 (Gwf & Gsp & Gbr & Gst). rewrite S1 in *.
  destruct (Gst 0 ltac:(lia)) as [M1 V1], (Gst 4 ltac:(lia)) as [M2 V2].
  replace (sp c - 8 + 0) with (sp c - 8) in * by lia. replace (sp c - 8 + 4) with (sp c - 4) in * by lia.
  unfold sh2e_insn_exec_rte, not_in_slot. rewrite (bind_Done _ _ w2 w2 w2 eq_refl).
  unfold br_is. rewrite bool_decide_eq_false_2 by done. rewrite (bind_Done _ _ w2 (w_cpu w2) w2 eq_refl), Gsp.
  destruct (read_long_run _ w2 Gwf M1) as (w3 & R3 & Q3 & C3). rewrite (bind_Done _ _ _ _ _ R3). cbn [on_value].
  assert (u32 (sp c - 8 + 4) = sp c - 4) as E4 by (unfold u32; rewrite wrap_small; unfold in_width; lia). rewrite E4.
  destruct (read_long_run (sp c - 4) w3) as (w4 & R4 & Q4 & C4); [by eapply same_store_wf|by eapply same_store_mapped|].
  rewrite (bind_Done _ _ _ _ _ R4). cbn [on_value].
  assert (word_at (w_phys w3) (sp c - 4) = be32toh (sr c)) as ->.
  { rewrite <- P2, <- V2. apply word_at_ext. intros x Hx. by apply same_store_bytes. }
  rewrite V1, P1, !be32toh_twice by (done || by apply wrap_range). eexists. split; [reflexivity|]. split_and!; [done|done|done|].
  change (sp (set_sp (u32 (sp c - 4 + 4)) (w_cpu w4)) = sp c). rewrite sp_set. unfold u32. rewrite wrap_small; unfold in_width; lia.
Qed.
End Access.

(** ** Looking up a controller *)
Lemma get_intc_put no g l : intcno g = no → is_Some (get_intc no l) → get_intc no (put_intc g l) = Some g.
Proof.
  intros <-. unfold get_intc. induction l as [|h l IH]; cbn [put_intc map filter list_filter head]; [by intros []|].
  destruct (Z.eqb_spec (intcno h) (intcno g)) as [E|E].
  - intros _. by rewrite decide_True.
  - rewrite !decide_False by done. exact IH.
Qed.
Lemma get_intc_put_other no g l : intcno g ≠ no → get_intc no (put_intc g l) = get_intc no l.
Proof.
  intros Hg. unfold get_intc. induction l as [|h l IH]; [done|]. cbn [put_intc map filter list_filter].
  destruct (Z.eqb_spec (intcno h) (intcno g)) as [E|E].
  - rewrite !decide_False by congruence. exact IH.
  - destruct (decide (intcno h = no)); [done|exact IH].
Qed.
Lemma get_intc_number no l g : get_intc no l = Some g → intcno g = no.
Proof.
  unfold get_intc. induction l as [|h l IH]; cbn [filter list_filter]; [done|].
  destruct (decide (intcno h = no)); [by intros [= <-]|exact IH].
Qed.
Lemma intc_of_put q l g g' : intc_of q l = Done (g, l) → intcno g' = intcno g →
  intc_of q (put_intc g' l) = Done (g', put_intc g' l).
Proof.
  unfold intc_of. msimpl. intros E Hg'. destruct q as [no|].
  - destruct (get_intc no l) as [h|] eqn:El; [|done]. injection E as ->.
    rewrite get_intc_put; [done|by rewrite Hg', (get_intc_number _ _ _ El)|by exists g].
  - unfold get_fallback_intc in *. destruct (get_intc 0 l) as [h|] eqn:El.
    + injection E as ->. rewrite get_intc_put; [done|by rewrite Hg', (get_intc_number _ _ _ El)|by exists g].
    + destruct l as [|h l]; [done|]. cbn in E. injection E as ->.
      rewrite get_intc_put_other, El; [cbn; by rewrite Hg', Z.eqb_refl|].
      intros Hz. revert El. unfold get_intc. cbn [filter list_filter]. by rewrite decide_True by congruence.
Qed.

(** An operation of the controller the processor uses. *)
Lemma on_intc_run {A} q (m : st sh2e_intc A) l g a d : intc_of q l = Done (g, l) → m (intc_data g) = Done (a, d) →
  on_intc q m l = Done (a, put_intc (g <| intc_data := d |>) l).
Proof. intros Eg Em. unfold on_intc. rewrite (bind_Done _ _ _ _ _ Eg), Em. done. Qed.

(** ** Turns of the compare match timer *)
Module CmtRuns.
Import Cmt CmtTurn.

Definition is_channel (i : Z) : Prop := i = 0 ∨ i = 1.

(** The turns of the loop in a row, with the number of interrupts they raise. *)
Fixpoint turns (t : nat) (i p : Z) (c : sh2e_cmt) : sh2e_cmt * nat :=
  match t with
  | O => (c, O)
  | S t' => let '(c1, no) := cmt_turn i p c in let '(c2, k) := turns t' i p c1 in
            (c2, match no with Some _ => S k | None => k end)
  end.

(** The channel in the middle of a period, with its interrupt enabled. *)
Record running (ch : channel) : Prop := {
  ru_cor : 0 < cmcor ch < 2 ^ 16;
  ru_cnt : 0 ≤ cmcnt ch < cmcor ch;
  ru_cmie : cmie ch = 1
}.

Lemma channel_turn_spec ch : running ch →
  let '(ch', raise) := channel_turn ch in
  running ch' ∧ cmcor ch' = cmcor ch ∧
  cmcnt ch' = (cmcnt ch + 1) mod cmcor ch ∧ raise = (cmcnt ch + 1 =? cmcor ch) ∧
  (raise = true → cmf ch' = 1) ∧ (cmf ch = 1 → cmf ch' = 1).
Proof.
  intros [Hr Hc Hm]. unfold channel_turn. cbn [cmcnt cmcor]. cbn.
  rewrite wrap_small by (unfold in_width; lia). destruct (Z.eqb_spec (cmcnt ch + 1) (cmcor ch)) as [E|E].
  - assert (cmie ((set_cmf 1 (ch <| cmcnt := cmcnt ch + 1 |>)) <| cmcnt := 0 |>) = 1) as Hm'.
    { rewrite <- Hm. apply ubits_put_other; lia. }
    rewrite Hm'. split_and!; cbn; try done.
    + split; cbn; [done|lia|done].
    + by rewrite E, Z.mod_same by lia.
    + intros _. by apply ubits_put_same.
    + intros _. by apply ubits_put_same.
  - split_and!; cbn; try done.
    + split; cbn; [done|lia|done].
    + by rewrite Z.mod_small by lia.
Qed.

Lemma chan_upd i f c : is_channel i → chan i (upd_chan i f c) = f (chan i c).
Proof. by intros [-> | ->]. Qed.
Lemma counter_set i v c : is_channel i → counter i (set_counter i v c) = v.
Proof. by intros [-> | ->]. Qed.
Lemma turn_spec i p c : is_channel i → 0 ≤ p ≤ counter i c → counter i c < 2 ^ 64 → running (chan i c) →
  let '(c', no) := cmt_turn i p c in
  running (chan i c') ∧ counter i c' = counter i c - p ∧ cmcor (chan i c') = cmcor (chan i c) ∧
  cmcnt (chan i c') = (cmcnt (chan i c) + 1) mod cmcor (chan i c) ∧
  no = (if cmcnt (chan i c) + 1 =? cmcor (chan i c) then Some (int_no i c) else None) ∧
  (no ≠ None → cmf (chan i c') = 1) ∧ (cmf (chan i c) = 1 → cmf (chan i c') = 1) ∧
  cpu c' = cpu c ∧ int_no i c' = int_no i c.
Proof.
  intros Hi Hp Hc Hr. unfold cmt_turn. pose proof (channel_turn_spec _ Hr) as Ht.
  replace (chan i (set_counter i (fast16 (counter i c - p)) c)) with (chan i c) by by destruct Hi as [-> | ->].
  destruct (channel_turn (chan i c)) as [ch raise]. destruct Ht as (H1 & H2 & H3 & H4 & H5 & H6).
  assert (fast16 (counter i c - p) = counter i c - p) as Ef by (apply wrap_small; unfold in_width; lia).
  rewrite Ef. rewrite <- H4.
  destruct raise; destruct Hi as [-> | ->]; cbn; split_and!; auto; (by intros []).
Qed.

Lemma turns_spec t i p c : is_channel i → 0 ≤ p → Z.of_nat t * p ≤ counter i c < 2 ^ 64 → running (chan i c) →
  let '(c', k) := turns t i p c in
  let reached := cmcnt (chan i c) + Z.of_nat t in
  counter i c' = counter i c - Z.of_nat t * p ∧ cmcor (chan i c') = cmcor (chan i c) ∧
  cmcnt (chan i c') = reached mod cmcor (chan i c) ∧ Z.of_nat k = reached / cmcor (chan i c) ∧
  (k ≠ O ∨ cmf (chan i c) = 1 → cmf (chan i c') = 1).
Proof.
  intros Hi Hp. revert c. induction t as [|t IH]; intros c Hc Hr; cbn [turns].
  { destruct Hr as [Hr1 Hr2 _]. rewrite Z.add_0_r, Z.mod_small, Z.div_small by lia. split_and!; [lia|done..|].
    intros [H|H]; done. }
  assert (0 ≤ p ≤ counter i c) as Hpc by nia.
  pose proof (turn_spec i p c Hi Hpc ltac:(lia) Hr) as Ht. destruct (cmt_turn i p c) as [c1 no].
  destruct Ht as (H1 & H2 & H3 & H4 & H5 & H6 & H7 & _).
  specialize (IH c1 ltac:(rewrite H2; nia) H1). destruct (turns t i p c1) as [c2 k].
  destruct IH as (G1 & G2 & G3 & G4 & G5). rewrite H2, H3, H4 in *. destruct Hr as [Hr1 Hr2 _].
  set (x := cmcnt (chan i c)) in *. set (cor := cmcor (chan i c)) in *.
  split_and!; [lia|done| | |].
  - rewrite G3, Zplus_mod_idemp_l. f_equal. lia.
  - subst no. destruct (Z.eqb_spec (x + 1) cor) as [E|E].
    + replace (x + Z.of_nat (S t)) with (1 * cor + Z.of_nat t) by lia. rewrite Z.div_add_l by lia.
      rewrite E, Z.mod_same, Z.add_0_l in G4 by lia. lia.
    + rewrite Z.mod_small in G4 by lia. rewrite G4. f_equal. lia.
  - intros Hk. apply G5. destruct no as [no|]; [right; by apply H6|].
    destruct Hk as [Hk|Hk]; [by left|right; by apply H7].
Qed.

Lemma turns_same t i p c : is_channel i →
  let '(c', _) := turns t i p c in cpu c' = cpu c ∧ int_no i c' = int_no i c.
Proof.
  intros Hi. revert c. induction t as [|t IH]; intros c; cbn [turns]; [done|].
  assert (cpu (cmt_turn i p c).1 = cpu c ∧ int_no i (cmt_turn i p c).1 = int_no i c) as [E1 E2].
  { unfold cmt_turn. destruct (channel_turn _) as [ch []]; by destruct Hi as [-> | ->]. }
  destruct (cmt_turn i p c) as [c1 no]. specialize (IH c1). destruct (turns t i p c1) as [c2 k]. cbn in *.
  destruct IH as [-> ->]. done.
Qed.
End CmtRuns.

(** ** The controllers and peripherals as a component of the machine *)
Section Chip.
Context {D : Type} `{BoardOf sh2e_cpu desc D} `{OnChipLaws D} `{HostFloat}.
Abbreviation W := (world sh2e_cpu desc D).

Definition chip_of (w : W) : onchip := oc_get (w_dev w).
Definition with_chip (o : onchip) (w : W) : W := w <| w_dev := oc_set o (w_dev w) |>.

Lemma chip_of_with o w : chip_of (with_chip o w) = o.
Proof. apply oc_get_set. Qed.
Lemma with_chip_of w : with_chip (chip_of w) w = w.
Proof. unfold with_chip, chip_of. rewrite oc_set_get. by destruct w. Qed.
Lemma with_with o o' w : with_chip o (with_chip o' w) = with_chip o w.
Proof. unfold with_chip. cbn. by rewrite oc_set_set. Qed.

Lemma on_onchip_run {A} (m : st onchip A) w a o :
  m (chip_of w) = Done (a, o) → on_onchip m w = Done (a, with_chip o w).
Proof. intros E. unfold on_onchip, zoom. unfold chip_of in E. by rewrite E. Qed.
Lemma on_intcs_run {A} (m : st intcs A) w a l :
  m (oc_intcs (chip_of w)) = Done (a, l) →
  on_intcs m w = Done (a, with_chip ((chip_of w) <| oc_intcs := l |>) w).
Proof. intros E. apply on_onchip_run. unfold zoom. by rewrite E. Qed.

(** ** NMI *)

(** The controller of the processor sees an edge on NMI and no reset. *)
Definition nmi_edge (w : W) : Prop :=
  ∃ g, let l := oc_intcs (chip_of w) in
    intc_of (intc (w_cpu w)) l = Done (g, l) ∧ sh2e_check_nmi_interrupt (intc_data g) = true ∧
    sh2e_check_pending_resets (intc_data g) = Done ((false, None), intc_data g).

Fixpoint cpu_steps (n : nat) : st W unit :=
  match n with O => mret tt | S n' => sh2e_cpu_step;; cpu_steps n' end.

(** The processor waits in exception processing with nothing to process. *)
Definition stuck (c : sh2e_cpu) : Prop :=
  pr_state c = SH2E_PSTATE_EXCEPTION_PROCESSING ∧ insn_exception c = NONE ∧
  pending_address_error c = NONE ∧ pending_interrupt c = 0.

Lemma stuck_step w : stuck (w_cpu w) → sh2e_cpu_step w = Done (tt, w).
Proof.
  intros (Hp & He & Ha & Hi). unfold sh2e_cpu_step. rewrite (bind_Done _ _ w (w_cpu w) w eq_refl), Hp.
  unfold sh2e_exception_state_step.
  assert (cpu_modify defer_address_error w = Done (tt, w)) as E1.
  { unfold cpu_modify, on_cpu, zoom, modify, defer_address_error. rewrite He.
    replace (_ && _) with false by (by destruct (disable_address_errors _)). by destruct w. }
  rewrite (bind_Done _ _ _ _ _ E1), (bind_Done _ _ w (w_cpu w) w eq_refl).
  unfold address_error_due. by rewrite He, Ha, Hi.
Qed.
Lemma stuck_forever n w : stuck (w_cpu w) → cpu_steps n w = Done (tt, w).
Proof.
  intros Hs. induction n as [|n IH]; [done|]. cbn [cpu_steps]. by rewrite (bind_Done _ _ _ _ _ (stuck_step w Hs)).
Qed.

(** C33: an NMI stops a sleeping processor for good.  In the power-down state an edge on
    NMI makes the next step leave for exception processing, but the controller answers
    without the number of the source, so nothing is pending there: no later step, in
    any number, changes the machine, and even a reset request is never looked at. *)
Theorem nmi_hangs_sleep w : pr_state (w_cpu w) = SH2E_PSTATE_POWER_DOWN → insn_exception (w_cpu w) = NONE →
  pending_address_error (w_cpu w) = NONE → nmi_edge w →
  ∃ w1, sh2e_cpu_step w = Done (tt, w1) ∧ stuck (w_cpu w1) ∧ ∀ n, cpu_steps n w1 = Done (tt, w1).
Proof.
  intros Hp He Ha (g & Eg & Hnmi & Hres). cbv zeta in Eg. set (l := oc_intcs (chip_of w)) in *.
  set (g1 := g <| intc_data := intc_data g |>).
  pose proof (on_intcs_run _ w _ _ (on_intc_run _ _ l g _ _ Eg Hres)) as E1. fold g1 in E1.
  set (w' := with_chip _ w) in E1.
  assert (sh2e_cpu_check_reset_req w = Done (false, w')) as E2.
  { unfold sh2e_cpu_check_reset_req, intc_check_resets. rewrite (bind_Done _ _ w (w_cpu w) w eq_refl).
    by rewrite (bind_Done _ _ _ _ _ E1). }
  pose proof (intc_of_put _ l g g1 Eg eq_refl) as Eg1.
  assert (∃ d, sh2e_check_pending_interrupts (sr_im (w_cpu w)) (intc_data g1) = Done ((true, None), d)) as [d Ed].
  { unfold sh2e_check_pending_interrupts, sh2e_check_nmi_and_update_nmi_prev_value. msimpl. cbn. rewrite Hnmi. by eexists. }
  assert (oc_intcs (chip_of w') = put_intc g1 l) as El by (unfold w'; by rewrite chip_of_with).
  rewrite <- El in Eg1. pose proof (on_intcs_run _ w' _ _ (on_intc_run _ _ _ _ _ _ Eg1 Ed)) as E3.
  set (w'' := with_chip _ w') in E3.
  assert (check_interrupts w' = Done ((true, 0), w'')) as E4.
  { unfold check_interrupts, intc_check_interrupts. rewrite (bind_Done _ _ w' (w_cpu w) w' eq_refl).
    by rewrite (bind_Done _ _ _ _ _ E3). }
  enough (∃ w1, sh2e_cpu_step w = Done (tt, w1) ∧ stuck (w_cpu w1)) as (w1 & Es & Hs)
    by (exists w1; split_and!; [done|apply Hs..|intros n; by apply stuck_forever]).
  eexists. split.
  - unfold sh2e_cpu_step. rewrite (bind_Done _ _ w (w_cpu w) w eq_refl), Hp. unfold sh2e_standby_state_step.
    rewrite (bind_Done _ _ _ _ _ E2). cbv iota. rewrite (bind_Done _ _ _ _ _ E4). reflexivity.
  - by split_and!.
Qed.



(** ** Interrupts from a device *)

(** Raising [no] for the processor at [p] takes the controllers [l] to [l1], where
    raising it again changes nothing. *)
Definition accepts (w : W) (p : option Z) (no : Z) (l l1 : intcs) : Prop :=
  ∀ o, oc_intcs o = l ∨ oc_intcs o = l1 →
    cpu_interrupt_up p no (with_chip o w) = Done (tt, with_chip (o <| oc_intcs := l1 |>) w).

Definition asserted (no : Z) (c : sh2e_intc) : sh2e_intc :=
  if SH2E_INTC_VALID_IRQ_SOURCE_ID no
  then sh2e_assert_irq_interrupt (no - SH2E_INTC_IRQ_VECTOR_ADDRESS_OFFSET) c
  else set_source_pending no true c.
Lemma assert_run no c : SH2E_INTC_VALID_SOURCE_ID no = true → registered (source no c) = true →
  sh2e_intc_assert_interrupt no c = Done (tt, asserted no c).
Proof.
  intros Hv Hr. unfold sh2e_intc_assert_interrupt, on_source, asserted. msimpl. rewrite Hv, Hr.
  by destruct (SH2E_INTC_VALID_IRQ_SOURCE_ID no).
Qed.
Lemma asserted_twice no c : asserted no (asserted no c) = asserted no c.
Proof.
  unfold asserted. destruct (SH2E_INTC_VALID_IRQ_SOURCE_ID no).
  - unfold sh2e_assert_irq_interrupt. cbn. by rewrite <- Z.lor_assoc, Z.lor_diag.
  - unfold set_source_pending, set_source, source. cbn. rewrite lookup_insert_eq. cbn. by rewrite insert_insert_eq.
Qed.
Lemma asserted_registered no c : registered (source no c) = true → registered (source no (asserted no c)) = true.
Proof.
  unfold asserted. destruct (SH2E_INTC_VALID_IRQ_SOURCE_ID no); [done|].
  unfold set_source_pending, set_source, source. cbn. by rewrite lookup_insert_eq.
Qed.
Lemma put_put g g' l : intcno g = intcno g' → put_intc g (put_intc g' l) = put_intc g l.
Proof.
  intros E. unfold put_intc. rewrite map_map. apply map_ext. intros h.
  destruct (Z.eqb_spec (intcno h) (intcno g')) as [Eh|Eh]; [by rewrite <- E, Z.eqb_refl, E, Eh, Z.eqb_refl|done].
Qed.

Lemma first_cpu_chip {B} (p : sh2e_cpu → bool) (f : sh2e_cpu → B * sh2e_cpu) b w o :
  with_first_cpu p f w = Some (b, w) → with_first_cpu p f (with_chip o w) = Some (b, with_chip o w).
Proof.
  destruct w. unfold with_first_cpu, with_chip. cbn. destruct (update_first p f w_before) as [[b1 l1]|]; cbn.
  { by intros [= -> ->]. }
  destruct (p w_cpu); [destruct (f w_cpu) as [b1 c1]; cbn; by intros [= -> ->]|].
  destruct (update_first p f w_after) as [[b1 l1]|]; cbn; [by intros [= -> ->]|done].
Qed.

Lemma accepts_registered w cpu_no no q g :
  no ≠ SH2E_INTC_DMAC_VECTOR_ADDRESS_OFFSET →
  with_first_cpu (has_number cpu_no) (λ c, (intc c, c)) w = Some (q, w) →
  intc_of q (oc_intcs (chip_of w)) = Done (g, oc_intcs (chip_of w)) →
  SH2E_INTC_VALID_SOURCE_ID no = true → registered (source no (intc_data g)) = true →
  accepts w (Some cpu_no) no (oc_intcs (chip_of w))
    (put_intc (g <| intc_data := asserted no (intc_data g) |>) (oc_intcs (chip_of w))).
Proof.
  intros Hno Hcpu Hg Hv Hr o Ho. set (l := oc_intcs (chip_of w)) in *.
  set (g1 := g <| intc_data := asserted no (intc_data g) |>) in *.
  cbn. unfold sh2e_cpu_assert_interrupt. rewrite (proj2 (Z.eqb_neq _ _) Hno), (first_cpu_chip _ _ _ _ o Hcpu).
  assert (intc_interrupt_up q no (oc_intcs (chip_of (with_chip o w))) = Done (tt, put_intc g1 l)) as E.
  { rewrite chip_of_with. unfold intc_interrupt_up. destruct Ho as [-> | ->].
    - by apply on_intc_run; [|apply assert_run].
    - rewrite (on_intc_run q _ _ g1 tt (asserted no (intc_data g1))); [|by apply (intc_of_put _ _ _ _ Hg)|].
      + do 2 f_equal. cbn. rewrite asserted_twice. by rewrite put_put.
      + apply assert_run; [done|]. by apply asserted_registered. }
  rewrite (on_intcs_run _ _ _ _ E), chip_of_with, with_with. done.
Qed.

(** ** The compare match timer *)
Section Timer.
Import Cmt CmtTurn CmtRuns.

Definition put_in (l : intcs) (n : Z) (x : peripheral) (o : onchip) : onchip :=
  mk_onchip l (<[n := x]> (oc_peripherals o)).

Lemma cmt_run n c w : oc_peripherals (chip_of w) !! n = Some (PCmt c) → cmt n w = Done (c, w).
Proof. intros E. unfold cmt, peri. fold (chip_of w). by rewrite E. Qed.
Lemma put_cmt_run n c o w : put_cmt n c (with_chip o w) = Done (tt, with_chip (put_in (oc_intcs o) n (PCmt c) o) w).
Proof.
  unfold put_cmt, put_peri. erewrite on_onchip_run; [|rewrite chip_of_with; reflexivity]. by rewrite with_with.
Qed.

Lemma channel_loop_run n t i p o w c l l1 : is_channel i → 0 < p →
  oc_peripherals o !! n = Some (PCmt c) → oc_intcs o = l ∨ oc_intcs o = l1 →
  Z.of_nat t * p ≤ counter i c < 2 ^ 64 → running (chan i c) → accepts w (cpu c) (int_no i c) l l1 →
  let '(c', k) := turns t i p c in
  channel_loop n t i p (with_chip o w) =
    Done (tt, with_chip (put_in (match k with O => oc_intcs o | _ => l1 end) n (PCmt c') o) w).
Proof.
  intros Hi Hp. revert o c. induction t as [|t IH]; intros o c Ho Hl Hc Hr Ha; cbn [turns].
  { unfold put_in. rewrite insert_id by done. by destruct o. }
  assert (0 ≤ p ≤ counter i c) as Hpc by nia.
  pose proof (turn_spec i p c Hi Hpc ltac:(lia) Hr) as Ht. cbn [channel_loop].
  rewrite (bind_Done _ _ _ _ _ (cmt_run n c _ ltac:(by rewrite chip_of_with))).
  rewrite Z.geb_leb, (proj2 (Z.leb_le _ _)) by lia. destruct (cmt_turn i p c) as [c1 no].
  destruct Ht as (T1 & T2 & _ & _ & T5 & _ & _ & Hcpu & Hint).
  rewrite (bind_Done _ _ _ _ _ (put_cmt_run _ _ _ _)).
  set (o1 := put_in (oc_intcs o) n (PCmt c1) o).
  set (o2 := match no with Some _ => o1 <| oc_intcs := l1 |> | None => o1 end).
  assert (raise (cpu c1) no (with_chip o1 w) = Done (tt, with_chip o2 w)) as Er.
  { subst o2. destruct no as [no|]; [|done]. rewrite Hcpu. destruct (_ =? _) in T5; [|done].
    injection T5 as ->. cbn [raise]. by rewrite (Ha o1) by done. }
  rewrite (bind_Done _ _ _ _ _ Er).
  assert (oc_peripherals o2 !! n = Some (PCmt c1)) as Ho2 by (subst o2 o1; destruct no; apply lookup_insert_eq).
  assert (oc_intcs o2 = l ∨ oc_intcs o2 = l1) as Hl2 by (subst o2 o1; destruct no; auto).
  specialize (IH o2 c1 Ho2 Hl2 ltac:(rewrite T2; nia) T1 ltac:(by rewrite Hcpu, Hint)).
  destruct (turns t i p c1) as [c2 k]. rewrite IH. subst o2 o1. unfold put_in. do 3 f_equal.
  destruct no, k; cbn; by rewrite insert_insert_eq.
Qed.

(** C20: the compare match timer keeps time.  For a running channel with its interrupt
    enabled and a controller that accepts it, accounting the cycles of the processor
    ends with the counter below the clock period and the number of whole periods added
    to CMCNT modulo CMCOR.  When CMCNT went round, the match flag is set and the
    interrupt is raised at the controller; otherwise no controller changes. *)
Theorem cmt_keeps_time n i w c l1 :
  is_channel i → oc_peripherals (chip_of w) !! n = Some (PCmt c) → running (chan i c) →
  0 ≤ counter i c → 0 ≤ cpu_cycles c → counter i c + cpu_cycles c < 2 ^ 64 →
  accepts w (cpu c) (int_no i c) (oc_intcs (chip_of w)) l1 →
  let total := counter i c + cpu_cycles c in
  let reached := cmcnt (chan i c) + total / cmt_period (chan i c) in
  let rounds := reached / cmcor (chan i c) in
  ∃ c', update_channel_counter n i w =
          Done (tt, with_chip (put_in (if rounds =? 0 then oc_intcs (chip_of w) else l1) n (PCmt c') (chip_of w)) w) ∧
        counter i c' = total mod cmt_period (chan i c) ∧
        cmcnt (chan i c') = reached mod cmcor (chan i c) ∧
        (0 < rounds → cmf (chan i c') = 1).
Proof.
  intros Hi Ho Hr H1' H2' Hlt Ha total reached rounds.
  assert (0 < cmt_period (chan i c)) as Hp by (unfold cmt_period; repeat case_match; lia).
  set (p := cmt_period (chan i c)) in *. set (c0 := set_counter i (fast16 (counter i c + cpu_cycles c)) c).
  assert (fast16 (counter i c + cpu_cycles c) = total) as Ef by (apply wrap_small; unfold in_width; lia).
  assert (counter i c0 = total) as Ec by (subst c0; by rewrite counter_set, Ef).
  assert (chan i c0 = chan i c ∧ cpu c0 = cpu c ∧ int_no i c0 = int_no i c) as (E1 & E2 & E3)
    by (subst c0; by destruct Hi as [-> | ->]).
  assert (0 ≤ total / p) as Hq by (apply Z.div_pos; lia).
  assert (Z.of_nat (Z.to_nat (total / p)) = total / p) as En by lia.
  pose proof (Z.mul_div_le total p Hp) as Hle.
  set (o := put_in (oc_intcs (chip_of w)) n (PCmt c0) (chip_of w)).
  pose proof (channel_loop_run n (Z.to_nat (total / p)) i p o w c0 (oc_intcs (chip_of w)) l1 Hi Hp
    (lookup_insert_eq _ _ _) (or_introl eq_refl)) as Hrun.
  pose proof (turns_spec (Z.to_nat (total / p)) i p c0 Hi ltac:(lia)) as Hs. rewrite En, Ec, E1 in Hrun, Hs.
  rewrite E2, E3 in Hrun. specialize (Hrun ltac:(lia) Hr Ha). specialize (Hs ltac:(lia) Hr).
  destruct (turns (Z.to_nat (total / p)) i p c0) as [c' k]. destruct Hs as (S1 & S2 & S3 & S4 & S5).
  exists c'. split_and!.
  - unfold update_channel_counter. rewrite (bind_Done _ _ _ _ _ (cmt_run n c w Ho)). fold c0.
    rewrite <- (with_chip_of w) at 1. rewrite (bind_Done _ _ _ _ _ (put_cmt_run _ _ _ _)). fold o. rewrite E1, Ec. fold p.
    rewrite Hrun. do 3 f_equal. subst o. unfold put_in. cbn. rewrite insert_insert_eq. f_equal.
    subst rounds reached. rewrite <- S4. by destruct k.
  - rewrite S1. pose proof (Z.div_mod total p). lia.
  - done.
  - intros Hpos. apply S5. left. intros ->. subst rounds reached. lia.
Qed.
End Timer.

(** ** Direct memory access *)
Section Transfers.
Import Dmac DmacRegs.

(** A debugger that is told of a breakpoint leaves the devices alone. *)
Hypothesis event_chip : ∀ d : D, oc_get (debugger_event d) = oc_get d.

Lemma chip_obs_sc procno addr size (w : W) b w' : ph_sc_access procno addr size w = Done (b, w') → chip_of w' = chip_of w.
Proof.
  assert (∀ p f (w1 : W) b1 w1', with_first_cpu (B:=bool) p f w1 = Some (b1, w1') → chip_of w1' = chip_of w1) as Hf.
  { intros p f w1 b1 w1'. unfold with_first_cpu, chip_of. destruct (update_first _ _ (w_before w1)) as [[? ?]|]; [by intros [= _ <-]|].
    destruct (p _); [destruct (f _); by intros [= _ <-]|]. destruct (update_first _ _ (w_after w1)) as [[? ?]|]; by intros [= _ <-]. }
  cbn. unfold cpu_sc_access.
  destruct (with_first_cpu (has_number procno) _ w) as [r|] eqn:E1; [intros [= ->]; by eapply Hf|].
  destruct (with_first_cpu (has_number 0) _ w) as [r|] eqn:E2; [intros [= ->]; by eapply Hf|].
  destruct (with_first_cpu (λ _, true) _ w) as [r|] eqn:E3; [intros [= ->]; by eapply Hf|done].
Qed.
Lemma chip_obs_event (w w' : W) : ph_gdb_event w = Done (tt, w') → chip_of w' = chip_of w.
Proof. intros [= <-]. apply event_chip. Qed.

Lemma read32_chip procno addr (w : W) : phys_wf (w_phys w) → mapped_at (w_phys w) addr →
  ∃ w', physmem_read32 procno addr true w = Done (word_at (w_phys w) addr, w') ∧
    same_store (w_phys w) (w_phys w') ∧ chip_of w' = chip_of w.
Proof.
  intros Hwf Hm. destruct (read32_run (W:=W) procno addr true w) as (w' & E & Hs); [exact Hwf|exact Hm|]. exists w'. split_and!; [done|done|].
  destruct Hm as (_ & _ & [f Hf]). 
  exact (physmem_read_obs chip_of (λ _ _, eq_refl) chip_obs_event devmem_read32 4 procno addr true f w _ w' Hwf Hf E).
Qed.
Lemma write32_chip procno addr val (w : W) : phys_wf (w_phys w) → writable_at (w_phys w) addr → in_width 32 val →
  ∃ w', physmem_write32 procno addr val true w = Done (true, w') ∧ phys_wf (w_phys w') ∧
    word_at (w_phys w') addr = val ∧
    (∀ x, 0 ≤ x < PHYS_LIMIT → ¬ (addr ≤ x < addr + 4) → byte_at (w_phys w') x = byte_at (w_phys w) x) ∧
    (∀ x, writable_at (w_phys w) x → writable_at (w_phys w') x) ∧
    (∀ x, mapped_at (w_phys w) x → mapped_at (w_phys w') x) ∧ chip_of w' = chip_of w.
Proof.
  intros Hwf Hm Hv. destruct (write32_run (W:=W) procno addr val true w) as (w' & E & H3 & H4 & H5 & H6 & H7); [exact Hwf|exact Hm|exact Hv|].
  exists w'. split_and!; [done..|]. destruct Hm as [(_ & _ & [f Hf]) _].
  exact (physmem_write_obs chip_of (λ _ _, eq_refl) chip_obs_sc chip_obs_event devmem_write32 4 procno addr val true f w _ w' Hwf Hf E).
Qed.

(** *** The controller at position [n] *)
Context (n : Z).
Definition at_dmac (d : sh2e_dmac) (w : W) : Prop := oc_peripherals (chip_of w) !! n = Some (PDmac d).
Definition set_dmac (d : sh2e_dmac) (w : W) : W := with_chip (put_in (oc_intcs (chip_of w)) n (PDmac d) (chip_of w)) w.

Lemma dmac_run d w : at_dmac d w → dmac n w = Done (d, w).
Proof. intros E. unfold dmac, peri. fold (chip_of w). unfold at_dmac in E. by rewrite E. Qed.
Lemma at_set d w : at_dmac d (set_dmac d w).
Proof. unfold at_dmac, set_dmac. rewrite chip_of_with. apply lookup_insert_eq. Qed.
Lemma set_set d d' w : set_dmac d (set_dmac d' w) = set_dmac d w.
Proof. unfold set_dmac. rewrite chip_of_with, with_with. unfold put_in. cbn. by rewrite insert_insert_eq. Qed.
Lemma put_dmac_run d w : put_dmac n d w = Done (tt, set_dmac d w).
Proof. unfold put_dmac, put_peri. by erewrite on_onchip_run. Qed.
Lemma dmac_modify_run f d w : at_dmac d w → dmac_modify n f w = Done (tt, set_dmac (f d) w).
Proof.
  intros E. unfold dmac_modify, peri_modify. rewrite (bind_Done _ _ _ _ _ (dmac_run d w E)).
  apply put_dmac_run.
Qed.

(** *** Copying words

    Channel [j] transfers long words on automatic requests in cycle-steal mode,
    incrementing both addresses; channel 2, which reloads its source, is left out. *)
Record copying (j : Z) (d : sh2e_dmac) : Prop := {
  co_channel : 0 ≤ j < 4 ∧ j ≠ 2;
  co_rs : rs (chan j d) = SH2E_DMAC_RESOURCE_AUTO_REQUEST;
  co_ts : ts (chan j d) = 2;
  co_tm : tm (chan j d) = 0;
  co_ie : ie (chan j d) = 0;
  co_di : di (chan j d) = 0;
  co_sm : sm (chan j d) = 1;
  co_dm : dm (chan j d) = 1;
  co_de : de (chan j d) = 1;
  co_on : dme d = 1 ∧ nmif d = 0 ∧ ae d = 0
}.

Lemma chan_upd_same j f d : chan j (upd_chan j f d) = f (chan j d).
Proof. unfold chan, upd_chan. cbn. by rewrite lookup_insert_eq. Qed.

(** The registers after the data were moved. *)
Definition advanced (c : channel) : channel :=
  (c <| sar := u32 (sar c + 4) |> <| dar := u32 (dar c + 4) |>) <| tcr := u32 (tcr c - 1) |>.
Lemma advance_regs c : ts c = 2 → di c = 0 → sm c = 1 → dm c = 1 →
  (regs_update_after_transfer c) <| tcr := u32 (tcr (regs_update_after_transfer c) - 1) |> = advanced c.
Proof.
  destruct c as [a b t ch]. unfold ts, di, sm, dm. cbn. intros Ets Edi Esm Edm.
  unfold regs_update_after_transfer, transfer_size_bytes, ts, di, sm, dm. cbn.
  rewrite Edi, Esm. cbn. rewrite Edm, Ets. done.
Qed.

(** What [w'] has in memory after the word at [a] was copied to [b]. *)
Definition copied (a b : Z) (w w' : W) : Prop :=
  phys_wf (w_phys w') ∧ word_at (w_phys w') b = word_at (w_phys w) a ∧
  (∀ x, 0 ≤ x < PHYS_LIMIT → ¬ (b ≤ x < b + 4) → byte_at (w_phys w') x = byte_at (w_phys w) x) ∧
  (∀ x, writable_at (w_phys w) x → writable_at (w_phys w') x) ∧
  (∀ x, mapped_at (w_phys w) x → mapped_at (w_phys w') x).

Lemma longword_run a b w : phys_wf (w_phys w) → mapped_at (w_phys w) a → writable_at (w_phys w) b →
  ∃ w', longword_transfer n a b w = Done (tt, w') ∧ copied a b w w' ∧ chip_of w' = chip_of w.
Proof.
  intros Hwf Ha Hb. unfold longword_transfer.
  rewrite aligned_mask by apply Ha.
  destruct (read32_chip no_processor a w Hwf Ha) as (w1 & E1 & Hs & C1). rewrite (bind_Done _ _ _ _ _ E1).
  destruct (write32_chip no_processor b (word_at (w_phys w) a) w1) as (w2 & E2 & G1 & G2 & G3 & G4 & G5 & C2);
    [by eapply same_store_wf|by eapply same_store_writable|by apply word_at_width|].
  rewrite (bind_Done _ _ _ _ _ E2). exists w2. split; [done|]. split; [|congruence]. split_and!; try done.
  - intros x Hx Hn. rewrite G3 by done. by apply same_store_bytes.
  - intros x Hx. by apply G4, (same_store_writable _ _ _ Hs).
  - intros x Hx. by apply G5, (same_store_mapped _ _ _ Hs).
Qed.

Lemma at_dmac_chip d w w' : chip_of w' = chip_of w → at_dmac d w → at_dmac d w'.
Proof. unfold at_dmac. by intros ->. Qed.

Lemma perform_run j d w : at_dmac d w → copying j d → phys_wf (w_phys w) →
  mapped_at (w_phys w) (sar (chan j d)) → writable_at (w_phys w) (dar (chan j d)) →
  ∃ w', perform_transfer n j w = Done (tt, set_dmac (upd_chan j advanced d) w') ∧
    copied (sar (chan j d)) (dar (chan j d)) w w' ∧ chip_of w' = chip_of w.
Proof.
  intros Hd [_ _ Hts _ _ Hdi Hsm Hdm _ _] Hwf Ha Hb. unfold perform_transfer.
  rewrite (bind_Done _ _ _ _ _ (dmac_run d w Hd)), Hdi. cbn [Z.eqb].
  rewrite (bind_Done _ _ w (sar (chan j d)) w eq_refl), (bind_Done _ _ _ _ _ (dmac_run d w Hd)), Hts.
  destruct (longword_run _ _ _ Hwf Ha Hb) as (w1 & E1 & Hc & C1). rewrite (bind_Done _ _ _ _ _ E1).
  rewrite (bind_Done _ _ _ _ _ (dmac_modify_run _ d w1 (at_dmac_chip _ _ _ C1 Hd))).
  rewrite (dmac_modify_run _ _ _ (at_set _ w1)), set_set. exists w1. split; [|done]. do 3 f_equal.
  unfold upd_chan at 1 3. unfold chan at 1 2. cbn. rewrite lookup_insert_eq, insert_insert_eq. cbn.
  by rewrite <- advance_regs.
Qed.

(** *** One request *)
Definition finish (j : Z) (d : sh2e_dmac) : sh2e_dmac :=
  let d := d <| successful_transfers_count := wrap 64 (successful_transfers_count d + 1) |> in
  if tcr (chan j d) =? 0
  then (upd_chan j (set_te 1) d) <| transfer_state := SH2E_DMAC_TRANSFER_STATE_INITIAL |>
  else d <| transfer_state := SH2E_DMAC_TRANSFER_STATE_WAITING_FOR_REQUEST |>.
Definition begin (j : Z) (d : sh2e_dmac) : sh2e_dmac :=
  d <| picked_channel := j |> <| transfer_state := SH2E_DMAC_TRANSFER_STATE_TRANSFERRING |>.
Definition moved (j : Z) (d : sh2e_dmac) : sh2e_dmac := finish j (upd_chan j advanced (begin j d)).

Lemma copying_chcr j d d' : copying j d → chcr (chan j d') = chcr (chan j d) → dmaor d' = dmaor d → copying j d'.
Proof.
  intros [G1 G2 G3 G4 G5 G6 G7 G8 G9 G10] E1 E2. unfold rs, ts, tm, ie, di, sm, dm, de, dme, nmif, ae in *.
  split; unfold rs, ts, tm, ie, di, sm, dm, de, dme, nmif, ae; by rewrite ?E1, ?E2.
Qed.
Lemma copying_advanced j d : copying j d → copying j (upd_chan j advanced d).
Proof. intros Hc. apply (copying_chcr j d); [done|by rewrite chan_upd_same|done]. Qed.
Lemma copying_begin j d : copying j d → copying j (begin j d).
Proof. intros Hc. by apply (copying_chcr j d). Qed.

Lemma no_abort j d : copying j d → picked_channel d = j → check_abort_conditions d = false.
Proof.
  intros [_ _ _ _ _ _ _ _ Hde (Hme & Hn & Ha)] Hp. unfold check_abort_conditions. by rewrite Hp, Hde, Hme, Hn, Ha.
Qed.
Lemma after_transfer_run j d : copying j d → picked_channel d = j → after_transfer d = (finish j d, None).
Proof.
  intros Hc Hp. pose proof (co_channel _ _ Hc) as [Hj H2']. unfold after_transfer.
  assert (reload d = d) as -> by (unfold reload; by rewrite Hp, (proj2 (Z.eqb_neq _ _) H2')).
  rewrite (no_abort j) by done. cbv zeta. unfold finish. cbn [picked_channel]. cbn [chan]. 
  change (picked_channel (d <| successful_transfers_count := wrap 64 (successful_transfers_count d + 1) |>)) with (picked_channel d).
  rewrite Hp. set (d1 := d <| successful_transfers_count := _ |>).
  destruct (tcr (chan j d1) =? 0).
  - assert (reload_reset (upd_chan j (set_te 1) d1) = upd_chan j (set_te 1) d1) as ->.
    { unfold reload_reset. change (picked_channel (upd_chan j (set_te 1) d1)) with (picked_channel d).
      by rewrite Hp, (proj2 (Z.eqb_neq _ _) H2'). }
    rewrite chan_upd_same. assert (ie (set_te 1 (chan j d1)) = 0) as ->; [|done].
    rewrite <- (co_ie _ _ Hc). unfold ie, set_te, set_chcr_bits. cbn. apply ubits_put_other; lia.
  - change (tm (chan j d1)) with (tm (chan j d)). by rewrite (co_tm _ _ Hc).
Qed.

Lemma step_transferring_run j d w : at_dmac d w → copying j d → picked_channel d = j → phys_wf (w_phys w) →
  mapped_at (w_phys w) (sar (chan j d)) → writable_at (w_phys w) (dar (chan j d)) →
  ∃ w', step_transferring n w = Done (tt, set_dmac (finish j (upd_chan j advanced d)) w') ∧
    copied (sar (chan j d)) (dar (chan j d)) w w' ∧ chip_of w' = chip_of w.
Proof.
  intros Hd Hc Hp Hwf Ha Hb. destruct (perform_run j d w Hd Hc Hwf Ha Hb) as (w1 & E1 & Hcp & C1).
  assert (negb (picked_channel d =? -1) = true) as Hj by (rewrite Hp; destruct (co_channel _ _ Hc); rewrite (proj2 (Z.eqb_neq _ _)); [done|lia]).
  set (d1 := upd_chan j advanced d) in *. set (w2 := set_dmac d1 w1) in *.
  assert (transfer_and_update_regs n w = Done (tt, set_dmac (finish j d1) w1)) as E2.
  { unfold transfer_and_update_regs. rewrite (bind_Done _ _ _ _ _ (dmac_run d w Hd)).
    rewrite (bind_Done _ _ w tt w); [|by unfold c_assert; rewrite Hj].
    rewrite Hp, (bind_Done _ _ _ _ _ E1), (bind_Done _ _ _ _ _ (dmac_run d1 w2 (at_set d1 w1))).
    rewrite (after_transfer_run j) by (done || by apply copying_advanced).
    rewrite (bind_Done _ _ _ _ _ (put_dmac_run _ _)). unfold w2. by rewrite set_set. }
  exists w1. split; [|done]. unfold step_transferring. rewrite (bind_Done _ _ _ _ _ (dmac_run d w Hd)).
  rewrite (bind_Done _ _ w tt w); [|by unfold c_assert; rewrite Hj].
  rewrite (no_abort j) by done. rewrite (bind_Done _ _ _ _ _ E2), (bind_Done _ _ _ _ _ (dmac_run _ _ (at_set _ w1))).
  rewrite bool_decide_eq_false_2; [done|]. unfold finish. cbv zeta. case_match; cbn; discriminate.
Qed.

(** The channel waits for its next request, or is the one to be picked. *)
Definition requesting (j : Z) (d : sh2e_dmac) : Prop :=
  (transfer_state d = SH2E_DMAC_TRANSFER_STATE_WAITING_FOR_REQUEST ∧ picked_channel d = j) ∨
  (transfer_state d = SH2E_DMAC_TRANSFER_STATE_INITIAL ∧ pick_channel d = Some j).

Lemma step_waiting_run j d w : at_dmac d w → copying j d → picked_channel d = j → phys_wf (w_phys w) →
  mapped_at (w_phys w) (sar (chan j d)) → writable_at (w_phys w) (dar (chan j d)) →
  ∃ w', step_waiting n w = Done (tt, set_dmac (moved j d) w') ∧
    copied (sar (chan j d)) (dar (chan j d)) w w' ∧ chip_of w' = chip_of (set_dmac (begin j d) w).
Proof.
  intros Hd Hc Hp Hwf Ha Hb.
  assert (negb (picked_channel d =? -1) = true) as Hj by (rewrite Hp; destruct (co_channel _ _ Hc); rewrite (proj2 (Z.eqb_neq _ _)); [done|lia]).
  unfold step_waiting. rewrite (bind_Done _ _ _ _ _ (dmac_run d w Hd)).
  rewrite (bind_Done _ _ w tt w); [|by unfold c_assert; rewrite Hj].
  rewrite Hp, (co_rs _ _ Hc). cbn [Z.eqb]. rewrite Z.eqb_refl.
  unfold start_transfer. rewrite (bind_Done _ _ _ _ _ (dmac_modify_run _ d w Hd)).
  assert (d <| transfer_state := SH2E_DMAC_TRANSFER_STATE_TRANSFERRING |> = begin j d) as ->
    by (unfold begin; rewrite <- Hp; by destruct d).
  apply (step_transferring_run j (begin j d) (set_dmac (begin j d) w)); [apply at_set|by apply copying_begin|done..].
Qed.

Lemma dmac_turn_run j d w : at_dmac d w → copying j d → requesting j d → phys_wf (w_phys w) →
  mapped_at (w_phys w) (sar (chan j d)) → writable_at (w_phys w) (dar (chan j d)) →
  ∃ w', dmac_turn n w = Done (tt, w') ∧ at_dmac (moved j d) w' ∧ copied (sar (chan j d)) (dar (chan j d)) w w'.
Proof.
  intros Hd Hc Hr Hwf Ha Hb. unfold dmac_turn. rewrite (bind_Done _ _ _ _ _ (dmac_run d w Hd)).
  assert (∀ m d0 w0, picked_channel d0 = j → copying j d0 → at_dmac d0 w0 → w_phys w0 = w_phys w → chan j d0 = chan j d →
    moved j d0 = moved j d → m = step_waiting n w0 →
    ∃ w', m = Done (tt, w') ∧ at_dmac (moved j d) w' ∧ copied (sar (chan j d)) (dar (chan j d)) w w') as Hrun.
  { intros m d0 w0 P0 P1 P2 P3 P4 P5 ->.
    destruct (step_waiting_run j d0 w0 P2 P1 P0) as (w' & E & Hcp & _); rewrite ?P3, ?P4; [done..|].
    rewrite P4 in Hcp. exists (set_dmac (moved j d) w'). rewrite E, P5. split_and!; [done|apply at_set|].
    unfold copied in *. by rewrite P3 in Hcp. }
  destruct Hr as [[-> Hp]|[-> Hp]].
  - apply (Hrun _ d w); done.
  - unfold step_initial. rewrite (bind_Done _ _ _ _ _ (dmac_modify_run _ d w Hd)).
    rewrite (bind_Done _ _ _ _ _ (dmac_run _ _ (at_set _ w))).
    assert (operational (d <| picked_channel := -1 |>) = true) as ->.
    { destruct (co_on _ _ Hc) as (E1 & E2 & E3). unfold operational, dme, nmif, ae in *. cbn. by rewrite E1, E2, E3. }
    change (pick_channel (d <| picked_channel := -1 |>)) with (pick_channel d). rewrite Hp.
    rewrite (bind_Done _ _ _ _ _ (dmac_modify_run _ _ _ (at_set _ w))), set_set.
    rewrite (bind_Done _ _ _ _ _ (dmac_modify_run _ _ _ (at_set _ w))), set_set.
    rewrite (bind_Done _ _ _ _ _ (dmac_modify_run _ _ _ (at_set _ w))), set_set.
    destruct (co_channel _ _ Hc) as [_ H2']. rewrite (proj2 (Z.eqb_neq _ _) H2').
    eapply Hrun; [| |apply at_set| | | |reflexivity]; [done|by apply (copying_chcr j d)|done..].
Qed.

(** *** Blocks *)
Lemma moved_chan j d : copying j d →
  let c := chan j d in let c' := chan j (moved j d) in
  sar c' = u32 (sar c + 4) ∧ dar c' = u32 (dar c + 4) ∧ tcr c' = u32 (tcr c - 1) ∧
  copying j (moved j d) ∧ cpu_cycles (moved j d) = cpu_cycles d ∧
  (u32 (tcr c - 1) ≠ 0 → requesting j (moved j d)) ∧
  (u32 (tcr c - 1) = 0 → te c' = 1 ∧ transfer_state (moved j d) = SH2E_DMAC_TRANSFER_STATE_INITIAL).
Proof.
  intros Hc c c'.
  assert (chan j (upd_chan j advanced (begin j d)) = advanced c) as Ea by by rewrite chan_upd_same.
  assert (moved j d = finish j (upd_chan j advanced (begin j d))) as Em by done.
  unfold finish in Em. cbv zeta in Em. set (d1 := _ <| successful_transfers_count := _ |>) in Em.
  assert (chan j d1 = advanced c) as E1 by done. subst c'. rewrite E1 in Em.
  change (tcr (advanced c)) with (u32 (tcr c - 1)) in Em.
  assert (copying j d1) as Hc1 by (apply (copying_chcr j d); [done|by rewrite E1|done]).
  destruct (Z.eqb_spec (u32 (tcr c - 1)) 0) as [E|E]; rewrite Em.
  - set (d2 := (upd_chan j (set_te 1) d1) <| transfer_state := _ |>).
    assert (chan j d2 = set_te 1 (advanced c)) as E2 by (unfold d2; change (chan j (upd_chan j (set_te 1) d1) = set_te 1 (advanced c)); by rewrite chan_upd_same, E1).
    rewrite E2. split_and!; try done.
    + destruct Hc1 as [G1 G2 G3 G4 G5 G6 G7 G8 G9 G10]. rewrite E1 in *.
      split; [done|rewrite E2..|done];
        [rewrite <- G2|rewrite <- G3|rewrite <- G4|rewrite <- G5|rewrite <- G6|rewrite <- G7|rewrite <- G8|rewrite <- G9];
        apply ubits_put_other; lia.
    + intros _. split; [by apply ubits_put_same|done].
  - set (d2 := d1 <| transfer_state := _ |>). assert (chan j d2 = advanced c) as E2 by exact E1. rewrite E2.
    split_and!; try done.
    + by apply (copying_chcr j d1).
    + intros _. by left.
Qed.

(** The loop with [k] cycles left, for [k] words. *)
Record block_ok (j k : Z) (d : sh2e_dmac) (w : W) : Prop := {
  bo_copying : copying j d;
  bo_requesting : 0 < k → requesting j d;
  bo_wf : phys_wf (w_phys w);
  bo_tcr : tcr (chan j d) = k;
  bo_range : 0 ≤ sar (chan j d) ∧ sar (chan j d) + 4 * k < 2 ^ 32 ∧ 0 ≤ dar (chan j d) ∧ dar (chan j d) + 4 * k < 2 ^ 32;
  bo_apart : sar (chan j d) + 4 * k ≤ dar (chan j d) ∨ dar (chan j d) + 4 * k ≤ sar (chan j d);
  bo_source : ∀ m, 0 ≤ m < k → mapped_at (w_phys w) (sar (chan j d) + 4 * m);
  bo_target : ∀ m, 0 ≤ m < k → writable_at (w_phys w) (dar (chan j d) + 4 * m)
}.

(** [k] words from [a] are in [w'] at [b], and nothing else changed. *)
Definition block_copied (a b k : Z) (w w' : W) : Prop :=
  (∀ m, 0 ≤ m < k → word_at (w_phys w') (b + 4 * m) = word_at (w_phys w) (a + 4 * m)) ∧
  (∀ x, 0 ≤ x < PHYS_LIMIT → ¬ (b ≤ x < b + 4 * k) → byte_at (w_phys w') x = byte_at (w_phys w) x).

Lemma block_next j k d w w1 : 0 < k → block_ok j k d w →
  copied (sar (chan j d)) (dar (chan j d)) w w1 →
  let d1 := (moved j d) <| cpu_cycles := u32 (cpu_cycles (moved j d) - 1) |> in
  block_ok j (k - 1) d1 w1 ∧ sar (chan j d1) = sar (chan j d) + 4 ∧ dar (chan j d1) = dar (chan j d) + 4 ∧
  (k = 1 → te (chan j d1) = 1 ∧ transfer_state d1 = SH2E_DMAC_TRANSFER_STATE_INITIAL).
Proof.
  intros Hk [Hc _ _ Ht Hr Ha Hs Hd] (C1 & _ & _ & C4 & C5) d1.
  destruct (moved_chan j d Hc) as (M1 & M2 & M3 & M4 & M5 & M6 & M7). rewrite Ht in *.
  assert (u32 (sar (chan j d) + 4) = sar (chan j d) + 4) as Es by (apply wrap_small; unfold in_width; lia).
  assert (u32 (dar (chan j d) + 4) = dar (chan j d) + 4) as Ed by (apply wrap_small; unfold in_width; lia).
  assert (u32 (k - 1) = k - 1) as Ek by (apply wrap_small; unfold in_width; lia).
  rewrite Es in M1. rewrite Ed in M2. rewrite Ek in M3, M6, M7.
  change (chan j d1) with (chan j (moved j d)). change (transfer_state d1) with (transfer_state (moved j d)).
  split; [|split_and!; [done|done|intros ->; by apply M7]].
  split; change (chan j d1) with (chan j (moved j d)); rewrite ?M1, ?M2, ?M3; [|..|lia|lia| |]; try done.
  - by apply (copying_chcr j (moved j d)).
  - intros Hp. apply M6. lia.
  - intros m Hm. apply C5. replace (sar (chan j d) + 4 + 4 * m) with (sar (chan j d) + 4 * (m + 1)) by lia. apply Hs. lia.
  - intros m Hm. apply C4. replace (dar (chan j d) + 4 + 4 * m) with (dar (chan j d) + 4 * (m + 1)) by lia. apply Hd. lia.
Qed.

Lemma block_loop j k d w : block_ok j (Z.of_nat k) d w → at_dmac d w → cpu_cycles d = Z.of_nat k →
  ∃ w' d', dmac_loop n k w = Done (tt, w') ∧ at_dmac d' w' ∧
    block_copied (sar (chan j d)) (dar (chan j d)) (Z.of_nat k) w w' ∧ tcr (chan j d') = 0 ∧
    ((0 < k)%nat → te (chan j d') = 1 ∧ transfer_state d' = SH2E_DMAC_TRANSFER_STATE_INITIAL).
Proof.
  revert d w. induction k as [|k IH]; intros d w Hb Hd Hcy.
  { exists w, d. split_and!; [done|done| |apply Hb|lia]. split; [intros m Hm; lia|done]. }
  pose proof Hb as [Hc Hq Hwf Ht Hr Ha Hs Hw]. cbn [dmac_loop].
  rewrite (bind_Done _ _ _ _ _ (dmac_run d w Hd)), Hcy, (proj2 (Z.gtb_lt _ _)) by lia.
  destruct (dmac_turn_run j d w Hd Hc (Hq ltac:(lia)) Hwf) as (w1 & E1 & Hd1 & Hcp);
    [by specialize (Hs 0 ltac:(lia)); rewrite Z.mul_0_r, Z.add_0_r in Hs
    |by specialize (Hw 0 ltac:(lia)); rewrite Z.mul_0_r, Z.add_0_r in Hw|].
  rewrite (bind_Done _ _ _ _ _ E1), (bind_Done _ _ _ _ _ (dmac_modify_run _ _ _ Hd1)).
  destruct (block_next j (Z.of_nat (S k)) d w w1 ltac:(lia) Hb Hcp) as (Hb1 & S1 & S2 & S3).
  set (d1 := (moved j d) <| cpu_cycles := u32 (cpu_cycles (moved j d) - 1) |>) in *. set (w2 := set_dmac d1 w1).
  replace (Z.of_nat (S k) - 1) with (Z.of_nat k) in Hb1 by lia.
  destruct (moved_chan j d Hc) as (_ & _ & _ & _ & M5 & _).
  assert (block_ok j (Z.of_nat k) d1 w2) as Hb2 by (destruct Hb1; by split).
  destruct (IH d1 w2 Hb2 (at_set d1 w1)) as (w' & d' & E2 & Hd' & [B1 B2] & T1 & T2).
  { change (cpu_cycles d1) with (u32 (cpu_cycles (moved j d) - 1)). rewrite M5, Hcy. unfold u32.
    rewrite wrap_small; [lia|]. unfold in_width. lia. }
  exists w', d'. rewrite S1, S2 in *. destruct Hcp as (_ & C2 & C3 & _ & _). change (w_phys w2) with (w_phys w1) in *.
  assert (∀ x, 0 ≤ x < 2 ^ 32 → 0 ≤ x < PHYS_LIMIT) as Hlim by (unfold PHYS_LIMIT; lia).
  split_and!; [done|done| |done|].
  - split.
    + intros m Hm. destruct (Z.eq_dec m 0) as [->|Hm0].
      * rewrite !Z.mul_0_r, !Z.add_0_r, <- C2. apply word_at_ext. intros x Hx. apply B2; [apply Hlim|]; lia.
      * replace (dar (chan j d) + 4 * m) with (dar (chan j d) + 4 + 4 * (m - 1)) by lia. rewrite B1 by lia.
        replace (sar (chan j d) + 4 + 4 * (m - 1)) with (sar (chan j d) + 4 * m) by lia.
        apply word_at_ext. intros x Hx. apply C3; [apply Hlim|]; lia.
    + intros x Hx Hn. rewrite B2 by lia. apply C3; lia.
  - intros _. destruct k as [|k]; [|apply T2; lia]. cbn in E2. injection E2 as <-.
    assert (d' = d1) as -> by (pose proof (at_set d1 w1) as Hx; unfold at_dmac in *; fold w2 in Hx; congruence).
    by apply S3.
Qed.

(** C21: the DMAC copies a block.  The channel is any but channel 2, enabled and picked,
    and set up for longwords, auto-request, cycle-steal mode, both addresses
    incrementing, direct addressing and no interrupt at the end.  A step with as many
    cycles as the channel has words to transfer moves all of them from the source to
    the destination, provided the two do not overlap and lie in ordinary memory; it
    changes nothing else in memory and
    ends with the counter at zero, the end flag set and the controller idle. *)
Theorem dmac_copies_block j k d w : at_dmac d w → block_ok j k d w → 0 < k → cpu_cycles d = k →
  ∃ w' d', dsh2edmac_step n w = Done (tt, w') ∧ at_dmac d' w' ∧
    block_copied (sar (chan j d)) (dar (chan j d)) k w w' ∧
    tcr (chan j d') = 0 ∧ te (chan j d') = 1 ∧ transfer_state d' = SH2E_DMAC_TRANSFER_STATE_INITIAL.
Proof.
  intros Hd Hb Hk Hcy. assert (Z.of_nat (Z.to_nat k) = k) as Ek by lia.
  destruct (block_loop j (Z.to_nat k) d w) as (w' & d' & E & Hd' & Hbl & Ht & Hte);
    [by rewrite Ek|done|by rewrite Ek|].
  rewrite Ek in Hbl. destruct (Hte ltac:(lia)) as [H3 H4]. exists w', d'. split_and!; try done.
  unfold dsh2edmac_step. rewrite (bind_Done _ _ _ _ _ (dmac_run d w Hd)). by rewrite Hcy.
Qed.
End Transfers.
End Chip.

(** The first page of the sample machine is ordinary memory. *)
Lemma sample_writable c low o a : 0 ≤ a < 4096 → a mod 4 = 0 → writable_at (w_phys (ShSample.machine c low o)) a.
Proof.
  intros Ha Hm. assert (lookup_frame (Sample.memory low []) a = Some (mk_frame 1 0 false)) as E.
  { replace (lookup_frame _ a) with (lookup_frame (Sample.memory low []) 0); [done|].
    apply lookup_frame_same. by rewrite !Z.div_small by lia. }
  split; [split_and!; [unfold PHYS_LIMIT; lia..|done|by eexists]|].
  intros f a' Hf Ha'. cbn in Hf. rewrite E in Hf. injection Hf as <-. by injection Ha' as <-.
Qed.
Lemma sample_wf c ws o : phys_wf (w_phys (ShSample.machine c (ShSample.be_words ws) o)).
Proof. apply Sample.memory_wf, Sample.words_at_ok, Sample.empty_ok. Qed.

(** [TRAPA #3], with the handler returning at once. *)
Lemma trapa_rte_roundtrip_witness :
  let c := (ShSample.with_regs [(15, 0x800)]) <| sr := 0xF0 |> <| pc := 0x400 |> in
  let w := ShSample.machine c (ShSample.be_words [0; 0; 0; 0x600]) ShSample.no_chip in
  ∃ w1 w3, sh2e_insn_exec_trapa 0xC303 w = Done (NONE, w1) ∧ pc_target (w_cpu w1) = 0x600 ∧
    sh2e_insn_exec_rte 0x002B w1 = Done (NONE, w3) ∧ pc_target (w_cpu w3) = 0x402 ∧
    sr (w_cpu w3) = 0xF0 ∧ sp (w_cpu w3) = 0x800.
Proof.
  intros c w.
  destruct (trapa_rte_roundtrip 0xC303 w) as (w1 & E1 & Hb & Ht & Hs & Hr);
    [apply sample_wf|by vm_compute|by vm_compute|by apply sample_writable; vm_compute|by apply sample_writable; vm_compute
    |by apply sample_writable; vm_compute|by left; vm_compute|].
  destruct (Hr w1 Hs) as (w3 & E3 & _ & H1 & H2 & H3). exists w1, w3.
  split_and!; [exact E1|rewrite Ht; by vm_compute|exact E3|exact H1|exact H2|exact H3].
Defined.

(** ** A machine with a controller and a timer *)
Module ChipSample.
Import ShSample.
Definition controller (c : sh2e_intc) : general_intc := mk_general_intc 0 c.
Definition intc0 : sh2e_intc :=
  set_source 188 (mk_source 28 true false) (sh2e_intc_init 0 SH2E_INTC_REGISTERS_START_ADDRESS).
Definition timer : Cmt.sh2e_cmt :=
  Cmt.mk_cmt (Some 0) Cmt.SH2E_CMT_REGISTERS_START_ADDRESS 1 (Cmt.mk_channel 0x40 1 3) (Cmt.mk_channel 0 0 0xFFFF)
    20 5 0 188 189 0 0.
Definition cpu0 : sh2e_cpu := (sh2e_cpu_init 0) <| intc := Some 0 |> <| insn_exception := NONE |>.
Definition chip0 (c : sh2e_intc) : onchip := mk_onchip [controller c] {[0 := PCmt timer]}.
End ChipSample.

(** 25 cycles of a clock divided by eight are three ticks. *)
Lemma cmt_keeps_time_witness :
  let w := ShSample.machine ChipSample.cpu0 ∅ (ChipSample.chip0 ChipSample.intc0) in
  ∃ c' w', update_channel_counter 0 0 w = Done (tt, w') ∧
    CmtTurn.counter 0 c' = 1 ∧ Cmt.cmcnt (Cmt.chan 0 c') = 1 ∧ Cmt.cmf (Cmt.chan 0 c') = 1.
Proof.
  intros w. pose proof (accepts_registered w 0 188 (Some 0) (ChipSample.controller ChipSample.intc0)) as Ha.
  edestruct (cmt_keeps_time 0 0 w ChipSample.timer) as (c' & E & E1 & E2 & E3);
    [by left|reflexivity|by split; vm_compute|by vm_compute|by vm_compute|by vm_compute
    |apply Ha; [done|reflexivity|reflexivity|reflexivity|reflexivity]|].
  exists c'. eexists. split; [exact E|]. split_and!; [rewrite E1; reflexivity|rewrite E2; reflexivity|].
  apply E3. by vm_compute.
Defined.

(** A rising edge while the processor sleeps. *)
Lemma nmi_hangs_sleep_witness :
  let w := ShSample.machine (ChipSample.cpu0 <| pr_state := SH2E_PSTATE_POWER_DOWN |>) ∅
             (ChipSample.chip0 (ChipSample.intc0 <| icr := 0x2100 |>)) in
  ∃ w1, sh2e_cpu_step w = Done (tt, w1) ∧ stuck (w_cpu w1) ∧ ∀ n, cpu_steps n w1 = Done (tt, w1).
Proof.
  intros w. apply (nmi_hangs_sleep w); [done..|]. eexists. cbv zeta. split_and!; reflexivity.
Defined.

(** ** A machine with a DMAC *)
Module DmacSample.
Import Dmac ShSample.
(** Two words from 0x100 to 0x200 on channel 0; [mode] is the transfer mode. *)
Definition controller (mode cycles : Z) : sh2e_dmac :=
  mk_dmac (Some 0) SH2E_DMAC_REGISTERS_START_ADDRESS 1
    {[0 := mk_channel 0x100 0x200 2 (Z.lor 0x1F1121 (Z.shiftl mode 3))]}
    SH2E_DMAC_RELOAD_COUNTER_INITIAL_VALUE ∅ cycles SH2E_DMAC_TRANSFER_STATE_INITIAL (-1) 0 ∅ 0 0.
Definition memory : gmap Z Z := Sample.words_at 0x100 [11; 22; 33; 44] (Sample.words_at 0x200 [55; 66; 77; 88] ∅).
Definition machine (mode cycles : Z) : W :=
  ShSample.machine (sh2e_cpu_init 0) memory (mk_onchip [] {[0 := PDmac (controller mode cycles)]}).
End DmacSample.

(** Two words in two cycles. *)
Lemma dmac_copies_block_witness :
  ∃ w' d', dsh2edmac_step 0 (DmacSample.machine 0 2) = Done (tt, w') ∧ at_dmac 0 d' w' ∧
    word_at (w_phys w') 0x200 = 11 ∧ word_at (w_phys w') 0x204 = 22 ∧ Dmac.te (Dmac.chan 0 d') = 1.
Proof.
  destruct (dmac_copies_block ltac:(done) 0 0 2 (DmacSample.controller 0 2) (DmacSample.machine 0 2))
    as (w' & d' & E & Hd & [B _] & Ht & Hte & _); [reflexivity| |lia|reflexivity|].
  - split; [by split; vm_compute|by right|by apply Sample.memory_wf; do 2 apply Sample.words_at_ok; apply Sample.empty_ok
           |reflexivity|by vm_compute|by left; vm_compute
           |change (Dmac.sar _) with 0x100; intros m Hm; apply sample_writable; [lia|Z.to_euclidean_division_equations; lia]
           |change (Dmac.dar _) with 0x200; intros m Hm; apply sample_writable; [lia|Z.to_euclidean_division_equations; lia]].
  - exists w', d'. split_and!; [exact E|exact Hd|exact (B 0 ltac:(lia))|exact (B 1 ltac:(lia))|exact Hte].
Defined.

(** The words at the destination and the counter. *)
Definition burst_result (cycles : Z) : option (list Z * Z * Z) :=
  match dsh2edmac_step 0 (DmacSample.machine 1 cycles) with
  | Done (_, w') =>
      match oc_peripherals (w_dev w') !! 0 with
      | Some (PDmac d) =>
          Some (map (word_at (w_phys w')) [0x200; 0x204; 0x208; 0x20C], Dmac.tcr (Dmac.chan 0 d), Dmac.te (Dmac.chan 0 d))
      | _ => None
      end
  | Stop _ => None
  end.

(** A burst transfer does not stop at its end.  Two words in burst mode are moved
    in the first cycle, and the end flag is set; the state INITIAL is then overwritten
    by WAITING, so that the next cycle moves two more words past the end of the block and
    the counter wraps around below zero. *)
Theorem dmac_burst_overruns :
  burst_result 1 = Some ([11; 22; 77; 88], 0, 1) ∧ burst_result 2 = Some ([11; 22; 33; 44], 0xFFFFFFFE, 1).
Proof. split; vm_compute; reflexivity. Qed.
